(* ===== verification/_CoqProject ===== *)
-Q . S2P
Prelude.v
Chibi.v
Chlist.v
Vt.v
Mailbox.v
Sem.v
Mutex.v
Sched.v
Events.v
Sysarch.v
Timeouts.v
Leds.v
Eeprom.v
Flash.v
Str.v
Base64.v
Iobuf.v
Memp.v
Mem.v
Chksum.v
Pbuf.v
Packet.v
Xio.v
Debug.v
Sha1.v
Json.v
JsonStream.v
Url.v
Util.v
Ws.v
Http.v
Fmt.v
Dns.v
Queue.v
Httpd.v
Net.v
Serve.v
Api.v
Upgrade.v
Rest.v
Inputs.v
Emergency.v
Drive.v
Mower.v
Power.v
Imu.v
Board.v
