(* ===== verification/Prelude.v ===== *)
(** * fw-xbot: verification of the xBot firmware (root and prelude)

    The repository is the firmware of the xCore controller board of a mowing robot: ChibiOS
    on an STM32H7, drivers of the board, a web server (mongoose, one C file of the
    repository) with a device API, and services that talk to ROS.  The library models its
    code as functions on Rocq data and proves what makes it correct.

    ** Conventions

    The target is arm-none-eabi: 32-bit [int], [long] and [size_t], unsigned [char].  An
    integer is a [Z]; where the code can wrap, the wrap is written out ([u8], [u16], [u32],
    [u64], [s32]).  A buffer is a list of bytes; every access goes through [rd], [wr],
    [slice] or [blit], which have no value outside the buffer, so a theorem that a function
    returns [Some] says that it stays inside its memory.  Loops are structural or run on
    fuel; the fuel is a length of the input plus one, the theorems prove the result and so
    that it suffices.  Loops that wait for a device (a sector erase, the reset of the sensor) have no bound in the
    code: their fuel is a parameter, and the theorems ask for more of it than the device needs.  What is not in the repository (the bus, the flash chip, the file
    system, the handlers of the user, the previous contents of stack memory) is a parameter.

    ** Files, and the code they model

    - [Prelude]: integers, buffers, string literals ([str:("...")]), the tactics [ztests], [zbool],
      [dlia], [bitwise], the hint database [fw].
    - The parts of the kernel the firmware is built on, ext/ChibiOS_21.11.3/os: [Chibi] (module
      [Time]: tick conversions of chtime.h, the microsecond clock), [Chlist] (queues and delta lists
      of chlists.h as links in a heap), [Vt] (virtual timers of chvt.c, tick-less), [Mailbox] (chmboxes.c
      and the thread queues of chthreads.c), [Sem] (chsem.c), [Mutex] (chmtx.c, with priority inheritance),
      [Sched] (stacks and priority queues of chlists.h, the scheduler of chschd.c), [Events] (chevents.c, and the main loop of
      src/main.cpp on top of it).  Each is a step relation over the calls of any number of
      threads and interrupt handlers; a sleeping thread is in the queue of the object.
    - The memory and the time of the network stack, ext/ChibiOS_21.11.3/ext/lwip/src: [Memp] (memory pools,
      core/memp.c), [Mem] (heap, core/mem.c), [Pbuf] (packet buffers, core/pbuf.c), [Chksum] (core/inet_chksum.c),
      [Timeouts] (core/timeouts.c and the waiting of api/tcpip.c), on top of [Sysarch], the operating system
      layer of os/various/lwip_bindings, which is composed of [Sem], [Mailbox] and [Chibi].
    - The transport of the services, portable/xbot: [Packet] (packet.cpp over [Sem] and the class [MemPool],
      which [Memp] implements), [Xio] (Io.cpp, socket.cpp, queue.cpp, system.cpp, and SendEvent of
      src/services/service_ext.hpp, over [Mailbox], [Events] and [Packet]).
    - [Debug]: the bridges of src/debug, TCP as a state machine of its thread beside the driver's output.
    - [JsonStream]: src/json_stream.cpp over the class [DataSource]; the parser is a parameter.
    - [Leds] (modules [Heartbeat], [StatusLed]): src/heartbeat.c, src/status_led.c as state machines
      over pins and virtual timers.
    - [Eeprom]: src/id_eeprom.c, the records of the board with checksum, over a bus parameter.
    - [Flash] (modules [Snor], [BlockDevice]): boards/XCORE/hal_flash_device.c over a model of
      the chip's commands, and the littlefs callbacks of src/filesystem/filesystem.cpp.
    - mongoose/mongoose.c: [Str] (mg_str, mg_match), [Base64], [Iobuf] (struct mg_iobuf), [Sha1],
      [Json], [Url] (percent coding, variables, chunk and range headers), [Util] (modules [Crc],
      [Path], [Timer]), [Ws] (frames), [Http] (parser), [Fmt] (mg_vxprintf), [Queue] (struct mg_queue),
      [Httpd] (replies, http_cb), [Serve] (static files), [Upgrade] (WebSocket handshake),
      [Net] (addresses, URLs), [Dns] (DNS messages).
    - mongoose/mongoose_impl.c: [Api] (attribute tables, objects, arrays, uploads) and [Rest]
      (event handler, handler table, actions, periodic WebSocket messages).
    - The safety chain of the robot, C++ under src/services and src/drivers: [Inputs] (input
      service and drivers, their JSON configuration), [Emergency] (emergency service), [Drive]
      (differential drive, class [MotorDriver] with the PWM driver as instance, floats on IEEE
      binary32), [Power] (power service, class [ChargerDriver], BQ2579 driver), and [Mower]: the
      threads of main.cpp (DispatchEvents), the emergency service and the drive as one step relation.
    - [Imu]: src/services/imu_service and the functions of ext/LSM6DS3TR-C-PID it calls, over the class
      [SpiDevice]; the classes [Lsm6Laws] and [Lsm6Output] state what the chip promises.
    - [Board]: boards/XCORE/board_utils.cpp (module [Pins]), robots/src/xbot_robot.cpp ([Robot],
      [Platform]), src/boot_service_discovery.cpp ([Discovery]), the start-up of src/main.cpp with
      src/globals.cpp and src/services.cpp ([Boot]), the state of the web interface in src/api.cpp ([WebState]).

    The components are composed as in the code: [Rest.http_ev_handler] calls [Api.handle_object]
    and [Serve.mg_http_serve_dir], which call [Httpd.mg_http_reply], [Json.mg_json_get_num],
    [Url.mg_url_decode], [Util.Path.mg_path_is_sane], [Fmt.mg_vxprintf] and so on;
    [Httpd.http_cb] takes the event handler as a parameter.  [Board.Boot.main] is composed of the EEPROM
    readers, the LEDs, [Xio.initSystem] and the robot; [Xio.SendEvent] of an event signal and a
    mailbox post; [Packet] of a semaphore and the pool; [Timeouts] reads the clock of [Sysarch] and waits on
    its message box.

    ** What the theorems show

    - Memory safety and totality on every input: the HTTP parser, the frame parser, the JSON
      scanner, percent and Base64 decoding, formatted output, the path builder.
    - Exactness: number parsing, routes, paths, API lookup, replies with their length, ranges,
      uploads, chunked and plain requests however the bytes arrive.
    - Equivalence with a reference: SHA-1 (FIPS 180-4), CRC-32, Base64 (RFC 4648), glob matching,
      the accept value of RFC 6455, the Internet checksum (RFC 1071).
    - Round trips: frames, Base64, percent coding, JSON strings, numbers, the block device.
    - Refinement: the message ring is a FIFO queue, a mailbox is a bounded deque, the list of
      timers is a list of absolute deadlines, the links of the kernel's lists are sequences, the headers
      of lwIP's heap are a list of blocks with first fit, a chain of packet buffers is a string of bytes,
      the timers of lwIP are alarms in unbounded time.
    - Ownership: the live areas of the heap and of the pools are disjoint, the reference count of a
      packet buffer is the number of pointers to it and no pointer outlives its buffer.
    - Concurrency: no wake-up of a mailbox, a semaphore or an event is lost, semaphores and packets are
      conserved, the main loop handles every event exactly once; the scheduler runs the most urgent thread,
      mutexes exclude and pass priorities on exactly.
    - Time: timers fire in order and never early, setting the alarm ends, across the
      wrap-around of the 32-bit tick counter.  The clock is an arbitrary function of the number of
      readings; [timely] bounds how far it advances between two of them.
    - State machines: the LEDs, actions of the API, the receive loop of WebSockets.
    - Safety of the robot: the emergency reasons are exact and latch, the time the thread may sleep is exact
      for the inputs it has seen (an input that changes meanwhile can be noticed late), an emergency and a lost connection stop the motors in every interleaving, the
      response terminates, a low battery cuts the power of the high level; the motors and services
      start only on the board the code tests for.
    - Devices: the inertial sensor ends up configured or reported missing and its samples are published as the chip
      holds them; the board information is what the EEPROM holds or the default.
    - Errors: the EEPROM records, the flash driver, refused allocations.

    The examples next to the models record inputs on which the code does not do what it
    means to (an over-read behind a POST without length, suffix ranges, and others); the last clause
    of [Memp.memp_exact] shows what the missing protection of the pools allows.

    ** Not modelled

    The set-up of sockets and threads (calls of lwIP and ChibiOS), the board
    register set-up (generated), TLS, MQTT, SNTP and Modbus (compiled out), the packed web pages
    (generated data), the context switch, condition variables and drivers of ChibiOS, littlefs, the protocols and sockets of lwIP, lwjson and ETL.  Between
    threads, [Mower] models the emergency stop and the kernel files the objects threads share; the handlers
    of the web server run under the lock of the poll loop and are sequential. *)

From Stdlib Require Export ZArith Lia List Ascii String Bool Btauto.
From stdpp Require Export base tactics relations list strings.

#[global] Open Scope Z_scope.
#[global] Set Default Goal Selector "!".

Create HintDb fw.

Declare Scope fw_scope.
Delimit Scope fw_scope with fw.
#[global] Open Scope fw_scope.

(** ** Characters and byte strings

    A [char] of the target (arm-none-eabi, where [char] is unsigned) is a [Z] in
    0..255.  [chr:("x")] and [str:("xyz")] elaborate to the numerals. *)

Definition byte_of_ascii (a : ascii) : Z := Z.of_N (N_of_ascii a).

Fixpoint bytes_of_string (s : string) : list Z :=
  match s with
  | EmptyString => []
  | String a s' => byte_of_ascii a :: bytes_of_string s'
  end.

Notation "'chr:' ( c )" :=
  (ltac:(let v := eval vm_compute in (byte_of_ascii c%char) in exact v))
  (at level 0, c at level 0, only parsing) : fw_scope.
Notation "'str:' ( c )" :=
  (ltac:(let v := eval vm_compute in (bytes_of_string c%string) in exact v))
  (at level 0, c at level 0, only parsing) : fw_scope.

(** ** Machine-width integers *)

Definition u8 (z : Z) : Z := z mod 2 ^ 8.
Definition u16 (z : Z) : Z := z mod 2 ^ 16.
Definition u32 (z : Z) : Z := z mod 2 ^ 32.
Definition u64 (z : Z) : Z := z mod 2 ^ 64.

(** Reinterpretation of a w-bit pattern as a two's complement integer. *)
Definition swrap (w z : Z) : Z := (z + 2 ^ (w - 1)) mod 2 ^ w - 2 ^ (w - 1).
Definition s16 (z : Z) : Z := swrap 16 z.
Definition s32 (z : Z) : Z := swrap 32 z.
Definition s64 (z : Z) : Z := swrap 64 z.

Definition UINT32_MAX : Z := 2 ^ 32 - 1.

Definition is_byte (b : Z) : Prop := 0 <= b < 256.
Abbreviation is_bytes := (Forall is_byte).

Lemma u8_range z : is_byte (u8 z).
Proof. unfold is_byte, u8. change 256 with (2 ^ 8). apply Z.mod_pos_bound. lia. Qed.

Lemma u16_range z : 0 <= u16 z < 2 ^ 16.
Proof. apply Z.mod_pos_bound. lia. Qed.

Lemma u32_range z : 0 <= u32 z < 2 ^ 32.
Proof. apply Z.mod_pos_bound. lia. Qed.

Lemma u64_range z : 0 <= u64 z < 2 ^ 64.
Proof. apply Z.mod_pos_bound. lia. Qed.

Lemma u8_small z : 0 <= z < 2 ^ 8 -> u8 z = z.
Proof. apply Z.mod_small. Qed.

Lemma u16_small z : 0 <= z < 2 ^ 16 -> u16 z = z.
Proof. apply Z.mod_small. Qed.

Lemma u32_small z : 0 <= z < 2 ^ 32 -> u32 z = z.
Proof. apply Z.mod_small. Qed.

Lemma u64_small z : 0 <= z < 2 ^ 64 -> u64 z = z.
Proof. apply Z.mod_small. Qed.

Lemma s32_id z : 0 <= z < 2 ^ 31 -> s32 z = z.
Proof. intros H. unfold s32, swrap. rewrite Z.mod_small; lia. Qed.

#[export] Hint Resolve u8_range u16_range u32_range u64_range : fw.

(** ** Finite checks: a boolean predicate on an initial segment of Z *)

Lemma forallb_seqZ (P : Z -> bool) (n : Z) :
  forallb P (seqZ 0 n) = true -> forall x, 0 <= x < n -> P x = true.
Proof.
  intros H x Hx. rewrite forallb_forall in H. apply H.
  apply list_elem_of_In, elem_of_seqZ. lia.
Qed.


(** ** Memory: a buffer is a list of bytes; an access outside it has no value *)

Definition Zlen {A} (l : list A) : Z := Z.of_nat (length l).

Definition rd {A} (b : list A) (i : Z) : option A :=
  if 0 <=? i then b !! Z.to_nat i else None.

Definition wr {A} (b : list A) (i : Z) (v : A) : option (list A) :=
  if (0 <=? i) && (i <? Zlen b) then Some (<[Z.to_nat i := v]> b) else None.

Lemma Zlen_nonneg {A} (l : list A) : 0 <= Zlen l.
Proof. unfold Zlen. lia. Qed.

Lemma Zlen_cons {A} (x : A) l : Zlen (x :: l) = Zlen l + 1.
Proof. unfold Zlen. simpl. lia. Qed.

Lemma Zlen_nil {A} : Zlen (@nil A) = 0.
Proof. reflexivity. Qed.

Lemma Zlen_app {A} (l k : list A) : Zlen (l ++ k) = Zlen l + Zlen k.
Proof. unfold Zlen. rewrite length_app. lia. Qed.

Lemma rd_Some {A} (b : list A) i x : rd b i = Some x -> 0 <= i < Zlen b.
Proof.
  unfold rd, Zlen. case_match; [|done]. intros ?%lookup_lt_Some. lia.
Qed.

Lemma rd_is_Some {A} (b : list A) i : 0 <= i < Zlen b -> is_Some (rd b i).
Proof.
  unfold rd, Zlen. intros H. rewrite (proj2 (Z.leb_le 0 i)) by lia.
  apply lookup_lt_is_Some. lia.
Qed.

Lemma rd_None {A} (b : list A) i : i < 0 \/ Zlen b <= i -> rd b i = None.
Proof.
  unfold rd, Zlen. intros H. case_match; [|done]. apply lookup_ge_None. lia.
Qed.

Lemma rd_app_l {A} (l k : list A) i : i < Zlen l -> rd (l ++ k) i = rd l i.
Proof.
  unfold rd, Zlen. intros H. case_match; [|done]. apply lookup_app_l. lia.
Qed.

Lemma rd_app_r {A} (l k : list A) i : Zlen l <= i -> rd (l ++ k) i = rd k (i - Zlen l).
Proof.
  unfold rd, Zlen. intros H. rewrite !(proj2 (Z.leb_le 0 _)) by lia.
  rewrite lookup_app_r by lia. f_equal. lia.
Qed.

Lemma wr_is_Some {A} (b : list A) i v : 0 <= i < Zlen b -> is_Some (wr b i v).
Proof.
  unfold wr. intros H. rewrite (proj2 (Z.leb_le 0 i)), (proj2 (Z.ltb_lt i _)) by lia.
  eexists. reflexivity.
Qed.

Lemma wr_Zlen {A} (b b' : list A) i v : wr b i v = Some b' -> Zlen b' = Zlen b.
Proof.
  unfold wr, Zlen. case_match; [|done]. intros [= <-]. by rewrite length_insert.
Qed.

Lemma rd_wr_eq {A} (b b' : list A) i v : wr b i v = Some b' -> rd b' i = Some v.
Proof.
  unfold wr, rd, Zlen. case_match eqn:E; [|done]. intros [= <-].
  apply andb_prop in E as [E1 E2]. rewrite E1.
  apply Z.ltb_lt in E2. apply Z.leb_le in E1.
  apply list_lookup_insert_eq. lia.
Qed.

Lemma rd_wr_ne {A} (b b' : list A) i j v :
  wr b i v = Some b' -> i <> j -> rd b' j = rd b j.
Proof.
  unfold wr, rd, Zlen. case_match eqn:E; [|done]. intros [= <-] Hne.
  apply andb_prop in E as [E1 _]. apply Z.leb_le in E1.
  case_match eqn:E3; [|done]. apply Z.leb_le in E3.
  apply list_lookup_insert_ne. lia.
Qed.

(** Access at the boundary between what is written and the rest. *)
Lemma rd_here {A} (w : list A) x r : rd (w ++ x :: r) (Zlen w) = Some x.
Proof.
  unfold rd, Zlen. rewrite (proj2 (Z.leb_le _ _)), Nat2Z.id by lia. by apply list_lookup_middle.
Qed.

Lemma wr_here {A} (w : list A) x r v : wr (w ++ x :: r) (Zlen w) v = Some (w ++ v :: r).
Proof.
  unfold wr, Zlen. rewrite length_app. simpl.
  rewrite (proj2 (Z.leb_le _ _)), (proj2 (Z.ltb_lt _ _)), Nat2Z.id by lia. simpl.
  by rewrite <- (Nat.add_0_r (length w)), insert_app_r.
Qed.

Lemma wr_next {A} (w : list A) u x r v :
  wr (w ++ u :: x :: r) (Zlen w + 1) v = Some (w ++ u :: v :: r).
Proof.
  pose proof (wr_here (w ++ [u]) x r v) as H. rewrite Zlen_app, <- !app_assoc in H. exact H.
Qed.

Lemma rd_byte (b : list Z) i x : is_bytes b -> rd b i = Some x -> is_byte x.
Proof.
  unfold rd. intros Hb. destruct (0 <=? i); [|done]. by apply Forall_lookup_1.
Qed.

Lemma Zlen_cons_inv {A} (l : list A) : 0 < Zlen l -> exists x r, l = x :: r.
Proof. destruct l; [done|eauto]. Qed.

Lemma wr_total {A} (b : list A) i v : 0 <= i < Zlen b -> exists b', wr b i v = Some b' /\ Zlen b' = Zlen b.
Proof. intros H. destruct (wr_is_Some b i v H) as [b' E]. eauto using wr_Zlen. Qed.

#[export] Hint Resolve Zlen_nonneg rd_is_Some wr_is_Some : fw.

(** ** Automation *)

(** Split every conditional of the goal, then arithmetic. *)
Ltac split_ifs :=
  repeat (case_match; simplify_eq/=).

(** Decide the integer tests of the goal by linear arithmetic. *)
Ltac ztests :=
  repeat match goal with
  | |- context [?a <=? ?b] =>
      first [rewrite (proj2 (Z.leb_le a b)) by lia | rewrite (proj2 (Z.leb_gt a b)) by lia]
  | |- context [?a <? ?b] =>
      first [rewrite (proj2 (Z.ltb_lt a b)) by lia | rewrite (proj2 (Z.ltb_ge a b)) by lia]
  | |- context [?a =? ?b] =>
      first [rewrite (proj2 (Z.eqb_eq a b)) by lia | rewrite (proj2 (Z.eqb_neq a b)) by lia]
  end; cbn [andb orb negb].

(** Linear arithmetic with division and remainder by constants. *)
Ltac dlia := Z.to_euclidean_division_equations; lia.

(** Turn boolean hypotheses about Z into propositions. *)
Ltac zbool :=
  repeat match goal with
  | H : _ && _ = true |- _ => apply andb_prop in H as [? ?]
  | H : _ || _ = false |- _ => apply orb_false_elim in H as [? ?]
  | H : negb _ = true |- _ => apply negb_true_iff in H
  | H : negb _ = false |- _ => apply negb_false_iff in H
  | H : (_ =? _) = true |- _ => apply Z.eqb_eq in H
  | H : (_ =? _) = false |- _ => apply Z.eqb_neq in H
  | H : (_ <? _) = true |- _ => apply Z.ltb_lt in H
  | H : (_ <? _) = false |- _ => apply Z.ltb_ge in H
  | H : (_ <=? _) = true |- _ => apply Z.leb_le in H
  | H : (_ <=? _) = false |- _ => apply Z.leb_gt in H
  end.

(** A decision on an equality of integers is the boolean test. *)
Lemma decide_bool_Z {A} (x y : Z) (a b : A) :
  (if decide (x = y) then a else b) = if x =? y then a else b.
Proof. destruct (decide (x = y)), (Z.eqb_spec x y); done. Qed.

(** ** Bitwise reasoning *)

#[export] Hint Rewrite Z.land_spec Z.lor_spec Z.lxor_spec Z.ldiff_spec : fw_bits.

(** Equality of two bit expressions, bit by bit. *)
Ltac bitwise :=
  apply Z.bits_inj'; intros ?n ?Hn; autorewrite with fw_bits;
  rewrite ?Z.lnot_spec, ?Z.bits_0 by lia; try btauto.

(** A number fits in w bits exactly when its bits from w upwards are clear. *)
Lemma bounded_bits w a :
  0 <= w -> (0 <= a < 2 ^ w <-> forall n, w <= n -> Z.testbit a n = false).
Proof.
  intros Hw. split.
  - intros Ha n Hn. rewrite <- (Z.mod_small a (2 ^ w)) by done.
    by apply Z.mod_pow2_bits_high.
  - intros H. enough (a = a mod 2 ^ w) as ->
      by (apply Z.mod_pos_bound, Z.pow_pos_nonneg; lia).
    apply Z.bits_inj'. intros n Hn. destruct (Z.lt_ge_cases n w).
    + by rewrite Z.mod_pow2_bits_low by lia.
    + by rewrite Z.mod_pow2_bits_high, H by lia.
Qed.

Lemma lor_small w a b :
  0 <= w -> 0 <= a < 2 ^ w -> 0 <= b < 2 ^ w -> 0 <= Z.lor a b < 2 ^ w.
Proof.
  intros Hw Ha Hb. rewrite bounded_bits in * by done. intros n Hn.
  by rewrite Z.lor_spec, Ha, Hb.
Qed.

Lemma lxor_small w a b :
  0 <= w -> 0 <= a < 2 ^ w -> 0 <= b < 2 ^ w -> 0 <= Z.lxor a b < 2 ^ w.
Proof.
  intros Hw Ha Hb. rewrite bounded_bits in * by done. intros n Hn.
  by rewrite Z.lxor_spec, Ha, Hb.
Qed.

Lemma land_small_l w a b : 0 <= w -> 0 <= a < 2 ^ w -> 0 <= Z.land a b < 2 ^ w.
Proof.
  intros Hw Ha. rewrite bounded_bits in * by done. intros n Hn.
  by rewrite Z.land_spec, Ha.
Qed.

Lemma land_small_r w a b : 0 <= w -> 0 <= b < 2 ^ w -> 0 <= Z.land a b < 2 ^ w.
Proof. rewrite Z.land_comm. apply land_small_l. Qed.

(** A wrapped value seen bit by bit. *)
Lemma testbit_mod_pow2 a w n :
  0 <= w -> Z.testbit (a mod 2 ^ w) n = (n <? w) && Z.testbit a n.
Proof.
  intros Hw. destruct (Z.ltb_spec n w).
  - destruct (Z.neg_nonneg_cases n).
    + by rewrite !Z.testbit_neg_r by lia.
    + by rewrite Z.mod_pow2_bits_low by lia.
  - by rewrite Z.mod_pow2_bits_high by lia.
Qed.

(** Disjoint bits add up. *)
Lemma lor_disjoint_add a b k : 0 <= k -> 0 <= b < 2 ^ k -> Z.lor (Z.shiftl a k) b = a * 2 ^ k + b.
Proof.
  intros Hk Hb. rewrite <- Z.shiftl_mul_pow2 by done.
  assert (Z.land (Z.shiftl a k) b = 0) as H0.
  { apply Z.bits_inj'. intros n Hn. rewrite Z.land_spec, Z.bits_0.
    destruct (Z.lt_ge_cases n k).
    - by rewrite Z.shiftl_spec_low.
    - rewrite (proj1 (bounded_bits k b Hk) Hb n) by done. apply andb_false_r. }
  pose proof (Z.add_lor_land (Z.shiftl a k) b). lia.
Qed.
