(* ===== verification/Chibi.v ===== *)
(** * Chibi: the kernel services the firmware's own code uses

    Time conversions of ChibiOS (chtime.h, with CH_CFG_ST_FREQUENCY = 10000 and
    32-bit time types as chconf.h sets them), the port's microsecond clock
    (portable/xbot/system.cpp) and the logic levels of a GPIO line. *)

From S2P Require Import Prelude.

Module Time.

Definition CH_CFG_ST_FREQUENCY : Z := 10000.

(** [time_conv_t] is 64 bits wide, [sysinterval_t], [time_msecs_t] and
    [time_usecs_t] are 32 bits wide. *)
Definition TIME_S2I (secs : Z) : Z := u32 (secs * CH_CFG_ST_FREQUENCY).

Definition TIME_MS2I (msecs : Z) : Z :=
  u32 ((msecs * CH_CFG_ST_FREQUENCY + 999) / 1000).

Definition TIME_US2I (usecs : Z) : Z :=
  u32 ((usecs * CH_CFG_ST_FREQUENCY + 999999) / 1000000).

Definition TIME_I2MS (interval : Z) : Z :=
  u32 ((interval * 1000 + CH_CFG_ST_FREQUENCY - 1) / CH_CFG_ST_FREQUENCY).

Definition TIME_I2US (interval : Z) : Z :=
  u32 ((interval * 1000000 + CH_CFG_ST_FREQUENCY - 1) / CH_CFG_ST_FREQUENCY).

(** [chTimeDiffX (start, end)]: modular difference of two system times. *)
Definition chTimeDiffX (start stop : Z) : Z := u32 (stop - start).

(** [chVTTimeElapsedSinceX (start)] at system time [now]. *)
Definition chVTTimeElapsedSinceX (now start : Z) : Z := chTimeDiffX start now.

(** [getTimeMicros ()] at system time [systime]. *)
Definition getTimeMicros (systime : Z) : Z := TIME_I2US systime.

(** The system time after [ticks] ticks since boot: a free running 32-bit counter. *)
Definition systime_at (ticks : Z) : Z := u32 ticks.

Lemma TIME_I2US_exact i : TIME_I2US i = u32 (i * 100).
Proof.
  unfold TIME_I2US, CH_CFG_ST_FREQUENCY. f_equal.
  replace (i * 1000000 + 10000 - 1) with (i * 100 * 10000 + 9999) by lia.
  rewrite Z.div_add_l by lia. change (9999 / 10000) with 0. lia.
Qed.

(** The microsecond clock of a tick count, whatever the number of times the 32-bit
    tick counter has wrapped. *)
Lemma getTimeMicros_ticks t : getTimeMicros (systime_at t) = u32 (100 * t).
Proof.
  unfold getTimeMicros, systime_at. rewrite TIME_I2US_exact. unfold u32.
  rewrite Z.mul_mod_idemp_l by lia. f_equal. lia.
Qed.

(** The 32-bit microsecond clock measures elapsed time correctly across every
    wrap-around of the 10 kHz tick counter and of the clock itself: for any two tick
    counts whose distance is below 2^32 microseconds, the unsigned difference of the
    two readings is the true distance. *)
Theorem micros_elapsed (t0 t1 : Z) (H : 0 <= 100 * (t1 - t0) < 2 ^ 32) :
  u32 (getTimeMicros (systime_at t1) - getTimeMicros (systime_at t0)) =
  100 * (t1 - t0).
Proof.
  rewrite !getTimeMicros_ticks. unfold u32. rewrite <- Zminus_mod.
  rewrite <- (Z.mod_small (100 * (t1 - t0)) (2 ^ 32)) by done. f_equal. lia.
Qed.

Lemma micros_elapsed_witness :
  u32 (getTimeMicros (systime_at 4294967297) - getTimeMicros (systime_at 4294967290))
  = 700.
Proof. apply (micros_elapsed 4294967290 4294967297). split; vm_compute; congruence. Defined.

End Time.

(** Logic level of a GPIO line. *)
Inductive level := PAL_LOW | PAL_HIGH.

#[export] Instance level_eq_dec : EqDecision level.
Proof. solve_decision. Defined.

Definition toggle (l : level) : level :=
  match l with PAL_LOW => PAL_HIGH | PAL_HIGH => PAL_LOW end.
