(* ===== verification/Chlist.v ===== *)
(** * Chlist: the linked lists of the kernel (ext/ChibiOS_21.11.3/os/rt/include/chlists.h)

    Circular doubly linked queues and delta lists with a header node, on a memory of links.
    [ring h q l] says that the nodes of [l] hang between the header [q] and itself, in
    order, forwards and backwards.  Each operation is shown to be the operation on
    sequences that the other files use: insertion at the end, removal at either end or in
    the middle, and the ordered insertion into a list of deltas. *)

From S2P Require Import Prelude.

Record heap := Heap { next : Z -> Z; prev : Z -> Z; delta : Z -> Z }.

Definition upd (f : Z -> Z) (k v : Z) : Z -> Z := fun x => if x =? k then v else f x.

Definition set_next (h : heap) (k v : Z) := Heap (upd (next h) k v) (prev h) (delta h).
Definition set_prev (h : heap) (k v : Z) := Heap (next h) (upd (prev h) k v) (delta h).
Definition set_delta (h : heap) (k v : Z) := Heap (next h) (prev h) (upd (delta h) k v).

(** ** Queues *)

Definition ch_queue_init (h : heap) (q : Z) : heap := set_prev (set_next h q q) q q.
Definition ch_queue_isempty (h : heap) (q : Z) : bool := next h q =? q.
Definition ch_queue_notempty (h : heap) (q : Z) : bool := negb (next h q =? q).

Definition ch_queue_insert (h : heap) (q p : Z) : heap :=
  let h := set_next h p q in
  let h := set_prev h p (prev h q) in
  let h := set_next h (prev h p) p in
  set_prev h q p.

Definition ch_queue_fifo_remove (h : heap) (q : Z) : heap * Z :=
  let p := next h q in
  let h := set_next h q (next h p) in
  (set_prev h (next h q) q, p).

Definition ch_queue_lifo_remove (h : heap) (q : Z) : heap * Z :=
  let p := prev h q in
  let h := set_prev h q (prev h p) in
  (set_next h (prev h q) q, p).

Definition ch_queue_dequeue (h : heap) (p : Z) : heap :=
  let h := set_next h (prev h p) (next h p) in
  set_prev h (next h p) (prev h p).

(** ** Delta lists *)

Definition DELTA_MAX : Z := 2 ^ 32 - 1.

Definition ch_dlist_init (h : heap) (d : Z) : heap := set_delta (set_prev (set_next h d d) d d) d DELTA_MAX.
Definition ch_dlist_isempty (h : heap) (d : Z) : bool := d =? next h d.
Definition ch_dlist_notempty (h : heap) (d : Z) : bool := negb (d =? next h d).
Definition ch_dlist_islast (h : heap) (d e : Z) : bool := next h e =? d.
Definition ch_dlist_isfirst (h : heap) (d e : Z) : bool := next h d =? e.

Definition ch_dlist_insert_after (h : heap) (d e dlt : Z) : heap :=
  let h := set_delta h e dlt in
  let h := set_prev h e d in
  let h := set_next h e (next h (prev h e)) in
  let h := set_prev h (next h e) e in
  set_next h d e.

Definition ch_dlist_insert_before (h : heap) (d e dlt : Z) : heap :=
  let h := set_delta h e dlt in
  let h := set_next h e d in
  let h := set_prev h e (prev h (next h e)) in
  let h := set_next h (prev h e) e in
  set_prev h d e.

(** The scan for the position; [None]: out of fuel. *)
Fixpoint dlist_scan (fuel : nat) (h : heap) (p dlt : Z) : option (Z * Z) :=
  match fuel with
  | O => None
  | S fuel => if delta h p <? dlt then dlist_scan fuel h (next h p) (u32 (dlt - delta h p)) else Some (p, dlt)
  end.

Definition ch_dlist_insert (fuel : nat) (h : heap) (d e dlt : Z) : option heap :=
  '(p, dlt) ← dlist_scan fuel h (next h d) dlt;
  let h := ch_dlist_insert_before h p e dlt in
  let h := set_delta h p (u32 (delta h p - dlt)) in
  Some (set_delta h d DELTA_MAX).

Definition ch_dlist_remove_first (h : heap) (d : Z) : heap * Z :=
  let p := next h d in
  let h := set_next h d (next h p) in
  (set_prev h (next h d) d, p).

Definition ch_dlist_dequeue (h : heap) (p : Z) : heap :=
  let h := set_next h (prev h p) (next h p) in
  set_prev h (next h p) (prev h p).

(** ** Segments and rings *)

(** From [x] through the nodes of [l] to [y]. *)
Fixpoint seg (h : heap) (x : Z) (l : list Z) (y : Z) : Prop :=
  match l with
  | [] => next h x = y /\ prev h y = x
  | z :: l => next h x = z /\ prev h z = x /\ seg h z l y
  end.

Definition ring (h : heap) (q : Z) (l : list Z) : Prop := seg h q l q /\ NoDup (q :: l).

Lemma seg_app h a : forall x z b y, seg h x (a ++ z :: b) y <-> seg h x a z /\ seg h z b y.
Proof. induction a as [|u a IH]; intros x z b y; cbn; [|rewrite IH]; tauto. Qed.

(** The links of a segment. *)
Definition agree (h h' : heap) (x : Z) (l : list Z) (y : Z) : Prop :=
  (forall u, u ∈ x :: l -> next h' u = next h u) /\ (forall u, u ∈ l ++ [y] -> prev h' u = prev h u).

Lemma seg_agree h h' l : forall x y, agree h h' x l y -> seg h x l y -> seg h' x l y.
Proof.
  induction l as [|z l IH]; intros x y [Hn Hp]; cbn.
  - rewrite Hn, Hp by (apply elem_of_cons; by left). done.
  - rewrite Hn, Hp by (apply elem_of_cons; by left). intros (? & ? & ?). split_and!; try done.
    apply IH; [|done]. split; intros u Hu; [apply Hn|apply Hp]; by apply elem_of_cons; right.
Qed.

Lemma seg_last h l : forall x y, seg h x l y -> prev h y = List.last (x :: l) x /\ prev h y ∈ x :: l.
Proof.
  induction l as [|z l IH]; intros x y; cbn [seg].
  - intros [_ ->]. split; [done|by left].
  - intros (_ & _ & H). destruct (IH z y H) as [E I]. split; [|by right].
    rewrite E. cbn. destruct l; [done|]. clear. revert z. induction l as [|v l IH]; intros z; cbn; [done|].
    destruct l; [done|]. apply IH.
Qed.

Ltac links := cbn [next prev delta set_next set_prev set_delta fst snd]; unfold upd.
(** Decide the pointer comparisons, inner ones first. *)
Ltac ptrs :=
  repeat (rewrite ?Z.eqb_refl;
    match goal with
    | |- context [?a =? ?b] =>
        lazymatch a with context [_ =? _] => fail | _ => idtac end;
        lazymatch b with context [_ =? _] => fail | _ => idtac end;
        destruct (Z.eqb_spec a b); try subst; try congruence
    end); rewrite ?Z.eqb_refl; try congruence.

(** A segment up to [p] is led to [w] instead, by two writes. *)
Lemma seg_redirect h h' p w a : forall x, seg h x a p -> NoDup (x :: a) ->
  next h' (prev h p) = w -> prev h' w = prev h p ->
  (forall z, z ∈ x :: a -> z <> prev h p -> next h' z = next h z) ->
  (forall z, z ∈ a -> prev h' z = prev h z) -> seg h' x a w.
Proof.
  induction a as [|z a IH]; intros x; cbn [seg].
  - intros [_ Hp] _ H1 H2 _ _. rewrite Hp in *. done.
  - intros (Hn & Hp & Hs) [Hx Hnd]%NoDup_cons H1 H2 H3 H4. pose proof (proj2 (seg_last _ _ _ _ Hs)) as Hin.
    split_and!.
    + rewrite H3; [done|by left|]. intros ->. done.
    + rewrite H4; [done|by left].
    + apply IH; try done.
      * intros u Hu. apply H3. by right.
      * intros u Hu. apply H4. by right.
Qed.

(** The node behind position [a] of a ring. *)
Definition at_pos (q : Z) (b : list Z) : Z := match b with [] => q | v :: _ => v end.

Lemma ring_split h q a b : seg h q (a ++ b) q <->
  match b with [] => seg h q a q | v :: b => seg h q a v /\ seg h v b q end.
Proof. destruct b; [by rewrite app_nil_r|apply seg_app]. Qed.

Lemma ring_last h q a b : seg h q (a ++ b) q -> prev h (at_pos q b) ∈ q :: a.
Proof. rewrite ring_split. destruct b; [|intros [H _]]; [intros H|]; apply (seg_last _ _ _ _ H). Qed.

(** What both insertions do to the links. *)
Record linked_before (h h' : heap) (v e : Z) : Prop := {
  lb_next : forall z, next h' z = if z =? prev h v then e else if z =? e then v else next h z;
  lb_prev : forall z, prev h' z = if z =? v then e else if z =? e then prev h v else prev h z;
}.

Lemma ring_insert h h' q a b e : ring h q (a ++ b) -> e ∉ q :: a ++ b -> linked_before h h' (at_pos q b) e ->
  ring h' q (a ++ e :: b).
Proof.
  intros [Hs Hnd] He [Ln Lp]. pose proof (ring_last _ _ _ _ Hs) as Hu. set (v := at_pos q b) in *.
  assert (NoDup (q :: a)) as Hqa by (rewrite app_comm_cons in Hnd; by apply NoDup_app in Hnd as [? _]).
  assert (e <> prev h v) as Heu.
  { intros E. apply He. rewrite E, app_comm_cons. apply elem_of_app. by left. }
  assert (v ∈ q :: a ++ b) as Hvin.
  { unfold v, at_pos. destruct b; [by left|]. rewrite app_comm_cons. apply elem_of_app. right. by left. }
  assert (e <> v) as Hev by (intros ->; done).
  assert (v ∉ a) as Hva.
  { unfold v, at_pos. destruct b; [by apply NoDup_cons in Hqa as [? _]|].
    rewrite app_comm_cons in Hnd. apply NoDup_app in Hnd as (_ & Hd & _). intros H. apply (Hd z); [by right|by left]. }
  assert (seg h q a v) as Ha.
  { apply ring_split in Hs. unfold v, at_pos. by destruct b; [|destruct Hs]. }
  assert (seg h' q a e) as Ha'.
  { apply (seg_redirect h h' v); try done.
    - rewrite Ln. by rewrite Z.eqb_refl.
    - rewrite Lp. ptrs.
    - intros z Hz Hne. rewrite Ln. ptrs. exfalso. apply He. rewrite app_comm_cons. apply elem_of_app. by left.
    - intros z Hz. rewrite Lp. ptrs. exfalso. apply He. right. apply elem_of_app. by left. }
  split.
  - rewrite seg_app. split; [done|]. destruct b as [|w b]; cbn [seg] in *.
    + change v with q in *. split; [rewrite Ln|rewrite Lp]; ptrs.
    + change v with w in *. split_and!; [rewrite Ln; ptrs|rewrite Lp; ptrs|].
      apply ring_split in Hs as [_ Hb]. apply (seg_agree h); [|done].
      rewrite app_comm_cons in Hnd. apply NoDup_app in Hnd as (_ & Hd & Hwb). split.
      * intros z Hz. rewrite Ln. ptrs; [by destruct (Hd _ Hu)|]. exfalso. apply He. right. apply elem_of_app. by right.
      * intros z [Hz| ->%list_elem_of_singleton]%elem_of_app; rewrite Lp; ptrs.
        -- apply NoDup_cons in Hwb as [? _]. done.
        -- exfalso. apply He. right. apply elem_of_app. right. by right.
        -- destruct (Hd w); [by left|by left].
        -- exfalso. apply He. by left.
  - replace (q :: a ++ e :: b) with ((q :: a) ++ e :: b) by done. rewrite <- Permutation_middle. apply NoDup_cons. done.
Qed.

(** What the removals do to the links. *)
Record unlinked (h h' : heap) (p : Z) : Prop := {
  ul_next : forall z, next h' z = if z =? prev h p then next h p else next h z;
  ul_prev : forall z, prev h' z = if z =? next h p then prev h p else prev h z;
}.

Lemma ring_remove h h' q a p b : ring h q (a ++ p :: b) -> unlinked h h' p -> ring h' q (a ++ b).
Proof.
  intros [Hs Hnd] [Ln Lp]. pose proof (ring_last _ _ _ _ Hs) as Hu. cbn [at_pos] in Hu.
  apply seg_app in Hs as [Ha Hb].
  assert (NoDup (q :: a) /\ NoDup (p :: b) /\ (forall z, z ∈ q :: a -> z ∉ p :: b)) as (Hqa & Hpb & Hd).
  { rewrite app_comm_cons in Hnd. apply NoDup_app in Hnd. tauto. }
  assert (next h p = at_pos q b) as Hnp by (destruct b; by destruct Hb).
  set (w := at_pos q b) in *.
  assert (w ∉ a) as Hwa.
  { unfold w, at_pos. destruct b as [|z b]; [by apply NoDup_cons in Hqa as [? _]|].
    intros H. apply (Hd z); [by right|right; by left]. }
  assert (seg h' q a w) as Ha'.
  { apply (seg_redirect h h' p); try done.
    - by rewrite Ln, Z.eqb_refl, Hnp.
    - by rewrite Lp, Hnp, Z.eqb_refl.
    - intros z Hz Hne. rewrite Ln. ptrs.
    - intros z Hz. rewrite Lp. ptrs. }
  split.
  - apply ring_split. destruct b as [|z b]; [done|]. change w with z in *. split; [done|].
    cbn [seg] in Hb. destruct Hb as (_ & _ & Hb). apply (seg_agree h); [|done]. split.
    + intros u Hu'. rewrite Ln. ptrs. destruct (Hd _ Hu). by right.
    + intros u Hu'. rewrite Lp, Hnp. ptrs. apply elem_of_app in Hu' as [Hz|Hz].
      * apply NoDup_cons in Hpb as [_ Hzb]. by apply NoDup_cons in Hzb as [? _].
      * apply list_elem_of_singleton in Hz. exfalso. apply (Hd q); [by left|]. rewrite <- Hz. right. by left.
  - rewrite app_comm_cons. rewrite app_comm_cons in Hnd. rewrite <- Permutation_middle in Hnd.
    by apply NoDup_cons in Hnd as [_ ?].
Qed.

(** ** Queues are sequences *)

Lemma queue_insert_links h q p : p <> q -> p <> prev h q -> linked_before h (ch_queue_insert h q p) q p.
Proof. intros H1 H2. unfold ch_queue_insert. split; intros z; links; ptrs. Qed.

Lemma queue_dequeue_links h p : prev h p <> p -> next h p <> p -> unlinked h (ch_queue_dequeue h p) p.
Proof. intros H1 H2. unfold ch_queue_dequeue. split; intros z; links; ptrs. Qed.

Lemma queue_fifo_links h q : prev h (next h q) = q -> next h q <> q -> next h (next h q) <> next h q ->
  unlinked h (ch_queue_fifo_remove h q).1 (next h q).
Proof. intros H1 H2 H3. unfold ch_queue_fifo_remove. split; intros z; links; rewrite ?Z.eqb_refl, ?H1; ptrs. Qed.

Lemma queue_lifo_links h q : next h (prev h q) = q -> prev h q <> q -> prev h (prev h q) <> prev h q ->
  unlinked h (ch_queue_lifo_remove h q).1 (prev h q).
Proof. intros H1 H2 H3. unfold ch_queue_lifo_remove. split; intros z; links; rewrite ?Z.eqb_refl, ?H1; ptrs. Qed.

(** The neighbours of a node of a ring. *)
Lemma ring_node h q a p b : ring h q (a ++ p :: b) ->
  next h p = at_pos q b /\ prev h p ∈ q :: a /\ next h (prev h p) = p /\ prev h (next h p) = p /\
  next h p <> p /\ prev h p <> p.
Proof.
  intros [Hs Hnd]. pose proof (ring_last _ _ _ _ Hs) as Hu. cbn [at_pos] in Hu.
  apply seg_app in Hs as [Ha Hb].
  assert (p ∉ q :: a /\ p ∉ b /\ q <> p) as (Hpa & Hpb & Hqp).
  { rewrite app_comm_cons in Hnd. apply NoDup_app in Hnd as (_ & Hd & Hnd).
    assert (p ∉ q :: a) by (intros H; apply (Hd p H); by left). split_and!; [done| |].
    - by apply NoDup_cons in Hnd as [? _].
    - intros ->. apply H. by left. }
  assert (next h (prev h p) = p) as Hnp.
  { clear -Ha. revert q Ha. induction a as [|z a IH]; intros q; cbn; [by intros [? ->]|]. intros (_ & _ & H). by apply (IH z). }
  assert (next h p = at_pos q b /\ prev h (next h p) = p) as [E1 E2] by (destruct b; cbn in Hb; destruct Hb as [-> ?]; tauto).
  split_and!; try done.
  - rewrite E1. unfold at_pos. destruct b; [done|]. intros ->. apply Hpb. by left.
  - intros E. by rewrite E in Hu.
Qed.

(** The kernel's doubly linked queue is a sequence.  On any ring of links that represents a
    sequence of distinct nodes: the emptiness test is right; insertion appends; the two removals
    return the first and the last node and leave the others in order; and a node can be taken out
    of any position - each time the links form a ring again, forwards and backwards. *)
Theorem ch_queue_sequence (h : heap) (q : Z) (l : list Z) (Hr : ring h q l) :
  ch_queue_isempty h q = (match l with [] => true | _ => false end) /\
  (forall p, p ∉ q :: l -> ring (ch_queue_insert h q p) q (l ++ [p])) /\
  (forall x r, l = x :: r -> (ch_queue_fifo_remove h q).2 = x /\ ring (ch_queue_fifo_remove h q).1 q r) /\
  (forall x r, l = r ++ [x] -> (ch_queue_lifo_remove h q).2 = x /\ ring (ch_queue_lifo_remove h q).1 q r) /\
  (forall a p b, l = a ++ p :: b -> ring (ch_queue_dequeue h p) q (a ++ b)).
Proof.
  split_and!.
  - unfold ch_queue_isempty. destruct Hr as [Hs Hn]. destruct l as [|x l]; cbn in Hs; destruct Hs as [-> _].
    + apply Z.eqb_refl.
    + apply Z.eqb_neq. intros ->. apply NoDup_cons in Hn as [Hn _]. apply Hn. by left.
  - intros p Hp. pose proof Hr as [Hs _]. rewrite <- (app_nil_r l) in Hs.
    pose proof (ring_last _ _ _ _ Hs) as Hu. cbn [at_pos] in Hu.
    apply (ring_insert h); rewrite ?app_nil_r; try done. apply queue_insert_links; intros ->; [apply Hp; by left|done].
  - intros x r ->. destruct (ring_node h q [] x r Hr) as (E1 & _ & E3 & E4 & E5 & E6).
    assert (next h q = x) as Eq by (destruct Hr as [(E & _) _]; done).
    assert (prev h x = q) as Ep by (destruct Hr as [(_ & E & _) _]; done).
    split; [done|]. apply (ring_remove h _ q [] x r Hr). rewrite <- Eq. apply queue_fifo_links; rewrite Eq; try done.
    intros ->. done.
  - intros x r ->. destruct (ring_node h q r x [] Hr) as (E1 & _ & E3 & E4 & E5 & E6). cbn [at_pos] in E1. rewrite E1 in E4.
    split; [done|]. replace r with (r ++ []) by apply app_nil_r. apply (ring_remove h _ q r x []); [done|].
    rewrite <- E4. apply queue_lifo_links; rewrite E4; try done. intros ->. done.
  - intros a p b ->. destruct (ring_node h q a p b Hr) as (_ & _ & _ & _ & E5 & E6).
    apply (ring_remove h _ q a p b); [done|]. by apply queue_dequeue_links.
Qed.

Lemma ch_queue_sequence_witness :
  ring (ch_queue_insert (ch_queue_insert (ch_queue_init (Heap id id id) 0) 0 5) 0 6) 0 [5; 6].
Proof.
  assert (ring (ch_queue_insert (ch_queue_init (Heap id id id) 0) 0 5) 0 [5]) as Hr.
  { split; [vm_compute; tauto|]. repeat constructor; set_solver. }
  refine (proj1 (proj2 (ch_queue_sequence _ 0 [5] Hr)) 6 _). set_solver.
Defined.

(** ** Delta lists *)

(** The list as nodes with their deltas. *)
Record dlist_rep (h : heap) (d : Z) (l : list (Z * Z)) : Prop := {
  dr_ring : ring h d (map fst l);
  dr_delta : Forall (fun '(x, dx) => delta h x = dx /\ 0 <= dx <= DELTA_MAX) l;
  dr_header : delta h d = DELTA_MAX;
}.

(** Insertion in front of the first node that is not earlier. *)
Fixpoint dl_insert (l : list (Z * Z)) (e dlt : Z) : list (Z * Z) :=
  match l with
  | [] => [(e, dlt)]
  | (x, dx) :: r => if dx <? dlt then (x, dx) :: dl_insert r e (dlt - dx) else (e, dlt) :: (x, dx - dlt) :: r
  end.

Definition dl_shorten (l : list (Z * Z)) (dlt : Z) : list (Z * Z) :=
  match l with [] => [] | (x, dx) :: r => (x, dx - dlt) :: r end.

(** The scan stops where the insertion splits the list. *)
Lemma dlist_scan_spec h d e : delta h d = DELTA_MAX -> forall l x dlt fuel, seg h x (map fst l) d ->
  Forall (fun '(x, dx) => delta h x = dx /\ 0 <= dx <= DELTA_MAX) l -> 0 <= dlt <= DELTA_MAX -> (length l < fuel)%nat ->
  exists a b dlt', l = a ++ b /\ dlist_scan fuel h (next h x) dlt = Some (at_pos d (map fst b), dlt') /\
    dl_insert l e dlt = a ++ (e, dlt') :: dl_shorten b dlt' /\ 0 <= dlt' <= DELTA_MAX /\
    match b with [] => True | (_, dy) :: _ => dlt' <= dy end.
Proof.
  intros Hd. induction l as [|[y dy] l IH]; intros x dlt fuel Hs Hf Hdl Hfu;
    (destruct fuel as [|fuel]; [cbn in Hfu; lia|]); cbn [map fst seg] in Hs; cbn [dlist_scan].
  - destruct Hs as [-> _]. rewrite Hd. ztests. exists [], [], dlt. done.
  - destruct Hs as (-> & Hp & Hs). apply Forall_cons in Hf as [[Hdy Hrng] Hf]. rewrite Hdy. cbn [dl_insert].
    destruct (Z.ltb_spec dy dlt) as [Hlt|Hge].
    + rewrite u32_small by (unfold DELTA_MAX in *; lia).
      destruct (IH y (dlt - dy) fuel Hs Hf) as (a & b & dlt' & -> & -> & -> & ? & ?); [lia|cbn in Hfu; lia|].
      exists ((y, dy) :: a), b, dlt'. done.
    + exists [], ((y, dy) :: l), dlt. done.
Qed.

Lemma insert_before_links h v e dlt : e <> v -> e <> prev h v -> linked_before h (ch_dlist_insert_before h v e dlt) v e.
Proof. intros H1 H2. unfold ch_dlist_insert_before. split; intros z; links; rewrite ?Z.eqb_refl; ptrs. Qed.

Lemma insert_deltas h v e d dlt w x : delta (set_delta (set_delta (ch_dlist_insert_before h v e dlt) v w) d DELTA_MAX) x =
  if x =? d then DELTA_MAX else if x =? v then w else if x =? e then dlt else delta h x.
Proof. reflexivity. Qed.

Lemma set_delta_links h k v v' e h0 : linked_before h0 h v' e -> linked_before h0 (set_delta h k v) v' e.
Proof. by intros []. Qed.

Lemma map_fst_shorten b dlt : map fst (dl_shorten b dlt) = map fst b.
Proof. by destruct b as [|[? ?] ?]. Qed.

(** The ordered insertion into a list of deltas is right at the level of its links and
    words: on links that represent a list of nodes with deltas, the scan ends within as many
    steps as the list is long and stops at the header at the latest, no subtraction wraps, and the
    links then represent the list with the node inserted in front of the first one that is not
    earlier and that one's delta shortened, the header's delta restored. *)
Theorem ch_dlist_insert_ordered (h : heap) (d e dlt : Z) (l : list (Z * Z)) (fuel : nat)
    (Hr : dlist_rep h d l) (He : e ∉ d :: map fst l) (Hdlt : 0 <= dlt <= DELTA_MAX) (Hfuel : (length l < fuel)%nat) :
  exists h', ch_dlist_insert fuel h d e dlt = Some h' /\ dlist_rep h' d (dl_insert l e dlt).
Proof.
  destruct Hr as [[Hs Hnd] Hf Hh].
  destruct (dlist_scan_spec h d e Hh l d dlt fuel Hs Hf Hdlt Hfuel) as (a & b & dlt' & -> & E & Ei & Hd' & Hb).
  unfold ch_dlist_insert. rewrite E. cbn [mbind option_bind]. eexists. split; [done|]. rewrite Ei.
  rewrite map_app in *. set (v := at_pos d (map fst b)) in *.
  assert (v ∈ d :: map fst a ++ map fst b) as Hv.
  { unfold v, at_pos. destruct b; [by left|]. right. apply elem_of_app. right. by left. }
  assert (e <> v) as Hev by (intros ->; done).
  assert (e <> prev h v) as Hep.
  { intros ->. apply He. pose proof (ring_last _ _ _ _ Hs) as Hu. rewrite app_comm_cons. apply elem_of_app. by left. }
  split.
  - rewrite map_app. cbn [map fst]. rewrite map_fst_shorten. apply (ring_insert h); [done|done|].
    fold v. by apply set_delta_links, set_delta_links, insert_before_links.
  - rewrite Forall_app, Forall_cons. apply Forall_app in Hf as [Hfa Hfb].
    assert (forall l', (forall x, x ∈ map fst l' -> x <> d /\ x <> e /\ x <> v) ->
      Forall (fun '(x, dx) => delta h x = dx /\ 0 <= dx <= DELTA_MAX) l' ->
      Forall (fun '(x, dx) => delta (set_delta (set_delta (ch_dlist_insert_before h v e dlt') v
         (u32 (delta (ch_dlist_insert_before h v e dlt') v - dlt'))) d DELTA_MAX) x = dx /\ 0 <= dx <= DELTA_MAX) l') as Hkeep.
    { intros l' Hx Hl'. apply Forall_forall. intros [x dx] Hin.
      pose proof (proj1 (Forall_forall _ _) Hl' _ Hin) as Hdx. cbn in Hdx.
      destruct (Hx x) as (? & ? & ?); [apply list_elem_of_In, (in_map fst l' (x, dx)), list_elem_of_In; done|].
      by rewrite insert_deltas, !(proj2 (Z.eqb_neq _ _)). }
    rewrite app_comm_cons, NoDup_app in Hnd. destruct Hnd as (Hnda & Hdj & Hndb). split_and!.
    + apply Hkeep; [|done]. intros x Hx. apply NoDup_cons in Hnda as [Hda _]. split_and!; intros ->; [done| |].
      * apply He. right. apply elem_of_app. by left.
      * unfold v, at_pos in *. destruct b; [done|]. apply (Hdj p.1); [by right|by left].
    + rewrite insert_deltas, Z.eqb_refl, (proj2 (Z.eqb_neq e v)), (proj2 (Z.eqb_neq e d)); [done| |done].
      intros ->. apply He. by left.
    + lia.
    + lia.
    + destruct b as [|[y dy] b]; [constructor|]. cbn [dl_shorten]. apply Forall_cons in Hfb as [[Hdy Hrng] Hfb].
      change v with y in *. apply Forall_cons. split.
      * rewrite insert_deltas, Z.eqb_refl, (proj2 (Z.eqb_neq y d)).
        -- change (delta (ch_dlist_insert_before h y e dlt') y) with (if y =? e then dlt' else delta h y).
           rewrite (proj2 (Z.eqb_neq y e)), Hdy, u32_small by (done || unfold DELTA_MAX in *; lia). lia.
        -- intros ->. apply (Hdj d); by left.
      * apply NoDup_cons in Hndb as [Hyb _]. apply Hkeep; [|done]. intros x Hx. split_and!; intros ->; [| |done].
        -- apply (Hdj d); [by left|by right].
        -- apply He. right. apply elem_of_app. right. by right.
  - links. by rewrite Z.eqb_refl.
Qed.

Lemma ch_dlist_insert_ordered_witness :
  exists h', ch_dlist_insert 5 (ch_dlist_insert_after (ch_dlist_init (Heap id id id) 0) 0 5 30) 0 6 10 = Some h' /\
    dlist_rep h' 0 [(6, 10); (5, 20)].
Proof.
  apply (ch_dlist_insert_ordered _ 0 6 10 [(5, 30)]).
  - split; [split; [vm_compute; tauto|repeat constructor; set_solver]|repeat constructor; vm_compute; congruence|reflexivity].
  - cbn. set_solver.
  - vm_compute. split; congruence.
  - cbn. lia.
Defined.

(** Taking out a node leaves the other deltas alone. *)
Lemma ch_dlist_dequeue_rep h d a p dp b : dlist_rep h d (a ++ (p, dp) :: b) ->
  dlist_rep (ch_dlist_dequeue h p) d (a ++ b).
Proof.
  intros [Hr Hf Hh]. rewrite map_app in Hr. cbn [map fst] in Hr.
  destruct (ring_node _ _ _ _ _ Hr) as (_ & _ & _ & _ & E5 & E6). split; [|by apply Forall_app in Hf as [? [? ?]%Forall_cons]; apply Forall_app|done].
  rewrite map_app. apply (ring_remove h _ _ _ p); [done|]. by apply (queue_dequeue_links h p).
Qed.

Lemma ch_dlist_remove_first_rep h d x dx l : dlist_rep h d ((x, dx) :: l) ->
  (ch_dlist_remove_first h d).2 = x /\ dlist_rep (ch_dlist_remove_first h d).1 d l.
Proof.
  intros [Hr Hf Hh]. cbn [map fst] in Hr. destruct (ring_node h d [] x (map fst l) Hr) as (E1 & _ & E3 & E4 & E5 & E6).
  assert (next h d = x) as Eq by (destruct Hr as [(E & _) _]; done).
  assert (prev h x = d) as Ep by (destruct Hr as [(_ & E & _) _]; done).
  split; [done|]. split; [|by apply Forall_cons in Hf as [_ ?]|done].
  apply (ring_remove h _ d [] x (map fst l) Hr). rewrite <- Eq. apply (queue_fifo_links h d); rewrite Eq; try done. intros ->. done.
Qed.
