(* ===== verification/Vt.v ===== *)
(** * Vt: the virtual timers of the kernel (ext/ChibiOS_21.11.3/os/rt/src/chvt.c, tick-less mode)

    Heartbeat, LED, time-outs and event timing of the firmware hang on these timers.  The armed timers are a
    list of deltas in the order of their deadlines, relative to [lasttime]; Chlist shows
    that the linked list of the code is that sequence.  The hardware counter is a parameter:
    [clock n] is the true tick count at the n-th reading since boot, the code reads its lower 32
    bits; [reads] counts the readings.  The alarm of the hardware timer is part of the state.
    Configuration of cfg/chconf.h: 32-bit time and intervals, CH_CFG_ST_TIMEDELTA = 10 ticks of
    100 microseconds. *)

From S2P Require Import Prelude Chibi Chlist.
From Stdlib Require Import Sorting.Sorted.

Definition CH_CFG_ST_TIMEDELTA : Z := 10.

(** [reload] of each timer; [faults] counts the CH_RFCU_VT_INSUFFICIENT_DELTA and
    CH_RFCU_VT_SKIPPED_DEADLINE reports.  [None] is a failed check or assertion of the kernel, or
    a loop out of fuel. *)
Record vtlist := VT {
  dlist : list (Z * Z); lasttime : Z; alarm : option Z; reload : Z -> Z; reads : nat; faults : Z; laststamp : Z
}.

Definition set_dlist (s : vtlist) l := VT l (lasttime s) (alarm s) (reload s) (reads s) (faults s) (laststamp s).
Definition set_lasttime (s : vtlist) t := VT (dlist s) t (alarm s) (reload s) (reads s) (faults s) (laststamp s).
Definition set_alarm (s : vtlist) a := VT (dlist s) (lasttime s) a (reload s) (reads s) (faults s) (laststamp s).
Definition set_reload (s : vtlist) x r := VT (dlist s) (lasttime s) (alarm s) (upd (reload s) x r) (reads s) (faults s) (laststamp s).

Definition chTimeAddX (t d : Z) : Z := u32 (t + d).

Section Vt.
Context (clock : nat -> Z).

Definition chVTGetSystemTimeX (s : vtlist) : Z * vtlist :=
  (u32 (clock (reads s)),
   VT (dlist s) (lasttime s) (alarm s) (reload s) (S (reads s)) (faults s) (laststamp s)).

(** The report at the end of both loops. *)
Definition collect_fault (s : vtlist) (currdelta : Z) : vtlist :=
  if CH_CFG_ST_TIMEDELTA <? currdelta
  then VT (dlist s) (lasttime s) (alarm s) (reload s) (reads s) (faults s + 1) (laststamp s) else s.

(** The loop of [vt_set_alarm]; [None]: out of fuel. *)
Fixpoint set_alarm_loop (fuel : nat) (s : vtlist) (now delay currdelta : Z) : option vtlist :=
  match fuel with
  | O => None
  | S fuel =>
      let s := set_alarm s (Some (chTimeAddX now delay)) in
      let '(newnow, s) := chVTGetSystemTimeX s in
      let nowdelta := Time.chTimeDiffX now newnow in
      if nowdelta <? delay then Some (collect_fault s currdelta)
      else let currdelta := u32 (currdelta + 1) in set_alarm_loop fuel s newnow currdelta currdelta
  end.

Definition vt_set_alarm (fuel : nat) (s : vtlist) (now delay : Z) : option vtlist :=
  let currdelta := CH_CFG_ST_TIMEDELTA in
  let delay := if delay <? currdelta then currdelta else delay in
  set_alarm_loop fuel s now delay currdelta.

(** The loop of [vt_insert_first]: the new alarm is computed from the old [now]. *)
Fixpoint insert_first_loop (fuel : nat) (s : vtlist) (now delay currdelta : Z) : option vtlist :=
  match fuel with
  | O => None
  | S fuel =>
      let '(newnow, s) := chVTGetSystemTimeX s in
      if Time.chTimeDiffX now newnow <? delay then Some (collect_fault s currdelta)
      else
        let currdelta := u32 (currdelta + 1) in
        let s := set_alarm s (Some (chTimeAddX now currdelta)) in
        insert_first_loop fuel s newnow currdelta currdelta
  end.

Definition vt_insert_first (fuel : nat) (s : vtlist) (x now delay : Z) : option vtlist :=
  let s := set_lasttime s now in
  let s := set_dlist s ((x, delay) :: dlist s) in
  let currdelta := CH_CFG_ST_TIMEDELTA in
  let delay := if delay <? currdelta then currdelta else delay in
  let s := set_alarm s (Some (chTimeAddX (lasttime s) delay)) in
  insert_first_loop fuel s now delay currdelta.

Definition vt_enqueue (fuel : nat) (s : vtlist) (x delay : Z) : option vtlist :=
  let '(now, s) := chVTGetSystemTimeX s in
  match dlist s with
  | [] => vt_insert_first fuel s x now delay
  | (_, first) :: _ =>
      let nowdelta := Time.chTimeDiffX (lasttime s) now in
      let delta := u32 (nowdelta + delay) in
      let delta := if delta <? nowdelta then delay else delta in
      s ← (if delta <? first then vt_set_alarm fuel s now delay else Some s);
      Some (set_dlist s (dl_insert (dlist s) x delta))
  end.

(** A delay of [TIME_IMMEDIATE] (zero) fails the check of both. *)
Definition chVTDoSetI (fuel : nat) (s : vtlist) (x delay : Z) : option vtlist :=
  if delay =? 0 then None else vt_enqueue fuel (set_reload s x 0) x delay.

Definition chVTDoSetContinuousI (fuel : nat) (s : vtlist) (x delay : Z) : option vtlist :=
  if delay =? 0 then None else vt_enqueue fuel (set_reload s x delay) x delay.

Definition chVTIsArmedI (s : vtlist) (x : Z) : bool := existsb (fun '(y, _) => y =? x) (dlist s).

(** The delta of a removed timer goes to the next one, if there is one. *)
Definition dl_add (l : list (Z * Z)) (d : Z) : list (Z * Z) :=
  match l with [] => [] | (y, dy) :: r => (y, u32 (dy + d)) :: r end.

Fixpoint dl_remove (l : list (Z * Z)) (x : Z) : list (Z * Z) :=
  match l with
  | [] => []
  | (y, dy) :: r => if y =? x then dl_add r dy else (y, dy) :: dl_remove r x
  end.

(** [None]: the timer is not armed (a failed assertion). *)
Definition chVTDoResetI (fuel : nat) (s : vtlist) (x : Z) : option vtlist :=
  match dlist s with
  | [] => None
  | (y, dy) :: r =>
      if negb (chVTIsArmedI s x) then None
      else if negb (y =? x) then Some (set_dlist s (dl_remove (dlist s) x))
      else
        let s := set_dlist s (dl_add r dy) in
        match dlist s with
        | [] => Some (set_alarm s None)
        | (_, dz) :: _ =>
            let '(now, s) := chVTGetSystemTimeX s in
            let nowdelta := Time.chTimeDiffX (lasttime s) now in
            if dz <=? nowdelta then Some s else vt_set_alarm fuel s now (u32 (dz - nowdelta))
        end
  end.

Definition chVTResetI (fuel : nat) (s : vtlist) (x : Z) : option vtlist :=
  if chVTIsArmedI s x then chVTDoResetI fuel s x else Some s.

Definition chVTSetI (fuel : nat) (s : vtlist) (x delay : Z) : option vtlist :=
  s ← chVTResetI fuel s x; chVTDoSetI fuel s x delay.

Fixpoint remaining_walk (l : list (Z * Z)) (x delta : Z) : option Z :=
  match l with
  | [] => None
  | (y, dy) :: r => let delta := u32 (delta + dy) in if y =? x then Some delta else remaining_walk r x delta
  end.

(** The all-ones value is returned when the timer is not in the list. *)
Definition chVTGetRemainingIntervalI (s : vtlist) (x : Z) : Z * vtlist :=
  match remaining_walk (dlist s) x 0 with
  | Some delta =>
      let '(now, s) := chVTGetSystemTimeX s in
      let nowdelta := Time.chTimeDiffX (lasttime s) now in
      (if delta <? nowdelta then 0 else u32 (delta - nowdelta), s)
  | None => (DELTA_MAX, s)
  end.

(** ** The ticker *)

(** The callback of timer [x], which may use the timers itself; [afuel] is for the loops that set the alarm. *)
Context (callback : Z -> vtlist -> option vtlist) (afuel : nat).

(** The timers fired, each with the reading of the clock that made it due, and the final state.  The
    assertion on a skipped deadline of a periodic timer, in builds for debugging, is not part of it. *)
Fixpoint tick_loop (fuel : nat) (s : vtlist) : option (list (Z * Z) * vtlist) :=
  match fuel with
  | O => None
  | S fuel =>
      let '(now, s1) := chVTGetSystemTimeX s in
      let nowdelta := Time.chTimeDiffX (lasttime s1) now in
      match dlist s1 with
      | [] => if nowdelta <? DELTA_MAX then Some ([], s1) else None
      | (x, d) :: r =>
          if nowdelta <? d then
            let s1 := set_lasttime s1 (u32 (lasttime s1 + nowdelta)) in
            let s1 := set_dlist s1 ((x, u32 (d - nowdelta)) :: r) in
            s1 ← vt_set_alarm afuel s1 now (u32 (d - nowdelta)); Some ([], s1)
          else
            let last := chTimeAddX (lasttime s1) d in
            let s1 := set_dlist (set_lasttime s1 last) r in
            let s1 := match r with [] => set_alarm s1 None | _ :: _ => s1 end in
            s1 ← callback x s1;
            if 0 <? reload s1 x then
              let '(now2, s1) := chVTGetSystemTimeX s1 in
              let nowdelta := Time.chTimeDiffX last now2 in
              let s1 := if reload s1 x <? nowdelta
                        then VT (dlist s1) (lasttime s1) (alarm s1) (reload s1) (reads s1) (faults s1 + 1) (laststamp s1) else s1 in
              let delay := if reload s1 x <? nowdelta then 0 else u32 (reload s1 x - nowdelta) in
              match dlist s1 with
              | [] => s1 ← vt_insert_first afuel s1 x now2 delay; Some ([(x, clock (reads s))], s1)
              | _ :: _ =>
                  let delta := u32 (nowdelta + delay) in
                  let delta := if delta <? nowdelta then delay else delta in
                  '(f, s1) ← tick_loop fuel (set_dlist s1 (dl_insert (dlist s1) x delta));
                  Some ((x, clock (reads s)) :: f, s1)
              end
            else '(f, s1) ← tick_loop fuel s1; Some ((x, clock (reads s)) :: f, s1)
      end
  end.

Definition chVTDoTickI := tick_loop.

(** ** Time stamps of 64 bits *)

Definition chVTGetTimeStampI (s : vtlist) : option (Z * vtlist) :=
  let '(now, s) := chVTGetSystemTimeX s in
  let last := laststamp s in
  let stamp := u64 (last + Time.chTimeDiffX (u32 last) now) in
  if last <=? stamp
  then Some (stamp, VT (dlist s) (lasttime s) (alarm s) (reload s) (reads s) (faults s) stamp) else None.

Definition chVTResetTimeStampI (s : vtlist) : vtlist :=
  let '(now, s) := chVTGetSystemTimeX s in
  VT (dlist s) (lasttime s) (alarm s) (reload s) (reads s) (faults s) now.
End Vt.

Ltac vt := cbn [mbind option_bind dlist lasttime alarm reload reads faults laststamp set_dlist set_lasttime set_alarm set_reload].

(** ** Deadlines *)

(** The absolute deadline of every timer, [b] being the time of [lasttime]. *)
Fixpoint deadlines (b : Z) (l : list (Z * Z)) : list (Z * Z) :=
  match l with [] => [] | (x, d) :: r => (x, b + d) :: deadlines (b + d) r end.

(** The specification: timers in the order of their deadlines, a new one in front of those with
    the same deadline. *)
Fixpoint ains (p : Z * Z) (l : list (Z * Z)) : list (Z * Z) :=
  match l with [] => [p] | q :: r => if snd q <? snd p then q :: ains p r else p :: q :: r end.

Fixpoint aremove (x : Z) (l : list (Z * Z)) : list (Z * Z) :=
  match l with [] => [] | q :: r => if fst q =? x then r else q :: aremove x r end.

Fixpoint total (l : list (Z * Z)) : Z := match l with [] => 0 | (_, d) :: r => d + total r end.

Abbreviation nonneg := (Forall (fun p : Z * Z => 0 <= snd p)).

Lemma deadlines_ins l x : forall b d, deadlines b (dl_insert l x d) = ains (x, b + d) (deadlines b l).
Proof.
  induction l as [|[y dy] r IH]; intros b d; cbn; [done|].
  destruct (Z.ltb_spec dy d), (Z.ltb_spec (b + dy) (b + d)); try lia; cbn.
  - rewrite IH. do 3 f_equal. lia.
  - by replace (b + d + (dy - d)) with (b + dy) by lia.
Qed.

Lemma total_nonneg l : nonneg l -> 0 <= total l.
Proof. induction 1 as [|[x d] l H _ IH]; cbn in *; lia. Qed.

Lemma deadlines_remove l x : nonneg l -> total l <= DELTA_MAX ->
  forall b, deadlines b (dl_remove l x) = aremove x (deadlines b l).
Proof.
  intros Hn. induction Hn as [|[y dy] r Hy Hr IH]; intros Ht b; cbn; [done|]. cbn in Ht, Hy.
  destruct (y =? x).
  - destruct r as [|[z dz] r]; cbn in *; [done|]. apply Forall_cons in Hr as [Hz Hr]. pose proof (total_nonneg r Hr). cbn in Hz.
    unfold DELTA_MAX in Ht. rewrite u32_small by lia.
    by replace (b + (dz + dy)) with (b + dy + dz) by lia.
  - cbn. rewrite IH by lia. done.
Qed.

Lemma ains_ids p l : map fst (ains p l) ≡ₚ fst p :: map fst l.
Proof. induction l as [|q r IH]; cbn; [done|]. destruct (_ <? _); cbn; [|done]. rewrite IH. apply Permutation_swap. Qed.

Lemma deadlines_ids l : forall b, map fst (deadlines b l) = map fst l.
Proof. induction l as [|[x d] l IH]; intros b; cbn; [done|]. by rewrite IH. Qed.

Lemma dl_insert_ids l x : forall d, map fst (dl_insert l x d) ≡ₚ x :: map fst l.
Proof.
  induction l as [|[y dy] r IH]; intros d; cbn; [done|]. destruct (dy <? d); cbn; [|done].
  rewrite IH. apply Permutation_swap.
Qed.

Lemma dl_insert_nonneg l x : forall d, nonneg l -> 0 <= d -> nonneg (dl_insert l x d).
Proof.
  induction l as [|[y dy] r IH]; intros d Hn Hd; cbn; [by repeat constructor|].
  apply Forall_cons in Hn as [Hy Hn]. cbn in Hy. destruct (Z.ltb_spec dy d).
  - constructor; [done|]. apply IH; [done|lia].
  - constructor; [done|]. constructor; [cbn; lia|done].
Qed.

Lemma dl_insert_total l x : forall d, nonneg l -> 0 <= d -> total (dl_insert l x d) = Z.max d (total l).
Proof.
  induction l as [|[y dy] r IH]; intros d Hn Hd; cbn; [lia|].
  apply Forall_cons in Hn as [Hy Hn]. cbn in Hy. pose proof (total_nonneg r Hn). destruct (Z.ltb_spec dy d); cbn.
  - rewrite IH by (done || lia). lia.
  - lia.
Qed.

Lemma dl_remove_ids l x : NoDup (map fst l) -> NoDup (map fst (dl_remove l x)) /\ forall y, y ∈ map fst (dl_remove l x) -> y ∈ map fst l.
Proof.
  induction l as [|[y dy] r IH]; cbn; [done|]. intros [Hy Hn]%NoDup_cons. destruct (y =? x).
  - assert (map fst (dl_add r dy) = map fst r) as -> by (by destruct r as [|[? ?] ?]). split; [done|]. intros z Hz. by right.
  - destruct (IH Hn) as [H1 H2]. cbn. split.
    + apply NoDup_cons. split; [|done]. intros H. apply Hy. auto.
    + intros z [->|Hz]%elem_of_cons; [by left|right; auto].
Qed.

Lemma dl_remove_sum l x : nonneg l -> total l <= DELTA_MAX ->
  nonneg (dl_remove l x) /\ total (dl_remove l x) <= total l.
Proof.
  intros Hn. induction Hn as [|[y dy] r Hy Hr IH]; cbn; [done|]. intros Ht. cbn in Hy. pose proof (total_nonneg r Hr). destruct (y =? x).
  - destruct r as [|[z dz] r]; cbn in *; [split; [constructor|lia]|]. apply Forall_cons in Hr as [Hz Hr]. cbn in Hz.
    pose proof (total_nonneg r Hr). unfold DELTA_MAX in Ht. rewrite u32_small by lia. split; [|lia]. constructor; [cbn; lia|done].
  - destruct IH as [H1 H2]; [lia|]. cbn. split; [by constructor|lia].
Qed.

(** ** The invariant *)

Lemma diff_u32 a b : 0 <= b - a < 2 ^ 32 -> Time.chTimeDiffX (u32 a) (u32 b) = b - a.
Proof.
  intros H. unfold Time.chTimeDiffX, u32. rewrite <- Zminus_mod. by apply Z.mod_small.
Qed.

Section Inv.
Context (clock : nat -> Z).

(** Consecutive readings of the clock are less than CH_CFG_ST_TIMEDELTA ticks (one millisecond) apart. *)
Definition timely : Prop := forall n, clock n <= clock (S n) < clock n + CH_CFG_ST_TIMEDELTA.

Record vt_wf (s : vtlist) (b : Z) : Prop := {
  vi_last : lasttime s = u32 b;
  vi_past : b <= clock (reads s);
  vi_nonneg : nonneg (dlist s);
  vi_total : total (dlist s) <= DELTA_MAX;
  vi_nodup : NoDup (map fst (dlist s));
}.

(** The alarm stands at the first deadline or at most CH_CFG_ST_TIMEDELTA ticks behind it; it stands
    before it only when that deadline has been reached, so that the interrupt is already
    pending.  It is never before the base of the list, and off when no timer is armed. *)
Definition alarm_ok (s : vtlist) (b : Z) : Prop :=
  match dlist s with
  | [] => alarm s = None
  | (_, d) :: _ => exists a, alarm s = Some (u32 a) /\ b <= a <= b + d + CH_CFG_ST_TIMEDELTA /\
      (a < b + d -> b + d <= clock (pred (reads s)))
  end.

Definition vt_inv (s : vtlist) (b : Z) : Prop := vt_wf s b /\ alarm_ok s b.

Hypothesis Ht : timely.

Lemma timely_diff n : Time.chTimeDiffX (u32 (clock n)) (u32 (clock (S n))) = clock (S n) - clock n.
Proof. specialize (Ht n). unfold CH_CFG_ST_TIMEDELTA in Ht. apply diff_u32. lia. Qed.

(** With a timely clock the first attempt at the alarm succeeds. *)
Lemma vt_set_alarm_timely fuel s n delay : reads s = S n -> 0 <= delay <= DELTA_MAX ->
  vt_set_alarm clock (S fuel) s (u32 (clock n)) delay =
  Some (VT (dlist s) (lasttime s) (Some (u32 (clock n + Z.max CH_CFG_ST_TIMEDELTA delay))) (reload s) (S (reads s)) (faults s) (laststamp s)).
Proof.
  intros Hn Hd. unfold vt_set_alarm. cbn [set_alarm_loop].
  replace (if delay <? CH_CFG_ST_TIMEDELTA then CH_CFG_ST_TIMEDELTA else delay) with (Z.max CH_CFG_ST_TIMEDELTA delay)
    by (destruct (Z.ltb_spec delay CH_CFG_ST_TIMEDELTA); lia).
  unfold chVTGetSystemTimeX. cbn [reads set_alarm]. rewrite Hn, timely_diff. pose proof (Ht n) as Hg.
  rewrite (proj2 (Z.ltb_lt _ _)) by lia. unfold collect_fault. rewrite Z.ltb_irrefl. cbn. do 3 f_equal.
  unfold chTimeAddX, u32. by rewrite Zplus_mod_idemp_l.
Qed.

Lemma vt_insert_first_timely fuel s n x delay : reads s = S n -> 0 <= delay <= DELTA_MAX ->
  vt_insert_first clock (S fuel) s x (u32 (clock n)) delay =
  Some (VT ((x, delay) :: dlist s) (u32 (clock n)) (Some (u32 (clock n + Z.max CH_CFG_ST_TIMEDELTA delay)))
          (reload s) (S (reads s)) (faults s) (laststamp s)).
Proof.
  intros Hn Hd. unfold vt_insert_first. cbn [insert_first_loop].
  replace (if delay <? CH_CFG_ST_TIMEDELTA then CH_CFG_ST_TIMEDELTA else delay) with (Z.max CH_CFG_ST_TIMEDELTA delay)
    by (destruct (Z.ltb_spec delay CH_CFG_ST_TIMEDELTA); lia).
  unfold chVTGetSystemTimeX. cbn [reads set_alarm set_dlist set_lasttime]. rewrite Hn, timely_diff. pose proof (Ht n) as Hg.
  rewrite (proj2 (Z.ltb_lt _ _)) by lia. unfold collect_fault. rewrite Z.ltb_irrefl. cbn. do 3 f_equal.
  unfold chTimeAddX, u32. by rewrite Zplus_mod_idemp_l.
Qed.

Lemma clock_mono n m : (n <= m)%nat -> clock n <= clock m.
Proof. induction 1 as [|m _ IH]; [lia|]. pose proof (Ht m). lia. Qed.

(** The deadline a timer gets at time [t]: a delay too large for the delta, which counts from the base
    [b] of the list, is counted from the base. *)
Definition due_at (rest : list (Z * Z)) (b t delay : Z) : Z :=
  match rest with [] => t + delay | _ :: _ => if t - b + delay <=? DELTA_MAX then t + delay else b + delay end.

Definition before_all (T : Z) (rest : list (Z * Z)) : bool :=
  match rest with [] => true | (_, t) :: _ => T <? t end.

Lemma enqueue_delta t b delay : 0 <= t - b <= DELTA_MAX -> 0 <= delay <= DELTA_MAX ->
  (let delta := u32 (t - b + delay) in if delta <? t - b then delay else delta) =
  if t - b + delay <=? DELTA_MAX then t - b + delay else delay.
Proof.
  unfold DELTA_MAX. intros H1 H2. cbn zeta. destruct (Z.leb_spec (t - b + delay) (2 ^ 32 - 1)).
  - rewrite u32_small by lia. by rewrite (proj2 (Z.ltb_ge _ _)) by lia.
  - replace (u32 (t - b + delay)) with (t - b + delay - 2 ^ 32).
    + by rewrite (proj2 (Z.ltb_lt _ _)) by lia.
    + unfold u32. apply (Z.mod_unique _ _ 1); lia.
Qed.

(** Arming a timer adds its deadline; the alarm moves when the timer becomes the first. *)
Lemma vt_enqueue_spec fuel s b x delay : vt_wf s b -> x ∉ map fst (dlist s) ->
  0 <= delay <= DELTA_MAX -> clock (reads s) - b <= DELTA_MAX ->
  let t := clock (reads s) in
  let T := due_at (deadlines b (dlist s)) b t delay in
  exists s' b', vt_enqueue clock (S fuel) s x delay = Some s' /\ vt_wf s' b' /\ reload s' = reload s /\
    (S (reads s) <= reads s' <= S (S (reads s)))%nat /\ b' = (match dlist s with [] => t | _ => b end) /\
    deadlines b' (dlist s') = ains (x, T) (deadlines b (dlist s)) /\
    alarm s' = if before_all T (deadlines b (dlist s)) then Some (u32 (t + Z.max CH_CFG_ST_TIMEDELTA delay)) else alarm s.
Proof.
  intros [Hl Hp Hn Hto Hnd] Hx Hd Hw t T. unfold vt_enqueue.
  pose proof (clock_mono (reads s) (S (S (reads s))) ltac:(lia)) as Hm. pose proof (Ht (reads s)) as Hs. fold t in Hm, Hp, Hw, Hs.
  cbn [chVTGetSystemTimeX dlist lasttime]. destruct (dlist s) as [|[y dy] r] eqn:El.
  - rewrite (vt_insert_first_timely _ _ (reads s)) by (done || lia). vt.
    eexists _, t. split; [done|]. vt. split_and!; try done; try lia. split; vt; rewrite ?El; try done; try lia.
    + repeat constructor. cbn. lia.
    + cbn. lia.
    + cbn. apply NoDup_singleton.
  - fold t. rewrite Hl, diff_u32 by (unfold DELTA_MAX in *; lia).
    pose proof (enqueue_delta t b delay ltac:(lia) Hd) as Ed. cbn zeta in Ed. cbv zeta. rewrite Ed.
    set (delta := if _ <=? _ then _ else _).
    assert (0 <= delta <= DELTA_MAX /\ T = b + delta) as [Hdl ET].
    { unfold T, delta. cbn [deadlines due_at]. destruct (Z.leb_spec (t - b + delay) DELTA_MAX); lia. }
    cbn [deadlines before_all]. replace (T <? b + dy) with (delta <? dy)
      by (destruct (Z.ltb_spec delta dy), (Z.ltb_spec T (b + dy)); lia).
    assert (vt_wf (VT (dl_insert ((y, dy) :: r) x delta) (lasttime s) (alarm s) (reload s) (S (reads s)) (faults s) (laststamp s)) b) as Hwf.
    { split; vt; [done|lia|by apply dl_insert_nonneg; [|lia]|rewrite dl_insert_total by (done || lia); lia|].
      rewrite dl_insert_ids. by apply NoDup_cons. }
    assert (deadlines b (dl_insert ((y, dy) :: r) x delta) = ains (x, T) (deadlines b ((y, dy) :: r))) as Ei
      by (rewrite deadlines_ins; by rewrite ET).
    destruct (delta <? dy).
    + rewrite (vt_set_alarm_timely _ _ (reads s)) by (done || lia). vt. rewrite ?El.
      eexists _, b. split; [done|]. vt. split_and!; try done; try lia. destruct Hwf. split; vt; done || lia.
    + vt. rewrite ?El. eexists _, b. split; [done|]. vt. split_and!; try done; try lia. by rewrite <- Hl.
Qed.

(** A timer armed without overflow keeps the alarm in order. *)
Lemma alarm_ok_ins s b s' b' x t delay : alarm_ok s b -> t = clock (reads s) -> (S (reads s) <= reads s')%nat -> 0 <= delay -> b <= t ->
  b' = (match dlist s with [] => t | _ => b end) ->
  let T := due_at (deadlines b (dlist s)) b t delay in
  deadlines b' (dlist s') = ains (x, T) (deadlines b (dlist s)) ->
  alarm s' = (if before_all T (deadlines b (dlist s)) then Some (u32 (t + Z.max CH_CFG_ST_TIMEDELTA delay)) else alarm s) ->
  T = t + delay \/ before_all T (deadlines b (dlist s)) = false -> alarm_ok s' b'.
Proof.
  intros Ha Et Hr Hd Hb Eb T Ed Ea Hc. unfold alarm_ok in *. subst b'.
  destruct (dlist s) as [|[y dy] r] eqn:El.
  - cbn in Ed, Ea. destruct (dlist s') as [|[z dz] r']; [done|]. cbn in Ed. injection Ed as -> E1 _.
    eexists. split; [done|]. unfold CH_CFG_ST_TIMEDELTA. lia.
  - cbn [deadlines before_all ains snd] in *. destruct (dlist s') as [|[z dz] r'].
    { cbn [deadlines] in Ed. destruct (b + dy <? T); discriminate Ed. }
    cbn [deadlines] in Ed. destruct (Z.ltb_spec T (b + dy)) as [Hlt|Hge].
    + destruct Hc as [Hc|]; [|done]. rewrite (proj2 (Z.ltb_ge _ _)) in Ed by lia. injection Ed as -> E1 _.
      eexists. split; [done|]. unfold CH_CFG_ST_TIMEDELTA. lia.
    + destruct Ha as (a & Ea' & Hle & Hpend). rewrite Ea'  in Ea. exists a. split; [done|].
      assert (dz = dy) as -> by (destruct (Z.ltb_spec (b + dy) T); injection Ed; lia).
      split; [lia|]. intros H%Hpend. etransitivity; [exact H|]. apply clock_mono. lia.
Qed.

(** Disarming a timer removes its deadline. *)
Lemma vt_reset_spec fuel s b x : vt_inv s b -> x ∈ map fst (dlist s) -> clock (reads s) - b <= DELTA_MAX ->
  exists s', chVTDoResetI clock (S fuel) s x = Some s' /\ vt_inv s' b /\ reload s' = reload s /\
    deadlines b (dlist s') = aremove x (deadlines b (dlist s)) /\ (reads s <= reads s' <= S (S (reads s)))%nat.
Proof.
  intros [[Hl Hp Hn Hto Hnd] Ha] Hx Hw. unfold chVTDoResetI.
  assert (chVTIsArmedI s x = true) as Harm.
  { unfold chVTIsArmedI. apply existsb_exists. apply list_elem_of_In, in_map_iff in Hx as ([y d] & <- & Hin).
    exists (y, d). split; [done|apply Z.eqb_refl]. }
  pose proof (deadlines_remove _ x Hn Hto b) as Hdl. destruct (dl_remove_sum _ x Hn Hto) as [Hn' Hto'].
  destruct (dl_remove_ids _ x Hnd) as [Hnd' _].
  destruct (dlist s) as [|[y dy] r] eqn:El; [by apply elem_of_nil in Hx|]. rewrite Harm. cbn [negb].
  pose proof (clock_mono (reads s) (S (S (reads s))) ltac:(lia)) as Hm. pose proof (Ht (reads s)) as Hs.
  unfold alarm_ok in Ha. rewrite El in Ha. destruct Ha as (a & Ea & Hle & Hpend). cbn [dl_remove] in *.
  destruct (y =? x) eqn:Eyx; cbn [negb] in *.
  - destruct r as [|[z dz] r]; vt; cbn [dl_add] in *.
    + eexists. split; [done|]. split; [|vt; split_and!; done || lia]. split; [by split; vt|done].
    + apply Forall_cons in Hn as [Hy Hn]. apply Forall_cons in Hn as [Hz Hn]. cbn in Hy, Hz, Hto. pose proof (total_nonneg r Hn).
      unfold DELTA_MAX in Hto, Hw. rewrite (u32_small (dz + dy)) in * by lia.
      cbn [chVTGetSystemTimeX]. vt. rewrite Hl, diff_u32 by lia.
      destruct (Z.leb_spec (dz + dy) (clock (reads s) - b)).
      * eexists. split; [done|]. split; [|vt; split_and!; done || lia]. split; [split; vt; try done; [lia|]|].
        -- cbn. unfold DELTA_MAX. lia.
        -- unfold alarm_ok. vt. exists a. split; [done|]. cbn [pred]. lia.
      * rewrite (u32_small (dz + dy - _)) by lia. rewrite (vt_set_alarm_timely _ _ (reads s)) by (done || unfold DELTA_MAX; lia). vt.
        eexists. split; [done|]. split; [|vt; split_and!; done || lia]. split; [split; vt; try done; [lia|]|].
        -- cbn. unfold DELTA_MAX. lia.
        -- unfold alarm_ok. vt. eexists. split; [done|]. unfold CH_CFG_ST_TIMEDELTA. lia.
  - vt. eexists. split; [done|]. split; [|vt; split_and!; done || lia]. split; [split; vt; done || lia|].
    unfold alarm_ok. vt. exists a. done.
Qed.

(** The remaining time. *)
Fixpoint deadline_of (x : Z) (l : list (Z * Z)) : option Z :=
  match l with [] => None | (y, t) :: r => if y =? x then Some t else deadline_of x r end.

Lemma remaining_walk_spec l x : nonneg l -> forall b acc, 0 <= acc -> acc + total l <= DELTA_MAX ->
  remaining_walk l x acc = (fun t => t - b + acc) <$> deadline_of x (deadlines b l).
Proof.
  intros Hn. induction Hn as [|[y dy] r Hy Hr IH]; intros b acc H0 Hm; cbn; [done|]. cbn in Hm, Hy.
  pose proof (total_nonneg r Hr). unfold DELTA_MAX in *. rewrite u32_small by lia. destruct (y =? x); cbn.
  - f_equal. lia.
  - rewrite (IH (b + dy) (acc + dy)) by (unfold DELTA_MAX; lia). destruct (deadline_of x _); cbn; [f_equal; lia|done].
Qed.

Lemma deadlines_range l : nonneg l -> forall b, Forall (fun p => b <= snd p <= b + total l) (deadlines b l).
Proof.
  intros Hn. induction Hn as [|[y dy] r Hy Hr IH]; intros b; cbn; [done|]. cbn in Hy. pose proof (total_nonneg r Hr).
  constructor; [cbn; lia|]. eapply Forall_impl; [apply IH|]. intros [z t]. cbn. lia.
Qed.

Lemma deadline_of_in x l t : deadline_of x l = Some t -> (x, t) ∈ l.
Proof.
  induction l as [|[y u] l IH]; cbn; [done|]. destruct (Z.eqb_spec y x) as [->|]; [intros [= ->]; by left|]. intros H. right. auto.
Qed.

Lemma vt_remaining_spec s b x t : vt_wf s b -> clock (reads s) - b <= DELTA_MAX ->
  deadline_of x (deadlines b (dlist s)) = Some t ->
  fst (chVTGetRemainingIntervalI clock s x) = Z.max 0 (t - clock (reads s)).
Proof.
  intros [Hl Hp Hn Hto Hnd] Hw Hd. unfold chVTGetRemainingIntervalI.
  rewrite (remaining_walk_spec _ _ Hn b) by lia. rewrite Hd. cbn.
  apply deadline_of_in in Hd. pose proof (proj1 (Forall_forall _ _) (deadlines_range _ Hn b) _ Hd) as Hr. cbn in Hr.
  unfold DELTA_MAX in *. rewrite Hl, diff_u32 by lia. destruct (Z.ltb_spec (t - b + 0) (clock (reads s) - b)).
  - lia.
  - rewrite u32_small by lia. lia.
Qed.

(** ** The ticker with one-shot timers *)

Section Tick.
Context (rearm : Z -> nat -> option Z) (afuel : nat).

(** The callbacks of the firmware: some end without touching a timer (the wake-up of a
    thread), the others arm their own timer again (heartbeat and status LED).  [rearm x n] is the delay
    the callback of [x] asks for when it is called after [n] readings of the clock. *)
Definition own_callback (x : Z) (s : vtlist) : option vtlist :=
  match rearm x (reads s) with Some d => chVTSetI clock (S afuel) s x d | None => Some s end.

(** Fired timers: their identity, at or after their deadline. *)
Definition fires_late (fired due : list (Z * Z)) : Prop :=
  Forall2 (fun f p => fst f = fst p /\ snd p <= snd f) fired due.

(** The timers armed again by the callbacks of those that fired, in that order: the delay counts
    from the reading after the one that made the timer due. *)
Inductive rearms : list (Z * Z) -> list (Z * Z) -> Prop :=
  | re_nil : rearms [] []
  | re_once x j f l : rearm x (S j) = None -> rearms f l -> rearms ((x, clock j) :: f) l
  | re_again x j d f l : rearm x (S j) = Some d -> rearms f l -> rearms ((x, clock j) :: f) ((x, clock (S j) + d) :: l).

Definition arm_all (rest again : list (Z * Z)) : list (Z * Z) := foldl (fun l p => ains p l) rest again.

Lemma arm_all_app rest a b : arm_all rest (a ++ b) = arm_all (arm_all rest a) b.
Proof. apply foldl_app. Qed.

(** Timers armed for later leave the first timer in front. *)
Lemma arm_all_front q r again H : snd q <= H -> Forall (fun p => H < snd p) again ->
  arm_all (q :: r) again = q :: arm_all r again.
Proof.
  intros Hq. revert r. induction again as [|p l IH]; intros r Hf; [done|]. apply Forall_cons in Hf as [Hp Hf].
  cbn. rewrite (proj2 (Z.ltb_lt _ _)) by lia. by apply IH.
Qed.

Lemma ains_forall (P : Z * Z -> Prop) p l : P p -> Forall P l -> Forall P (ains p l).
Proof. intros Hp. induction 1 as [|q l Hq Hl IH]; cbn; [by constructor|]. destruct (_ <? _); by repeat constructor. Qed.

Lemma arm_all_forall (P : Z * Z -> Prop) rest again : Forall P rest -> Forall P again -> Forall P (arm_all rest again).
Proof.
  intros Hr Ha. revert rest Hr. induction Ha as [|p l Hp Hl IH]; intros rest Hr; [done|]. apply IH. by apply ains_forall.
Qed.

(** The alarm the pass leaves after its last reading [now]. *)
Definition alarm_after (now : Z) (l : list (Z * Z)) : option Z :=
  match l with [] => None | (_, D) :: _ => Some (u32 (Z.max (now + CH_CFG_ST_TIMEDELTA) D)) end.

(** The end of a pass: no timer is due. *)
Lemma tick_stops fuel s b : vt_wf s b -> (dlist s = [] -> alarm s = None) -> clock (reads s) - b < DELTA_MAX ->
  Forall (fun p => clock (reads s) < snd p) (deadlines b (dlist s)) ->
  exists s' b', tick_loop clock own_callback (S afuel) (S fuel) s = Some ([], s') /\ vt_inv s' b' /\
    deadlines b' (dlist s') = deadlines b (dlist s) /\ alarm s' = alarm_after (clock (reads s)) (deadlines b' (dlist s')).
Proof.
  intros [Hl Hp Hn Hto Hnd] Hnone Hw Hf. cbn [tick_loop]. unfold chVTGetSystemTimeX. vt.
  pose proof (Ht (reads s)) as Hs. pose proof (clock_mono (reads s) (S (S (reads s))) ltac:(lia)) as Hm.
  rewrite Hl, diff_u32 by (unfold DELTA_MAX in Hw; lia).
  destruct (dlist s) as [|[x d] r] eqn:El.
  - rewrite (proj2 (Z.ltb_lt _ _)) by lia. eexists _, b. split; [done|]. vt. split_and!; try done; [|by rewrite Hnone].
    split; [split; vt; done || lia|]. unfold alarm_ok. vt. by rewrite Hnone.
  - cbn [deadlines] in *. apply Forall_cons in Hf as [Hd _]. cbn in Hd, Hto. apply Forall_cons in Hn as [Hd0 Hn]. cbn in Hd0.
    pose proof (total_nonneg r Hn). unfold DELTA_MAX in *. rewrite (proj2 (Z.ltb_lt _ _)) by lia. rewrite (u32_small (d - _)) by lia.
    rewrite (vt_set_alarm_timely _ _ (reads s)) by (done || unfold DELTA_MAX; lia). vt.
    eexists _, (clock (reads s)). split; [done|]. vt. cbn [deadlines alarm_after].
    replace (clock (reads s) + (d - (clock (reads s) - b))) with (b + d) by lia. split_and!; try done; [|do 2 f_equal; lia].
    split; [split; vt|].
    + unfold u32. rewrite Zplus_mod_idemp_l. f_equal. lia.
    + done.
    + constructor; [cbn; lia|done].
    + cbn. unfold DELTA_MAX. lia.
    + done.
    + unfold alarm_ok. vt. eexists. split; [done|]. unfold CH_CFG_ST_TIMEDELTA. lia.
Qed.

(** One round: the first timer is due, its callback runs. *)
Lemma tick_fires fuel s b x d r dmax : vt_wf s b -> dlist s = (x, d) :: r -> reload s x = 0 ->
  (forall n e, rearm x n = Some e -> 0 < e <= dmax) -> b + d <= clock (reads s) ->
  clock (S (reads s)) - b + dmax <= DELTA_MAX -> 0 <= dmax ->
  exists s1 b1, vt_wf s1 b1 /\ b <= b1 /\ (dlist s1 = [] -> alarm s1 = None) /\
    (S (reads s) <= reads s1 <= S (S (S (reads s))))%nat /\ (forall y, reload s y = 0 -> reload s1 y = 0) /\
    tick_loop clock own_callback (S afuel) (S fuel) s =
      ('(f, s') ← tick_loop clock own_callback (S afuel) fuel s1; Some ((x, clock (reads s)) :: f, s')) /\
    deadlines b1 (dlist s1) = match rearm x (S (reads s)) with
                              | Some e => ains (x, clock (S (reads s)) + e) (deadlines (b + d) r) | None => deadlines (b + d) r end.
Proof.
  intros [Hl Hp Hn Hto Hnd] El Hre Hcb Hdue Hw Hdm. pose proof (Ht (reads s)) as Hs. rewrite El in Hn, Hto, Hnd.
  apply Forall_cons in Hn as [Hd Hn]. apply NoDup_cons in Hnd as [Hxr Hnd]. cbn in Hd, Hto. pose proof (total_nonneg r Hn).
  cbn [tick_loop]. unfold chVTGetSystemTimeX at 1. vt. rewrite El. rewrite Hl, diff_u32 by (unfold DELTA_MAX in *; lia).
  rewrite (proj2 (Z.ltb_ge _ _)) by lia. set (s0 := match r with [] => _ | _ :: _ => _ end).
  assert (u32 (u32 b + d) = u32 (b + d)) as Eu by (unfold u32; by rewrite Zplus_mod_idemp_l).
  assert (dlist s0 = r /\ reload s0 = reload s /\ reads s0 = S (reads s) /\ lasttime s0 = u32 (b + d) /\ (r = [] -> alarm s0 = None))
    as (E1 & E2 & E3 & E4 & E5).
  { unfold s0, chTimeAddX. destruct r; vt; rewrite Eu; split_and!; done || discriminate. }
  assert (vt_wf s0 (b + d)) as Hwf by (split; rewrite ?E1, ?E3, ?E4; done || lia).
  change (own_callback x s0) with (match rearm x (reads s0) with Some e => chVTSetI clock (S afuel) s0 x e | None => Some s0 end).
  rewrite E3. destruct (rearm x (S (reads s))) as [e|] eqn:Ere.
  - destruct (Hcb _ _ Ere) as [He1 He2]. unfold chVTSetI, chVTResetI, chVTIsArmedI. rewrite E1.
    assert (existsb (fun '(y, _) => y =? x) r = false) as ->.
    { apply not_true_iff_false. intros ([y dy] & Hin & Ey%Z.eqb_eq)%existsb_exists. subst y. apply Hxr, list_elem_of_In.
      exact (in_map fst _ _ Hin). }
    vt. unfold chVTDoSetI. rewrite (proj2 (Z.eqb_neq e 0)) by lia.
    destruct (vt_enqueue_spec afuel (set_reload s0 x 0) (b + d) x e) as (s1 & b1 & E & Hwf1 & Er & Hr & Eb & Edl & Ea); vt; rewrite ?E1, ?E3; try done.
    { destruct Hwf. by split. }
    { lia. }
    { lia. }
    rewrite E. cbn [mbind option_bind]. rewrite Er. vt. unfold upd at 1. rewrite Z.eqb_refl. cbn [Z.ltb Z.compare].
    revert Hr Eb Edl Ea. vt. rewrite ?E1, ?E3. intros Hr Eb Edl Ea. exists s1, b1. split_and!; try done; try lia.
    + subst b1. destruct r; lia.
    + intros En. rewrite En in Edl. cbn in Edl. vt. symmetry in Edl. destruct (deadlines (b + d) r) as [|q l]; [done|]. cbn in Edl. by destruct (_ <? _).
    + intros y Hy. rewrite Er. vt. rewrite E2. unfold upd. by destruct (y =? x).
    + rewrite Edl. f_equal. unfold due_at. destruct (deadlines (b + d) r); [done|]. rewrite (proj2 (Z.leb_le _ _)) by lia. done.
  - cbn [mbind option_bind]. rewrite E2, Hre. cbn [Z.ltb Z.compare]. exists s0, (b + d).
    rewrite E1, E3. split_and!; try done; try lia. by rewrite E2.
Qed.

Lemma tick_spec H dmax : (forall x n e, rearm x n = Some e -> 0 < e <= dmax) -> 0 <= dmax -> forall rest again fuel s b t0,
  vt_wf s b -> (dlist s = [] -> alarm s = None) -> deadlines b (dlist s) = arm_all rest again ->
  StronglySorted (fun p q => snd p <= snd q) rest -> Forall (fun p => H < snd p) again ->
  (forall x, x ∈ map fst (dlist s) -> reload s x = 0) ->
  t0 <= clock (reads s) -> (forall x n e, rearm x n = Some e -> H < t0 + e) ->
  clock (reads s) + 3 * CH_CFG_ST_TIMEDELTA * Zlen rest <= H -> H - b + dmax < DELTA_MAX ->
  (length rest < fuel)%nat ->
  exists fired due rest' again' s' b' n, tick_loop clock own_callback (S afuel) fuel s = Some (fired, s') /\
    rest = due ++ rest' /\ fires_late fired due /\ rearms fired again' /\
    Forall (fun f => snd f <= clock n) fired /\ Forall (fun p => clock n < snd p) rest' /\ (reads s <= n)%nat /\
    deadlines b' (dlist s') = arm_all rest' (again ++ again') /\
    alarm s' = alarm_after (clock n) (deadlines b' (dlist s')) /\ vt_inv s' b'.
Proof.
  intros Hcb Hdm. induction rest as [|[x D] rest IH]; intros again fuel s b t0 Hwf Hnone Ed Hso Hag Hre Ht0 Hlate Hw1 Hw2 Hfu;
    (destruct fuel as [|fuel]; [cbn in Hfu; lia|]); unfold CH_CFG_ST_TIMEDELTA in Hw1.
  - change (Zlen []) with 0 in Hw1. destruct (tick_stops fuel s b Hwf Hnone) as (s' & b' & E & Hi & Ed' & Ea).
    + lia.
    + rewrite Ed. apply arm_all_forall; [constructor|]. eapply Forall_impl; [exact Hag|]. cbn. lia.
    + exists [], [], [], [], s', b', (reads s). rewrite ?app_nil_r. split_and!; try done; try constructor. by rewrite Ed', Ed.
  - rewrite Zlen_cons in Hw1. pose proof (Zlen_nonneg rest). apply StronglySorted_inv in Hso as [Hso Hsf].
    destruct (Z.ltb_spec (clock (reads s)) D) as [Hlt|Hge].
    + destruct (tick_stops fuel s b Hwf Hnone) as (s' & b' & E & Hi & Ed' & Ea); [lia| |].
      * rewrite Ed. apply arm_all_forall.
        -- constructor; [done|]. eapply Forall_impl; [exact Hsf|]. cbn. lia.
        -- eapply Forall_impl; [exact Hag|]. cbn. lia.
      * exists [], [], ((x, D) :: rest), [], s', b', (reads s). rewrite ?app_nil_r. split_and!; try done; try constructor; try done.
        -- eapply Forall_impl; [exact Hsf|]. cbn. lia.
        -- by rewrite Ed', Ed.
    + rewrite (arm_all_front (x, D) rest again H) in Ed by (done || cbn; lia).
      destruct (dlist s) as [|[y d] r] eqn:El; [done|]. cbn [deadlines] in Ed. injection Ed as -> ED Er.
      pose proof (Ht (reads s)) as Hs. unfold CH_CFG_ST_TIMEDELTA in Hs.
      destruct (tick_fires fuel s b x d r dmax Hwf El) as (s1 & b1 & Hwf1 & Hb1 & Hn1 & Hr1 & Hre1 & Etick & Ed1); try done; try lia.
      { apply Hre. by left. }
      { apply Hcb. }
      rewrite Etick. set (p := match rearm x (S (reads s)) with Some e => [(x, clock (S (reads s)) + e)] | None => [] end).
      assert (deadlines b1 (dlist s1) = arm_all rest (again ++ p)) as Ed1'.
      { rewrite Ed1, Er. rewrite arm_all_app. unfold p. by destruct (rearm x (S (reads s))). }
      pose proof (Ht (S (reads s))) as Hs2. pose proof (Ht (S (S (reads s)))) as Hs3. unfold CH_CFG_ST_TIMEDELTA in Hs2, Hs3.
      pose proof (clock_mono _ _ (proj2 Hr1)) as Hc1. pose proof (clock_mono _ _ (proj1 Hr1)) as Hc2.
      destruct (IH (again ++ p) fuel s1 b1 t0) as (fired & due & rest' & again' & s' & b' & n & E & Edue & Hfl & Hrm & Hfn & Hrn & Hnn & Ef & Ea & Hi); try done; try lia.
      * apply Forall_app. split; [done|]. unfold p. destruct (rearm x (S (reads s))) as [e|] eqn:Ee; [|constructor].
        constructor; [|constructor]. cbn. specialize (Hlate _ _ _ Ee). lia.
      * intros z Hz. apply Hre1. assert (z ∈ map fst (dlist s)) as Hz'; [|rewrite El in Hz'; by apply Hre].
        rewrite El. cbn. rewrite <- (deadlines_ids (dlist s1) b1), Ed1 in Hz. destruct (rearm x (S (reads s))).
        -- rewrite ains_ids, deadlines_ids in Hz. done.
        -- rewrite deadlines_ids in Hz. by right.
      * unfold CH_CFG_ST_TIMEDELTA. lia.
      * cbn in Hfu. lia.
      * rewrite E. cbn [mbind option_bind]. exists ((x, clock (reads s)) :: fired), ((x, D) :: due), rest', (p ++ again'), s', b', n.
        rewrite app_assoc. split_and!; try done; try lia.
        -- cbn. by rewrite Edue.
        -- constructor; [done|done].
        -- unfold p. destruct (rearm x (S (reads s))) eqn:Ee; [by constructor|]. by apply re_once.
        -- constructor; [cbn; apply clock_mono; lia|done].
Qed.
End Tick.
End Inv.

Lemma aremove_notin x l : x ∉ map fst l -> aremove x l = l.
Proof.
  induction l as [|[y t] l IH]; cbn; [done|]. intros [H1 H2]%not_elem_of_cons.
  rewrite (proj2 (Z.eqb_neq y x)) by done. by rewrite IH.
Qed.

Lemma aremove_ids x l : NoDup (map fst l) -> x ∉ map fst (aremove x l).
Proof.
  induction l as [|[y t] l IH]; cbn; [intros _ H; by apply elem_of_nil in H|]. intros [Hy Hn]%NoDup_cons.
  destruct (Z.eqb_spec y x) as [->|Hne]; [done|]. cbn. rewrite elem_of_cons. intros [E|E]; [congruence|]. by apply IH.
Qed.

Lemma armed_in s x : chVTIsArmedI s x = true <-> x ∈ map fst (dlist s).
Proof.
  unfold chVTIsArmedI. rewrite existsb_exists. split.
  - intros ([y d] & Hin & E%Z.eqb_eq). subst. apply list_elem_of_In. exact (in_map fst _ _ Hin).
  - intros ([y d] & <- & Hin)%list_elem_of_In%in_map_iff. exists (y, d). split; [done|apply Z.eqb_refl].
Qed.

(** C13: Setting a timer refines the specification by absolute deadlines.  If consecutive readings of the
    clock are less than CH_CFG_ST_TIMEDELTA ticks apart and the base of the list is not older than the
    32-bit time can express, then for any set of armed timers and any delay but zero, [chVTSetI] - which
    disarms the timer first if it was armed - succeeds and leaves exactly: the other timers with the
    deadlines they had and the timer itself, in the order of the deadlines.  It is due [delay] ticks after a
    reading of the clock during the call; only if other timers are armed and the delay plus the age of
    the base exceeds 32 bits, [delay] ticks after the base.  If the timer is now the first, the alarm stands
    exactly at the delay, or at CH_CFG_ST_TIMEDELTA if that is more, after the reading; if it is not, or if the
    delay fitted, the alarm is again at most CH_CFG_ST_TIMEDELTA behind the first deadline and before
    it only when that deadline has already been reached. *)
Theorem vt_set_refines (clock : nat -> Z) (fuel : nat) (s : vtlist) (b x delay : Z)
    (Ht : timely clock) (Hi : vt_inv clock s b) (Hd : 0 < delay <= DELTA_MAX)
    (Hw : clock (reads s) + 2 * CH_CFG_ST_TIMEDELTA - b <= DELTA_MAX) :
  exists s' b' t, chVTSetI clock (S fuel) s x delay = Some s' /\ vt_wf clock s' b' /\
    clock (reads s) <= t < clock (reads s) + 2 * CH_CFG_ST_TIMEDELTA /\
    let rest := aremove x (deadlines b (dlist s)) in
    let T := due_at rest b t delay in
    deadlines b' (dlist s') = ains (x, T) rest /\
    (before_all T rest = true -> alarm s' = Some (u32 (t + Z.max CH_CFG_ST_TIMEDELTA delay))) /\
    (T = t + delay \/ before_all T rest = false -> vt_inv clock s' b').
Proof.
  assert (exists s1, chVTResetI clock (S fuel) s x = Some s1 /\ vt_inv clock s1 b /\
            deadlines b (dlist s1) = aremove x (deadlines b (dlist s)) /\ (reads s <= reads s1 <= S (S (reads s)))%nat)
    as (s1 & E1 & Hi1 & Ed1 & Hr1).
  { unfold chVTResetI. destruct (chVTIsArmedI s x) eqn:Ea.
    - destruct (vt_reset_spec clock Ht fuel s b x Hi) as (s1 & E & Hi1 & _ & Ed & Hle).
      + by apply armed_in.
      + unfold CH_CFG_ST_TIMEDELTA in Hw. lia.
      + exists s1. split_and!; done || lia.
    - exists s. split_and!; try done; try lia. symmetry. apply aremove_notin. rewrite deadlines_ids.
      intros Hin%armed_in. congruence. }
  pose proof (clock_mono clock Ht (reads s) (reads s1) (proj1 Hr1)) as Hm1.
  assert (clock (reads s1) < clock (reads s) + 2 * CH_CFG_ST_TIMEDELTA) as Hm2.
  { pose proof (clock_mono clock Ht _ _ (proj2 Hr1)). pose proof (Ht (reads s)). pose proof (Ht (S (reads s))).
    unfold CH_CFG_ST_TIMEDELTA in *. lia. }
  destruct Hi1 as [Hwf1 Ha1]. pose proof (vi_past _ _ _ Hwf1) as Hp1.
  destruct (vt_enqueue_spec clock Ht fuel (set_reload s1 x 0) b x delay) as (s2 & b2 & E2 & Hwf2 & _ & Hr2 & Eb2 & Ed2 & Ea2).
  - destruct Hwf1. by split.
  - vt. rewrite <- (deadlines_ids (dlist s1) b), Ed1. apply aremove_ids. rewrite deadlines_ids. destruct Hi as [[] _]. done.
  - lia.
  - vt. lia.
  - revert Hr2 Eb2 Ed2 Ea2. vt. intros Hr2 Eb2 Ed2 Ea2. exists s2, b2, (clock (reads s1)). unfold chVTSetI, chVTDoSetI. rewrite E1. cbn [mbind option_bind].
    rewrite (proj2 (Z.eqb_neq delay 0)) by lia. vt. rewrite <- Ed1. split_and!; try done.
    + intros Hb. by rewrite Ea2, Hb.
    + intros Hc. split; [done|]. eapply (alarm_ok_ins clock Ht s1 b s2 b2 x (clock (reads s1)) delay); try done; lia.
Qed.

(** One tick of a clock between readings, timers 5 and 6 armed. *)
Definition demo_clock (n : nat) : Z := 4294967290 + Z.of_nat n.
Definition demo_vt : vtlist := VT [(5, 30); (6, 20)] 4294967290 (Some (u32 (4294967290 + 30))) (fun _ => 0) 1 0 0.

Lemma demo_timely : timely demo_clock.
Proof. intros n. unfold demo_clock, CH_CFG_ST_TIMEDELTA. lia. Qed.

Lemma demo_inv : vt_inv demo_clock demo_vt 4294967290.
Proof.
  split; [split; [reflexivity|vm_compute; congruence|repeat constructor; cbn; lia|vm_compute; congruence|]|].
  - cbn. repeat constructor; set_solver.
  - exists (4294967290 + 30). split; [reflexivity|unfold CH_CFG_ST_TIMEDELTA; lia].
Qed.

Lemma vt_set_refines_witness : exists s' b' t, chVTSetI demo_clock 2 demo_vt 6 10 = Some s' /\ vt_inv demo_clock s' b' /\
  deadlines b' (dlist s') = ains (6, t + 10) [(5, 4294967320)].
Proof.
  destruct (vt_set_refines demo_clock 1 demo_vt 4294967290 6 10 demo_timely demo_inv) as (s' & b' & t & E & _ & Hb & Ed & _ & Hi).
  - unfold DELTA_MAX. lia.
  - vm_compute. congruence.
  - assert (due_at [(5, 4294967320)] 4294967290 t 10 = t + 10) as ET.
    { unfold due_at. rewrite (proj2 (Z.leb_le _ _)); [reflexivity|]. unfold DELTA_MAX, CH_CFG_ST_TIMEDELTA, demo_clock in *. cbn in Hb. lia. }
    exists s', b', t. split; [exact E|]. split; [apply Hi; left; exact ET|]. rewrite <- ET. exact Ed.
Defined.

(** A delay that does not fit is counted from the base of the list, so the timer is due before its
    time, while the alarm of a new first timer is still set from the present time: with the base 2000000 ticks
    old and another timer armed far ahead, a delay of 2^32 - 1000000 puts the deadline 2000000 ticks
    before the alarm. *)
Example vt_enqueue_overflow :
  exists s', chVTSetI (fun n => 2000000 + Z.of_nat n) 2 (VT [(5, 2 ^ 32 - 1)] 0 (Some (2 ^ 32 - 1)) (fun _ => 0) 0 0 0) 6 (2 ^ 32 - 1000000) = Some s' /\
    deadlines 0 (dlist s') = [(6, 2 ^ 32 - 1000000); (5, 2 ^ 32 - 1)] /\ alarm s' = Some (u32 (2 ^ 32 - 1000000 + 2000000)).
Proof. eexists. split; [vm_compute; reflexivity|split; reflexivity]. Qed.

Lemma deadlines_sorted l : nonneg l -> forall b, StronglySorted (fun p q => snd p <= snd q) (deadlines b l).
Proof.
  intros Hn. induction Hn as [|[x d] l Hd Hl IH]; intros b; cbn; [constructor|]. constructor; [apply IH|].
  eapply Forall_impl; [apply (deadlines_range l Hl)|]. cbn. lia.
Qed.

(** C12: The ticker fires the right timers.  The timers are one-shot, as all those of the firmware; a
    callback either touches no timer or arms its own timer again, with a delay of at most [dmax] and of more than
    the pass can take; consecutive readings of the clock are less than CH_CFG_ST_TIMEDELTA ticks apart.
    Then [chVTDoTickI] ends after at most one round per timer and one more; the timers it fires are a prefix of
    those armed, in the order of their deadlines, each at or after its deadline and none early; all timers
    due at the first reading are among them; the others keep their deadlines and are due
    after the last reading [clock n].  Exactly these and the timers that were armed again, with the delay
    counted from the reading of their callback, are armed afterwards, in the order of their deadlines; the
    alarm stands at the first of these deadlines, or CH_CFG_ST_TIMEDELTA after the last reading if that is
    later, and is off when no timer is armed. *)
Theorem vt_tick_fires (clock : nat -> Z) (rearm : Z -> nat -> option Z) (afuel fuel : nat) (s : vtlist) (b dmax : Z)
    (Ht : timely clock) (Hi : vt_inv clock s b)
    (Hcb : forall x n d, rearm x n = Some d -> 3 * CH_CFG_ST_TIMEDELTA * Zlen (dlist s) < d <= dmax) (Hdm : 0 <= dmax)
    (Hre : forall x, x ∈ map fst (dlist s) -> reload s x = 0)
    (Hw : clock (reads s) + 3 * CH_CFG_ST_TIMEDELTA * Zlen (dlist s) - b + dmax < DELTA_MAX) (Hf : (length (dlist s) < fuel)%nat) :
  exists fired due rest again s' b' n,
    chVTDoTickI clock (own_callback clock rearm afuel) (S afuel) fuel s = Some (fired, s') /\
    deadlines b (dlist s) = due ++ rest /\ fires_late fired due /\
    Forall (fun p => snd p <= clock (reads s) -> p ∈ due) (deadlines b (dlist s)) /\
    Forall (fun f => snd f <= clock n) fired /\ Forall (fun p => clock n < snd p) rest /\
    rearms clock rearm fired again /\ deadlines b' (dlist s') = arm_all rest again /\
    alarm s' = alarm_after (clock n) (deadlines b' (dlist s')) /\ vt_inv clock s' b'.
Proof.
  destruct Hi as [Hwf Ha].
  destruct (tick_spec clock Ht rearm afuel (clock (reads s) + 3 * CH_CFG_ST_TIMEDELTA * Zlen (dlist s)) dmax) with
    (rest := deadlines b (dlist s)) (again := @nil (Z * Z)) (fuel := fuel) (s := s) (b := b) (t0 := clock (reads s))
    as (fired & due & rest & again & s' & b' & n & E & Ed & Hl & Hrm & Hfn & Hr & Hn & Ed' & Ea & Hi'); try done.
  - intros x n d Hd. specialize (Hcb x n d Hd). pose proof (Zlen_nonneg (dlist s)). unfold CH_CFG_ST_TIMEDELTA in Hcb. lia.
  - intros En. unfold alarm_ok in Ha. by rewrite En in Ha.
  - apply deadlines_sorted. by destruct Hwf.
  - intros x n d Hd. specialize (Hcb x n d Hd). lia.
  - unfold Zlen. rewrite <- (length_map fst (deadlines _ _)), deadlines_ids, length_map. done.
  - rewrite <- (length_map fst (deadlines _ _)), deadlines_ids, length_map. done.
  - exists fired, due, rest, again, s', b', n. split_and!; try done. rewrite Ed. apply Forall_app. split; apply Forall_forall; intros p Hp Hle; [done|].
    pose proof (proj1 (Forall_forall _ _) Hr _ Hp). pose proof (clock_mono clock Ht (reads s) n Hn). cbn in *. lia.
Qed.

Definition demo_late (n : nat) : Z := 4294967330 + Z.of_nat n.

(** Timer 5 arms itself again, as the heartbeat does. *)
Definition demo_rearm (x : Z) (n : nat) : option Z := if x =? 5 then Some 1000 else None.

Lemma vt_tick_fires_witness : exists s', chVTDoTickI demo_late (own_callback demo_late demo_rearm 0) 1 3 demo_vt = Some ([(5, 4294967331)], s') /\
  exists b', deadlines b' (dlist s') = [(6, 4294967340); (5, 4294968332)].
Proof.
  destruct (vt_tick_fires demo_late demo_rearm 0 3 demo_vt 4294967290 1000) as (fired & due & rest & again & s' & b' & n & E & _ & _ & _ & _ & _ & _ & _ & _ & [Hwf _]).
  - intros m. unfold demo_late, CH_CFG_ST_TIMEDELTA. lia.
  - destruct demo_inv as [[] (a & Ea & H1 & _)]. split; [split; first [assumption | vm_compute; congruence]|].
    exists (4294967290 + 30). split; [reflexivity|unfold CH_CFG_ST_TIMEDELTA; lia].
  - intros x m d. unfold demo_rearm. destruct (x =? 5); [|discriminate]. intros [= <-]. unfold CH_CFG_ST_TIMEDELTA. change (Zlen (dlist demo_vt)) with 2. lia.
  - lia.
  - reflexivity.
  - vm_compute. reflexivity.
  - cbn. lia.
  - exists s'. split; [etransitivity; [exact E|]; revert E; vm_compute; congruence|].
    revert E. vm_compute chVTDoTickI. intros [= _ <-]. exists 4294967333. vm_compute. reflexivity.
Defined.

(** ** Setting the alarm under load *)

(** The clock never goes back and advances by at most [g] between two readings. *)
Definition gaps (clock : nat -> Z) (g : Z) : Prop := forall n, clock n <= clock (S n) <= clock n + g.

Lemma set_alarm_loop_spec clock g : 0 <= g < 2 ^ 31 -> gaps clock g ->
  forall fuel s n delay cd, reads s = S n -> CH_CFG_ST_TIMEDELTA <= cd <= delay -> delay <= DELTA_MAX -> cd <= 2 ^ 31 ->
  g < cd + Z.of_nat fuel - 1 -> (1 <= fuel)%nat -> cd + Z.of_nat fuel <= 2 ^ 31 ->
  exists s' m a, set_alarm_loop clock fuel s (u32 (clock n)) delay cd = Some s' /\ reads s' = S m /\ (n < m)%nat /\
    dlist s' = dlist s /\ alarm s' = Some (u32 a) /\ clock m < a /\ a <= clock m + Z.max delay (g + 1).
Proof.
  intros Hg Hgap. induction fuel as [|fuel IH]; intros s n delay cd Hn Hcd Hdl Hcm Hf H1 Hsm; [lia|].
  cbn [set_alarm_loop]. unfold chVTGetSystemTimeX. vt. rewrite Hn. pose proof (Hgap n) as Hgn.
  unfold CH_CFG_ST_TIMEDELTA, DELTA_MAX in *. rewrite diff_u32 by lia.
  destruct (Z.ltb_spec (clock (S n) - clock n) delay) as [Hlt|Hge].
  - eexists _, (S n), (clock n + delay). split; [done|]. unfold collect_fault, chTimeAddX.
    assert (u32 (u32 (clock n) + delay) = u32 (clock n + delay)) as Eu by (unfold u32; by rewrite Zplus_mod_idemp_l).
    destruct (CH_CFG_ST_TIMEDELTA <? cd); vt; rewrite Eu; split_and!; try done; lia.
  - rewrite (u32_small (cd + 1)) by lia.
    destruct (IH (VT (dlist s) (lasttime s) (Some (chTimeAddX (u32 (clock n)) delay)) (reload s) (S (S n)) (faults s) (laststamp s))
                (S n) (cd + 1) (cd + 1)) as (s' & m & a & E & Hm & Hlt & El & Ea & Ha1 & Ha2); vt; try done; try lia.
    exists s', m, a. split_and!; done || lia.
Qed.

(** C38: Setting the alarm ends and never leaves it in the past.  If readings of the clock are at
    most [g] ticks apart, the loop of [vt_set_alarm] ends after at most max(1, g - 8) attempts, and the
    alarm it leaves lies after the last reading of the clock - so the interrupt is still to come -
    and at most the delay, or g + 1 ticks, behind it. *)
Theorem vt_set_alarm_terminates (clock : nat -> Z) (g : Z) (s : vtlist) (n fuel : nat) (delay : Z)
    (Hgap : gaps clock g) (Hg : 0 <= g < 2 ^ 31) (Hn : reads s = S n) (Hd : 0 <= delay <= DELTA_MAX)
    (Hf : Z.max 1 (g - 8) <= Z.of_nat fuel < 2 ^ 30) :
  exists s' m a, vt_set_alarm clock fuel s (u32 (clock n)) delay = Some s' /\ reads s' = S m /\ dlist s' = dlist s /\
    alarm s' = Some (u32 a) /\ clock m < a /\ a <= clock m + Z.max (Z.max CH_CFG_ST_TIMEDELTA delay) (g + 1).
Proof.
  unfold vt_set_alarm.
  replace (if delay <? CH_CFG_ST_TIMEDELTA then CH_CFG_ST_TIMEDELTA else delay) with (Z.max CH_CFG_ST_TIMEDELTA delay)
    by (destruct (Z.ltb_spec delay CH_CFG_ST_TIMEDELTA); lia).
  unfold CH_CFG_ST_TIMEDELTA, DELTA_MAX in *.
  destruct (set_alarm_loop_spec clock g Hg Hgap fuel s n (Z.max 10 delay) 10 Hn) as (s' & m & a & E & Hm & _ & El & Ea & H1 & H2);
    unfold CH_CFG_ST_TIMEDELTA, DELTA_MAX; try lia.
  exists s', m, a. done.
Qed.

(** A clock that jumps by 15 ticks once. *)
Definition demo_jump (n : nat) : Z := match n with O => 100 | S n => 115 + Z.of_nat n end.

Lemma vt_set_alarm_terminates_witness : exists s' m a,
  vt_set_alarm demo_jump 7 (VT [] 0 None (fun _ => 0) 1 0 0) (u32 100) 5 = Some s' /\ alarm s' = Some (u32 a) /\ demo_jump m < a.
Proof.
  destruct (vt_set_alarm_terminates demo_jump 15 (VT [] 0 None (fun _ => 0) 1 0 0) 0 7 5) as (s' & m & a & E & _ & _ & Ea & H1 & _).
  - intros [|n]; cbn; lia.
  - lia.
  - reflexivity.
  - unfold DELTA_MAX. lia.
  - cbn. lia.
  - exists s', m, a. repeat split; assumption.
Defined.

(** The first timer of an empty list does not have this: the second attempt takes the time
    before the jump as its base, and leaves the alarm at 111 while the clock reads 116; the timer then
    waits for the counter to wrap. *)
Example vt_insert_first_past :
  exists s', vt_insert_first demo_jump 5 (VT [] 0 None (fun _ => 0) 1 0 0) 5 (u32 100) 5 = Some s' /\
    alarm s' = Some 111 /\ demo_jump (pred (reads s')) = 116.
Proof. eexists. split; [vm_compute; reflexivity|split; reflexivity]. Qed.

(** A periodic timer whose callback arms another timer while the list is empty is late by the
    time the callback took: due at 100 with a period of 100, it is next due at 203, because the base of
    the list has moved to the time of the callback. *)
Definition demo_slow (n : nat) : Z := 100 + 3 * Z.of_nat n.

Example vt_reload_drift :
  exists s', chVTDoTickI demo_slow (fun x s => if x =? 5 then chVTDoSetI demo_slow 2 s 6 500 else Some s) 2 3
               (VT [(5, 100)] 0 (Some 100) (fun x => if x =? 5 then 100 else 0) 0 0 0) = Some ([(5, 100)], s') /\
    exists b, deadlines b (dlist s') = [(5, 203); (6, 603)] /\ lasttime s' = u32 b.
Proof. eexists. split; [vm_compute; reflexivity|]. exists 112. split; reflexivity. Qed.

(** Time stamps follow the tick count beyond 32 bits when taken often enough. *)
Lemma chVTGetTimeStampI_exact clock s : 0 <= laststamp s <= clock (reads s) -> clock (reads s) - laststamp s < 2 ^ 32 ->
  clock (reads s) < 2 ^ 64 -> exists s', chVTGetTimeStampI clock s = Some (clock (reads s), s') /\ laststamp s' = clock (reads s).
Proof.
  intros H1 H2 H3. unfold chVTGetTimeStampI, chVTGetSystemTimeX. vt. rewrite diff_u32 by lia.
  rewrite u64_small by lia. replace (laststamp s + (clock (reads s) - laststamp s)) with (clock (reads s)) by lia.
  rewrite (proj2 (Z.leb_le _ _)) by lia. by eexists.
Qed.
