(* ===== verification/Mailbox.v ===== *)
(** * Mailbox: the mailboxes of the kernel
    (ext/ChibiOS_21.11.3/os/oslib/src/chmboxes.c, the thread queues of
    os/rt/src/chthreads.c)

    The queue of a service (portable/xbot/queue.cpp) is a mailbox.  A mailbox is a ring
    of messages with two queues of sleeping threads.  A pointer into the ring is an index
    of [buffer]; [None] is an access outside of it.  A blocking call is resumable: it
    returns or puts its thread to sleep, and goes on with the message the thread is
    woken with.  The system of a mailbox with any number of threads is a step relation;
    its ring refines a bounded deque, and no thread sleeps on while its condition
    holds. *)

From S2P Require Import Prelude.

Definition MSG_OK : Z := 0.
Definition MSG_TIMEOUT : Z := -1.
Definition MSG_RESET : Z := -2.
Definition TIME_IMMEDIATE : Z := 0.

(** ** Thread queues *)

Section ThdQueue.
Context {A : Type}.

(** The queue that is left and the threads made ready, each with its message. *)
Definition chThdDoDequeueNextI (q : list A) (msg : Z) : list A * list (A * Z) :=
  match q with [] => ([], []) | t :: q => (q, [(t, msg)]) end.

Definition chThdDequeueNextI (q : list A) (msg : Z) : list A * list (A * Z) :=
  match q with [] => (q, []) | _ :: _ => chThdDoDequeueNextI q msg end.

Fixpoint chThdDequeueAllI (q : list A) (msg : Z) : list A * list (A * Z) :=
  match q with
  | [] => (q, [])
  | t :: q' => let '(r, k) := chThdDequeueAllI q' msg in (r, (t, msg) :: k)
  end.

(** [None]: the call returns [MSG_TIMEOUT] at once; otherwise the thread sleeps. *)
Definition chThdEnqueueTimeoutS (q : list A) (t : A) (timeout : Z) : option (list A) :=
  if timeout =? TIME_IMMEDIATE then None else Some (q ++ [t]).

Lemma dequeue_all q msg : chThdDequeueAllI q msg = ([], map (fun t => (t, msg)) q).
Proof. induction q as [|t q IH]; [done|]. simpl. by rewrite IH. Qed.

Lemma dequeue_next q msg :
  chThdDequeueNextI q msg = (tail q, match q with [] => [] | t :: _ => [(t, msg)] end).
Proof. by destruct q. Qed.

End ThdQueue.

(** ** The mailbox *)

Inductive call := CPost | CPostAhead | CFetch.

(** A thread inside a blocking call: its identity and the arguments on its stack. *)
Record waiter := Waiter { tid : Z; wcall : call; wmsg : Z; wtimeout : Z }.

Record mailbox := MB {
  buffer : list Z; wrptr : Z; rdptr : Z; cnt : Z; reset : bool; qw : list waiter; qr : list waiter
}.

Abbreviation wakes := (list (waiter * Z)).

(** What a round of a blocking call ends with. *)
Inductive outcome := Return (rdymsg : Z) (fetched : option Z) | Sleep.

Definition set_qw (m : mailbox) q := MB (buffer m) (wrptr m) (rdptr m) (cnt m) (reset m) q (qr m).
Definition set_qr (m : mailbox) q := MB (buffer m) (wrptr m) (rdptr m) (cnt m) (reset m) (qw m) q.

Definition chMBObjectInit (buf : list Z) : mailbox := MB buf 0 0 0 false [] [].

Definition chMBGetSizeI (m : mailbox) : Z := Zlen (buffer m).
Definition chMBGetUsedCountI (m : mailbox) : Z := cnt m.
Definition chMBGetFreeCountI (m : mailbox) : Z := u32 (chMBGetSizeI m - chMBGetUsedCountI m).
Definition chMBPeekI (m : mailbox) : option Z := rd (buffer m) (rdptr m).
Definition chMBResumeX (m : mailbox) : mailbox :=
  MB (buffer m) (wrptr m) (rdptr m) (cnt m) false (qw m) (qr m).

Definition chMBResetI (m : mailbox) : mailbox * wakes :=
  let '(w, k1) := chThdDequeueAllI (qw m) MSG_RESET in
  let '(r, k2) := chThdDequeueAllI (qr m) MSG_RESET in
  (MB (buffer m) 0 0 0 true w r, k1 ++ k2).

(** Store at the write pointer and advance it. *)
Definition store_tail (m : mailbox) (msg : Z) : option mailbox :=
  b ← wr (buffer m) (wrptr m) msg;
  let p := wrptr m + 1 in
  Some (MB b (if chMBGetSizeI m <=? p then 0 else p) (rdptr m) (cnt m + 1) (reset m) (qw m) (qr m)).

(** Step the read pointer back and store there. *)
Definition store_head (m : mailbox) (msg : Z) : option mailbox :=
  let p := rdptr m - 1 in
  let p := if p <? 0 then chMBGetSizeI m - 1 else p in
  b ← wr (buffer m) p msg;
  Some (MB b (wrptr m) p (cnt m + 1) (reset m) (qw m) (qr m)).

(** Load at the read pointer and advance it. *)
Definition load_head (m : mailbox) : option (mailbox * Z) :=
  msg ← rd (buffer m) (rdptr m);
  let p := rdptr m + 1 in
  Some (MB (buffer m) (wrptr m) (if chMBGetSizeI m <=? p then 0 else p) (cnt m - 1) (reset m)
           (qw m) (qr m), msg).

Definition wake_reader (m : mailbox) : mailbox * wakes :=
  let '(q, k) := chThdDequeueNextI (qr m) MSG_OK in (set_qr m q, k).
Definition wake_writer (m : mailbox) : mailbox * wakes :=
  let '(q, k) := chThdDequeueNextI (qw m) MSG_OK in (set_qw m q, k).

Definition chMBPostI (m : mailbox) (msg : Z) : option (mailbox * wakes * Z) :=
  if reset m then Some (m, [], MSG_RESET)
  else if 0 <? chMBGetFreeCountI m then
    m ← store_tail m msg; let '(m, k) := wake_reader m in Some (m, k, MSG_OK)
  else Some (m, [], MSG_TIMEOUT).

Definition chMBPostAheadI (m : mailbox) (msg : Z) : option (mailbox * wakes * Z) :=
  if reset m then Some (m, [], MSG_RESET)
  else if 0 <? chMBGetFreeCountI m then
    m ← store_head m msg; let '(m, k) := wake_reader m in Some (m, k, MSG_OK)
  else Some (m, [], MSG_TIMEOUT).

Definition chMBFetchI (m : mailbox) : option (mailbox * wakes * Z * option Z) :=
  if reset m then Some (m, [], MSG_RESET, None)
  else if 0 <? chMBGetUsedCountI m then
    '(m, v) ← load_head m; let '(m, k) := wake_writer m in Some (m, k, MSG_OK, Some v)
  else Some (m, [], MSG_TIMEOUT, None).

(** One round of the loop of a blocking call of thread [w]. *)
Definition sleep_w (m : mailbox) (w : waiter) : option (mailbox * wakes * outcome) :=
  Some match chThdEnqueueTimeoutS (qw m) w (wtimeout w) with
       | Some q => (set_qw m q, [], Sleep)
       | None => (m, [], Return MSG_TIMEOUT None)
       end.

Definition sleep_r (m : mailbox) (w : waiter) : option (mailbox * wakes * outcome) :=
  Some match chThdEnqueueTimeoutS (qr m) w (wtimeout w) with
       | Some q => (set_qr m q, [], Sleep)
       | None => (m, [], Return MSG_TIMEOUT None)
       end.

Definition post_round (m : mailbox) (w : waiter) : option (mailbox * wakes * outcome) :=
  if reset m then Some (m, [], Return MSG_RESET None)
  else if 0 <? chMBGetFreeCountI m then
    m ← store_tail m (wmsg w); let '(m, k) := wake_reader m in Some (m, k, Return MSG_OK None)
  else sleep_w m w.

Definition ahead_round (m : mailbox) (w : waiter) : option (mailbox * wakes * outcome) :=
  if reset m then Some (m, [], Return MSG_RESET None)
  else if 0 <? chMBGetFreeCountI m then
    m ← store_head m (wmsg w); let '(m, k) := wake_reader m in Some (m, k, Return MSG_OK None)
  else sleep_w m w.

Definition fetch_round (m : mailbox) (w : waiter) : option (mailbox * wakes * outcome) :=
  if reset m then Some (m, [], Return MSG_RESET None)
  else if 0 <? chMBGetUsedCountI m then
    '(m, v) ← load_head m; let '(m, k) := wake_writer m in Some (m, k, Return MSG_OK (Some v))
  else sleep_r m w.

(** The call itself ([resumed] is [None]) or its continuation with the message the
    thread was woken with: the loop goes on while that is [MSG_OK]. *)
Definition resumable (round : mailbox -> waiter -> option (mailbox * wakes * outcome))
    (m : mailbox) (w : waiter) (resumed : option Z) : option (mailbox * wakes * outcome) :=
  match resumed with
  | Some rdymsg => if rdymsg =? MSG_OK then round m w else Some (m, [], Return rdymsg None)
  | None => round m w
  end.

Definition chMBPostTimeoutS := resumable post_round.
Definition chMBPostAheadTimeoutS := resumable ahead_round.
Definition chMBFetchTimeoutS := resumable fetch_round.

Definition run_call (m : mailbox) (w : waiter) (resumed : option Z) :=
  match wcall w with
  | CPost => chMBPostTimeoutS m w resumed
  | CPostAhead => chMBPostAheadTimeoutS m w resumed
  | CFetch => chMBFetchTimeoutS m w resumed
  end.

(** ** The messages a mailbox holds *)

Definition size (m : mailbox) : Z := Zlen (buffer m).

Definition slot (m : mailbox) (i : Z) : Z := (rdptr m + i) mod size m.

Definition contents (m : mailbox) : list Z :=
  (fun i => default 0 (rd (buffer m) (slot m i))) <$> seqZ 0 (cnt m).

Record wf (m : mailbox) : Prop := {
  wf_size : 0 < size m < 2 ^ 32;
  wf_rd : 0 <= rdptr m < size m;
  wf_cnt : 0 <= cnt m <= size m;
  wf_wr : wrptr m = slot m (cnt m);
}.

(** [m'] has the ring [m] had apart from its messages. *)
Definition same_frame (m m' : mailbox) : Prop :=
  size m' = size m /\ reset m' = reset m /\ qw m' = qw m /\ qr m' = qr m.

Lemma contents_len m : wf m -> Zlen (contents m) = cnt m.
Proof. intros [_ _ H _]. unfold contents, Zlen. rewrite length_fmap, length_seqZ. lia. Qed.

Lemma slot_range m i : wf m -> 0 <= slot m i < size m.
Proof. intros [H _ _ _]. apply Z.mod_pos_bound. lia. Qed.

Lemma slot_inj m i j : wf m -> 0 <= i < size m -> 0 <= j < size m -> slot m i = slot m j -> i = j.
Proof.
  intros [Hs Hr _ _] Hi Hj. unfold slot. intros E.
  destruct (Z.lt_ge_cases (rdptr m + i) (size m)), (Z.lt_ge_cases (rdptr m + j) (size m)).
  all: repeat match goal with
    | E : context [?x mod ?n], H : ?n <= ?x |- _ =>
        rewrite <- (Z.mod_add x (-1) n), (Z.mod_small (x + -1 * n)) in E by lia
    | E : context [?x mod ?n], H : ?x < ?n |- _ => rewrite (Z.mod_small x n) in E by lia
    end; lia.
Qed.

(** Advancing a ring index by one, the way the code wraps it. *)
Lemma wrap_next p n : 0 <= p < n -> (if n <=? p + 1 then 0 else p + 1) = (p + 1) mod n.
Proof.
  intros H. destruct (Z.leb_spec n (p + 1)).
  - replace (p + 1) with n by lia. by rewrite Z.mod_same by lia.
  - by rewrite Z.mod_small by lia.
Qed.

Lemma wrap_prev p n : 0 <= p < n -> (if p - 1 <? 0 then n - 1 else p - 1) = (p - 1) mod n.
Proof.
  intros H. destruct (Z.ltb_spec (p - 1) 0).
  - rewrite <- (Z.mod_add _ 1 n), Z.mod_small; lia.
  - by rewrite Z.mod_small by lia.
Qed.

Lemma seqZ_snoc n : 0 <= n -> seqZ 0 (n + 1) = seqZ 0 n ++ [n].
Proof. intros H. rewrite seqZ_app by lia. done. Qed.

Lemma fmap_seqZ_shift {A} (f : Z -> A) n : f <$> seqZ (Z.succ 0) n = (fun i => f (i + 1)) <$> seqZ 0 n.
Proof.
  change (Z.succ 0) with (1 + 0). rewrite <- (fmap_add_seqZ 1 0 n), <- list_fmap_compose.
  apply list_fmap_ext. intros j i _. cbn. f_equal. lia.
Qed.

Lemma contents_ext m m' d : cnt m' = cnt m + d ->
  (forall i, 0 <= i < cnt m -> rd (buffer m') (slot m' i) = rd (buffer m) (slot m i)) -> 0 <= d -> 0 <= cnt m ->
  contents m' = contents m ++ ((fun i => default 0 (rd (buffer m') (slot m' i))) <$> seqZ (cnt m) d).
Proof.
  intros Hc He Hd H0. unfold contents. rewrite Hc, seqZ_app, fmap_app by lia. f_equal.
  apply list_fmap_ext. intros j i Hi%list_elem_of_lookup_2%elem_of_seqZ. by rewrite He by lia.
Qed.

Lemma store_tail_spec m v : wf m -> cnt m < size m ->
  exists m', store_tail m v = Some m' /\ wf m' /\ same_frame m m' /\ contents m' = contents m ++ [v].
Proof.
  intros Hw Hlt. pose proof Hw as [Hs Hr Hc Hp]. pose proof (slot_range m (cnt m) Hw) as Hq.
  unfold store_tail, chMBGetSizeI. fold (size m). rewrite Hp.
  destruct (wr_is_Some (buffer m) (slot m (cnt m)) v Hq) as [b Hb]. rewrite Hb. simpl.
  pose proof (wr_Zlen _ _ _ _ Hb) as Hl. eexists. split; [done|].
  assert (forall i, slot (MB b (if size m <=? slot m (cnt m) + 1 then 0 else slot m (cnt m) + 1) (rdptr m)
            (cnt m + 1) (reset m) (qw m) (qr m)) i = slot m i) as Hsl.
  { intros i. unfold slot, size. cbn. by rewrite Hl. }
  split_and!.
  - split; unfold size in *; cbn; rewrite ?Hl; try lia. rewrite Hsl, wrap_next by done.
    unfold slot, size. rewrite Zplus_mod_idemp_l. f_equal. lia.
  - unfold same_frame, size. cbn. by rewrite Hl.
  - rewrite (contents_ext m _ 1); cbn [cnt buffer]; try lia.
    + rewrite seqZ_cons, seqZ_nil by lia. cbn [fmap list_fmap]. rewrite Hsl. by rewrite (rd_wr_eq _ _ _ _ Hb).
    + intros i Hi. rewrite Hsl. apply (rd_wr_ne _ _ _ _ _ Hb).
      intros E%slot_inj; [lia|done|lia|lia].
Qed.

Lemma load_head_spec m : wf m -> 0 < cnt m ->
  exists m' v, load_head m = Some (m', v) /\ wf m' /\ same_frame m m' /\ contents m = v :: contents m'.
Proof.
  intros Hw Hlt. pose proof Hw as [Hs Hr Hc Hp].
  unfold load_head, chMBGetSizeI. fold (size m).
  destruct (rd_is_Some (buffer m) (rdptr m) Hr) as [v Hv]. rewrite Hv. simpl.
  eexists _, v. split; [done|]. rewrite wrap_next by done.
  assert (forall i, slot (MB (buffer m) (wrptr m) ((rdptr m + 1) mod size m) (cnt m - 1) (reset m)
            (qw m) (qr m)) i = slot m (i + 1)) as Hsl.
  { intros i. unfold slot, size. cbn. rewrite Zplus_mod_idemp_l. f_equal. lia. }
  split_and!.
  - split; unfold size in *; cbn; try lia.
    + apply Z.mod_pos_bound. lia.
    + rewrite Hsl, Hp. f_equal. lia.
  - done.
  - unfold contents. cbn [cnt buffer]. rewrite (seqZ_cons 0 (cnt m)) by lia. cbn [fmap list_fmap]. f_equal.
    + unfold slot. rewrite Z.add_0_r, Z.mod_small, Hv by lia. done.
    + rewrite fmap_seqZ_shift. replace (Z.pred (cnt m)) with (cnt m - 1) by lia.
      apply list_fmap_ext. intros j i _. by rewrite Hsl.
Qed.

Lemma store_head_spec m v : wf m -> cnt m < size m ->
  exists m', store_head m v = Some m' /\ wf m' /\ same_frame m m' /\ contents m' = v :: contents m.
Proof.
  intros Hw Hlt. pose proof Hw as [Hs Hr Hc Hp].
  unfold store_head, chMBGetSizeI. fold (size m). rewrite wrap_prev by done.
  assert (0 <= (rdptr m - 1) mod size m < size m) as Hq by (apply Z.mod_pos_bound; lia).
  destruct (wr_is_Some (buffer m) ((rdptr m - 1) mod size m) v Hq) as [b Hb]. rewrite Hb. simpl.
  pose proof (wr_Zlen _ _ _ _ Hb) as Hl. eexists. split; [done|].
  assert (forall i, slot (MB b (wrptr m) ((rdptr m - 1) mod size m) (cnt m + 1) (reset m) (qw m) (qr m)) i
            = slot m (i - 1)) as Hsl.
  { intros i. unfold slot, size. cbn. rewrite Hl, Zplus_mod_idemp_l. f_equal. lia. }
  split_and!.
  - split; unfold size in *; cbn; rewrite ?Hl; try lia. rewrite Hsl, Hp. f_equal. lia.
  - unfold same_frame, size. cbn. by rewrite Hl.
  - unfold contents. cbn [cnt buffer]. rewrite (seqZ_cons 0 (cnt m + 1)) by lia. cbn [fmap list_fmap]. f_equal.
    + rewrite Hsl. unfold slot at 1. replace (rdptr m + (0 - 1)) with (rdptr m - 1) by lia.
      by rewrite (rd_wr_eq _ _ _ _ Hb).
    + rewrite fmap_seqZ_shift. replace (Z.pred (cnt m + 1)) with (cnt m) by lia.
      apply list_fmap_ext. intros j i Hi%list_elem_of_lookup_2%elem_of_seqZ.
      rewrite Hsl. replace (i + 1 - 1) with i by lia. f_equal. apply (rd_wr_ne _ _ _ _ _ Hb).
      replace (rdptr m - 1) with (rdptr m + (size m - 1) + (-1) * size m) by lia.
      rewrite Z.mod_add by lia. intros E%(slot_inj m); [lia|done|lia|lia].
Qed.

(** ** The system: a mailbox, its sleeping threads and the threads that were woken *)

Inductive label := LPut (v : Z) | LPutAhead (v : Z) | LGet (v : Z) | LClear | LTau.

(** The specification: a deque of at most [cap] messages. *)
Inductive deque_step (cap : Z) : list Z -> label -> list Z -> Prop :=
  | d_put q v : Zlen q < cap -> deque_step cap q (LPut v) (q ++ [v])
  | d_ahead q v : Zlen q < cap -> deque_step cap q (LPutAhead v) (v :: q)
  | d_get q v : deque_step cap (v :: q) (LGet v) q
  | d_clear q : deque_step cap q LClear []
  | d_tau q : deque_step cap q LTau q.

Definition label_of (w : waiter) (o : outcome) : label :=
  match o with
  | Return r v =>
      if r =? MSG_OK then
        match wcall w with
        | CPost => LPut (wmsg w) | CPostAhead => LPutAhead (wmsg w) | CFetch => LGet (default 0 v)
        end
      else LTau
  | Sleep => LTau
  end.

Record sys := Sys { box : mailbox; awake : wakes }.

Inductive step : sys -> label -> sys -> Prop :=
  | s_call s w m k o : run_call (box s) w None = Some (m, k, o) ->
      step s (label_of w o) (Sys m (awake s ++ k))
  | s_resume s a w r b m k o : awake s = a ++ (w, r) :: b -> run_call (box s) w (Some r) = Some (m, k, o) ->
      step s (label_of w o) (Sys m (a ++ b ++ k))
  | s_postI s v m k r : chMBPostI (box s) v = Some (m, k, r) ->
      step s (if r =? MSG_OK then LPut v else LTau) (Sys m (awake s ++ k))
  | s_postAheadI s v m k r : chMBPostAheadI (box s) v = Some (m, k, r) ->
      step s (if r =? MSG_OK then LPutAhead v else LTau) (Sys m (awake s ++ k))
  | s_fetchI s m k r v : chMBFetchI (box s) = Some (m, k, r, v) ->
      step s (if r =? MSG_OK then LGet (default 0 v) else LTau) (Sys m (awake s ++ k))
  | s_timeout_w s a w b : qw (box s) = a ++ w :: b ->
      step s LTau (Sys (set_qw (box s) (a ++ b)) (awake s ++ [(w, MSG_TIMEOUT)]))
  | s_timeout_r s a w b : qr (box s) = a ++ w :: b ->
      step s LTau (Sys (set_qr (box s) (a ++ b)) (awake s ++ [(w, MSG_TIMEOUT)]))
  | s_reset s : step s LClear (let '(m, k) := chMBResetI (box s) in Sys m (awake s ++ k))
  | s_resumeX s : step s LTau (Sys (chMBResumeX (box s)) (awake s)).

Definition tau (s s' : sys) : Prop := exists l, step s l s'.

Definition init (buf : list Z) : sys := Sys (chMBObjectInit buf) [].

Definition reachable (buf : list Z) (s : sys) : Prop := rtc tau (init buf) s.

(** Why a call gives up: the mailbox is being reset, the thread was woken for that, or its
    condition does not hold. *)
Definition gives_up (m : mailbox) (w : waiter) (r : option Z) : Prop :=
  reset m = true \/ (exists x, r = Some x /\ x <> MSG_OK) \/
  (wcall w = CFetch /\ cnt m = 0) \/ (wcall w <> CFetch /\ cnt m = size m).

(** What a round of a call does to the mailbox. *)
Inductive effect (m : mailbox) (w : waiter) (r : option Z) : mailbox -> wakes -> outcome -> Prop :=
  | e_fail x : x <> MSG_OK -> gives_up m w r -> effect m w r m [] (Return x None)
  | e_put m' k : wf m' -> size m' = size m -> reset m' = false -> cnt m' = cnt m + 1 ->
      wcall w <> CFetch -> deque_step (size m) (contents m) (label_of w (Return MSG_OK None)) (contents m') ->
      qw m' = qw m -> (qr m', k) = chThdDequeueNextI (qr m) MSG_OK ->
      effect m w r m' k (Return MSG_OK None)
  | e_get m' k v : wf m' -> size m' = size m -> reset m' = false -> cnt m' = cnt m - 1 ->
      wcall w = CFetch -> contents m = v :: contents m' ->
      qr m' = qr m -> (qw m', k) = chThdDequeueNextI (qw m) MSG_OK ->
      effect m w r m' k (Return MSG_OK (Some v))
  | e_sleep_w : cnt m = size m -> wcall w <> CFetch -> reset m = false ->
      effect m w r (set_qw m (qw m ++ [w])) [] Sleep
  | e_sleep_r : cnt m = 0 -> wcall w = CFetch -> reset m = false ->
      effect m w r (set_qr m (qr m ++ [w])) [] Sleep.

Lemma free_count m : wf m -> (0 <? chMBGetFreeCountI m) = (cnt m <? size m).
Proof.
  intros [? ? ? ?]. unfold chMBGetFreeCountI, chMBGetSizeI, chMBGetUsedCountI. fold (size m).
  rewrite u32_small by lia. destruct (Z.ltb_spec (cnt m) (size m)); [ztests|ztests]; done.
Qed.

Lemma wf_set_qr m q : wf m -> wf (set_qr m q).
Proof. by intros []. Qed.
Lemma wf_set_qw m q : wf m -> wf (set_qw m q).
Proof. by intros []. Qed.
#[local] Hint Resolve wf_set_qr wf_set_qw : core.

Lemma sleep_w_effect m w (r : option Z) : cnt m = size m -> wcall w <> CFetch -> reset m = false ->
  exists m' k o, sleep_w m w = Some (m', k, o) /\ effect m w r m' k o.
Proof.
  unfold sleep_w, chThdEnqueueTimeoutS. intros. destruct (wtimeout w =? TIME_IMMEDIATE);
    do 3 eexists; (split; [done|]); [apply e_fail; [done|]; unfold gives_up; auto|by apply e_sleep_w].
Qed.

Lemma sleep_r_effect m w (r : option Z) : cnt m = 0 -> wcall w = CFetch -> reset m = false ->
  exists m' k o, sleep_r m w = Some (m', k, o) /\ effect m w r m' k o.
Proof.
  unfold sleep_r, chThdEnqueueTimeoutS. intros. destruct (wtimeout w =? TIME_IMMEDIATE);
    do 3 eexists; (split; [done|]); [apply e_fail; [done|]; unfold gives_up; auto|by apply e_sleep_r].
Qed.

(** Storing a message and waking a reader. *)
Lemma put_effect m w (r : option Z) m' : wf m -> cnt m < size m -> reset m = false -> wcall w <> CFetch ->
  wf m' -> same_frame m m' ->
  contents m' = (if wcall w is CPostAhead then wmsg w :: contents m else contents m ++ [wmsg w]) ->
  exists m2 k o, (let '(m, k) := wake_reader m' in Some (m, k, Return MSG_OK None)) = Some (m2, k, o) /\
    effect m w r m2 k o.
Proof.
  intros Hw Hlt Hr Hc Hw' (Hs & Hr' & Hqw & Hqr) E. pose proof (contents_len m Hw) as L.
  unfold wake_reader. destruct (chThdDequeueNextI (qr m') MSG_OK) as [q k] eqn:D.
  do 3 eexists. split; [done|]. apply e_put; auto.
  - cbn. by rewrite Hr'.
  - change (cnt (set_qr m' q)) with (cnt m'). rewrite <- (contents_len m') by done. rewrite E.
    case_match; rewrite ?Zlen_cons, ?Zlen_app, L; done.
  - change (contents (set_qr m' q)) with (contents m'). rewrite E.
    unfold label_of. cbn. destruct (wcall w); try done; constructor; lia.
  - cbn. by rewrite <- D, Hqr.
Qed.

Lemma get_effect m w (r : option Z) m' v : wf m -> reset m = false -> wcall w = CFetch ->
  wf m' -> same_frame m m' -> contents m = v :: contents m' ->
  exists m2 k o, (let '(m, k) := wake_writer m' in Some (m, k, Return MSG_OK (Some v))) = Some (m2, k, o) /\
    effect m w r m2 k o.
Proof.
  intros Hw Hr Hc Hw' (Hs & Hr' & Hqw & Hqr) E. pose proof (contents_len m Hw) as L.
  unfold wake_writer. destruct (chThdDequeueNextI (qw m') MSG_OK) as [q k] eqn:D.
  do 3 eexists. split; [done|]. apply e_get; auto.
  - cbn. by rewrite Hr'.
  - change (cnt (set_qw m' q)) with (cnt m'). rewrite <- (contents_len m') by done.
    rewrite E, Zlen_cons in L. lia.
  - cbn. by rewrite <- D, Hqw.
Qed.

(** Every round of every call is defined, and has one of the effects. *)
Lemma run_call_effect m w r : wf m ->
  exists m' k o, run_call m w r = Some (m', k, o) /\ effect m w r m' k o.
Proof.
  intros Hw. unfold run_call, chMBPostTimeoutS, chMBPostAheadTimeoutS, chMBFetchTimeoutS, resumable.
  assert ((exists x, r = Some x /\ x <> MSG_OK) \/ ~ exists x, r = Some x /\ x <> MSG_OK) as [(x & -> & Hx)|Hn].
  { destruct r as [x|]; [destruct (Z.eq_dec x MSG_OK)|]; naive_solver. }
  { rewrite (proj2 (Z.eqb_neq _ _) Hx). eexists m, [], _. split; [by destruct (wcall w)|]. apply e_fail; [done|]. unfold gives_up. eauto. }
  assert (forall (f : mailbox -> waiter -> option (mailbox * wakes * outcome)),
    match r with Some rdymsg => if rdymsg =? MSG_OK then f m w else Some (m, [], Return rdymsg None)
    | None => f m w end = f m w) as Hf.
  { intros f. destruct r as [x|]; [|done]. destruct (Z.eqb_spec x MSG_OK); [done|]. destruct Hn. eauto. }
  rewrite !Hf. clear Hf Hn. unfold post_round, ahead_round, fetch_round. rewrite free_count by done.
  destruct (reset m) eqn:Hr.
  { eexists m, [], _. split; [by destruct (wcall w)|]. apply e_fail; [done|]. unfold gives_up. eauto. }
  unfold chMBGetUsedCountI. pose proof (wf_cnt m Hw).
  destruct (wcall w) eqn:Hc.
  - destruct (Z.ltb_spec (cnt m) (size m)) as [Hlt|Hge]; [|apply sleep_w_effect; rewrite ?Hc; try done; lia].
    destruct (store_tail_spec m (wmsg w) Hw Hlt) as (m' & -> & ? & ? & ?).
    apply put_effect; rewrite ?Hc; done.
  - destruct (Z.ltb_spec (cnt m) (size m)) as [Hlt|Hge]; [|apply sleep_w_effect; rewrite ?Hc; try done; lia].
    destruct (store_head_spec m (wmsg w) Hw Hlt) as (m' & -> & ? & ? & ?).
    apply put_effect; rewrite ?Hc; done.
  - destruct (Z.ltb_spec 0 (cnt m)) as [Hlt|Hge]; [|apply sleep_r_effect; try done; lia].
    destruct (load_head_spec m Hw Hlt) as (m' & v & -> & ? & ? & ?). by apply get_effect.
Qed.

(** ** No lost wake-up *)

Definition is_fetch (w : waiter) : bool := if wcall w is CFetch then true else false.

(** Threads woken because their condition held, and not run since. *)
Definition woken_readers (k : wakes) : Z :=
  Zlen (List.filter (fun '(w, r) => is_fetch w && (r =? MSG_OK)) k).
Definition woken_writers (k : wakes) : Z :=
  Zlen (List.filter (fun '(w, r) => negb (is_fetch w) && (r =? MSG_OK)) k).

Record box_inv (m : mailbox) (nr nw : Z) : Prop := {
  bi_wf : wf m;
  bi_reset : reset m = true -> qw m = [] /\ qr m = [];
  bi_qr : Forall (fun w => is_fetch w = true) (qr m);
  bi_qw : Forall (fun w => is_fetch w = false) (qw m);
  bi_readers : qr m <> [] -> cnt m <= nr;
  bi_writers : qw m <> [] -> size m - cnt m <= nw;
}.

Definition inv (buf : list Z) (s : sys) : Prop :=
  box_inv (box s) (woken_readers (awake s)) (woken_writers (awake s)) /\ size (box s) = Zlen buf.

Lemma woken_readers_app k l : woken_readers (k ++ l) = woken_readers k + woken_readers l.
Proof. unfold woken_readers. by rewrite List.filter_app, Zlen_app. Qed.
Lemma woken_writers_app k l : woken_writers (k ++ l) = woken_writers k + woken_writers l.
Proof. unfold woken_writers. by rewrite List.filter_app, Zlen_app. Qed.

Lemma woken_readers_nil : woken_readers [] = 0.
Proof. done. Qed.
Lemma woken_writers_nil : woken_writers [] = 0.
Proof. done. Qed.

Lemma woken_nonneg k : 0 <= woken_readers k /\ 0 <= woken_writers k.
Proof. split; apply Zlen_nonneg. Qed.

Lemma is_fetch_true w : is_fetch w = true <-> wcall w = CFetch.
Proof. unfold is_fetch. by destruct (wcall w). Qed.
Lemma is_fetch_false w : is_fetch w = false <-> wcall w <> CFetch.
Proof. unfold is_fetch. by destruct (wcall w). Qed.

(** The thread that runs, as the invariant counted it before it ran. *)
Definition self (w : waiter) (r : option Z) : wakes := match r with Some x => [(w, x)] | None => [] end.

Lemma self_fetch w r : wcall w = CFetch -> woken_readers (self w r) <= 1 /\ woken_writers (self w r) = 0.
Proof.
  intros H%is_fetch_true. destruct r as [x|]; [|done]. unfold self, woken_readers, woken_writers. cbn.
  rewrite H. cbn. by destruct (x =? MSG_OK).
Qed.
Lemma self_post w r : wcall w <> CFetch -> woken_writers (self w r) <= 1 /\ woken_readers (self w r) = 0.
Proof.
  intros H%is_fetch_false. destruct r as [x|]; [|done]. unfold self, woken_readers, woken_writers. cbn.
  rewrite H. cbn. by destruct (x =? MSG_OK).
Qed.
Lemma self_not_ok w r : (exists x, r = Some x /\ x <> MSG_OK) ->
  woken_readers (self w r) = 0 /\ woken_writers (self w r) = 0.
Proof.
  intros (x & -> & H%Z.eqb_neq). unfold self, woken_readers, woken_writers. cbn.
  rewrite H, !andb_false_r. done.
Qed.

Lemma wake_next q r k (P : waiter -> Prop) : (r, k) = chThdDequeueNextI q MSG_OK -> Forall P q ->
  Forall P r /\ (r <> [] -> exists w, k = [(w, MSG_OK)] /\ P w) /\ (k = [] \/ exists w, k = [(w, MSG_OK)] /\ P w).
Proof.
  rewrite dequeue_next. intros [= -> ->] HF. destruct q as [|w q]; [cbn; naive_solver|].
  apply Forall_cons in HF as [? ?]. cbn. split; [done|]. split; eauto.
Qed.

Lemma woken_reader w : is_fetch w = true -> woken_readers [(w, MSG_OK)] = 1 /\ woken_writers [(w, MSG_OK)] = 0.
Proof. intros H. unfold woken_readers, woken_writers. cbn. by rewrite H. Qed.
Lemma woken_writer w : is_fetch w = false -> woken_readers [(w, MSG_OK)] = 0 /\ woken_writers [(w, MSG_OK)] = 1.
Proof. intros H. unfold woken_readers, woken_writers. cbn. by rewrite H. Qed.

Lemma effect_inv m w r m' k o nr nw : 0 <= nr -> 0 <= nw ->
  box_inv m (nr + woken_readers (self w r)) (nw + woken_writers (self w r)) -> effect m w r m' k o ->
  box_inv m' (nr + woken_readers k) (nw + woken_writers k).
Proof.
  intros Hnr Hnw [Hw Hre Hqr Hqw Hr Hwr] He. pose proof (wf_cnt m Hw) as Hc. destruct He.
  - rewrite woken_readers_nil, woken_writers_nil, !Z.add_0_r.
    destruct H0 as [Hx|[Hx|[[Hf Hx]|[Hf Hx]]]].
    + destruct (Hre Hx) as [E1 E2]. split; auto; rewrite ?E1, ?E2; done.
    + destruct (self_not_ok w r Hx) as [E1 E2]. rewrite E1, E2, !Z.add_0_r in *. by split.
    + destruct (self_fetch w r Hf) as [E1 E2]. split; auto; intros; [|specialize (Hwr H0)]; lia.
    + destruct (self_post w r Hf) as [E1 E2]. split; auto; intros; [specialize (Hr H0)|]; lia.
  - destruct (self_post w r H3) as [E1 E2].
    destruct (wake_next _ _ _ _ H6 Hqr) as (F1 & F2 & F3). split; auto.
    + by rewrite H1.
    + by rewrite H5.
    + intros Hne. destruct (F2 Hne) as (u & -> & Hu). destruct (woken_reader u Hu) as [-> _].
      rewrite H2. enough (qr m <> []) as Hq by (specialize (Hr Hq); lia).
      intros Hq. rewrite Hq in H6. injection H6. congruence.
    + rewrite H5, H0, H2. intros Hq. specialize (Hwr Hq).
      destruct F3 as [->|(u & -> & Hu)]; [rewrite woken_writers_nil; lia|].
      destruct (woken_reader u Hu) as [_ ->]. lia.
  - destruct (self_fetch w r H3) as [E1 E2].
    destruct (wake_next _ _ _ _ H6 Hqw) as (F1 & F2 & F3). split; auto.
    + by rewrite H1.
    + by rewrite H5.
    + rewrite H5, H2. intros Hq. specialize (Hr Hq).
      destruct F3 as [->|(u & -> & Hu)]; [rewrite woken_readers_nil; lia|].
      destruct (woken_writer u Hu) as [-> _]. lia.
    + intros Hne. destruct (F2 Hne) as (u & -> & Hu). destruct (woken_writer u Hu) as [_ ->].
      rewrite H2, H0. enough (qw m <> []) as Hq by (specialize (Hwr Hq); lia).
      intros Hq. rewrite Hq in H6. injection H6. congruence.
  - destruct (self_post w r H0) as [E1 E2]. apply is_fetch_false in H0. split; auto; cbn.
    + congruence.
    + apply Forall_app. auto.
    + intros Hq. specialize (Hr Hq). rewrite woken_readers_nil. lia.
    + intros _. change (size (set_qw m (qw m ++ [w]))) with (size m). rewrite woken_writers_nil. lia.
  - destruct (self_fetch w r H0) as [E1 E2]. apply is_fetch_true in H0. split; auto; cbn.
    + congruence.
    + apply Forall_app. auto.
    + intros _. rewrite woken_readers_nil. lia.
    + intros Hq. specialize (Hwr Hq). change (size (set_qr m (qr m ++ [w]))) with (size m).
      rewrite woken_writers_nil. lia.
Qed.

Lemma effect_deque m w r m' k o : effect m w r m' k o ->
  deque_step (size m) (contents m) (label_of w o) (contents m') /\ size m' = size m.
Proof.
  intros [x Hx _| m2 k2 ? ? ? ? ? Hd| m2 k2 v ? ? ? ? Hc E| |]; cbn.
  - rewrite (proj2 (Z.eqb_neq _ _) Hx). by split; [constructor|].
  - done.
  - rewrite Hc, E. by split; [constructor|].
  - by split; [constructor|].
  - by split; [constructor|].
Qed.

(** The calls for interrupt handlers are the blocking ones with no time to wait. *)
Lemma postI_call m v m' k r : chMBPostI m v = Some (m', k, r) ->
  run_call m (Waiter 0 CPost v TIME_IMMEDIATE) None = Some (m', k, Return r None).
Proof.
  unfold chMBPostI, run_call, chMBPostTimeoutS, resumable, post_round. cbn. intros H.
  repeat case_match; simplify_eq/=; try done. destruct (store_tail m v); [|done]. cbn in *. by case_match; simplify_eq/=.
Qed.

Lemma postAheadI_call m v m' k r : chMBPostAheadI m v = Some (m', k, r) ->
  run_call m (Waiter 0 CPostAhead v TIME_IMMEDIATE) None = Some (m', k, Return r None).
Proof.
  unfold chMBPostAheadI, run_call, chMBPostAheadTimeoutS, resumable, ahead_round. cbn. intros H.
  repeat case_match; simplify_eq/=; try done. destruct (store_head m v); [|done]. cbn in *. by case_match; simplify_eq/=.
Qed.

Lemma fetchI_call m m' k r v : chMBFetchI m = Some (m', k, r, v) ->
  run_call m (Waiter 0 CFetch 0 TIME_IMMEDIATE) None = Some (m', k, Return r v).
Proof.
  unfold chMBFetchI, run_call, chMBFetchTimeoutS, resumable, fetch_round. cbn. intros H.
  repeat case_match; simplify_eq/=; try done. destruct (load_head m) as [[m2 v2]|]; [|done]. cbn in *.
  by case_match; simplify_eq/=.
Qed.

(** What a step does, whichever call it is of. *)
Lemma call_step buf m w r k0 m' k o nr nw : 0 <= nr -> 0 <= nw -> size m = Zlen buf ->
  box_inv m (nr + woken_readers (self w r)) (nw + woken_writers (self w r)) ->
  nr = woken_readers k0 -> nw = woken_writers k0 ->
  run_call m w r = Some (m', k, o) ->
  inv buf (Sys m' (k0 ++ k)) /\ deque_step (Zlen buf) (contents m) (label_of w o) (contents m').
Proof.
  intros H1 H2 Hs Hb -> -> Hr. destruct (run_call_effect m w r (bi_wf _ _ _ Hb)) as (? & ? & ? & E & He).
  rewrite E in Hr. simplify_eq. destruct (effect_deque _ _ _ _ _ _ He) as [Hd Hz]. split.
  - split; [|cbn; congruence]. cbn. rewrite woken_readers_app, woken_writers_app.
    by eapply effect_inv.
  - by rewrite <- Hs.
Qed.

Lemma fresh_step buf s w m' k o : inv buf s -> run_call (box s) w None = Some (m', k, o) ->
  inv buf (Sys m' (awake s ++ k)) /\ deque_step (Zlen buf) (contents (box s)) (label_of w o) (contents m').
Proof.
  intros [Hb Hs] Hr. pose proof (woken_nonneg (awake s)) as [? ?].
  apply (call_step buf (box s) w None _ _ _ _ (woken_readers (awake s)) (woken_writers (awake s))); try done. cbn.
  rewrite woken_readers_nil, woken_writers_nil, !Z.add_0_r. done.
Qed.

Lemma woken_middle (a b : wakes) x : woken_readers (a ++ x :: b) = woken_readers (a ++ b) + woken_readers [x] /\
  woken_writers (a ++ x :: b) = woken_writers (a ++ b) + woken_writers [x].
Proof.
  change (x :: b) with ([x] ++ b). rewrite !woken_readers_app, !woken_writers_app. lia.
Qed.

Lemma timeout_counts w : woken_readers [(w, MSG_TIMEOUT)] = 0 /\ woken_writers [(w, MSG_TIMEOUT)] = 0.
Proof. unfold woken_readers, woken_writers. cbn. by rewrite !andb_false_r. Qed.

Lemma reset_counts (q : list waiter) :
  woken_readers (map (fun w => (w, MSG_RESET)) q) = 0 /\ woken_writers (map (fun w => (w, MSG_RESET)) q) = 0.
Proof.
  unfold woken_readers, woken_writers. induction q as [|w q [I1 I2]]; [done|]. cbn.
  rewrite !andb_false_r. done.
Qed.

Lemma Forall_remove {A} (P : A -> Prop) a x b : Forall P (a ++ x :: b) -> Forall P (a ++ b).
Proof. rewrite !Forall_app, Forall_cons. naive_solver. Qed.

(** Removing a thread whose time is over keeps the counts. *)
Lemma timeout_step buf s m w : inv buf s -> contents m = contents (box s) -> size m = size (box s) ->
  box_inv m (woken_readers (awake s)) (woken_writers (awake s)) ->
  inv buf (Sys m (awake s ++ [(w, MSG_TIMEOUT)])) /\ deque_step (Zlen buf) (contents (box s)) LTau (contents m).
Proof.
  intros [Hb Hs] Hc Hz Hm. destruct (timeout_counts w) as [E1 E2]. split.
  - split; [|cbn; congruence]. cbn. rewrite woken_readers_app, woken_writers_app, E1, E2, !Z.add_0_r. done.
  - rewrite Hc. constructor.
Qed.

Lemma mb_step_inv buf s l s' : inv buf s -> step s l s' ->
  inv buf s' /\ deque_step (Zlen buf) (contents (box s)) l (contents (box s')).
Proof.
  intros Hi Hst. destruct Hst as [s w m k o Hr|s a w r b m k o Ha Hr|s v m k r Hr|s v m k r Hr|s m k r v Hr
    |s a w b Hq|s a w b Hq|s|s]; cbn [box].
  - by apply fresh_step.
  - destruct Hi as [Hb Hs]. rewrite Ha in Hb. destruct (woken_middle a b (w, r)) as [E1 E2]. rewrite E1, E2 in Hb.
    pose proof (woken_nonneg (a ++ b)) as [? ?]. rewrite app_assoc.
    by apply (call_step buf (box s) w (Some r) _ _ _ _ (woken_readers (a ++ b)) (woken_writers (a ++ b))).
  - apply postI_call in Hr. exact (fresh_step buf s _ _ _ _ Hi Hr).
  - apply postAheadI_call in Hr. exact (fresh_step buf s _ _ _ _ Hi Hr).
  - apply fetchI_call in Hr. exact (fresh_step buf s _ _ _ _ Hi Hr).
  - apply timeout_step; try done. destruct Hi as [[? ? ? F ? ?] ?]. rewrite Hq in *. split; cbn; auto.
    + intros E. destruct (bi_reset0 E) as [Hn _]. by destruct a.
    + by eapply Forall_remove.
    + intros _. apply bi_writers0. by destruct a.
  - apply timeout_step; try done. destruct Hi as [[? ? F ? ? ?] ?]. rewrite Hq in *. split; cbn; auto.
    + intros E. destruct (bi_reset0 E) as [_ Hn]. by destruct a.
    + by eapply Forall_remove.
    + intros _. apply bi_readers0. by destruct a.
  - unfold chMBResetI. rewrite !dequeue_all. destruct Hi as [[[? ? ? ?] ? ? ? ? ?] Hs]. cbn. split.
    + split; [|done]. cbn. split; cbn; try done. split; unfold size, slot in *; cbn; try lia. by rewrite Zmod_0_l.
    + constructor.
  - destruct Hi as [[[? ? ? ?] ? ? ? ? ?] Hs]. split; [|constructor]. by split.
Qed.

Lemma init_inv buf : 0 < Zlen buf < 2 ^ 32 -> inv buf (init buf).
Proof. intros H. split; [|done]. split; try done. split; unfold size, slot; cbn; try lia. by rewrite Zmod_0_l. Qed.

Lemma mb_reachable_inv buf s : 0 < Zlen buf < 2 ^ 32 -> reachable buf s -> inv buf s.
Proof.
  intros H Hr. pose proof (init_inv buf H) as Hi. unfold reachable in Hr.
  induction Hr as [|x y z [l Hst] _ IH]; [done|]. apply IH. by eapply mb_step_inv.
Qed.

(** C10: A mailbox is a bounded deque to its users.  In every state any number of threads and
    interrupt handlers can bring a mailbox into, no call accesses memory outside the ring, and
    every step - a call, the continuation of a woken thread, a time-out, a reset - is a step of
    the deque of that capacity with the same label: what a fetch returns is the oldest message
    (or the latest one posted ahead), a post that succeeds adds exactly its message, and a call
    that fails or sleeps changes nothing. *)
Theorem mailbox_refines (buf : list Z) (s : sys) (Hbuf : 0 < Zlen buf < 2 ^ 32) (Hr : reachable buf s) :
  (forall w r, is_Some (run_call (box s) w r)) /\
  (forall l s', step s l s' -> deque_step (Zlen buf) (contents (box s)) l (contents (box s'))).
Proof.
  pose proof (mb_reachable_inv buf s Hbuf Hr) as Hi. split.
  - intros w r. destruct Hi as [[Hw _ _ _ _ _] _]. destruct (run_call_effect (box s) w r Hw) as (? & ? & ? & -> & _).
    by eexists.
  - intros l s' Hst. by eapply mb_step_inv.
Qed.

(** C11: No wake-up is lost.  In every reachable state there are at least as many woken readers
    that have not run yet as messages, if a reader still sleeps, and as many woken writers as
    free slots, if a writer still sleeps; so when all woken threads have run, a reader sleeps
    only on an empty mailbox and a writer only on a full one. *)
Theorem mailbox_no_lost_wakeup (buf : list Z) (s : sys) (Hbuf : 0 < Zlen buf < 2 ^ 32) (Hr : reachable buf s) :
  (qr (box s) <> [] -> Zlen (contents (box s)) <= woken_readers (awake s)) /\
  (qw (box s) <> [] -> Zlen buf - Zlen (contents (box s)) <= woken_writers (awake s)) /\
  (awake s = [] -> (qr (box s) <> [] -> contents (box s) = []) /\
                   (qw (box s) <> [] -> Zlen (contents (box s)) = Zlen buf)).
Proof.
  destruct (mb_reachable_inv buf s Hbuf Hr) as [[Hw _ _ _ HR HW] Hs]. rewrite Hs in HW.
  pose proof (contents_len _ Hw) as L. pose proof (wf_cnt _ Hw). rewrite L. split_and!; auto.
  intros E. rewrite E in *. rewrite woken_readers_nil in HR. rewrite woken_writers_nil in HW. split; intros Hq.
  - specialize (HR Hq). destruct (contents (box s)); [done|]. rewrite Zlen_cons in L.
    pose proof (Zlen_nonneg l). lia.
  - specialize (HW Hq). lia.
Qed.

(** A reader sleeps, a writer posts, the reader runs. *)
Definition demo_reader : waiter := Waiter 1 CFetch 0 100.
Definition demo_writer : waiter := Waiter 2 CPost 7 100.

Lemma demo_reachable : reachable [0; 0]
  (Sys (MB [7; 0] 1 0 1 false [] []) [(demo_reader, MSG_OK)]).
Proof.
  eapply rtc_l.
  { eexists. apply (s_call _ demo_reader). reflexivity. }
  eapply rtc_l; [|apply rtc_refl].
  eexists. refine (s_call _ demo_writer _ [(demo_reader, MSG_OK)] (Return MSG_OK None) _). reflexivity.
Qed.

Lemma mailbox_refines_witness :
  deque_step 2 [7] (LGet 7) [].
Proof.
  refine (proj2 (mailbox_refines [0; 0] _ _ demo_reachable) _ (Sys (MB [7; 0] 1 1 0 false [] []) []) _).
  - vm_compute. split; congruence.
  - apply (s_resume _ [] demo_reader MSG_OK [] _ [] (Return MSG_OK (Some 7))); reflexivity.
Defined.

Lemma demo_sleeping : reachable [0; 0] (Sys (MB [0; 0] 0 0 0 false [] [demo_reader]) []).
Proof.
  eapply rtc_l; [|apply rtc_refl]. eexists. refine (s_call _ demo_reader _ [] Sleep _). reflexivity.
Qed.

Lemma mailbox_no_lost_wakeup_witness :
  contents (MB [0; 0] 0 0 0 false [] [demo_reader]) = [].
Proof.
  refine (proj1 (proj2 (proj2 (mailbox_no_lost_wakeup [0; 0] _ _ demo_sleeping)) eq_refl) _).
  - vm_compute. split; congruence.
  - discriminate.
Defined.
