(* ===== verification/Sem.v ===== *)
(** * Sem: the counting semaphores of the kernel (ext/ChibiOS_21.11.3/os/rt/src/chsem.c,
    the time-out of a sleeping thread in os/rt/src/chschd.c)

    A thread is its identity.  [None] is a failed debug check or assertion ("inconsistent
    semaphore"), the removal from an empty queue, or a counter that leaves the range of its type, the signed
    32-bit [cnt_t], which C leaves undefined.  A wait returns a message at once or
    puts the caller to sleep ([WSleep]); the threads an operation makes ready are listed with their
    messages. *)

From S2P Require Import Prelude Mailbox.

Record semaphore := Semaphore { scnt : Z; squeue : list Z }.

Abbreviation readied := (list (Z * Z)).

Inductive wait_result := WRet (msg : Z) | WSleep.

(** The result of [++cnt] or [--cnt]. *)
Definition cnt_t (z : Z) : option Z := if (- 2 ^ 31 <=? z) && (z <? 2 ^ 31) then Some z else None.

(** The assertion at the start of every operation. *)
Definition consistent (s : semaphore) : bool :=
  match squeue s with [] => 0 <=? scnt s | _ :: _ => scnt s <? 0 end.

Definition guard_sem {A} (s : semaphore) (k : option A) : option A := if consistent s then k else None.

Definition chSemObjectInit (n : Z) : semaphore := Semaphore n [].

(** The queue is emptied from its tail. *)
Definition chSemResetWithMessageI (s : semaphore) (n msg : Z) : option (semaphore * readied) :=
  if n <? 0 then None else guard_sem s (Some (Semaphore n [], map (fun t => (t, msg)) (rev (squeue s)))).

Definition chSemWaitS (s : semaphore) (self : Z) : option (semaphore * wait_result) :=
  guard_sem s
    (c ← cnt_t (scnt s - 1);
     if c <? 0 then Some (Semaphore c (squeue s ++ [self]), WSleep)
     else Some (Semaphore c (squeue s), WRet MSG_OK)).

Definition chSemWaitTimeoutS (s : semaphore) (self timeout : Z) : option (semaphore * wait_result) :=
  guard_sem s
    (c ← cnt_t (scnt s - 1);
     if c <? 0 then
       if timeout =? TIME_IMMEDIATE then c ← cnt_t (c + 1); Some (Semaphore c (squeue s), WRet MSG_TIMEOUT)
       else Some (Semaphore c (squeue s ++ [self]), WSleep)
     else Some (Semaphore c (squeue s), WRet MSG_OK)).

(** [if (++sp->cnt <= 0)] the first thread of the queue is made ready. *)
Definition signal1 (s : semaphore) : option (semaphore * readied) :=
  c ← cnt_t (scnt s + 1);
  if c <=? 0 then
    match squeue s with [] => None | t :: q => Some (Semaphore c q, [(t, MSG_OK)]) end
  else Some (Semaphore c (squeue s), []).

Definition chSemSignal (s : semaphore) : option (semaphore * readied) := guard_sem s (signal1 s).
Definition chSemSignalI (s : semaphore) : option (semaphore * readied) := guard_sem s (signal1 s).

Fixpoint add_loop (s : semaphore) (n : nat) : option (semaphore * readied) :=
  match n with
  | O => Some (s, [])
  | S n => '(s, k) ← signal1 s; '(s, k') ← add_loop s n; Some (s, k ++ k')
  end.

Definition chSemAddCounterI (s : semaphore) (n : Z) : option (semaphore * readied) :=
  if n <=? 0 then None else guard_sem s (add_loop s (Z.to_nat n)).

(** Signal one semaphore and wait on another. *)
Definition chSemSignalWait (sps spw : semaphore) (self : Z) :
    option (semaphore * readied * semaphore * wait_result) :=
  guard_sem sps (guard_sem spw
    ('(sps, k) ← signal1 sps;
     c ← cnt_t (scnt spw - 1);
     if c <? 0 then Some (sps, k, Semaphore c (squeue spw ++ [self]), WSleep)
     else Some (sps, k, Semaphore c (squeue spw), WRet MSG_OK))).

(** [__sch_wakeup] for a thread in state [CH_STATE_WTSEM]: the count is given back and
    the thread leaves the queue. *)
Definition sem_timeout (s : semaphore) (a : list Z) (t : Z) (b : list Z) : semaphore * readied :=
  (Semaphore (scnt s + 1) (a ++ b), [(t, MSG_TIMEOUT)]).

(** ** Tokens *)

(** Units that can be taken without waiting. *)
Definition tokens (s : semaphore) : Z := Z.max 0 (scnt s).

(** The counter and the queue agree: a negative count is the number of sleeping threads. *)
Definition sem_ok (s : semaphore) : Prop := Zlen (squeue s) = Z.max 0 (- scnt s).

Lemma sem_ok_consistent s : sem_ok s -> consistent s = true.
Proof.
  unfold sem_ok, consistent. destruct (squeue s) as [|t q]; [rewrite Zlen_nil|rewrite Zlen_cons].
  - intros. apply Z.leb_le. lia.
  - pose proof (Zlen_nonneg q). intros. apply Z.ltb_lt. lia.
Qed.

Lemma guard_ok {A} s (k : option A) : sem_ok s -> guard_sem s k = k.
Proof. intros H. unfold guard_sem. by rewrite sem_ok_consistent. Qed.

Lemma cnt_t_some z c : cnt_t z = Some c -> c = z /\ - 2 ^ 31 <= z < 2 ^ 31.
Proof. unfold cnt_t. destruct (Z.leb_spec (- 2 ^ 31) z), (Z.ltb_spec z (2 ^ 31)); cbn; intros [= <-]; lia. Qed.

Lemma cnt_t_in z : - 2 ^ 31 <= z < 2 ^ 31 -> cnt_t z = Some z.
Proof. intros H. unfold cnt_t. by rewrite (proj2 (Z.leb_le _ _)), (proj2 (Z.ltb_lt _ _)) by lia. Qed.

(** A signal hands its unit to the thread that has waited longest, or keeps it. *)
Lemma signal1_spec s s' k : sem_ok s -> signal1 s = Some (s', k) ->
  sem_ok s' /\ (scnt s' = scnt s + 1 /\ scnt s' < 2 ^ 31) /\
    ((squeue s = [] /\ squeue s' = [] /\ k = [] /\ tokens s' = tokens s + 1) \/
     (exists t, squeue s = t :: squeue s' /\ k = [(t, MSG_OK)] /\ tokens s' = tokens s)).
Proof.
  unfold sem_ok, signal1, tokens. intros H E. destruct s as [c q]. cbn in *.
  destruct (cnt_t (c + 1)) as [c'|] eqn:Ec; [|done]. apply cnt_t_some in Ec as [-> Hc]. cbn in E.
  destruct (Z.leb_spec (c + 1) 0).
  - destruct q as [|t q]; [done|]. rewrite Zlen_cons in H. simplify_eq. cbn.
    split_and!; try lia. right. exists t. split_and!; try done. lia.
  - simplify_eq. cbn. destruct q as [|t q]; [|rewrite Zlen_cons in H; pose proof (Zlen_nonneg q); lia].
    split_and!; try lia. left. split_and!; try done. lia.
Qed.

(** It succeeds as long as the counter has room. *)
Lemma signal1_some s : sem_ok s -> - 2 ^ 31 <= scnt s -> is_Some (signal1 s) <-> scnt s + 1 < 2 ^ 31.
Proof.
  intros Hok Hlo. split; [intros [[s' k] E]; apply signal1_spec in E as (_ & [? ?] & _); [lia|done]|]. intros Hc.
  unfold signal1. rewrite cnt_t_in by lia. cbn. destruct (Z.leb_spec (scnt s + 1) 0); [|by eexists].
  unfold sem_ok in Hok. destruct (squeue s); [rewrite Zlen_nil in Hok; lia|by eexists].
Qed.

Lemma wait_spec s t s' r : sem_ok s -> chSemWaitS s t = Some (s', r) ->
  sem_ok s' /\ (- 2 ^ 31 <= scnt s' /\ scnt s' = scnt s - 1) /\
    ((r = WRet MSG_OK /\ squeue s' = squeue s /\ tokens s = tokens s' + 1) \/
     (r = WSleep /\ squeue s' = squeue s ++ [t] /\ tokens s = 0 /\ tokens s' = 0)).
Proof.
  intros H. unfold chSemWaitS. rewrite guard_ok by done. unfold sem_ok, tokens in *. destruct s as [c q]. cbn in *.
  destruct (cnt_t (c - 1)) as [c'|] eqn:Ec; [|done]. apply cnt_t_some in Ec as [-> Hc]. cbn.
  destruct (Z.ltb_spec (c - 1) 0); intros [= <- <-]; cbn.
  - rewrite Zlen_app. change (Zlen [t]) with 1. split_and!; try lia. right. split_and!; try done; lia.
  - split_and!; try lia. left. split_and!; try done. lia.
Qed.

Lemma wait_some s t : sem_ok s -> scnt s < 2 ^ 31 -> is_Some (chSemWaitS s t) <-> - 2 ^ 31 <= scnt s - 1.
Proof.
  intros Hok Hhi. split; [intros [[s' r] E]; apply wait_spec in E as (_ & [? E'] & _); [lia|done]|]. intros Hc.
  unfold chSemWaitS. rewrite guard_ok, cnt_t_in by (done || lia). cbn. destruct (_ <? 0); by eexists.
Qed.

(** ** The system of a semaphore *)

(** [grants] units handed out, [signals] units given back. *)
Record sem_sys := SemSys { sem : semaphore; grants : Z; signals : Z }.

Definition granted (k : readied) : Z := Zlen (List.filter (fun '(_, m) => m =? MSG_OK) k).
Definition ret_granted (r : wait_result) : Z :=
  match r with WRet m => if m =? MSG_OK then 1 else 0 | WSleep => 0 end.

Inductive sem_step : sem_sys -> sem_sys -> Prop :=
  | ss_wait s t s' r : chSemWaitS (sem s) t = Some (s', r) ->
      sem_step s (SemSys s' (grants s + ret_granted r) (signals s))
  | ss_wait_timeout s t d s' r : chSemWaitTimeoutS (sem s) t d = Some (s', r) ->
      sem_step s (SemSys s' (grants s + ret_granted r) (signals s))
  | ss_signal s s' k : chSemSignal (sem s) = Some (s', k) ->
      sem_step s (SemSys s' (grants s + granted k) (signals s + 1))
  | ss_signalI s s' k : chSemSignalI (sem s) = Some (s', k) ->
      sem_step s (SemSys s' (grants s + granted k) (signals s + 1))
  | ss_add s n s' k : chSemAddCounterI (sem s) n = Some (s', k) ->
      sem_step s (SemSys s' (grants s + granted k) (signals s + n))
  | ss_timeout s a t b : squeue (sem s) = a ++ t :: b ->
      sem_step s (SemSys (sem_timeout (sem s) a t b).1 (grants s + granted (sem_timeout (sem s) a t b).2) (signals s)).

Definition sem_inv (n : Z) (s : sem_sys) : Prop :=
  sem_ok (sem s) /\ - 2 ^ 31 <= scnt (sem s) < 2 ^ 31 /\ tokens (sem s) + grants s = n + signals s.

Lemma granted_app k l : granted (k ++ l) = granted k + granted l.
Proof. unfold granted. by rewrite List.filter_app, Zlen_app. Qed.

Lemma signal1_inv n s g c s' k : sem_inv n (SemSys s g c) -> signal1 s = Some (s', k) ->
  sem_inv n (SemSys s' (g + granted k) (c + 1)).
Proof.
  intros (Hok & Hr & Ht) Hs. cbn in *. destruct (signal1_spec s s' k Hok Hs) as (Hok' & Hc & D).
  unfold sem_inv. cbn. split_and!; try done; try lia.
  destruct D as [(_ & _ & -> & E2)|(t & _ & -> & E2)]; rewrite E2;
    [change (granted []) with 0|change (granted [(t, MSG_OK)]) with 1]; lia.
Qed.

Lemma add_loop_inv n m : forall s g c s' k, sem_inv n (SemSys s g c) -> add_loop s m = Some (s', k) ->
  sem_inv n (SemSys s' (g + granted k) (c + Z.of_nat m)).
Proof.
  induction m as [|m IH]; intros s g c s' k Hi E; cbn in E.
  - simplify_eq. change (granted []) with 0. by rewrite !Z.add_0_r.
  - destruct (signal1 s) as [[s1 k1]|] eqn:E1; [|done]. cbn in E. destruct (add_loop s1 m) as [[s2 k2]|] eqn:E2; [|done].
    cbn in E. simplify_eq. eapply signal1_inv in E1; [|done]. eapply IH in E2; [|done].
    rewrite granted_app. replace (c + Z.of_nat (S m)) with (c + 1 + Z.of_nat m) by lia. by rewrite Z.add_assoc.
Qed.

(** An addition succeeds as long as the counter has room for all of it. *)
Lemma add_loop_some m : forall s, sem_ok s -> - 2 ^ 31 <= scnt s < 2 ^ 31 -> is_Some (add_loop s m) <-> scnt s + Z.of_nat m < 2 ^ 31.
Proof.
  induction m as [|m IH]; intros s Hok Hr; cbn [add_loop].
  - split; [lia|by eexists].
  - destruct (signal1 s) as [[s1 k1]|] eqn:E1; cbn [mbind option_bind].
    + destruct (signal1_spec s s1 k1 Hok E1) as (Hok1 & Hc & _). specialize (IH s1 Hok1 ltac:(lia)).
      destruct (add_loop s1 m) as [[s2 k2]|]; cbn [mbind option_bind]; (split; intros Hx; [|try by eexists]).
      * assert (scnt s1 + Z.of_nat m < 2 ^ 31) by (apply IH; by eexists). lia.
      * by apply is_Some_None in Hx.
      * exfalso. apply (is_Some_None (A := semaphore * readied)). apply IH. lia.
    + split; intros Hx; [by apply is_Some_None in Hx|]. exfalso. apply (is_Some_None (A := semaphore * readied)).
      rewrite <- E1. apply signal1_some; lia || done.
Qed.

Lemma wait_timeout_inv n s t d s' r g c : sem_inv n (SemSys s g c) -> chSemWaitTimeoutS s t d = Some (s', r) ->
  sem_inv n (SemSys s' (g + ret_granted r) c).
Proof.
  intros (Hok & Hr & Ht) Hc. unfold chSemWaitTimeoutS in Hc. cbn in *. rewrite guard_ok in Hc by done.
  unfold sem_inv, sem_ok, tokens in *. destruct s as [v q]. cbn in *.
  destruct (cnt_t (v - 1)) as [v'|] eqn:Ev; [|done]. apply cnt_t_some in Ev as [-> Hv]. cbn in Hc.
  destruct (Z.ltb_spec (v - 1) 0); [destruct (d =? TIME_IMMEDIATE)|].
  - rewrite cnt_t_in in Hc by lia. simplify_eq/=. split_and!; lia.
  - simplify_eq/=. rewrite Zlen_app. change (Zlen [t]) with 1. split_and!; lia.
  - simplify_eq/=. split_and!; lia.
Qed.

Lemma sem_step_inv n s s' : sem_inv n s -> sem_step s s' -> sem_inv n s'.
Proof.
  intros Hi Hst. destruct Hst as [s t s' r Hc|s t d s' r Hc|s s' k Hc|s s' k Hc|s m s' k Hc|s a t b Hq].
  - destruct Hi as (Hok & Hr & Ht). destruct (wait_spec (sem s) t s' r Hok Hc) as (Hok' & Hr' & D).
    unfold sem_inv. cbn. split_and!; try done; try lia.
    destruct D as [(-> & _ & E2)|(-> & _ & E2 & E3)]; cbn; lia.
  - destruct s. by eapply wait_timeout_inv.
  - unfold chSemSignal in Hc. rewrite guard_ok in Hc by apply Hi. destruct s. by eapply signal1_inv.
  - unfold chSemSignalI in Hc. rewrite guard_ok in Hc by apply Hi. destruct s. by eapply signal1_inv.
  - unfold chSemAddCounterI in Hc. destruct (Z.leb_spec m 0); [done|]. rewrite guard_ok in Hc by apply Hi.
    destruct s as [s g c]. cbn in *. apply (add_loop_inv n _ s g c) in Hc; [|done]. by rewrite Z2Nat.id in Hc by lia.
  - unfold sem_inv, sem_ok, tokens, sem_timeout in *. destruct (sem s) as [c q]. cbn in *. subst q.
    rewrite Zlen_app in *. rewrite Zlen_cons in Hi. change (granted _) with 0.
    pose proof (Zlen_nonneg a). pose proof (Zlen_nonneg b). split_and!; lia.
Qed.

(** C22: Semaphores conserve their units.  Starting from a count n, after any sequence of successful
    waits, waits with time-out, time-outs, signals and additions by threads and interrupt
    handlers, the units that can still be taken plus those handed out are n plus those given
    back; the kernel's consistency assertion holds; the counter is in the range of its 32 bits; a thread
    sleeps only when no unit is left.  The next operation fails only at the ends of that range: a
    wait exactly when 2^31 threads sleep already, a signal exactly when the counter is at its
    maximum of 2^31 - 1, the addition of m > 0 units exactly when they do not fit below it. *)
Theorem sem_conservation (n : Z) (s : sem_sys) (Hn : 0 <= n < 2 ^ 31)
    (Hr : rtc sem_step (SemSys (chSemObjectInit n) 0 0) s) :
  tokens (sem s) + grants s = n + signals s /\ consistent (sem s) = true /\ - 2 ^ 31 <= scnt (sem s) < 2 ^ 31 /\
  (squeue (sem s) <> [] -> tokens (sem s) = 0) /\
  (forall t, is_Some (chSemWaitS (sem s) t) <-> Zlen (squeue (sem s)) < 2 ^ 31) /\
  (is_Some (chSemSignal (sem s)) <-> scnt (sem s) < 2 ^ 31 - 1) /\
  (forall m, 0 < m -> is_Some (chSemAddCounterI (sem s) m) <-> scnt (sem s) + m < 2 ^ 31).
Proof.
  assert (sem_inv n s) as (Hok & Hc & Ht).
  { assert (sem_inv n (SemSys (chSemObjectInit n) 0 0)) as Hi
      by (unfold sem_inv, sem_ok, tokens; cbn; rewrite Zlen_nil; lia).
    clear Hn. induction Hr as [|x y z Hst _ IH]; [done|]. apply IH. by eapply sem_step_inv. }
  split_and!; [done|by apply sem_ok_consistent|lia|lia| | | |].
  - unfold sem_ok, tokens in *. destruct (squeue (sem s)); [done|]. rewrite Zlen_cons in Hok.
    pose proof (Zlen_nonneg l). lia.
  - intros t. rewrite wait_some by (done || lia). unfold sem_ok in Hok. lia.
  - unfold chSemSignal. rewrite guard_ok, signal1_some by (done || lia). lia.
  - intros m Hm. unfold chSemAddCounterI. rewrite (proj2 (Z.leb_gt _ _)) by done.
    rewrite guard_ok, add_loop_some, Z2Nat.id by (done || lia). done.
Qed.

Lemma sem_conservation_witness : tokens (Semaphore (-1) [7]) + 1 = 1 + 0.
Proof.
  refine (proj1 (sem_conservation 1 (SemSys (Semaphore (-1) [7]) 1 0) _ _)); [lia|].
  eapply rtc_l. { refine (ss_wait _ 5 _ (WRet MSG_OK) _). reflexivity. }
  eapply rtc_l; [|apply rtc_refl]. refine (ss_wait _ 7 _ WSleep _). reflexivity.
Defined.
