(* ===== verification/Mutex.v ===== *)
(** * Mutex: mutexes with priority inheritance (ext/ChibiOS_21.11.3/os/rt/src/chmtx.c, and
    ch_sch_prio_insert of chschd.h)

    Threads and mutexes are numbers; the fields of the structures are functions of them.  A thread
    is asleep on a mutex ([wtmtxp]) or not: whether it then runs, is ready or waits for something
    else makes no difference to this module, except for its place in the ready list, which is not part
    of the model.  The mutexes are recursive, as the firmware configures them; depths of recursion stay below
    2^31.  [None] is a failed assertion or a null pointer. *)

From stdpp Require Import functions.
From Stdlib Require Import Sorting.Sorted.
From S2P Require Import Prelude.

Record ks := KS {
  realprio : Z -> Z;
  prio : Z -> Z;
  mtxlist : Z -> list Z;              (* the owned mutexes, the last one locked first *)
  wtmtxp : Z -> option Z;
  owner : Z -> option Z;
  cnt : Z -> Z;
  queue : Z -> list Z }.

Definition set_prio (s : ks) (t p : Z) : ks := KS (realprio s) (<[t := p]> (prio s)) (mtxlist s) (wtmtxp s) (owner s) (cnt s) (queue s).
Definition set_mtxlist (s : ks) (t : Z) (l : list Z) : ks := KS (realprio s) (prio s) (<[t := l]> (mtxlist s)) (wtmtxp s) (owner s) (cnt s) (queue s).
Definition set_wait (s : ks) (t : Z) (w : option Z) : ks := KS (realprio s) (prio s) (mtxlist s) (<[t := w]> (wtmtxp s)) (owner s) (cnt s) (queue s).
Definition set_owner (s : ks) (m : Z) (o : option Z) : ks := KS (realprio s) (prio s) (mtxlist s) (wtmtxp s) (<[m := o]> (owner s)) (cnt s) (queue s).
Definition set_cnt (s : ks) (m c : Z) : ks := KS (realprio s) (prio s) (mtxlist s) (wtmtxp s) (owner s) (<[m := c]> (cnt s)) (queue s).
Definition set_queue (s : ks) (m : Z) (q : list Z) : ks := KS (realprio s) (prio s) (mtxlist s) (wtmtxp s) (owner s) (cnt s) (<[m := q]> (queue s)).

(** Behind the threads of the same or a higher priority. *)
Fixpoint ch_sch_prio_insert (p : Z -> Z) (q : list Z) (t : Z) : list Z :=
  match q with
  | [] => [t]
  | x :: r => if p t <=? p x then x :: ch_sch_prio_insert p r t else t :: x :: r
  end.

Definition ch_queue_remove (q : list Z) (t : Z) : list Z := filter (fun x => x <> t) q.

Definition chMtxObjectInit (s : ks) (m : Z) : ks := set_cnt (set_owner (set_queue s m []) m None) m 0.

(** The loop of the inheritance protocol, from the thread [tp] on, with the priority [p] of the
    thread that asks for the mutex. *)
Fixpoint boost (fuel : nat) (s : ks) (tp p : Z) : option ks :=
  match fuel with
  | O => None
  | S fuel =>
      if prio s tp <? p then
        let s := set_prio s tp p in
        match wtmtxp s tp with
        | Some m =>
            let s := set_queue s m (ch_sch_prio_insert (prio s) (ch_queue_remove (queue s m) tp) tp) in
            o ← owner s m; boost fuel s o p
        | None => Some s
        end
      else Some s
  end.

(** A free mutex is taken. *)
Definition take_mutex (s : ks) (t m : Z) : ks :=
  set_mtxlist (set_owner (set_cnt s m (cnt s m + 1)) m (Some t)) t (m :: mtxlist s t).

(** The thread sleeps: the call goes on, with [lock_resume], when it has been given the mutex. *)
Definition chMtxLockS (fuel : nat) (s : ks) (currtp m : Z) : option ks :=
  match owner s m with
  | Some o =>
      if cnt s m <? 1 then None
      else if o =? currtp then Some (set_cnt s m (cnt s m + 1))
      else
        s ← boost fuel s o (prio s currtp);
        let s := set_queue s m (ch_sch_prio_insert (prio s) (queue s m) currtp) in
        Some (set_wait s currtp (Some m))
  | None => if cnt s m =? 0 then Some (take_mutex s currtp m) else None
  end.

(** The end of the call after the sleep: its three assertions. *)
Definition lock_resume (s : ks) (currtp m : Z) : bool :=
  bool_decide (owner s m = Some currtp) && bool_decide (head (mtxlist s currtp) = Some m) && (cnt s m =? 1).

Definition chMtxTryLockS (s : ks) (currtp m : Z) : option (ks * bool) :=
  match owner s m with
  | Some o =>
      if cnt s m <? 1 then None
      else if o =? currtp then Some (set_cnt s m (cnt s m + 1), true)
      else Some (s, false)
  | None => if cnt s m =? 0 then Some (take_mutex s currtp m, true) else None
  end.

(** The optimal priority of a thread with the base priority [p] and these mutexes. *)
Fixpoint newprio (s : ks) (p : Z) (lmp : list Z) : Z :=
  match lmp with
  | [] => p
  | m :: lmp =>
      newprio s (match queue s m with x :: _ => if p <? prio s x then prio s x else p | [] => p end) lmp
  end.

(** The mutex goes to the first of its queue [tp :: q]. *)
Definition hand_over (s : ks) (m tp : Z) (q : list Z) : ks :=
  let s := set_cnt s m 1 in
  let s := set_queue s m q in
  let s := set_owner s m (Some tp) in
  let s := set_mtxlist s tp (m :: mtxlist s tp) in
  set_wait s tp None.

Definition chMtxUnlock (s : ks) (currtp m : Z) : option ks :=
  match mtxlist s currtp with
  | [] => None
  | top :: rest =>
      if negb (bool_decide (owner s top = Some currtp)) || (cnt s m <? 1) then None
      else
        let c := cnt s m - 1 in
        let s := set_cnt s m c in
        if c =? 0 then
          if negb (top =? m) then None
          else
            let s := set_mtxlist s currtp rest in
            match queue s m with
            | tp :: q =>
                let s := set_prio s currtp (newprio s (realprio s currtp) rest) in
                Some (hand_over s m tp q)
            | [] => Some (set_owner s m None)
            end
        else Some s
  end.

(** The loop over the owned mutexes. *)
Fixpoint unlock_all (s : ks) (currtp : Z) (l : list Z) : ks :=
  match l with
  | [] => s
  | m :: l =>
      let s := set_mtxlist s currtp l in
      let s := match queue s m with
               | tp :: q => hand_over s m tp q
               | [] => set_owner (set_cnt s m 0) m None
               end in
      unlock_all s currtp l
  end.

Definition chMtxUnlockAllS (s : ks) (currtp : Z) : ks :=
  match mtxlist s currtp with
  | [] => s
  | l => let s := unlock_all s currtp l in set_prio s currtp (realprio s currtp)
  end.

(** ** Ordered queues *)

Definition sorted (p : Z -> Z) (q : list Z) : Prop := StronglySorted (fun x y => p y <= p x) q.

Lemma prio_insert_perm p q t : ch_sch_prio_insert p q t ≡ₚ t :: q.
Proof. induction q as [|x q IH]; cbn; [done|]. destruct (_ <=? _); [|done]. rewrite IH. constructor. Qed.

Lemma prio_insert_sorted p q t : sorted p q -> sorted p (ch_sch_prio_insert p q t).
Proof.
  induction q as [|x q IH]; cbn; [repeat constructor|]. intros Hs. apply StronglySorted_inv in Hs as [Hs Hx].
  destruct (Z.leb_spec (p t) (p x)) as [Hle|Hlt].
  - constructor; [by apply IH|]. rewrite prio_insert_perm. by constructor.
  - constructor; [by constructor|]. constructor; [lia|]. eapply Forall_impl; [done|]. cbn. intros; lia.
Qed.

Lemma sorted_ext p p' q : (forall x, x ∈ q -> p' x = p x) -> sorted p q -> sorted p' q.
Proof.
  induction q as [|x q IH]; intros E Hs; [constructor|]. apply StronglySorted_inv in Hs as [Hs Hx]. constructor.
  - apply IH; [|done]. intros y Hy. apply E. by right.
  - apply Forall_forall. intros y Hy. rewrite !E by (by left || by right). by eapply Forall_forall in Hx.
Qed.

Lemma sorted_remove p q t : sorted p q -> sorted p (ch_queue_remove q t).
Proof.
  induction q as [|x q IH]; intros Hs; [constructor|]. apply StronglySorted_inv in Hs as [Hs Hx].
  unfold ch_queue_remove. cbn. destruct (decide (x <> t)); [|by apply IH]. constructor; [by apply IH|].
  apply Forall_forall. intros y Hy. apply list_elem_of_filter in Hy as [_ Hy]. by eapply Forall_forall in Hx.
Qed.

Lemma remove_absent q t : t ∉ q -> ch_queue_remove q t = q.
Proof.
  unfold ch_queue_remove. induction q as [|x q IH]; intros Ht; [done|]. apply not_elem_of_cons in Ht as [Hx Ht].
  rewrite filter_cons_True by done. by rewrite IH.
Qed.

Lemma remove_perm q t : NoDup q -> t ∈ q -> t :: ch_queue_remove q t ≡ₚ q.
Proof.
  induction q as [|x q IH]; intros Hn Ht; [by apply elem_of_nil in Ht|]. apply NoDup_cons in Hn as [Hx Hn].
  destruct (decide (x = t)) as [->|Hne].
  - unfold ch_queue_remove. rewrite filter_cons_False by naive_solver. fold (ch_queue_remove q t). by rewrite (remove_absent q t Hx).
  - apply elem_of_cons in Ht as [->|Ht]; [done|]. unfold ch_queue_remove. rewrite filter_cons_True by done.
    rewrite Permutation_swap. constructor. by apply IH.
Qed.

(** ** The invariant *)

(** Owners, waiters, queues and counters agree. *)
Record shape (ts : list Z) (s : ks) : Prop := {
  i_list : forall t m, m ∈ mtxlist s t <-> owner s m = Some t;
  i_nodup : forall t, NoDup (mtxlist s t);
  i_free : forall m, owner s m = None -> cnt s m = 0 /\ queue s m = [];
  i_owned : forall m t, owner s m = Some t -> 1 <= cnt s m /\ t ∈ ts;
  i_wait : forall t m, t ∈ queue s m <-> wtmtxp s t = Some m;
  i_waiter : forall t m, wtmtxp s t = Some m -> t ∈ ts;
  i_qnodup : forall m, NoDup (queue s m);
  i_sorted : forall m, sorted (prio s) (queue s m) }.

(** Thread [x] waits for a mutex of [t]. *)
Definition waits_for (s : ks) (x t : Z) : Prop := exists m, owner s m = Some t /\ x ∈ queue s m.

(** The priority of a thread is the highest of its own and those of the threads that wait for it. *)
Definition inherits (s : ks) (t : Z) : Prop :=
  realprio s t <= prio s t /\ (forall x, waits_for s x t -> prio s x <= prio s t) /\
  (prio s t = realprio s t \/ exists x, waits_for s x t /\ prio s x = prio s t).

(** The same threads and mutexes, with other priorities and other orders of the queues. *)
Record reordered (s s' : ks) : Prop := {
  r_real : realprio s' = realprio s;
  r_list : mtxlist s' = mtxlist s;
  r_wait : wtmtxp s' = wtmtxp s;
  r_owner : owner s' = owner s;
  r_cnt : cnt s' = cnt s;
  r_queue : forall m, queue s' m ≡ₚ queue s m }.

Lemma reordered_trans s1 s2 s3 : reordered s1 s2 -> reordered s2 s3 -> reordered s1 s3.
Proof. intros [] []. constructor; try congruence. intros m. etrans; [apply r_queue1|apply r_queue0]. Qed.

Lemma reordered_waits s s' x t : reordered s s' -> waits_for s' x t <-> waits_for s x t.
Proof.
  intros []. unfold waits_for. rewrite r_owner0. split; intros (m & Ho & Hx); exists m; (split; [done|]); [by rewrite <- r_queue0|by rewrite r_queue0].
Qed.

Lemma reordered_shape ts s s' : reordered s s' -> (forall m, sorted (prio s') (queue s' m)) -> shape ts s -> shape ts s'.
Proof.
  intros [] Hs []. constructor; rewrite ?r_list0, ?r_owner0, ?r_cnt0, ?r_wait0; try done.
  - intros m Hm. destruct (i_free0 m Hm) as [? Hq]. split; [done|]. apply Permutation_nil. by rewrite <- Hq, r_queue0.
  - intros t m. rewrite r_queue0. apply i_wait0.
  - intros m. by rewrite r_queue0.
Qed.

(** ** The inheritance loop *)

(** One step of it. *)
Definition raise (s : ks) (tp p : Z) : ks :=
  let s := set_prio s tp p in
  match wtmtxp s tp with
  | Some m => set_queue s m (ch_sch_prio_insert (prio s) (ch_queue_remove (queue s m) tp) tp)
  | None => s
  end.

Lemma raise_prio s tp p t : prio (raise s tp p) t = if decide (t = tp) then p else prio s t.
Proof.
  unfold raise. cbn. assert ((<[tp := p]> (prio s)) t = if decide (t = tp) then p else prio s t) as E.
  { destruct (decide (t = tp)) as [->|]; [apply fn_lookup_insert|by rewrite fn_lookup_insert_ne]. }
  by destruct (wtmtxp s tp).
Qed.

Lemma raise_reordered ts s tp p : shape ts s -> reordered s (raise s tp p).
Proof.
  intros Hs. unfold raise. cbn. destruct (wtmtxp s tp) as [m|] eqn:E; [|by constructor]. constructor; cbn; try done. intros m'.
  destruct (decide (m = m')) as [<-|]; [|by rewrite fn_lookup_insert_ne]. rewrite fn_lookup_insert, prio_insert_perm.
  apply remove_perm; [apply (i_qnodup _ _ Hs)|by apply (i_wait _ _ Hs)].
Qed.

Lemma raise_shape ts s tp p : shape ts s -> shape ts (raise s tp p).
Proof.
  intros Hs. apply (reordered_shape ts s); [by eapply raise_reordered| |done]. intros m.
  assert (forall m', wtmtxp s tp <> Some m' -> sorted (<[tp := p]> (prio s)) (queue s m')) as Ho.
  { intros m' Hm'. apply (sorted_ext (prio s)); [|apply (i_sorted _ _ Hs)]. intros x Hx. apply fn_lookup_insert_ne.
    intros <-. by apply (i_wait _ _ Hs) in Hx. }
  unfold raise. cbn. destruct (wtmtxp s tp) as [m'|] eqn:E; [|by apply Ho]. cbn.
  destruct (decide (m' = m)) as [<-|Hne]; [|rewrite fn_lookup_insert_ne by done; apply Ho; congruence].
  rewrite fn_lookup_insert. apply prio_insert_sorted. apply (sorted_ext (prio s)).
  - intros x Hx. unfold ch_queue_remove in Hx. apply list_elem_of_filter in Hx as [Hx _]. by apply fn_lookup_insert_ne.
  - apply sorted_remove, (i_sorted _ _ Hs).
Qed.

(** A priority that comes from a waiting thread, from the thread that asks for [m0] with the priority
    [p], or is the thread's own. *)
Definition attained (s : ks) (m0 p t : Z) : Prop :=
  prio s t = realprio s t \/ (owner s m0 = Some t /\ prio s t = p) \/ exists x, waits_for s x t /\ prio s x = prio s t.

(** What holds when the loop arrives at [tp]: only its priority may be too low. *)
Record boosting (ts : list Z) (m0 p tp : Z) (s : ks) : Prop := {
  b_shape : shape ts s;
  b_tp : tp ∈ ts;
  b_real : forall t, realprio s t <= prio s t;
  b_bound : forall t x, waits_for s x t -> prio s x <= prio s t \/ (t = tp /\ prio s x <= p);
  b_attained : forall t, t <> tp \/ p <= prio s tp -> attained s m0 p t;
  b_cause : owner s m0 = Some tp \/ exists x, waits_for s x tp /\ prio s x = p }.

(** What holds when it is over. *)
Record boosted (ts : list Z) (m0 p tp : Z) (s s' : ks) : Prop := {
  d_same : reordered s s';
  d_shape : shape ts s';
  d_real : forall t, realprio s' t <= prio s' t;
  d_bound : forall t x, waits_for s' x t -> prio s' x <= prio s' t;
  d_attained : forall t, attained s' m0 p t;
  d_prio : forall t, prio s' t = prio s t \/ (prio s t < p /\ prio s' t = p);
  d_tp : p <= prio s' tp }.

Lemma waits_unique ts s x t t' : shape ts s -> waits_for s x t -> waits_for s x t' -> t = t'.
Proof.
  intros Hs (m & Ho & Hx) (m' & Ho' & Hx'). apply (i_wait _ _ Hs) in Hx, Hx'. congruence.
Qed.

(** The step at [tp], and the thread [o] that [tp] waits for, if any. *)
Lemma raise_step ts m0 p tp s : boosting ts m0 p tp s -> prio s tp < p ->
  let s1 := raise s tp p in
  (forall t, realprio s1 t <= prio s1 t) /\
  (forall t x, waits_for s1 x t -> prio s1 x <= prio s1 t \/ (waits_for s tp t /\ prio s1 x <= p)) /\
  (forall t, ~ waits_for s tp t \/ p <= prio s1 t -> attained s1 m0 p t) /\
  (forall t, waits_for s tp t -> waits_for s1 tp t /\ prio s1 tp = p).
Proof.
  intros [Hs Htp Hr Hb Ha Hc] Hlt s1. pose proof (raise_reordered ts s tp p Hs) as Hre. fold s1 in Hre.
  assert (forall t, prio s1 t = if decide (t = tp) then p else prio s t) as Hp by (intros t; apply raise_prio).
  assert (forall x t, waits_for s1 x t <-> waits_for s x t) as Hw by (intros x t; by apply reordered_waits).
  split_and!.
  - intros t. rewrite (r_real _ _ Hre), Hp. case_decide as E; [subst t; specialize (Hr tp); lia|apply Hr].
  - intros t x Hx. rewrite Hw in Hx. rewrite !Hp. case_decide as Ex; [subst x; by case_decide; [left|right]|].
    destruct (Hb t x Hx) as [Hle|[-> Hle]]; case_decide; subst; auto; [left; lia|done].
  - intros t Ht. unfold attained. rewrite (r_real _ _ Hre), (r_owner _ _ Hre).
    destruct (decide (t = tp)) as [->|Hne].
    + rewrite Hp, decide_True by done. destruct Hc as [Hc|(x & Hx & Ex)]; [by right; left|]. right. right. exists x.
      rewrite Hw, Hp. split; [done|]. by rewrite decide_False by (intros ->; lia).
    + rewrite (Hp t), decide_False by done. destruct (Ha t (or_introl Hne)) as [E|[E|(x & Hx & Ex)]]; [by left|by right; left|].
      right. right. exists x. rewrite Hw. split; [done|]. rewrite Hp. case_decide as E; [|done]. subst x. exfalso.
      destruct Ht as [Ht|Ht]; [done|]. rewrite Hp, decide_False in Ht by done. lia.
  - intros t Ht. rewrite Hw, Hp, decide_True by done. done.
Qed.

Definition lower (ts : list Z) (s : ks) (p : Z) : nat := length (filter (fun t => prio s t < p) ts).

Lemma raise_lower ts s tp p : tp ∈ ts -> prio s tp < p -> (lower ts (raise s tp p) p < lower ts s p)%nat.
Proof.
  intros Ht Hlt. assert (forall l, (lower l (raise s tp p) p <= lower l s p)%nat) as Hle.
  { unfold lower. induction l as [|x l IH]; [done|]. rewrite !filter_cons, raise_prio. repeat case_decide; cbn; lia. }
  apply list_elem_of_split in Ht as (l1 & l2 & ->). pose proof (Hle l1) as H1. pose proof (Hle l2) as H2. unfold lower in *. rewrite !filter_app, !length_app, !filter_cons, raise_prio.
  rewrite (decide_True (P := tp = tp)) by done. rewrite decide_False, decide_True by lia. cbn. lia.
Qed.

Lemma boost_spec ts m0 p fuel : forall s tp, boosting ts m0 p tp s -> (lower ts s p < fuel)%nat ->
  exists s', boost fuel s tp p = Some s' /\ boosted ts m0 p tp s s'.
Proof.
  induction fuel as [|fuel IH]; intros s tp Hb Hf; [lia|]. cbn [boost].
  destruct (Z.ltb_spec (prio s tp) p) as [Hlt|Hge].
  - pose proof (b_shape _ _ _ _ _ Hb) as Hs. pose proof (raise_shape ts s tp p Hs) as Hs1. pose proof (raise_reordered ts s tp p Hs) as Hre.
    destruct (raise_step _ _ _ _ _ Hb Hlt) as (Hr1 & Hb1 & Ha1 & Hc1).
    assert (forall t, prio (raise s tp p) t = prio s t \/ (prio s t < p /\ prio (raise s tp p) t = p)) as Hpr.
    { intros t. rewrite raise_prio. case_decide; [subst; auto|auto]. }
    assert (prio (raise s tp p) tp = p) as Htp by (rewrite raise_prio; by rewrite decide_True).
    assert (set_prio s tp p = raise s tp p \/ wtmtxp s tp <> None) as Hn by (unfold raise; cbn; destruct (wtmtxp s tp); auto).
    cbn [wtmtxp set_prio]. destruct (wtmtxp s tp) as [m|] eqn:Ew.
    + assert (tp ∈ queue s m) as Hq by by apply (i_wait _ _ Hs).
      destruct (owner s m) as [o|] eqn:Eo; [|apply (i_free _ _ Hs) in Eo as [_ Eq]; rewrite Eq in Hq; by apply elem_of_nil in Hq].
      cbn [owner set_queue set_prio]. rewrite Eo. cbn [mbind option_bind].
      assert (set_queue (set_prio s tp p) m (ch_sch_prio_insert (prio (set_prio s tp p)) (ch_queue_remove (queue (set_prio s tp p) m) tp) tp) = raise s tp p) as -> by (unfold raise; cbn; by rewrite Ew).
      assert (waits_for s tp o) as Hwo by by exists m.
      destruct (IH (raise s tp p) o) as (s' & E & [D1 D2 D3 D4 D5 D6 D7]).
      * constructor; try done.
        -- by eapply (i_owned _ _ Hs).
        -- intros t x Hx. destruct (Hb1 t x Hx) as [|[Ht ?]]; [by left|]. right. split; [|done]. exact (waits_unique ts s tp t o Hs Ht Hwo).
        -- intros t [Ht|Ht]; apply Ha1; [left; intros Hw; apply Ht; exact (waits_unique ts s tp t o Hs Hw Hwo)|].
           destruct (decide (t = o)) as [->|]; [by right|left; intros Hw; by pose proof (waits_unique ts s tp t o Hs Hw Hwo)].
        -- right. exists tp. by apply Hc1.
      * pose proof (raise_lower ts s tp p (b_tp _ _ _ _ _ Hb) Hlt). lia.
      * exists s'. split; [done|]. constructor; try done; [by eapply reordered_trans| |].
        -- intros t. destruct (D6 t) as [->|[? ->]]; [apply Hpr|]. right. split; [|done]. destruct (Hpr t); lia.
        -- destruct (D6 tp); lia.
    + destruct Hn as [->|]; [|done]. exists (raise s tp p). split; [done|].
      assert (forall t, ~ waits_for s tp t) as Hno by (intros t (m & _ & Hx); apply (i_wait _ _ Hs) in Hx; congruence).
      constructor; try done; [|intros; apply Ha1; auto|lia]. intros t x Hx. destruct (Hb1 t x Hx) as [|[Ht _]]; [done|]. by apply Hno in Ht.
  - exists s. split; [done|]. destruct Hb as [Hs Htp Hr Hb Ha Hc]. constructor; try done; try lia; auto.
    + intros t x Hx. destruct (Hb t x Hx) as [|[-> ?]]; lia.
Qed.

(** ** The operations keep the invariant *)

Record mtx_inv (ts : list Z) (s : ks) : Prop := { v_shape : shape ts s; v_inherits : forall t, inherits s t }.

Lemma not_queued ts s t m : shape ts s -> wtmtxp s t = None -> t ∉ queue s m.
Proof. intros Hs Hw Hx. apply (i_wait _ _ Hs) in Hx. congruence. Qed.

Lemma no_waiter ts s x t m : shape ts s -> queue s m = [] -> waits_for s x t -> exists m', m' <> m /\ owner s m' = Some t /\ x ∈ queue s m'.
Proof. intros Hs Hq (m' & Ho & Hx). exists m'. split; [|done]. intros ->. rewrite Hq in Hx. by apply elem_of_nil in Hx. Qed.

(** Changing the counter of an owned mutex. *)
Lemma count_inv ts s m t c : mtx_inv ts s -> owner s m = Some t -> 1 <= c -> mtx_inv ts (set_cnt s m c).
Proof.
  intros [[] Hi] Ho Hc. split; [|done]. constructor; cbn; try done.
  - intros m' Hm. rewrite fn_lookup_insert_ne by congruence. auto.
  - intros m' t' Hm. split; [|by eapply i_owned0]. destruct (decide (m = m')) as [<-|]; [by rewrite fn_lookup_insert|].
    rewrite fn_lookup_insert_ne by done. by eapply i_owned0.
Qed.

Lemma mtx_take_inv ts s t m : mtx_inv ts s -> t ∈ ts -> owner s m = None -> mtx_inv ts (take_mutex s t m).
Proof.
  intros [Hs Hi] Ht Hm. destruct (i_free _ _ Hs m Hm) as [Hc Hq].
  assert (forall x u, waits_for (take_mutex s t m) x u <-> waits_for s x u) as Hw.
  { intros x u. split; intros (m' & Ho & Hx); exists m'; cbn in *; (split; [|done]);
      (destruct (decide (m = m')) as [<-|]; [exfalso; rewrite Hq in Hx; by apply elem_of_nil in Hx|]); by rewrite fn_lookup_insert_ne in * by done. }
  split.
  - destruct Hs. constructor; cbn; try done.
    + intros u m'. destruct (decide (t = u)) as [<-|Htu], (decide (m = m')) as [<-|Hmm];
        rewrite ?fn_lookup_insert, ?fn_lookup_insert_ne by done; rewrite ?elem_of_cons, ?i_list0; naive_solver.
    + intros u. destruct (decide (t = u)) as [<-|]; [|by rewrite fn_lookup_insert_ne]. rewrite fn_lookup_insert.
      constructor; [|done]. rewrite i_list0. congruence.
    + intros m'. destruct (decide (m = m')) as [<-|]; [by rewrite fn_lookup_insert|]. rewrite !fn_lookup_insert_ne by done. auto.
    + intros m' u. destruct (decide (m = m')) as [<-|]; [rewrite !fn_lookup_insert; intros [= <-]; split; [lia|done]|]. rewrite !fn_lookup_insert_ne by done. apply i_owned0.
  - intros u. destruct (Hi u) as (H1 & H2 & H3). split; [done|]. split; [intros x Hx; apply H2; by apply Hw|].
    destruct H3 as [|(x & Hx & E)]; [by left|right]. exists x. by rewrite Hw.
Qed.

(** After the inheritance loop the thread goes to sleep on the mutex of [o]. *)
Lemma sleep_inv ts s s' t m o : boosted ts m (prio s t) o s s' -> t ∈ ts -> wtmtxp s t = None -> owner s m = Some o -> t <> o ->
  mtx_inv ts (set_wait (set_queue s' m (ch_sch_prio_insert (prio s') (queue s' m) t)) t (Some m)).
Proof.
  intros [D1 D2 D3 D4 D5 D6 D7] Ht Hw Eo Hne.
  assert (wtmtxp s' t = None) as Hw' by (by rewrite (r_wait _ _ D1)).
  assert (owner s' m = Some o) as Eo' by (by rewrite (r_owner _ _ D1)).
  assert (prio s' t = prio s t) as Hpt by (destruct (D6 t); lia).
  set (s2 := set_wait _ _ _).
  assert (forall m', queue s2 m' ≡ₚ if decide (m' = m) then t :: queue s' m else queue s' m') as Hq.
  { intros m'. cbn. case_decide as E; [subst; rewrite fn_lookup_insert; apply prio_insert_perm|by rewrite fn_lookup_insert_ne]. }
  assert (forall x u, waits_for s2 x u <-> waits_for s' x u \/ (x = t /\ u = o)) as Hwf.
  { intros x u. split.
    - intros (m' & Ho & Hx). change (owner s' m' = Some u) in Ho. rewrite Hq in Hx. case_decide; [|by left; exists m'].
      subst m'. apply elem_of_cons in Hx as [->|Hx]; [right; split; [done|congruence]|left; by exists m].
    - intros [(m' & Ho & Hx)|[-> ->]]; [exists m'|exists m]; (split; [done|]); rewrite Hq; case_decide; subst; try done; [by right|by left]. }
  split.
  - constructor; try apply D2.
    + intros m' Hm. destruct (i_free _ _ D2 m' Hm) as [? Hq']. split; [done|]. apply Permutation_nil. symmetry. rewrite <- Hq', Hq.
      case_decide; [|done]. subst. change (owner s' m = None) in Hm. congruence.
    + intros u m'. rewrite Hq. cbn. destruct (decide (t = u)) as [<-|Hu].
      * rewrite fn_lookup_insert. case_decide as E; [subst; split; [done|by left]|]. split; [|congruence]. intros Hx. by apply (not_queued _ _ _ _ D2 Hw') in Hx.
      * rewrite fn_lookup_insert_ne by done. case_decide; [subst; rewrite elem_of_cons; rewrite (i_wait _ _ D2); naive_solver|apply (i_wait _ _ D2)].
    + intros u m'. cbn. destruct (decide (t = u)) as [<-|]; [done|]. rewrite fn_lookup_insert_ne by done. apply (i_waiter _ _ D2).
    + intros m'. rewrite Hq. case_decide; [|apply (i_qnodup _ _ D2)]. constructor; [by eapply not_queued|apply (i_qnodup _ _ D2)].
    + intros m'. cbn. destruct (decide (m = m')) as [<-|]; [rewrite fn_lookup_insert; apply prio_insert_sorted|rewrite fn_lookup_insert_ne by done]; apply (i_sorted _ _ D2).
  - intros u. split; [apply D3|]. change (prio s2) with (prio s'). change (realprio s2) with (realprio s'). split.
    + intros x Hx. apply Hwf in Hx as [Hx|[-> ->]]; [by apply D4|lia].
    + destruct (D5 u) as [|[[Hou Hpu]|(x & Hx & E)]]; [by left| |].
      * right. exists t. rewrite Hwf. split; [right; split; [done|congruence]|lia].
      * right. exists x. rewrite Hwf. auto.
Qed.

Lemma lock_inv ts s t m fuel : mtx_inv ts s -> t ∈ ts -> wtmtxp s t = None -> (length ts < fuel)%nat ->
  exists s', chMtxLockS fuel s t m = Some s' /\ mtx_inv ts s' /\ realprio s' = realprio s.
Proof.
  intros Hv Ht Hw Hf. pose proof Hv as [Hs Hi]. unfold chMtxLockS. destruct (owner s m) as [o|] eqn:Eo.
  - destruct (i_owned _ _ Hs m o Eo) as [Hc Hots]. rewrite (proj2 (Z.ltb_ge _ _)) by lia.
    destruct (Z.eqb_spec o t) as [->|Hne]; [eexists; split; [done|]; split; [by eapply count_inv; [|done|lia]|done]|].
    destruct (boost_spec ts m (prio s t) fuel s o) as (s' & -> & Hb).
    { constructor; try done; [apply Hi|intros u x Hx; left; by apply Hi| |by left].
      intros u _. destruct (Hi u) as (_ & _ & [|]); [by left|by right; right]. }
    { unfold lower. pose proof (length_filter (fun u => prio s u < prio s t) ts). lia. }
    cbn [mbind option_bind]. eexists. split; [done|]. split; [by eapply sleep_inv|by destruct Hb as [[] ? ? ? ? ? ?]].
  - destruct (i_free _ _ Hs m Eo) as [-> _]. eexists. split; [done|]. split; [by apply mtx_take_inv|done].
Qed.

(** A mutex changes hands: field by field. *)
Record gave (s s' : ks) (t m : Z) (rest : list Z) (x : Z) (q : list Z) (np : Z) : Prop := {
  g_real : forall u, realprio s' u = realprio s u;
  g_prio : forall u, prio s' u = if decide (u = t) then np else prio s u;
  g_list : forall u, mtxlist s' u = if decide (u = x) then m :: mtxlist s x else if decide (u = t) then rest else mtxlist s u;
  g_wait : forall u, wtmtxp s' u = if decide (u = x) then None else wtmtxp s u;
  g_owner : forall m', owner s' m' = if decide (m' = m) then Some x else owner s m';
  g_cnt : forall m', cnt s' m' = if decide (m' = m) then 1 else cnt s m';
  g_queue : forall m', queue s' m' = if decide (m' = m) then q else queue s m' }.

Ltac fields := repeat case_decide; subst; repeat (rewrite fn_lookup_insert || rewrite fn_lookup_insert_ne by congruence); try done.

Section Release.
Context (ts : list Z) (s s' : ks) (t m : Z) (rest : list Z).
Context (Hs : shape ts s) (Hw : wtmtxp s t = None) (Hl : mtxlist s t = m :: rest).

Lemma top_owned : owner s m = Some t.
Proof. apply (i_list _ _ Hs). rewrite Hl. by left. Qed.

Lemma rest_other m' : m' ∈ rest <-> owner s m' = Some t /\ m' <> m.
Proof.
  rewrite <- (i_list _ _ Hs), Hl, elem_of_cons. pose proof (i_nodup _ _ Hs t) as Hn. rewrite Hl in Hn. apply NoDup_cons in Hn as [Hn _]. naive_solver.
Qed.

Lemma gave_shape x q np : queue s m = x :: q -> gave s s' t m rest x q np -> shape ts s'.
Proof.
  intros Hq []. assert (wtmtxp s x = Some m) as Hx by (apply (i_wait _ _ Hs); rewrite Hq; by left).
  assert (x <> t) as Hxt by congruence. pose proof top_owned as Ho. pose proof rest_other as Hro.
  pose proof (i_qnodup _ _ Hs m) as Hnd. rewrite Hq in Hnd. apply NoDup_cons in Hnd as [Hxq Hnd].
  constructor.
  - intros u m'. rewrite g_list0, g_owner0. pose proof (i_list _ _ Hs u m'). repeat case_decide; subst; rewrite ?elem_of_cons, ?Hro, ?(i_list _ _ Hs); naive_solver.
  - intros u. rewrite g_list0. pose proof (i_nodup _ _ Hs u) as Hn. repeat case_decide; subst; [|rewrite Hl in Hn; by apply NoDup_cons in Hn as [_ Hn]|done].
    constructor; [|done]. rewrite (i_list _ _ Hs). congruence.
  - intros m'. rewrite g_owner0, g_cnt0, g_queue0. case_decide; [done|apply (i_free _ _ Hs)].
  - intros m' u. rewrite g_owner0, g_cnt0. case_decide; [intros [= <-]; split; [lia|by eapply (i_waiter _ _ Hs)]|apply (i_owned _ _ Hs)].
  - intros u m'. rewrite g_queue0, g_wait0. pose proof (i_wait _ _ Hs u m') as Hu. repeat case_decide; subst; try done.
    + rewrite Hq, elem_of_cons in Hu. naive_solver.
    + rewrite Hu. naive_solver.
  - intros u m'. rewrite g_wait0. case_decide; [done|apply (i_waiter _ _ Hs)].
  - intros m'. rewrite g_queue0. case_decide; [done|apply (i_qnodup _ _ Hs)].
  - intros m'. apply (sorted_ext (prio s)).
    + intros y Hy. rewrite g_prio0. case_decide; [|done]. subst y. exfalso. rewrite g_queue0 in Hy. case_decide; [subst|by apply (not_queued _ _ _ _ Hs Hw) in Hy].
      apply (not_queued ts s t m Hs Hw). rewrite Hq. by right.
    + rewrite g_queue0. pose proof (i_sorted _ _ Hs m') as Hso. case_decide; [|done]. subst. rewrite Hq in Hso. by apply StronglySorted_inv in Hso as [Hso _].
Qed.

Lemma gave_waits x q np y u : queue s m = x :: q -> gave s s' t m rest x q np ->
  waits_for s' y u <-> (u = x /\ y ∈ q) \/ (exists m', m' <> m /\ owner s m' = Some u /\ y ∈ queue s m').
Proof.
  intros Hq []. split.
  - intros (m' & Ho & Hy). rewrite g_owner0 in Ho. rewrite g_queue0 in Hy. case_decide; [left; split; [congruence|done]|right; by exists m'].
  - intros [[-> Hy]|(m' & Hne & Ho & Hy)]; [exists m|exists m']; rewrite g_owner0, g_queue0; [by rewrite !decide_True|by rewrite !decide_False].
Qed.

(** Everyone but the thread that gives the mutex away still inherits. *)
Lemma gave_inherits x q np u : queue s m = x :: q -> gave s s' t m rest x q np -> u <> t -> inherits s u -> inherits s' u.
Proof.
  intros Hq Hg Hut (H1 & H2 & H3). pose proof (gave_waits x q np) as Hwf. assert (wtmtxp s x = Some m) as Hx by (apply (i_wait _ _ Hs); rewrite Hq; by left).
  assert (forall y m', y ∈ queue s m' -> prio s' y = prio s y) as Hp.
  { intros y m' Hy. rewrite (g_prio _ _ _ _ _ _ _ _ Hg). case_decide; [subst; by apply (not_queued _ _ _ _ Hs Hw) in Hy|done]. }
  assert (prio s' u = prio s u) as Hpu by (rewrite (g_prio _ _ _ _ _ _ _ _ Hg); by rewrite decide_False).
  unfold inherits. rewrite (g_real _ _ _ _ _ _ _ _ Hg), Hpu. split; [done|]. split.
  - intros y Hy. apply (Hwf y u Hq Hg) in Hy as [[-> Hy]|(m' & Hne & Ho & Hy)].
    + rewrite (Hp y m) by (rewrite Hq; by right). pose proof (i_sorted _ _ Hs m) as Hso. rewrite Hq in Hso. apply StronglySorted_inv in Hso as [_ Hso].
      by eapply Forall_forall in Hso.
    + rewrite (Hp y m' Hy). apply H2. by exists m'.
  - destruct H3 as [|(y & (m' & Ho & Hy) & E)]; [by left|right]. exists y. rewrite (Hp y m' Hy). split; [|done].
    apply (Hwf y u Hq Hg). right. exists m'. split; [|done]. intros ->. pose proof top_owned. congruence.
Qed.
End Release.

(** A mutex nobody waits for becomes free. *)
Record freed (s s' : ks) (t m : Z) (rest : list Z) : Prop := {
  f_real : forall u, realprio s' u = realprio s u;
  f_prio : prio s' = prio s;
  f_list : forall u, mtxlist s' u = if decide (u = t) then rest else mtxlist s u;
  f_wait : forall u, wtmtxp s' u = wtmtxp s u;
  f_owner : forall m', owner s' m' = if decide (m' = m) then None else owner s m';
  f_cnt : forall m', cnt s' m' = if decide (m' = m) then 0 else cnt s m';
  f_queue : forall m', queue s' m' = queue s m' }.

Lemma freed_inv ts s s' t m rest : shape ts s -> mtxlist s t = m :: rest -> queue s m = [] -> freed s s' t m rest ->
  shape ts s' /\ forall u, inherits s u -> inherits s' u.
Proof.
  intros Hs Hl Hq []. pose proof (top_owned ts s t m rest Hs Hl) as Ho. pose proof (rest_other ts s t m rest Hs Hl) as Hro. split.
  - constructor; try (intros; rewrite ?f_queue0, ?f_wait0; apply Hs).
    + intros u m'. rewrite f_list0, f_owner0. repeat case_decide; subst; rewrite ?Hro, ?(i_list _ _ Hs); naive_solver.
    + intros u. rewrite f_list0. pose proof (i_nodup _ _ Hs u) as Hn. case_decide; [|done]. subst. rewrite Hl in Hn. by apply NoDup_cons in Hn as [_ Hn].
    + intros m'. rewrite f_owner0, f_cnt0, f_queue0. case_decide; [by subst|apply (i_free _ _ Hs)].
    + intros m' u. rewrite f_owner0, f_cnt0. case_decide; [done|apply (i_owned _ _ Hs)].
    + intros u m' Hu. rewrite f_wait0 in Hu. by eapply (i_waiter _ _ Hs).
    + intros m'. rewrite f_queue0, f_prio0. apply (i_sorted _ _ Hs).
  - intros u (H1 & H2 & H3).
    assert (forall y, waits_for s' y u <-> waits_for s y u) as Hwf.
    { intros y. split; intros (m' & Hm & Hy).
      - rewrite f_owner0 in Hm. rewrite f_queue0 in Hy. case_decide; [done|]. by exists m'.
      - exists m'. rewrite f_owner0, f_queue0. rewrite decide_False; [done|]. intros ->. rewrite Hq in Hy. by apply elem_of_nil in Hy. }
    unfold inherits. rewrite f_real0, f_prio0. split; [done|]. split; [intros y Hy; apply H2; by apply Hwf|].
    destruct H3 as [|(y & Hy & E)]; [by left|right]. exists y. by rewrite Hwf.
Qed.

(** The recalculated priority is the highest of the base priority and all waiting threads. *)
Lemma newprio_spec s l : (forall m, sorted (prio s) (queue s m)) -> forall p, let np := newprio s p l in
  p <= np /\ (forall m y, m ∈ l -> y ∈ queue s m -> prio s y <= np) /\ (np = p \/ exists m y, m ∈ l /\ y ∈ queue s m /\ prio s y = np).
Proof.
  intros Hs. induction l as [|m l IH]; intros p; cbn; [split; [lia|]; split; [intros ? ? H; by apply elem_of_nil in H|by left]|].
  set (p' := match queue s m with [] => p | x :: _ => if p <? prio s x then prio s x else p end).
  assert (p <= p' /\ (forall y, y ∈ queue s m -> prio s y <= p') /\ (p' = p \/ exists y, y ∈ queue s m /\ prio s y = p')) as (A1 & A2 & A3).
  { unfold p'. pose proof (Hs m) as Hm. destruct (queue s m) as [|x q]; [split; [lia|]; split; [intros ? H; by apply elem_of_nil in H|by left]|].
    apply StronglySorted_inv in Hm as [_ Hm]. rewrite Forall_forall in Hm.
    destruct (Z.ltb_spec p (prio s x)); (split; [lia|]); (split; [intros y [->|Hy]%elem_of_cons; [lia|specialize (Hm y Hy); lia]|]); [|by left].
    right. exists x. split; [by left|done]. }
  destruct (IH p') as (B1 & B2 & B3). split; [lia|]. split.
  - intros m' y [->|Hm']%elem_of_cons Hy; [specialize (A2 y Hy); lia|by eapply B2].
  - destruct B3 as [B3|(m' & y & Hm' & Hy & E)].
    + destruct A3 as [A3|(y & Hy & E)]; [left; congruence|right; exists m, y; split; [by left|split; [done|congruence]]].
    + right. exists m', y. split; [by right|done].
Qed.

(** So the thread that gives a mutex away inherits from those it keeps. *)
Lemma giver_inherits ts s s0 s' t m rest x q : shape ts s -> wtmtxp s t = None -> mtxlist s t = m :: rest -> queue s m = x :: q ->
  prio s0 = prio s -> queue s0 = queue s -> gave s s' t m rest x q (newprio s0 (realprio s t) rest) -> inherits s' t.
Proof.
  intros Hs Hw Hl Hq Ep Eq Hg. destruct (newprio_spec s0 rest) with (p := realprio s t) as (N1 & N2 & N3);
    [rewrite Ep, Eq; apply (i_sorted _ _ Hs)|]. rewrite Ep, Eq in *. set (np := newprio _ _ _) in *.
  assert (x <> t) as Hxt by (intros ->; apply (not_queued ts s t m Hs Hw); rewrite Hq; by left).
  assert (forall y m', y ∈ queue s m' -> prio s' y = prio s y) as Hp.
  { intros y m' Hy. rewrite (g_prio _ _ _ _ _ _ _ _ Hg). case_decide; [subst; by apply (not_queued _ _ _ _ Hs Hw) in Hy|done]. }
  assert (forall y, waits_for s' y t <-> exists m', m' ∈ rest /\ y ∈ queue s m') as Hwf.
  { intros y. rewrite (gave_waits s s' t m rest x q np y t Hq Hg). split.
    - intros [[-> _]|(m' & Hne & Hm & Hy)]; [done|]. exists m'. split; [by apply (rest_other ts s t m rest Hs Hl)|done].
    - intros (m' & Hm & Hy). apply (rest_other ts s t m rest Hs Hl) in Hm as [? ?]. right. by exists m'. }
  unfold inherits. rewrite (g_prio _ _ _ _ _ _ _ _ Hg), (g_real _ _ _ _ _ _ _ _ Hg), decide_True by done. split; [done|]. split.
  - intros y (m' & Hm & Hy)%Hwf. rewrite (Hp y m' Hy). by apply (N2 m').
  - destruct N3 as [|(m' & y & Hm & Hy & Ey)]; [by left|right]. exists y. rewrite (Hp y m' Hy), Hwf. split; [by exists m'|done].
Qed.

Lemma unlock_inv ts s t m : mtx_inv ts s -> wtmtxp s t = None -> head (mtxlist s t) = Some m ->
  exists s', chMtxUnlock s t m = Some s' /\ mtx_inv ts s' /\ realprio s' = realprio s.
Proof.
  intros Hv Hw Hh. pose proof Hv as [Hs Hi]. destruct (mtxlist s t) as [|m' rest] eqn:Hl; [done|]. injection Hh as ->.
  pose proof (top_owned ts s t m rest Hs Hl) as Ho. destruct (i_owned _ _ Hs m t Ho) as [Hc _].
  unfold chMtxUnlock. rewrite Hl, bool_decide_true by done. cbn [negb orb]. rewrite (proj2 (Z.ltb_ge _ _)) by lia.
  destruct (Z.eqb_spec (cnt s m - 1) 0) as [E|E].
  - rewrite Z.eqb_refl. cbn [negb]. change (queue (set_mtxlist _ _ _) m) with (queue s m).
    destruct (queue s m) as [|x q] eqn:Hq; eexists; (split; [done|]); (split; [|done]).
    + set (s' := set_owner _ _ _). assert (freed s s' t m rest) as Hf by (constructor; intros; cbn; fields; lia).
      destruct (freed_inv ts s s' t m rest Hs Hl Hq Hf) as [A B]. split; [done|]. intros u. by apply B.
    + set (np := newprio _ _ _). set (s' := hand_over _ _ _ _).
      assert (x <> t) as Hxt by (intros ->; apply (not_queued ts s t m Hs Hw); rewrite Hq; by left).
      assert (gave s s' t m rest x q np) as Hg by (constructor; intros; cbn; fields).
      split; [by eapply gave_shape|]. intros u. destruct (decide (u = t)) as [->|Hu]; [|by eapply gave_inherits].
      eapply (giver_inherits ts s _ s' t m rest x q Hs Hw Hl Hq); [| |exact Hg]; reflexivity.
  - eexists. split; [done|]. split; [|done]. eapply count_inv; [done|done|lia].
Qed.

Lemma try_inv ts s t m : mtx_inv ts s -> t ∈ ts -> exists s' b, chMtxTryLockS s t m = Some (s', b) /\ mtx_inv ts s' /\ realprio s' = realprio s.
Proof.
  intros Hv Ht. pose proof Hv as [Hs _]. unfold chMtxTryLockS. destruct (owner s m) as [o|] eqn:Eo.
  - destruct (i_owned _ _ Hs m o Eo) as [Hc _]. rewrite (proj2 (Z.ltb_ge _ _)) by lia.
    destruct (o =? t); do 2 eexists; (split; [done|]); (split; [|done]); [by eapply count_inv; [|done|lia]|done].
  - destruct (i_free _ _ Hs m Eo) as [-> _]. do 2 eexists. split; [done|]. split; [by apply mtx_take_inv|done].
Qed.

(** The loop that gives everything away: the thread's own priority is only right at its end. *)
Lemma unlock_all_inv ts t l : forall s, shape ts s -> (forall u, u <> t -> inherits s u) -> wtmtxp s t = None -> mtxlist s t = l ->
  let s' := unlock_all s t l in
  shape ts s' /\ (forall u, u <> t -> inherits s' u) /\ wtmtxp s' t = None /\ mtxlist s' t = [] /\ (forall u, realprio s' u = realprio s u).
Proof.
  induction l as [|m l IH]; intros s Hs Hi Hw Hl; cbn; [done|]. set (s1 := match queue s m with [] => _ | _ => _ end).
  assert (shape ts s1 /\ (forall u, u <> t -> inherits s1 u) /\ wtmtxp s1 t = None /\ mtxlist s1 t = l /\ (forall u, realprio s1 u = realprio s u)) as (A & B & C & D & E).
  { unfold s1. destruct (queue s m) as [|x q] eqn:Hq.
    - set (s' := set_owner _ _ _). assert (freed s s' t m l) as Hf by (constructor; intros; cbn; fields).
      destruct (freed_inv ts s s' t m l Hs Hl Hq Hf) as [A B].
      split; [done|]. split; [intros u Hu; apply B, Hi, Hu|]. split; [done|]. split; [cbn; fields|done].
    - assert (x <> t) as Hxt by (intros ->; apply (not_queued ts s t m Hs Hw); rewrite Hq; by left).
      set (s' := hand_over _ _ _ _). assert (gave s s' t m l x q (prio s t)) as Hg by (constructor; intros; cbn; fields).
      split; [by eapply gave_shape|]. split; [intros u Hu; eapply gave_inherits; [exact Hs|exact Hw|exact Hl|exact Hq|exact Hg|exact Hu|by apply Hi]|].
      split; [cbn; fields|]. split; [cbn; fields|done]. }
  destruct (IH s1 A B C D) as (A' & B' & C' & D' & E'). split_and!; try done. intros u. by rewrite E', E.
Qed.

Lemma unlock_all_keeps ts s t : mtx_inv ts s -> wtmtxp s t = None ->
  mtx_inv ts (chMtxUnlockAllS s t) /\ (forall u, realprio (chMtxUnlockAllS s t) u = realprio s u).
Proof.
  intros Hv Hw. pose proof Hv as [Hs Hi]. unfold chMtxUnlockAllS. destruct (mtxlist s t) as [|m l] eqn:Hl; [done|].
  destruct (unlock_all_inv ts t (m :: l) s Hs (fun u _ => Hi u) Hw Hl) as (A & B & C & D & E). set (s1 := unlock_all s t (m :: l)) in *.
  split; [|done]. assert (forall x, ~ waits_for s1 x t) as Hno.
  { intros x (m' & Ho & _). apply (i_list _ _ A) in Ho. rewrite D in Ho. by apply elem_of_nil in Ho. }
  assert (forall y m', y ∈ queue s1 m' -> y <> t) as Hne by (intros y m' Hy ->; by apply (not_queued _ _ _ _ A C) in Hy).
  split.
  - destruct A. constructor; try done. intros m'. apply (sorted_ext (prio s1)); [|apply i_sorted0]. intros y Hy. cbn. apply fn_lookup_insert_ne.
    intros <-. by apply Hne in Hy.
  - intros u. destruct (decide (u = t)) as [->|Hu].
    + split; [cbn; fields|]. split; [intros x Hx; by apply Hno in Hx|]. left. cbn. fields.
    + destruct (B u Hu) as (H1 & H2 & H3). unfold inherits. cbn. rewrite (fn_lookup_insert_ne _ t u) by done. split; [done|]. split.
      * intros x Hx. rewrite fn_lookup_insert_ne; [by apply H2|]. destruct Hx as (m' & _ & Hx). intros <-. by apply Hne in Hx.
      * destruct H3 as [|(x & Hx & Ex)]; [by left|right]. exists x. split; [done|]. rewrite fn_lookup_insert_ne; [done|].
        destruct Hx as (m' & _ & Hx). intros <-. by apply Hne in Hx.
Qed.

(** ** Any number of threads *)

(** Calls of thread [t], which does not sleep on a mutex; only what is owned is unlocked. *)
Inductive mtx_call (ts : list Z) (t : Z) : ks -> ks -> Prop :=
| m_lock s s' m : t ∈ ts -> wtmtxp s t = None -> chMtxLockS (S (length ts)) s t m = Some s' -> mtx_call ts t s s'
| m_try s s' m b : t ∈ ts -> wtmtxp s t = None -> chMtxTryLockS s t m = Some (s', b) -> mtx_call ts t s s'
| m_unlock s s' m : wtmtxp s t = None -> m ∈ mtxlist s t -> chMtxUnlock s t m = Some s' -> mtx_call ts t s s'
| m_unlock_all s : wtmtxp s t = None -> mtx_call ts t s (chMtxUnlockAllS s t).

Definition mtx_step (ts : list Z) (s s' : ks) : Prop := exists t, mtx_call ts t s s'.

(** All mutexes are free; every thread has its own priority. *)
Definition mtx_init (p : Z -> Z) : ks := KS p p (fun _ => []) (fun _ => None) (fun _ => None) (fun _ => 0) (fun _ => []).

Lemma unlock_other_inv ts s s' t m : mtx_inv ts s -> wtmtxp s t = None -> m ∈ mtxlist s t -> chMtxUnlock s t m = Some s' -> mtx_inv ts s'.
Proof.
  intros Hv Hw Hm E. pose proof Hv as [Hs _]. destruct (decide (head (mtxlist s t) = Some m)) as [Hh|Hh].
  - destruct (unlock_inv ts s t m Hv Hw Hh) as (s1 & E1 & H1 & _). congruence.
  - unfold chMtxUnlock in E. destruct (mtxlist s t) as [|top rest] eqn:Hl; [done|].
    destruct (_ || _) eqn:Ec; [done|]. apply orb_false_elim in Ec as [_ Ec]. apply Z.ltb_ge in Ec.
    destruct (Z.eqb_spec (cnt s m - 1) 0) as [|Hc].
    + destruct (Z.eqb_spec top m) as [->|]; [by destruct Hh|done].
    + injection E as <-. eapply count_inv; [done|apply (i_list _ _ Hs); by rewrite Hl|lia].
Qed.

Lemma mtx_call_inv ts t s s' : mtx_inv ts s -> mtx_call ts t s s' -> mtx_inv ts s'.
Proof.
  intros H0 Hst. destruct Hst as [s s' m Ht Hw E|s s' m b Ht Hw E|s s' m Hw Hm E|s Hw].
  - destruct (lock_inv ts s t m (S (length ts)) H0 Ht Hw) as (s1 & E1 & H1 & _); [lia|]. congruence.
  - destruct (try_inv ts s t m H0 Ht) as (s1 & b1 & E1 & H1 & _). congruence.
  - by eapply unlock_other_inv.
  - by apply unlock_all_keeps.
Qed.

Lemma mtx_reachable ts p s : rtc (mtx_step ts) (mtx_init p) s -> mtx_inv ts s.
Proof.
  intros Hr. assert (mtx_inv ts (mtx_init p)) as H0.
  { split; [|intros t; split; [done|]; split; [by intros x (m & H & _)|by left]].
    assert (forall (A : Prop) (x : Z), ~ A -> x ∈ [] <-> A) as He by (intros A x HA; split; [intros H; by apply elem_of_nil in H|done]).
    constructor; cbn; try done; intros; try (by apply He); [apply NoDup_nil_2|apply NoDup_nil_2|apply SSorted_nil]. }
  induction Hr as [|x y z [t Hst] _ IH]; [done|]. apply IH. by eapply mtx_call_inv.
Qed.

(** The threads that wait for a mutex of [t]. *)
Definition waiters (s : ks) (t : Z) : list Z := mtxlist s t ≫= queue s.

Lemma waiters_spec ts s x t : shape ts s -> x ∈ waiters s t <-> waits_for s x t.
Proof.
  intros Hs. unfold waiters, waits_for. rewrite list_elem_of_bind. split.
  - intros (m & Hx & Hm). exists m. split; [by apply (i_list _ _ Hs)|done].
  - intros (m & Ho & Hx). exists m. split; [done|by apply (i_list _ _ Hs)].
Qed.

Lemma fold_max_spec (a v : Z) (l : list Z) : a <= v -> (forall x, x ∈ l -> x <= v) -> v = a \/ v ∈ l -> v = foldr Z.max a l.
Proof.
  induction l as [|x l IH]; cbn; intros Ha Hl Hv.
  - destruct Hv as [|Hv]; [done|by apply elem_of_nil in Hv].
  - assert (foldr Z.max a l <= v) as Hle.
    { clear IH Hv. induction l as [|y l IH]; cbn; [done|]. assert (y <= v) by (apply Hl; by right; left).
      assert (foldr Z.max a l <= v); [|lia]. apply IH. intros z [->|Hz]%elem_of_cons; apply Hl; [by left|by right; right]. }
    pose proof (Hl x ltac:(by left)). destruct Hv as [Hv|[Hv|Hv]%elem_of_cons].
    + rewrite <- IH by (auto; intros z Hz; apply Hl; by right). lia.
    + subst. lia.
    + rewrite <- IH by (auto; intros z Hz; apply Hl; by right). lia.
Qed.

(** C14: Priority inheritance is exact.  After any sequence of locks, attempts, unlocks and
    unlocks of all by any number of threads, with any nesting, the priority of every thread is the highest
    of its own and of the priorities of all threads that sleep on a mutex it owns; so no thread, directly
    or through other owners, waits for one of a lower priority, and a thread nobody waits for has its own
    priority back. *)
Theorem mutex_priority_exact (ts : list Z) (p : Z -> Z) (s : ks) (t : Z) (Hr : rtc (mtx_step ts) (mtx_init p) s) :
  prio s t = foldr Z.max (realprio s t) (map (prio s) (waiters s t)) /\
  (forall x, tc (waits_for s) x t -> prio s x <= prio s t).
Proof.
  destruct (mtx_reachable ts p s Hr) as [Hs Hi]. split.
  - destruct (Hi t) as (H1 & H2 & H3). apply fold_max_spec; [done| |].
    + intros v (x & -> & Hx)%list_elem_of_fmap. apply H2. by apply (waiters_spec ts).
    + destruct H3 as [|(x & Hx & E)]; [by left|right]. rewrite <- E. apply list_elem_of_fmap_2. by apply (waiters_spec ts).
  - intros x Hx. induction Hx as [x y Hx|x y z Hx _ IH]; [by apply (Hi y)|]. pose proof (proj1 (proj2 (Hi y)) x Hx). lia.
Qed.

(** ** Threads that have been given a mutex *)

(** What a call of [t] leaves of the other threads: one that does not sleep keeps its mutexes; one that
    sleeps goes on sleeping or has been given what it slept on; mutexes of others are not touched. *)
Record others_kept (t : Z) (s s' : ks) : Prop := {
  k_awake : forall x, x <> t -> wtmtxp s x = None -> wtmtxp s' x = None /\ mtxlist s' x = mtxlist s x;
  k_asleep : forall x m, x <> t -> wtmtxp s x = Some m ->
    (wtmtxp s' x = Some m /\ mtxlist s' x = mtxlist s x) \/
    (wtmtxp s' x = None /\ mtxlist s' x = m :: mtxlist s x /\ owner s' m = Some x /\ cnt s' m = 1);
  k_owned : forall x m, x <> t -> owner s m = Some x -> owner s' m = Some x /\ cnt s' m = cnt s m }.

Lemma kept_trans t s1 s2 s3 : others_kept t s1 s2 -> others_kept t s2 s3 -> others_kept t s1 s3.
Proof.
  intros [A1 B1 C1] [A2 B2 C2]. constructor.
  - intros x Hx Hw. destruct (A1 x Hx Hw) as [Hw1 E1]. destruct (A2 x Hx Hw1) as [? ?]. split; congruence.
  - intros x m Hx Hw. destruct (B1 x m Hx Hw) as [[Hw1 E1]|(Hw1 & E1 & Ho & Hc)].
    + destruct (B2 x m Hx Hw1) as [[? ?]|(? & ? & ? & ?)]; [left|right]; split_and!; congruence.
    + right. destruct (A2 x Hx Hw1) as [? ?]. destruct (C2 x m Hx Ho) as [? ?]. split_and!; congruence.
  - intros x m Hx Ho. destruct (C1 x m Hx Ho) as [Ho1 ?]. destruct (C2 x m Hx Ho1) as [? ?]. split; congruence.
Qed.

Lemma kept_same t s s' : (forall x, x <> t -> wtmtxp s' x = wtmtxp s x /\ mtxlist s' x = mtxlist s x) ->
  (forall m x, x <> t -> owner s m = Some x -> owner s' m = Some x /\ cnt s' m = cnt s m) -> others_kept t s s'.
Proof.
  intros H1 H2. constructor; [|intros x m Hx Hw; left|auto]; intros; destruct (H1 x) as [-> ->]; done.
Qed.

Lemma kept_gave ts s s' t m rest x q np : shape ts s -> wtmtxp s t = None -> mtxlist s t = m :: rest -> queue s m = x :: q ->
  gave s s' t m rest x q np -> others_kept t s s'.
Proof.
  intros Hs Hw Hl Hq []. pose proof (top_owned ts s t m rest Hs Hl) as Ho.
  assert (wtmtxp s x = Some m) as Hx by (apply (i_wait _ _ Hs); rewrite Hq; by left). constructor.
  - intros y Hy Hyw. rewrite g_wait0, g_list0. repeat case_decide; subst; try done; congruence.
  - intros y m' Hy Hyw. rewrite g_wait0, g_list0, g_owner0, g_cnt0. destruct (decide (y = x)) as [->|Hne].
    + right. assert (m' = m) as -> by congruence. by rewrite !decide_True.
    + left. by rewrite decide_False.
  - intros y m' Hy Hm. rewrite g_owner0, g_cnt0. case_decide; [subst; congruence|done].
Qed.

Lemma kept_freed ts s s' t m rest : shape ts s -> mtxlist s t = m :: rest -> freed s s' t m rest -> others_kept t s s'.
Proof.
  intros Hs Hl []. pose proof (top_owned ts s t m rest Hs Hl) as Ho. apply kept_same.
  - intros x Hx. rewrite f_wait0, f_list0. by rewrite decide_False.
  - intros m' x Hx Hm. rewrite f_owner0, f_cnt0. case_decide; [subst; congruence|done].
Qed.

Lemma kept_count s t m c : owner s m = Some t -> others_kept t s (set_cnt s m c).
Proof.
  intros Ho. apply kept_same; [done|]. intros m' x Hx Hm. cbn. split; [done|]. apply fn_lookup_insert_ne. congruence.
Qed.

Lemma kept_take s t m : owner s m = None -> others_kept t s (take_mutex s t m).
Proof.
  intros Ho. apply kept_same.
  - intros x Hx. cbn. by rewrite fn_lookup_insert_ne by done.
  - intros m' x Hx Hm. cbn. rewrite !fn_lookup_insert_ne by congruence. done.
Qed.

Lemma boost_reordered ts m t p fuel s o s' : mtx_inv ts s -> t ∈ ts -> wtmtxp s t = None -> owner s m = Some o ->
  (length ts < fuel)%nat -> p = prio s t -> boost fuel s o p = Some s' -> reordered s s'.
Proof.
  intros [Hs Hi] Ht Hw Eo Hf -> E. destruct (i_owned _ _ Hs m o Eo) as [Hc Hots].
  destruct (boost_spec ts m (prio s t) fuel s o) as (s1 & E1 & Hb).
  { constructor; try done; [apply Hi|intros u x Hx; left; by apply Hi| |by left].
    intros u _. destruct (Hi u) as (_ & _ & [|]); [by left|by right; right]. }
  { unfold lower. pose proof (length_filter (fun u => prio s u < prio s t) ts). lia. }
  rewrite E in E1. injection E1 as <-. by destruct Hb.
Qed.

Lemma unlock_all_kept ts t l : forall s, shape ts s -> (forall u, u <> t -> inherits s u) -> wtmtxp s t = None -> mtxlist s t = l ->
  others_kept t s (unlock_all s t l).
Proof.
  induction l as [|m l IH]; intros s Hs Hi Hw Hl; [by apply kept_same|].
  cbn [unlock_all]. set (s1 := match queue (set_mtxlist s t l) m with [] => _ | _ => _ end).
  assert (others_kept t s s1 /\ shape ts s1 /\ (forall u, u <> t -> inherits s1 u) /\ wtmtxp s1 t = None /\ mtxlist s1 t = l) as (K & A & B & C & D).
  { unfold s1. change (queue (set_mtxlist s t l) m) with (queue s m). destruct (queue s m) as [|x q] eqn:Hq.
    - set (s' := set_owner _ _ _). assert (freed s s' t m l) as Hf by (constructor; intros; cbn; fields).
      destruct (freed_inv ts s s' t m l Hs Hl Hq Hf) as [A B].
      split_and!; [by eapply kept_freed|done|intros u Hu; apply B, Hi, Hu|done|cbn; fields].
    - assert (x <> t) as Hxt by (intros ->; apply (not_queued ts s t m Hs Hw); rewrite Hq; by left).
      set (s' := hand_over _ _ _ _). assert (gave s s' t m l x q (prio s t)) as Hg by (constructor; intros; cbn; fields).
      split_and!; [by eapply kept_gave|by eapply gave_shape| |cbn; fields|cbn; fields].
      intros u Hu. eapply gave_inherits; [exact Hs|exact Hw|exact Hl|exact Hq|exact Hg|exact Hu|by apply Hi]. }
  eapply kept_trans; [exact K|]. by apply IH.
Qed.

Lemma unlock_kept ts s t m s' : shape ts s -> wtmtxp s t = None -> m ∈ mtxlist s t -> chMtxUnlock s t m = Some s' -> others_kept t s s'.
Proof.
  intros Hs Hw Hm E. assert (owner s m = Some t) as Ho by (by apply (i_list _ _ Hs)).
  unfold chMtxUnlock in E. destruct (mtxlist s t) as [|top rest] eqn:Hl; [done|]. destruct (_ || _); [done|].
  destruct (Z.eqb_spec (cnt s m - 1) 0) as [Ec|Ec]; [|injection E as <-; by apply kept_count].
  destruct (Z.eqb_spec top m) as [->|]; [|done]. cbn [negb] in E. change (queue (set_mtxlist _ _ _) m) with (queue s m) in E.
  destruct (queue s m) as [|x q] eqn:Hq; injection E as <-.
  - eapply (kept_freed ts s _ t m rest); [done|done|]. constructor; intros; cbn; fields; lia.
  - assert (x <> t) as Hxt by (intros ->; apply (not_queued ts s t m Hs Hw); rewrite Hq; by left).
    eapply (kept_gave ts s _ t m rest x q); [done|done|done|done|]. constructor; intros; cbn; fields.
Qed.

Lemma call_kept ts t s s' : mtx_inv ts s -> mtx_call ts t s s' -> others_kept t s s'.
Proof.
  intros Hv Hst. pose proof Hv as [Hs Hi]. destruct Hst as [s s' m Ht Hw E|s s' m b Ht Hw E|s s' m Hw Hm E|s Hw].
  - unfold chMtxLockS in E. destruct (owner s m) as [o|] eqn:Eo.
    + destruct (cnt s m <? 1); [done|]. destruct (Z.eqb_spec o t) as [->|Hne]; [injection E as <-; by apply kept_count|].
      destruct (boost _ s o (prio s t)) as [s1|] eqn:Eb; [|done]. cbn [mbind option_bind] in E. injection E as <-.
      destruct (boost_reordered ts m t _ (S (length ts)) s o s1 Hv Ht Hw Eo ltac:(lia) eq_refl Eb). apply kept_same.
      * intros x Hx. cbn. rewrite fn_lookup_insert_ne by done. by rewrite r_wait0, r_list0.
      * intros m' x Hx Hm. cbn. by rewrite r_owner0, r_cnt0.
    + destruct (cnt s m =? 0); [|done]. injection E as <-. by apply kept_take.
  - unfold chMtxTryLockS in E. destruct (owner s m) as [o|] eqn:Eo.
    + destruct (cnt s m <? 1); [done|]. destruct (Z.eqb_spec o t) as [->|Hne]; injection E as <- _; [by apply kept_count|by apply kept_same].
    + destruct (cnt s m =? 0); [|done]. injection E as <- _. by apply kept_take.
  - by eapply unlock_kept.
  - unfold chMtxUnlockAllS. destruct (mtxlist s t) as [|m l] eqn:Hl; [by apply kept_same|].
    eapply kept_trans; [apply (unlock_all_kept ts t (m :: l)); done || (intros; apply Hi)|]. by apply kept_same.
Qed.

(** The threads that have been given a mutex and have not run since: they are still inside their
    call of [chMtxLock]. *)
Record msys := MSys { kern : ks; handed : Z -> option Z }.

Definition woken (s s' : ks) (h : Z -> option Z) (x : Z) : option Z :=
  match wtmtxp s x, wtmtxp s' x with Some m, None => Some m | _, _ => h x end.

(** A call by a thread that is in none, or the end of the call of a thread that has been given its mutex. *)
Inductive msys_step (ts : list Z) : msys -> msys -> Prop :=
| ms_call t s s' h : h t = None -> mtx_call ts t s s' -> msys_step ts (MSys s h) (MSys s' (woken s s' h))
| ms_resume t m s h : h t = Some m -> msys_step ts (MSys s h) (MSys s (<[t := None]> h)).

Definition msys_init (p : Z -> Z) : msys := MSys (mtx_init p) (fun _ => None).

Definition handed_ok (s : msys) : Prop :=
  forall x m, handed s x = Some m -> wtmtxp (kern s) x = None /\ owner (kern s) m = Some x /\
    head (mtxlist (kern s) x) = Some m /\ cnt (kern s) m = 1.

Lemma handed_step ts s s' : mtx_inv ts (kern s) -> handed_ok s -> msys_step ts s s' -> handed_ok s'.
Proof.
  intros Hv Ho Hst. destruct Hst as [t s s' h Hh Hc|t m s h Hh]; intros x m' Hx; cbn in *.
  - pose proof (call_kept ts t s s' Hv Hc) as [A B C]. unfold woken in Hx. destruct (wtmtxp s x) as [mx|] eqn:Ew.
    + destruct (decide (x = t)) as [->|Hne].
      { exfalso. assert (wtmtxp s t = None) by (by destruct Hc). congruence. }
      destruct (B x mx Hne Ew) as [[E1 E2]|(E1 & E2 & E3 & E4)]; rewrite E1 in Hx.
      * destruct (Ho x m' Hx) as [? _]. cbn in *. congruence.
      * injection Hx as ->. by rewrite E2.
    + destruct (Ho x m' Hx) as (_ & H1 & H2 & H3). cbn in *. assert (x <> t) as Hne by congruence.
      destruct (A x Hne Ew) as [-> ->]. destruct (C x m' Hne H1) as [-> ->]. done.
  - destruct (decide (t = x)) as [->|Hne]; [by rewrite fn_lookup_insert in Hx|]. rewrite fn_lookup_insert_ne in Hx by done. by apply Ho.
Qed.

Lemma msys_reachable ts p s : rtc (msys_step ts) (msys_init p) s -> mtx_inv ts (kern s) /\ handed_ok s.
Proof.
  intros Hr. assert (mtx_inv ts (kern (msys_init p)) /\ handed_ok (msys_init p)) as H0
    by (split; [apply (mtx_reachable ts p), rtc_refl|done]).
  induction Hr as [|x y z Hst _ IH]; [done|]. apply IH. destruct H0 as [Hv Ho]. split; [|by eapply handed_step].
  destruct Hst as [t s s' h _ Hc|]; [by eapply mtx_call_inv|done].
Qed.

(** What an unlock does to the mutex: it is free again, or belongs to the first of the threads of the
    highest priority, which does not sleep any more, and is locked once. *)
Definition passed_on (s s' : ks) (m : Z) : Prop :=
  match queue s m with
  | [] => owner s' m = None /\ cnt s' m = 0
  | x :: q => owner s' m = Some x /\ wtmtxp s' x = None /\ queue s' m = q /\ cnt s' m = 1 /\ Forall (fun y => prio s y <= prio s x) q
  end.

(** C23: Mutexes exclude, and are handed over to the most urgent.  The system is any number of threads
    that lock (to a depth below 2^31), try to lock, unlock and unlock all of their mutexes; a thread that has been
    given a mutex is inside its call until it runs again.  In every reachable state a mutex is in the list of
    at most one thread, and one that somebody sleeps on is owned by a thread; a
    lock or an attempt by a thread that is awake never fails an assertion and its inheritance loop ends within one
    step per thread; a thread that has been given the mutex it slept on finds, whenever it runs again, the
    three assertions after the sleep true: it is the owner, the mutex is the first of its
    list, and it is locked once; and an unlock of the mutex locked last succeeds and, when it is the
    outermost, passes the mutex on. *)
Theorem mutex_handover (ts : list Z) (p : Z -> Z) (s : msys) (t m : Z)
    (Hr : rtc (msys_step ts) (msys_init p) s) (Hw : wtmtxp (kern s) t = None) :
  (forall t', m ∈ mtxlist (kern s) t -> m ∈ mtxlist (kern s) t' -> t' = t) /\
  (forall x, wtmtxp (kern s) x = Some m -> exists o, owner (kern s) m = Some o) /\
  (t ∈ ts -> is_Some (chMtxLockS (S (length ts)) (kern s) t m) /\ is_Some (chMtxTryLockS (kern s) t m)) /\
  (forall x m', handed s x = Some m' -> lock_resume (kern s) x m' = true) /\
  (head (mtxlist (kern s) t) = Some m -> exists s', chMtxUnlock (kern s) t m = Some s' /\
     if cnt (kern s) m =? 1 then passed_on (kern s) s' m else owner s' m = Some t /\ cnt s' m = cnt (kern s) m - 1).
Proof.
  destruct (msys_reachable ts p s Hr) as [Hv Hh]. destruct s as [s h]. cbn in *. pose proof Hv as [Hs Hi]. split_and!.
  - intros t' H1%(i_list _ _ Hs) H2%(i_list _ _ Hs). congruence.
  - intros x Hx%(i_wait _ _ Hs). destruct (owner s m) as [o|] eqn:Eo; [by exists o|]. destruct (i_free _ _ Hs m Eo) as [_ Eq]. rewrite Eq in Hx. by apply elem_of_nil in Hx.
  - intros Ht. destruct (lock_inv ts s t m (S (length ts)) Hv Ht Hw ltac:(lia)) as (s1 & E1 & _). destruct (try_inv ts s t m Hv Ht) as (s2 & b & E2 & _). rewrite E1, E2. split; by eexists.
  - intros x m' Hx. destruct (Hh x m' Hx) as (_ & H1 & H2 & H3). cbn in *. unfold lock_resume. rewrite !bool_decide_true, H3 by done. done.
  - intros Hd. destruct (unlock_inv ts s t m Hv Hw Hd) as (s' & E & _). exists s'. split; [done|].
    unfold chMtxUnlock in E. destruct (mtxlist s t) as [|top rest] eqn:Hl; [done|]. injection Hd as ->.
    pose proof (top_owned ts s t m rest Hs Hl) as Ho. destruct (_ || _); [done|].
    destruct (Z.eqb_spec (cnt s m - 1) 0) as [Ec|Ec].
    + rewrite (proj2 (Z.eqb_eq (cnt s m) 1)) by lia. rewrite Z.eqb_refl in E. cbn [negb] in E.
      change (queue (set_mtxlist _ _ _) m) with (queue s m) in E. unfold passed_on. pose proof (i_sorted _ _ Hs m) as Hso.
      destruct (queue s m) as [|x q]; injection E as <-; cbn; rewrite !fn_lookup_insert; [done|].
      apply StronglySorted_inv in Hso as [_ Hso]. done.
    + rewrite (proj2 (Z.eqb_neq (cnt s m) 1)) by lia. injection E as <-. cbn. by rewrite fn_lookup_insert.
Qed.

(** Three threads of priorities 1, 2 and 3: the first owns mutex 10, the second owns 11 and waits for 10,
    the third waits for 11. *)
Definition demo_lock (s : ks) (t m : Z) : ks := default s (chMtxLockS 4 s t m).
Definition demo1 : ks := demo_lock (mtx_init id) 1 10.
Definition demo2 : ks := demo_lock demo1 2 11.
Definition demo3 : ks := demo_lock demo2 2 10.
Definition demo_mtx : ks := demo_lock demo3 3 11.

Lemma demo_mtx_reached : rtc (mtx_step [1; 2; 3]) (mtx_init id) demo_mtx.
Proof.
  apply (rtc_l _ _ demo1); [exists 1; apply (m_lock _ _ _ _ 10); [by left|reflexivity|vm_compute; reflexivity]|].
  apply (rtc_l _ _ demo2); [exists 2; apply (m_lock _ _ _ _ 11); [by right; left|reflexivity|vm_compute; reflexivity]|].
  apply (rtc_l _ _ demo3); [exists 2; apply (m_lock _ _ _ _ 10); [by right; left|reflexivity|vm_compute; reflexivity]|].
  apply rtc_once; exists 3; apply (m_lock _ _ _ _ 11); [by right; right; left|reflexivity|vm_compute; reflexivity].
Qed.

Lemma mutex_priority_exact_witness : prio demo_mtx 1 = Z.max (prio demo_mtx 2) 1 /\ prio demo_mtx 3 <= prio demo_mtx 1.
Proof.
  destruct (mutex_priority_exact [1; 2; 3] id demo_mtx 1 demo_mtx_reached) as [E H]. split; [exact E|]. apply H.
  assert (queue demo_mtx 11 = [3] /\ queue demo_mtx 10 = [2]) as [E1 E2] by (vm_compute; split; reflexivity).
  eapply tc_l; [|apply tc_once]; [exists 11|exists 10]; (split; [vm_compute; reflexivity|]); [rewrite E1|rewrite E2]; apply list_elem_of_singleton; reflexivity.
Defined.

(** The first thread has unlocked mutex 10; the second has been given it and has not run since. *)
Definition after (x : msys) (s : ks) : msys := MSys s (woken (kern x) s (handed x)).
Definition demo_waits : msys := after (after (after (after (msys_init id) demo1) demo2) demo3) demo_mtx.
Definition demo_given : msys := after demo_waits (default demo_mtx (chMtxUnlock demo_mtx 1 10)).

Lemma after_step ts t x s : handed x t = None -> mtx_call ts t (kern x) s -> msys_step ts x (after x s).
Proof. destruct x. apply ms_call. Qed.

Lemma demo_waits_reached : rtc (msys_step [1; 2; 3]) (msys_init id) demo_waits.
Proof.
  eapply rtc_l; [apply (after_step _ 1); [reflexivity|apply (m_lock _ _ _ demo1 10); [by left|reflexivity|vm_compute; reflexivity]]|].
  eapply rtc_l; [apply (after_step _ 2); [reflexivity|apply (m_lock _ _ _ demo2 11); [by right; left|reflexivity|vm_compute; reflexivity]]|].
  eapply rtc_l; [apply (after_step _ 2); [reflexivity|apply (m_lock _ _ _ demo3 10); [by right; left|reflexivity|vm_compute; reflexivity]]|].
  apply rtc_once, (after_step _ 3); [reflexivity|apply (m_lock _ _ _ demo_mtx 11); [by right; right; left|reflexivity|vm_compute; reflexivity]].
Qed.

Lemma demo_given_reached : rtc (msys_step [1; 2; 3]) (msys_init id) demo_given.
Proof.
  eapply rtc_r; [exact demo_waits_reached|]. apply (after_step _ 1); [reflexivity|].
  apply (m_unlock _ _ _ _ 10); [reflexivity|apply list_elem_of_In; vm_compute; by left|vm_compute; reflexivity].
Qed.

Lemma mutex_handover_witness :
  (exists s', chMtxUnlock demo_mtx 1 10 = Some s' /\ owner s' 10 = Some 2 /\ wtmtxp s' 2 = None) /\ lock_resume (kern demo_given) 2 10 = true.
Proof.
  destruct (mutex_handover [1; 2; 3] id demo_waits 1 10 demo_waits_reached eq_refl) as (_ & _ & _ & _ & H).
  destruct (mutex_handover [1; 2; 3] id demo_given 1 10 demo_given_reached eq_refl) as (_ & _ & _ & G & _). split.
  - destruct (H eq_refl) as (s' & E & Ho & Hn & _). exists s'. split; [exact E|]. split; [exact Ho|exact Hn].
  - apply G. vm_compute. reflexivity.
Defined.

(** Unlocking in reverse order does not exclude deadlocks: two threads that take two mutexes in
    different orders sleep on each other. *)
Definition dead3 : ks := demo_lock demo2 1 11.
Definition dead : ks := demo_lock dead3 2 10.

Example mutex_deadlock : rtc (mtx_step [1; 2; 3]) demo2 dead /\ waits_for dead 1 2 /\ waits_for dead 2 1.
Proof.
  split; [|split; [exists 11|exists 10]; (split; [vm_compute; reflexivity|]); apply list_elem_of_In; vm_compute; by left].
  apply (rtc_l _ _ dead3); [exists 1; apply (m_lock _ _ _ _ 11); [by left|reflexivity|vm_compute; reflexivity]|].
  apply rtc_once; exists 2; apply (m_lock _ _ _ _ 10); [by right; left|reflexivity|vm_compute; reflexivity].
Qed.
