(* ===== verification/Sched.v ===== *)
(** * Sched: the ready list and the scheduler (ext/ChibiOS_21.11.3/os/rt/include/chlists.h, priority queues
    and stacks; os/rt/src/chschd.c)

    The ready list is a ring of links in a heap, as in [Chlist], with the priority of each node; its header
    [R] has the priority 0.  The scheduler keeps the running thread out of it.  Time slices are disabled in
    this firmware (CH_CFG_TIME_QUANTUM is 0).  Priorities are fixed here; [Mutex] models how they change.
    [None] is a failed assertion or a scan that is out of fuel. *)

From stdpp Require Import functions.
From Stdlib Require Import Sorting.Sorted.
From S2P Require Import Prelude Chlist Mutex.

(** ** Stacks *)

Definition ch_list_init (h : heap) (lp : Z) : heap := set_next h lp lp.
Definition ch_list_isempty (h : heap) (lp : Z) : bool := next h lp =? lp.
Definition ch_list_notempty (h : heap) (lp : Z) : bool := negb (next h lp =? lp).
Definition ch_list_link (h : heap) (lp p : Z) : heap :=
  let h := set_next h p (next h lp) in set_next h lp p.
Definition ch_list_unlink (h : heap) (lp : Z) : heap * Z :=
  let p := next h lp in (set_next h lp (next h p), p).

(** A single linked list from [lp] back to it. *)
Fixpoint stack (h : heap) (lp x : Z) (l : list Z) : Prop :=
  match l with [] => next h x = lp | y :: l => next h x = y /\ stack h lp y l end.

Lemma stack_frame h k v lp l : forall x, x <> k -> k ∉ l -> stack h lp x l -> stack (set_next h k v) lp x l.
Proof.
  induction l as [|y l IH]; intros x Hx Hk; cbn; unfold upd; (destruct (Z.eqb_spec x k); [done|]); [done|].
  apply not_elem_of_cons in Hk as [Hy Hk]. intros [? ?]. split; [done|]. by apply IH.
Qed.

(** Linking pushes, unlinking pops. *)
Lemma ch_list_stack h lp l : NoDup (lp :: l) -> stack h lp lp l ->
  ch_list_isempty h lp = (match l with [] => true | _ => false end) /\
  (forall p, p ∉ lp :: l -> stack (ch_list_link h lp p) lp lp (p :: l)) /\
  (forall x r, l = x :: r -> (ch_list_unlink h lp).2 = x /\ stack (ch_list_unlink h lp).1 lp lp r).
Proof.
  intros [Hlp Hn]%NoDup_cons Hs. unfold ch_list_isempty. split_and!.
  - destruct l as [|y l]; [cbn in Hs; rewrite Hs; apply Z.eqb_refl|]. destruct Hs as [-> _]. apply Z.eqb_neq. intros ->. apply Hlp. by left.
  - intros p [Hp Hpl]%not_elem_of_cons. unfold ch_list_link. split; [cbn; unfold upd; by rewrite Z.eqb_refl|].
    destruct l as [|y l].
    + cbn in *. unfold upd. rewrite (proj2 (Z.eqb_neq p lp)), Z.eqb_refl by done. done.
    + destruct Hs as [Hy Hs]. apply not_elem_of_cons in Hlp as [Hly Hll], Hpl as [Hpy Hpl]. split.
      * cbn. unfold upd. rewrite (proj2 (Z.eqb_neq p lp)), Z.eqb_refl by done. done.
      * apply stack_frame; [done|done|]. by apply stack_frame.
  - intros x r ->. destruct Hs as [Hx Hs]. apply not_elem_of_cons in Hlp as [Hlx Hlr]. apply NoDup_cons in Hn as [Hxr Hn].
    unfold ch_list_unlink. cbn [fst snd]. split; [done|]. rewrite Hx. destruct r as [|y r].
    + cbn in *. unfold upd. by rewrite Z.eqb_refl.
    + destruct Hs as [Hy Hs]. apply not_elem_of_cons in Hlr as [Hly Hlr]. split; [cbn; unfold upd; by rewrite Z.eqb_refl|]. by apply stack_frame.
Qed.

(** ** Priority queues *)

Section Sched.
Context (pr : Z -> Z) (R idle : Z).

(** The header's priority is [pr R]. *)
Definition ch_pqueue_init (h : heap) (q : Z) : heap := set_prev (set_next h q q) q q.

Definition ch_pqueue_remove_highest (h : heap) (pqp : Z) : heap * Z :=
  let p := next h pqp in
  let h := set_next h pqp (next h p) in
  (set_prev h (next h pqp) pqp, p).

(** do pqp = pqp->next while (the priority there is high enough). *)
Fixpoint pq_scan (fuel : nat) (h : heap) (pqp : Z) (passes : Z -> bool) : option Z :=
  match fuel with
  | O => None
  | S fuel => let pqp := next h pqp in if passes (pr pqp) then pq_scan fuel h pqp passes else Some pqp
  end.

(** Insertion on prev. *)
Definition pq_link (h : heap) (pqp p : Z) : heap :=
  let h := set_next h p pqp in
  let h := set_prev h p (prev h pqp) in
  let h := set_next h (prev h p) p in
  set_prev h pqp p.

Definition ch_pqueue_insert_behind (fuel : nat) (h : heap) (pqp p : Z) : option heap :=
  pqp ← pq_scan fuel h pqp (fun x => pr p <=? x); Some (pq_link h pqp p).

Definition ch_pqueue_insert_ahead (fuel : nat) (h : heap) (pqp p : Z) : option heap :=
  pqp ← pq_scan fuel h pqp (fun x => pr p <? x); Some (pq_link h pqp p).

(** ** The scheduler *)

Inductive tstate := CH_STATE_READY | CH_STATE_CURRENT | CH_STATE_WAITING.
#[export] Instance tstate_eq_dec : EqDecision tstate.
Proof. solve_decision. Defined.

Record sched := Sched { links : heap; current : Z; state : Z -> tstate }.

Definition set_state (s : sched) (t : Z) (x : tstate) : sched := Sched (links s) (current s) (<[t := x]> (state s)).
Definition set_links (s : sched) (h : heap) : sched := Sched h (current s) (state s).
Definition set_current (s : sched) (t : Z) : sched := Sched (links s) t (state s).

Definition firstprio (s : sched) : Z := pr (next (links s) R).

Definition sch_ready_behind (fuel : nat) (s : sched) (tp : Z) : option sched :=
  if decide (state s tp = CH_STATE_READY) then None
  else
    let s := set_state s tp CH_STATE_READY in
    h ← ch_pqueue_insert_behind fuel (links s) R tp; Some (set_links s h).

Definition sch_ready_ahead (fuel : nat) (s : sched) (tp : Z) : option sched :=
  if decide (state s tp = CH_STATE_READY) then None
  else
    let s := set_state s tp CH_STATE_READY in
    h ← ch_pqueue_insert_ahead fuel (links s) R tp; Some (set_links s h).

(** The first thread of the ready list becomes current. *)
Definition pick (s : sched) : sched :=
  let '(h, ntp) := ch_pqueue_remove_highest (links s) R in
  set_current (set_state (set_links s h) ntp CH_STATE_CURRENT) ntp.

Definition sch_reschedule_behind (fuel : nat) (s : sched) : option sched :=
  let otp := current s in sch_ready_behind fuel (pick s) otp.
Definition sch_reschedule_ahead (fuel : nat) (s : sched) : option sched :=
  let otp := current s in sch_ready_ahead fuel (pick s) otp.

Definition chSchReadyI (fuel : nat) (s : sched) (tp : Z) : option sched := sch_ready_behind fuel s tp.

Definition chSchGoSleepS (s : sched) : option sched :=
  let otp := current s in
  if otp =? idle then None
  else Some (pick (set_state s otp CH_STATE_WAITING)).

Definition chSchWakeupS (fuel : nat) (s : sched) (ntp : Z) : option sched :=
  let otp := current s in
  if (next (links s) R =? R) || (firstprio s <=? pr otp) then
    if pr ntp <=? pr otp then sch_ready_behind fuel s ntp
    else
      s ← sch_ready_ahead fuel s otp;
      Some (set_current (set_state s ntp CH_STATE_CURRENT) ntp)
  else None.

Definition chSchRescheduleS (fuel : nat) (s : sched) : option sched :=
  if pr (current s) <? firstprio s then sch_reschedule_ahead fuel s else Some s.

Definition chSchIsPreemptionRequired (s : sched) : bool := pr (current s) <? firstprio s.

Definition chSchDoPreemption (fuel : nat) (s : sched) : option sched :=
  let otp := current s in sch_ready_ahead fuel (pick s) otp.

Definition chSchPreemption (fuel : nat) (s : sched) : option sched :=
  if pr (current s) <? firstprio s then sch_reschedule_ahead fuel s else Some s.

Definition chSchDoYieldS (fuel : nat) (s : sched) : option sched :=
  if pr (current s) <=? firstprio s then sch_reschedule_behind fuel s else Some s.

(** *** The ready list as a list *)

(** In front of the threads of the same priority. *)
Fixpoint insert_ahead (q : list Z) (t : Z) : list Z :=
  match q with
  | [] => [t]
  | x :: r => if pr t <? pr x then x :: insert_ahead r t else t :: x :: r
  end.

Lemma insert_ahead_perm q t : insert_ahead q t ≡ₚ t :: q.
Proof. induction q as [|x q IH]; cbn; [done|]. destruct (_ <? _); [|done]. rewrite IH. constructor. Qed.

Lemma insert_ahead_sorted q t : sorted pr q -> sorted pr (insert_ahead q t).
Proof.
  induction q as [|x q IH]; cbn; [repeat constructor|]. intros Hs. apply StronglySorted_inv in Hs as [Hs Hx].
  destruct (Z.ltb_spec (pr t) (pr x)) as [Hlt|Hle].
  - constructor; [by apply IH|]. rewrite insert_ahead_perm. constructor; [lia|done].
  - constructor; [by constructor|]. constructor; [lia|]. eapply Forall_impl; [done|]. cbn. intros; lia.
Qed.

(** The scan stops where the insertions split the list. *)
Lemma pq_scan_spec h passes l : forall x fuel, seg h x l R -> passes (pr R) = false -> (length l < fuel)%nat ->
  exists a b, l = a ++ b /\ pq_scan fuel h x passes = Some (at_pos R b) /\
    Forall (fun y => passes (pr y) = true) a /\ match b with [] => True | y :: _ => passes (pr y) = false end.
Proof.
  induction l as [|y l IH]; intros x fuel Hs Hp Hf; (destruct fuel as [|fuel]; [cbn in Hf; lia|]); cbn [pq_scan seg] in *.
  - destruct Hs as [-> _]. rewrite Hp. by exists [], [].
  - destruct Hs as (-> & _ & Hs). destruct (passes (pr y)) eqn:E; [|by exists [], (y :: l)].
    destruct (IH y fuel Hs Hp) as (a & b & -> & -> & Ha & Hb); [cbn in Hf; lia|]. exists (y :: a), b. split_and!; try done. by constructor.
Qed.

Lemma behind_split a b t : Forall (fun y => (pr t <=? pr y) = true) a -> match b with [] => True | y :: _ => (pr t <=? pr y) = false end ->
  ch_sch_prio_insert pr (a ++ b) t = a ++ t :: b.
Proof. induction a as [|x a IH]; cbn; intros Ha Hb; [destruct b as [|y b]; cbn; [done|by rewrite Hb]|]. apply Forall_cons in Ha as [-> Ha]. by rewrite IH. Qed.

Lemma ahead_split a b t : Forall (fun y => (pr t <? pr y) = true) a -> match b with [] => True | y :: _ => (pr t <? pr y) = false end ->
  insert_ahead (a ++ b) t = a ++ t :: b.
Proof. induction a as [|x a IH]; cbn; intros Ha Hb; [destruct b as [|y b]; cbn; [done|by rewrite Hb]|]. apply Forall_cons in Ha as [-> Ha]. by rewrite IH. Qed.

Lemma pq_insert_ring h l p passes fuel : ring h R l -> p ∉ R :: l -> passes (pr R) = false -> (length l < fuel)%nat ->
  exists a b pos, l = a ++ b /\ pq_scan fuel h R passes = Some pos /\ ring (pq_link h pos p) R (a ++ p :: b) /\
    Forall (fun y => passes (pr y) = true) a /\ match b with [] => True | y :: _ => passes (pr y) = false end.
Proof.
  intros Hr Hp Hpass Hf. pose proof Hr as [Hs _]. destruct (pq_scan_spec h passes l R fuel Hs Hpass Hf) as (a & b & -> & E & Ha & Hb).
  exists a, b, (at_pos R b). split_and!; try done. apply (ring_insert h); try done.
  pose proof (ring_last _ _ _ _ Hs) as Hu. apply (queue_insert_links h (at_pos R b) p).
  - intros ->. apply Hp. destruct b; cbn; [by left|]. right. apply elem_of_app. right. by left.
  - intros E2. apply Hp. rewrite E2. apply elem_of_cons in Hu as [->|Hu]; [by left|]. right. apply elem_of_app. by left.
Qed.
End Sched.

Section Spec.
Context (pr : Z -> Z) (R idle : Z) (ts : list Z).
Context (HR : pr R = 0) (Hpr : forall t, t ∈ ts -> 1 <= pr t) (HRts : R ∉ ts).

(** The links are the ready list [l], ordered by priority; a thread is in it exactly if it is ready; one
    thread is current; the idle thread is one of these. *)
Record rep (s : sched) (l : list Z) : Prop := {
  p_ring : ring (links s) R l;
  p_sorted : sorted pr l;
  p_ready : forall t, state s t = CH_STATE_READY <-> t ∈ l;
  p_cur : forall t, state s t = CH_STATE_CURRENT <-> t = current s;
  p_ts : forall t, t ∈ current s :: l -> t ∈ ts;
  p_idle : idle ∈ current s :: l }.

Lemma rep_length s l : rep s l -> (length l <= length ts)%nat.
Proof.
  intros []. destruct p_ring0 as [_ Hn]. apply NoDup_cons in Hn as [_ Hn]. apply submseteq_length, NoDup_submseteq; [done|].
  intros t Ht. apply p_ts0. by right.
Qed.

Lemma behind_spec fuel s l t : ring (links s) R l -> t ∉ l -> t ∈ ts -> state s t <> CH_STATE_READY -> (length l < fuel)%nat ->
  exists h', sch_ready_behind pr R fuel s t = Some (Sched h' (current s) (<[t := CH_STATE_READY]> (state s))) /\ ring h' R (ch_sch_prio_insert pr l t).
Proof.
  intros Hr Hl Ht Hst Hf. unfold sch_ready_behind. rewrite decide_False by done. unfold ch_pqueue_insert_behind.
  assert (t ∉ R :: l) as Hn by (apply not_elem_of_cons; split; [intros ->; done|done]).
  destruct (pq_insert_ring pr R (links s) l t (fun x => pr t <=? x) fuel Hr Hn) as (a & b & pos & -> & E & Hr' & Ha & Hb); [apply Z.leb_gt; rewrite HR; specialize (Hpr t Ht); lia|done|].
  cbn [links set_state]. rewrite E. cbn [mbind option_bind]. eexists. split; [done|]. by rewrite behind_split.
Qed.

Lemma ahead_spec fuel s l t : ring (links s) R l -> t ∉ l -> t ∈ ts -> state s t <> CH_STATE_READY -> (length l < fuel)%nat ->
  exists h', sch_ready_ahead pr R fuel s t = Some (Sched h' (current s) (<[t := CH_STATE_READY]> (state s))) /\ ring h' R (insert_ahead pr l t).
Proof.
  intros Hr Hl Ht Hst Hf. unfold sch_ready_ahead. rewrite decide_False by done. unfold ch_pqueue_insert_ahead.
  assert (t ∉ R :: l) as Hn by (apply not_elem_of_cons; split; [intros ->; done|done]).
  destruct (pq_insert_ring pr R (links s) l t (fun x => pr t <? x) fuel Hr Hn) as (a & b & pos & -> & E & Hr' & Ha & Hb); [apply Z.ltb_ge; rewrite HR; specialize (Hpr t Ht); lia|done|].
  cbn [links set_state]. rewrite E. cbn [mbind option_bind]. eexists. split; [done|]. by rewrite ahead_split.
Qed.

Lemma pick_spec s x r : ring (links s) R (x :: r) -> exists h', pick R s = Sched h' x (<[x := CH_STATE_CURRENT]> (state s)) /\ ring h' R r.
Proof.
  intros Hr. destruct (ch_queue_sequence (links s) R (x :: r) Hr) as (_ & _ & H & _). destruct (H x r eq_refl) as [E1 E2].
  unfold pick. change (ch_pqueue_remove_highest (links s) R) with (ch_queue_fifo_remove (links s) R).
  destruct (ch_queue_fifo_remove (links s) R) as [h' y]. cbn in E1, E2. subst y. by exists h'.
Qed.

Lemma first_spec s l : ring (links s) R l -> firstprio pr R s = match l with [] => 0 | x :: _ => pr x end.
Proof. intros [Hs _]. unfold firstprio. destruct l as [|x l]; cbn in Hs; destruct Hs as [-> _]; done. Qed.

(** The running thread [o] goes into the list, the first one [x] out of it. *)
Lemma rep_swap s h' x r l' : rep s (x :: r) -> ring h' R l' -> sorted pr l' -> l' ≡ₚ current s :: r ->
  rep (Sched h' x (<[current s := CH_STATE_READY]> (<[x := CH_STATE_CURRENT]> (state s)))) l'.
Proof.
  intros [Hring Hs Hrd Hc Ht Hi] Hr' Hs' Hl. set (o := current s) in *.
  assert (x <> o) as Hxo by (intros ->; pose proof (proj2 (Hrd o) ltac:(by left)) as E; rewrite (proj2 (Hc o) eq_refl) in E; done).
  destruct Hring as [_ Hn]. apply NoDup_cons in Hn as [_ Hn]. apply NoDup_cons in Hn as [Hx Hn].
  assert (forall t, t ∈ l' <-> t = o \/ t ∈ r) as Hin by (intros t; by rewrite Hl, elem_of_cons).
  constructor; cbn; try done.
  - intros t. rewrite Hin. destruct (decide (t = o)) as [->|Hto]; [rewrite fn_lookup_insert; tauto|]. rewrite fn_lookup_insert_ne by done.
    destruct (decide (t = x)) as [->|Htx]; [rewrite fn_lookup_insert; naive_solver|]. rewrite fn_lookup_insert_ne, Hrd, elem_of_cons by done. naive_solver.
  - intros t. destruct (decide (t = o)) as [->|Hto]; [rewrite fn_lookup_insert; naive_solver|]. rewrite fn_lookup_insert_ne by done.
    destruct (decide (t = x)) as [->|Htx]; [by rewrite fn_lookup_insert|]. rewrite fn_lookup_insert_ne, Hc by done. naive_solver.
  - intros t Hin'. apply Ht. rewrite !elem_of_cons in *. rewrite Hin in Hin'. naive_solver.
  - rewrite !elem_of_cons in *. rewrite Hin. naive_solver.
Qed.

Lemma current_not_ready s l : rep s l -> current s ∉ l /\ state s (current s) = CH_STATE_CURRENT.
Proof.
  intros [_ _ Hrd Hc _ _]. assert (state s (current s) = CH_STATE_CURRENT) as E by by apply Hc. split; [|done]. intros H%Hrd. congruence.
Qed.

Lemma reschedule_spec (behind : bool) fuel s x r : rep s (x :: r) -> (length ts < fuel)%nat ->
  exists s', (if behind then sch_reschedule_behind pr R fuel s else sch_reschedule_ahead pr R fuel s) = Some s' /\ current s' = x /\
    rep s' (if behind then ch_sch_prio_insert pr r (current s) else insert_ahead pr r (current s)).
Proof.
  intros Hrep Hf. destruct (current_not_ready _ _ Hrep) as [Hnr Hst]. pose proof (rep_length _ _ Hrep) as Hlen. cbn in Hlen.
  destruct (pick_spec s x r (p_ring _ _ Hrep)) as (h1 & E1 & Hr1).
  assert (current s ∈ ts) as Hcts by (apply (p_ts _ _ Hrep); by left). apply not_elem_of_cons in Hnr as [Hcx Hcr].
  pose proof (p_sorted _ _ Hrep) as Hso. apply StronglySorted_inv in Hso as [Hso _].
  unfold sch_reschedule_behind, sch_reschedule_ahead. rewrite E1. set (s1 := Sched h1 x _).
  assert (state s1 (current s) <> CH_STATE_READY) as Hs1 by (cbn; rewrite fn_lookup_insert_ne by done; congruence).
  destruct behind.
  - destruct (behind_spec fuel s1 r (current s) Hr1 Hcr Hcts Hs1) as (h2 & -> & Hr2); [lia|]. eexists. split; [done|]. split; [done|].
    apply (rep_swap s _ x r); try done; [by apply prio_insert_sorted|apply prio_insert_perm].
  - destruct (ahead_spec fuel s1 r (current s) Hr1 Hcr Hcts Hs1) as (h2 & -> & Hr2); [lia|]. eexists. split; [done|]. split; [done|].
    apply (rep_swap s _ x r); try done; [by apply insert_ahead_sorted|apply insert_ahead_perm].
Qed.

Lemma ready_rep fuel s l t : rep s l -> t ∈ ts -> state s t = CH_STATE_WAITING -> (length ts < fuel)%nat ->
  exists s', sch_ready_behind pr R fuel s t = Some s' /\ current s' = current s /\ rep s' (ch_sch_prio_insert pr l t).
Proof.
  intros Hrep Ht Hst Hf. pose proof (rep_length _ _ Hrep) as Hlen. destruct Hrep as [Hring Hs Hrd Hc Hts Hi].
  assert (t ∉ l) as Hl by (intros H%Hrd; congruence). assert (t <> current s) as Htc by (intros H%Hc; congruence).
  destruct (behind_spec fuel s l t Hring Hl Ht) as (h' & -> & Hr'); [congruence|lia|]. eexists. split; [done|]. split; [done|].
  assert (forall u, u ∈ ch_sch_prio_insert pr l t <-> u = t \/ u ∈ l) as Hin by (intros u; by rewrite prio_insert_perm, elem_of_cons).
  constructor; cbn; try done; [by apply prio_insert_sorted| | | |].
  - intros u. rewrite Hin. destruct (decide (u = t)) as [->|]; [rewrite fn_lookup_insert; tauto|]. rewrite fn_lookup_insert_ne, Hrd by done. tauto.
  - intros u. destruct (decide (u = t)) as [->|]; [rewrite fn_lookup_insert; done|]. by rewrite fn_lookup_insert_ne, Hc.
  - intros u. rewrite elem_of_cons, Hin. intros [->|[->|Hu]]; [apply Hts; by left|done|apply Hts; by right].
  - apply elem_of_cons in Hi as [->|Hi]; [by left|]. right. apply Hin. by right.
Qed.

Lemma sleep_rep s l : rep s l -> current s <> idle ->
  exists s' x r, l = x :: r /\ chSchGoSleepS R idle s = Some s' /\ current s' = x /\ rep s' r.
Proof.
  intros Hrep Hni. destruct (current_not_ready _ _ Hrep) as [Hnr _]. pose proof Hrep as [Hring Hs Hrd Hc Hts Hi]. apply elem_of_cons in Hi as [Hi|Hi]; [done|].
  destruct l as [|x r]; [by apply elem_of_nil in Hi|]. unfold chSchGoSleepS. rewrite (proj2 (Z.eqb_neq _ _)) by done.
  destruct (pick_spec (set_state s (current s) CH_STATE_WAITING) x r Hring) as (h' & -> & Hr').
  eexists _, x, r. split; [done|]. split; [done|]. split; [done|]. apply not_elem_of_cons in Hnr as [Hcx Hcr].
  destruct Hring as [_ Hn]. apply NoDup_cons in Hn as [_ Hn]. apply NoDup_cons in Hn as [Hx Hn].
  constructor; cbn; try done.
  - by apply StronglySorted_inv in Hs as [? _].
  - intros t. destruct (decide (t = x)) as [->|Htx]; [rewrite fn_lookup_insert; naive_solver|]. rewrite fn_lookup_insert_ne by done.
    destruct (decide (t = current s)) as [->|]; [rewrite fn_lookup_insert; naive_solver|]. rewrite fn_lookup_insert_ne, Hrd, elem_of_cons by done. naive_solver.
  - intros t. destruct (decide (t = x)) as [->|Htx]; [by rewrite fn_lookup_insert|]. rewrite fn_lookup_insert_ne by done.
    destruct (decide (t = current s)) as [->|]; [rewrite fn_lookup_insert; naive_solver|]. rewrite fn_lookup_insert_ne, Hc by done. naive_solver.
  - intros t Ht. apply Hts. by right.
Qed.

Lemma wakeup_rep fuel s l t : rep s l -> t ∈ ts -> state s t = CH_STATE_WAITING -> (length ts < fuel)%nat ->
  firstprio pr R s <= pr (current s) -> exists s' l', chSchWakeupS pr R fuel s t = Some s' /\ rep s' l' /\ pr (current s') = Z.max (pr (current s)) (pr t).
Proof.
  intros Hrep Ht Hst Hf Ho. unfold chSchWakeupS. rewrite (proj2 (Z.leb_le (firstprio pr R s) _)) by done. rewrite orb_true_r.
  destruct (Z.leb_spec (pr t) (pr (current s))) as [Hle|Hlt].
  - destruct (ready_rep fuel s l t Hrep Ht Hst Hf) as (s' & -> & E & Hr'). do 2 eexists. split; [done|]. split; [done|]. rewrite E. lia.
  - destruct (current_not_ready _ _ Hrep) as [Hnr Hcs]. pose proof (rep_length _ _ Hrep) as Hlen. destruct Hrep as [Hring Hs Hrd Hc Hts Hi].
    assert (t ∉ l) as Hl by (intros H%Hrd; congruence). assert (t <> current s) as Htc by (intros H%Hc; congruence).
    destruct (ahead_spec fuel s l (current s) Hring Hnr) as (h' & -> & Hr'); [apply Hts; by left|congruence|lia|]. cbn [mbind option_bind].
    eexists _, (insert_ahead pr l (current s)). split; [done|]. split; [|cbn; lia].
    assert (forall u, u ∈ insert_ahead pr l (current s) <-> u = current s \/ u ∈ l) as Hin by (intros u; by rewrite insert_ahead_perm, elem_of_cons).
    constructor; cbn; try done; [by apply insert_ahead_sorted| | | |].
    + intros u. rewrite Hin. destruct (decide (u = t)) as [->|]; [rewrite fn_lookup_insert; naive_solver|]. rewrite fn_lookup_insert_ne by done.
      destruct (decide (u = current s)) as [->|]; [rewrite fn_lookup_insert; tauto|]. rewrite fn_lookup_insert_ne, Hrd by done. tauto.
    + intros u. destruct (decide (u = t)) as [->|]; [by rewrite fn_lookup_insert|]. rewrite fn_lookup_insert_ne by done.
      destruct (decide (u = current s)) as [->|]; [rewrite fn_lookup_insert; naive_solver|]. rewrite fn_lookup_insert_ne, Hc by done. naive_solver.
    + intros u. rewrite elem_of_cons, Hin. intros [->|[->|Hu]]; [done|apply Hts; by left|apply Hts; by right].
    + right. apply Hin. by apply elem_of_cons in Hi.
Qed.

Lemma sorted_head l x r : sorted pr l -> l = x :: r -> forall t, t ∈ l -> pr t <= pr x.
Proof. intros Hs -> t [->|Ht]%elem_of_cons; [done|]. apply StronglySorted_inv in Hs as [_ Hs]. by eapply Forall_forall in Hs. Qed.

(** After it, the running thread is the most urgent; nothing happens if it was before. *)
Lemma resched_rep fuel s l : rep s l -> (length ts < fuel)%nat -> exists s' l', chSchRescheduleS pr R fuel s = Some s' /\ rep s' l' /\
  current s' :: l' ≡ₚ current s :: l /\ (forall t, t ∈ l' -> pr t <= pr (current s')) /\
  ((forall t, t ∈ l -> pr t <= pr (current s)) -> s' = s).
Proof.
  intros Hrep Hf. unfold chSchRescheduleS. rewrite (first_spec s l) by apply (p_ring _ _ Hrep). pose proof (p_sorted _ _ Hrep) as Hso.
  assert (1 <= pr (current s)) as H1 by (apply Hpr, (p_ts _ _ Hrep); by left).
  destruct l as [|x r].
  - rewrite (proj2 (Z.ltb_ge _ _)) by lia. exists s, []. split_and!; try done. intros t Ht. by apply elem_of_nil in Ht.
  - destruct (Z.ltb_spec (pr (current s)) (pr x)) as [Hlt|Hge].
    + destruct (reschedule_spec false fuel s x r Hrep Hf) as (s' & -> & Ec & Hr'). exists s', (insert_ahead pr r (current s)).
      assert (insert_ahead pr r (current s) ≡ₚ current s :: r) as Hp by apply insert_ahead_perm. split; [done|]. split; [done|]. rewrite Ec. split; [|split].
      * rewrite Hp. apply Permutation_swap.
      * intros t. rewrite Hp, elem_of_cons. intros [->|Ht]; [lia|]. apply (sorted_head (x :: r) x r Hso eq_refl). by right.
      * intros H. specialize (H x ltac:(by left)). lia.
    + exists s, (x :: r). split_and!; try done. intros t Ht. pose proof (sorted_head (x :: r) x r Hso eq_refl t Ht). lia.
Qed.

(** A thread that yields goes behind those of its priority. *)
Lemma yield_rep fuel s l : rep s l -> (length ts < fuel)%nat -> exists s' l', chSchDoYieldS pr R fuel s = Some s' /\ rep s' l' /\
  current s' :: l' ≡ₚ current s :: l /\
  (forall x r, l = x :: r -> pr (current s) <= pr x -> current s' = x /\ l' = ch_sch_prio_insert pr r (current s)).
Proof.
  intros Hrep Hf. unfold chSchDoYieldS. rewrite (first_spec s l) by apply (p_ring _ _ Hrep).
  assert (1 <= pr (current s)) as H1 by (apply Hpr, (p_ts _ _ Hrep); by left).
  destruct l as [|x r].
  - rewrite (proj2 (Z.leb_gt _ _)) by lia. exists s, []. split_and!; try done.
  - destruct (Z.leb_spec (pr (current s)) (pr x)) as [Hle|Hgt].
    + destruct (reschedule_spec true fuel s x r Hrep Hf) as (s' & -> & Ec & Hr'). exists s', (ch_sch_prio_insert pr r (current s)). split; [done|]. split; [done|]. split.
      * rewrite Ec, prio_insert_perm. apply Permutation_swap.
      * intros y r' [= <- <-] _. done.
    + exists s, (x :: r). split_and!; try done. intros y r' [= <- <-]. lia.
Qed.

(** ** The kernel at work *)

Definition fuel : nat := S (length ts).

Inductive sch_step : sched -> sched -> Prop :=
| k_ready s s' t : t ∈ ts -> state s t = CH_STATE_WAITING -> chSchReadyI pr R fuel s t = Some s' -> sch_step s s'
| k_sleep s s' : chSchGoSleepS R idle s = Some s' -> sch_step s s'
| k_wakeup s s' t : t ∈ ts -> state s t = CH_STATE_WAITING -> chSchWakeupS pr R fuel s t = Some s' -> sch_step s s'
| k_reschedule s s' : chSchRescheduleS pr R fuel s = Some s' -> sch_step s s'
| k_preemption s s' : chSchPreemption pr R fuel s = Some s' -> sch_step s s'
| k_do_preemption s s' : chSchIsPreemptionRequired pr R s = true -> chSchDoPreemption pr R fuel s = Some s' -> sch_step s s'
| k_yield s s' : chSchDoYieldS pr R fuel s = Some s' -> sch_step s s'.

(** The idle thread runs, the others are still to be started. *)
Definition sch_init (h : heap) : sched := Sched (ch_pqueue_init h R) idle (fun t => if decide (t = idle) then CH_STATE_CURRENT else CH_STATE_WAITING).

Lemma sch_step_rep s s' l : sch_step s s' -> rep s l -> exists l', rep s' l'.
Proof.
  intros Hst Hrep. assert (length ts < fuel)%nat as Hf by (unfold fuel; lia).
  destruct Hst as [s s' t Ht Hw E|s s' E|s s' t Ht Hw E|s s' E|s s' E|s s' Hq E|s s' E].
  - destruct (ready_rep fuel s l t Hrep Ht Hw Hf) as (s1 & E1 & _ & H1). unfold chSchReadyI in E. rewrite E1 in E. injection E as <-. eauto.
  - destruct (decide (current s = idle)) as [Ei|Hni]; [unfold chSchGoSleepS in E; rewrite (proj2 (Z.eqb_eq _ _) Ei) in E; done|].
    destruct (sleep_rep s l Hrep Hni) as (s1 & x & r & _ & E1 & _ & H1). rewrite E1 in E. injection E as <-. eauto.
  - assert (firstprio pr R s <= pr (current s)) as Ho.
    { unfold chSchWakeupS in E. destruct (_ || _) eqn:Eo; [|done]. apply orb_prop in Eo as [Eo|Eo]; [|by apply Z.leb_le].
      apply Z.eqb_eq in Eo. unfold firstprio. rewrite Eo, HR. specialize (Hpr (current s) (p_ts _ _ Hrep _ ltac:(by left))). lia. }
    destruct (wakeup_rep fuel s l t Hrep Ht Hw Hf Ho) as (s1 & l1 & E1 & H1 & _). rewrite E1 in E. injection E as <-. eauto.
  - destruct (resched_rep fuel s l Hrep Hf) as (s1 & l1 & E1 & H1 & _). rewrite E1 in E. injection E as <-. eauto.
  - destruct (resched_rep fuel s l Hrep Hf) as (s1 & l1 & E1 & H1 & _). change (chSchRescheduleS pr R fuel s = Some s') in E. rewrite E1 in E. injection E as <-. eauto.
  - destruct (resched_rep fuel s l Hrep Hf) as (s1 & l1 & E1 & H1 & _). unfold chSchRescheduleS in E1. unfold chSchIsPreemptionRequired in Hq. rewrite Hq in E1.
    change (chSchDoPreemption pr R fuel s) with (sch_reschedule_ahead pr R fuel s) in E. rewrite E1 in E. injection E as <-. eauto.
  - destruct (yield_rep fuel s l Hrep Hf) as (s1 & l1 & E1 & H1 & _). rewrite E1 in E. injection E as <-. eauto.
Qed.

(** C15: The scheduler runs the most urgent thread and loses none.  After any sequence of calls of the
    kernel, the links of the ready list form a ring ordered by priority that holds exactly the ready
    threads; making a waiting thread ready never fails; a thread that goes to sleep is replaced by the
    first of the most urgent ready threads, of which there always is one; a reschedule keeps all threads and leaves
    one running that none is more urgent than, and changes nothing if that holds already; and a yield puts the
    running thread behind those of its priority. *)
Theorem sched_runs_highest (h : heap) (s : sched) (Hi : idle ∈ ts) (Hr : rtc sch_step (sch_init h) s) :
  exists l, rep s l /\
    (forall t, t ∈ ts -> state s t = CH_STATE_WAITING -> is_Some (chSchReadyI pr R fuel s t)) /\
    (current s <> idle -> exists s' x r, l = x :: r /\ chSchGoSleepS R idle s = Some s' /\ current s' = x /\ rep s' r) /\
    (exists s' l', chSchRescheduleS pr R fuel s = Some s' /\ rep s' l' /\ current s' :: l' ≡ₚ current s :: l /\
       (forall t, t ∈ l' -> pr t <= pr (current s')) /\ ((forall t, t ∈ l -> pr t <= pr (current s)) -> s' = s)) /\
    (exists s' l', chSchDoYieldS pr R fuel s = Some s' /\ rep s' l' /\ current s' :: l' ≡ₚ current s :: l /\
       (forall x r, l = x :: r -> pr (current s) <= pr x -> current s' = x /\ l' = ch_sch_prio_insert pr r (current s))).
Proof.
  assert (exists l, rep s l) as [l Hrep].
  { assert (rep (sch_init h) []) as H0.
    { constructor; cbn; try done.
      - split; [|apply NoDup_singleton]. cbn. unfold upd. by rewrite Z.eqb_refl.
      - constructor.
      - intros t. split; [by case_decide|intros H; by apply elem_of_nil in H].
      - intros t. by case_decide.
      - intros t [->|H]%elem_of_cons; [done|by apply elem_of_nil in H].
      - by left. }
    revert H0. generalize ([] : list Z). induction Hr as [|x y z Hst _ IH]; intros l H0; [by exists l|].
    destruct (sch_step_rep _ _ _ Hst H0) as [l' H']. by eapply IH. }
  assert (length ts < fuel)%nat as Hf by (unfold fuel; lia).
  exists l. split; [done|]. split; [|split; [|split]].
  - intros t Ht Hw. destruct (ready_rep fuel s l t Hrep Ht Hw Hf) as (s' & E & _). by exists s'.
  - by apply sleep_rep.
  - by apply resched_rep.
  - by apply yield_rep.
Qed.
End Spec.

(** Threads 1 (idle), 2 and 3; the header is 0. *)
Definition demo_h : heap := Heap id id id.
Definition demo_s0 : sched := sch_init 0 1 demo_h.
Definition demo_s1 : sched := default demo_s0 (chSchReadyI id 0 4 demo_s0 2).
Definition demo_s2 : sched := default demo_s1 (chSchReadyI id 0 4 demo_s1 3).

Lemma sched_runs_highest_witness : exists s', chSchRescheduleS id 0 4 demo_s2 = Some s' /\ current s' = 3.
Proof.
  destruct (sched_runs_highest id 0 1 [1; 2; 3] eq_refl) with (h := demo_h) (s := demo_s2) as (l & _ & _ & _ & (s' & l' & E & _ & _ & _) & _).
  - intros t Ht. apply list_elem_of_In in Ht. cbn in Ht. unfold id. lia.
  - intros H%list_elem_of_In. cbn in H. lia.
  - by left.
  - apply (rtc_l _ _ demo_s1); [apply (k_ready _ _ _ _ _ _ 2); [by right; left|reflexivity|reflexivity]|].
    apply rtc_once, (k_ready _ _ _ _ _ _ 3); [by right; right; left|reflexivity|reflexivity].
  - exists s'. split; [exact E|]. vm_compute in E. injection E as <-. reflexivity.
Defined.
