(* ===== verification/Events.v ===== *)
(** * Events: event flags between threads (ext/ChibiOS_21.11.3/os/rt/src/chevents.c), and the
    wait of the main thread on them (src/main.cpp, DispatchEvents)

    A source has a list of listeners, newest first; a listener belongs to a thread and
    collects flags; a thread has a mask of pending events.  A blocking wait is resumable, as in
    Mailbox.  Two results: no thread sleeps while the condition it waits for holds, and the main
    loop receives every flag that is broadcast, none of them late. *)

From stdpp Require Import gmap.
From S2P Require Import Prelude Mailbox.

(** A thread waits for any ([WtOr]) or all ([WtAnd]) events of a mask; a woken thread has
    its message and has not run yet. *)
Inductive tstate := TRun | WtOr (ewmask : Z) | WtAnd (ewmask : Z) | TReady (rdymsg : Z).

Record thread := Thread { epending : Z; tst : tstate }.

Record listener := Listener { lthread : Z; levents : Z; lflags : Z; wflags : Z }.

Record world := World { threads : gmap Z thread; source : list (Z * listener) }.

Definition ALL_FLAGS : Z := 2 ^ 32 - 1.
Definition EVENT_MASK (eid : Z) : Z := u32 (Z.shiftl 1 eid).

(** ** The listeners of a source *)

Definition chEvtRegisterMaskWithFlagsI (w : world) (self elp events wfl : Z) : world :=
  World (threads w) ((elp, Listener self events 0 wfl) :: source w).

Definition chEvtRegisterMask (w : world) (self elp events : Z) : world :=
  chEvtRegisterMaskWithFlagsI w self elp events ALL_FLAGS.

Definition chEvtRegister (w : world) (self elp event : Z) : world :=
  chEvtRegisterMask w self elp (EVENT_MASK event).

Fixpoint unlink (l : list (Z * listener)) (elp : Z) : list (Z * listener) :=
  match l with
  | [] => []
  | x :: r => if fst x =? elp then r else x :: unlink r elp
  end.

Definition chEvtUnregister (w : world) (elp : Z) : world := World (threads w) (unlink (source w) elp).

Definition chEvtIsListeningI (w : world) : bool := match source w with [] => false | _ :: _ => true end.

(** ** Signalling *)

(** [chEvtSignalI] on the thread it names: the events are added, and the thread is made
    ready if it waits for them. *)
Definition signal_thread (t : thread) (events : Z) : thread :=
  let e := Z.lor (epending t) events in
  let wake := match tst t with
              | WtOr m => negb (Z.land e m =? 0)
              | WtAnd m => Z.land e m =? m
              | _ => false
              end in
  Thread e (if wake then TReady MSG_OK else tst t).

Definition chEvtSignalI (th : gmap Z thread) (tp events : Z) : gmap Z thread :=
  match th !! tp with Some t => <[tp := signal_thread t events]> th | None => th end.

Definition add_flags (e : listener) (flags : Z) : listener :=
  Listener (lthread e) (levents e) (Z.lor (lflags e) flags) (wflags e).

Definition notifies (e : listener) (flags : Z) : bool :=
  (flags =? 0) || negb (Z.land flags (wflags e) =? 0).

Fixpoint broadcast_loop (th : gmap Z thread) (l : list (Z * listener)) (flags : Z) :
    gmap Z thread * list (Z * listener) :=
  match l with
  | [] => (th, [])
  | (x, e) :: l =>
      let th := if notifies e flags then chEvtSignalI th (lthread e) (levents e) else th in
      let '(th, l) := broadcast_loop th l flags in (th, (x, add_flags e flags) :: l)
  end.

Definition chEvtBroadcastFlagsI (w : world) (flags : Z) : world :=
  let '(th, l) := broadcast_loop (threads w) (source w) flags in World th l.

(** ** What a thread does to itself *)

Definition chEvtGetAndClearEventsI (t : thread) (events : Z) : thread * Z :=
  (Thread (Z.ldiff (epending t) events) (tst t), Z.land (epending t) events).

Definition chEvtAddEventsI (t : thread) (events : Z) : thread * Z :=
  let e := Z.lor (epending t) events in (Thread e (tst t), e).

(** Take the flags of listener [elp]. *)
Fixpoint get_flags (l : list (Z * listener)) (elp : Z) : list (Z * listener) * Z :=
  match l with
  | [] => ([], 0)
  | (x, e) :: r =>
      if x =? elp then ((x, Listener (lthread e) (levents e) 0 (wflags e)) :: r, Z.land (lflags e) (wflags e))
      else let '(r, f) := get_flags r elp in ((x, e) :: r, f)
  end.

Definition chEvtGetAndClearFlags (w : world) (elp : Z) : world * Z :=
  let '(l, f) := get_flags (source w) elp in (World (threads w) l, f).

(** The identifiers of the handlers [chEvtDispatch] calls, in order; an event mask has 32 bits. *)
Fixpoint dispatch_loop (n : nat) (events eid : Z) : list Z :=
  match n with
  | O => []
  | S n =>
      if events =? 0 then []
      else if negb (Z.land events (EVENT_MASK eid) =? 0)
      then eid :: dispatch_loop n (Z.ldiff events (EVENT_MASK eid)) (eid + 1)
      else dispatch_loop n events (eid + 1)
  end.

Definition chEvtDispatch (events : Z) : list Z := dispatch_loop 33 events 0.

(** ** Waiting *)

Inductive wres := WReturn (m : Z) | WSleeps.

(** The lowest event of a mask: [m ^= m & (m - 1)]. *)
Definition lowest (m : Z) : Z := Z.lxor m (Z.land m (u32 (m - 1))).

(** [take] picks what is returned of the events that are there. *)
Definition wait_or (take : Z -> Z) (t : thread) (events timeout : Z) (resumed : option Z) : thread * wres :=
  let done m := let r := take m in (Thread (Z.ldiff (epending t) r) TRun, WReturn r) in
  match resumed with
  | None =>
      let m := Z.land (epending t) events in
      if m =? 0 then
        if timeout =? TIME_IMMEDIATE then (t, WReturn 0) else (Thread (epending t) (WtOr events), WSleeps)
      else done m
  | Some rdymsg =>
      if rdymsg <? MSG_OK then (Thread (epending t) TRun, WReturn 0) else done (Z.land (epending t) events)
  end.

Definition chEvtWaitOneTimeout := wait_or lowest.
Definition chEvtWaitAnyTimeout := wait_or (fun m => m).

Definition chEvtWaitAllTimeout (t : thread) (events timeout : Z) (resumed : option Z) : thread * wres :=
  let done := (Thread (Z.ldiff (epending t) events) TRun, WReturn events) in
  match resumed with
  | None =>
      if negb (Z.land (epending t) events =? events) then
        if timeout =? TIME_IMMEDIATE then (t, WReturn 0) else (Thread (epending t) (WtAnd events), WSleeps)
      else done
  | Some rdymsg => if rdymsg <? MSG_OK then (Thread (epending t) TRun, WReturn 0) else done
  end.

(** [__sch_wakeup] for a thread that waits for events. *)
Definition event_timeout (t : thread) : thread := Thread (epending t) (TReady MSG_TIMEOUT).

(** The waits without a time limit. *)
Definition TIME_INFINITE : Z := 2 ^ 32 - 1.
Definition chEvtWaitOne (t : thread) (events : Z) (resumed : bool) : thread * wres :=
  chEvtWaitOneTimeout t events TIME_INFINITE (if resumed then Some MSG_OK else None).
Definition chEvtWaitAny (t : thread) (events : Z) (resumed : bool) : thread * wres :=
  chEvtWaitAnyTimeout t events TIME_INFINITE (if resumed then Some MSG_OK else None).
Definition chEvtWaitAll (t : thread) (events : Z) (resumed : bool) : thread * wres :=
  chEvtWaitAllTimeout t events TIME_INFINITE (if resumed then Some MSG_OK else None).

(** ** No thread sleeps while its condition holds *)

Definition quiet (t : thread) : Prop :=
  match tst t with WtOr m => Z.land (epending t) m = 0 | WtAnd m => Z.land (epending t) m <> m | _ => True end.

(** What a running thread does to itself, and a woken one when it goes on. *)
Inductive self_op (t : thread) : thread -> Prop :=
  | o_clear e : self_op t (chEvtGetAndClearEventsI t e).1
  | o_add e : self_op t (chEvtAddEventsI t e).1
  | o_one e d : self_op t (chEvtWaitOneTimeout t e d None).1
  | o_any e d : self_op t (chEvtWaitAnyTimeout t e d None).1
  | o_all e d : self_op t (chEvtWaitAllTimeout t e d None).1.

Inductive resume_op (t : thread) (r : Z) : thread -> Prop :=
  | r_one e d : resume_op t r (chEvtWaitOneTimeout t e d (Some r)).1
  | r_any e d : resume_op t r (chEvtWaitAnyTimeout t e d (Some r)).1
  | r_all e d : resume_op t r (chEvtWaitAllTimeout t e d (Some r)).1.

Definition asleep (t : thread) : Prop := match tst t with WtOr _ | WtAnd _ => True | _ => False end.

Inductive ev_step : world -> world -> Prop :=
  | x_broadcast w f : ev_step w (chEvtBroadcastFlagsI w f)
  | x_signal w tp e : ev_step w (World (chEvtSignalI (threads w) tp e) (source w))
  | x_register w self elp e f : ev_step w (chEvtRegisterMaskWithFlagsI w self elp e f)
  | x_unregister w elp : ev_step w (chEvtUnregister w elp)
  | x_flags w elp : ev_step w (chEvtGetAndClearFlags w elp).1
  | x_self w x t t' : threads w !! x = Some t -> tst t = TRun -> self_op t t' ->
      ev_step w (World (<[x := t']> (threads w)) (source w))
  | x_resume w x t r t' : threads w !! x = Some t -> tst t = TReady r -> resume_op t r t' ->
      ev_step w (World (<[x := t']> (threads w)) (source w))
  | x_timeout w x t : threads w !! x = Some t -> asleep t ->
      ev_step w (World (<[x := event_timeout t]> (threads w)) (source w)).

(** What signals can do to a thread. *)
Record signalled (t t' : thread) : Prop := {
  sg_keep b : Z.testbit (epending t) b = true -> Z.testbit (epending t') b = true;
  sg_quiet : quiet t -> quiet t';
  sg_state : tst t' = tst t \/ (asleep t /\ tst t' = TReady MSG_OK);
}.

Lemma signalled_refl t : signalled t t.
Proof. split; auto. Qed.

Lemma signalled_trans a b c : signalled a b -> signalled b c -> signalled a c.
Proof.
  intros [K1 Q1 S1] [K2 Q2 S2]. split; auto. unfold asleep in *.
  destruct S1 as [E1|[A1 E1]]; [rewrite E1 in S2; done|]. right. split; [done|].
  rewrite E1 in S2. naive_solver.
Qed.

Lemma signal_thread_ok t e : signalled t (signal_thread t e).
Proof.
  split.
  - intros b Hb. cbn. rewrite Z.lor_spec, Hb. done.
  - unfold quiet, signal_thread. cbn. destruct (tst t) as [|m|m|r]; try done.
    + destruct (Z.eqb_spec (Z.land (Z.lor (epending t) e) m) 0); cbn; done.
    + destruct (Z.eqb_spec (Z.land (Z.lor (epending t) e) m) m); cbn; done.
  - unfold signal_thread, asleep. cbn. destruct (tst t); auto; case_match; auto.
Qed.

(** Every thread of [th] is in [th'] after signals only. *)
Definition signalled_all (th th' : gmap Z thread) : Prop :=
  forall x, match th !! x, th' !! x with
            | Some t, Some t' => signalled t t'
            | None, None => True
            | _, _ => False
            end.

Lemma signalled_all_refl th : signalled_all th th.
Proof. intros x. destruct (th !! x); [apply signalled_refl|done]. Qed.

Lemma signalled_all_trans a b c : signalled_all a b -> signalled_all b c -> signalled_all a c.
Proof.
  intros H1 H2 x. specialize (H1 x). specialize (H2 x).
  destruct (a !! x), (b !! x), (c !! x); try done. by eapply signalled_trans.
Qed.

Lemma signalI_ok th tp e : signalled_all th (chEvtSignalI th tp e).
Proof.
  unfold chEvtSignalI. destruct (th !! tp) as [t|] eqn:E; [|apply signalled_all_refl].
  intros x. destruct (decide (x = tp)) as [->|].
  - rewrite E, lookup_insert_eq. apply signal_thread_ok.
  - rewrite lookup_insert_ne by done. destruct (th !! x); [apply signalled_refl|done].
Qed.

Lemma broadcast_ok l f : forall th, signalled_all th (broadcast_loop th l f).1.
Proof.
  induction l as [|[x e] l IH]; intros th; cbn; [apply signalled_all_refl|].
  set (th1 := if notifies e f then _ else _). specialize (IH th1).
  destruct (broadcast_loop th1 l f) as [th2 l2]. cbn in *. eapply signalled_all_trans; [|exact IH].
  unfold th1. destruct (notifies e f); [apply signalI_ok|apply signalled_all_refl].
Qed.

Definition all_quiet (w : world) : Prop := forall x t, threads w !! x = Some t -> quiet t.

Lemma signalled_quiet w w' : signalled_all (threads w) (threads w') -> all_quiet w -> all_quiet w'.
Proof.
  intros Hs Hq x t' Hx. specialize (Hs x). rewrite Hx in Hs. destruct (threads w !! x) as [t|] eqn:E; [|done].
  apply (sg_quiet _ _ Hs). by eapply Hq.
Qed.

Lemma self_quiet t t' : tst t = TRun -> self_op t t' -> quiet t'.
Proof.
  intros Hr [e|e|e d|e d|e d]; unfold quiet; cbn; try (by rewrite Hr).
  - destruct (Z.eqb_spec (Z.land (epending t) e) 0); [|done]. destruct (d =? TIME_IMMEDIATE); cbn; [by rewrite Hr|done].
  - destruct (Z.eqb_spec (Z.land (epending t) e) 0); [|done]. destruct (d =? TIME_IMMEDIATE); cbn; [by rewrite Hr|done].
  - destruct (Z.eqb_spec (Z.land (epending t) e) e); [done|]. destruct (d =? TIME_IMMEDIATE); cbn; [by rewrite Hr|done].
Qed.

Lemma ev_step_quiet w w' : ev_step w w' -> all_quiet w -> all_quiet w'.
Proof.
  intros Hst Hq.
  assert (forall x t', quiet t' -> all_quiet (World (<[x := t']> (threads w)) (source w))) as Hins.
  { intros x t' Ht y u. cbn. destruct (decide (y = x)) as [->|]; [rewrite lookup_insert_eq; naive_solver|].
    rewrite lookup_insert_ne by done. apply Hq. }
  destruct Hst as [w f|w tp e|w self elp e f|w elp|w elp|w x t t' Hx Hr Ho|w x t r t' Hx Hr Ho|w x t Hx Ha].
  - apply (signalled_quiet w); [|done]. unfold chEvtBroadcastFlagsI.
    pose proof (broadcast_ok (source w) f (threads w)) as H. by destruct (broadcast_loop _ _ _).
  - apply (signalled_quiet w); [|done]. apply signalI_ok.
  - done.
  - done.
  - unfold chEvtGetAndClearFlags. by destruct (get_flags _ _).
  - apply Hins. by apply (self_quiet t).
  - apply Hins. destruct Ho; unfold quiet; cbn; by destruct (r <? MSG_OK).
  - by apply Hins.
Qed.

(** No thread sleeps while the events it waits for are there.  After any sequence of
    broadcasts, signals, registrations, waits and time-outs by threads that all run at the
    beginning, a thread that waits for any event of a mask has none of them pending, and a
    thread that waits for all of them lacks one. *)
Theorem evt_no_lost_wakeup (w0 w : world) (x : Z) (t : thread)
    (H0 : forall x t, threads w0 !! x = Some t -> tst t = TRun) (Hr : rtc ev_step w0 w)
    (Hx : threads w !! x = Some t) :
  match tst t with
  | WtOr m => Z.land (epending t) m = 0
  | WtAnd m => Z.land (epending t) m <> m
  | _ => True
  end.
Proof.
  enough (all_quiet w) as Hq by (apply (Hq x t Hx)).
  assert (all_quiet w0) as Hq0 by (intros y u Hy; unfold quiet; by rewrite (H0 y u Hy)).
  clear H0 Hx. induction Hr as [|a b c Hst _ IH]; [done|]. apply IH. by eapply ev_step_quiet.
Qed.

Lemma evt_no_lost_wakeup_witness : Z.land 2 1 = 0.
Proof.
  pose (w0 := World (<[7 := Thread 0 TRun]> ∅) []).
  pose (w1 := World (<[7 := Thread 0 (WtOr 1)]> (threads w0)) []).
  pose (w2 := World (chEvtSignalI (threads w1) 7 2) []).
  refine (evt_no_lost_wakeup w0 w2 7 (Thread 2 (WtOr 1)) _ _ eq_refl).
  - intros x t. cbn. intros [[_ <-]|[_ ?]]%lookup_insert_Some; [reflexivity|]. discriminate.
  - eapply rtc_l; [|eapply rtc_l; [|apply rtc_refl]].
    + refine (x_self w0 7 (Thread 0 TRun) _ eq_refl eq_refl (o_any _ 1 TIME_INFINITE)).
    + exact (x_signal w1 7 2).
Defined.

(** ** The main thread's event loop *)

Definition GLOBAL : Z := 0.

(** In front of the wait; asleep in it; back with the events it returned. *)
Inductive loop_pc := LWait | LAsleep | LGot (events : Z).

(** [sent]: the flags broadcast since the loop last took its flags. *)
Record loop_sys := Loop { lw : world; lpc : loop_pc; sent : Z }.

Section Dispatch.
(** The main thread and its listener. *)
Context (me elp : Z).

Definition pc_of (r : wres) : loop_pc := match r with WReturn m => LGot m | WSleeps => LAsleep end.

Definition put_thread (w : world) (x : Z) (t : thread) : world := World (<[x := t]> (threads w)) (source w).

(** The call of [chEvtWaitAnyTimeout] in [DispatchEvents], or its continuation. *)
Definition loop_wait (w : world) (t : thread) (resumed : option Z) : world * loop_pc :=
  let '(t, r) := chEvtWaitAnyTimeout t (EVENT_MASK GLOBAL) TIME_INFINITE resumed in (put_thread w me t, pc_of r).

(** The rest of the body: the flags that are handed to the services, if the event is there. *)
Definition loop_take (w : world) (events : Z) : world * option Z :=
  if negb (Z.land events (EVENT_MASK GLOBAL) =? 0) then
    let '(w, f) := chEvtGetAndClearFlags w elp in (w, Some f)
  else (w, None).

Fixpoint find_listener (l : list (Z * listener)) : option listener :=
  match l with [] => None | (x, e) :: l => if x =? elp then Some e else find_listener l end.

(** Steps of anybody else that touch neither the main thread nor its listener. *)
Definition elsewhere (w w' : world) : Prop :=
  threads w' !! me = threads w !! me /\ find_listener (source w') = find_listener (source w).

(** The label: the flags the loop hands to the services. *)
Inductive loop_step : loop_sys -> option Z -> loop_sys -> Prop :=
  | l_broadcast s f : 0 < f < 2 ^ 32 ->
      loop_step s None (Loop (chEvtBroadcastFlagsI (lw s) f) (lpc s) (Z.lor (sent s) f))
  | l_signal s e : loop_step s None (Loop (World (chEvtSignalI (threads (lw s)) me e) (source (lw s))) (lpc s) (sent s))
  | l_other s w : elsewhere (lw s) w -> loop_step s None (Loop w (lpc s) (sent s))
  | l_wait s t : lpc s = LWait -> threads (lw s) !! me = Some t ->
      loop_step s None (Loop (loop_wait (lw s) t None).1 (loop_wait (lw s) t None).2 (sent s))
  | l_resume s t r : lpc s = LAsleep -> threads (lw s) !! me = Some t -> tst t = TReady r ->
      loop_step s None (Loop (loop_wait (lw s) t (Some r)).1 (loop_wait (lw s) t (Some r)).2 (sent s))
  | l_take s m w f : lpc s = LGot m -> loop_take (lw s) m = (w, f) ->
      loop_step s f (Loop w LWait (match f with Some _ => 0 | None => sent s end)).

(** [chEvtRegister] by the running main thread. *)
Definition loop_init (w : world) : loop_sys := Loop (chEvtRegister w me elp GLOBAL) LWait 0.

Definition pc_ok (p : loop_pc) (t : thread) : Prop :=
  match p with
  | LAsleep => tst t = WtOr (EVENT_MASK GLOBAL) \/ tst t = TReady MSG_OK
  | _ => tst t = TRun
  end.

(** The flags of the listener are announced by the event, or just being taken. *)
Definition announced (p : loop_pc) (t : thread) : Prop :=
  Z.testbit (epending t) GLOBAL = true \/ exists m, p = LGot m /\ Z.testbit m GLOBAL = true.

Record loop_inv (s : loop_sys) : Prop := {
  li_state : exists t e, threads (lw s) !! me = Some t /\ find_listener (source (lw s)) = Some e /\
    lthread e = me /\ levents e = EVENT_MASK GLOBAL /\ wflags e = ALL_FLAGS /\ lflags e = sent s /\
    pc_ok (lpc s) t /\ quiet t /\ (sent s <> 0 -> announced (lpc s) t);
  li_range : 0 <= sent s < 2 ^ 32;
}.

Lemma mask_global t : Z.land t (EVENT_MASK GLOBAL) = if Z.testbit t GLOBAL then 1 else 0.
Proof.
  change (EVENT_MASK GLOBAL) with (Z.ones 1). rewrite Z.land_ones by lia. unfold GLOBAL.
  rewrite Z.bit0_odd, Zmod_odd. done.
Qed.

Lemma global_mask_bit : Z.testbit (EVENT_MASK GLOBAL) GLOBAL = true.
Proof. done. Qed.

Lemma find_broadcast l f : forall th e, find_listener l = Some e ->
  find_listener (broadcast_loop th l f).2 = Some (add_flags e f).
Proof.
  induction l as [|[x d] l IH]; intros th e; cbn; [done|].
  set (th1 := if notifies d f then _ else _). specialize (IH th1 e).
  destruct (broadcast_loop th1 l f) as [th2 l2]. cbn in *. destruct (x =? elp); [by intros [= ->]|done].
Qed.

(** A broadcast raises the event of every listener it concerns. *)
Lemma broadcast_raises l f : forall th t e, find_listener l = Some e -> lthread e = me -> notifies e f = true ->
  threads (World th l) !! me = Some t ->
  exists t', (broadcast_loop th l f).1 !! me = Some t' /\ signalled t t' /\
    forall b, Z.testbit (levents e) b = true -> Z.testbit (epending t') b = true.
Proof.
  induction l as [|[x d] l IH]; intros th t e; cbn; [done|]. intros Hf Hm Hn Ht.
  set (th1 := if notifies d f then _ else _).
  assert (signalled_all th th1) as Hs by (unfold th1; destruct (notifies d f); [apply signalI_ok|apply signalled_all_refl]).
  pose proof (Hs me) as Hs1. rewrite Ht in Hs1. destruct (th1 !! me) as [t1|] eqn:E1; [|done].
  destruct (x =? elp) eqn:Ex.
  - injection Hf as ->. pose proof (broadcast_ok l f th1 me) as Hb. rewrite E1 in Hb.
    destruct (broadcast_loop th1 l f) as [th2 l2]. cbn in *. destruct (th2 !! me) as [t2|]; [|done].
    exists t2. split; [done|]. split; [by eapply signalled_trans|]. intros b Hbit. apply (sg_keep _ _ Hb).
    unfold th1 in E1. rewrite Hn in E1. unfold chEvtSignalI in E1. rewrite Hm, Ht, lookup_insert_eq in E1.
    injection E1 as <-. cbn. rewrite Z.lor_spec, Hbit. apply orb_true_r.
  - destruct (IH th1 t1 e Hf Hm Hn E1) as (t2 & E2 & S2 & B2).
    destruct (broadcast_loop th1 l f) as [th2 l2]. cbn in *. exists t2. split; [done|]. split; [by eapply signalled_trans|done].
Qed.

Lemma pc_ok_signalled p t t' : signalled t t' -> pc_ok p t -> pc_ok p t'.
Proof.
  intros [_ _ [E|[A E]]]; unfold pc_ok, asleep in *; destruct p; rewrite E; auto; intros H; rewrite H in A; done.
Qed.

Lemma announced_signalled p t t' : signalled t t' -> announced p t -> announced p t'.
Proof. intros [K _ _] [H|H]; [left; auto|right; done]. Qed.
#[local] Hint Resolve pc_ok_signalled announced_signalled : core.

Lemma notifies_all e f : wflags e = ALL_FLAGS -> 0 < f < 2 ^ 32 -> notifies e f = true.
Proof.
  intros Hw Hf. unfold notifies. rewrite Hw. change ALL_FLAGS with (Z.ones 32).
  rewrite Z.land_ones, Z.mod_small by lia. destruct (Z.eqb_spec f 0); [lia|done].
Qed.

Lemma broadcast_inv s f : 0 < f < 2 ^ 32 -> loop_inv s ->
  loop_inv (Loop (chEvtBroadcastFlagsI (lw s) f) (lpc s) (Z.lor (sent s) f)).
Proof.
  intros Hf [(t & e & Ht & He & Hl & Hev & Hw & Hfl & Hpc & Hq & Han) Hr].
  destruct (broadcast_raises (source (lw s)) f (threads (lw s)) t e He Hl (notifies_all e f Hw Hf)) as (t' & Ht' & Hs & Hb); [done|].
  pose proof (find_broadcast (source (lw s)) f (threads (lw s)) e He) as He'.
  unfold chEvtBroadcastFlagsI. destruct (broadcast_loop _ _ _) as [th2 l2]. cbn in *.
  split; cbn; [|apply lor_small; lia].
  exists t', (add_flags e f). split_and!; try done; eauto.
  - cbn. by rewrite Hfl.
  - by apply (sg_quiet _ _ Hs).
  - intros _. left. apply Hb. rewrite Hev. apply global_mask_bit.
Qed.

Lemma wait_inv s t r : (lpc s = LWait /\ r = None) \/ (lpc s = LAsleep /\ r = Some MSG_OK) ->
  threads (lw s) !! me = Some t -> loop_inv s ->
  loop_inv (Loop (loop_wait (lw s) t r).1 (loop_wait (lw s) t r).2 (sent s)).
Proof.
  intros Hp Ht [(t0 & e & Ht0 & He & Hl & Hev & Hw & Hfl & Hpc & Hq & Han) Hr]. rewrite Ht in Ht0. injection Ht0 as <-.
  assert (sent s <> 0 -> Z.testbit (epending t) GLOBAL = true) as Han'.
  { intros Hs. destruct (Han Hs) as [H|(m & Hm & _)]; [done|]. destruct Hp as [[Hp _]|[Hp _]]; congruence. }
  unfold loop_wait, chEvtWaitAnyTimeout, wait_or. rewrite mask_global.
  remember (Z.testbit (epending t) GLOBAL) as b eqn:Eb0.
  assert (exists t', (t', WReturn (if b then 1 else 0)) =
            (Thread (Z.ldiff (epending t) (if b then 1 else 0)) TRun, WReturn (if b then 1 else 0)) /\
            loop_inv (Loop (put_thread (lw s) me t') (LGot (if b then 1 else 0)) (sent s))) as (t' & Et & Hdone).
  { eexists. split; [done|]. split; [|done]. cbn. exists (Thread (Z.ldiff (epending t) (if b then 1 else 0)) TRun), e.
    rewrite lookup_insert_eq. split_and!; try done. intros Hs. right. eexists. split; [done|].
    rewrite (Han' Hs). done. }
  destruct Hp as [[Hp ->]|[Hp ->]].
  - destruct b; cbn [Z.eqb Pos.eqb].
    + by simplify_eq.
    + split; [|done]. exists (Thread (epending t) (WtOr (EVENT_MASK GLOBAL))), e.
      split; [apply lookup_insert_eq|]. split_and!; try done; [by left| |].
      * unfold quiet. cbn [tst epending]. by rewrite mask_global, <- Eb0.
      * intros Hs. specialize (Han' Hs). done.
  - change (MSG_OK <? MSG_OK) with false. simplify_eq. exact Hdone.
Qed.

Lemma get_flags_spec l e : find_listener l = Some e ->
  exists l', get_flags l elp = (l', Z.land (lflags e) (wflags e)) /\
    find_listener l' = Some (Listener (lthread e) (levents e) 0 (wflags e)).
Proof.
  induction l as [|[x d] l IH]; cbn; [done|]. destruct (x =? elp) eqn:Ex.
  - intros [= ->]. eexists. split; [done|]. cbn. by rewrite Ex.
  - intros H. destruct (IH H) as (l' & -> & Hl'). eexists. split; [done|]. cbn. by rewrite Ex.
Qed.

(** Taking the flags gives exactly what was sent. *)
Lemma take_inv s m w f : lpc s = LGot m -> loop_take (lw s) m = (w, f) -> loop_inv s ->
  loop_inv (Loop w LWait (match f with Some _ => 0 | None => sent s end)) /\
  match f with Some x => x = sent s | None => Z.testbit m GLOBAL = false end.
Proof.
  intros Hp Hw' [(t & e & Ht & He & Hl & Hev & Hw & Hfl & Hpc & Hq & Han) Hr].
  unfold loop_take in Hw'. rewrite mask_global in Hw'. destruct (Z.testbit m GLOBAL) eqn:Em; cbn in Hw'.
  - destruct (get_flags_spec _ _ He) as (l' & Eg & Hf). unfold chEvtGetAndClearFlags in Hw'. rewrite Eg in Hw'.
    simplify_eq. split.
    + split; [|done]. cbn. exists t, (Listener (lthread e) (levents e) 0 (wflags e)).
      rewrite Hp in Hpc. split_and!; done.
    + rewrite Hw, Hfl. change ALL_FLAGS with (Z.ones 32). rewrite Z.land_ones, Z.mod_small; lia.
  - simplify_eq. split; [|done]. split; [|done]. cbn. exists t, e. rewrite Hp in Hpc.
    split_and!; try done. intros Hs. destruct (Han Hs) as [H|(m' & Hm' & Hb)]; [by left|]. congruence.
Qed.

Lemma loop_step_inv s l s' : loop_step s l s' -> loop_inv s ->
  loop_inv s' /\ match l with Some x => x = sent s | None => True end.
Proof.
  intros Hst Hi. destruct Hst as [s f Hf|s e|s w [E1 E2]|s t Hp Ht|s t r Hp Ht Hr|s m w f Hp Hw].
  - split; [by apply broadcast_inv|done].
  - split; [|done]. destruct Hi as [(t & d & Ht & He & Hl & Hev & Hw & Hfl & Hpc & Hq & Han) Hr]. split; [|done]. cbn.
    pose proof (signalI_ok (threads (lw s)) me e me) as Hs. rewrite Ht in Hs.
    destruct (chEvtSignalI _ _ _ !! me) as [t'|]; [|done]. exists t', d. split_and!; try done; eauto.
    by apply (sg_quiet _ _ Hs).
  - split; [|done]. destruct Hi as [(t & d & Ht & He & ?) Hr]. split; [|done]. cbn. exists t, d. by rewrite E1, E2.
  - split; [|done]. apply wait_inv; auto.
  - split; [|done]. apply wait_inv; auto. right. split; [done|].
    destruct Hi as [(t0 & d & Ht0 & _ & _ & _ & _ & _ & Hpc & _) _]. rewrite Ht in Ht0. injection Ht0 as <-.
    rewrite Hp in Hpc. cbn in Hpc. rewrite Hr in Hpc. destruct Hpc as [|[= ->]]; done.
  - destruct (take_inv s m w f Hp Hw Hi) as [H1 H2]. split; [done|]. by destruct f.
Qed.

Lemma loop_init_inv w t : threads w !! me = Some t -> tst t = TRun -> loop_inv (loop_init w).
Proof.
  intros Ht Hr. split; [|done]. cbn. rewrite Z.eqb_refl. do 2 eexists. split; [done|]. split; [done|].
  cbn. split_and!; try done. unfold quiet. by rewrite Hr.
Qed.

Definition loop_tau (s s' : loop_sys) : Prop := exists l, loop_step s l s'.

(** C5: The main loop misses no event.  From its registration on, whatever the other threads and
    interrupt handlers broadcast, and however they interleave: while the main thread sleeps there
    is no flag left to be handled; whenever flags are outstanding it is awake or has been made
    ready, and the event is pending or just being handled; and the flags it hands to the services
    are exactly those broadcast since it last took them. *)
Theorem dispatch_misses_nothing (w0 : world) (t0 : thread) (s : loop_sys)
    (Ht : threads w0 !! me = Some t0) (Hrun : tst t0 = TRun) (Hr : rtc loop_tau (loop_init w0) s) :
  (exists t, threads (lw s) !! me = Some t /\ (asleep t -> sent s = 0) /\ (sent s <> 0 -> announced (lpc s) t)) /\
  (forall f s', loop_step s (Some f) s' -> f = sent s /\ sent s' = 0).
Proof.
  assert (loop_inv s) as Hi.
  { pose proof (loop_init_inv w0 t0 Ht Hrun) as H0. clear Ht Hrun.
    induction Hr as [|a b c [l Hst] _ IH]; [done|]. apply IH. by eapply loop_step_inv. }
  split.
  - destruct Hi as [(t & e & Hm & He & Hl & Hev & Hw & Hfl & Hpc & Hq & Han) Hrg]. exists t. split; [done|].
    split; [|done]. intros Ha. destruct (Z.eq_dec (sent s) 0) as [|Hne]; [done|]. exfalso.
    unfold asleep, pc_ok, quiet in *. destruct (lpc s) eqn:Ep; try (by rewrite Hpc in Ha).
    destruct Hpc as [Hpc|Hpc]; rewrite Hpc in *; [|done]. rewrite mask_global in Hq.
    destruct (Han Hne) as [H|(m & Hm' & _)]; [by rewrite H in Hq|done].
  - intros f s' Hst. pose proof (proj2 (loop_step_inv _ _ _ Hst Hi)) as Hf. cbn in Hf. split; [done|].
    inversion Hst; simplify_eq; done.
Qed.
End Dispatch.

(** Two broadcasts, then the loop runs. *)
Lemma dispatch_misses_nothing_witness :
  3 = sent (Loop (World {[7 := Thread 0 TRun]} [(9, Listener 7 1 3 ALL_FLAGS)]) (LGot 1) 3) /\
  sent (Loop (World {[7 := Thread 0 TRun]} [(9, Listener 7 1 0 ALL_FLAGS)]) LWait 0) = 0.
Proof.
  pose (w0 := World {[7 := Thread 0 TRun]} []).
  refine (proj2 (dispatch_misses_nothing 7 9 w0 (Thread 0 TRun) _ eq_refl eq_refl _) 3 _ _).
  - eapply rtc_l. { eexists. apply (l_broadcast 7 9 _ 1). lia. }
    eapply rtc_l. { eexists. apply (l_broadcast 7 9 _ 2). lia. }
    eapply rtc_l; [|apply rtc_refl].
    eexists. exact (l_wait 7 9 (Loop (World {[7 := Thread 1 TRun]} [(9, Listener 7 1 3 ALL_FLAGS)]) LWait 3) (Thread 1 TRun) eq_refl eq_refl).
  - apply (l_take 7 9 _ 1 _ (Some 3)); reflexivity.
Defined.

(** ** The order of the handlers *)

Lemma event_mask_bit eid : 0 <= eid < 32 -> EVENT_MASK eid = 2 ^ eid.
Proof.
  intros H. unfold EVENT_MASK. rewrite Z.shiftl_1_l, u32_small; [done|].
  split; [apply Z.pow_nonneg; lia|apply Z.pow_lt_mono_r; lia].
Qed.

Lemma land_pow2_test a n : 0 <= n -> (Z.land a (2 ^ n) =? 0) = negb (Z.testbit a n).
Proof.
  intros Hn. destruct (Z.testbit a n) eqn:E; cbn.
  - apply Z.eqb_neq. intros H. apply (f_equal (fun z => Z.testbit z n)) in H.
    rewrite Z.land_spec, E, Z.pow2_bits_true, Z.bits_0 in H by done. done.
  - apply Z.eqb_eq. apply Z.bits_inj'. intros i Hi. rewrite Z.land_spec, Z.bits_0.
    destruct (Z.eq_dec n i) as [<-|]; [by rewrite E|]. rewrite Z.pow2_bits_false by done. apply andb_false_r.
Qed.

Lemma filter_none {A} (f : A -> bool) l : (forall x, x ∈ l -> f x = false) -> List.filter f l = [].
Proof.
  induction l as [|x l IH]; [done|]. intros H. cbn. rewrite H by (by left). apply IH. intros y Hy. apply H. by right.
Qed.

Lemma filter_same {A} (f g : A -> bool) l : (forall x, x ∈ l -> f x = g x) -> List.filter f l = List.filter g l.
Proof.
  induction l as [|x l IH]; [done|]. intros H. cbn. rewrite H, IH by (by left || (intros y Hy; apply H; by right)). done.
Qed.

Lemma dispatch_loop_spec n : forall ev eid, 0 <= eid -> eid + Z.of_nat n = 33 ->
  (forall b, Z.testbit ev b = true -> eid <= b < 32) ->
  dispatch_loop n ev eid = List.filter (Z.testbit ev) (seqZ eid (32 - eid)).
Proof.
  induction n as [|n IH]; intros ev eid He Hn Hb; cbn.
  { by rewrite seqZ_nil by lia. }
  destruct (Z.eqb_spec ev 0) as [->|Hne].
  { symmetry. apply filter_none. intros x _. apply Z.bits_0. }
  assert (eid < 32) as Hlt.
  { destruct (Z.lt_ge_cases eid 32); [done|]. exfalso. apply Hne. apply Z.bits_inj_0. intros b.
    destruct (Z.testbit ev b) eqn:E; [|done]. specialize (Hb b E). lia. }
  rewrite seqZ_cons by lia. replace (Z.succ eid) with (eid + 1) by lia. replace (Z.pred (32 - eid)) with (32 - (eid + 1)) by lia.
  cbn. rewrite event_mask_bit, land_pow2_test by lia. rewrite negb_involutive. destruct (Z.testbit ev eid) eqn:E.
  - f_equal. rewrite IH; [|lia|lia|].
    + apply filter_same. intros x Hx%elem_of_seqZ. rewrite Z.ldiff_spec, Z.pow2_bits_false by lia. apply andb_true_r.
    + intros b. rewrite Z.ldiff_spec. intros [H1 H2]%andb_prop. specialize (Hb b H1).
      destruct (Z.eq_dec b eid) as [->|]; [|lia]. rewrite Z.pow2_bits_true in H2 by lia. done.
  - apply IH; [lia|lia|]. intros b H1. specialize (Hb b H1). destruct (Z.eq_dec b eid) as [->|]; [congruence|lia].
Qed.

(** [chEvtDispatch] ends after at most 32 handlers and calls the handler of every event of
    the mask once, lowest identifier first. *)
Lemma chEvtDispatch_order (events : Z) : 0 <= events < 2 ^ 32 ->
  chEvtDispatch events = List.filter (Z.testbit events) (seqZ 0 32).
Proof.
  intros H. unfold chEvtDispatch. rewrite dispatch_loop_spec; [done|lia|done|].
  intros b Hb. destruct (Z.neg_nonneg_cases b); [by rewrite Z.testbit_neg_r in Hb by lia|].
  split; [lia|]. destruct (Z.lt_ge_cases b 32); [done|].
  rewrite (proj1 (bounded_bits 32 events ltac:(lia)) H b) in Hb by done. done.
Qed.
