(* ===== verification/Sysarch.v ===== *)
(** * Sysarch: the operating system layer of the TCP/IP stack
    (ext/ChibiOS_21.11.3/os/various/lwip_bindings/arch/sys_arch.c)

    lwIP sees the kernel through this file: its semaphores and mutexes are the kernel's
    semaphores ([Sem]), its message boxes the kernel's mailboxes ([Mailbox]), its clock
    the 10 kHz tick counter brought to milliseconds.  A handle is [None] where the pointer
    is null.  Whether the kernel's heap has room is an argument of the two functions that
    allocate ([chHeapAlloc] is not modelled).  The clock is an argument too: [now] is what
    [chVTGetSystemTimeX] returns.  A call that sleeps is cut at the place where it
    sleeps. *)

From S2P Require Import Prelude Chibi Mailbox Sem Events.
Import Time.

Definition ERR_OK : Z := 0.
Definition ERR_MEM : Z := -1.
Definition SYS_ARCH_TIMEOUT : Z := 2 ^ 32 - 1.
Definition SYS_MBOX_EMPTY : Z := SYS_ARCH_TIMEOUT.

(** ** Statistics (struct stats_sys; a counter has 16 bits) *)

Record stats := Stats { sem_used : Z; sem_max : Z; sem_err : Z; mbox_used : Z; mbox_err : Z }.

Definition inc_sem_err (x : stats) := Stats (sem_used x) (sem_max x) (u16 (sem_err x + 1)) (mbox_used x) (mbox_err x).
Definition inc_sem_used (x : stats) :=
  let u := u16 (sem_used x + 1) in
  Stats u (if sem_max x <? u then u else sem_max x) (sem_err x) (mbox_used x) (mbox_err x).
Definition dec_sem_used (x : stats) := Stats (u16 (sem_used x - 1)) (sem_max x) (sem_err x) (mbox_used x) (mbox_err x).
Definition inc_mbox_err (x : stats) := Stats (sem_used x) (sem_max x) (sem_err x) (mbox_used x) (u16 (mbox_err x + 1)).
Definition inc_mbox_used (x : stats) := Stats (sem_used x) (sem_max x) (sem_err x) (u16 (mbox_used x + 1)) (mbox_err x).
Definition dec_mbox_used (x : stats) := Stats (sem_used x) (sem_max x) (sem_err x) (u16 (mbox_used x - 1)) (mbox_err x).

(** ** Semaphores *)

Definition sys_sem_new (x : stats) (room : bool) (count : Z) : stats * option semaphore * Z :=
  if room then (inc_sem_used x, Some (chSemObjectInit count), ERR_OK) else (inc_sem_err x, None, ERR_MEM).

Definition sys_sem_free (x : stats) : stats * option semaphore := (dec_sem_used x, None).

Definition sys_sem_signal (s : semaphore) : option (semaphore * readied) := chSemSignal s.

(** [tmo] of the two waiting calls. *)
Definition timeout_ticks (timeout : Z) : Z := if 0 <? timeout then TIME_MS2I timeout else TIME_INFINITE.

(** What a waiting call returns once the kernel's call returned [msg], at time [now]. *)
Definition wait_end (msg start now : Z) : Z :=
  if msg =? MSG_OK then TIME_I2MS (chTimeDiffX start now) else SYS_ARCH_TIMEOUT.

Inductive waiting := Done (r : Z) | Blocked (start : Z).

(** [now'] is the time at which the kernel's call returned, when it did not sleep; a
    blocked call goes on with [wait_end]. *)
Definition sys_arch_sem_wait (s : semaphore) (self timeout now now' : Z) : option (semaphore * waiting) :=
  '(s, r) ← chSemWaitTimeoutS s self (timeout_ticks timeout);
  Some (s, match r with WRet msg => Done (wait_end msg now now') | WSleep => Blocked now end).

(** ** Message boxes *)

Definition sys_mbox_new (x : stats) (room : bool) (buf : list Z) : stats * option mailbox * Z :=
  if room then (inc_mbox_used x, Some (chMBObjectInit buf), ERR_OK) else (inc_mbox_err x, None, ERR_MEM).

Definition sys_mbox_free (x : stats) (m : mailbox) : stats * option mailbox * wakes :=
  let '(x, k) := if negb (chMBGetUsedCountI m =? 0) then (inc_mbox_err x, (chMBResetI m).2) else (x, []) in
  (dec_mbox_used x, None, k).

(** The thread sleeps while the box is full: [Sleep]. *)
Definition sys_mbox_post (m : mailbox) (self msg : Z) (resumed : option Z) : option (mailbox * wakes * outcome) :=
  chMBPostTimeoutS m (Waiter self CPost msg TIME_INFINITE) resumed.

Definition sys_mbox_trypost (x : stats) (m : mailbox) (self msg : Z) : option (stats * mailbox * wakes * Z) :=
  '(m, k, o) ← chMBPostTimeoutS m (Waiter self CPost msg TIME_IMMEDIATE) None;
  match o with
  | Return r _ => if r =? MSG_TIMEOUT then Some (inc_mbox_err x, m, k, ERR_MEM) else Some (x, m, k, ERR_OK)
  | Sleep => None
  end.

(** The message is stored only when the kernel's call returns [MSG_OK]. *)
Definition sys_arch_mbox_fetch (m : mailbox) (self timeout now now' : Z) (resumed : option (Z * Z)) :
    option (mailbox * wakes * option Z * waiting) :=
  let start := match resumed with Some (start, _) => start | None => now end in
  '(m, k, o) ← chMBFetchTimeoutS m (Waiter self CFetch 0 (timeout_ticks timeout)) (snd <$> resumed);
  Some match o with
       | Return r v => (m, k, v, Done (wait_end r start now'))
       | Sleep => (m, k, None, Blocked start)
       end.

Definition sys_arch_mbox_tryfetch (m : mailbox) (self : Z) : option (mailbox * wakes * option Z * Z) :=
  '(m, k, o) ← chMBFetchTimeoutS m (Waiter self CFetch 0 TIME_IMMEDIATE) None;
  match o with
  | Return r v => Some (m, k, v, if r =? MSG_TIMEOUT then SYS_MBOX_EMPTY else 0)
  | Sleep => None
  end.

(** ** The millisecond clock *)

(** The static variables of [sys_now]. *)
Record persistent := Persistent { last_system_time : Z; last_ms : Z; last_unprocessed : Z }.

Definition persistent0 : persistent := Persistent 0 0 0.

(** [OSAL_ST_FREQUENCY / 1000U] *)
Definition ticks_per_ms : Z := CH_CFG_ST_FREQUENCY / 1000.

Definition sys_now (p : persistent) (now_time : Z) : persistent * Z :=
  let delta := u32 (chTimeDiffX (last_system_time p) now_time + last_unprocessed p) in
  let p := Persistent now_time (u32 (last_ms p + delta / ticks_per_ms)) (delta mod ticks_per_ms) in
  (p, last_ms p).

(** ** What the clock shows *)

(** The variables after a call at tick [t] since boot. *)
Definition clock_at (t : Z) : persistent := Persistent (systime_at t) (u32 (t / ticks_per_ms)) (t mod ticks_per_ms).

(** The clock has to be read again before the tick counter has gone around once. *)
Definition CLOCK_PERIOD : Z := 2 ^ 32 - ticks_per_ms.

Lemma sys_now_at t t' : 0 <= t' - t <= CLOCK_PERIOD ->
  sys_now (clock_at t) (systime_at t') = (clock_at t', u32 (t' / ticks_per_ms)).
Proof.
  intros H. change CLOCK_PERIOD with (2 ^ 32 - 10) in H. unfold sys_now, clock_at, systime_at, chTimeDiffX.
  change ticks_per_ms with 10. cbn [last_system_time last_ms last_unprocessed].
  pose proof (Z.mod_pos_bound t 10 ltac:(lia)) as Hm. pose proof (Z.div_mod t 10 ltac:(lia)) as Hd.
  assert (u32 (u32 t' - u32 t) = t' - t) as ->.
  { unfold u32. rewrite <- Zminus_mod. apply Z.mod_small. lia. }
  rewrite (u32_small (t' - t + t mod 10)) by lia.
  replace (t' - t + t mod 10) with (t' + - (t / 10) * 10) by lia.
  rewrite Z.div_add, Z.mod_add by lia.
  assert (u32 (u32 (t / 10) + (t' / 10 + - (t / 10))) = u32 (t' / 10)) as ->; [|done].
  unfold u32. rewrite Zplus_mod_idemp_l. f_equal. lia.
Qed.

(** Successive readings of the clock at the ticks [ts]. *)
Fixpoint readings (p : persistent) (ts : list Z) : list Z :=
  match ts with
  | [] => []
  | t :: ts => let '(p, ms) := sys_now p (systime_at t) in ms :: readings p ts
  end.

(** Each reading is taken at most [CLOCK_PERIOD] ticks after the one before. *)
Fixpoint paced (t : Z) (ts : list Z) : Prop :=
  match ts with [] => True | t' :: ts => 0 <= t' - t <= CLOCK_PERIOD /\ paced t' ts end.

Lemma readings_at ts : forall t, paced t ts -> readings (clock_at t) ts = (fun t => u32 (t / ticks_per_ms)) <$> ts.
Proof.
  induction ts as [|t' ts IH]; [done|]. intros t [H Hp]. cbn [readings fmap list_fmap]. rewrite sys_now_at by done.
  by rewrite IH.
Qed.

(** C39: The millisecond clock of the TCP/IP stack never drifts: whenever successive
    readings are at most 2^32 - 10 ticks (five days) apart, each one is the number of
    whole milliseconds since boot modulo 2^32, across every wrap-around of the 32-bit
    10 kHz tick counter (whose period is no whole number of milliseconds) and of the clock
    itself, for any number of readings.  The bound is sharp: after a pause one tick longer
    a whole round of the counter can be lost. *)
Theorem sys_now_exact (ts : list Z) (H : paced 0 ts) :
  readings persistent0 ts = (fun t => u32 (t / ticks_per_ms)) <$> ts /\
  readings persistent0 [9; 9 + (CLOCK_PERIOD + 1)] = [0; 0] /\
  u32 ((9 + (CLOCK_PERIOD + 1)) / ticks_per_ms) = 429496729.
Proof. split; [exact (readings_at ts 0 H)|done]. Qed.

Lemma sys_now_exact_witness :
  readings persistent0 [25; 4294967000; 4294967299] = [2; 429496700; 429496729].
Proof. apply (sys_now_exact [25; 4294967000; 4294967299]). by vm_compute. Defined.

(** ** What a wait returns *)

Lemma timeout_ticks_exact timeout : 0 < timeout -> timeout * ticks_per_ms < 2 ^ 32 ->
  timeout_ticks timeout = timeout * ticks_per_ms.
Proof.
  change ticks_per_ms with 10. intros H1 H2. unfold timeout_ticks. ztests.
  unfold TIME_MS2I, CH_CFG_ST_FREQUENCY.
  replace (timeout * 10000 + 999) with (999 + timeout * 10 * 1000) by lia.
  rewrite Z.div_add by lia. change (999 / 1000) with 0. rewrite u32_small; lia.
Qed.

(** A wait that got what it waited for never returns the value that stands for a
    time-out, and returns the time it took, rounded up. *)
Lemma wait_end_exact msg t t' : 0 <= t' - t < 2 ^ 32 ->
  let r := wait_end msg (systime_at t) (systime_at t') in
  (msg = MSG_OK /\ r <> SYS_ARCH_TIMEOUT /\ 0 <= r * ticks_per_ms - (t' - t) < ticks_per_ms) \/
  (msg <> MSG_OK /\ r = SYS_ARCH_TIMEOUT).
Proof.
  intros H r. subst r. unfold wait_end. destruct (Z.eqb_spec msg MSG_OK) as [->|Hn]; [left|by right].
  split; [done|]. unfold chTimeDiffX, systime_at.
  assert (u32 (u32 t' - u32 t) = t' - t) as ->.
  { unfold u32. rewrite <- Zminus_mod. apply Z.mod_small. lia. }
  unfold TIME_I2MS, CH_CFG_ST_FREQUENCY, SYS_ARCH_TIMEOUT. change ticks_per_ms with 10.
  assert (0 <= ((t' - t) * 1000 + 10000 - 1) / 10000 < 2 ^ 32 - 1) as Hb.
  { split; [apply Z.div_pos; lia|apply Z.div_lt_upper_bound; lia]. }
  rewrite u32_small by lia.
  pose proof (Z.div_mod ((t' - t) * 1000 + 10000 - 1) 10000 ltac:(lia)).
  pose proof (Z.mod_pos_bound ((t' - t) * 1000 + 10000 - 1) 10000 ltac:(lia)). lia.
Qed.

(** A message box that is not being reset takes a message iff it has room, and hands out
    the oldest one iff it has any; the result says which. *)
Lemma mbox_calls x m self msg : wf m -> reset m = false ->
  (exists x' m' k r, sys_mbox_trypost x m self msg = Some (x', m', k, r) /\
     ((cnt m < size m /\ r = ERR_OK /\ wf m' /\ contents m' = contents m ++ [msg]) \/
      (cnt m = size m /\ r = ERR_MEM /\ m' = m))) /\
  (exists m' k v r, sys_arch_mbox_tryfetch m self = Some (m', k, v, r) /\
     ((exists y, v = Some y /\ r = 0 /\ wf m' /\ contents m = y :: contents m') \/
      (contents m = [] /\ v = None /\ r = SYS_MBOX_EMPTY /\ m' = m))).
Proof.
  intros Hw Hr. split.
  - unfold sys_mbox_trypost, chMBPostTimeoutS, resumable, post_round. rewrite Hr, free_count by done. cbn.
    pose proof (wf_cnt m Hw). destruct (Z.ltb_spec (cnt m) (size m)) as [Hlt|Hge].
    + destruct (store_tail_spec m msg Hw Hlt) as (m' & -> & Hw' & _ & E). cbn. unfold wake_reader.
      destruct (chThdDequeueNextI (qr m') MSG_OK) as [q k]. do 4 eexists. split; [done|]. left.
      split_and!; try done; by apply wf_set_qr.
    + do 4 eexists. split; [done|]. right. split_and!; try done. lia.
  - unfold sys_arch_mbox_tryfetch, chMBFetchTimeoutS, resumable, fetch_round, chMBGetUsedCountI. rewrite Hr. cbn.
    pose proof (contents_len m Hw). destruct (Z.ltb_spec 0 (cnt m)) as [Hlt|Hge].
    + destruct (load_head_spec m Hw Hlt) as (m' & v & -> & Hw' & _ & E). cbn. unfold wake_writer.
      destruct (chThdDequeueNextI (qw m') MSG_OK) as [q k]. do 4 eexists. split; [done|]. left. exists v.
      split_and!; try done; by apply wf_set_qw.
    + do 4 eexists. split; [done|]. right. split_and!; try done.
      apply length_zero_iff_nil. unfold Zlen in *. pose proof (wf_cnt m Hw). lia.
Qed.
