(* ===== verification/Timeouts.v ===== *)
(** * Timeouts: the timers of the TCP/IP stack
    (ext/ChibiOS_21.11.3/ext/lwip/src/core/timeouts.c, the waiting of the stack's thread
    in src/api/tcpip.c)

    The pending timers are a list ordered by their due time, an unsigned 32-bit number of
    milliseconds compared modulo 2^32.  A timer that expires runs its handler in the
    stack's thread, which may set and cancel timers meanwhile: the thread is a step
    relation whose program counter says whether it is inside [sys_check_timeouts] and
    inside a handler.  The specification keeps the same timers with their due times in
    unbounded integers.  [None] is a failed assertion, which halts the system. *)

From Stdlib Require Import Sorting.Sorted.
From S2P Require Import Prelude Chibi Sysarch.
Import Time.

(** ** The code *)

(** Handlers: the null pointer, [lwip_cyclic_timer], [tcpip_tcp_timer], any other. *)
Inductive handler := HNull | HCyclic | HTcp | HOther (f : Z).

#[export] Instance handler_eq_dec : EqDecision handler.
Proof. solve_decision. Defined.

(** struct sys_timeo; the argument of [lwip_cyclic_timer] is an index of its table. *)
Record timeo := Timeo { h : handler; arg : Z; time : Z }.

(** [room] is the number of free elements of the pool MEMP_SYS_TIMEOUT. *)
Record timers := Timers {
  next_timeout : list timeo; current_timeout_due_time : Z; tcpip_tcp_timer_active : bool; room : Z
}.

Definition LWIP_MAX_TIMEOUT : Z := 2 ^ 31 - 1.
Definition LWIP_UINT32_MAX : Z := 2 ^ 32 - 1.
Definition SYS_TIMEOUTS_SLEEPTIME_INFINITE : Z := 2 ^ 32 - 1.
Definition MEMP_NUM_SYS_TIMEOUT : Z := 6.
Definition TCP_TMR_INTERVAL : Z := 250.

(** The intervals of tcp_tmr, ip_reass_tmr, etharp_tmr, dhcp_coarse_tmr and
    dhcp_fine_tmr. *)
Definition lwip_cyclic_timers : list Z := [TCP_TMR_INTERVAL; 1000; 1000; 60000; 500].

Definition TIME_LESS_THAN (t compare_to : Z) : bool := LWIP_MAX_TIMEOUT <? u32 (t - compare_to).

(** The place in the list: before the first timer that is due later. *)
Fixpoint insert_timeout (n : timeo) (q : list timeo) : list timeo :=
  match q with
  | [] => [n]
  | t :: r => if TIME_LESS_THAN (time n) (time t) then n :: q else t :: insert_timeout n r
  end.

Definition sys_timeout_abs (s : timers) (abs_time : Z) (f : handler) (x : Z) : option timers :=
  guard (0 < room s);;
  Some (Timers (insert_timeout (Timeo f x abs_time) (next_timeout s)) (current_timeout_due_time s)
          (tcpip_tcp_timer_active s) (room s - 1)).

(** [now] is the value of [sys_now ()]. *)
Definition sys_timeout (s : timers) (now msecs : Z) (f : handler) (x : Z) : option timers :=
  guard (msecs <= LWIP_UINT32_MAX / 4);; sys_timeout_abs s (u32 (now + msecs)) f x.

Fixpoint unlink_timeout (f : handler) (x : Z) (q : list timeo) : option (list timeo) :=
  match q with
  | [] => None
  | t :: r => if bool_decide (h t = f) && (arg t =? x) then Some r else cons t <$> unlink_timeout f x r
  end.

Definition sys_untimeout (s : timers) (f : handler) (x : Z) : timers :=
  match unlink_timeout f x (next_timeout s) with
  | Some q => Timers q (current_timeout_due_time s) (tcpip_tcp_timer_active s) (room s + 1)
  | None => s
  end.

(** A turn of the loop of [sys_check_timeouts]: the handler to run, if a timer expired. *)
Definition check_turn (s : timers) (now : Z) : timers * option (handler * Z) :=
  match next_timeout s with
  | [] => (s, None)
  | t :: r =>
      if TIME_LESS_THAN now (time t) then (s, None)
      else (Timers r (time t) (tcpip_tcp_timer_active s) (room s + 1), Some (h t, arg t))
  end.

Definition sys_restart_timeouts (s : timers) (now : Z) : timers :=
  match next_timeout s with
  | [] => s
  | t0 :: _ =>
      Timers ((fun t => Timeo (h t) (arg t) (u32 (time t - time t0 + now))) <$> next_timeout s)
        (current_timeout_due_time s) (tcpip_tcp_timer_active s) (room s)
  end.

Definition sys_timeouts_sleeptime (s : timers) (now : Z) : option Z :=
  match next_timeout s with
  | [] => Some SYS_TIMEOUTS_SLEEPTIME_INFINITE
  | t :: _ =>
      if TIME_LESS_THAN (time t) now then Some 0
      else let ret := u32 (time t - now) in guard (ret <= LWIP_MAX_TIMEOUT);; Some ret
  end.

(** The end of [lwip_cyclic_timer], after [cyclic->handler ()]: the timer is set again. *)
Definition lwip_cyclic_timer (s : timers) (now x : Z) : option timers :=
  interval_ms ← rd lwip_cyclic_timers x;
  let next_timeout_time := u32 (current_timeout_due_time s + interval_ms) in
  if TIME_LESS_THAN next_timeout_time now then sys_timeout_abs s (u32 (now + interval_ms)) HCyclic x
  else sys_timeout_abs s next_timeout_time HCyclic x.

Definition set_active (s : timers) (b : bool) : timers :=
  Timers (next_timeout s) (current_timeout_due_time s) b (room s).

(** The end of [tcpip_tcp_timer], after [tcp_tmr ()]; [pcbs]: there are active or
    time-wait connections. *)
Definition tcpip_tcp_timer (s : timers) (now : Z) (pcbs : bool) : option timers :=
  if pcbs then sys_timeout s now TCP_TMR_INTERVAL HTcp 0 else Some (set_active s false).

Definition tcp_timer_needed (s : timers) (now : Z) (pcbs : bool) : option timers :=
  if negb (tcpip_tcp_timer_active s) && pcbs then sys_timeout (set_active s true) now TCP_TMR_INTERVAL HTcp 0
  else Some s.

(** [sys_timeouts_init], with the values of its calls of [sys_now]. *)
Fixpoint init_timeouts (s : timers) (i : Z) (intervals nows : list Z) : option timers :=
  match intervals, nows with
  | msecs :: ms, now :: ns => s ← sys_timeout s now msecs HCyclic i; init_timeouts s (i + 1) ms ns
  | [], _ => Some s
  | _, [] => None
  end.

Definition timers0 : timers := Timers [] 0 false MEMP_NUM_SYS_TIMEOUT.

Definition sys_timeouts_init (nows : list Z) : option timers :=
  init_timeouts timers0 1 (drop 1 lwip_cyclic_timers) nows.

(** What [tcpip_timeouts_mbox_fetch] does next. *)
Inductive fetch_plan := FetchForever | CheckTimeouts | FetchFor (sleeptime : Z).

Definition tcpip_timeouts_mbox_fetch (sleeptime : Z) : fetch_plan :=
  if sleeptime =? SYS_TIMEOUTS_SLEEPTIME_INFINITE then FetchForever
  else if sleeptime =? 0 then CheckTimeouts
  else FetchFor sleeptime.

(** After the timed fetch: the timers are checked and the fetch is tried again. *)
Definition fetch_retry (res : Z) : bool := res =? SYS_ARCH_TIMEOUT.

Example init_order : sys_timeouts_init [7; 7; 8; 9] = Some (Timers
  [Timeo HCyclic 4 509; Timeo HCyclic 1 1007; Timeo HCyclic 2 1007; Timeo HCyclic 3 60008] 0 false 2).
Proof. reflexivity. Qed.

(** ** The stack's thread *)

Inductive pc := Idle | Checking (now : Z) | Running (now : Z) (f : handler) (x : Z).

(** [ticks] is the number of ticks since boot, without wrap-around. *)
Record sys := Sys { tm : timers; clk : persistent; ticks : Z; at_pc : pc }.

Inductive label :=
  | LTick (d : Z) | LSet (msecs : Z) (f : handler) (x : Z) | LCancel (f : handler) (x : Z)
  | LBegin | LFire (f : handler) (x : Z) | LEnd
  | LCyclic (x : Z) | LTcp (pcbs : bool) | LOther | LNeeded (pcbs : bool) | LSleeptime (r : Z).

(** The code of the thread and of its handlers runs outside of the turns of the loop. *)
Definition in_code (p : pc) : bool := match p with Checking _ => false | _ => true end.

(** A call of [sys_now]: the variables after it, and the time. *)
Definition read_clock (s : sys) : persistent * Z := sys_now (clk s) (systime_at (ticks s)).

Inductive step : sys -> label -> sys -> Prop :=
  | t_tick s d : 0 <= d -> step s (LTick d) (Sys (tm s) (clk s) (ticks s + d) (at_pc s))
  | t_set s msecs f x p now t : in_code (at_pc s) = true -> 0 <= msecs -> read_clock s = (p, now) ->
      sys_timeout (tm s) now msecs f x = Some t -> step s (LSet msecs f x) (Sys t p (ticks s) (at_pc s))
  | t_cancel s f x : in_code (at_pc s) = true ->
      step s (LCancel f x) (Sys (sys_untimeout (tm s) f x) (clk s) (ticks s) (at_pc s))
  | t_begin s p now : at_pc s = Idle -> read_clock s = (p, now) ->
      step s LBegin (Sys (tm s) p (ticks s) (Checking now))
  | t_fire s now t f x : at_pc s = Checking now -> check_turn (tm s) now = (t, Some (f, x)) ->
      step s (LFire f x) (Sys t (clk s) (ticks s) (Running now f x))
  | t_end s now t : at_pc s = Checking now -> check_turn (tm s) now = (t, None) ->
      step s LEnd (Sys t (clk s) (ticks s) Idle)
  | t_cyclic s now x p ms t : at_pc s = Running now HCyclic x -> read_clock s = (p, ms) ->
      lwip_cyclic_timer (tm s) ms x = Some t -> step s (LCyclic x) (Sys t p (ticks s) (Checking now))
  | t_tcp_again s now x p ms t : at_pc s = Running now HTcp x -> read_clock s = (p, ms) ->
      tcpip_tcp_timer (tm s) ms true = Some t -> step s (LTcp true) (Sys t p (ticks s) (Checking now))
  | t_tcp_stop s now x ms t : at_pc s = Running now HTcp x ->
      tcpip_tcp_timer (tm s) ms false = Some t -> step s (LTcp false) (Sys t (clk s) (ticks s) (Checking now))
  | t_other s now f x : at_pc s = Running now f x -> f <> HCyclic -> f <> HTcp ->
      step s LOther (Sys (tm s) (clk s) (ticks s) (Checking now))
  | t_needed s b p now t : in_code (at_pc s) = true -> read_clock s = (p, now) ->
      tcp_timer_needed (tm s) now b = Some t ->
      step s (LNeeded b) (Sys t (if negb (tcpip_tcp_timer_active (tm s)) && b then p else clk s) (ticks s) (at_pc s))
  | t_sleeptime s p now r : at_pc s = Idle -> read_clock s = (p, now) ->
      sys_timeouts_sleeptime (tm s) now = Some r ->
      step s (LSleeptime r) (Sys (tm s) (match next_timeout (tm s) with [] => clk s | _ => p end) (ticks s) Idle).

(** ** The specification: alarms in unbounded time *)

Record alarm := Alarm { ah : handler; aarg : Z; due : Z }.

Definition ms_of (t : Z) : Z := t / ticks_per_ms.

(** Behind the alarms due no later. *)
Fixpoint post (a : alarm) (q : list alarm) : list alarm :=
  match q with [] => [a] | b :: r => if due a <? due b then a :: q else b :: post a r end.

Fixpoint cancel (f : handler) (x : Z) (q : list alarm) : list alarm :=
  match q with [] => [] | a :: r => if bool_decide (ah a = f) && (aarg a =? x) then r else a :: cancel f x r end.

Inductive spc := SIdle | SChecking (n : Z) | SRunning (n : Z) (a : alarm).

(** [mark] is the tick at which the clock was read last. *)
Record spec := Spec { alarms : list alarm; active : bool; sticks : Z; mark : Z; at_spc : spc }.

Definition sin_code (p : spc) : bool := match p with SChecking _ => false | _ => true end.
Definition ms (a : spec) : Z := ms_of (sticks a).

Definition with_alarm (a : spec) (b : bool) (x : alarm) (p : spc) : spec :=
  Spec (post x (alarms a)) b (sticks a) (sticks a) p.

(** A cyclic alarm keeps its raster unless it missed its next turn already. *)
Definition next_due (d interval now : Z) : Z := if d + interval <? now then now + interval else d + interval.

Definition sleeptime (q : list alarm) (now : Z) : Z :=
  match q with [] => SYS_TIMEOUTS_SLEEPTIME_INFINITE | a :: _ => Z.max 0 (due a - now) end.

Inductive spec_step : spec -> label -> spec -> Prop :=
  | a_tick a d : 0 <= d -> spec_step a (LTick d) (Spec (alarms a) (active a) (sticks a + d) (mark a) (at_spc a))
  | a_set a m f x : sin_code (at_spc a) = true -> 0 <= m < 2 ^ 30 ->
      spec_step a (LSet m f x) (with_alarm a (active a) (Alarm f x (ms a + m)) (at_spc a))
  | a_cancel a f x : sin_code (at_spc a) = true ->
      spec_step a (LCancel f x) (Spec (cancel f x (alarms a)) (active a) (sticks a) (mark a) (at_spc a))
  | a_begin a : at_spc a = SIdle ->
      spec_step a LBegin (Spec (alarms a) (active a) (sticks a) (sticks a) (SChecking (ms a)))
  | a_fire a n e r : at_spc a = SChecking n -> alarms a = e :: r -> due e <= n ->
      spec_step a (LFire (ah e) (aarg e)) (Spec r (active a) (sticks a) (mark a) (SRunning n e))
  | a_end a n : at_spc a = SChecking n -> Forall (fun e => n < due e) (alarms a) ->
      spec_step a LEnd (Spec (alarms a) (active a) (sticks a) (mark a) SIdle)
  | a_cyclic a n x d i : at_spc a = SRunning n (Alarm HCyclic x d) -> rd lwip_cyclic_timers x = Some i ->
      spec_step a (LCyclic x) (with_alarm a (active a) (Alarm HCyclic x (next_due d i (ms a))) (SChecking n))
  | a_tcp_again a n x d : at_spc a = SRunning n (Alarm HTcp x d) ->
      spec_step a (LTcp true) (with_alarm a (active a) (Alarm HTcp 0 (ms a + TCP_TMR_INTERVAL)) (SChecking n))
  | a_tcp_stop a n x d : at_spc a = SRunning n (Alarm HTcp x d) ->
      spec_step a (LTcp false) (Spec (alarms a) false (sticks a) (mark a) (SChecking n))
  | a_other a n e : at_spc a = SRunning n e -> ah e <> HCyclic -> ah e <> HTcp ->
      spec_step a LOther (Spec (alarms a) (active a) (sticks a) (mark a) (SChecking n))
  | a_needed a b : sin_code (at_spc a) = true -> active a = false -> b = true ->
      spec_step a (LNeeded b) (with_alarm a true (Alarm HTcp 0 (ms a + TCP_TMR_INTERVAL)) (at_spc a))
  | a_not_needed a b : sin_code (at_spc a) = true -> active a = true \/ b = false -> spec_step a (LNeeded b) a
  | a_sleeptime a : at_spc a = SIdle ->
      spec_step a (LSleeptime (sleeptime (alarms a) (ms a)))
        (Spec (alarms a) (active a) (sticks a) (match alarms a with [] => mark a | _ => sticks a end) SIdle).

(** ** The relation *)

Definition WINDOW : Z := 2 ^ 30.

Definition conc (a : alarm) : timeo := Timeo (ah a) (aarg a) (u32 (due a)).

Definition pc_rel (s : timers) (p : pc) (q : spc) : Prop :=
  match p, q with
  | Idle, SIdle => True
  | Checking n, SChecking m => n = u32 m
  | Running n f x, SRunning m a =>
      n = u32 m /\ f = ah a /\ x = aarg a /\ current_timeout_due_time s = u32 (due a)
  | _, _ => False
  end.

(** The time of the check in progress is in the past, and so is the alarm being run. *)
Definition spc_past (now : Z) (q : spc) : Prop :=
  match q with SIdle => True | SChecking n => n <= now | SRunning n a => n <= now /\ due a <= n end.

Record R (c : sys) (a : spec) : Prop := {
  R_list : next_timeout (tm c) = conc <$> alarms a;
  R_active : tcpip_tcp_timer_active (tm c) = active a;
  R_clk : clk c = clock_at (mark a);
  R_ticks : ticks c = sticks a;
  R_pc : pc_rel (tm c) (at_pc c) (at_spc a);
  R_sorted : StronglySorted (fun x y => due x <= due y) (alarms a);
  R_ahead : Forall (fun x => due x < ms a + WINDOW) (alarms a);
  R_mark : mark a <= sticks a;
  R_past : spc_past (ms a) (at_spc a);
}.

Definition spc_recent (now : Z) (q : spc) : Prop :=
  match q with SIdle => True | SChecking n => now - n < WINDOW | SRunning n a => now - due a < WINDOW end.

(** The thread is not late: the clock was read within five days, and no alarm and no
    check has been waiting for more than 12 days. *)
Record timely (a : spec) : Prop := {
  tl_clock : sticks a - mark a <= CLOCK_PERIOD;
  tl_alarms : Forall (fun x => ms a - due x < WINDOW) (alarms a);
  tl_pc : spc_recent (ms a) (at_spc a);
}.

Lemma less_than a b : - 2 ^ 31 <= a - b < 2 ^ 31 -> TIME_LESS_THAN (u32 a) (u32 b) = (a <? b).
Proof.
  intros H. unfold TIME_LESS_THAN, LWIP_MAX_TIMEOUT, u32. rewrite <- Zminus_mod.
  destruct (Z.ltb_spec a b).
  - rewrite <- (Z.mod_add _ 1), Z.mod_small by lia. apply Z.ltb_lt. lia.
  - rewrite Z.mod_small by lia. apply Z.ltb_ge. lia.
Qed.

Lemma u32_add_l a b : u32 (u32 a + b) = u32 (a + b).
Proof. unfold u32. apply Zplus_mod_idemp_l. Qed.

Lemma interval_bound x i : rd lwip_cyclic_timers x = Some i -> 0 < i <= 60000.
Proof.
  intros H. pose proof (rd_Some _ _ _ H) as Hx. change (Zlen lwip_cyclic_timers) with 5 in Hx.
  assert (x = 0 \/ x = 1 \/ x = 2 \/ x = 3 \/ x = 4) as Hc by lia.
  destruct_or! Hc; subst x; injection H as <-; unfold TCP_TMR_INTERVAL; lia.
Qed.

Lemma insert_conc n q : Forall (fun x => - 2 ^ 31 <= due n - due x < 2 ^ 31) q ->
  insert_timeout (conc n) (conc <$> q) = conc <$> post n q.
Proof.
  induction q as [|a q IH]; [done|]. intros [Ha Hq]%Forall_cons. cbn. rewrite less_than by done.
  destruct (due n <? due a); [done|]. cbn. by rewrite IH.
Qed.

Lemma unlink_conc f x q : match unlink_timeout f x (conc <$> q) with Some r => r | None => conc <$> q end
  = conc <$> cancel f x q.
Proof.
  induction q as [|a q IH]; [done|]. cbn. destruct (bool_decide (ah a = f) && (aarg a =? x)); [done|].
  destruct (unlink_timeout f x (conc <$> q)); cbn in *; by rewrite <- IH.
Qed.

Lemma post_Forall P a q : P a -> Forall P q -> Forall P (post a q).
Proof.
  intros Ha. induction 1 as [|b q Hb Hq IH]; cbn; [by repeat constructor|].
  destruct (due a <? due b); by repeat constructor.
Qed.

Lemma post_sorted a q : StronglySorted (fun x y => due x <= due y) q ->
  StronglySorted (fun x y => due x <= due y) (post a q).
Proof.
  induction 1 as [|b q Hs IH Hf]; cbn; [by repeat constructor|].
  destruct (Z.ltb_spec (due a) (due b)); constructor; try done; [by constructor| |].
  - constructor; [lia|]. eapply Forall_impl; [exact Hf|]. cbn. lia.
  - apply post_Forall; [lia|done].
Qed.

Lemma cancel_Forall P f x q : Forall P q -> Forall P (cancel f x q).
Proof. induction 1 as [|a q Ha Hq IH]; cbn; [done|]. case_match; [done|by constructor]. Qed.

Lemma cancel_sorted f x q : StronglySorted (fun x y => due x <= due y) q ->
  StronglySorted (fun x y => due x <= due y) (cancel f x q).
Proof.
  induction 1 as [|a q Hs IH Hf]; cbn; [constructor|]. case_match; [done|]. constructor; [done|]. by apply cancel_Forall.
Qed.

(** ** Every step of the code is a step of the specification *)

Lemma read_rel c a : R c a -> timely a -> read_clock c = (clock_at (sticks a), u32 (ms a)).
Proof.
  intros [] []. unfold read_clock. rewrite R_clk0, R_ticks0. rewrite sys_now_at by lia. done.
Qed.

(** Setting a timer that is due within the window. *)
Lemma set_rel c a d f x t : R c a -> timely a -> ms a <= d < ms a + WINDOW ->
  sys_timeout_abs (tm c) (u32 d) f x = Some t ->
  next_timeout t = conc <$> post (Alarm f x d) (alarms a) /\
  current_timeout_due_time t = current_timeout_due_time (tm c) /\
  tcpip_tcp_timer_active t = tcpip_tcp_timer_active (tm c).
Proof.
  intros [] [] Hd. unfold sys_timeout_abs. case_guard; [|done]. intros [= <-]. split; [|done]. cbn.
  rewrite R_list0. change (Timeo f x (u32 d)) with (conc (Alarm f x d)). apply insert_conc.
  eapply Forall_impl; [apply Forall_and; exact (conj R_ahead0 tl_alarms0)|]. unfold WINDOW in *. cbn. lia.
Qed.

Lemma pc_rel_due s t p q : current_timeout_due_time t = current_timeout_due_time s -> pc_rel s p q -> pc_rel t p q.
Proof. intros E. destruct p, q; cbn; rewrite ?E; done. Qed.

Lemma R_with c a b d f x t p p' : R c a -> timely a -> ms a <= d < ms a + WINDOW ->
  sys_timeout_abs (tm c) (u32 d) f x = Some t -> tcpip_tcp_timer_active (tm c) = b ->
  pc_rel t p p' -> spc_past (ms a) p' ->
  R (Sys t (clock_at (sticks a)) (ticks c) p) (with_alarm a b (Alarm f x d) p').
Proof.
  intros HR HT Hd E Hb Hp Hq. destruct (set_rel _ _ _ _ _ _ HR HT Hd E) as (E1 & E2 & E3). destruct HR.
  split; unfold with_alarm; cbn; try done.
  - congruence.
  - by apply post_sorted.
  - apply post_Forall; [cbn; unfold ms in *; cbn; lia|done].
Qed.

(** [sys_timeout] with the time just read. *)
Lemma timeout_rel c a m f x t b p p' : R c a -> timely a -> 0 <= m -> tcpip_tcp_timer_active (tm c) = b ->
  sys_timeout (tm c) (u32 (ms a)) m f x = Some t ->
  (current_timeout_due_time t = current_timeout_due_time (tm c) -> pc_rel t p p') -> spc_past (ms a) p' ->
  m < 2 ^ 30 /\ R (Sys t (clock_at (sticks a)) (ticks c) p) (with_alarm a b (Alarm f x (ms a + m)) p').
Proof.
  intros HR HT Hm Hb. unfold sys_timeout. case_guard as Hl; [|done]. change (LWIP_UINT32_MAX / 4) with (2 ^ 30 - 1) in Hl.
  rewrite u32_add_l. intros E Hp Hq. cbn in E. assert (ms a <= ms a + m < ms a + WINDOW) as Hd by (unfold WINDOW; lia).
  split; [lia|]. destruct (set_rel _ _ _ _ _ _ HR HT Hd E) as (_ & E2 & _).
  by eapply R_with; [..|apply Hp|].
Qed.

Lemma fire_rel c a now t f x : R c a -> timely a -> at_pc c = Checking now -> check_turn (tm c) now = (t, Some (f, x)) ->
  exists n e r, at_spc a = SChecking n /\ alarms a = e :: r /\ due e <= n /\ f = ah e /\ x = aarg e /\
    R (Sys t (clk c) (ticks c) (Running now f x)) (Spec r (active a) (sticks a) (mark a) (SRunning n e)).
Proof.
  intros [] [] Hpc. unfold check_turn. rewrite R_list0. rewrite Hpc in R_pc0.
  destruct (at_spc a) as [|n|]; cbn in R_pc0; try done. subst now.
  destruct (alarms a) as [|e r] eqn:Ea; [done|]. cbn. cbn in *.
  apply Forall_cons in R_ahead0 as [? Hr], tl_alarms0 as [? ?]. apply StronglySorted_inv in R_sorted0 as [? _].
  rewrite less_than by (unfold WINDOW in *; lia). destruct (Z.ltb_spec n (due e)); [done|].
  intros [= <- <- <-]. exists n, e, r. split_and!; try done.
Qed.

Lemma end_rel c a now t : R c a -> timely a -> at_pc c = Checking now -> check_turn (tm c) now = (t, None) ->
  t = tm c /\ exists n, at_spc a = SChecking n /\ Forall (fun e => n < due e) (alarms a).
Proof.
  intros [] [] Hpc. unfold check_turn. rewrite R_list0. rewrite Hpc in R_pc0.
  destruct (at_spc a) as [|n|]; cbn in R_pc0; try done. subst now.
  destruct (alarms a) as [|e r] eqn:Ea; cbn; [intros [= <-]; eauto|]. cbn in *.
  apply Forall_cons in R_ahead0 as [? Hr], tl_alarms0 as [? ?]. apply StronglySorted_inv in R_sorted0 as [_ Hf].
  rewrite less_than by (unfold WINDOW in *; lia). destruct (Z.ltb_spec n (due e)); [|done].
  intros [= <-]. split; [done|]. exists n. split; [done|]. constructor; [done|].
  eapply Forall_impl; [exact Hf|]. cbn. lia.
Qed.

(** The end of [lwip_cyclic_timer] sets the alarm to its next turn. *)
Lemma cyclic_rel c a now x t : R c a -> timely a -> at_pc c = Running now HCyclic x ->
  lwip_cyclic_timer (tm c) (u32 (ms a)) x = Some t ->
  exists n d i, at_spc a = SRunning n (Alarm HCyclic x d) /\ rd lwip_cyclic_timers x = Some i /\
    R (Sys t (clock_at (sticks a)) (ticks c) (Checking now))
      (with_alarm a (active a) (Alarm HCyclic x (next_due d i (ms a))) (SChecking n)).
Proof.
  intros HR HT Hpc. pose proof HR as []. pose proof HT as []. rewrite Hpc in R_pc0.
  destruct (at_spc a) as [| |n [f x' d]]; cbn in R_pc0; try done. destruct R_pc0 as (-> & <- & <- & Hd). cbn in *.
  unfold lwip_cyclic_timer. destruct (rd lwip_cyclic_timers x) as [i|] eqn:Ei; [|done]. cbn.
  pose proof (interval_bound _ _ Ei) as Hi. unfold WINDOW in *. rewrite Hd, !u32_add_l, less_than by lia.
  intros E. exists n, d, i. split_and!; try done.
  unfold next_due. destruct (Z.ltb_spec (d + i) (ms a)); (eapply R_with; [done|done|unfold WINDOW; lia|done|done| |cbn; lia]); cbn; done.
Qed.

Lemma code_rel s p q : pc_rel s p q -> in_code p = true -> sin_code q = true.
Proof. by destruct p, q. Qed.

Lemma tick_rel c a d : R c a -> 0 <= d ->
  R (Sys (tm c) (clk c) (ticks c + d) (at_pc c)) (Spec (alarms a) (active a) (sticks a + d) (mark a) (at_spc a)).
Proof.
  intros [] Hd. assert (ms a <= ms_of (sticks a + d)) as Hm by (apply Z.div_le_mono; [done|lia]).
  split; cbn; try done; [lia| |lia|].
  - eapply Forall_impl; [exact R_ahead0|]. unfold ms in *. cbn in *. lia.
  - unfold ms at 1. cbn. destruct (at_spc a); cbn in *; lia.
Qed.

Lemma cancel_rel c a f x : R c a ->
  R (Sys (sys_untimeout (tm c) f x) (clk c) (ticks c) (at_pc c))
    (Spec (cancel f x (alarms a)) (active a) (sticks a) (mark a) (at_spc a)).
Proof.
  intros []. pose proof (unlink_conc f x (alarms a)) as E. rewrite <- R_list0 in E. unfold sys_untimeout.
  destruct (unlink_timeout f x (next_timeout (tm c))); split; cbn; try done.
  all: try by apply cancel_sorted. all: try by apply cancel_Forall.
Qed.

Lemma sleeptime_rel c a r : R c a -> timely a -> sys_timeouts_sleeptime (tm c) (u32 (ms a)) = Some r ->
  r = sleeptime (alarms a) (ms a).
Proof.
  intros [] []. unfold sys_timeouts_sleeptime, sleeptime. rewrite R_list0.
  destruct (alarms a) as [|e q] eqn:Ea; cbn; [by intros [= <-]|]. cbn in *.
  apply Forall_cons in R_ahead0 as [? _], tl_alarms0 as [? _]. unfold WINDOW in *. rewrite less_than by lia. destruct (Z.ltb_spec (due e) (ms a)); [intros [= <-]; lia|].
  case_guard; [|done]. intros [= <-]. unfold u32. rewrite <- Zminus_mod, Z.mod_small; lia.
Qed.

Lemma needed_rel c a b t : R c a -> timely a -> in_code (at_pc c) = true ->
  tcp_timer_needed (tm c) (u32 (ms a)) b = Some t ->
  exists a', spec_step a (LNeeded b) a' /\
    R (Sys t (if negb (tcpip_tcp_timer_active (tm c)) && b then clock_at (sticks a) else clk c) (ticks c) (at_pc c)) a'.
Proof.
  intros HR HT Hc. pose proof HR as []. unfold tcp_timer_needed. rewrite R_active0.
  destruct (negb (active a) && b) eqn:E.
  - apply andb_prop in E as [Ea%negb_true_iff ->]. intros Ht.
    set (c1 := Sys (set_active (tm c) true) (clk c) (ticks c) (at_pc c)).
    set (a1 := Spec (alarms a) true (sticks a) (mark a) (at_spc a)).
    assert (R c1 a1) as HR1 by (by split). assert (timely a1) as HT1 by (destruct HT; by split).
    destruct (timeout_rel c1 a1 TCP_TMR_INTERVAL HTcp 0 t true (at_pc c) (at_spc a) HR1 HT1) as [_ HR']; try done.
    + intros E'. by apply (pc_rel_due (tm c)).
    + exists (with_alarm a true (Alarm HTcp 0 (ms a + TCP_TMR_INTERVAL)) (at_spc a)). split; [|exact HR'].
      by apply a_needed; [eapply code_rel|..].
  - intros [= <-]. exists a. split; [|by split]. apply a_not_needed; [by eapply code_rel|].
    apply andb_false_iff in E as [E%negb_false_iff| ->]; auto.
Qed.

Lemma step_sim c a l c' : R c a -> timely a -> step c l c' -> exists a', spec_step a l a' /\ R c' a'.
Proof.
  intros HR HT Hs. pose proof HR as []. pose proof (read_rel _ _ HR HT) as Hrd. destruct Hs.
  - eexists. split; [by constructor|]. by apply tick_rel.
  - rewrite Hrd in H1. injection H1 as <- <-. eapply timeout_rel with (b := active a) in H2 as [Hm HR']; eauto using pc_rel_due.
    eexists. split; [|exact HR']. constructor; [by eapply code_rel|done].
  - eexists. split; [constructor; by eapply code_rel|]. by apply cancel_rel.
  - rewrite Hrd in H0. injection H0 as <- <-. rewrite H in R_pc0. destruct (at_spc a) eqn:Ep; try done.
    eexists. split; [by constructor|]. split; cbn; done.
  - destruct (fire_rel _ _ _ _ _ _ HR HT H H0) as (n & e & r & Ep & Ea & He & -> & -> & HR').
    eexists. split; [|exact HR']. by apply a_fire.
  - destruct (end_rel _ _ _ _ HR HT H H0) as (-> & n & Ep & Hf). eexists. split; [by eapply a_end|]. by split.
  - rewrite Hrd in H0. injection H0 as <- <-.
    destruct (cyclic_rel _ _ _ _ _ HR HT H H1) as (n & d & i & Ep & Ei & HR').
    eexists. split; [|exact HR']. by eapply a_cyclic.
  - rewrite Hrd in H0. injection H0 as <- <-. rewrite H in R_pc0. rewrite R_ticks0 in *.
    destruct (at_spc a) as [| |n [f y d]] eqn:Ep; try done. destruct R_pc0 as (-> & Hf & Hx & Hd). cbn in *. subst f y.
    eapply timeout_rel with (b := active a) (p := Checking (u32 n)) (p' := SChecking n) in H1 as [_ HR']; [|done|done|done|done|done|cbn; lia].
    rewrite R_ticks0 in HR'. eexists. split; [|exact HR']. by eapply a_tcp_again.
  - injection H0 as <-. rewrite H in R_pc0. destruct (at_spc a) as [| |n [f y d]] eqn:Ep; try done.
    destruct R_pc0 as (-> & Hf & Hx & Hd). cbn in *. subst f y. eexists. split; [by eapply a_tcp_stop|]. split; cbn; try done. unfold ms in *. cbn in *. lia.
  - rewrite H in R_pc0. destruct (at_spc a) as [| |n e] eqn:Ep; try done.
    destruct R_pc0 as (-> & Hf & Hx & Hd). cbn in *. subst f x. eexists. split; [by eapply a_other|]. split; cbn; try done. unfold ms in *. cbn in *. lia.
  - rewrite Hrd in H0. injection H0 as <- <-. by apply needed_rel.
  - rewrite Hrd in H0. injection H0 as <- <-. rewrite H in R_pc0. destruct (at_spc a) eqn:Ep; try done.
    rewrite (sleeptime_rel _ _ _ HR HT H1). eexists. split; [by apply a_sleeptime|].
    destruct (alarms a) as [|e q] eqn:Ea; rewrite R_list0; cbn; by split; cbn; rewrite ?Ea.
Qed.

(** C19: The timers of the TCP/IP stack, kept as 32-bit times that wrap around every 49 days
    and compared modulo 2^32, behave like alarms in unbounded time: whatever the stack and
    its handlers set and cancel, also while a check is under way, every step of the code is
    a step of the specification, as long as the thread is not late by more than five days.
    So a timer runs only when it is due, the earliest first and those of the same time in
    the order they were set; a check ends only when no timer is left that was due when it
    began; a cyclic timer keeps its raster unless it missed a whole turn; and the time to
    sleep is the time to the first timer. *)
Theorem timers_refine (c c' : sys) (a : spec) (l : label) (HR : R c a) (HT : timely a) (Hs : step c l c') :
  R (Sys timers0 persistent0 0 Idle) (Spec [] false 0 0 SIdle) /\
  exists a', spec_step a l a' /\ R c' a' /\
    (forall f x, l = LFire f x -> exists e, alarms a = e :: alarms a' /\ ah e = f /\ aarg e = x /\
       due e <= ms a /\ Forall (fun b => due e <= due b) (alarms a')).
Proof.
  split; [by split; cbn; [..|constructor| | |]|].
  destruct (step_sim _ _ _ _ HR HT Hs) as (a' & Hs' & HR'). exists a'. split; [done|]. split; [done|].
  intros f x ->. inversion Hs' as [| | | |a0 n e r Hp Ha Hd| | | | | | | |]; subst. exists e.
  pose proof HR as []. rewrite Ha in *. rewrite Hp in *. apply StronglySorted_inv in R_sorted0 as [_ Hf]. cbn in *.
  split_and!; try done. lia.
Qed.

(** The DHCP fine timer, due just before the clock wraps around, expires after it. *)
Lemma timers_refine_witness :
  let c := Sys (Timers [Timeo HCyclic 4 (2 ^ 32 - 3)] 0 false 5) (clock_at (2 ^ 32 * 10 + 20)) (2 ^ 32 * 10 + 20)
             (Checking 2) in
  let a := Spec [Alarm HCyclic 4 (2 ^ 32 - 3)] false (2 ^ 32 * 10 + 20) (2 ^ 32 * 10 + 20) (SChecking (2 ^ 32 + 2)) in
  exists a', spec_step a (LFire HCyclic 4) a'.
Proof.
  intros c a.
  destruct (timers_refine c (Sys (Timers [] (2 ^ 32 - 3) false 6) (clk c) (ticks c) (Running 2 HCyclic 4)) a
              (LFire HCyclic 4)) as (_ & a' & H & _).
  - split; try done; repeat constructor; done.
  - split; try done; repeat constructor; done.
  - by eapply (t_fire c 2).
  - by exists a'.
Defined.

(** C25: The thread of the stack never sleeps past a timer: before it waits for a message it
    looks at the first timer.  With none it waits for ever; with one that is due it checks
    the timers, and the first turn of that check runs it; otherwise it waits until that
    timer is due (for waits below five days): when the wait times out the timer is due,
    and has been for at most 9 ticks (less than a millisecond). *)
Theorem tcpip_wakes_in_time (c : sys) (a : spec) (HR : R c a) (HT : timely a) (Hi : at_pc c = Idle) :
  let now := (read_clock c).2 in
  exists r, sys_timeouts_sleeptime (tm c) now = Some r /\
    match tcpip_timeouts_mbox_fetch r, alarms a with
    | FetchForever, q => q = []
    | CheckTimeouts, e :: _ => due e <= ms a /\ (check_turn (tm c) now).2 = Some (ah e, aarg e)
    | FetchFor s, e :: _ => ms a < due e /\ (s * ticks_per_ms < 2 ^ 32 ->
        ms_of (ticks c + timeout_ticks s) = due e /\
        forall d, due e <= ms_of (ticks c + d) -> timeout_ticks s - 9 <= d)
    | _, [] => False
    end.
Proof.
  intros now. subst now. rewrite (read_rel c a HR HT). cbn [snd].
  pose proof HR as []. pose proof HT as [].
  unfold sys_timeouts_sleeptime, check_turn, tcpip_timeouts_mbox_fetch. rewrite R_list0.
  destruct (alarms a) as [|e q] eqn:Ea; cbn; [by eexists|].
  apply Forall_cons in R_ahead0 as [? _], tl_alarms0 as [? _]. unfold WINDOW in *. rewrite !less_than by lia.
  destruct (Z.ltb_spec (due e) (ms a)).
  { exists 0. split; [done|]. cbn. ztests. split; [lia|done]. }
  assert (u32 (u32 (due e) - u32 (ms a)) = due e - ms a) as ->.
  { unfold u32. rewrite <- Zminus_mod, Z.mod_small; lia. }
  rewrite option_guard_True by (unfold LWIP_MAX_TIMEOUT; lia). cbn. eexists. split; [done|].
  rewrite (proj2 (Z.eqb_neq _ SYS_TIMEOUTS_SLEEPTIME_INFINITE)) by (unfold SYS_TIMEOUTS_SLEEPTIME_INFINITE; lia).
  destruct (Z.eqb_spec (due e - ms a) 0); [rewrite (proj2 (Z.ltb_ge _ _)) by lia; split; [lia|done]|].
  split; [lia|]. intros Hs.
  rewrite timeout_ticks_exact by lia. rewrite R_ticks0. unfold ms, ms_of in *. change ticks_per_ms with 10 in *.
  pose proof (Z.div_mod (sticks a) 10 ltac:(lia)). pose proof (Z.mod_pos_bound (sticks a) 10 ltac:(lia)).
  split; [rewrite Z.div_add by lia; lia|]. intros d Hd.
  assert (due e * 10 <= sticks a + d); [|lia].
  pose proof (Z.mul_div_le (sticks a + d) 10 ltac:(lia)). lia.
Qed.

Lemma tcpip_wakes_in_time_witness :
  sys_timeouts_sleeptime (Timers [Timeo HCyclic 4 3] 0 false 5) (2 ^ 32 - 2) = Some 5.
Proof.
  destruct (tcpip_wakes_in_time
    (Sys (Timers [Timeo HCyclic 4 3] 0 false 5) (clock_at (2 ^ 32 * 10 - 20)) (2 ^ 32 * 10 - 15) Idle)
    (Spec [Alarm HCyclic 4 (2 ^ 32 + 3)] false (2 ^ 32 * 10 - 15) (2 ^ 32 * 10 - 20) SIdle)) as (r & H & _).
  - split; try done; repeat constructor; done.
  - split; try done; repeat constructor; done.
  - done.
  - vm_compute in H. by vm_compute.
Defined.

(** ** The pool of timers *)

Definition key (t : timeo) : handler * Z := (h t, arg t).
Definition running (p : pc) : list (handler * Z) := match p with Running _ f x => [(f, x)] | _ => [] end.

Definition cyclic_keys : list (handler * Z) := [(HCyclic, 1); (HCyclic, 2); (HCyclic, 3); (HCyclic, 4)].
Definition tcp_key (b : bool) : list (handler * Z) := if b then [(HTcp, 0)] else [].

(** The stack's own timers are the only ones: nobody calls sys_timeout, sys_untimeout. *)
Definition own (l : label) : Prop := match l with LSet _ _ _ | LCancel _ _ => False | _ => True end.

Definition own_step (s s' : sys) : Prop := exists l, own l /\ step s l s'.

Record pool_inv (s : sys) : Prop := {
  pi_keys : (key <$> next_timeout (tm s)) ++ running (at_pc s) ≡ₚ cyclic_keys ++ tcp_key (tcpip_tcp_timer_active (tm s));
  pi_room : room (tm s) + Zlen (next_timeout (tm s)) = MEMP_NUM_SYS_TIMEOUT;
}.

Lemma insert_keys n q : key <$> insert_timeout n q ≡ₚ key n :: (key <$> q).
Proof.
  induction q as [|t q IH]; [done|]. cbn. case_match; [done|]. cbn. rewrite IH. constructor.
Qed.

Lemma Zlen_keys (q : list timeo) : Zlen (key <$> q) = Zlen q.
Proof. unfold Zlen. by rewrite length_fmap. Qed.

Lemma insert_len n q : Zlen (insert_timeout n q) = Zlen q + 1.
Proof. rewrite <- !Zlen_keys. unfold Zlen. rewrite (insert_keys n q). cbn. lia. Qed.

(** At most five timers are pending, so the pool has a free one. *)
Lemma pool_inv_room s : pool_inv s -> 0 < room (tm s).
Proof.
  intros [Hk Hr]. apply Permutation_length in Hk. rewrite !length_app, length_fmap in Hk.
  unfold Zlen, MEMP_NUM_SYS_TIMEOUT in *. assert (length (tcp_key (tcpip_tcp_timer_active (tm s))) <= 1)%nat
    by (by destruct (tcpip_tcp_timer_active (tm s)); cbn; lia). cbn in Hk. lia.
Qed.

Lemma set_keys s d f x t : sys_timeout_abs s d f x = Some t ->
  (key <$> next_timeout t) ≡ₚ (f, x) :: (key <$> next_timeout s) /\
  tcpip_tcp_timer_active t = tcpip_tcp_timer_active s /\ room t + Zlen (next_timeout t) = room s + Zlen (next_timeout s).
Proof.
  unfold sys_timeout_abs. case_guard; [|done]. intros [= <-]. cbn. split; [apply insert_keys|]. rewrite insert_len.
  split; [done|lia].
Qed.

Lemma set_pool s d f x t p c k : sys_timeout_abs (tm s) d f x = Some t -> pool_inv s ->
  running (at_pc s) = (f, x) :: running p -> pool_inv (Sys t c k p).
Proof.
  intros (E1 & E2 & E3)%set_keys [Hk Hr] Hp. split; cbn; [|congruence]. rewrite E1, E2, <- Hk, Hp. cbn.
  by rewrite Permutation_middle.
Qed.

Lemma running_in f x s : pool_inv s -> running (at_pc s) = [(f, x)] ->
  (f, x) ∈ cyclic_keys ++ tcp_key (tcpip_tcp_timer_active (tm s)).
Proof. intros [Hk _] E. rewrite <- Hk, E. set_solver. Qed.

Lemma turn_pool s now t o : pool_inv s -> at_pc s = Checking now -> check_turn (tm s) now = (t, o) ->
  pool_inv (Sys t (clk s) (ticks s) (match o with Some (f, x) => Running now f x | None => Idle end)).
Proof.
  intros [Hk Hr] Hp. rewrite Hp in Hk. unfold check_turn.
  destruct (next_timeout (tm s)) as [|e r] eqn:E; [intros [= <- <-]; split; cbn; by rewrite E|].
  case_match; intros [= <- <-]; split; cbn; rewrite ?E; try done.
  - rewrite <- Hk. cbn. rewrite app_nil_r. by rewrite (Permutation_app_comm (key <$> r)).
  - rewrite Zlen_cons in Hr. lia.
Qed.

(** The TCP timer is started when it is neither pending nor running. *)
Lemma needed_pool s now b t c : pool_inv s -> tcp_timer_needed (tm s) now b = Some t ->
  pool_inv (Sys t c (ticks s) (at_pc s)).
Proof.
  intros [Hk Hr]. unfold tcp_timer_needed. destruct (negb _ && b) eqn:E; [|by intros [= <-]].
  apply andb_prop in E as [E%negb_true_iff _]. unfold sys_timeout. case_guard; [|done].
  intros (E1 & E2 & E3)%set_keys. cbn in E1, E2, E3. split; cbn; [|congruence].
  rewrite E1, E2. cbn [tcp_key]. rewrite E in Hk. cbn [tcp_key] in Hk. rewrite app_nil_r in Hk.
  cbn [app]. rewrite Hk. exact (Permutation_cons_append cyclic_keys (HTcp, 0)).
Qed.

Lemma own_step_inv s s' : own_step s s' -> pool_inv s -> pool_inv s'.
Proof.
  intros (l & Ho & Hs) HI. destruct Hs; try done.
  - by destruct HI.
  - destruct HI as [Hk Hr]. split; cbn; [|done]. by rewrite H in Hk.
  - eapply (turn_pool s now _ (Some (f, x))); done.
  - eapply (turn_pool s now _ None); done.
  - unfold lwip_cyclic_timer in H1. destruct (rd lwip_cyclic_timers x); [|done]. cbn in H1.
    case_match; (eapply set_pool; [done..|]); by rewrite H.
  - pose proof (running_in HTcp x s HI) as Hx. rewrite H in Hx. specialize (Hx eq_refl).
    assert (x = 0) as -> by (destruct (tcpip_tcp_timer_active (tm s)); cbn in Hx; set_solver).
    unfold tcpip_tcp_timer, sys_timeout in H1. case_guard; [|done]. cbn in H1.
    eapply set_pool; [done..|]. by rewrite H.
  - pose proof (running_in HTcp x s HI) as Hx. rewrite H in Hx. specialize (Hx eq_refl).
    injection H0 as <-. destruct HI as [Hk Hr]. split; cbn; [|done]. rewrite app_nil_r.
    destruct (tcpip_tcp_timer_active (tm s)); [|exfalso; cbn in Hx; set_solver].
    assert (x = 0) as -> by (cbn in Hx; set_solver). rewrite H in Hk. cbn [running tcp_key] in Hk.
    by apply Permutation_app_inv_r in Hk.
  - pose proof (running_in f x s HI) as Hx. rewrite H in Hx. specialize (Hx eq_refl).
    exfalso. destruct (tcpip_tcp_timer_active (tm s)); cbn in Hx; set_solver.
  - by eapply needed_pool.
  - destruct HI as [Hk Hr]. split; cbn; [|done]. by rewrite H in Hk.
Qed.

Lemma init_timeouts_spec ms : forall s i nows, length nows = length ms -> Forall (fun m => m < 2 ^ 30) ms ->
  Zlen ms <= room s ->
  exists t, init_timeouts s i ms nows = Some t /\ tcpip_tcp_timer_active t = tcpip_tcp_timer_active s /\
    (key <$> next_timeout t) ≡ₚ (pair HCyclic <$> seqZ i (Zlen ms)) ++ (key <$> next_timeout s) /\
    room t + Zlen (next_timeout t) = room s + Zlen (next_timeout s).
Proof.
  induction ms as [|m ms IH]; intros s i [|now nows] Hl HF Hr; try done; [by exists s|].
  apply Forall_cons in HF as [Hm HF]. rewrite Zlen_cons in *. pose proof (Zlen_nonneg ms). injection Hl as Hl.
  cbn [init_timeouts]. unfold sys_timeout. rewrite option_guard_True by (change (LWIP_UINT32_MAX / 4) with (2 ^ 30 - 1); lia).
  cbn [mbind option_bind]. destruct (sys_timeout_abs s (u32 (now + m)) HCyclic i) as [t1|] eqn:E.
  2: { unfold sys_timeout_abs in E. rewrite option_guard_True in E by lia. done. }
  pose proof (set_keys _ _ _ _ _ E) as (E1 & E2 & E3). unfold sys_timeout_abs in E. case_guard; [|done]. injection E as <-.
  cbn [mbind option_bind]. match goal with |- context [init_timeouts ?s1 (i + 1) ms nows] =>
    destruct (IH s1 (i + 1) nows Hl HF) as (t & -> & F1 & F2 & F3); [cbn; lia|] end.
  exists t. split; [done|]. split; [congruence|]. split; [|congruence].
  rewrite F2, E1, (seqZ_cons i) by lia. cbn [fmap list_fmap app].
  replace (Z.succ i) with (i + 1) by lia. replace (Z.pred (Zlen ms + 1)) with (Zlen ms) by lia.
  by rewrite Permutation_middle.
Qed.

(** C24: No timer of the TCP/IP stack is ever lost or doubled, and the pool of timers is
    never empty when one is set: the start sets the four cyclic timers (IP reassembly,
    ARP, DHCP coarse and fine), and in every later state, also in the middle of a check,
    each of them is pending or running exactly once, and the TCP timer exactly once if it
    is marked active and not at all otherwise.  So at most five of the pool's six elements
    are in use, and the assertion that one is left never halts the system. *)
Theorem timers_kept (nows : list Z) (p : persistent) (k : Z) (Hn : length nows = 4%nat) :
  exists t, sys_timeouts_init nows = Some t /\
    forall s, rtc own_step (Sys t p k Idle) s ->
      (key <$> next_timeout (tm s)) ++ running (at_pc s)
        ≡ₚ [(HCyclic, 1); (HCyclic, 2); (HCyclic, 3); (HCyclic, 4)] ++
           (if tcpip_tcp_timer_active (tm s) then [(HTcp, 0)] else []) /\
      1 <= room (tm s) /\ forall d f x, is_Some (sys_timeout_abs (tm s) d f x).
Proof.
  destruct (init_timeouts_spec (drop 1 lwip_cyclic_timers) timers0 1 nows) as (t & E & Ea & Ek & Er);
    [done|by repeat constructor|done|].
  exists t. split; [done|]. intros s Hs. assert (pool_inv (Sys t p k Idle)) as H0.
  { split; cbn; [|done]. rewrite app_nil_r, Ek, Ea. done. }
  assert (pool_inv s) as HI by (clear -Hs H0; induction Hs; eauto using own_step_inv).
  pose proof (pool_inv_room s HI). split_and!; [by destruct HI|lia|].
  intros d f x. unfold sys_timeout_abs. rewrite option_guard_True by done. by eexists.
Qed.

(** The fine DHCP timer has just expired. *)
Lemma timers_kept_witness : exists s, at_pc s = Running 500 HCyclic 4 /\ 1 <= room (tm s).
Proof.
  destruct (timers_kept [0; 0; 0; 0] persistent0 5000) as (t & E & H); [done|]. injection E as <-.
  eexists. split; [|eapply H, rtc_l; [|eapply rtc_once]].
  2: { exists LBegin. split; [done|]. by eapply t_begin. }
  2: { exists (LFire HCyclic 4). split; [done|]. by eapply t_fire. }
  done.
Defined.
