(* ===== verification/Leds.v ===== *)
(** * Leds: the heartbeat LED (src/src/heartbeat.c) and the status LED
    (src/src/status_led.c)

    Each LED pair is driven by a one-shot virtual timer whose callback re-arms it.
    The lines are active low. *)

From S2P Require Import Prelude Chibi.
Import Time.

(** ** Heartbeat *)
Module Heartbeat.

Definition HEARTBEAT_RECENT_MS : Z := 100.

Record state := mk {
  red : level;
  green : level;
  blink_state : Z;              (* uint8_t *)
  last_idle_tick : Z;           (* written by the idle hook *)
  timer : option Z              (* armed interval in ticks, None when disarmed *)
}.

Definition elapsed (now : Z) (s : state) : bool :=
  HEARTBEAT_RECENT_MS <? TIME_I2MS (chVTTimeElapsedSinceX now (last_idle_tick s)).

(** Red when the idle thread has not run recently, green otherwise. *)
Definition show (now : Z) (s : state) : level * level :=
  if elapsed now s then (PAL_LOW, PAL_HIGH) else (PAL_HIGH, PAL_LOW).

Definition heartbeat_timer_cb (now : Z) (s : state) : state :=
  match blink_state s with
  | 0 => let '(r, g) := show now s in
         mk r g (u8 (blink_state s + 1)) (last_idle_tick s) (Some (TIME_MS2I 100))
  | 1 => mk PAL_HIGH PAL_HIGH (u8 (blink_state s + 1)) (last_idle_tick s)
            (Some (TIME_MS2I 100))
  | 2 => let '(r, g) := show now s in
         mk r g (u8 (blink_state s + 1)) (last_idle_tick s) (Some (TIME_MS2I 100))
  | _ => mk PAL_HIGH PAL_HIGH 0 (last_idle_tick s) (Some (TIME_MS2I 500))
  end.

Definition InitHeartbeat (s : state) : state :=
  mk (red s) (green s) (blink_state s) (last_idle_tick s) (Some (TIME_MS2I 100)).

(** The idle loop hook: the idle thread ran at [now]. *)
Definition idle_hook (now : Z) (s : state) : state :=
  mk (red s) (green s) (blink_state s) now (timer s).

Inductive step : state -> state -> Prop :=
| step_timer now s : timer s <> None -> step s (heartbeat_timer_cb now s)
| step_idle now s : step s (idle_hook now s).

(** At most one LED is lit, the phase is one of the four of the pattern, and the
    timer is armed. *)
Definition inv (s : state) : Prop :=
  (red s = PAL_HIGH \/ green s = PAL_HIGH) /\ 0 <= blink_state s <= 3 /\ timer s <> None.

Lemma show_one_lit now s : fst (show now s) = PAL_HIGH \/ snd (show now s) = PAL_HIGH.
Proof. unfold show. destruct (elapsed now s); simpl; auto. Qed.

Lemma cb_phase now s :
  0 <= blink_state s <= 3 -> blink_state (heartbeat_timer_cb now s) = (blink_state s + 1) mod 4.
Proof.
  intros H. unfold heartbeat_timer_cb.
  assert (blink_state s = 0 \/ blink_state s = 1 \/ blink_state s = 2 \/ blink_state s = 3)
    as [E|[E|[E|E]]] by lia; rewrite E; destruct (show now s); reflexivity.
Qed.

Lemma cb_inv now s : inv s -> inv (heartbeat_timer_cb now s).
Proof.
  intros (_ & Hb & _). pose proof (show_one_lit now s) as Hs. split_and!.
  - unfold heartbeat_timer_cb. destruct (show now s) as [r g]; simpl in Hs.
    repeat case_match; simpl; auto.
  - rewrite cb_phase by lia. pose proof (Z.mod_pos_bound (blink_state s + 1) 4). lia.
  - unfold heartbeat_timer_cb. destruct (show now s). by repeat case_match.
  - unfold heartbeat_timer_cb. destruct (show now s). by repeat case_match.
Qed.

(** From initialisation with both LEDs off, every reachable state of the
    heartbeat has at most one LED lit, a phase in 0..3 and its timer armed, whatever
    the interleaving of timer callbacks and idle loop runs. *)
Theorem heartbeat_invariant (s0 s : state)
  (H0 : red s0 = PAL_HIGH /\ green s0 = PAL_HIGH /\ blink_state s0 = 0)
  (Hr : rtc step (InitHeartbeat s0) s) : inv s.
Proof.
  destruct H0 as (Hr0 & Hg0 & Hb0).
  assert (inv (InitHeartbeat s0)) as Hi.
  { unfold inv, InitHeartbeat; simpl. rewrite Hb0. split_and!; auto; lia. }
  revert Hi. induction Hr as [|x y z Hst _ IH]; intros Hi; [done|]. apply IH.
  destruct Hst as [now s' _|now s']; [by apply cb_inv|]. done.
Qed.

Lemma heartbeat_invariant_witness :
  inv (heartbeat_timer_cb 1200 (idle_hook 90 (InitHeartbeat (mk PAL_HIGH PAL_HIGH 0 0 None)))).
Proof.
  apply (heartbeat_invariant (mk PAL_HIGH PAL_HIGH 0 0 None)); [done|].
  eapply rtc_l; [apply step_idle|]. eapply rtc_l; [apply step_timer; done|].
  apply rtc_refl.
Defined.

Lemma elapsed_ticks now s :
  elapsed now s = (1000 <? chVTTimeElapsedSinceX now (last_idle_tick s)).
Proof.
  unfold elapsed, HEARTBEAT_RECENT_MS, TIME_I2MS, CH_CFG_ST_FREQUENCY.
  set (i := chVTTimeElapsedSinceX now (last_idle_tick s)).
  assert (0 <= i < 2 ^ 32) as Hi by apply u32_range.
  assert (0 <= (i * 1000 + 10000 - 1) / 10000 < 2 ^ 32) as Hq.
  { split; [apply Z.div_pos; lia|]. apply Z.div_lt_upper_bound; lia. }
  rewrite u32_small by done.
  pose proof (Z.div_mod (i * 1000 + 10000 - 1) 10000).
  pose proof (Z.mod_pos_bound (i * 1000 + 10000 - 1) 10000).
  destruct (Z.ltb_spec 1000 i); [apply Z.ltb_lt|apply Z.ltb_ge]; lia.
Qed.

(** One period of the heartbeat: four successive callbacks show the health colour,
    dark, the health colour, dark, re-arming the timer for 100, 100, 100 and 500
    milliseconds and returning to phase 0; the colour is red exactly when the idle
    thread has been silent for more than 1000 ticks (0.1 s), green otherwise. *)
Theorem heartbeat_period (s0 : state) (t0 t1 t2 t3 : Z) :
  blink_state s0 = 0 ->
  let colour t s := if 1000 <? chVTTimeElapsedSinceX t (last_idle_tick s)
                    then (PAL_LOW, PAL_HIGH) else (PAL_HIGH, PAL_LOW) in
  let s1 := heartbeat_timer_cb t0 s0 in
  let s2 := heartbeat_timer_cb t1 s1 in
  let s3 := heartbeat_timer_cb t2 s2 in
  let s4 := heartbeat_timer_cb t3 s3 in
  (red s1, green s1) = colour t0 s0 /\ timer s1 = Some 1000 /\
  (red s2, green s2) = (PAL_HIGH, PAL_HIGH) /\ timer s2 = Some 1000 /\
  (red s3, green s3) = colour t2 s0 /\ timer s3 = Some 1000 /\
  (red s4, green s4) = (PAL_HIGH, PAL_HIGH) /\ timer s4 = Some 5000 /\
  blink_state s4 = 0.
Proof.
  destruct s0 as [r g b l tm]; simpl. intros ->.
  unfold heartbeat_timer_cb, show; simpl. rewrite elapsed_ticks; simpl.
  destruct (1000 <? chVTTimeElapsedSinceX t0 l); simpl; rewrite elapsed_ticks; simpl;
    destruct (1000 <? chVTTimeElapsedSinceX t2 l); simpl; split_and!; done.
Qed.

Lemma heartbeat_period_witness :
  let s0 := mk PAL_HIGH PAL_HIGH 0 100 None in
  red (heartbeat_timer_cb 5000 s0) = PAL_LOW.
Proof.
  exact (f_equal fst (proj1
    (heartbeat_period (mk PAL_HIGH PAL_HIGH 0 100 None) 5000 0 0 0 eq_refl))).
Defined.

End Heartbeat.

(** ** Status LED *)
Module StatusLed.

Inductive LED_MODE := LED_MODE_OFF | LED_MODE_ON | LED_MODE_BLINK_FAST | LED_MODE_BLINK_SLOW.
Inductive LED_COLOR := RED | GREEN.

#[export] Instance mode_eq_dec : EqDecision LED_MODE.
Proof. solve_decision. Defined.
#[export] Instance color_eq_dec : EqDecision LED_COLOR.
Proof. solve_decision. Defined.

Record state := mk {
  red : level;
  green : level;
  current_mode : LED_MODE;
  current_color : LED_COLOR;
  blink_state : Z;              (* uint8_t *)
  timer : option Z
}.

(** The body shared by the two blinking modes: toggle the line of the current colour
    and switch the other one off. *)
Definition blink (s : state) : level * level :=
  match current_color s with
  | RED => (toggle (red s), PAL_HIGH)
  | GREEN => (PAL_HIGH, toggle (green s))
  end.

Definition status_led_timer_cb (s : state) : state :=
  let arm := Some (TIME_MS2I 50) in
  match current_mode s with
  | LED_MODE_OFF => mk PAL_HIGH PAL_HIGH (current_mode s) (current_color s) (blink_state s) arm
  | LED_MODE_ON =>
      mk (if decide (current_color s = RED) then PAL_LOW else PAL_HIGH)
         (if decide (current_color s = GREEN) then PAL_LOW else PAL_HIGH)
         (current_mode s) (current_color s) (blink_state s) arm
  | LED_MODE_BLINK_FAST =>
      let '(r, g) := blink s in
      mk r g (current_mode s) (current_color s) (blink_state s) arm
  | LED_MODE_BLINK_SLOW =>
      let '(r, g) := if blink_state s mod 10 =? 0 then blink s else (red s, green s) in
      mk r g (current_mode s) (current_color s) (u8 (blink_state s + 1)) arm
  end.

Definition InitStatusLed (s : state) : state :=
  mk (red s) (green s) LED_MODE_OFF RED (blink_state s) (Some (TIME_MS2I 100)).

Definition SetStatusLedMode (m : LED_MODE) (s : state) : state :=
  mk (red s) (green s) m (current_color s) (blink_state s) (timer s).

Definition SetStatusLedColor (c : LED_COLOR) (s : state) : state :=
  mk (red s) (green s) (current_mode s) c (blink_state s) (timer s).

(** The timer fires whenever it is armed; the two setters run in any thread. *)
Inductive step : state -> state -> Prop :=
| step_timer s : timer s <> None -> step s (status_led_timer_cb s)
| step_mode m s : step s (SetStatusLedMode m s)
| step_color c s : step s (SetStatusLedColor c s).

Definition inv (s : state) : Prop :=
  (red s = PAL_HIGH \/ green s = PAL_HIGH) /\ timer s <> None.

Lemma status_cb_inv s : inv s -> inv (status_led_timer_cb s).
Proof.
  intros [Hl _]. unfold status_led_timer_cb, blink, inv.
  destruct (current_mode s), (current_color s); simpl; auto;
    destruct (blink_state s mod 10 =? 0); simpl; auto.
Qed.

(** In every state reachable from initialisation (with both LEDs off) under any
    interleaving of timer callbacks, mode changes and colour changes, the red and the
    green status LED are never lit together and the timer stays armed. *)
Theorem status_led_exclusive (s0 s : state)
  (H0 : red s0 = PAL_HIGH /\ green s0 = PAL_HIGH)
  (Hr : rtc step (InitStatusLed s0) s) : inv s.
Proof.
  destruct H0 as [Hr0 Hg0].
  assert (inv (InitStatusLed s0)) as Hi by (split; simpl; auto).
  revert Hi. induction Hr as [|x y z Hst _ IH]; intros Hi; [done|]. apply IH.
  destruct Hst; [by apply status_cb_inv|done|done].
Qed.

Lemma status_led_exclusive_witness :
  inv (status_led_timer_cb (SetStatusLedMode LED_MODE_BLINK_FAST
        (InitStatusLed (mk PAL_HIGH PAL_HIGH LED_MODE_ON GREEN 0 None)))).
Proof.
  apply (status_led_exclusive (mk PAL_HIGH PAL_HIGH LED_MODE_ON GREEN 0 None)); [done|].
  eapply rtc_l; [apply step_mode|]. eapply rtc_l; [apply step_timer; done|].
  apply rtc_refl.
Defined.

(** The level of the line of the current colour. *)
Definition lit_line (s : state) : level :=
  match current_color s with RED => red s | GREEN => green s end.

(** Number of the first [k] callbacks after the counter was 0 that toggle the LED: the
    counter is 8 bits wide. *)
Fixpoint slow_toggles (k : nat) : nat :=
  match k with
  | O => O
  | S k' => ((if ((Z.of_nat k' mod 256) mod 10 =? 0)%Z then 1 else 0) + slow_toggles k')%nat
  end.

Definition cb_iter (k : nat) (s : state) : state := Nat.iter k status_led_timer_cb s.

Lemma slow_iter k s :
  current_mode s = LED_MODE_BLINK_SLOW -> blink_state s = 0 ->
  let s' := cb_iter k s in
  current_mode s' = LED_MODE_BLINK_SLOW /\ current_color s' = current_color s /\
  blink_state s' = Z.of_nat k mod 256 /\
  lit_line s' = Nat.iter (slow_toggles k) toggle (lit_line s).
Proof.
  intros Hm Hb. unfold cb_iter. induction k as [|k IH]; [simpl; by rewrite Hb|].
  cbn zeta in IH |- *. rewrite Nat.iter_succ. destruct IH as (Im & Ic & Ib & Il).
  set (x := Nat.iter k status_led_timer_cb s) in *. clearbody x.
  assert (u8 (Z.of_nat k mod 256 + 1) = Z.of_nat (S k) mod 256) as Hu.
  { unfold u8. change (2 ^ 8) with 256. rewrite Z.add_mod_idemp_l by lia. f_equal. lia. }
  assert (current_mode (status_led_timer_cb x) = LED_MODE_BLINK_SLOW /\
          current_color (status_led_timer_cb x) = current_color x /\
          blink_state (status_led_timer_cb x) = u8 (blink_state x + 1) /\
          lit_line (status_led_timer_cb x) =
            if blink_state x mod 10 =? 0 then toggle (lit_line x) else lit_line x)
    as (Em & Ec & Eb & El).
  { unfold status_led_timer_cb. rewrite Im.
    destruct (blink_state x mod 10 =? 0); unfold blink, lit_line;
      destruct (current_color x) eqn:Ecx; simpl; rewrite ?Ecx; done. }
  rewrite Em, Ec, Eb, El, Ib, Il, Ic, Hu. cbn [slow_toggles].
  split_and!; try done. clear El. by destruct (_ =? _).
Qed.

(** In slow blinking mode with a fixed colour, the k-th callback after the blink
    counter was 0 toggles the LED of that colour exactly when (k mod 256) is a multiple
    of 10, so the LED changes state every 10 callbacks (0.5 s) except across the wrap of
    the 8-bit counter, where the distance is 6 callbacks. *)
Theorem status_led_slow_blink (k : nat) (s : state)
  (Hm : current_mode s = LED_MODE_BLINK_SLOW) (Hb : blink_state s = 0) :
  lit_line (cb_iter k s) = Nat.iter (slow_toggles k) toggle (lit_line s) /\
  blink_state (cb_iter k s) = Z.of_nat k mod 256.
Proof. pose proof (slow_iter k s Hm Hb) as (_ & _ & ? & ?). done. Qed.

Lemma status_led_slow_blink_witness :
  let s := mk PAL_HIGH PAL_HIGH LED_MODE_BLINK_SLOW GREEN 0 (Some 500) in
  lit_line (cb_iter 11 s) = PAL_HIGH /\ blink_state (cb_iter 11 s) = 11.
Proof.
  apply (status_led_slow_blink 11 (mk PAL_HIGH PAL_HIGH LED_MODE_BLINK_SLOW GREEN 0 (Some 500)));
    reflexivity.
Defined.

End StatusLed.
