(* ===== verification/Eeprom.v ===== *)
(** * Eeprom: identification EEPROMs of the mainboard and the carrier board
    (src/src/id_eeprom.c, id_eeprom.h)

    The I2C bus is a parameter: [I2CBus] states what the driver documents, that a
    transfer writes only into the receive buffer it was given.  The bus lock and the two
    static transfer buffers are explicit state; [None] is a blocked acquisition or a
    failed assertion. *)

From S2P Require Import Prelude.

Definition MSG_OK : Z := 0.

Class I2CBus (W : Type) := {
  (** device address, bytes to send, receive buffer; result code, receive buffer *)
  i2cMasterTransmit : W -> Z -> list Z -> list Z -> Z * list Z * W;
  i2c_rx_len : forall w a tx rx, length (snd (fst (i2cMasterTransmit w a tx rx))) = length rx;
  i2c_rx_bytes : forall w a tx rx,
    is_bytes rx -> is_bytes (snd (fst (i2cMasterTransmit w a tx rx)))
}.

(** What an EEPROM sends from register [reg] on; the address counter wraps at 256. *)
Definition read_mem (mem : Z -> Z) (reg : Z) (n : nat) : list Z :=
  map (fun i => mem ((reg + Z.of_nat i) mod 256)) (seq 0 n).

(** The data sheet of the EEPROMs on the bus: a transfer that sends one register number and succeeds delivers the
    bytes from that register on, of the device addressed; no such transfer changes what they hold. *)
Class EepromLaws (W : Type) `{I2CBus W} := {
  eeprom : W -> Z -> Z -> Z;
  eeprom_read : forall w a reg rx m rx' w', i2cMasterTransmit w a [reg] rx = (m, rx', w') ->
    (forall a x, eeprom w' a x = eeprom w a x) /\ (m = MSG_OK -> rx' = read_mem (eeprom w a) reg (length rx))
}.

Module Eeprom.
Section Eeprom.
Context {W : Type} `{Bus : I2CBus W}.

Definition EEPROM_DEVICE_ADDRESS : Z := 83.
Definition CARRIER_EEPROM_DEVICE_ADDRESS : Z := 80.
Definition BOOTLOADER_INFO_ADDRESS : Z := 0.
Definition BOARD_INFO_ADDRESS : Z := 64.
Definition CARRIER_BOARD_INFO_ADDRESS : Z := 0.

Record state := mk {
  bus_taken : bool;
  i2c4_tx_buffer : list Z;
  i2c4_rx_buffer : list Z;
  device : W
}.

Definition i2cAcquireBus (s : state) : option state :=
  if bus_taken s then None
  else Some (mk true (i2c4_tx_buffer s) (i2c4_rx_buffer s) (device s)).

Definition i2cReleaseBus (s : state) : state :=
  mk false (i2c4_tx_buffer s) (i2c4_rx_buffer s) (device s).

Definition set_tx (reg : Z) (s : state) : state :=
  mk (bus_taken s) [u8 reg] (i2c4_rx_buffer s) (device s).

(** A transfer into a caller's buffer. *)
Definition transmit (addr : Z) (buf : list Z) (s : state) : bool * list Z * state :=
  let '(m, buf', d) := i2cMasterTransmit (device s) addr (i2c4_tx_buffer s) buf in
  (m =? MSG_OK, buf', mk (bus_taken s) (i2c4_tx_buffer s) (i2c4_rx_buffer s) d).

(** XOR of the little-endian 16-bit words of [data], from byte index [i]. *)
Fixpoint checksum_from (i : Z) (sum : Z) (data : list Z) : Z :=
  match data with
  | [] => sum
  | b :: data' =>
      let sum' := if i mod 2 =? 0 then u16 (Z.lxor sum b)
                  else u16 (Z.lxor sum (Z.shiftl b 8)) in
      checksum_from (i + 1) sum' data'
  end.

Definition checksum (data : list Z) : Z := checksum_from 0 0 data.

(** The two packed structures have the same layout: version, board_id[32], major, minor,
    patch, checksum (39 bytes); the bootloader one has 37 bytes. *)
Definition sizeof_board_info : nat := 39.
Definition sizeof_bootloader_info : nat := 37.

Definition le16 (l : list Z) (i : nat) : Z :=
  nth i l 0 + Z.shiftl (nth (S i) l 0) 8.

Definition stored_checksum (buf : list Z) : Z := le16 buf 37.

(** memset to zero, then strncpy of the three characters, zero padded. *)
Definition default_info : list Z := [0] ++ str:("N/A") ++ replicate 35 0.

Definition board_id (buf : list Z) : list Z := take 32 (drop 1 buf).

Definition ID_EEPROM_GetMacAddress (buf : list Z) (s : state) : option (bool * list Z * state) :=
  if Zlen buf <=? 256 then
    s ← i2cAcquireBus s;
    let s := set_tx 250 s in
    let n := length buf in
    let '(m, got, d) := i2cMasterTransmit (device s) EEPROM_DEVICE_ADDRESS (i2c4_tx_buffer s)
                          (take n (i2c4_rx_buffer s)) in
    let rx := got ++ drop n (i2c4_rx_buffer s) in
    let success := m =? MSG_OK in
    let buf' := if success then take n rx else buf in
    Some (success, buf', i2cReleaseBus (mk (bus_taken s) (i2c4_tx_buffer s) rx d))
  else None.

Definition ID_EEPROM_GetBootloaderInfo (buf : list Z) (s : state) : option (bool * list Z * state) :=
  s ← i2cAcquireBus s;
  let s := set_tx BOOTLOADER_INFO_ADDRESS s in
  let '(success, buf', s) := transmit EEPROM_DEVICE_ADDRESS buf s in
  Some (success, buf', i2cReleaseBus s).

(** The common tail: validate what was read, or fill in the defaults. *)
Definition validate (success : bool) (buf : list Z) : list Z :=
  if negb success || negb (checksum (take 37 buf) =? stored_checksum buf)
  then default_info else buf.

Definition ID_EEPROM_GetBoardInfo (buf : list Z) (s : state) : option (bool * list Z * state) :=
  s ← i2cAcquireBus s;
  let s := set_tx BOARD_INFO_ADDRESS s in
  let '(success, buf', s) := transmit EEPROM_DEVICE_ADDRESS buf s in
  let s := i2cReleaseBus s in
  Some (success, validate success buf', s).

Definition ID_EEPROM_GetCarrierBoardInfo (buf : list Z) (s : state) : option (bool * list Z * state) :=
  s ← i2cAcquireBus s;
  let s := set_tx CARRIER_BOARD_INFO_ADDRESS s in
  let '(success, buf', s) := transmit CARRIER_EEPROM_DEVICE_ADDRESS buf s in
  let s := i2cReleaseBus s in
  Some (success, validate success buf', s).

(** ** The checksum *)

(** Contribution of one byte at index [i]. *)
Definition lane (i b : Z) : Z := if i mod 2 =? 0 then b else Z.shiftl b 8.

Lemma lane_range i b : is_byte b -> 0 <= lane i b < 2 ^ 16.
Proof.
  unfold is_byte, lane. intros. rewrite Z.shiftl_mul_pow2 by lia. destruct (_ =? _); lia.
Qed.

Lemma lane_inj i a b : lane i a = lane i b -> a = b.
Proof.
  unfold lane. rewrite !Z.shiftl_mul_pow2 by lia. destruct (_ =? _); lia.
Qed.

Lemma checksum_from_cons i sum b data :
  0 <= sum < 2 ^ 16 -> is_byte b ->
  checksum_from i sum (b :: data) = checksum_from (i + 1) (Z.lxor sum (lane i b)) data.
Proof.
  intros Hs Hb. pose proof (lane_range i b Hb) as Hl. unfold lane in *. simpl.
  destruct (i mod 2 =? 0); f_equal; apply u16_small; apply lxor_small; done.
Qed.

(** The initial value only offsets the result. *)
Lemma checksum_from_offset data : is_bytes data -> forall i sum,
  0 <= sum < 2 ^ 16 -> checksum_from i sum data = Z.lxor sum (checksum_from i 0 data).
Proof.
  induction 1 as [|b data Hb Hd IH]; intros i sum Hs; [simpl; by rewrite Z.lxor_0_r|].
  pose proof (lane_range i b Hb). rewrite !checksum_from_cons by (done || lia).
  rewrite (IH _ (Z.lxor sum _)) by (apply lxor_small; done).
  rewrite (IH _ (Z.lxor 0 _)) by (apply lxor_small; done || lia).
  rewrite Z.lxor_0_l. by rewrite Z.lxor_assoc.
Qed.

Lemma checksum_from_range data : is_bytes data -> forall i sum,
  0 <= sum < 2 ^ 16 -> 0 <= checksum_from i sum data < 2 ^ 16.
Proof.
  induction 1 as [|b data Hb Hd IH]; intros i sum Hs; [done|].
  rewrite checksum_from_cons by done. apply IH, lxor_small; auto using lane_range. lia.
Qed.

Lemma checksum_from_app l r : is_bytes l -> is_bytes r -> forall i,
  checksum_from i 0 (l ++ r) =
  Z.lxor (checksum_from i 0 l) (checksum_from (i + Zlen l) 0 r).
Proof.
  intros Hl Hr. assert (forall i sum, 0 <= sum < 2 ^ 16 ->
    checksum_from i sum (l ++ r) = checksum_from (i + Zlen l) (checksum_from i sum l) r) as H.
  { induction Hl as [|b l Hb Hl IH]; intros i sum Hs.
    - simpl. rewrite Zlen_nil. by rewrite Z.add_0_r.
    - change ((b :: l) ++ r) with (b :: (l ++ r)). rewrite !checksum_from_cons by done.
      rewrite IH by (apply lxor_small; auto using lane_range; lia).
      rewrite Zlen_cons. f_equal. lia. }
  intros i. rewrite H by lia. apply checksum_from_offset; [done|].
  apply checksum_from_range; [done|lia].
Qed.

(** The checksum of the EEPROM records detects every corruption confined to one
    byte: two records that differ in exactly one byte have different checksums. *)
Theorem checksum_detects_byte (l r : list Z) (a b : Z)
  (Hl : is_bytes l) (Hr : is_bytes r) (Ha : is_byte a) (Hb : is_byte b) (Hne : a <> b) :
  checksum (l ++ a :: r) <> checksum (l ++ b :: r).
Proof.
  unfold checksum. rewrite !checksum_from_app by auto.
  rewrite !checksum_from_cons, !(checksum_from_offset r Hr _ (Z.lxor _ _))
    by (auto || lia || (apply lxor_small; auto using lane_range; lia)).
  rewrite !Z.lxor_0_l. intros E.
  assert (forall x y z : Z, Z.lxor x y = Z.lxor x z -> y = z) as cancel.
  { intros x y z Hx. apply (f_equal (Z.lxor x)) in Hx.
    by rewrite <- !Z.lxor_assoc, Z.lxor_nilpotent, !Z.lxor_0_l in Hx. }
  apply cancel in E. rewrite !(Z.lxor_comm _ (checksum_from _ 0 r)) in E.
  apply cancel, lane_inj in E. done.
Qed.

(** ** What the readers deliver *)

Lemma transmit_len addr buf s ok buf' s' :
  transmit addr buf s = (ok, buf', s') -> length buf' = length buf.
Proof.
  unfold transmit. pose proof (i2c_rx_len (device s) addr (i2c4_tx_buffer s) buf) as H.
  destruct (i2cMasterTransmit _ _ _ _) as [[m b] d]. simpl in H. by intros [= _ <- _].
Qed.

(** The exclusive or of the 16-bit words of a record, the last byte alone when the length is odd. *)
Fixpoint words_xor (l : list Z) : Z :=
  match l with
  | [] => 0
  | [a] => a
  | a :: b :: r => Z.lxor (a + 256 * b) (words_xor r)
  end.

Lemma words_xor_range l : is_bytes l -> 0 <= words_xor l < 2 ^ 16.
Proof.
  assert (forall k l, (length l <= k)%nat -> is_bytes l -> 0 <= words_xor l < 2 ^ 16) as H; [|eauto].
  clear l. induction k as [|k IH]; intros [|a [|b r]] Hk Hb; cbn [words_xor length] in *; try lia;
    repeat apply Forall_cons in Hb as [? Hb]; unfold is_byte in *; [lia|].
  apply lxor_small; [lia|lia|]. apply IH; [lia|done].
Qed.

Lemma word_lxor a b : is_byte a -> Z.lxor a (Z.shiftl b 8) = a + 256 * b.
Proof.
  intros Ha. unfold is_byte in Ha. rewrite <- Z.add_nocarry_lxor; [rewrite Z.shiftl_mul_pow2 by lia; lia|].
  apply Z.bits_inj'. intros n Hn. rewrite Z.land_spec, Z.bits_0. destruct (Z.lt_ge_cases n 8).
  - rewrite Z.shiftl_spec_low by done. apply andb_false_r.
  - rewrite (proj1 (bounded_bits 8 a ltac:(lia)) ltac:(lia) n) by done. done.
Qed.

Lemma checksum_words l : is_bytes l -> checksum l = words_xor l.
Proof.
  assert (forall k l i, (length l <= k)%nat -> is_bytes l -> i mod 2 = 0 -> checksum_from i 0 l = words_xor l) as H; [|eauto].
  clear l. induction k as [|k IH]; intros [|a [|b r]] i Hk Hb Hi; cbn [words_xor length] in *; try lia; try done;
    repeat apply Forall_cons in Hb as [? Hb].
  - rewrite checksum_from_cons by (done || lia). unfold lane. rewrite Hi. cbn. done.
  - rewrite !checksum_from_cons by (done || lia || (apply lxor_small; auto using lane_range; lia)).
    assert ((i + 1) mod 2 = 1) as Hi1 by (rewrite Zplus_mod, Hi; done). unfold lane. rewrite Hi, Hi1. cbn [Z.eqb].
    rewrite Z.lxor_0_l, checksum_from_offset; [|done|].
    + rewrite (IH r) by (lia || done || (rewrite <- Z.add_assoc, Zplus_mod, Hi; done)). f_equal. by rewrite word_lxor.
    + apply lxor_small; [lia|unfold is_byte in *; lia|]. apply (lane_range 1 b). done.
Qed.

(** A record that may be used: one with a matching checksum, or the default. *)
Definition trusted (buf : list Z) : Prop :=
  checksum (take 37 buf) = stored_checksum buf \/ buf = default_info.

Lemma validate_trusted ok buf : trusted (validate ok buf).
Proof.
  unfold validate, trusted. destruct ok; simpl; [|auto].
  destruct (Z.eqb_spec (checksum (take 37 buf)) (stored_checksum buf)); simpl; auto.
Qed.

Lemma validate_len ok buf : length buf = sizeof_board_info -> length (validate ok buf) = sizeof_board_info.
Proof. unfold validate. by destruct (_ || _). Qed.

(** The specification of a record: the last word is the exclusive or of the words before it. *)
Definition intact (rec : list Z) : bool := words_xor (take 37 rec) =? nth 37 rec 0 + 256 * nth 38 rec 0.

Lemma validate_intact rec : is_bytes rec -> validate true rec = if intact rec then rec else default_info.
Proof.
  intros Hb. unfold validate, intact, stored_checksum, le16. rewrite checksum_words by (by apply Forall_take).
  rewrite Z.shiftl_mul_pow2 by lia. replace (nth 38 rec 0 * 2 ^ 8) with (256 * nth 38 rec 0) by lia. cbn [negb orb].
  by destruct (_ =? _).
Qed.

Lemma read_mem_len mem reg n : length (read_mem mem reg n) = n.
Proof. unfold read_mem. by rewrite length_map, length_seq. Qed.

Section Chip.
Context {Laws : EepromLaws W}.

(** The record of a device. *)
Definition record_of (s : state) (addr reg : Z) : list Z := read_mem (eeprom (device s) addr) reg sizeof_board_info.

(** What the EEPROMs hold are bytes, and a transfer from the device at [addr] gives [code]. *)
Definition holds_bytes (s : state) : Prop := forall a x, is_byte (eeprom (device s) a x).
Definition bus_code (s : state) (addr reg : Z) (n : list Z) : Z := fst (fst (i2cMasterTransmit (device s) addr [reg] n)).

(** A transfer as the readers make it. *)
Lemma transmit_reads addr reg buf s : bus_taken s = true -> u8 reg = reg ->
  exists s', transmit addr buf (set_tx reg s) =
    (bus_code s addr reg buf =? MSG_OK, snd (fst (i2cMasterTransmit (device s) addr [reg] buf)), s') /\
    bus_taken s' = true /\ (forall a x, eeprom (device s') a x = eeprom (device s) a x) /\
    (bus_code s addr reg buf = MSG_OK -> snd (fst (i2cMasterTransmit (device s) addr [reg] buf)) = read_mem (eeprom (device s) addr) reg (length buf)).
Proof.
  intros Ht Hr. unfold transmit, set_tx, bus_code. cbn [device i2c4_tx_buffer bus_taken i2c4_rx_buffer]. rewrite Hr.
  destruct (i2cMasterTransmit (device s) addr [reg] buf) as [[m got] d] eqn:E. destruct (eeprom_read _ _ _ _ _ _ _ E) as [H1 H2].
  eexists. split; [done|]. by split_and!.
Qed.

(** What a read of an information record delivers, exactly. *)
Definition info_exact (s : state) (addr reg : Z) (buf : list Z) (r : option (bool * list Z * state)) : Prop :=
  exists s', r = Some (bus_code s addr reg buf =? MSG_OK,
      if (bus_code s addr reg buf =? MSG_OK) && intact (record_of s addr reg) then record_of s addr reg else default_info, s') /\
    bus_taken s' = false /\ (forall a x, eeprom (device s') a x = eeprom (device s) a x).

Lemma info_read_exact s addr reg buf : bus_taken s = false -> holds_bytes s -> length buf = sizeof_board_info -> u8 reg = reg ->
  info_exact s addr reg buf (s ← i2cAcquireBus s;
     let s := set_tx reg s in
     let '(success, buf', s) := transmit addr buf s in
     let s := i2cReleaseBus s in
     Some (success, validate success buf', s)).
Proof.
  intros Hf Hb Hl Hr. unfold i2cAcquireBus. rewrite Hf. cbn [mbind option_bind]. set (s1 := mk true _ _ _).
  destruct (transmit_reads addr reg buf s1 eq_refl Hr) as (s' & -> & _ & Hs' & Hd). change (bus_code s1) with (bus_code s) in *.
  change (device s1) with (device s) in *. exists (i2cReleaseBus s'). split; [|done]. f_equal. f_equal. f_equal.
  destruct (Z.eqb_spec (bus_code s addr reg buf) MSG_OK) as [E|E]; [|done]. rewrite (Hd E), Hl. cbn [andb]. apply validate_intact.
  apply Forall_map, Forall_true. intros i. apply Hb.
Qed.

(** One changed byte of the data makes an intact record not intact. *)
Lemma intact_detects l r a b c : is_bytes (l ++ a :: r) -> is_byte b -> a <> b -> (length l + length r = 36)%nat -> is_bytes c -> length c = 2%nat ->
  intact ((l ++ a :: r) ++ c) = true -> intact ((l ++ b :: r) ++ c) = false.
Proof.
  intros Hb1 Hb Hne Hl Hc Hc2 Hi. pose proof Hb1 as Hb2. apply Forall_app in Hb2 as [Hl1 [Ha Hr]%Forall_cons].
  assert (is_bytes (l ++ b :: r)) as Hb3 by (apply Forall_app; split; [done|by constructor]).
  unfold intact in *. assert (forall x, take 37 ((l ++ x :: r) ++ c) = l ++ x :: r) as Ht
    by (intros x; rewrite take_app_le by (rewrite length_app; simpl; lia); apply take_ge; rewrite length_app; simpl; lia).
  assert (forall x i, nth (37 + i) ((l ++ x :: r) ++ c) 0 = nth i c 0) as Hn
    by (intros x i; rewrite app_nth2 by (rewrite length_app; simpl; lia); f_equal; rewrite length_app; simpl; lia).
  rewrite Ht, (Hn a 0%nat : nth 37 _ 0 = _), (Hn a 1%nat : nth 38 _ 0 = _) in Hi.
  rewrite Ht, (Hn b 0%nat : nth 37 _ 0 = _), (Hn b 1%nat : nth 38 _ 0 = _).
  apply Z.eqb_eq in Hi. apply Z.eqb_neq. rewrite <- Hi, <- !checksum_words by done. intros E. symmetry in E.
  by apply (checksum_detects_byte l r a b) in E.
Qed.

(** C36: The board information is what the EEPROM holds, or the default.  With the bus free, whatever the bus answers:
    reading the information of the mainboard delivers the 39 bytes that the EEPROM at address 83 holds from register
    64 on, that of the carrier board those the EEPROM at address 80 holds from register 0 on - exactly when the transfer
    succeeds and the last two of them are the exclusive or of the 16-bit words of the others - and otherwise the default
    record (all zero, board_id N/A); the MAC address is, exactly when the transfer succeeds, the bytes of the EEPROM at
    address 83 from register 250 on, and otherwise the buffer is untouched; the result says whether the transfer
    succeeded, the bus is free again and the EEPROMs are unchanged.  A record whose data was changed in one byte is never
    taken for intact. *)
Theorem board_info_exact (buf mac : list Z) (s : state)
  (Hfree : bus_taken s = false) (Hlen : length buf = sizeof_board_info) (Hb : holds_bytes s)
  (Hrx : length (i2c4_rx_buffer s) = 256%nat) (Hmac : Zlen mac <= 256) :
  info_exact s 83 64 buf (ID_EEPROM_GetBoardInfo buf s) /\
  info_exact s 80 0 buf (ID_EEPROM_GetCarrierBoardInfo buf s) /\
  (exists s', let code := bus_code s 83 250 (take (length mac) (i2c4_rx_buffer s)) in
     ID_EEPROM_GetMacAddress mac s =
       Some (code =? MSG_OK, if code =? MSG_OK then read_mem (eeprom (device s) 83) 250 (length mac) else mac, s') /\
     bus_taken s' = false /\ (forall a x, eeprom (device s') a x = eeprom (device s) a x)) /\
  (forall l r a b c, is_bytes (l ++ a :: r) -> is_byte b -> a <> b -> (length l + length r = 36)%nat -> is_bytes c -> length c = 2%nat ->
     intact ((l ++ a :: r) ++ c) = true -> intact ((l ++ b :: r) ++ c) = false).
Proof.
  split_and!; [by apply (info_read_exact s 83 64)|by apply (info_read_exact s 80 0)| |exact intact_detects].
  unfold ID_EEPROM_GetMacAddress. rewrite (proj2 (Z.leb_le _ _)) by done. unfold i2cAcquireBus. rewrite Hfree. cbn [mbind option_bind].
  unfold set_tx, bus_code, Zlen in *. cbn [device i2c4_tx_buffer i2c4_rx_buffer bus_taken]. change (u8 250) with 250. change EEPROM_DEVICE_ADDRESS with 83.
  set (rx0 := take (length mac) (i2c4_rx_buffer s)).
  assert (length rx0 = length mac) as L0 by (unfold rx0; rewrite length_take; lia).
  pose proof (i2c_rx_len (device s) 83 [250] rx0) as Hg.
  destruct (i2cMasterTransmit (device s) 83 [250] rx0) as [[m got] d] eqn:E. cbn [fst snd] in *.
  destruct (eeprom_read _ _ _ _ _ _ _ E) as [H1 H2].
  exists (i2cReleaseBus (mk true [250] (got ++ drop (length mac) (i2c4_rx_buffer s)) d)). split; [|done]. do 3 f_equal.
  destruct (Z.eqb_spec m MSG_OK) as [Em|]; [|done]. rewrite <- L0, <- Hg, take_app_length. by rewrite Hg; apply H2.
Qed.
End Chip.

(** Reading the MAC address: for a buffer of at most 256 bytes and a free bus the
    call returns with the bus free and the static buffer still 256 bytes long; on
    success the buffer holds the received bytes, on failure it is untouched; a larger
    buffer fails the assertion. *)
Theorem mac_address_spec (buf : list Z) (s : state)
  (Hfree : bus_taken s = false) (Hrx : length (i2c4_rx_buffer s) = 256%nat) :
  if Zlen buf <=? 256 then
    exists ok buf' s', ID_EEPROM_GetMacAddress buf s = Some (ok, buf', s') /\
      bus_taken s' = false /\ length (i2c4_rx_buffer s') = 256%nat /\
      buf' = if ok then take (length buf) (i2c4_rx_buffer s') else buf
  else ID_EEPROM_GetMacAddress buf s = None.
Proof.
  unfold ID_EEPROM_GetMacAddress. destruct (Z.leb_spec (Zlen buf) 256) as [Hl|]; [|done].
  unfold i2cAcquireBus. rewrite Hfree. simpl. unfold Zlen in Hl.
  set (rx0 := take _ _).
  pose proof (i2c_rx_len (device s) EEPROM_DEVICE_ADDRESS [u8 250] rx0) as Hg.
  destruct (i2cMasterTransmit _ _ _ _) as [[m got] d]. simpl in Hg.
  do 3 eexists. split_and!; [reflexivity|done| |done]. simpl.
  subst rx0. rewrite length_app, Hg, length_take, length_drop. lia.
Qed.

End Eeprom.
End Eeprom.

(** ** A concrete device: a memory image that always answers *)
Module EepromImage.
Import Eeprom.

Definition image_mem (img : list Z) (x : Z) : Z := nth (Z.to_nat x) img 255.
Definition read_image (img : list Z) (reg : Z) (n : nat) : list Z := read_mem (image_mem img) reg n.

#[refine] Instance image_bus : I2CBus { img : list Z | is_bytes img } := {
  i2cMasterTransmit w a tx rx :=
    (if a =? 83 then MSG_OK else -1,
     if a =? 83 then read_image (proj1_sig w) (hd 0 tx) (length rx) else rx, w)
}.
Proof.
  - intros w a tx rx. simpl. destruct (a =? 83); [|done]. unfold read_image.
    by rewrite read_mem_len.
  - intros [img Himg] a tx rx Hrx. simpl. destruct (a =? 83); [|done]. unfold read_image.
    apply Forall_map, Forall_true. intros i. unfold image_mem. rewrite nth_lookup.
    destruct (img !! _) eqn:E; simpl; [|done]. exact (Forall_lookup_1 _ _ _ _ Himg E).
Defined.

(** Board information at register 64, with its checksum. *)
Definition board_data : list Z :=
  [1] ++ str:("xcore") ++ replicate 27 0 ++ [2; 3; 4; 0].

Definition image_bytes : list Z :=
  replicate 64 0 ++ board_data ++ [checksum board_data mod 256; checksum board_data / 256].

Lemma image_is_bytes : is_bytes image_bytes.
Proof.
  apply (proj2 (Forall_forall _ _)). intros x Hx.
  assert (forallb (fun b => (0 <=? b) && (b <? 256)) image_bytes = true) as H by reflexivity.
  rewrite forallb_forall in H. apply list_elem_of_In in Hx.
  specialize (H x Hx). zbool. split; lia.
Qed.

Definition image : { img : list Z | is_bytes img } := exist _ image_bytes image_is_bytes.

Definition boot : state := mk false [0] (replicate 256 0) image.

Example board_info_read :
  match ID_EEPROM_GetBoardInfo (replicate 39 7) boot with
  | Some (ok, buf, _) => ok = true /\ board_id buf = str:("xcore") ++ replicate 27 0
  | None => False
  end.
Proof. vm_compute. auto. Qed.

Lemma checksum_detects_byte_witness :
  checksum ([1; 2; 3] ++ 4 :: [5]) <> checksum ([1; 2; 3] ++ 5 :: [5]).
Proof. apply checksum_detects_byte; repeat constructor; done. Defined.

#[refine] Instance image_laws : EepromLaws { img : list Z | is_bytes img } := { eeprom w _ := image_mem (proj1_sig w) }.
Proof.
  intros w a reg rx m rx' w' [= <- <- <-]. split; [done|]. destruct (a =? 83); [done|]. discriminate.
Defined.

Lemma image_holds_bytes : holds_bytes boot.
Proof.
  intros a x. change (eeprom (device boot) a x) with (nth (Z.to_nat x) image_bytes 255). rewrite nth_lookup.
  destruct (image_bytes !! Z.to_nat x) eqn:E; [|unfold is_byte; simpl; lia].
  exact (Forall_lookup_1 _ _ _ _ image_is_bytes E).
Qed.

Lemma board_info_exact_witness : exists s', ID_EEPROM_GetBoardInfo (replicate 39 7) boot =
  Some (true, board_data ++ [checksum board_data mod 256; checksum board_data / 256], s') /\ bus_taken s' = false.
Proof.
  destruct (board_info_exact (replicate 39 7) (replicate 6 7) boot eq_refl eq_refl image_holds_bytes eq_refl ltac:(vm_compute; congruence))
    as ((s' & E & H & _) & _). exists s'. split; [|exact H]. rewrite E. vm_compute. reflexivity.
Defined.

(** A record of zeros counts as intact: the name of the board is then empty. *)
Example zeros_intact : intact (replicate 39 0) = true.
Proof. reflexivity. Qed.

Lemma mac_address_spec_witness :
  exists ok buf' s', ID_EEPROM_GetMacAddress (replicate 6 7) boot = Some (ok, buf', s') /\
      bus_taken s' = false /\ length (i2c4_rx_buffer s') = 256%nat /\
      buf' = if ok then take 6 (i2c4_rx_buffer s') else replicate 6 7.
Proof. apply (mac_address_spec (replicate 6 7) boot); reflexivity. Defined.

End EepromImage.
