(* ===== verification/Flash.v ===== *)
(** * Flash: the W25Q serial NOR driver (boards/XCORE/hal_flash_device.c) and the block
    device it gives littlefs (src/filesystem/filesystem.cpp)

    The WSPI bus with the memory behind it is a parameter: [NorFlash] states the parts of
    the W25Q data sheet the driver relies on, in terms of an abstract array of bytes
    [content], the busy flag and the write enable latch. *)

From S2P Require Import Prelude.

Inductive wspi_cfg :=
| CMD_MODE_ONE_LINE | ADDR_MODE_ONE_LINE | ADDR_MODE_FOUR_LINES | ALT_MODE_NONE
| ALT_MODE_FOUR_LINES | DATA_MODE_ONE_LINE | DATA_MODE_FOUR_LINES | ALT_SIZE_8
| CMD_SIZE_8 | ADDR_SIZE_24 | CFG_SIOO.

Record wspi_command := wspi {
  cmd : Z;
  cfg : list wspi_cfg;
  addr : Z;
  alt : Z;
  dummy : Z
}.

Definition W25Q_CMD_RESET_ENABLE : Z := 102.
Definition W25Q_CMD_RESET : Z := 153.
Definition W25Q_CMD_READ_JEDEC_ID : Z := 159.
Definition W25Q_CMD_FAST_READ_QUAD_IO : Z := 235.
Definition W25Q_CMD_WRITE_ENABLE : Z := 6.
Definition W25Q_CMD_READ_STATUS_REGISTER : Z := 5.
Definition W25Q_CMD_SECTOR_ERASE : Z := 32.
Definition W25Q_CMD_BULK_ERASE : Z := 199.
Definition W25_QUAD_INPUT_PAGE_PROGRAM : Z := 50.
Definition W25Q_FLAGS_BUSY : Z := 1.
Definition W25Q_COMPARE_BUFFER_SIZE : nat := 32.

Definition PAGE_SIZE : Z := 256.
Definition PAGE_MASK : Z := 255.
Definition SECTOR_SIZE : Z := 4096.
Definition CMD_SECTOR_ERASE : Z := W25Q_CMD_SECTOR_ERASE.

Definition w25q_cmd_read_id : wspi_command :=
  wspi W25Q_CMD_READ_JEDEC_ID [CMD_MODE_ONE_LINE; DATA_MODE_ONE_LINE] 0 0 0.
Definition write_enable_cmd : wspi_command :=
  wspi W25Q_CMD_WRITE_ENABLE [CMD_MODE_ONE_LINE] 0 0 0.
Definition read_status_register_cmd : wspi_command :=
  wspi W25Q_CMD_READ_STATUS_REGISTER [CMD_MODE_ONE_LINE; DATA_MODE_ONE_LINE] 0 0 0.

Definition fast_read_cmd (offset : Z) : wspi_command :=
  wspi W25Q_CMD_FAST_READ_QUAD_IO
    [CMD_MODE_ONE_LINE; ADDR_MODE_FOUR_LINES; ALT_MODE_FOUR_LINES; ALT_SIZE_8;
     DATA_MODE_FOUR_LINES; CMD_SIZE_8; ADDR_SIZE_24] offset 255 4.
Definition page_program_cmd (offset : Z) : wspi_command :=
  wspi W25_QUAD_INPUT_PAGE_PROGRAM
    [CMD_MODE_ONE_LINE; ADDR_MODE_ONE_LINE; ALT_MODE_NONE; DATA_MODE_FOUR_LINES;
     CMD_SIZE_8; ADDR_SIZE_24] offset 0 0.
Definition sector_erase_cmd (offset : Z) : wspi_command :=
  wspi CMD_SECTOR_ERASE [CMD_MODE_ONE_LINE; ADDR_MODE_ONE_LINE; ADDR_SIZE_24] offset 0 0.
Definition bulk_erase_cmd : wspi_command :=
  wspi W25Q_CMD_BULK_ERASE [CMD_MODE_ONE_LINE] 0 0 0.

(** The array has 24-bit addresses. *)
Definition FLASH_SIZE : Z := 2 ^ 24.

(** What the driver relies on.  [content] is the array once the operation in progress has
    completed. *)
Class NorFlash (W : Type) := {
  wspiCommand : W -> wspi_command -> W;
  wspiSend : W -> wspi_command -> list Z -> W;
  wspiReceive : W -> wspi_command -> nat -> list Z * W;
  content : W -> Z -> Z;
  busy : W -> bool;
  write_enabled : W -> bool;

  receive_len w c n : length (fst (wspiReceive w c n)) = n;
  content_byte w a : is_byte (content w a);
  (** Reading the status register reports the busy flag and disturbs nothing; an idle
      device stays idle. *)
  status_busy w : Z.testbit (hd 0 (fst (wspiReceive w read_status_register_cmd 1))) 0 = busy w;
  status_content w a : content (snd (wspiReceive w read_status_register_cmd 1)) a = content w a;
  status_idle w : busy w = false ->
    busy (snd (wspiReceive w read_status_register_cmd 1)) = false;
  (** An idle device answers reads from its array. *)
  read_data w o n : busy w = false -> 0 <= o -> o + Z.of_nat n <= FLASH_SIZE ->
    fst (wspiReceive w (fast_read_cmd o) n) = map (fun i => content w (o + i)) (seqZ 0 (Z.of_nat n));
  read_content w o n a : busy w = false ->
    content (snd (wspiReceive w (fast_read_cmd o) n)) a = content w a;
  read_idle w o n : busy w = false -> busy (snd (wspiReceive w (fast_read_cmd o) n)) = false;
  (** Write enable sets the latch of an idle device. *)
  we_latch w : busy w = false -> write_enabled (wspiCommand w write_enable_cmd) = true;
  we_idle w : busy w = false -> busy (wspiCommand w write_enable_cmd) = false;
  we_content w a : content (wspiCommand w write_enable_cmd) a = content w a;
  (** Page program clears bits, and is specified only inside one page. *)
  program_content w o l a : busy w = false -> write_enabled w = true ->
    0 <= o -> o + Zlen l <= FLASH_SIZE -> o mod PAGE_SIZE + Zlen l <= PAGE_SIZE ->
    content (wspiSend w (page_program_cmd o) l) a =
      match rd l (a - o) with Some b => Z.land (content w a) b | None => content w a end;
  (** Sector erase sets the bits of the 4 KB sector at a sector-aligned address. *)
  erase_content w o a : busy w = false -> write_enabled w = true ->
    0 <= o < FLASH_SIZE -> o mod SECTOR_SIZE = 0 ->
    content (wspiCommand w (sector_erase_cmd o)) a =
      if (o <=? a) && (a <? o + SECTOR_SIZE) then 255 else content w a
}.

Module Snor.
Section Snor.
Context {W : Type} `{Dev : NorFlash W}.

Inductive flash_error_t :=
| FLASH_NO_ERROR | FLASH_BUSY_ERASING | FLASH_ERROR_READ | FLASH_ERROR_PROGRAM
| FLASH_ERROR_ERASE | FLASH_ERROR_VERIFY | FLASH_ERROR_HW_FAILURE.

#[export] Instance flash_error_eq_dec : EqDecision flash_error_t.
Proof. solve_decision. Defined.

Inductive flash_state_t := FLASH_UNINIT | FLASH_STOP | FLASH_READY | FLASH_READ | FLASH_PGM | FLASH_ERASE.

(** [SNORDriver], its uncached buffer and the two fields of [snor_descriptor] that
    initialisation sets. *)
Record SNORDriver := snor {
  busp : W;
  nocache_buf : list Z;
  state : flash_state_t;
  sectors_count : Z;
  size : Z
}.

Definition set_busp (d : SNORDriver) (w : W) : SNORDriver :=
  snor w (nocache_buf d) (state d) (sectors_count d) (size d).
Definition set_buf (d : SNORDriver) (b : list Z) : SNORDriver :=
  snor (busp d) (b ++ drop (length b) (nocache_buf d)) (state d) (sectors_count d) (size d).
Definition set_state (d : SNORDriver) (st : flash_state_t) : SNORDriver :=
  snor (busp d) (nocache_buf d) st (sectors_count d) (size d).

(** A command or a transfer on the driver's bus. *)
Definition command (c : wspi_command) (d : SNORDriver) : SNORDriver :=
  set_busp d (wspiCommand (busp d) c).
Definition send (c : wspi_command) (l : list Z) (d : SNORDriver) : SNORDriver :=
  set_busp d (wspiSend (busp d) c l).
(** A receive into the uncached buffer. *)
Definition receive_buf (c : wspi_command) (n : nat) (d : SNORDriver) : SNORDriver :=
  let '(l, w) := wspiReceive (busp d) c n in set_buf (set_busp d w) l.

Definition buf0 (d : SNORDriver) : Z := hd 0 (nocache_buf d).

Fixpoint w25q_find_id (set : list Z) (element : Z) : bool :=
  match set with
  | [] => false
  | x :: set' => if x =? element then true else w25q_find_id set' element
  end.

(** The do/while loop of [w25q_poll_status], [timeout] tries left. *)
Fixpoint poll_loop (timeout : nat) (d : SNORDriver) : Z * SNORDriver :=
  match timeout with
  | O => (0, d)
  | S t =>
      let d := receive_buf read_status_register_cmd 1 d in
      if Z.land (buf0 d) W25Q_FLAGS_BUSY =? 0 then (Z.of_nat timeout, d) else poll_loop t d
  end.

Definition w25q_poll_status (d : SNORDriver) : flash_error_t * SNORDriver :=
  let '(timeout, d) := poll_loop 100 d in
  if timeout <=? 0 then (FLASH_ERROR_PROGRAM, d) else (FLASH_NO_ERROR, d).

Definition w25q_reset_memory (d : SNORDriver) : SNORDriver :=
  command (wspi W25Q_CMD_RESET [CMD_MODE_ONE_LINE] 0 0 0)
    (command (wspi W25Q_CMD_RESET_ENABLE [CMD_MODE_ONE_LINE] 0 0 0) d).

Definition w25q_manufacturer_ids : list Z := [239].
Definition w25q_memory_type_ids : list Z := [64; 96].

(** [None]: a debug assertion failed. *)
Definition snor_device_init (d : SNORDriver) : option SNORDriver :=
  let d := w25q_reset_memory d in
  let d := receive_buf w25q_cmd_read_id 3 d in
  if w25q_find_id w25q_manufacturer_ids (nth 0 (nocache_buf d) 0) &&
     w25q_find_id w25q_memory_type_ids (nth 1 (nocache_buf d) 0)
  then
    let count := u32 (Z.shiftl 1 (nth 2 (nocache_buf d) 0)) / SECTOR_SIZE in
    Some (snor (busp d) (nocache_buf d) (state d) count (u32 (count * SECTOR_SIZE)))
  else None.

(** Reads go straight to the caller's buffer. *)
Definition snor_device_read (d : SNORDriver) (offset : Z) (n : nat)
  : flash_error_t * list Z * SNORDriver :=
  let '(l, w) := wspiReceive (busp d) (fast_read_cmd offset) n in
  (FLASH_NO_ERROR, l, set_busp d w).

(** The programming loop; [None] when [fuel] iterations were not enough. *)
Fixpoint program_loop (fuel : nat) (d : SNORDriver) (offset n : Z) (pp : list Z)
  : option (flash_error_t * SNORDriver) :=
  if 0 <? n then
    match fuel with
    | O => None
    | S fuel' =>
        let chunk := u32 (u32 (Z.lor offset PAGE_MASK + 1) - offset) in
        let chunk := if n <? chunk then n else chunk in
        let d := command write_enable_cmd d in
        let d := send (page_program_cmd offset) (take (Z.to_nat chunk) pp) d in
        let '(err, d) := w25q_poll_status d in
        if decide (err <> FLASH_NO_ERROR) then Some (err, d)
        else program_loop fuel' d (u32 (offset + chunk)) (u32 (n - chunk))
               (drop (Z.to_nat chunk) pp)
    end
  else Some (FLASH_NO_ERROR, d).

(** Each iteration programs at least one byte: [n] iterations are enough. *)
Definition snor_device_program (d : SNORDriver) (offset n : Z) (pp : list Z)
  : option (flash_error_t * SNORDriver) := program_loop (Z.to_nat n) d offset n pp.

Definition snor_device_start_erase_all (d : SNORDriver) : flash_error_t * SNORDriver :=
  (FLASH_NO_ERROR, command bulk_erase_cmd (command write_enable_cmd d)).

Definition snor_device_start_erase_sector (d : SNORDriver) (sector : Z)
  : flash_error_t * SNORDriver :=
  let offset := u32 (sector * SECTOR_SIZE) in
  (FLASH_NO_ERROR, command (sector_erase_cmd offset) (command write_enable_cmd d)).

(** The verification loop: [k] compare buffers left. *)
Fixpoint verify_loop (k : nat) (d : SNORDriver) (offset : Z) : flash_error_t * SNORDriver :=
  match k with
  | O => (FLASH_NO_ERROR, d)
  | S k' =>
      let '(_, cmpbuf, d) := snor_device_read d offset W25Q_COMPARE_BUFFER_SIZE in
      if forallb (Z.eqb 255) cmpbuf
      then verify_loop k' d (u32 (offset + Z.of_nat W25Q_COMPARE_BUFFER_SIZE))
      else (FLASH_ERROR_VERIFY, set_state d FLASH_READY)
  end.

Definition snor_device_verify_erase (d : SNORDriver) (sector : Z) : flash_error_t * SNORDriver :=
  verify_loop (Z.to_nat SECTOR_SIZE / W25Q_COMPARE_BUFFER_SIZE) d (u32 (sector * SECTOR_SIZE)).

(** The second component is the value stored through [msec], when one is. *)
Definition snor_device_query_erase (d : SNORDriver) : flash_error_t * option Z * SNORDriver :=
  let d := receive_buf read_status_register_cmd 1 d in
  if negb (Z.land (buf0 d) W25Q_FLAGS_BUSY =? 0) then (FLASH_BUSY_ERASING, Some 1, d)
  else (FLASH_NO_ERROR, None, d).

Definition snor_device_read_sfdp (d : SNORDriver) : flash_error_t * SNORDriver :=
  (FLASH_NO_ERROR, d).

(** ** Polling *)

Lemma land_busy z : (Z.land z W25Q_FLAGS_BUSY =? 0) = negb (Z.testbit z 0).
Proof.
  unfold W25Q_FLAGS_BUSY. change 1 with (Z.ones 1). rewrite Z.land_ones by lia.
  change (2 ^ 1) with 2. rewrite Z.bit0_odd, Zmod_odd. by destruct (Z.odd z).
Qed.

(** The device state after one status read. *)
Definition status_read (w : W) : W := snd (wspiReceive w read_status_register_cmd 1).

Lemma receive_status d :
  busp (receive_buf read_status_register_cmd 1 d) = status_read (busp d) /\
  (Z.land (buf0 (receive_buf read_status_register_cmd 1 d)) W25Q_FLAGS_BUSY =? 0) =
    negb (busy (busp d)).
Proof.
  pose proof (status_busy (busp d)) as Hb. pose proof (receive_len (busp d) read_status_register_cmd 1) as Hl.
  unfold receive_buf, status_read. destruct (wspiReceive _ _ _) as [l w]. cbn [fst] in *.
  destruct l as [|x l]; [done|]. cbn [hd] in Hb. split; [done|]. unfold buf0; simpl.
  by rewrite land_busy, <- Hb, Z.bit0_odd.
Qed.

Lemma status_read_content w a : content (status_read w) a = content w a.
Proof. apply status_content. Qed.

(** The loop stops at the first idle answer, or after [t] busy ones. *)
Lemma poll_loop_spec t d :
  (forall a, content (busp (snd (poll_loop t d))) a = content (busp d) a) /\
  (0 < fst (poll_loop t d) -> busy (busp (snd (poll_loop t d))) = false) /\
  (forall k, (k < t)%nat -> busy (Nat.iter k status_read (busp d)) = false ->
    0 < fst (poll_loop t d)).
Proof.
  revert d. induction t as [|t IH]; intros d; simpl; [split_and!; done || lia|].
  destruct (receive_status d) as [Hw Hb]. rewrite Hb.
  destruct (busy (busp d)) eqn:E; simpl.
  - specialize (IH (receive_buf read_status_register_cmd 1 d)) as (Hc & Hi & Hk).
    rewrite Hw in *. split_and!; [intros a; by rewrite Hc, status_read_content|done|].
    intros [|k] Hlt Hbk; [simpl in Hbk; congruence|].
    rewrite Nat.iter_succ_r in Hbk. by apply (Hk k); [lia|].
  - rewrite Hw. split_and!; [apply status_read_content| |lia].
    intros _. by apply status_idle.
Qed.

Lemma poll_status_spec d err d' :
  w25q_poll_status d = (err, d') ->
  (forall a, content (busp d') a = content (busp d) a) /\
  (err = FLASH_NO_ERROR /\ busy (busp d') = false \/ err = FLASH_ERROR_PROGRAM).
Proof.
  unfold w25q_poll_status. pose proof (poll_loop_spec 100 d) as (Hc & Hi & _).
  destruct (poll_loop 100 d) as [t d2]; simpl in *.
  destruct (Z.leb_spec t 0); intros [= <- <-]; split; auto.
Qed.

(** The device is idle after fewer than [n] status reads. *)
Definition settles (n : nat) (w : W) : Prop := exists k, (k < n)%nat /\ busy (Nat.iter k status_read w) = false.

Lemma poll_status_settles d : settles 100 (busp d) -> fst (w25q_poll_status d) = FLASH_NO_ERROR.
Proof.
  intros (k & Hk & Hb). unfold w25q_poll_status.
  pose proof (poll_loop_spec 100 d) as (_ & _ & Hs). specialize (Hs k Hk Hb).
  destruct (poll_loop 100 d) as [t d2]; simpl in *.
  destruct (Z.leb_spec t 0); [lia|done].
Qed.

(** A page program is over within 100 status reads; the driver sleeps a millisecond between them, and the
    data sheet gives it 3 ms at most. *)
Definition page_program_in_time : Prop :=
  forall w o l, busy w = false -> write_enabled w = true -> 0 <= o -> o + Zlen l <= FLASH_SIZE ->
    o mod PAGE_SIZE + Zlen l <= PAGE_SIZE -> settles 100 (wspiSend w (page_program_cmd o) l).

(** ** Programming *)

(** [offset | PAGE_MASK] is the last address of the page of [offset]. *)
Lemma lor_page_mask o : 0 <= o -> Z.lor o PAGE_MASK + 1 - o = PAGE_SIZE - o mod PAGE_SIZE.
Proof.
  intros Ho. unfold PAGE_MASK, PAGE_SIZE.
  pose proof (Z.add_lor_land o 255) as H. change (Z.land o 255) with (Z.land o (Z.ones 8)) in H.
  rewrite Z.land_ones in H by lia. change (2 ^ 8) with 256 in H. lia.
Qed.

(** The size of the next chunk: to the end of the page, or what is left. *)
Lemma chunk_eq o n :
  0 <= o < FLASH_SIZE -> 0 < n ->
  (let c := u32 (u32 (Z.lor o PAGE_MASK + 1) - o) in if n <? c then n else c) =
  Z.min n (PAGE_SIZE - o mod PAGE_SIZE).
Proof.
  intros Ho Hn. pose proof (lor_page_mask o) as Hp.
  pose proof (Z.mod_pos_bound o PAGE_SIZE) as Hm. unfold FLASH_SIZE, PAGE_SIZE in *.
  rewrite (u32_small (Z.lor _ _ + 1)), (u32_small (_ - o)) by lia.
  simpl. rewrite Hp by lia. destruct (Z.ltb_spec n (256 - o mod 256)); lia.
Qed.

Lemma rd_take (l : list Z) n i : 0 <= n -> rd (take (Z.to_nat n) l) i = if i <? n then rd l i else None.
Proof.
  intros Hn. unfold rd. destruct (Z.leb_spec 0 i), (Z.ltb_spec i n); try done.
  - apply lookup_take_lt. lia.
  - apply lookup_take_ge. lia.
Qed.

Lemma rd_drop (l : list Z) n i : 0 <= n -> rd (drop (Z.to_nat n) l) i = if 0 <=? i then rd l (n + i) else None.
Proof.
  intros Hn. unfold rd. destruct (Z.leb_spec 0 i); [|done].
  rewrite (proj2 (Z.leb_le 0 (n + i))) by lia. rewrite lookup_drop. f_equal. lia.
Qed.

Lemma Zlen_take_drop (l : list Z) n :
  0 <= n <= Zlen l ->
  Zlen (take (Z.to_nat n) l) = n /\ Zlen (drop (Z.to_nat n) l) = Zlen l - n.
Proof. unfold Zlen. intros. rewrite length_take, length_drop. lia. Qed.

(** What programming [pp] at [o] makes of a byte [b] at address [a]: bits are only
    cleared, and only in the range. *)
Definition programmed (o : Z) (pp : list Z) (a b : Z) : Z :=
  match rd pp (a - o) with Some x => Z.land b x | None => b end.

(** One page: what write enable and page program do to an idle device. *)
Lemma program_page d o l a :
  busy (busp d) = false -> 0 <= o -> o + Zlen l <= FLASH_SIZE ->
  o mod PAGE_SIZE + Zlen l <= PAGE_SIZE ->
  content (busp (send (page_program_cmd o) l (command write_enable_cmd d))) a =
  programmed o l a (content (busp d) a).
Proof.
  intros Hb Ho Hs Hp. simpl. rewrite program_content; auto using we_idle, we_latch.
  unfold programmed. by rewrite we_content.
Qed.

Lemma programmed_split o pp c a b :
  0 <= c <= Zlen pp ->
  programmed (o + c) (drop (Z.to_nat c) pp) a (programmed o (take (Z.to_nat c) pp) a b) =
  programmed o pp a b.
Proof.
  intros Hc. unfold programmed. rewrite rd_take, rd_drop by lia.
  destruct (Z.ltb_spec (a - o) c), (Z.leb_spec 0 (a - (o + c))); try lia; try done.
  replace (c + (a - (o + c))) with (a - o) by lia. done.
Qed.

Lemma programmed_nil o a b : programmed o [] a b = b.
Proof. unfold programmed. unfold rd. destruct (0 <=? a - o); [by rewrite lookup_nil|done]. Qed.

Lemma program_loop_spec fuel d o pp :
  busy (busp d) = false -> 0 <= o -> o + Zlen pp <= FLASH_SIZE ->
  (length pp <= fuel)%nat ->
  exists err d', program_loop fuel d o (Zlen pp) pp = Some (err, d') /\
    (err = FLASH_NO_ERROR /\ busy (busp d') = false /\
       (forall a, content (busp d') a = programmed o pp a (content (busp d) a)) \/
     err = FLASH_ERROR_PROGRAM /\ exists c, 0 < c <= Zlen pp /\
       (forall a, content (busp d') a =
                  programmed o (take (Z.to_nat c) pp) a (content (busp d) a))) /\
    (page_program_in_time -> err = FLASH_NO_ERROR).
Proof.
  revert d o pp. induction fuel as [|fuel IH]; intros d o pp Hb Ho Hs Hf.
  { destruct pp; [|simpl in Hf; lia]. do 2 eexists. split; [done|]. split; [left|done]. split_and!; try done.
    intros a. by rewrite programmed_nil. }
  cbn [program_loop]. destruct (Z.ltb_spec 0 (Zlen pp)) as [Hn|Hn].
  2:{ destruct pp; [|rewrite Zlen_cons in Hn; pose proof (Zlen_nonneg pp); lia].
      do 2 eexists. split; [done|]. split; [left|done]. split_and!; try done.
    intros a. by rewrite programmed_nil. }
  pose proof (chunk_eq o (Zlen pp)) as Hc. cbn zeta in Hc.
  rewrite Hc by (split; [done|] || done; lia). clear Hc.
  set (c := Z.min _ _). pose proof (Z.mod_pos_bound o PAGE_SIZE) as Hm.
  assert (0 < c <= Zlen pp /\ o mod PAGE_SIZE + c <= PAGE_SIZE) as [Hc Hcp]
    by (unfold PAGE_SIZE in *; lia).
  destruct (Zlen_take_drop pp c) as [Ht Hd]; [lia|].
  pose proof (program_page d o (take (Z.to_nat c) pp)) as Hpg. rewrite Ht in Hpg.
  pose proof (poll_status_settles (send (page_program_cmd o) (take (Z.to_nat c) pp) (command write_enable_cmd d))) as Hset.
  assert (page_program_in_time -> settles 100 (busp (send (page_program_cmd o) (take (Z.to_nat c) pp) (command write_enable_cmd d)))) as Hpt.
  { intros Hp. apply Hp; [by apply we_idle|by apply we_latch|done|rewrite Ht; lia|by rewrite Ht]. }
  destruct (w25q_poll_status _) as [err d2] eqn:Ep. cbn [fst] in Hset.
  apply poll_status_spec in Ep as [Hcont [[-> Hb2]| ->]].
  - rewrite decide_False by auto. unfold FLASH_SIZE in *.
    rewrite (u32_small (o + c)), (u32_small (_ - c)) by lia. rewrite <- Hd.
    destruct (IH d2 (o + c) (drop (Z.to_nat c) pp)) as (err & d' & He & Hr & Hok);
      [done|lia|rewrite Hd; lia|rewrite length_drop; unfold Zlen in *; lia|].
    exists err, d'. split; [done|]. split; [|done]. destruct Hr as [(-> & Hb' & Ha)|(-> & c' & Hc' & Ha)].
    + left. split_and!; [done..|]. intros a. rewrite Ha, Hcont, Hpg by (done || lia).
      apply programmed_split. lia.
    + right. split; [done|]. exists (c + c'). split; [lia|]. intros a.
      rewrite Ha, Hcont, Hpg by (done || lia).
      rewrite <- (programmed_split o (take (Z.to_nat (c + c')) pp) c)
        by (unfold Zlen in *; rewrite length_take; lia).
      rewrite Z2Nat.inj_add, skipn_firstn_comm, take_take by lia.
      repeat f_equal; lia.
  - rewrite decide_True by done. do 2 eexists. split; [done|]. split; [right; split; [done|]|by auto].
    exists c. split; [lia|]. intros a. rewrite Hcont. apply Hpg; done || lia.
Qed.

(** Programming any data at any offset of the array of an idle device returns: it
    either succeeds, leaves the device idle and has cleared exactly the bits of the data
    in exactly the addressed range, or reports FLASH_ERROR_PROGRAM having programmed a
    non-empty prefix of the data and nothing else.  No page program command crosses a
    page boundary, and a device that completes each page program within 100 status reads
    never makes it fail. *)
Theorem snor_program_correct (d : SNORDriver) (o : Z) (pp : list Z)
  (Hb : busy (busp d) = false) (Ho : 0 <= o) (Hs : o + Zlen pp <= FLASH_SIZE) :
  exists err d', snor_device_program d o (Zlen pp) pp = Some (err, d') /\
    (err = FLASH_NO_ERROR /\ busy (busp d') = false /\
       (forall a, content (busp d') a = programmed o pp a (content (busp d) a)) \/
     err = FLASH_ERROR_PROGRAM /\ exists c, 0 < c <= Zlen pp /\
       (forall a, content (busp d') a =
                  programmed o (take (Z.to_nat c) pp) a (content (busp d) a))) /\
    (page_program_in_time -> err = FLASH_NO_ERROR).
Proof. apply program_loop_spec; [done..|unfold Zlen; lia]. Qed.

(** ** Reading and verifying *)

Lemma read_spec d o n :
  busy (busp d) = false -> 0 <= o -> o + Z.of_nat n <= FLASH_SIZE ->
  exists d', snor_device_read d o n =
    (FLASH_NO_ERROR, map (fun i => content (busp d) (o + i)) (seqZ 0 (Z.of_nat n)), d') /\
    busy (busp d') = false /\ forall a, content (busp d') a = content (busp d) a.
Proof.
  intros Hb Ho Hn. unfold snor_device_read.
  pose proof (read_data (busp d) o n Hb Ho Hn) as Hd.
  pose proof (read_idle (busp d) o n Hb) as Hi.
  pose proof (fun a => read_content (busp d) o n a Hb) as Hc.
  destruct (wspiReceive _ _ _) as [l w]. simpl in *. subst l. by eexists.
Qed.

Lemma all_erased (f : Z -> Z) o n :
  forallb (Z.eqb 255) (map (fun i => f (o + i)) (seqZ 0 n)) = true <->
  forall a, o <= a < o + n -> f a = 255.
Proof.
  rewrite forallb_forall. split.
  - intros H a Ha. specialize (H (f a)). rewrite Z.eqb_eq in H. symmetry. apply H, in_map_iff.
    exists (a - o). split; [f_equal; lia|]. apply list_elem_of_In, elem_of_seqZ. lia.
  - intros H x (i & <- & Hi)%in_map_iff. apply list_elem_of_In, elem_of_seqZ in Hi.
    apply Z.eqb_eq. symmetry. apply H. lia.
Qed.

Lemma verify_loop_spec k d o :
  busy (busp d) = false -> 0 <= o -> o + 32 * Z.of_nat k <= FLASH_SIZE ->
  (fst (verify_loop k d o) = FLASH_NO_ERROR <->
   forall a, o <= a < o + 32 * Z.of_nat k -> content (busp d) a = 255) /\
  (fst (verify_loop k d o) <> FLASH_NO_ERROR -> fst (verify_loop k d o) = FLASH_ERROR_VERIFY).
Proof.
  revert d o. induction k as [|k IH]; intros d o Hb Ho Hs; cbn [verify_loop].
  { split; [split; [intros; lia|done]|done]. }
  unfold W25Q_COMPARE_BUFFER_SIZE in *.
  destruct (read_spec d o 32) as (d' & -> & Hb' & Hc); [done..|lia|].
  pose proof (all_erased (content (busp d)) o 32) as Hall.
  change (Z.of_nat 32) with 32. unfold FLASH_SIZE in *.
  destruct (forallb _ _) eqn:E; simpl.
  - rewrite u32_small by lia. destruct (IH d' (o + 32) Hb') as [Hi He]; [lia..|].
    split; [|done]. rewrite Hi. setoid_rewrite Hc. split; intros H a Ha.
    + destruct (Z.lt_ge_cases a (o + 32)); [apply Hall; [done|lia]|apply H; lia].
    + apply H. lia.
  - split; [|done]. split; [done|]. intros H. exfalso. assert (false = true); [|done].
    apply Hall. intros a Ha. apply H. lia.
Qed.

(** Verifying the erasure of a sector of an idle device reports success exactly when
    every byte of that 4 KB sector is 0xFF, and FLASH_ERROR_VERIFY otherwise. *)
Theorem snor_verify_erase_iff (d : SNORDriver) (sector : Z)
  (Hb : busy (busp d) = false) (Hs : 0 <= sector < 4096) :
  let r := fst (snor_device_verify_erase d sector) in
  (r = FLASH_NO_ERROR <->
   forall a, sector * SECTOR_SIZE <= a < (sector + 1) * SECTOR_SIZE -> content (busp d) a = 255) /\
  (r <> FLASH_NO_ERROR -> r = FLASH_ERROR_VERIFY).
Proof.
  unfold snor_device_verify_erase, SECTOR_SIZE. rewrite u32_small by lia.
  change (Z.to_nat 4096 / W25Q_COMPARE_BUFFER_SIZE)%nat with 128%nat.
  destruct (verify_loop_spec 128 d (sector * 4096)) as [H1 H2];
    [done|lia|unfold FLASH_SIZE; lia|].
  change (32 * Z.of_nat 128) with 4096 in H1. cbn zeta. split; [|done].
  rewrite H1. by replace ((sector + 1) * 4096) with (sector * 4096 + 4096) by lia.
Qed.

End Snor.
End Snor.

(** ** The block device of littlefs *)
Module BlockDevice.
Import Snor.
Section BlockDevice.
Context {W : Type} `{Dev : NorFlash W}.

Definition LFS_ERR_OK : Z := 0.
Definition LFS_ERR_IO : Z := -5.

Record lfs_config := { block_size : Z; block_count : Z; read_size : Z; prog_size : Z; cache_size : Z }.
Definition lfs_cfg : lfs_config := {| block_size := 4096; block_count := 4096;
  read_size := 16; prog_size := 256; cache_size := 256 |}.

Definition read_flash (c : lfs_config) (d : SNORDriver) (block off : Z) (n : nat)
  : Z * list Z * SNORDriver :=
  let '(e, l, d) := snor_device_read d (u32 (block * block_size c + off)) n in
  if decide (e = FLASH_NO_ERROR) then (LFS_ERR_OK, l, d) else (LFS_ERR_IO, l, d).

Definition write_flash (c : lfs_config) (d : SNORDriver) (block off : Z) (buffer : list Z)
  : option (Z * SNORDriver) :=
  '(e, d) ← snor_device_program d (u32 (block * block_size c + off)) (Zlen buffer) buffer;
  if decide (e = FLASH_NO_ERROR) then Some (LFS_ERR_OK, d) else Some (LFS_ERR_IO, d).

(** The wait loop of [erase_flash]: [None] when the device was still erasing after
    [fuel] queries.  The loop sleeps [wait] milliseconds between queries. *)
Fixpoint erase_wait (fuel : nat) (d : SNORDriver) : option SNORDriver :=
  match fuel with
  | O => None
  | S fuel' =>
      let '(e, _, d) := snor_device_query_erase d in
      if decide (e <> FLASH_NO_ERROR) then erase_wait fuel' d else Some d
  end.

Definition erase_flash (fuel : nat) (d : SNORDriver) (block : Z) : option (Z * SNORDriver) :=
  let '(e, d) := snor_device_start_erase_sector d block in
  if decide (e <> FLASH_NO_ERROR) then Some (LFS_ERR_IO, d)
  else d ← erase_wait fuel d; Some (LFS_ERR_OK, d).

Definition sync_flash (d : SNORDriver (W := W)) : Z * SNORDriver (W := W) := (LFS_ERR_OK, d).

Lemma erase_wait_spec fuel d k :
  (k < fuel)%nat -> busy (Nat.iter k status_read (busp d)) = false ->
  exists d', erase_wait fuel d = Some d' /\ busy (busp d') = false /\
    forall a, content (busp d') a = content (busp d) a.
Proof.
  revert fuel d. induction k as [|k IH]; intros [|fuel] d Hk Hb; try lia; cbn [erase_wait];
    unfold snor_device_query_erase; destruct (receive_status d) as [Hw ->].
  - simpl in Hb. rewrite Hb. simpl. eexists. split; [done|]. rewrite Hw.
    split; [by apply status_idle|]. apply status_read_content.
  - destruct (busy (busp d)) eqn:E; simpl.
    + rewrite Nat.iter_succ_r, <- Hw in Hb.
      destruct (IH fuel _ ltac:(lia) Hb) as (d' & He & Hb' & Hc). exists d'.
      split_and!; [done..|]. intros a. rewrite Hc, Hw. apply status_read_content.
    + eexists. split; [done|]. rewrite Hw. split; [by apply status_idle|].
      apply status_read_content.
Qed.

(** The erasure of a sector ends, after fewer than [n] status reads (the data sheet: 400 ms at most). *)
Definition sector_erase_ends (n : nat) : Prop :=
  forall w o, busy w = false -> write_enabled w = true -> 0 <= o < FLASH_SIZE -> o mod SECTOR_SIZE = 0 ->
    settles n (wspiCommand w (sector_erase_cmd o)).

Lemma erase_flash_spec n fuel d block :
  busy (busp d) = false -> sector_erase_ends n -> (n <= fuel)%nat -> 0 <= block < 4096 ->
  exists d', erase_flash fuel d block = Some (LFS_ERR_OK, d') /\ busy (busp d') = false /\
    forall a, content (busp d') a =
      if (block * 4096 <=? a) && (a <? block * 4096 + 4096) then 255 else content (busp d) a.
Proof.
  intros Hb Hp Hf Hblk. unfold erase_flash, snor_device_start_erase_sector, SECTOR_SIZE.
  rewrite u32_small by lia. simpl.
  assert (0 <= block * 4096 < FLASH_SIZE /\ (block * 4096) mod SECTOR_SIZE = 0) as [Ho Hm]
    by (unfold FLASH_SIZE, SECTOR_SIZE; rewrite Z.mod_mul; lia).
  set (d1 := command (sector_erase_cmd _) _).
  destruct (Hp (busp (command write_enable_cmd d)) (block * 4096)) as (k & Hk & Hbk); [by apply we_idle|by apply we_latch|done..|].
  destruct (erase_wait_spec fuel d1 k) as (d' & -> & Hb' & Hc); [lia|done|].
  simpl. exists d'. split_and!; [done..|]. intros a. rewrite Hc. subst d1. simpl.
  rewrite erase_content; [by rewrite we_content|auto using we_idle, we_latch..].
Qed.

Lemma rd_nil i : rd ([] : list Z) i = None.
Proof. unfold rd. by destruct (0 <=? i); rewrite ?lookup_nil. Qed.

(** Programming inside an erased block leaves the data in it. *)
Lemma programmed_erased (f g : Z -> Z) block off l a : is_bytes l -> 0 <= off -> off + Zlen l <= 4096 ->
  (forall a, f a = if (block * 4096 <=? a) && (a <? block * 4096 + 4096) then 255 else g a) ->
  programmed (block * 4096 + off) l a (f a) =
    if (block * 4096 <=? a) && (a <? block * 4096 + 4096) then default 255 (rd l (a - (block * 4096 + off))) else g a.
Proof.
  intros Hl Ho Hf Hc. unfold programmed. rewrite Hc.
  destruct (rd l _) as [x|] eqn:Ex; [|by destruct (_ && _)].
  pose proof (rd_Some _ _ _ Ex). rewrite (proj2 (Z.leb_le _ _)), (proj2 (Z.ltb_lt _ _)) by lia.
  simpl. assert (is_byte x) as Hx.
  { unfold rd in Ex. destruct (0 <=? _); [|done]. exact (Forall_lookup_1 _ _ _ _ Hl Ex). }
  change 255 with (Z.ones 8). rewrite Z.land_comm, Z.land_ones by lia. by apply Z.mod_small.
Qed.

Lemma read_back_data (f : Z -> Z) o data : (forall i x, rd data i = Some x -> f (o + i) = x) ->
  map (fun i => f (o + i)) (seqZ 0 (Z.of_nat (length data))) = data.
Proof.
  intros H. apply list_eq. intros i. rewrite list_lookup_fmap. destruct (decide (i < length data)%nat) as [Hi|Hi].
  - rewrite lookup_seqZ_lt by lia. simpl. rewrite Z.add_0_l. destruct (lookup_lt_is_Some_2 data i Hi) as [x Hx]. rewrite Hx.
    f_equal. apply H. unfold rd. by rewrite (proj2 (Z.leb_le _ _)), Nat2Z.id by lia.
  - rewrite lookup_seqZ_ge by lia. symmetry. apply lookup_ge_None. lia.
Qed.

(** C30: the block device contract littlefs relies on, on a device idle at the start whose sector erasures end, however
    long they take ([n] status reads, any number; the loop that waits for them has no limit of its own).  Erasing a
    block returns, and the block reads 0xFF.  Programming data inside it either succeeds, and reading the range
    back returns the data, the rest of the block reads 0xFF and no byte outside the block has changed; or it
    reports LFS_ERR_IO, and then a prefix of the data is programmed and nothing else - which cannot happen if
    the device ends every page program within the driver's 100 status reads, a millisecond apart. *)
Theorem block_device_roundtrip (n fuel : nat) (d : SNORDriver) (block off : Z) (data : list Z)
  (Hb : busy (busp d) = false) (Hp : sector_erase_ends n) (Hf : (n <= fuel)%nat) (Hblk : 0 <= block < 4096)
  (Hoff : 0 <= off) (Hfit : off + Zlen data <= 4096) (Hdata : is_bytes data) :
  let holds (l : list Z) (w : W) := forall a, content w a =
      if (block * 4096 <=? a) && (a <? block * 4096 + 4096)
      then default 255 (rd l (a - (block * 4096 + off)))
      else content (busp d) a in
  exists d1 r d2,
    erase_flash fuel d block = Some (LFS_ERR_OK, d1) /\ holds [] (busp d1) /\
    write_flash lfs_cfg d1 block off data = Some (r, d2) /\
    (r = LFS_ERR_OK /\ holds data (busp d2) /\
       (exists d3, read_flash lfs_cfg d2 block off (length data) = (LFS_ERR_OK, data, d3) /\ holds data (busp d3)) \/
     r = LFS_ERR_IO /\ exists c, 0 < c <= Zlen data /\ holds (take (Z.to_nat c) data) (busp d2)) /\
    (page_program_in_time (W := W) -> r = LFS_ERR_OK).
Proof.
  cbv zeta. destruct (erase_flash_spec n fuel d block) as (d1 & He & Hb1 & Hc1); [done..|].
  set (o := block * 4096 + off) in *. pose proof (Zlen_nonneg data).
  assert (u32 (block * block_size lfs_cfg + off) = o) as Ho by (apply u32_small; simpl; lia).
  assert (forall l w, is_bytes l -> off + Zlen l <= 4096 ->
    (forall a, content w a = programmed o l a (content (busp d1) a)) -> forall a, content w a =
      if (block * 4096 <=? a) && (a <? block * 4096 + 4096) then default 255 (rd l (a - o)) else content (busp d) a) as Hfin.
  { intros l w Hl Hlen Hw a. rewrite Hw. by apply programmed_erased. }
  destruct (program_loop_spec (Z.to_nat (Zlen data)) d1 o data) as (err & d2 & Hw & Hr & Hok);
    [done|lia|unfold FLASH_SIZE; lia|unfold Zlen; lia|].
  exists d1. unfold write_flash, read_flash, snor_device_program. rewrite Ho, Hw. cbn [mbind option_bind].
  destruct Hr as [(-> & Hb2 & Hc2)|(-> & c & Hc & Hc2)].
  - exists LFS_ERR_OK, d2. split_and!; [done| |done| |done].
    { intros a. rewrite Hc1. by rewrite rd_nil. }
    left. split_and!; [done|by apply Hfin|].
    destruct (read_spec d2 o (length data)) as (d3 & Hrd & Hb3 & Hc3);
      [done|lia|unfold FLASH_SIZE, Zlen in *; lia|].
    exists d3. rewrite Hrd. cbn [decide]. split; [|intros a; rewrite Hc3; by apply Hfin].
    do 2 f_equal. apply (read_back_data (fun a => content (busp d2) a)). intros i x Hx. rewrite (Hfin data) by done.
    pose proof (rd_Some _ _ _ Hx). rewrite (proj2 (Z.leb_le _ _)), (proj2 (Z.ltb_lt _ _)) by lia.
    replace (o + i - o) with i by lia. by rewrite Hx.
  - exists LFS_ERR_IO, d2. split_and!; [done| |done| |by intros ?%Hok].
    { intros a. rewrite Hc1. by rewrite rd_nil. }
    right. split; [done|]. exists c. split; [done|]. destruct (Zlen_take_drop data c) as [Ht _]; [lia|].
    apply Hfin; [by apply Forall_take|rewrite Ht; lia|done].
Qed.

End BlockDevice.
End BlockDevice.

(** ** A concrete device: a memory that stays busy for a while after each operation *)
Module SimFlash.
Import Snor BlockDevice.

Record sim := mk { mem : Z -> Z; busy_for : nat; wel : bool }.

Definition sim_content (w : sim) (a : Z) : Z := u8 (mem w a).
Definition sim_busy (w : sim) : bool := negb (Nat.eqb (busy_for w) 0).

Definition sim_command (w : sim) (c : wspi_command) : sim :=
  if sim_busy w then w
  else if cmd c =? W25Q_CMD_WRITE_ENABLE then mk (mem w) 0 true
  else if (cmd c =? W25Q_CMD_SECTOR_ERASE) && wel w then
    mk (fun a => if (addr c <=? a) && (a <? addr c + SECTOR_SIZE) then 255 else mem w a) 400 false
  else w.

Definition sim_send (w : sim) (c : wspi_command) (l : list Z) : sim :=
  if negb (sim_busy w) && (cmd c =? W25_QUAD_INPUT_PAGE_PROGRAM) && wel w then
    mk (fun a => match rd l (a - addr c) with
                 | Some b => Z.land (sim_content w a) b
                 | None => mem w a
                 end) 3 false
  else w.

Definition sim_receive (w : sim) (c : wspi_command) (n : nat) : list Z * sim :=
  if cmd c =? W25Q_CMD_READ_STATUS_REGISTER then
    (replicate n (if sim_busy w then 1 else 0), mk (mem w) (pred (busy_for w)) (wel w))
  else if cmd c =? W25Q_CMD_FAST_READ_QUAD_IO then
    (map (fun i => sim_content w (addr c + i)) (seqZ 0 (Z.of_nat n)), w)
  else (replicate n 239, w).

Lemma sim_land_byte a b : is_byte a -> u8 (Z.land a b) = Z.land a b.
Proof. intros Ha. apply u8_small. apply land_small_l; [lia|exact Ha]. Qed.

#[refine] Instance sim_flash : NorFlash sim := {
  wspiCommand := sim_command; wspiSend := sim_send; wspiReceive := sim_receive;
  content := sim_content; busy := sim_busy; write_enabled := wel }.
Proof.
  - intros w c n. unfold sim_receive. repeat case_match; simpl;
      rewrite ?length_replicate, ?length_map, ?length_seqZ; lia.
  - intros w a. apply u8_range.
  - intros w. simpl. by destruct (sim_busy w).
  - done.
  - intros w Hb. unfold sim_busy in *. simpl. by destruct (busy_for w).
  - done.
  - done.
  - done.
  - intros w Hb. unfold sim_command. by rewrite Hb.
  - intros w Hb. unfold sim_command. by rewrite Hb.
  - intros w a. unfold sim_command. by destruct (sim_busy w).
  - intros w o l a Hb Hw _ _ _. unfold sim_send, sim_content at 1. rewrite Hb, Hw. simpl.
    destruct (rd l (a - o)); [|done]. apply sim_land_byte, u8_range.
  - intros w o a Hb Hw _ _. unfold sim_command, sim_content at 1. rewrite Hb, Hw. simpl.
    by destruct (_ && _).
Defined.

Lemma sim_settles n (w : sim) : (busy_for w < n)%nat -> settles n w.
Proof.
  intros Hn. exists (busy_for w). split; [done|]. clear Hn. remember (busy_for w) as k eqn:Hk. revert w Hk.
  induction k as [|k IH]; intros w Hk; [simpl; unfold sim_busy; by rewrite <- Hk|].
  rewrite Nat.iter_succ_r. apply IH. simpl. by rewrite <- Hk.
Qed.

(** It takes 400 status reads to erase a sector and 3 to program a page. *)
Lemma sim_erase_ends : sector_erase_ends (W := sim) 401.
Proof.
  intros w o Hb Hw _ _. apply sim_settles. simpl in *. unfold sim_command. rewrite Hb, Hw. simpl. lia.
Qed.

Lemma sim_program_in_time : page_program_in_time (W := sim).
Proof.
  intros w o l Hb Hw _ _ _. apply sim_settles. simpl in *. unfold sim_send. rewrite Hb, Hw. simpl. lia.
Qed.

Definition blank : sim := mk (fun _ => 66) 0 false.
Definition sim_driver : SNORDriver (W := sim) := snor blank (replicate 16 0) FLASH_READY 0 0.

Lemma snor_program_correct_witness :
  exists err d', snor_device_program sim_driver 250 10 (replicate 10 5) = Some (err, d') /\
    (err = FLASH_NO_ERROR /\ busy (busp d') = false /\
       (forall a, content (busp d') a = programmed 250 (replicate 10 5) a (content blank a)) \/
     err = FLASH_ERROR_PROGRAM /\ exists c, 0 < c <= 10 /\
       (forall a, content (busp d') a =
                  programmed 250 (take (Z.to_nat c) (replicate 10 5)) a (content blank a))) /\
    (page_program_in_time (W := sim) -> err = FLASH_NO_ERROR).
Proof.
  apply (snor_program_correct sim_driver 250 (replicate 10 5));
    [reflexivity|lia|vm_compute; congruence].
Defined.

Lemma snor_verify_erase_iff_witness :
  let r := fst (snor_device_verify_erase sim_driver 7) in
  (r = FLASH_NO_ERROR <->
   forall a, 7 * SECTOR_SIZE <= a < (7 + 1) * SECTOR_SIZE -> content (busp sim_driver) a = 255) /\
  (r <> FLASH_NO_ERROR -> r = FLASH_ERROR_VERIFY).
Proof. apply (snor_verify_erase_iff sim_driver 7); [reflexivity|lia]. Defined.

Lemma block_device_roundtrip_witness :
  exists d1 d2 d3,
    erase_flash 500 sim_driver 3 = Some (LFS_ERR_OK, d1) /\
    write_flash lfs_cfg d1 3 512 (replicate 20 77) = Some (LFS_ERR_OK, d2) /\
    read_flash lfs_cfg d2 3 512 20 = (LFS_ERR_OK, replicate 20 77, d3) /\
    forall a, content (busp d3) a =
      if (3 * 4096 <=? a) && (a <? 3 * 4096 + 4096)
      then default 255 (rd (replicate 20 77) (a - (3 * 4096 + 512)))
      else content (busp sim_driver) a.
Proof.
  destruct (block_device_roundtrip 401 500 sim_driver 3 512 (replicate 20 77)) as (d1 & r & d2 & E1 & _ & E2 & H & Ho);
    [reflexivity|apply sim_erase_ends|lia|lia|lia|vm_compute; congruence|apply Forall_replicate; done|].
  specialize (Ho sim_program_in_time). subst r. destruct H as [(_ & _ & d3 & E3 & Hc)|[H _]]; [|discriminate H].
  exists d1, d2, d3. split; [exact E1|]. split; [exact E2|]. split; [exact E3|exact Hc].
Defined.

End SimFlash.
