(* ===== verification/Str.v ===== *)
(** * Str: Mongoose strings (mongoose/mongoose.c, lines 9518-9697)

    A [struct mg_str] is modelled by the bytes it points to; a NULL [mg_str] has length 0
    and is the empty list: every function tests the length first.  The functions that
    read a C string take its bytes with the terminator, and have no value when the
    terminator is missing. *)

From S2P Require Import Prelude.

Abbreviation mg_str := (list Z).

Definition is_upper (c : Z) : bool := (chr:("A") <=? c) && (c <=? chr:("Z")).
Definition is_digit (c : Z) : bool := (chr:("0") <=? c) && (c <=? chr:("9")).

Definition mg_tolc (c : Z) : Z := if is_upper c then c + chr:("a") - chr:("A") else c.

(** [strlen] over a buffer: [None] when no terminator is found. *)
Fixpoint strlen (s : list Z) : option Z :=
  match s with
  | [] => None
  | c :: s' => if c =? 0 then Some 0 else n ← strlen s'; Some (n + 1)
  end.

(** [mg_str_s]: the bytes before the terminator. *)
Fixpoint mg_str_s (s : list Z) : option mg_str :=
  match s with
  | [] => None
  | c :: s' => if c =? 0 then Some [] else r ← mg_str_s s'; Some (c :: r)
  end.

Fixpoint mg_casecmp (s1 s2 : list Z) : option Z :=
  match s1, s2 with
  | c :: s1', d :: s2' =>
      let diff := mg_tolc c - mg_tolc d in
      if (diff =? 0) && negb (c =? 0) then mg_casecmp s1' s2' else Some diff
  | _, _ => None
  end.

(** The comparison loop shared by the two comparisons, over mapped characters. *)
Fixpoint cmp_with (f : Z -> Z) (s1 s2 : mg_str) : Z :=
  match s1, s2 with
  | c :: s1', d :: s2' =>
      if f c <? f d then -1 else if f d <? f c then 1 else cmp_with f s1' s2'
  | _ :: _, [] => 1
  | [], _ :: _ => -1
  | [], [] => 0
  end.

Definition mg_strcmp (s1 s2 : mg_str) : Z := cmp_with id s1 s2.
Definition mg_strcasecmp (s1 s2 : mg_str) : Z := cmp_with mg_tolc s1 s2.

(** [mg_strdup]: a fresh copy with a terminator after it ([heap] tells whether the
    allocation succeeds); an empty or failed copy is the NULL string. *)
Definition mg_strdup (heap : bool) (s : mg_str) : mg_str * option (list Z) :=
  if (0 <? Zlen s) && heap then (s, Some (s ++ [0])) else ([], None).

(** ** Splitting *)

Fixpoint find_sep (s : mg_str) (sep : Z) : nat :=
  match s with
  | [] => O
  | c :: s' => if c =? sep then O else S (find_sep s' sep)
  end.

Definition mg_span (s : mg_str) (sep : Z) : option (mg_str * mg_str) :=
  match s with
  | [] => None
  | _ =>
      let len := find_sep s sep in
      let a := take len s in
      let b := drop len s in
      Some (a, if (len <? length s)%nat then tail b else b)
  end.

(** ** Numbers *)

Definition max_of (val_len : Z) : Z :=
  if val_len =? 1 then 255 else if val_len =? 2 then 65535
  else if val_len =? 4 then 4294967295 else 2 ^ 64 - 1.

(** The digits the three loops accept. *)
Definition digit_of (base c : Z) : option Z :=
  if base =? 2 then
    if (c =? chr:("0")) || (c =? chr:("1")) then Some (c - chr:("0")) else None
  else if base =? 10 then
    if is_digit c then Some (c - chr:("0")) else None
  else if is_digit c then Some (c - chr:("0"))
  else if (chr:("A") <=? c) && (c <=? chr:("F")) then Some (c - chr:("7"))
  else if (chr:("a") <=? c) && (c <=? chr:("f")) then Some (c - chr:("W"))
  else None.

(** The loop of one base: [None] is the overflow return; otherwise the result, the digit
    count and the unread rest. *)
Fixpoint num_loop (base max : Z) (s : mg_str) (result ndigits : Z) : option (Z * Z * mg_str) :=
  match s with
  | [] => Some (result, ndigits, [])
  | c :: s' =>
      match digit_of base c with
      | None => Some (result, ndigits, s)
      | Some digit =>
          if max / base <? result then None
          else let result := u64 (result * base) in
               if max - digit <? result then None
               else num_loop base max s' (u64 (result + digit)) (ndigits + 1)
      end
  end.

(** Base detection: the base and the characters left. *)
Definition detect_base (base : Z) (s : mg_str) : Z * mg_str :=
  if (base =? 0) && (2 <=? Zlen s) then
    match s with
    | c0 :: c1 :: s' =>
        if c0 =? chr:("0") then
          if c1 =? chr:("b") then (2, s')
          else if c1 =? chr:("x") then (16, s')
          else (10, c1 :: s')
        else (10, s)
    | _ => (base, s)
    end
  else (base, s).

Definition mg_str_to_num (s : mg_str) (base val_len : Z) : option Z :=
  let max := max_of val_len in
  if (max =? 2 ^ 64 - 1) && negb (val_len =? 8) then None
  else
    let '(base, s) := detect_base base s in
    if (base =? 2) || (base =? 10) || (base =? 16) then
      '(result, ndigits, rest) ← num_loop base max s 0 0;
      if ndigits =? 0 then None
      else match rest with
           | [] => Some (result mod 2 ^ (8 * val_len))
           | _ => None
           end
    else None.

(** ** Pattern matching *)

(** Captures: the array and the current element; an access outside the array is an
    overrun. *)
Inductive caps :=
| NoCaps
| Caps (arr : list (option Z * Z)) (cur : Z)
| CapsOverrun.

Definition caps_get (c : caps) : option (option Z * Z) :=
  match c with Caps arr cur => rd arr cur | _ => None end.

Definition caps_set (c : caps) (v : option Z * Z) : caps :=
  match c with
  | Caps arr cur => match wr arr cur v with Some arr' => Caps arr' cur | None => CapsOverrun end
  | _ => c
  end.

Definition caps_move (c : caps) (k : Z) : caps :=
  match c with Caps arr cur => Caps arr (cur + k) | _ => c end.

(** A character was matched at [j] by the pattern character [pc]. *)
Definition caps_char (pc j : Z) (c : caps) : caps :=
  match c with
  | NoCaps => NoCaps
  | _ =>
      if pc =? chr:("?") then caps_set (caps_move (caps_set c (Some j, 1)) 1) (None, 0)
      else match caps_get c with
           | Some (Some b, 0) => caps_set (caps_move (caps_set c (Some b, j - b)) 1) (None, 0)
           | Some _ => c
           | None => CapsOverrun
           end
  end.

(** A star was reached at [j]. *)
Definition caps_star (j : Z) (c : caps) : caps :=
  match c with
  | NoCaps => NoCaps
  | _ => match caps_get c with
         | Some (None, _) => caps_set c (Some j, 0)
         | Some _ => c
         | None => CapsOverrun
         end
  end.

(** The matcher backtracked. *)
Definition caps_back (c : caps) : caps :=
  match c with
  | NoCaps => NoCaps
  | _ => match caps_get c with
         | Some (None, 0) =>
             let c := caps_move c (-1) in
             match caps_get c with
             | Some (b, _) => caps_set c (b, 0)
             | None => CapsOverrun
             end
         | Some _ => c
         | None => CapsOverrun
         end
  end.

(** The pattern matched with the subject read up to [j]. *)
Definition caps_end (j : Z) (c : caps) : caps :=
  match c with
  | NoCaps => NoCaps
  | _ => match caps_get c with
         | Some (Some b, 0) => caps_set c (Some b, j - b)
         | Some _ => c
         | None => CapsOverrun
         end
  end.

Definition is_star (c : Z) : bool := (c =? chr:("*")) || (c =? chr:("#")).

(** The three tests of the loop body on the current characters, [None] past the end. *)
Definition char_test (pi sj : option Z) : bool :=
  match pi, sj with
  | Some a, Some b => (a =? chr:("?")) || (negb (is_star a) && (b =? a))
  | _, _ => false
  end.

Definition star_test (pi : option Z) : bool :=
  match pi with Some a => is_star a | None => false end.

Record match_state := mst { mi : nat; mj : nat; mni : nat; mnj : nat; mcaps : caps }.

(** [after] is the byte that follows the subject in memory: this test may read it
    (j = s.len). *)
Definition back_test (s p : mg_str) (after : Z) (st : match_state) : bool :=
  (0 <? mnj st)%nat && (mnj st <=? length s)%nat &&
  ((default 0 (p !! mni st) =? chr:("#")) || negb (default after (s !! mj st) =? chr:("/"))).

(** One iteration of the loop on (i, j, ni, nj): [inl] the next state, [inr] the
    result. *)
Definition match_step (s p : mg_str) (after : Z) (st : match_state)
  : match_state + bool * caps :=
  let '(mst i j ni nj c) := st in
  if (i <? length p)%nat || (j <? length s)%nat then
    if char_test (p !! i) (s !! j)
    then inl (mst (S i) (S j) ni nj (caps_char (default 0 (p !! i)) (Z.of_nat j) c))
    else if star_test (p !! i)
    then inl (mst (S i) j i (S j) (caps_star (Z.of_nat j) c))
    else if back_test s p after st
    then inl (mst ni nj ni nj (caps_back c))
    else inr (false, c)
  else inr (true, caps_end (Z.of_nat j) c).

Fixpoint match_loop (fuel : nat) (s p : mg_str) (after : Z) (st : match_state)
  : option (bool * caps) :=
  match fuel with
  | O => None
  | S fuel' =>
      match match_step s p after st with
      | inl st' => match_loop fuel' s p after st'
      | inr r => Some r
      end
  end.

(** The bound is proved sufficient below ([match_terminates]). *)
Definition match_fuel (s p : mg_str) : nat := ((length s + 3) * (length p + 3))%nat.

Definition mg_match (s p : mg_str) (after : Z) (c : caps) : option (bool * caps) :=
  match_loop (match_fuel s p) s p after
    (mst 0 0 0 0 (match c with NoCaps => NoCaps | _ => caps_set c (None, 0) end)).

Example match_api : mg_match str:("/api/leds") str:("/api/#") 32 NoCaps = Some (true, NoCaps).
Proof. reflexivity. Qed.
Example match_caps :
  mg_match str:("/api/upload/a/b") str:("/api/*/#") 32 (Caps (replicate 3 (None, 9)) 0) =
  Some (true, Caps [(Some 5, 6); (Some 12, 3); (None, 9)] 1).
Proof. reflexivity. Qed.
Example num_hex : mg_str_to_num str:("0xfF") 0 1 = Some 255.
Proof. reflexivity. Qed.
Example num_over : mg_str_to_num str:("256") 10 1 = None.
Proof. reflexivity. Qed.

(** ** The matcher terminates *)
Section Match.
Context (s p : mg_str) (after : Z).

(** The shape of the loop state: the star to return to lies behind [i], only plain
    characters were matched since, one for one, or the matcher has just returned to it. *)
Definition shape (st : match_state) : Prop :=
  let '(mst i j ni nj _) := st in
  (i <= length p)%nat /\ (j <= length s)%nat /\
  ((0 < nj)%nat ->
    (exists a, p !! ni = Some a /\ is_star a = true) /\
    ((i = ni /\ j = nj) \/
     ((ni < i)%nat /\ (i + nj = j + ni + 2)%nat /\
      forall k a, (ni < k < i)%nat -> p !! k = Some a -> is_star a = false))).

Definition measure (st : match_state) : nat :=
  let '(mst i j ni nj _) := st in
  let a := (length s + 2 - nj)%nat in
  if decide ((0 < nj)%nat /\ i = ni /\ j = nj)
  then ((a - 1) * (length p + 2) + length p + 1)%nat
  else (a * (length p + 2) + (length p - i))%nat.

(** The three ways the loop continues. *)
Inductive continues : match_state -> match_state -> Prop :=
| cont_char i j ni nj c c' a b :
    p !! i = Some a -> s !! j = Some b -> is_star a = false -> (a = chr:("?") \/ b = a) ->
    continues (mst i j ni nj c) (mst (S i) (S j) ni nj c')
| cont_star i j ni nj c c' a :
    p !! i = Some a -> is_star a = true ->
    continues (mst i j ni nj c) (mst (S i) j i (S j) c')
| cont_back i j ni nj c c' :
    (forall a, p !! i = Some a -> is_star a = false) ->
    (forall a b, p !! i = Some a -> s !! j = Some b -> a <> chr:("?") /\ b <> a) ->
    (0 < nj)%nat -> (nj <= length s)%nat -> ((i < length p)%nat \/ (j < length s)%nat) ->
    continues (mst i j ni nj c) (mst ni nj ni nj c').

Lemma char_test_true pi sj :
  char_test pi sj = true -> exists a b, pi = Some a /\ sj = Some b /\ is_star a = false /\
    (a = chr:("?") \/ b = a).
Proof.
  destruct pi as [a|], sj as [b|]; simpl; try done. intros [H|H]%orb_prop; exists a, b.
  - apply Z.eqb_eq in H as ->. auto.
  - apply andb_prop in H as [H1 H2]. zbool. auto.
Qed.

Lemma char_test_false pi sj :
  char_test pi sj = false -> star_test pi = false ->
  forall a b, pi = Some a -> sj = Some b -> a <> chr:("?") /\ b <> a.
Proof.
  intros H1 H2 a b -> ->. simpl in *. rewrite H2 in H1. zbool. split; [done|].
  intros ->. by rewrite Z.eqb_refl in *.
Qed.

Lemma match_step_cases st :
  match match_step s p after st with
  | inl st' => continues st st'
  | inr (true, _) => (length p <= mi st)%nat /\ (length s <= mj st)%nat
  | inr (false, _) =>
      (forall a, p !! mi st = Some a -> is_star a = false) /\
      (forall a b, p !! mi st = Some a -> s !! mj st = Some b -> a <> chr:("?") /\ b <> a) /\
      ((mi st < length p)%nat \/ (mj st < length s)%nat) /\
      (mnj st = O \/ (length s < mnj st)%nat \/ p !! mni st <> Some chr:("#"))
  end.
Proof.
  destruct st as [i j ni nj c]. unfold match_step. cbn [mi mj mni mnj].
  destruct (Nat.ltb_spec i (length p)), (Nat.ltb_spec j (length s)); simpl; try done;
  (destruct (char_test _ _) eqn:T1;
    [destruct (char_test_true _ _ T1) as (a & b & Ha & Hb & Hs & Hor); econstructor; eauto|];
   destruct (star_test _) eqn:T2;
    [destruct (p !! i) as [a|] eqn:Ea; [econstructor; eauto|done]|];
   pose proof (char_test_false _ _ T1 T2) as Hc;
   assert (forall a, p !! i = Some a -> is_star a = false) as Hs
     by (intros a Ha; by rewrite Ha in T2);
   destruct (back_test _ _ _ _) eqn:T3; unfold back_test in T3; cbn [mj mni mnj] in T3;
   [apply andb_prop in T3 as [[T3 T4]%andb_prop T5]; apply Nat.ltb_lt in T3;
    apply Nat.leb_le in T4; constructor; auto
   |split_and!; auto;
    apply andb_false_iff in T3 as [[T3|T3]%andb_false_iff|T3];
    [apply Nat.ltb_ge in T3; left; lia|apply Nat.leb_gt in T3; auto|];
    right; right; apply orb_false_elim in T3 as [T3 _]; intros E; rewrite E in T3; done]).
Qed.

Lemma continues_shape st st' : continues st st' -> shape st -> shape st'.
Proof.
  intros Hc. destruct Hc as [i j ni nj c c' a b Ha Hb Hs Hor|i j ni nj c c' a Ha Hs
    |i j ni nj c c' Hn Hm H0 Hl Hne]; intros (Hi & Hj & Hst).
  - pose proof (lookup_lt_Some _ _ _ Ha). pose proof (lookup_lt_Some _ _ _ Hb).
    split_and!; [lia|lia|]. intros Hnj. destruct (Hst Hnj) as [Hstar [[-> ->]|(Hlt & Heq & Hseg)]].
    + destruct Hstar as (a' & ? & ?). congruence.
    + split; [done|]. right. split_and!; [lia|lia|]. intros k x Hk Hx.
      destruct (decide (k = i)) as [->|]; [congruence|]. apply (Hseg k x); [lia|done].
  - pose proof (lookup_lt_Some _ _ _ Ha). split_and!; [lia|lia|]. intros _. split; [eauto|].
    right. split_and!; [lia|lia|]. intros k x Hk. lia.
  - destruct (Hst H0) as [(a & Ha & Hsa) _]. pose proof (lookup_lt_Some _ _ _ Ha).
    split_and!; [lia|lia|]. intros _. split; [eauto|]. by left.
Qed.

Lemma continues_measure st st' :
  continues st st' -> shape st -> (measure st' < measure st)%nat.
Proof.
  intros Hc. destruct Hc as [i j ni nj c c' a b Ha Hb Hs Hor|i j ni nj c c' a Ha Hs
    |i j ni nj c c' Hn Hm H0 Hl Hne]; intros (Hi & Hj & Hst); unfold measure.
  - pose proof (lookup_lt_Some _ _ _ Ha).
    assert (~ ((0 < nj)%nat /\ i = ni /\ j = nj)) as Hno.
    { intros (Hnj & -> & _). destruct (Hst Hnj) as [(a' & ? & ?) _]. congruence. }
    assert (~ ((0 < nj)%nat /\ S i = ni /\ S j = nj)) as Hno'.
    { intros (Hnj & <- & <-). destruct (Hst Hnj) as [_ [[? ?]|(? & ? & ?)]]; lia. }
    rewrite !decide_False by done. lia.
  - pose proof (lookup_lt_Some _ _ _ Ha). rewrite (decide_False (P := _ /\ S i = i /\ _)) by lia.
    destruct (decide (0 < nj /\ i = ni /\ j = nj)%nat) as [(Hnj & -> & ->)|Hno].
    + nia.
    + assert (nj <= S j)%nat.
      { destruct (decide (0 < nj)%nat) as [Hnj|]; [|lia].
        destruct (Hst Hnj) as [_ [[? ?]|(? & ? & ?)]]; lia. }
      assert (length s + 2 - S j <= length s + 2 - nj)%nat by lia. nia.
  - rewrite (decide_True (P := _ /\ ni = ni /\ _)) by auto.
    destruct (decide (0 < nj /\ i = ni /\ j = nj)%nat) as [(_ & -> & ->)|Hno]; [|nia].
    destruct (Hst H0) as [(a & Ha & Hsa) _]. by rewrite (Hn a Ha) in Hsa.
Qed.

(** The invariant [P] of a loop that continues, on enough fuel. *)
Lemma match_loop_ind (P : match_state -> Prop) fuel st :
  (forall st st', P st -> shape st -> continues st st' -> P st') ->
  P st -> shape st -> (measure st < fuel)%nat ->
  exists st' r, match_loop fuel s p after st = Some r /\ P st' /\ shape st' /\
    match_step s p after st' = inr r.
Proof.
  intros HP. revert st. induction fuel as [|fuel IH]; intros st Hst Hsh Hm; [lia|]. simpl.
  pose proof (match_step_cases st) as Hc.
  destruct (match_step s p after st) as [st'|r] eqn:E; [|by exists st, r].
  apply IH; [by eapply HP|by eapply continues_shape|].
  pose proof (continues_measure _ _ Hc Hsh). lia.
Qed.

Definition initial (c : caps) : match_state := mst 0 0 0 0 c.

Lemma initial_ok c : shape (initial c) /\ (measure (initial c) < match_fuel s p)%nat.
Proof.
  split; [split_and!; [lia|lia|lia]|]. unfold measure, match_fuel, initial.
  rewrite decide_False by lia. nia.
Qed.

(** ** The matcher is correct *)

(** What a pattern means: '?' any one character, '*' any characters but '/', '#' any
    characters. *)
Inductive glob : mg_str -> mg_str -> Prop :=
| glob_nil : glob [] []
| glob_any c pt su : glob pt su -> glob (chr:("?") :: pt) (c :: su)
| glob_lit c pt su : is_star c = false -> glob pt su -> glob (c :: pt) (c :: su)
| glob_empty a pt su : is_star a = true -> glob pt su -> glob (a :: pt) su
| glob_more a c pt su : is_star a = true -> (a = chr:("#") \/ c <> chr:("/")) ->
    glob (a :: pt) su -> glob (a :: pt) (c :: su).

(** The rest of the pattern from [i] matches the rest of the subject from [j]. *)
Definition G (i j : nat) : Prop := glob (drop i p) (drop j s).

Lemma drop_cons {A} (l : list A) i x : l !! i = Some x -> drop i l = x :: drop (S i) l.
Proof. apply drop_S. Qed.

Lemma G_hash i j :
  p !! i = Some chr:("#") ->
  (G i j <-> G (S i) j \/ ((j < length s)%nat /\ G i (S j))).
Proof.
  intros Hp. unfold G. rewrite (drop_cons p i _ Hp). split.
  - intros H. inversion H as [|c pt su Hg E|c pt su Hl|a pt su Hs Hg|a c pt su Hs Ho Hg E1 E2];
      subst; auto; [done|]. right.
    assert (j < length s)%nat as Hlt.
    { apply (f_equal length) in E2. rewrite length_drop in E2. simpl in E2. lia. }
    split; [done|]. destruct (lookup_lt_is_Some_2 s j Hlt) as [x Hx].
    rewrite (drop_cons s j x Hx) in E2. by simplify_eq.
  - intros [H|[Hlt H]]; [by apply glob_empty|].
    destruct (lookup_lt_is_Some_2 s j Hlt) as [x Hx]. rewrite (drop_cons s j x Hx).
    apply glob_more; auto.
Qed.

(** A '#' may start later in the subject. *)
Lemma G_hash_earlier i j k :
  p !! i = Some chr:("#") -> (j + k <= length s)%nat -> G i (j + k) -> G i j.
Proof.
  intros Hp. revert j. induction k as [|k IH]; intros j Hk H; [by rewrite Nat.add_0_r in H|].
  apply G_hash; [done|]. right. split; [lia|]. apply IH; [lia|].
  by replace (S j + k)%nat with (j + S k)%nat by lia.
Qed.

Lemma G_plain i j a :
  p !! i = Some a -> is_star a = false ->
  (G i j <-> exists b, s !! j = Some b /\ (a = chr:("?") \/ b = a) /\ G (S i) (S j)).
Proof.
  intros Hp Hs. unfold G. rewrite (drop_cons p i _ Hp). split.
  - intros H. destruct (s !! j) as [x|] eqn:Hx.
    + rewrite (drop_cons s j x Hx) in H. exists x. split; [done|].
      inversion H; subst; auto; congruence.
    + apply lookup_ge_None in Hx. rewrite (drop_ge s) in H by done.
      inversion H; subst; congruence.
  - intros (b & Hb & Ho & H). rewrite (drop_cons s j b Hb).
    destruct Ho as [-> | ->]; [by apply glob_any|by apply glob_lit].
Qed.


Lemma G_end j : G (length p) j <-> (length s <= j)%nat.
Proof.
  unfold G. rewrite drop_all. split.
  - intros H. destruct (drop j s) eqn:E; [|by inversion H].
    apply (f_equal length) in E. rewrite length_drop in E. simpl in E. lia.
  - intros H. rewrite drop_ge by done. constructor.
Qed.

(** Plain characters of the pattern consume the subject one for one. *)
Lemma G_segment m i j :
  (forall k a, (i <= k < i + m)%nat -> p !! k = Some a -> is_star a = false) ->
  (i + m <= length p)%nat -> (j <= length s)%nat -> G i j ->
  G (i + m) (j + m) /\ (j + m <= length s)%nat.
Proof.
  revert i j. induction m as [|m IH]; intros i j Hseg Hl Hj H; [by rewrite !Nat.add_0_r|].
  destruct (lookup_lt_is_Some_2 p i) as [a Ha]; [lia|].
  assert (is_star a = false) as Hs by (apply (Hseg i a); [lia|done]).
  destruct (proj1 (G_plain i j a Ha Hs) H) as (b & Hb & _ & H').
  pose proof (lookup_lt_Some _ _ _ Hb).
  replace (i + S m)%nat with (S i + m)%nat by lia.
  replace (j + S m)%nat with (S j + m)%nat by lia.
  apply IH; [|lia|lia|done]. intros k x Hk. apply Hseg. lia.
Qed.

(** Skipping what a '#' takes. *)
Lemma G_hash_after i j : p !! i = Some chr:("#") -> (j <= length s)%nat -> G i j ->
  exists k, (j + k <= length s)%nat /\ G (S i) (j + k).
Proof.
  intros Hp Hj. remember (length s - j)%nat as n eqn:En. revert j Hj En.
  induction n as [|n IH]; intros j Hj En H; apply G_hash in H as [H|[Hlt H]]; try done.
  - exists 0%nat. by rewrite Nat.add_0_r.
  - lia.
  - exists 0%nat. by rewrite Nat.add_0_r.
  - destruct (IH (S j)) as (k & Hk & HG); [lia..|done|]. exists (S k).
    by replace (j + S k)%nat with (S j + k)%nat by lia.
Qed.

Context (Hnostar : chr:("*") ∉ p).

Lemma star_is_hash i a : p !! i = Some a -> is_star a = true -> p !! i = Some chr:("#").
Proof.
  intros Hp Hs. rewrite Hp. unfold is_star in Hs. apply orb_prop in Hs as [Hs|Hs]; zbool.
  - subst a. exfalso. apply Hnostar. by eapply list_elem_of_lookup_2.
  - by subst a.
Qed.

(** The pattern matches exactly when the current alternative or the return point does. *)
Definition sound (st : match_state) : Prop :=
  glob p s <-> G (mi st) (mj st) \/
    ((0 < mnj st)%nat /\ (mnj st <= length s)%nat /\ G (mni st) (mnj st)).

(** Reaching a new '#' makes the old return point useless. *)
Lemma return_point_useless i j ni nj c :
  shape (mst i j ni nj c) -> p !! i = Some chr:("#") ->
  (0 < nj)%nat -> (nj <= length s)%nat -> G ni nj -> G i j.
Proof.
  intros (Hi & Hj & Hst) Hp H0 Hl H. destruct (Hst H0) as [(a & Ha & Hs) [[-> ->]|(Hlt & He & Hseg)]];
    [done|].
  apply star_is_hash in Ha; [|done].
  apply G_hash_after in H as (k & Hk & H); [|done..].
  pose proof (lookup_lt_Some _ _ _ Hp).
  apply (G_segment (i - S ni)) in H as [H Hb]; [|intros q x Hq; apply Hseg; lia|lia..].
  apply (G_hash_earlier i j (S k)); [done|lia|].
  replace (S ni + (i - S ni))%nat with i in H by lia.
  by replace (j + S k)%nat with (nj + k + (i - S ni))%nat by lia.
Qed.

Lemma dead_end i j :
  (i <= length p)%nat ->
  (forall a, p !! i = Some a -> is_star a = false) ->
  (forall a b, p !! i = Some a -> s !! j = Some b -> a <> chr:("?") /\ b <> a) ->
  ((i < length p)%nat \/ (j < length s)%nat) -> ~ G i j.
Proof.
  intros Hi Hn Hm Hne H. destruct (p !! i) as [a|] eqn:Ea.
  - apply (G_plain i j a Ea) in H as (b & Hb & Ho & _); [|by apply Hn].
    destruct (Hm a b eq_refl Hb). naive_solver.
  - apply lookup_ge_None in Ea. replace i with (length p) in * by lia.
    apply G_end in H. lia.
Qed.

Lemma continues_sound st st' : sound st -> shape st -> continues st st' -> sound st'.
Proof.
  intros Hs Hsh Hc. unfold sound in *. rewrite Hs. clear Hs.
  destruct Hc as [i j ni nj c c' a b Ha Hb Hst Hor|i j ni nj c c' a Ha Hst
    |i j ni nj c c' Hn Hm H0 Hl Hne]; cbn [mi mj mni mnj].
  - rewrite (G_plain i j a Ha Hst). naive_solver.
  - apply star_is_hash in Ha; [|done].
    pose proof (return_point_useless i j ni nj c Hsh Ha) as Hu.
    rewrite (G_hash i j Ha) in *. destruct Hsh as (_ & Hj & _). split; [|naive_solver lia].
    intros [H|(H1 & H2 & H3)]; [|specialize (Hu H1 H2 H3)]; naive_solver lia.
  - destruct Hsh as (Hi & Hj & _). pose proof (dead_end i j Hi Hn Hm Hne). naive_solver.
Qed.

Lemma match_iff c : exists b c',
  match_loop (match_fuel s p) s p after (initial c) = Some (b, c') /\ (b = true <-> glob p s).
Proof.
  destruct (initial_ok c) as [Hsh Hm].
  destruct (match_loop_ind sound (match_fuel s p) (initial c)) as (st & [b c'] & E & Hs & Hsh' & Est);
    [apply continues_sound| |done..|].
  { unfold sound, G. simpl. rewrite !drop_0. naive_solver lia. }
  exists b, c'. split; [done|]. unfold sound in Hs. rewrite Hs. pose proof (match_step_cases st) as Hc.
  rewrite Est in Hc. destruct st as [i j ni nj c0]. cbn [mi mj mni mnj] in *.
  destruct Hsh' as (Hi & Hj & Hst). destruct b.
  - split; [|done]. intros _. left. destruct Hc. replace i with (length p) by lia.
    by apply G_end.
  - destruct Hc as (Hn & Hd & Hne & Hr). split; [done|]. intros [H|(H1 & H2 & H3)].
    + by apply dead_end in H.
    + destruct (Hst H1) as [(a & Ha & Hsa) _]. apply star_is_hash in Ha; [|done].
      naive_solver lia.
Qed.
End Match.

(** The route matcher is exact on patterns without a single-star: [mg_match] returns
    for every subject and pattern whatever captures are asked for, and for a pattern
    built from literals, '?' and '#' (the routes of the web server) the answer is true
    exactly when the pattern matches in the documented sense, independently of the byte
    that follows the subject in memory. *)
Theorem mg_match_exact (s p : mg_str) (after : Z) (c : caps) (Hp : chr:("*") ∉ p) :
  exists b c', mg_match s p after c = Some (b, c') /\ (b = true <-> glob p s).
Proof. unfold mg_match. by apply match_iff. Qed.

Lemma mg_match_exact_witness :
  exists b c', mg_match str:("/api/leds") str:("/api/#") 0 NoCaps = Some (b, c') /\
    (b = true <-> glob str:("/api/#") str:("/api/leds")).
Proof. apply (mg_match_exact str:("/api/leds") str:("/api/#") 0 NoCaps). set_solver. Defined.

(** The matcher returns for every subject, pattern and captures, on a bound that is
    the product of the two lengths. *)
Theorem mg_match_terminates (s p : mg_str) (after : Z) (c : caps) :
  is_Some (mg_match s p after c).
Proof.
  unfold mg_match. set (c0 := match c with NoCaps => NoCaps | _ => _ end).
  destruct (initial_ok s p c0) as [Hsh Hm].
  destruct (match_loop_ind s p after (fun _ => True) (match_fuel s p) (initial c0))
    as (st & r & E & _); [done..|]. unfold initial in E. rewrite E. by eexists.
Qed.

(** A star may cross a slash when the mismatch lies elsewhere: the documentation of
    [mg_match] excludes it. *)
Example star_crosses_slash :
  mg_match str:("/c/b") str:("*/b") 0 NoCaps = Some (true, NoCaps) /\
  ~ glob str:("*/b") str:("/c/b").
Proof.
  split; [reflexivity|]. intros H.
  repeat match goal with
         | H : glob _ _ |- _ => inversion H; clear H; subst; try done; try (simpl in *; lia)
         end; naive_solver.
Qed.

(** ** Comparison *)

Lemma cmp_with_range f s1 s2 : cmp_with f s1 s2 = -1 \/ cmp_with f s1 s2 = 0 \/ cmp_with f s1 s2 = 1.
Proof.
  revert s2. induction s1 as [|c s1 IH]; intros [|d s2]; simpl; auto.
  repeat case_match; auto.
Qed.

Lemma cmp_with_eq f s1 s2 : cmp_with f s1 s2 = 0 <-> map f s1 = map f s2.
Proof.
  revert s2. induction s1 as [|c s1 IH]; intros [|d s2]; simpl; try done.
  destruct (Z.ltb_spec (f c) (f d)), (Z.ltb_spec (f d) (f c)).
  - lia.
  - split; [done|]. intros [= E _]. lia.
  - split; [done|]. intros [= E _]. lia.
  - rewrite IH. split; [intros ->; f_equal; lia|by intros [= _ ->]].
Qed.

Lemma cmp_with_flip f s1 s2 : cmp_with f s2 s1 = - cmp_with f s1 s2.
Proof.
  revert s2. induction s1 as [|c s1 IH]; intros [|d s2]; simpl; try done.
  destruct (Z.ltb_spec (f c) (f d)), (Z.ltb_spec (f d) (f c)); try done; lia.
Qed.

Lemma cmp_with_trans f s1 s2 s3 :
  cmp_with f s1 s2 <= 0 -> cmp_with f s2 s3 <= 0 -> cmp_with f s1 s3 <= 0.
Proof.
  revert s2 s3. induction s1 as [|c s1 IH]; intros [|d s2] [|e s3]; simpl; try lia.
  destruct (Z.ltb_spec (f c) (f d)), (Z.ltb_spec (f d) (f c)),
    (Z.ltb_spec (f d) (f e)), (Z.ltb_spec (f e) (f d)),
    (Z.ltb_spec (f c) (f e)), (Z.ltb_spec (f e) (f c)); try lia.
  apply IH.
Qed.

(** [mg_strcmp] and [mg_strcasecmp] are three-valued total preorders on strings:
    they return 0 exactly on strings equal (up to ASCII case for the second), swap sign
    with their arguments and are transitive, so they may be used to sort and to search. *)
Theorem mg_strcmp_order (s1 s2 s3 : mg_str) :
  (mg_strcmp s1 s2 = 0 <-> s1 = s2) /\
  (mg_strcasecmp s1 s2 = 0 <-> map mg_tolc s1 = map mg_tolc s2) /\
  mg_strcmp s2 s1 = - mg_strcmp s1 s2 /\ mg_strcasecmp s2 s1 = - mg_strcasecmp s1 s2 /\
  (mg_strcmp s1 s2 <= 0 -> mg_strcmp s2 s3 <= 0 -> mg_strcmp s1 s3 <= 0) /\
  (mg_strcasecmp s1 s2 <= 0 -> mg_strcasecmp s2 s3 <= 0 -> mg_strcasecmp s1 s3 <= 0).
Proof.
  unfold mg_strcmp, mg_strcasecmp. rewrite !cmp_with_eq.
  assert (forall l : mg_str, map id l = l) as Hid by apply map_id. rewrite !Hid.
  split_and!; auto using cmp_with_flip; apply cmp_with_trans.
Qed.

(** ** Splitting *)

Lemma find_sep_spec s sep :
  sep ∉ take (find_sep s sep) s /\
  ((find_sep s sep < length s)%nat -> exists r, drop (find_sep s sep) s = sep :: r).
Proof.
  induction s as [|c s [IH1 IH2]]; simpl; [split; [apply not_elem_of_nil|lia]|].
  destruct (Z.eqb_spec c sep) as [->|Hne]; simpl.
  - split; [apply not_elem_of_nil|eauto].
  - split; [by apply not_elem_of_cons|]. intros H. apply IH2. lia.
Qed.

Lemma find_sep_le s sep : (find_sep s sep <= length s)%nat.
Proof. induction s as [|c s IH]; simpl; [lia|]. destruct (c =? sep); lia. Qed.

(** [mg_span] fails exactly on the empty string; otherwise it splits at the first
    separator: the first part has no separator and the two parts, with the separator
    put back if there was one, are the input. *)
Theorem mg_span_spec (s : mg_str) (sep : Z) :
  match mg_span s sep with
  | None => s = []
  | Some (a, b) => sep ∉ a /\ s <> [] /\ (s = a ++ sep :: b \/ (s = a /\ b = []))
  end.
Proof.
  unfold mg_span. destruct s as [|c s']; [done|]. set (s := c :: s').
  destruct (find_sep_spec s sep) as [H1 H2].
  pose proof (take_drop (find_sep s sep) s) as Htd.
  destruct (Nat.ltb_spec (find_sep s sep) (length s)) as [Hlt|Hge].
  - destruct (H2 Hlt) as [r Hr]. rewrite Hr in Htd |- *. simpl. split_and!; [done|done|].
    left. done.
  - rewrite drop_ge, app_nil_r in Htd by done. rewrite drop_ge by done.
    split_and!; [done|done|]. by right.
Qed.

(** ** Numbers *)

(** The value of a digit string in a base, read from the left. *)
Fixpoint value_from (base acc : Z) (s : mg_str) : option Z :=
  match s with
  | [] => Some acc
  | c :: s' => d ← digit_of base c; value_from base (acc * base + d) s'
  end.

Definition base_ok (base : Z) : Prop := base = 2 \/ base = 10 \/ base = 16.
Definition width_ok (n : Z) : Prop := n = 1 \/ n = 2 \/ n = 4 \/ n = 8.

Lemma digit_of_range base c d : base_ok base -> digit_of base c = Some d -> 0 <= d < base.
Proof.
  unfold digit_of, is_digit.
  intros [-> |[-> | ->]]; simpl; repeat case_match; intros; simplify_eq; zbool; try lia.
Qed.

Lemma value_from_ge base s : base_ok base -> forall acc v,
  0 <= acc -> value_from base acc s = Some v -> acc <= v.
Proof.
  intros Hb. induction s as [|c s IH]; intros acc v Hacc; simpl; [intros [= ->]; lia|].
  destruct (digit_of base c) as [d|] eqn:E; simpl; [|done]. intros Hv.
  pose proof (digit_of_range _ _ _ Hb E). unfold base_ok in Hb.
  apply IH in Hv; nia.
Qed.

Lemma num_loop_spec base max s : base_ok base -> 0 <= max < 2 ^ 64 -> forall r nd v nd',
  0 <= r <= max ->
  (num_loop base max s r nd = Some (v, nd', []) <->
   value_from base r s = Some v /\ v <= max /\ nd' = nd + Zlen s).
Proof.
  intros Hb Hmax. induction s as [|c s IH]; intros r nd v nd' Hr; simpl.
  { rewrite Zlen_nil. split; [intros [= <- <-]; split_and!; lia || done|].
    intros ([= ->] & ? & ->). do 2 f_equal. f_equal. lia. }
  destruct (digit_of base c) as [d|] eqn:E; simpl; [|naive_solver].
  pose proof (digit_of_range _ _ _ Hb E) as Hd.
  pose proof (Z.div_mod max base) as Hdm. pose proof (Z.mod_pos_bound max base) as Hmb.
  assert (0 < base) as Hb0 by (unfold base_ok in Hb; lia).
  destruct (Z.ltb_spec (max / base) r) as [Ho|Ho].
  { split; [done|]. intros (Hv & Hle & _). apply value_from_ge in Hv; [nia|done|nia]. }
  assert (0 <= r * base <= max) as Hrb by nia.
  rewrite (u64_small (r * base)) by lia.
  destruct (Z.ltb_spec (max - d) (r * base)) as [Ho2|Ho2].
  { split; [done|]. intros (Hv & Hle & _). apply value_from_ge in Hv; [lia|done|lia]. }
  rewrite u64_small by lia. rewrite IH by lia. rewrite Zlen_cons. naive_solver lia.
Qed.

Lemma detect_base_other base s : base <> 0 -> detect_base base s = (base, s).
Proof. intros H. unfold detect_base. by rewrite (proj2 (Z.eqb_neq base 0) H). Qed.

(** When the result is a value: [num_loop] with the tests around it. *)
Lemma str_to_num_spec (s : mg_str) (base val_len v : Z)
  (Hb : base_ok base) (Hw : width_ok val_len) :
  mg_str_to_num s base val_len = Some v <->
  s <> [] /\ value_from base 0 s = Some v /\ v < 2 ^ (8 * val_len).
Proof.
  unfold mg_str_to_num. rewrite detect_base_other by (unfold base_ok in Hb; lia).
  assert (max_of val_len = 2 ^ (8 * val_len) - 1) as Hmax
    by (destruct Hw as [-> |[-> |[-> | ->]]]; reflexivity).
  assert (1 < 2 ^ (8 * val_len) <= 2 ^ 64) as Hpow
    by (destruct Hw as [-> |[-> |[-> | ->]]]; lia).
  rewrite Hmax.
  assert ((2 ^ (8 * val_len) - 1 =? 2 ^ 64 - 1) && negb (val_len =? 8) = false) as ->
    by (destruct Hw as [-> |[-> |[-> | ->]]]; reflexivity).
  assert ((base =? 2) || (base =? 10) || (base =? 16) = true) as ->
    by (destruct Hb as [-> |[-> | ->]]; reflexivity).
  pose proof (num_loop_spec base (2 ^ (8 * val_len) - 1) s Hb ltac:(lia) 0 0) as Hl.
  split.
  - destruct (num_loop _ _ _ _ _) as [[[r nd] rest]|] eqn:E; simpl; [|done].
    destruct (Z.eqb_spec nd 0); [done|]. destruct rest; [|done]. intros [= <-].
    destruct (proj1 (Hl r nd ltac:(lia)) eq_refl) as (Hv & Hle & Hnd).
    pose proof (value_from_ge _ _ Hb 0 r ltac:(lia) Hv). rewrite Z.mod_small by lia.
    split_and!; [|done|lia]. intros ->. done.
  - intros (Hne & Hv & Hlt). rewrite (proj2 (Hl v (Zlen s) ltac:(lia))) by (split_and!; done || lia).
    simpl. destruct s as [|c s]; [done|]. rewrite Zlen_cons. pose proof (Zlen_nonneg s).
    rewrite (proj2 (Z.eqb_neq _ 0)) by lia. f_equal. apply Z.mod_small.
    pose proof (value_from_ge _ _ Hb 0 v ltac:(lia) Hv). lia.
Qed.

(** Number parsing is exact: for bases 2, 10 and 16 and results of 1, 2, 4 or 8
    bytes, [mg_str_to_num] succeeds exactly on non-empty digit strings whose value fits
    the result, and stores that value: a value one above the maximum is refused, no
    input overflows the 64-bit accumulator. *)
Theorem mg_str_to_num_exact (s : mg_str) (base val_len v : Z)
  (Hb : base_ok base) (Hw : width_ok val_len) :
  mg_str_to_num s base val_len = Some v <->
  s <> [] /\ value_from base 0 s = Some v /\ v < 2 ^ (8 * val_len).
Proof. by apply str_to_num_spec. Qed.

Lemma mg_str_to_num_exact_witness :
  mg_str_to_num str:("4294967295") 10 4 = Some 4294967295 <->
  str:("4294967295") <> [] /\ value_from 10 0 str:("4294967295") = Some 4294967295 /\
  4294967295 < 2 ^ (8 * 4).
Proof.
  apply (mg_str_to_num_exact str:("4294967295") 10 4 4294967295); unfold base_ok, width_ok; auto.
Defined.
