(* ===== verification/Base64.v ===== *)
(** * Base64: mongoose/mongoose.c, lines 27-116

    The output buffers are lists of their full size: a write outside has no value.  Both
    coders are proved equal to a reference on lists, safe for every input and inverse to
    each other. *)

From S2P Require Import Prelude.

Definition mg_base64_encode_single (c : Z) : Z :=
  if c <? 26 then c + chr:("A")
  else if c <? 52 then c - 26 + chr:("a")
  else if c <? 62 then c - 52 + chr:("0")
  else if c =? 62 then chr:("+") else chr:("/").

Definition mg_base64_decode_single (c : Z) : Z :=
  if (chr:("A") <=? c) && (c <=? chr:("Z")) then c - chr:("A")
  else if (chr:("a") <=? c) && (c <=? chr:("z")) then c + 26 - chr:("a")
  else if (chr:("0") <=? c) && (c <=? chr:("9")) then c + 52 - chr:("0")
  else if c =? chr:("+") then 62
  else if c =? chr:("/") then 63
  else if c =? chr:("=") then 64
  else -1.

Definition mg_base64_update (ch : Z) (to : list Z) (n : Z) : option (list Z * Z) :=
  let rem := Z.land n 3 mod 3 in
  if rem =? 0 then
    to ← wr to n (u8 (mg_base64_encode_single (Z.shiftr ch 2)));
    to ← wr to (n + 1) (u8 (Z.shiftl (Z.land ch 3) 4));
    Some (to, n + 1)
  else if rem =? 1 then
    x ← rd to n;
    to ← wr to n (u8 (mg_base64_encode_single (Z.lor x (Z.shiftr ch 4))));
    to ← wr to (n + 1) (u8 (Z.shiftl (Z.land ch 15) 2));
    Some (to, n + 1)
  else
    x ← rd to n;
    to ← wr to n (u8 (mg_base64_encode_single (Z.lor x (Z.shiftr ch 6))));
    to ← wr to (n + 1) (u8 (mg_base64_encode_single (Z.land ch 63)));
    Some (to, n + 2).

(** [while (n & 3) to[n++] = '=']: at most three steps. *)
Fixpoint pad_loop (fuel : nat) (to : list Z) (n : Z) : option (list Z * Z) :=
  if Z.land n 3 =? 0 then Some (to, n)
  else match fuel with
       | O => None
       | S fuel' => to ← wr to n chr:("="); pad_loop fuel' to (n + 1)
       end.

Definition mg_base64_final (to : list Z) (n : Z) : option (list Z * Z) :=
  let saved := n in
  '(to, n) ← (if negb (Z.land n 3 =? 0) then mg_base64_update 0 to n else Some (to, n));
  let n := if Z.land saved 3 =? 2 then n - 1 else n in
  '(to, n) ← pad_loop 3 to n;
  to ← wr to n 0;
  Some (to, n).

Fixpoint encode_loop (p : list Z) (to : list Z) (len : Z) : option (list Z * Z) :=
  match p with
  | [] => Some (to, len)
  | ch :: p' => '(to, len) ← mg_base64_update ch to len; encode_loop p' to len
  end.

(** The space the encoder asks for. *)
Definition encode_space (n : Z) : Z := (n / 3 + (if n mod 3 =? 0 then 0 else 1)) * 4 + 1.

Definition mg_base64_encode (p : list Z) (to : list Z) : option (list Z * Z) :=
  let dl := Zlen to in
  to ← (if 0 <? dl then wr to 0 0 else Some to);
  if dl <? encode_space (Zlen p) then Some (to, 0)
  else '(to, len) ← encode_loop p to 0; mg_base64_final to len.

(** The decoding loop over groups of four; [false] is the jump to [fail]. *)
Fixpoint decode_loop (src : list Z) (dst : list Z) (len : Z) : option (bool * list Z * Z) :=
  match src with
  | s0 :: s1 :: s2 :: s3 :: src' =>
      let a := mg_base64_decode_single s0 in
      let b := mg_base64_decode_single s1 in
      let c := mg_base64_decode_single s2 in
      let d := mg_base64_decode_single s3 in
      if (a =? 64) || (a <? 0) || (b =? 64) || (b <? 0) || (c <? 0) || (d <? 0)
      then Some (false, dst, len)
      else
        dst ← wr dst len (u8 (Z.lor (Z.shiftl a 2) (Z.shiftr b 4)));
        if negb (s2 =? chr:("=")) then
          dst ← wr dst (len + 1) (u8 (Z.lor (Z.shiftl b 4) (Z.shiftr c 2)));
          if negb (s3 =? chr:("=")) then
            dst ← wr dst (len + 2) (u8 (Z.lor (Z.shiftl c 6) d));
            decode_loop src' dst (len + 3)
          else decode_loop src' dst (len + 2)
        else decode_loop src' dst (len + 1)
  | _ => Some (true, dst, len)
  end.

Definition mg_base64_decode (src dst : list Z) : option (list Z * Z) :=
  let dl := Zlen dst in
  let fail dst := if 0 <? dl then dst ← wr dst 0 0; Some (dst, 0) else Some (dst, 0) in
  if dl <? Zlen src / 4 * 3 + 1 then fail dst
  else '(ok, dst, len) ← decode_loop src dst 0;
       if (ok : bool) then dst ← wr dst len 0; Some (dst, len) else fail dst.

Example encode_3 : mg_base64_encode str:("Man!!") (replicate 10 7) =
  Some (str:("TWFuISE=") ++ [0; 7], 8).
Proof. reflexivity. Qed.
Example decode_3 : mg_base64_decode str:("TWFuISE=") (replicate 10 7) =
  Some (str:("Man!!") ++ [0; 7; 7; 7; 7], 5).
Proof. reflexivity. Qed.

(** ** Reference: RFC 4648 on lists *)

Definition enc := mg_base64_encode_single.

Fixpoint b64 (l : list Z) : list Z :=
  match l with
  | a :: b :: c :: r =>
      enc (a / 4) :: enc (a mod 4 * 16 + b / 16) :: enc (b mod 16 * 4 + c / 64) ::
      enc (c mod 64) :: b64 r
  | [a; b] => [enc (a / 4); enc (a mod 4 * 16 + b / 16); enc (b mod 16 * 4); chr:("=")]
  | [a] => [enc (a / 4); enc (a mod 4 * 16); chr:("="); chr:("=")]
  | [] => []
  end.

(** Induction in steps of three. *)
Lemma list_ind3 {A} (P : list A -> Prop) :
  P [] -> (forall a, P [a]) -> (forall a b, P [a; b]) ->
  (forall a b c r, P r -> P (a :: b :: c :: r)) -> forall l, P l.
Proof.
  intros H0 H1 H2 H3. fix IH 1. intros [|a [|b [|c r]]];
    [apply H0|apply H1|apply H2|apply H3, IH].
Qed.

Lemma encode_single_u8 x : 0 <= x < 64 -> u8 (enc x) = enc x.
Proof.
  intros H. apply Z.eqb_eq. revert x H. apply forallb_seqZ. reflexivity.
Qed.

Lemma single_roundtrip x :
  0 <= x < 64 -> mg_base64_decode_single (enc x) = x /\ enc x <> chr:("=").
Proof.
  intros H. cut ((mg_base64_decode_single (enc x) =? x) && negb (enc x =? 61) = true).
  { intros [H1 H2]%andb_prop. zbool. done. }
  revert x H. apply forallb_seqZ. reflexivity.
Qed.

Lemma b64_len l : Zlen (b64 l) = encode_space (Zlen l) - 1.
Proof.
  unfold encode_space. induction l as [| | |a b c r IH] using list_ind3; try reflexivity.
  cbn [b64]. rewrite !Zlen_cons, IH.
  replace (Zlen r + 1 + 1 + 1) with (Zlen r + 1 * 3) by lia.
  rewrite Z.div_add, Z.mod_add by lia. destruct (Zlen r mod 3 =? 0); lia.
Qed.

Lemma land3_add4 n : 0 <= n -> n mod 4 = 0 -> forall k, 0 <= k < 4 -> Z.land (n + k) 3 = k.
Proof.
  intros Hn Hm k Hk. change 3 with (Z.ones 2). rewrite Z.land_ones by lia. change (2 ^ 2) with 4.
  pose proof (Z.div_mod n 4). replace (n + k) with (k + n / 4 * 4) by lia.
  rewrite Z.mod_add by lia. by apply Z.mod_small.
Qed.

Lemma shiftr_div a k : 0 <= k -> Z.shiftr a k = a / 2 ^ k.
Proof. apply Z.shiftr_div_pow2. Qed.

Lemma land_ones_mod a k : 0 <= k -> Z.land a (Z.ones k) = a mod 2 ^ k.
Proof. apply Z.land_ones. Qed.

(** One update on a buffer written up to [w], at each of the three positions. *)
Lemma update0 w a x y r :
  is_byte a -> Zlen w mod 4 = 0 ->
  mg_base64_update a (w ++ x :: y :: r) (Zlen w) =
  Some (w ++ enc (a / 4) :: a mod 4 * 16 :: r, Zlen w + 1).
Proof.
  intros Ha Hw. unfold is_byte in Ha. pose proof (Zlen_nonneg w).
  unfold mg_base64_update. rewrite <- (Z.add_0_r (Zlen w)) at 1.
  rewrite (land3_add4 (Zlen w)) by lia. simpl.
  rewrite wr_here. simpl. rewrite wr_next. simpl.
  change 3 with (Z.ones 2). rewrite shiftr_div, land_ones_mod, Z.shiftl_mul_pow2 by lia.
  change (2 ^ 2) with 4. change (2 ^ 4) with 16. rewrite encode_single_u8, u8_small by dlia. done.
Qed.

Lemma update1 w e a b y r :
  is_byte a -> is_byte b -> Zlen w mod 4 = 0 ->
  mg_base64_update b (w ++ e :: a mod 4 * 16 :: y :: r) (Zlen w + 1) =
  Some (w ++ e :: enc (a mod 4 * 16 + b / 16) :: b mod 16 * 4 :: r, Zlen w + 2).
Proof.
  intros Ha Hb Hw. unfold is_byte in *. pose proof (Zlen_nonneg w).
  unfold mg_base64_update. rewrite (land3_add4 (Zlen w)) by lia. simpl.
  replace (w ++ e :: a mod 4 * 16 :: y :: r) with ((w ++ [e]) ++ a mod 4 * 16 :: y :: r)
    by (by rewrite <- app_assoc).
  replace (Zlen w + 1) with (Zlen (w ++ [e])) by (by rewrite Zlen_app).
  rewrite rd_here. simpl. rewrite wr_here. simpl. rewrite wr_next. simpl.
  rewrite <- !app_assoc. simpl.
  change (a mod 4 * 16) with (a mod 4 * 2 ^ 4). rewrite <- Z.shiftl_mul_pow2 by lia.
  rewrite shiftr_div, lor_disjoint_add by (change (2 ^ 4) with 16; dlia).
  change 15 with (Z.ones 4). rewrite land_ones_mod, (Z.shiftl_mul_pow2 (b mod _)) by lia.
  change (2 ^ 4) with 16. change (2 ^ 2) with 4.
  rewrite Z.shiftl_mul_pow2 by lia. change (2 ^ 4) with 16.
  rewrite encode_single_u8, u8_small by dlia. rewrite !Zlen_app. by rewrite <- !Z.add_assoc.
Qed.

Lemma update2 w e f b c y r :
  is_byte b -> is_byte c -> Zlen w mod 4 = 0 ->
  mg_base64_update c (w ++ e :: f :: b mod 16 * 4 :: y :: r) (Zlen w + 2) =
  Some (w ++ e :: f :: enc (b mod 16 * 4 + c / 64) :: enc (c mod 64) :: r, Zlen w + 4).
Proof.
  intros Ha Hb Hw. unfold is_byte in *. pose proof (Zlen_nonneg w).
  unfold mg_base64_update. rewrite (land3_add4 (Zlen w)) by lia. simpl.
  replace (w ++ e :: f :: b mod 16 * 4 :: y :: r) with ((w ++ [e; f]) ++ b mod 16 * 4 :: y :: r)
    by (by rewrite <- app_assoc).
  replace (Zlen w + 2) with (Zlen (w ++ [e; f])) by (by rewrite Zlen_app).
  rewrite rd_here. simpl. rewrite wr_here. simpl. rewrite wr_next. simpl.
  rewrite <- !app_assoc. simpl.
  change (b mod 16 * 4) with (b mod 16 * 2 ^ 2). rewrite <- Z.shiftl_mul_pow2 by lia.
  rewrite shiftr_div, lor_disjoint_add by (change (2 ^ 6) with 64; change (2 ^ 2) with 4; dlia).
  change 63 with (Z.ones 6). rewrite land_ones_mod by lia.
  change (2 ^ 2) with 4. change (2 ^ 6) with 64.
  rewrite Z.shiftl_mul_pow2 by lia. change (2 ^ 2) with 4.
  rewrite !encode_single_u8 by dlia. rewrite !Zlen_app. by rewrite <- !Z.add_assoc.
Qed.

Ltac uncons rest :=
  let x := fresh "x" in
  destruct rest as [|x rest]; [rewrite ?Zlen_nil in *; exfalso; lia|rewrite ?Zlen_cons in *].

Lemma final_aligned w x r :
  Zlen w mod 4 = 0 -> mg_base64_final (w ++ x :: r) (Zlen w) = Some (w ++ 0 :: r, Zlen w).
Proof.
  intros Hw. pose proof (Zlen_nonneg w) as Hn. unfold mg_base64_final.
  pose proof (land3_add4 (Zlen w) Hn Hw 0 ltac:(lia)) as Hl. rewrite Z.add_0_r in Hl.
  rewrite Hl. simpl. rewrite Hl. simpl. by rewrite wr_here.
Qed.

(** Writing one more character at a known distance. *)
Lemma wr_at {A} (w pre : list A) x r v n :
  n = Zlen w + Zlen pre -> wr (w ++ pre ++ x :: r) n v = Some (w ++ pre ++ v :: r).
Proof.
  intros ->. pose proof (wr_here (w ++ pre) x r v) as H.
  by rewrite Zlen_app, <- !app_assoc in H.
Qed.

Lemma wr_next2 (w : list Z) e f x r v :
  wr (w ++ e :: f :: x :: r) (Zlen w + 2) v = Some (w ++ e :: f :: v :: r).
Proof. exact (wr_at w [e; f] x r v _ eq_refl). Qed.

Lemma wr_next3 (w : list Z) e f g x r v :
  wr (w ++ e :: f :: g :: x :: r) (Zlen w + 3) v = Some (w ++ e :: f :: g :: v :: r).
Proof. exact (wr_at w [e; f; g] x r v _ eq_refl). Qed.

Lemma wr_next4 (w : list Z) e f g h x r v :
  wr (w ++ e :: f :: g :: h :: x :: r) (Zlen w + 4) v = Some (w ++ e :: f :: g :: h :: v :: r).
Proof. exact (wr_at w [e; f; g; h] x r v _ eq_refl). Qed.

(** Four characters further, the position is aligned again. *)
Lemma land3_next4 n : 0 <= n -> n mod 4 = 0 -> Z.land (n + 4) 3 = 0.
Proof.
  intros Hn Hm. rewrite <- (Z.add_0_r (n + 4)). apply land3_add4; [lia| |lia].
  replace (n + 4) with (n + 1 * 4) by lia. by rewrite Z.mod_add.
Qed.

Lemma final_one w e a x2 x3 x4 r :
  is_byte a -> Zlen w mod 4 = 0 ->
  mg_base64_final (w ++ e :: a mod 4 * 16 :: x2 :: x3 :: x4 :: r) (Zlen w + 1) =
  Some (w ++ [e; enc (a mod 4 * 16); chr:("="); chr:("=")] ++ 0 :: r, Zlen w + 4).
Proof.
  intros Ha Hw. pose proof (Zlen_nonneg w) as Hn. unfold mg_base64_final.
  pose proof (land3_add4 (Zlen w) Hn Hw) as Hl. rewrite (Hl 1) by lia. simpl.
  rewrite (update1 w e a 0) by (done || lia). change (0 / 16) with 0. rewrite Z.add_0_r.
  cbn [mbind option_bind pad_loop]. rewrite (Hl 2) by lia. simpl.
  rewrite wr_next2. simpl.
  replace (Zlen w + 2 + 1) with (Zlen w + 3) by lia. rewrite (Hl 3) by lia. simpl.
  rewrite wr_next3. simpl.
  replace (Zlen w + 3 + 1) with (Zlen w + 4) by lia. rewrite (land3_next4 _ Hn Hw). simpl. by rewrite wr_next4.
Qed.

Lemma final_two w e f b x3 x4 r :
  is_byte b -> Zlen w mod 4 = 0 ->
  mg_base64_final (w ++ e :: f :: b mod 16 * 4 :: x3 :: x4 :: r) (Zlen w + 2) =
  Some (w ++ [e; f; enc (b mod 16 * 4); chr:("=")] ++ 0 :: r, Zlen w + 4).
Proof.
  intros Ha Hw. pose proof (Zlen_nonneg w) as Hn. unfold mg_base64_final.
  pose proof (land3_add4 (Zlen w) Hn Hw) as Hl. rewrite (Hl 2) by lia. simpl.
  rewrite (update2 w e f b 0) by (done || lia). change (0 / 64) with 0. rewrite Z.add_0_r.
  cbn [mbind option_bind pad_loop].
  replace (Zlen w + 4 - 1) with (Zlen w + 3) by lia. rewrite (Hl 3) by lia. simpl.
  rewrite wr_next3. simpl.
  replace (Zlen w + 3 + 1) with (Zlen w + 4) by lia. rewrite (land3_next4 _ Hn Hw). simpl. by rewrite wr_next4.
Qed.

(** The loop and the final step together. *)
Definition encode_from (l to : list Z) (n : Z) : option (list Z * Z) :=
  '(to, len) ← encode_loop l to n; mg_base64_final to len.

Lemma encode_from_cons ch l to n to' n' :
  mg_base64_update ch to n = Some (to', n') -> encode_from (ch :: l) to n = encode_from l to' n'.
Proof. intros H. unfold encode_from. cbn [encode_loop]. by rewrite H. Qed.

Lemma encode_all l : is_bytes l -> forall w rest,
  Zlen w mod 4 = 0 -> Zlen (b64 l) < Zlen rest ->
  encode_from l (w ++ rest) (Zlen w) =
  Some (w ++ b64 l ++ 0 :: drop (S (length (b64 l))) rest, Zlen w + Zlen (b64 l)).
Proof.
  induction l as [|a|a b|a b c r IH] using list_ind3; intros Hl w rest Hw Hr;
    cbn [b64]; cbn [b64] in Hr; rewrite ?Zlen_cons in Hr |- *;
    repeat match goal with H : is_bytes (_ :: _) |- _ => apply Forall_cons in H as [? H] end.
  - uncons rest. unfold encode_from. cbn [encode_loop]. simpl mbind. rewrite final_aligned by done.
    simpl. rewrite drop_0. do 3 f_equal. unfold Zlen. simpl. lia.
  - pose proof (Zlen_nonneg (@nil Z)). do 5 uncons rest.
    rewrite (encode_from_cons _ _ _ _ _ _ (update0 _ a _ _ _ ltac:(done) Hw)).
    unfold encode_from. simpl mbind. by rewrite final_one.
  - pose proof (Zlen_nonneg (@nil Z)). do 5 uncons rest.
    rewrite (encode_from_cons _ _ _ _ _ _ (update0 _ a _ _ _ ltac:(done) Hw)).
    rewrite (encode_from_cons _ _ _ _ _ _ (update1 _ _ a b _ _ ltac:(done) ltac:(done) Hw)).
    unfold encode_from. simpl mbind. by rewrite final_two.
  - pose proof (Zlen_nonneg (b64 r)). do 4 uncons rest.
    rewrite (encode_from_cons _ _ _ _ _ _ (update0 _ a _ _ _ ltac:(done) Hw)).
    rewrite (encode_from_cons _ _ _ _ _ _ (update1 _ _ a b _ _ ltac:(done) ltac:(done) Hw)).
    rewrite (encode_from_cons _ _ _ _ _ _ (update2 _ _ _ b c _ _ ltac:(done) ltac:(done) Hw)).
    set (q := [enc (a / 4); enc (a mod 4 * 16 + b / 16); enc (b mod 16 * 4 + c / 64); enc (c mod 64)]).
    specialize (IH Hl (w ++ q) rest). rewrite Zlen_app in IH. change (Zlen q) with 4 in IH.
    rewrite <- !app_assoc in IH.
    change (w ++ enc (a / 4) :: _ :: _ :: _ :: rest) with (w ++ q ++ rest). rewrite IH.
    + f_equal. f_equal. lia.
    + replace (Zlen w + 4) with (Zlen w + 1 * 4) by lia. by rewrite Z.mod_add.
    + lia.
Qed.

Lemma wr_first (to : list Z) v : 0 < Zlen to -> wr to 0 v = Some (v :: tail to).
Proof. destruct to; [done|]. intros _. exact (wr_here [] z to v). Qed.

Lemma encode_space_pos n : 0 <= n -> 1 <= encode_space n.
Proof.
  intros Hn. unfold encode_space. assert (0 <= n / 3) by (apply Z.div_pos; lia).
  destruct (n mod 3 =? 0); lia.
Qed.

Lemma encode_eq (l to : list Z) :
  is_bytes l ->
  mg_base64_encode l to =
  if Zlen to <=? Zlen (b64 l)
  then Some (match to with [] => [] | _ :: t => 0 :: t end, 0)
  else Some (b64 l ++ 0 :: drop (S (length (b64 l))) to, Zlen (b64 l)).
Proof.
  intros Hl.  unfold mg_base64_encode. pose proof (b64_len l) as Hb.
  pose proof (encode_space_pos (Zlen l) (Zlen_nonneg l)).
  destruct to as [|x to].
  { change (Zlen []) with 0. pose proof (proj2 (Z.ltb_lt 0 (encode_space (Zlen l))) ltac:(lia)) as E.
    cbn [mbind option_bind]. change (0 <? 0) with false. cbn iota.
    rewrite E, (proj2 (Z.leb_le 0 (Zlen (b64 l)))) by lia. done. }
  pose proof (Zlen_nonneg to). assert ((0 <? Zlen (x :: to)) = true) as -> by (apply Z.ltb_lt; rewrite Zlen_cons; lia).
  rewrite wr_first by (rewrite Zlen_cons; lia). cbn [mbind option_bind tail].
  assert ((Zlen (x :: to) <? encode_space (Zlen l)) = (Zlen (x :: to) <=? Zlen (b64 l))) as ->.
  { apply eq_true_iff_eq. rewrite Z.ltb_lt, Z.leb_le. lia. }
  destruct (Z.leb_spec (Zlen (x :: to)) (Zlen (b64 l))) as [|Hlt]; [done|].
  refine (eq_trans (encode_all l Hl [] (0 :: to) eq_refl _) _); [done|].
  simpl. do 2 f_equal.
Qed.

(** The in-place encoder is exact and stays inside its buffer: for every input and
    every buffer, if the buffer holds the encoding and its terminator the result is the
    RFC 4648 text followed by a NUL with the rest of the buffer untouched, otherwise
    nothing but the first byte is written, it is NUL, and 0 is returned. *)
Theorem base64_encode_exact (l to : list Z) (Hl : is_bytes l) :
  mg_base64_encode l to =
  if Zlen to <=? Zlen (b64 l)
  then Some (match to with [] => [] | _ :: t => 0 :: t end, 0)
  else Some (b64 l ++ 0 :: drop (S (length (b64 l))) to, Zlen (b64 l)).
Proof. by apply encode_eq. Qed.

Lemma base64_encode_exact_witness :
  mg_base64_encode [1; 2; 3; 4] (replicate 8 9) = Some (0 :: replicate 7 9, 0).
Proof.
  refine (eq_trans (base64_encode_exact [1; 2; 3; 4] (replicate 8 9) _) eq_refl).
  repeat constructor; done.
Defined.

(** ** Decoding *)

Lemma decode_single_range c : -1 <= mg_base64_decode_single c <= 64.
Proof. unfold mg_base64_decode_single. repeat case_match; zbool; lia. Qed.

(** Each group of four characters writes at most three bytes. *)
Lemma decode_loop_safe n : forall src dst len,
  (length src <= n)%nat -> 0 <= len -> len + Zlen src / 4 * 3 < Zlen dst ->
  exists ok dst' len', decode_loop src dst len = Some (ok, dst', len') /\
    Zlen dst' = Zlen dst /\ len <= len' <= len + Zlen src / 4 * 3.
Proof.
  induction n as [|n IH]; intros src dst len Hn Hlen Hs.
  { destruct src; [|simpl in Hn; lia]. change (Zlen [] / 4 * 3) with 0 in *.
    do 3 eexists. split_and!; [done..|lia|lia]. }
  pose proof (Z.div_pos (Zlen src) 4 (Zlen_nonneg src) ltac:(lia)).
  destruct src as [|s0 [|s1 [|s2 [|s3 src]]]]; try (do 3 eexists; split_and!; [done..|lia|lia]).
  simpl in Hn. rewrite !Zlen_cons in Hs |- *.
  replace (Zlen src + 1 + 1 + 1 + 1) with (Zlen src + 1 * 4) in * by lia.
  rewrite Z.div_add in * by lia. pose proof (Z.div_pos (Zlen src) 4 (Zlen_nonneg src) ltac:(lia)).
  cbn [decode_loop]. destruct (_ || _); [do 3 eexists; split_and!; [done..|lia|lia]|].
  destruct (wr_is_Some dst len (u8 (Z.lor (Z.shiftl (mg_base64_decode_single s0) 2)
    (Z.shiftr (mg_base64_decode_single s1) 4)))) as [d1 E1]; [lia|].
  rewrite E1. cbn [mbind option_bind]. apply wr_Zlen in E1.
  destruct (negb (s2 =? 61)); cbn [mbind option_bind].
  2:{ destruct (IH src d1 (len + 1)) as (ok & d' & l' & -> & ? & ?); [lia..|].
      do 3 eexists. split_and!; [done|lia..]. }
  match goal with |- context [wr d1 (len + 1) ?v] =>
    destruct (wr_is_Some d1 (len + 1) v) as [d2 E2]; [lia|] end.
  rewrite E2. cbn [mbind option_bind]. apply wr_Zlen in E2.
  destruct (negb (s3 =? 61)); cbn [mbind option_bind].
  2:{ destruct (IH src d2 (len + 2)) as (ok & d' & l' & -> & ? & ?); [lia..|].
      do 3 eexists. split_and!; [done|lia..]. }
  match goal with |- context [wr d2 (len + 2) ?v] =>
    destruct (wr_is_Some d2 (len + 2) v) as [d3 E3]; [lia|] end.
  rewrite E3. cbn [mbind option_bind]. apply wr_Zlen in E3.
  destruct (IH src d3 (len + 3)) as (ok & d' & l' & -> & ? & ?); [lia..|].
  do 3 eexists. split_and!; [done|lia..].
Qed.

(** The decoder is memory safe on every input, including malformed text and buffers
    that are too small: it never writes outside the destination, whose size it keeps,
    and the length it returns leaves room for the terminator it wrote. *)
Theorem base64_decode_safe (src dst : list Z) :
  exists dst' len, mg_base64_decode src dst = Some (dst', len) /\ Zlen dst' = Zlen dst /\
    0 <= len <= Zlen src / 4 * 3 /\ (0 < Zlen dst -> rd dst' len = Some 0).
Proof.
  unfold mg_base64_decode. pose proof (Z.div_pos (Zlen src) 4 (Zlen_nonneg src) ltac:(lia)).
  assert (forall d, Zlen d = Zlen dst -> exists dst' len,
    (if 0 <? Zlen dst then d ← wr d 0 0; Some (d, 0) else Some (d, 0)) = Some (dst', len) /\
    Zlen dst' = Zlen dst /\ 0 <= len <= Zlen src / 4 * 3 /\ (0 < Zlen dst -> rd dst' len = Some 0))
    as Hfail.
  { intros d Hd. destruct (Z.ltb_spec 0 (Zlen dst)) as [Hp|Hp].
    - destruct (wr_is_Some d 0 0) as [d' E]; [lia|]. rewrite E. do 2 eexists.
      split_and!; [done|by apply wr_Zlen in E; rewrite E|lia..|]. intros _. by eapply rd_wr_eq.
    - do 2 eexists. split_and!; [done..|lia|lia|lia]. }
  destruct (Z.ltb_spec (Zlen dst) (Zlen src / 4 * 3 + 1)) as [|Hs]; [by apply Hfail|].
  destruct (decode_loop_safe (length src) src dst 0) as (ok & d & len & -> & Hd & Hl); [lia..|].
  cbn [mbind option_bind]. destruct ok; [|by apply Hfail].
  destruct (wr_is_Some d len 0) as [d' E]; [lia|]. rewrite E. do 2 eexists.
  split_and!; [done|by apply wr_Zlen in E; rewrite E|lia|lia|]. intros _. by eapply rd_wr_eq.
Qed.

(** ** Round trip *)

(** The bytes recovered from one group. *)
Lemma group_bits a b c :
  is_byte a -> is_byte b -> is_byte c ->
  let e1 := a / 4 in let e2 := a mod 4 * 16 + b / 16 in
  let e3 := b mod 16 * 4 + c / 64 in let e4 := c mod 64 in
  u8 (Z.lor (Z.shiftl e1 2) (Z.shiftr e2 4)) = a /\
  u8 (Z.lor (Z.shiftl e2 4) (Z.shiftr e3 2)) = b /\
  u8 (Z.lor (Z.shiftl e3 6) e4) = c.
Proof.
  unfold is_byte, u8. cbn zeta. intros Ha Hb Hc. rewrite !shiftr_div by lia.
  rewrite !lor_disjoint_add by (change (2 ^ 4) with 16; change (2 ^ 2) with 4;
    change (2 ^ 6) with 64; dlia).
  change (2 ^ 4) with 16. change (2 ^ 2) with 4. change (2 ^ 6) with 64. change (2 ^ 8) with 256.
  split_and!; dlia.
Qed.

Lemma sextets a b c :
  is_byte a -> is_byte b -> is_byte c ->
  0 <= a / 4 < 64 /\ 0 <= a mod 4 * 16 + b / 16 < 64 /\
  0 <= b mod 16 * 4 + c / 64 < 64 /\ 0 <= c mod 64 < 64.
Proof. unfold is_byte. intros. dlia. Qed.

(** A sextet's character is accepted by the tests of the decoder. *)
Lemma sextet_char x : 0 <= x < 64 ->
  mg_base64_decode_single (enc x) = x /\ (enc x =? 61) = false /\ (x =? 64) = false /\ (x <? 0) = false.
Proof.
  intros Hx. destruct (single_roundtrip x Hx) as [H1 H2].
  split_and!; [done|by apply Z.eqb_neq|apply Z.eqb_neq; lia|apply Z.ltb_ge; lia].
Qed.

Ltac sextet x :=
  let H1 := fresh in let H2 := fresh in let H3 := fresh in let H4 := fresh in
  destruct (sextet_char x) as (H1 & H2 & H3 & H4); [done|];
  rewrite ?H1, ?H2, ?H3, ?H4; clear H1 H2 H3 H4; simpl.

Lemma decode_b64 l : is_bytes l -> forall w rest,
  Zlen (b64 l) / 4 * 3 <= Zlen rest ->
  decode_loop (b64 l) (w ++ rest) (Zlen w) =
  Some (true, w ++ l ++ drop (length l) rest, Zlen w + Zlen l).
Proof.
  induction l as [|a|a b|a b c r IH] using list_ind3; intros Hl w rest Hr; cbn [b64];
    repeat match goal with H : is_bytes (_ :: _) |- _ => apply Forall_cons in H as [? H] end.
  - simpl. rewrite drop_0, Zlen_nil. do 2 f_equal. lia.
  - change (Zlen (b64 [a]) / 4 * 3) with 3 in Hr. do 1 uncons rest.
    destruct (sextets a 0 0) as (R1 & R2 & _); [done..|].
    destruct (group_bits a 0 0) as (G1 & _); [done..|].
    change (0 / 16) with 0 in *. rewrite Z.add_0_r in *. cbn [decode_loop].
    sextet (a / 4). sextet (a mod 4 * 16). rewrite wr_here, G1. done.
  - change (Zlen (b64 [a; b]) / 4 * 3) with 3 in Hr. do 2 uncons rest.
    destruct (sextets a b 0) as (R1 & R2 & R3 & _); [done..|].
    destruct (group_bits a b 0) as (G1 & G2 & _); [done..|].
    change (0 / 64) with 0 in *. rewrite Z.add_0_r in *. cbn [decode_loop].
    sextet (a / 4). sextet (a mod 4 * 16 + b / 16). sextet (b mod 16 * 4).
    rewrite wr_here, G1. simpl. rewrite wr_next, G2. done.
  - cbn [b64] in Hr. rewrite !Zlen_cons in Hr.
    replace (Zlen (b64 r) + 1 + 1 + 1 + 1) with (Zlen (b64 r) + 1 * 4) in Hr by lia.
    rewrite Z.div_add in Hr by lia.
    pose proof (Z.div_pos (Zlen (b64 r)) 4 (Zlen_nonneg (b64 r)) ltac:(lia)). do 3 uncons rest.
    destruct (sextets a b c) as (R1 & R2 & R3 & R4); [done..|].
    destruct (group_bits a b c) as (G1 & G2 & G3); [done..|]. cbn [decode_loop].
    sextet (a / 4). sextet (a mod 4 * 16 + b / 16). sextet (b mod 16 * 4 + c / 64).
    sextet (c mod 64).
    rewrite wr_here, G1. simpl. rewrite wr_next, G2. simpl. rewrite wr_next2, G3. simpl.
    specialize (IH Hl (w ++ [a; b; c]) rest ltac:(lia)).
    rewrite Zlen_app, <- !app_assoc in IH. refine (eq_trans IH _). do 2 f_equal. simpl.
    rewrite !Zlen_cons, Zlen_nil. lia.
Qed.

(** Encoding then decoding is the identity: for every byte string, a text buffer
    that holds the encoding and a destination that holds what the decoder may write, the
    decoder applied to the encoder's output returns the original bytes followed by a
    NUL, and their number. *)
Theorem base64_roundtrip (l to dst : list Z) (Hl : is_bytes l)
  (Hto : encode_space (Zlen l) <= Zlen to) (Hdst : Zlen to / 4 * 3 < Zlen dst) :
  exists to' n, mg_base64_encode l to = Some (to', n) /\
    mg_base64_decode (take (Z.to_nat n) to') dst =
    Some (l ++ 0 :: drop (S (length l)) dst, Zlen l).
Proof.
  pose proof (b64_len l) as Hb. rewrite encode_eq by done.
  rewrite (proj2 (Z.leb_gt (Zlen to) (Zlen (b64 l)))) by lia.
  do 2 eexists. split; [done|].
  replace (take _ _) with (b64 l)
    by (unfold Zlen; by rewrite Nat2Z.id, take_app_length).
  assert (Zlen (b64 l) / 4 <= Zlen to / 4) by (apply Z.div_le_mono; lia).
  unfold mg_base64_decode. rewrite (proj2 (Z.ltb_ge _ _)) by lia.
  pose proof (decode_b64 l Hl [] dst ltac:(lia)) as E. simpl in E.
  change (Zlen []) with 0 in E. rewrite E. cbn [mbind option_bind].
  assert (Zlen l < Zlen dst) as Hlt.
  { unfold encode_space in *. pose proof (Zlen_nonneg l).
    destruct (Z.eqb_spec (Zlen l mod 3) 0); dlia. }
  destruct (drop (length l) dst) as [|x r] eqn:Ed.
  { apply (f_equal length) in Ed. rewrite length_drop in Ed. unfold Zlen in *. simpl in Ed. lia. }
  rewrite Z.add_0_l, wr_here. simpl. do 3 f_equal.
  rewrite <- Nat.add_1_r, <- drop_drop, Ed. done.
Qed.

Lemma base64_roundtrip_witness :
  exists to' n, mg_base64_encode [0; 255; 7; 9] (replicate 9 1) = Some (to', n) /\
    mg_base64_decode (take (Z.to_nat n) to') (replicate 20 1) =
    Some ([0; 255; 7; 9] ++ 0 :: replicate 15 1, 4).
Proof.
  apply (base64_roundtrip [0; 255; 7; 9] (replicate 9 1) (replicate 20 1));
    [repeat constructor; done|vm_compute; congruence|reflexivity].
Defined.
