(* ===== verification/Iobuf.v ===== *)
(** * Iobuf: growable IO buffers (mongoose/mongoose.c, lines 2606-2671)

    The allocated block is the list [buf]; [io->size] is its length and a NULL pointer is
    the empty block.  Every memory operation checks its range: [None] is an access outside
    the block.  Whether an allocation succeeds is an argument ([heap]). *)

From S2P Require Import Prelude.

(** Bytes [ofs, ofs + n) of a block. *)
Definition slice (b : list Z) (ofs n : Z) : option (list Z) :=
  if (0 <=? ofs) && (0 <=? n) && (ofs + n <=? Zlen b)
  then Some (take (Z.to_nat n) (drop (Z.to_nat ofs) b)) else None.

(** Overwrite the bytes from [ofs] by [d]. *)
Definition blit (b : list Z) (ofs : Z) (d : list Z) : option (list Z) :=
  if (0 <=? ofs) && (ofs + Zlen d <=? Zlen b)
  then Some (take (Z.to_nat ofs) b ++ d ++ drop (Z.to_nat (ofs + Zlen d)) b) else None.

Definition memmove (b : list Z) (dst src n : Z) : option (list Z) :=
  d ← slice b src n; blit b dst d.

Record mg_iobuf := iobuf { buf : list Z; len : Z; align : Z }.

Definition size (io : mg_iobuf) : Z := Zlen (buf io).

Definition roundup (sz al : Z) : Z :=
  if al =? 0 then sz else u32 (u32 (sz + al - 1) / al * al).

Definition mg_iobuf_resize (heap : bool) (io : mg_iobuf) (new_size : Z) : option (bool * mg_iobuf) :=
  let new_size := roundup new_size (align io) in
  if new_size =? 0 then Some (true, iobuf [] 0 (align io))
  else if negb (new_size =? size io) then
    if heap then
      let p := replicate (Z.to_nat new_size) 0 in
      let n := if new_size <? len io then new_size else len io in
      p ← (if (0 <? n) && (0 <? size io) then d ← slice (buf io) 0 n; blit p 0 d else Some p);
      Some (true, iobuf p (len io) (align io))
    else Some (false, io)
  else Some (true, io).

Definition mg_iobuf_init (heap : bool) (sz al : Z) : option (bool * mg_iobuf) :=
  mg_iobuf_resize heap (iobuf [] 0 al) sz.

(** [data]: [None] for a NULL source (the room is reserved and not written). *)
Definition mg_iobuf_add (heap : bool) (io : mg_iobuf) (ofs : Z) (data : option (list Z)) (n : Z)
  : option (Z * mg_iobuf) :=
  let new_size := roundup (u32 (len io + n)) (align io) in
  '(_, io) ← mg_iobuf_resize heap io new_size;
  let n := if negb (new_size =? size io) then 0 else n in
  b ← (if ofs <? len io then memmove (buf io) (ofs + n) ofs (len io - ofs) else Some (buf io));
  b ← (match data with Some d => blit b ofs (take (Z.to_nat n) d) | None => Some b end);
  let l := if len io <? ofs then ofs else len io in
  Some (n, iobuf b (u32 (l + n)) (align io)).

Definition mg_iobuf_del (io : mg_iobuf) (ofs n : Z) : option (Z * mg_iobuf) :=
  let ofs := if len io <? ofs then len io else ofs in
  let n := if len io <? u32 (ofs + n) then len io - ofs else n in
  b ← (if 0 <? size io then memmove (buf io) ofs (ofs + n) (len io - ofs - n) else Some (buf io));
  b ← (if 0 <? size io then blit b (len io - n) (replicate (Z.to_nat n) 0) else Some b);
  Some (n, iobuf b (len io - n) (align io)).

Definition mg_iobuf_free (heap : bool) (io : mg_iobuf) : option (bool * mg_iobuf) :=
  mg_iobuf_resize heap io 0.

(** ** Abstract view *)

(** The bytes the buffer holds. *)
Definition contents (io : mg_iobuf) : list Z := take (Z.to_nat (len io)) (buf io).

Definition wf (io : mg_iobuf) : Prop :=
  0 <= len io <= size io /\ 0 <= align io < 2 ^ 16 /\ size io < 2 ^ 32.

Lemma slice_Some b ofs n :
  0 <= ofs -> 0 <= n -> ofs + n <= Zlen b ->
  slice b ofs n = Some (take (Z.to_nat n) (drop (Z.to_nat ofs) b)).
Proof.
  intros. unfold slice. by ztests.
Qed.

Lemma slice_len b ofs n d : slice b ofs n = Some d -> Zlen d = n /\ 0 <= n.
Proof.
  unfold slice. case_match eqn:E; [|done]. intros [= <-]. zbool.
  unfold Zlen in *. rewrite length_take, length_drop. lia.
Qed.

Lemma blit_Some b ofs d :
  0 <= ofs -> ofs + Zlen d <= Zlen b ->
  blit b ofs d = Some (take (Z.to_nat ofs) b ++ d ++ drop (Z.to_nat (ofs + Zlen d)) b).
Proof. intros. unfold blit. by ztests. Qed.

Lemma blit_len b ofs d b' : blit b ofs d = Some b' -> Zlen b' = Zlen b.
Proof.
  unfold blit. case_match eqn:E; [|done]. intros [= <-]. zbool. unfold Zlen in *.
  rewrite !length_app, length_take, length_drop. lia.
Qed.

(** A buffer known by its used part. *)
Lemma contents_prefix io : wf io -> exists rest, buf io = contents io ++ rest /\
  Zlen (contents io) = len io.
Proof.
  intros ((H0 & H1) & _). exists (drop (Z.to_nat (len io)) (buf io)).
  unfold contents, size, Zlen in *. split; [by rewrite take_drop|rewrite length_take; lia].
Qed.

Lemma roundup_spec sz al :
  0 <= sz -> 0 <= al < 2 ^ 16 -> sz + al < 2 ^ 32 ->
  sz <= roundup sz al < 2 ^ 32 /\ (al <> 0 -> roundup sz al mod al = 0) /\
  (sz = 0 -> roundup sz al = 0).
Proof.
  intros Hs Ha Hb. unfold roundup. destruct (Z.eqb_spec al 0) as [->|Hne]; [lia|].
  rewrite (u32_small (sz + al - 1)) by lia.
  pose proof (Z.div_mod (sz + al - 1) al). pose proof (Z.mod_pos_bound (sz + al - 1) al).
  set (q := (sz + al - 1) / al) in *.
  assert (0 <= q) by (apply Z.div_pos; lia).
  rewrite u32_small by nia. split_and!; [nia|nia| |].
  - intros _. by apply Z.mod_mul.
  - intros ->. subst q. rewrite (Z.div_small (0 + al - 1)) by lia. lia.
Qed.

Lemma take_prefix (c r : list Z) n : Zlen c = n -> take (Z.to_nat n) (c ++ r) = c.
Proof. intros <-. unfold Zlen. by rewrite Nat2Z.id, take_app_length. Qed.

Lemma drop_prefix (c r : list Z) n : Zlen c = n -> drop (Z.to_nat n) (c ++ r) = r.
Proof. intros <-. unfold Zlen. by rewrite Nat2Z.id, drop_app_length. Qed.

Lemma slice_prefix (c r : list Z) : slice (c ++ r) 0 (Zlen c) = Some c.
Proof.
  pose proof (Zlen_nonneg c). pose proof (Zlen_nonneg r).
  rewrite slice_Some by (rewrite ?Zlen_app; lia). change (Z.to_nat 0) with O.
  by rewrite drop_0, take_prefix.
Qed.

Lemma blit_start (p d : list Z) :
  Zlen d <= Zlen p -> blit p 0 d = Some (d ++ drop (length d) p).
Proof.
  intros H. rewrite blit_Some by lia. rewrite Z.add_0_l. unfold Zlen. by rewrite Nat2Z.id.
Qed.

(** Resizing keeps the contents as long as they fit. *)
Lemma resize_spec heap io n :
  wf io -> len io <= n -> n + align io < 2 ^ 32 -> 0 < n ->
  exists ok io', mg_iobuf_resize heap io n = Some (ok, io') /\ wf io' /\
    contents io' = contents io /\ len io' = len io /\ align io' = align io /\
    (size io' = roundup n (align io) \/ heap = false /\ io' = io).
Proof.
  intros Hwf Hl Hn Hpos. destruct (contents_prefix io Hwf) as (rest & Hbuf & Hc).
  destruct Hwf as (Hlen & Ha & Hs).
  destruct (roundup_spec n (align io)) as (Hr & _); [lia..|].
  unfold mg_iobuf_resize. set (ns := roundup n (align io)) in *.
  rewrite (proj2 (Z.eqb_neq ns 0)) by lia.
  destruct (Z.eqb_spec ns (size io)) as [E|E]; cbn [negb].
  { do 2 eexists. split_and!; try done. by left. }
  destruct heap; cbn [negb]; [|do 2 eexists; split_and!; try done; by right].
  rewrite (proj2 (Z.ltb_ge ns (len io))) by lia.
  destruct ((0 <? len io) && (0 <? size io)) eqn:Ecopy; cbn [mbind option_bind].
  - rewrite Hbuf, <- Hc, slice_prefix. cbn [mbind option_bind].
    assert (Zlen (replicate (Z.to_nat ns) 0) = ns) as Hrep
      by (unfold Zlen; rewrite length_replicate; lia).
    assert (Zlen (contents io ++ drop (length (contents io)) (replicate (Z.to_nat ns) 0)) = ns) as Hz
      by (rewrite Zlen_app; unfold Zlen in *; rewrite length_drop; lia).
    rewrite blit_start by lia. do 2 eexists. split_and!; [done|..];
      cbn [len align]; unfold wf, size; cbn [buf len align]; try done.
    + split_and!; lia.
    + unfold contents at 1. cbn [buf len]. by rewrite take_prefix.
    + by left.
  - assert (len io = 0) as H0 by (unfold size in *; apply andb_false_iff in Ecopy as [?|?]; zbool; lia).
    do 2 eexists. split_and!; [done|..]; cbn [len align];
      unfold wf, size, contents; cbn [buf len align]; try done.
    + unfold Zlen. rewrite length_replicate. split_and!; lia.
    + by rewrite H0.
    + left. unfold Zlen. rewrite length_replicate. lia.
Qed.

(** ** Adding and deleting *)

Lemma memmove_shift (c1 c2 rest : list Z) n :
  0 <= n <= Zlen rest ->
  exists gap rest', memmove (c1 ++ c2 ++ rest) (Zlen c1 + n) (Zlen c1) (Zlen c2) =
    Some (c1 ++ gap ++ c2 ++ rest') /\ Zlen gap = n /\ Zlen rest' = Zlen rest - n.
Proof.
  intros Hn. pose proof (Zlen_nonneg c1). pose proof (Zlen_nonneg c2).
  unfold memmove. rewrite slice_Some by (rewrite ?Zlen_app; lia). cbn [mbind option_bind].
  rewrite drop_prefix, take_prefix by done. rewrite blit_Some by (rewrite ?Zlen_app; lia).
  exists (take (Z.to_nat n) (c2 ++ rest)), (drop (Z.to_nat (n + Zlen c2)) (c2 ++ rest)).
  split_and!.
  - f_equal. rewrite take_app_ge, drop_app_ge by (unfold Zlen; lia). rewrite <- !app_assoc.
    unfold Zlen. repeat f_equal; lia.
  - unfold Zlen in *. rewrite length_take, length_app. lia.
  - unfold Zlen in *. rewrite length_drop, length_app. lia.
Qed.

Lemma blit_gap (c1 gap r d : list Z) :
  Zlen gap = Zlen d -> blit (c1 ++ gap ++ r) (Zlen c1) d = Some (c1 ++ d ++ r).
Proof.
  intros Hg. pose proof (Zlen_nonneg c1). pose proof (Zlen_nonneg r).
  rewrite blit_Some by (rewrite ?Zlen_app; lia). rewrite take_prefix by done.
  rewrite (app_assoc c1 gap), drop_prefix by (rewrite Zlen_app; lia). done.
Qed.

Lemma memmove_same (b : list Z) ofs n :
  0 <= ofs -> 0 <= n -> ofs + n <= Zlen b -> memmove b ofs ofs n = Some b.
Proof.
  intros Ho Hn Hb. unfold memmove. rewrite slice_Some by done. cbn [mbind option_bind].
  assert (Zlen (take (Z.to_nat n) (drop (Z.to_nat ofs) b)) = n) as Hl
    by (unfold Zlen in *; rewrite length_take, length_drop; lia).
  rewrite blit_Some, Hl by lia. f_equal.
  replace (Z.to_nat (ofs + n)) with (Z.to_nat ofs + Z.to_nat n)%nat by lia.
  by rewrite <- drop_drop, !take_drop.
Qed.

Lemma blit_nothing (b : list Z) ofs : 0 <= ofs <= Zlen b -> blit b ofs [] = Some b.
Proof.
  intros H. rewrite blit_Some by (change (Zlen []) with 0; lia).
  change (Zlen []) with 0. rewrite Z.add_0_r. simpl. by rewrite take_drop.
Qed.

Lemma roundup_idem sz al :
  0 <= sz -> 0 <= al < 2 ^ 16 -> sz + 2 * al < 2 ^ 32 ->
  roundup (roundup sz al) al = roundup sz al.
Proof.
  intros Hs Ha Hb. unfold roundup. destruct (Z.eqb_spec al 0) as [|Hne]; [done|].
  rewrite (u32_small (sz + al - 1)) by lia.
  pose proof (Z.div_mod (sz + al - 1) al). pose proof (Z.mod_pos_bound (sz + al - 1) al).
  set (q := (sz + al - 1) / al) in *.
  assert (0 <= q) by (apply Z.div_pos; lia).
  rewrite (u32_small (q * al)), (u32_small (q * al + al - 1)) by nia.
  replace (q * al + al - 1) with ((al - 1) + q * al) by lia.
  rewrite Z.div_add, (Z.div_small (al - 1)) by lia. simpl. by rewrite u32_small by nia.
Qed.

(** The two moves of [mg_iobuf_add] on a block with room for [d]. *)
Lemma insert_moves (c rest d : list Z) ofs :
  0 <= ofs <= Zlen c -> Zlen d <= Zlen rest ->
  exists rest', Zlen rest' = Zlen rest - Zlen d /\
    (b ← (if ofs <? Zlen c then memmove (c ++ rest) (ofs + Zlen d) ofs (Zlen c - ofs)
          else Some (c ++ rest));
     blit b ofs d) =
    Some (take (Z.to_nat ofs) c ++ d ++ drop (Z.to_nat ofs) c ++ rest').
Proof.
  intros Ho Hd. pose proof (Zlen_nonneg d).
  assert (Zlen (take (Z.to_nat ofs) c) = ofs) as H1 by (unfold Zlen in *; rewrite length_take; lia).
  assert (Zlen (drop (Z.to_nat ofs) c) = Zlen c - ofs) as H2
    by (unfold Zlen in *; rewrite length_drop; lia).
  set (c1 := take (Z.to_nat ofs) c) in *. set (c2 := drop (Z.to_nat ofs) c) in *.
  assert (c = c1 ++ c2) as Hc by (symmetry; apply take_drop).
  destruct (Z.ltb_spec ofs (Zlen c)) as [Hlt|Hge].
  - destruct (memmove_shift c1 c2 rest (Zlen d)) as (gap & r' & E & Hg & Hr); [lia|].
    exists r'. split; [done|]. rewrite H1, H2 in E. rewrite Hc at 1. rewrite <- app_assoc, E.
    cbn [mbind option_bind]. rewrite <- H1. by rewrite blit_gap.
  - assert (c2 = []) as -> by (apply length_zero_iff_nil; unfold Zlen in *; lia).
    exists (drop (length d) rest). split; [unfold Zlen in *; rewrite length_drop; lia|].
    cbn [mbind option_bind]. rewrite Hc, app_nil_r.
    rewrite <- (take_drop (length d) rest) at 1. rewrite <- H1. rewrite blit_gap; [done|].
    unfold Zlen in *. rewrite length_take. lia.
Qed.

(** Appending to or inserting into an IO buffer is exact: for a well-formed buffer
    and an offset inside its contents, [mg_iobuf_add] never accesses memory outside the
    allocated block and keeps the buffer well formed; either the data were inserted at
    the offset, everything else kept in order, and their number is returned, or the
    allocation failed, nothing changed and 0 is returned. *)
Theorem iobuf_add_exact (heap : bool) (io : mg_iobuf) (ofs : Z) (d : list Z)
  (Hwf : wf io) (Hofs : 0 <= ofs <= len io) (Hd : d <> [])
  (Hbig : len io + Zlen d + 3 * align io < 2 ^ 32) :
  exists n io', mg_iobuf_add heap io ofs (Some d) (Zlen d) = Some (n, io') /\ wf io' /\
    (n = Zlen d /\ contents io' =
       take (Z.to_nat ofs) (contents io) ++ d ++ drop (Z.to_nat ofs) (contents io) \/
     n = 0 /\ heap = false /\ contents io' = contents io).
Proof.
  assert (0 < Zlen d) as Hd0 by (destruct d; [done|unfold Zlen; simpl; lia]).
  unfold mg_iobuf_add. cbn zeta. pose proof Hwf as (Hl & Ha & Hs).
  rewrite (u32_small (len io + Zlen d)) by lia.
  pose proof (roundup_idem (len io + Zlen d) (align io)) as Hid.
  destruct (roundup_spec (len io + Zlen d) (align io)) as (Hr & _); [lia..|].
  assert (roundup (len io + Zlen d) (align io) <= len io + Zlen d + align io) as Hub.
  { unfold roundup in *. destruct (Z.eqb_spec (align io) 0); [lia|].
    rewrite (u32_small (_ - 1)) by lia.
    pose proof (Z.div_mod (len io + Zlen d + align io - 1) (align io)).
    pose proof (Z.mod_pos_bound (len io + Zlen d + align io - 1) (align io)).
    assert (0 <= (len io + Zlen d + align io - 1) / align io) by (apply Z.div_pos; lia).
    rewrite u32_small by nia. nia. }
  set (R := roundup (len io + Zlen d) (align io)) in *.
  destruct (resize_spec heap io R Hwf) as (ok & io1 & E & Hwf1 & Hc1 & Hl1 & Ha1 & Hsz); [lia..|].
  rewrite E. cbn [mbind option_bind].
  destruct (contents_prefix io1 Hwf1) as (rest & Hbuf & Hcl). rewrite Hc1, Hl1 in Hcl.
  rewrite Hc1 in Hbuf. rewrite Hid in Hsz by lia.
  destruct (Z.eqb_spec R (size io1)) as [Ers|Ers]; cbn [negb].
  - assert (Zlen d <= Zlen rest) as Hroom.
    { unfold size in Ers. rewrite Hbuf, Zlen_app in Ers. lia. }
    destruct (insert_moves (contents io) rest d ofs) as (rest' & Hr' & Em); [lia..|].
    rewrite Hbuf, Hl1, <- Hcl.
    assert (take (Z.to_nat (Zlen d)) d = d) as ->
      by (unfold Zlen; by rewrite Nat2Z.id, firstn_all).
    destruct (if ofs <? _ then _ else _) as [b|]; [|done].
    cbn [mbind option_bind] in Em |- *. rewrite Em. cbn [mbind option_bind].
    do 2 eexists. split; [done|].
    rewrite (proj2 (Z.ltb_ge (Zlen (contents io)) ofs)) by lia. rewrite u32_small by lia.
    assert (Zlen (take (Z.to_nat ofs) (contents io) ++ d ++ drop (Z.to_nat ofs) (contents io))
            = Zlen (contents io) + Zlen d) as Hz.
    { rewrite !Zlen_app. unfold Zlen in *. rewrite length_take, length_drop. lia. }
    split.
    + unfold wf, size. cbn [buf len align]. rewrite Ha1.
      unfold size in Ers. rewrite Hbuf in Ers. rewrite !Zlen_app in *.
      pose proof (Zlen_nonneg rest). split_and!; lia.
    + left. split; [done|]. unfold contents at 1. cbn [buf len].
      rewrite (app_assoc d), (app_assoc (take _ _)). by apply take_prefix.
  - destruct Hsz as [?|[-> ->]]; [lia|].
    assert (forall b, Zlen b = size io -> (if ofs <? len io then memmove b (ofs + 0) ofs (len io - ofs)
                      else Some b) = Some b) as Hm.
    { intros b Hb. destruct (Z.ltb_spec ofs (len io)); [|done]. rewrite Z.add_0_r.
      apply memmove_same; lia. }
    rewrite Hm by done. cbn [mbind option_bind take]. change (Z.to_nat 0) with O.
    rewrite take_0, blit_nothing by (unfold size in *; lia). cbn [mbind option_bind].
    rewrite (proj2 (Z.ltb_ge (len io) ofs)), Z.add_0_r, u32_small by lia.
    do 2 eexists. split_and!; [done|by destruct io|]. right. split_and!; try done.
Qed.

Lemma take_replicate_app (c : list Z) r n : 0 <= n <= Zlen c ->
  take (Z.to_nat n) (take (Z.to_nat n) c ++ r) = take (Z.to_nat n) c.
Proof. intros H. apply take_prefix. unfold Zlen in *. rewrite length_take. lia. Qed.

(** Deleting from an IO buffer is exact and total for any offset and any count whose
    sum does not wrap: the range is clipped to the contents, exactly the clipped range
    disappears, the freed tail is zeroed, the buffer stays well formed and the number
    of bytes removed is returned. *)
Theorem iobuf_del_exact (io : mg_iobuf) (ofs n : Z)
  (Hwf : wf io) (Hofs : 0 <= ofs) (Hn : 0 <= n) (Hwrap : ofs + n < 2 ^ 32) :
  let o := Z.min ofs (len io) in
  let k := Z.min n (len io - o) in
  exists io', mg_iobuf_del io ofs n = Some (k, io') /\ wf io' /\ size io' = size io /\
    contents io' = take (Z.to_nat o) (contents io) ++ drop (Z.to_nat (o + k)) (contents io).
Proof.
  cbn zeta. set (o := Z.min ofs (len io)). set (k := Z.min n (len io - o)).
  destruct (contents_prefix io Hwf) as (rest & Hbuf & Hc). pose proof Hwf as (Hl & Ha & Hs).
  unfold mg_iobuf_del.
  replace (if len io <? ofs then len io else ofs) with o
    by (destruct (Z.ltb_spec (len io) ofs); lia).
  rewrite (u32_small (o + n)) by lia.
  replace (if len io <? o + n then len io - o else n) with k
    by (destruct (Z.ltb_spec (len io) (o + n)); lia).
  cbn zeta. set (c := contents io) in *.
  assert (c = take (Z.to_nat o) c ++ take (Z.to_nat k) (drop (Z.to_nat o) c)
                ++ drop (Z.to_nat (o + k)) c) as Hcut.
  { rewrite <- (take_drop (Z.to_nat o) c) at 1. f_equal.
    rewrite <- (take_drop (Z.to_nat k) (drop (Z.to_nat o) c)) at 1. f_equal.
    rewrite drop_drop. f_equal. lia. }
  assert (Zlen (take (Z.to_nat o) c) = o) as H1 by (unfold Zlen in *; rewrite length_take; lia).
  assert (Zlen (take (Z.to_nat k) (drop (Z.to_nat o) c)) = k) as H2
    by (unfold Zlen in *; rewrite length_take, length_drop; lia).
  assert (Zlen (drop (Z.to_nat (o + k)) c) = len io - o - k) as H3
    by (unfold Zlen in *; rewrite length_drop; lia).
  set (c1 := take (Z.to_nat o) c) in *. set (c2 := take (Z.to_nat k) (drop _ c)) in *.
  set (c3 := drop (Z.to_nat (o + k)) c) in *. clearbody c1 c2 c3.
  destruct (Z.ltb_spec 0 (size io)) as [Hp|Hp].
  - set (gap := take (Z.to_nat (Zlen c3)) (c2 ++ c3)).
    set (tl := drop (Z.to_nat (Zlen c3)) (c2 ++ c3)).
    assert (buf io = (c1 ++ c2) ++ c3 ++ rest) as B1
      by (rewrite Hbuf, Hcut, <- !app_assoc; done).
    assert (buf io = c1 ++ gap ++ tl ++ rest) as B2.
    { rewrite B1, <- app_assoc, (app_assoc c2), (app_assoc gap). subst gap tl. by rewrite take_drop. }
    assert (Zlen tl = k) as Htl by (subst tl; unfold Zlen in *; rewrite length_drop, length_app; lia).
    assert (Zlen gap = Zlen c3) as Hgap
      by (subst gap; unfold Zlen in *; rewrite length_take, length_app; lia).
    assert (memmove (buf io) o (o + k) (len io - o - k) = Some (c1 ++ c3 ++ tl ++ rest)) as ->.
    { unfold memmove. assert (slice (buf io) (o + k) (len io - o - k) = Some c3) as ->.
      { rewrite slice_Some by (try lia; unfold size in *; lia).
        rewrite B1, drop_prefix, take_prefix by (rewrite ?Zlen_app; lia). done. }
      cbn [mbind option_bind]. rewrite B2, <- H1. by apply blit_gap. }
    cbn [mbind option_bind].
    replace (len io - k) with (Zlen (c1 ++ c3)) by (rewrite Zlen_app; lia).
    rewrite (app_assoc c1 c3). rewrite blit_gap
      by (unfold Zlen in *; rewrite length_replicate; lia).
    cbn [mbind option_bind]. eexists. split; [done|].
    unfold wf, size, contents. cbn [buf len align]. rewrite Hbuf, Hcut.
    assert (Zlen (replicate (Z.to_nat k) 0) = k) as Hrep by (unfold Zlen; rewrite length_replicate; lia).
    unfold size in Hs. rewrite Hbuf, Hcut in Hs.
    rewrite !Zlen_app in *. rewrite Hrep. pose proof (Zlen_nonneg rest).
    split_and!; try lia. by rewrite take_prefix by (rewrite Zlen_app; lia).
  - assert (len io = 0) as H0 by lia. assert (o = 0) as Ho by lia. assert (k = 0) as Hk by lia.
    rewrite Hk. cbn [mbind option_bind]. eexists. split; [done|].
    rewrite Z.sub_0_r. destruct io as [b l al]. cbn in *. split_and!; [done..|].
    unfold contents. simpl. rewrite H0. simpl.
    destruct c1; [|unfold Zlen in H1; simpl in H1; lia].
    destruct c3; [done|unfold Zlen in H3; simpl in H3; lia].
Qed.

(** An offset beyond the contents is not taken into account when the block is sized:
    the copy then lands outside of it. *)
Example iobuf_add_gap :
  mg_iobuf_add true (iobuf [] 0 4) 8 (Some [1; 2]) 2 = None.
Proof. reflexivity. Qed.

Lemma iobuf_add_exact_witness :
  exists n io', mg_iobuf_add true (iobuf [5; 6; 7; 0] 3 4) 1 (Some [1; 2]) 2 = Some (n, io') /\
    wf io' /\
    (n = 2 /\ contents io' = [5] ++ [1; 2] ++ [6; 7] \/
     n = 0 /\ true = false /\ contents io' = [5; 6; 7]).
Proof.
  apply (iobuf_add_exact true (iobuf [5; 6; 7; 0] 3 4) 1 [1; 2]); try done.
Defined.

Lemma iobuf_del_exact_witness :
  exists io', mg_iobuf_del (iobuf [5; 6; 7; 0] 3 4) 1 100 = Some (2, io') /\ wf io' /\
    size io' = 4 /\ contents io' = [5].
Proof.
  apply (iobuf_del_exact (iobuf [5; 6; 7; 0] 3 4) 1 100); try lia.
  unfold wf. change (size (iobuf [5; 6; 7; 0] 3 4)) with 4. simpl. lia.
Defined.
