(* ===== verification/Memp.v ===== *)
(** * Memp: the fixed-size memory pools of lwIP (ext/ChibiOS_21.11.3/ext/lwip/src/core/memp.c)

    A pool is an array of elements of one size; the free ones form a linked list through their first
    word ([struct memp]).  An element that is handed out belongs to its user, who overwrites that word.
    Addresses are numbers, 0 is NULL.  The overflow and sanity checks are off in this firmware, and
    MEMP_SIZE is 0; of the statistics only the number of used elements is kept.  [None] is a failed
    assertion.

    The calls are bracketed by SYS_ARCH_PROTECT, which cfg/lwipopts.h turns into nothing
    (SYS_LIGHTWEIGHT_PROT is 0): the second half of the file models the calls in the two steps a
    preemption can fall between. *)

From stdpp Require Import functions.
From S2P Require Import Prelude.

Definition MEM_ALIGNMENT : Z := 4.
Definition LWIP_MEM_ALIGN_SIZE (size : Z) : Z := Z.land (size + MEM_ALIGNMENT - 1) (Z.lnot (MEM_ALIGNMENT - 1)).

(** The list head [*desc->tab], the words [next] of all elements, [desc->stats->used]. *)
Record mpool := MPool { tab : Z; mnext : Z -> Z; mused : Z }.

Definition set_tab (s : mpool) (p : Z) : mpool := MPool p (mnext s) (mused s).
Definition set_mnext (s : mpool) (p q : Z) : mpool := MPool (tab s) (<[p := q]> (mnext s)) (mused s).
Definition set_mused (s : mpool) (u : Z) : mpool := MPool (tab s) (mnext s) u.

(** The loop over the elements, from [memp] on. *)
Fixpoint init_loop (i : nat) (size memp : Z) (s : mpool) : mpool :=
  match i with
  | O => s
  | S i =>
      let s := set_mnext s memp (tab s) in
      let s := set_tab s memp in
      init_loop i size (memp + size) s
  end.

Definition memp_init_pool (base size : Z) (num : nat) (s : mpool) : mpool :=
  init_loop num size (LWIP_MEM_ALIGN_SIZE base) (set_tab s 0).

Definition do_memp_malloc_pool (s : mpool) : option (mpool * Z) :=
  let memp := tab s in
  if negb (memp =? 0) then
    let s := set_tab s (mnext s memp) in
    if memp mod MEM_ALIGNMENT =? 0 then Some (set_mused s (mused s + 1), memp) else None
  else Some (s, 0).

Definition do_memp_free_pool (s : mpool) (mem : Z) : option mpool :=
  if mem mod MEM_ALIGNMENT =? 0 then
    let memp := mem in
    let s := set_mused s (mused s - 1) in
    let s := set_mnext s memp (tab s) in
    Some (set_tab s memp)
  else None.

Definition memp_free_pool (s : mpool) (mem : Z) : option mpool :=
  if mem =? 0 then Some s else do_memp_free_pool s mem.

(** ** The free list *)

Fixpoint linked (nx : Z -> Z) (p : Z) (l : list Z) : Prop :=
  match l with [] => p = 0 | x :: l => p = x /\ linked nx (nx x) l end.

Lemma linked_frame nx k v l : forall p, k ∉ l -> linked nx p l -> linked (<[k := v]> nx) p l.
Proof.
  induction l as [|x l IH]; intros p Hk; cbn; [done|]. intros [-> Hl]. apply not_elem_of_cons in Hk as [Hx Hk].
  split; [done|]. rewrite fn_lookup_insert_ne by done. by apply IH.
Qed.

(** Following the links for at most [n] elements. *)
Fixpoint walk (n : nat) (nx : Z -> Z) (p : Z) : list Z :=
  match n with O => [] | S n => if p =? 0 then [] else p :: walk n nx (nx p) end.

Lemma walk_linked nx l : forall n p, linked nx p l -> Forall (fun x => x <> 0) l -> (length l <= n)%nat -> walk n nx p = l.
Proof.
  induction l as [|x l IH]; intros [|n] p Hl Hz Hn; cbn in *; try done; try lia.
  - by rewrite Hl.
  - destruct Hl as [-> Hl]. apply Forall_cons in Hz as [Hz Hz']. rewrite (proj2 (Z.eqb_neq _ _)) by done.
    f_equal. apply IH; [done|done|lia].
Qed.

Section Pool.
Context (base size : Z) (num : nat).

(** The elements of the pool. *)
Definition elements : list Z := map (fun i => LWIP_MEM_ALIGN_SIZE base + Z.of_nat i * size) (seq 0 num).

(** Neither NULL nor badly aligned nor overlapping. *)
Definition layout : Prop := 0 < base /\ 0 < size /\ size mod MEM_ALIGNMENT = 0.

(** The free list is [l], [owned] are the elements in use. *)
Record pool_rep (s : mpool) (l owned : list Z) : Prop := {
  pr_linked : linked (mnext s) (tab s) l;
  pr_perm : owned ++ l ≡ₚ elements;
  pr_used : mused s = Zlen owned }.

Hypothesis Hlay : layout.

Lemma align_ge z : 0 <= z -> z <= LWIP_MEM_ALIGN_SIZE z /\ LWIP_MEM_ALIGN_SIZE z mod 4 = 0.
Proof.
  intros Hz. unfold LWIP_MEM_ALIGN_SIZE, MEM_ALIGNMENT. change (4 - 1) with (Z.ones 2). replace (z + 4 - 1) with (z + 3) by lia.
  rewrite <- Z.ldiff_land, Z.ldiff_ones_r, Z.shiftl_mul_pow2, Z.shiftr_div_pow2 by lia. change (2 ^ 2) with 4. dlia.
Qed.

Lemma elements_spec x : x ∈ elements -> x <> 0 /\ x mod MEM_ALIGNMENT = 0.
Proof.
  destruct Hlay as (Hb & Hs & Hm). intros (i & -> & _)%list_elem_of_fmap. pose proof (align_ge base) as [H1 H2]; [lia|].
  unfold MEM_ALIGNMENT in *. split; [nia|]. rewrite Z.add_mod, Z.mul_mod, Hm, H2, Z.mul_0_r by lia. done.
Qed.

Lemma elements_nodup : NoDup elements.
Proof.
  destruct Hlay as (Hb & Hs & Hm). unfold elements. apply NoDup_fmap_2_strong; [|apply NoDup_seq]. intros i j _ _ E. nia.
Qed.

Lemma init_loop_linked i : forall memp s l, linked (mnext s) (tab s) l -> (forall x, x ∈ l -> x < memp) ->
  let s' := init_loop i size memp s in
  exists l', linked (mnext s') (tab s') l' /\ l' ≡ₚ l ++ map (fun k => memp + Z.of_nat k * size) (seq 0 i) /\ mused s' = mused s.
Proof.
  destruct Hlay as (Hb & Hs & Hm). induction i as [|i IH]; intros memp s l Hl Hlt; cbn [init_loop].
  { exists l. cbn. by rewrite app_nil_r. }
  destruct (IH (memp + size) (set_tab (set_mnext s memp (tab s)) memp) (memp :: l)) as (l' & H1 & H2 & H3).
  - cbn. split; [done|]. rewrite fn_lookup_insert. apply linked_frame; [|done]. intros H. specialize (Hlt _ H). lia.
  - intros x [->|Hx]%elem_of_cons; [lia|]. specialize (Hlt _ Hx). lia.
  - exists l'. split; [done|]. split; [|done]. rewrite H2. cbn [seq map]. rewrite Z.add_0_r.
    rewrite <- Permutation_middle. cbn. constructor. f_equiv. rewrite <- seq_shift, map_map. apply Permutation_refl', map_ext.
    intros k. lia.
Qed.

Lemma memp_init_rep s : mused s = 0 -> exists l, pool_rep (memp_init_pool base size num s) l [].
Proof.
  intros Hu. destruct (init_loop_linked num (LWIP_MEM_ALIGN_SIZE base) (set_tab s 0) []) as (l & H1 & H2 & H3); [done|intros x H; by apply elem_of_nil in H|].
  exists l. constructor; [done|by rewrite H2|]. rewrite Zlen_nil. unfold memp_init_pool. by rewrite H3.
Qed.

Lemma rep_elem s l o x : pool_rep s l o -> x ∈ l -> x <> 0 /\ x mod MEM_ALIGNMENT = 0.
Proof. intros [_ Hp _] Hx. apply elements_spec. rewrite <- Hp. apply elem_of_app. by right. Qed.

Lemma memp_malloc_rep s l o : pool_rep s l o ->
  match l with
  | [] => do_memp_malloc_pool s = Some (s, 0)
  | x :: r => exists s', do_memp_malloc_pool s = Some (s', x) /\ pool_rep s' r (x :: o)
  end.
Proof.
  intros Hr. pose proof (rep_elem s l o) as He. pose proof Hr as [Hl Hp Hu]. unfold do_memp_malloc_pool.
  destruct l as [|x r]; cbn in Hl; [by rewrite Hl|]. destruct Hl as [-> Hl]. destruct (He x Hr) as [H0 Ha]; [by left|].
  rewrite (proj2 (Z.eqb_neq x 0)), (proj2 (Z.eqb_eq _ _)) by done. cbn [negb]. eexists. split; [done|].
  constructor; cbn; [done| |rewrite Zlen_cons; lia]. rewrite <- Hp. apply Permutation_middle.
Qed.

Lemma memp_free_rep s l a x b : pool_rep s l (a ++ x :: b) ->
  exists s', memp_free_pool s x = Some s' /\ pool_rep s' (x :: l) (a ++ b).
Proof.
  intros [Hl Hp Hu]. destruct (elements_spec x) as [H0 Ha].
  { rewrite <- Hp, !elem_of_app, elem_of_cons. auto. }
  unfold memp_free_pool, do_memp_free_pool. rewrite (proj2 (Z.eqb_neq x 0)), (proj2 (Z.eqb_eq _ _)) by done. eexists. split; [done|].
  constructor; cbn.
  - split; [done|]. rewrite fn_lookup_insert. apply linked_frame; [|done]. intros Hx.
    pose proof elements_nodup as Hn. rewrite <- Hp, <- app_assoc in Hn. apply NoDup_app in Hn as (_ & _ & Hn).
    cbn in Hn. apply NoDup_cons in Hn as [Hn _]. apply Hn, elem_of_app. by right.
  - rewrite <- Hp, <- !app_assoc. cbn. by rewrite Permutation_middle.
  - rewrite Hu, !Zlen_app, Zlen_cons. lia.
Qed.

(** ** Whole calls *)

(** The pool and the elements in use, through calls that are not interrupted, and writes of the
    users to their elements. *)
Inductive memp_step : mpool * list Z -> mpool * list Z -> Prop :=
| mp_malloc s o s' x : do_memp_malloc_pool s = Some (s', x) -> x <> 0 -> memp_step (s, o) (s', x :: o)
| mp_free s a x b s' : memp_free_pool s x = Some s' -> memp_step (s, a ++ x :: b) (s', a ++ b)
| mp_write s o x v : x ∈ o -> memp_step (s, o) (set_mnext s x v, o).

Lemma memp_step_rep s o s' o' l : memp_step (s, o) (s', o') -> pool_rep s l o -> exists l', pool_rep s' l' o'.
Proof.
  intros Hst Hr. inversion Hst as [? ? ? x E Hx|? a x b ? E|? ? x v Hx]; subst.
  - pose proof (memp_malloc_rep s l o Hr) as Hm. destruct l as [|y r]; [congruence|]. destruct Hm as (s2 & E2 & H2).
    exists r. congruence.
  - destruct (memp_free_rep s l a x b Hr) as (s2 & E2 & H2). exists (x :: l). congruence.
  - exists l. destruct Hr as [Hl Hp Hu]. constructor; cbn; [|done|done]. apply linked_frame; [|done].
    pose proof elements_nodup as Hn. rewrite <- Hp in Hn. apply NoDup_app in Hn as (_ & Hn & _). by apply Hn.
Qed.

(** ** Interrupted calls *)

(** [do_memp_malloc_pool] up to the read of the head, and the rest of it. *)
Definition malloc_read (s : mpool) : Z := tab s.
Definition malloc_take (s : mpool) (memp : Z) : option (mpool * Z) :=
  if negb (memp =? 0) then
    let s := set_tab s (mnext s memp) in
    if memp mod MEM_ALIGNMENT =? 0 then Some (set_mused s (mused s + 1), memp) else None
  else Some (s, 0).

Lemma malloc_split s : do_memp_malloc_pool s = malloc_take s (malloc_read s).
Proof. done. Qed.

(** Two threads that both have read the head before one of them goes on. *)
Definition malloc_twice (s : mpool) : option (mpool * Z * Z) :=
  let m1 := malloc_read s in
  let m2 := malloc_read s in
  '(s, x) ← malloc_take s m1;
  '(s, y) ← malloc_take s m2;
  Some (s, x, y).

(** C27: A memory pool hands out every element once - if its calls are not interrupted.  After any
    sequence of whole calls and of writes of the users to their elements, the free elements, followed
    through their links, and those in use are the elements of the pool, each once; an allocation fails only when
    all are in use; the statistics count the used ones.  The calls of this firmware are not protected:
    whenever an element is free, two allocations of which one preempts the other between its two accesses to
    the head of the list return the same element. *)
Theorem memp_exact (s0 s : mpool) (o : list Z) (H0 : mused s0 = 0)
    (Hr : rtc memp_step (memp_init_pool base size num s0, []) (s, o)) :
  o ++ walk num (mnext s) (tab s) ≡ₚ elements /\ NoDup (o ++ walk num (mnext s) (tab s)) /\ mused s = Zlen o /\
  (exists s' x, do_memp_malloc_pool s = Some (s', x) /\ (x = 0 <-> Zlen o = Z.of_nat num) /\ x ∉ o) /\
  (Zlen o < Z.of_nat num -> exists s' x, malloc_twice s = Some (s', x, x) /\ x ∈ elements).
Proof.
  assert (exists l, pool_rep s l o) as [l Hrep].
  { destruct (memp_init_rep s0 H0) as [l Hl]. remember (memp_init_pool base size num s0, []) as c0 eqn:E0. remember (s, o) as c eqn:E.
    assert (exists l, pool_rep c0.1 l c0.2) as Hi by (subst c0; by exists l). clear l Hl E0.
    revert E. induction Hr as [c|[s1 o1] [s2 o2] c Hst _ IH]; intros ->; [done|]. apply IH; [|done]. cbn.
    destruct Hi as [l Hl]. by eapply memp_step_rep. }
  assert (Zlen o + Zlen l = Z.of_nat num) as Hlen.
  { pose proof (pr_perm _ _ _ Hrep) as Hp. apply Permutation_length in Hp. unfold elements in Hp. rewrite length_app, length_map, length_seq in Hp. unfold Zlen. lia. }
  assert (Forall (fun x => x <> 0) l) as Hz by (apply Forall_forall; intros x Hx; by apply (rep_elem s l o)).
  pose proof (memp_malloc_rep s l o Hrep) as Hm. pose proof Hrep as [Hl Hp Hu].
  rewrite (walk_linked _ l) by (done || unfold Zlen in Hlen; lia). split_and!; [done|rewrite Hp; apply elements_nodup|done| |].
  - destruct l as [|x r].
    + exists s, 0. split; [done|]. rewrite Zlen_nil in Hlen. split; [split; [intros; lia|done]|]. intros Hx.
      destruct (elements_spec 0) as [H _]; [rewrite <- Hp; apply elem_of_app; by left|done].
    + destruct Hm as (s' & E & Hr'). exists s', x. split; [done|]. apply Forall_cons in Hz as [Hz _].
      rewrite Zlen_cons in Hlen. pose proof (Zlen_nonneg r). split; [split; intros; [done|lia]|].
      pose proof elements_nodup as Hn. rewrite <- Hp in Hn. apply NoDup_app in Hn as (_ & Hn & _). intros Hx. apply (Hn x Hx). by left.
  - intros Hlt. destruct l as [|x r]; [rewrite Zlen_nil in Hlen; lia|]. cbn in Hl. destruct Hl as [Et Hl].
    destruct (rep_elem s (x :: r) o x Hrep) as [Hx Ha]; [by left|]. unfold malloc_twice, malloc_read, malloc_take. rewrite Et.
    rewrite (proj2 (Z.eqb_neq x 0)), (proj2 (Z.eqb_eq _ _)) by done. cbn. do 2 eexists. split; [done|].
    rewrite <- Hp. apply elem_of_app. right. by left.
Qed.
End Pool.

(** A pool of two elements of 8 bytes, one of them allocated. *)
Definition demo_pool : mpool := memp_init_pool 100 8 2 (MPool 0 id 0).

Lemma memp_exact_witness : elements 100 8 2 = [100; 108] /\ exists s' x, malloc_twice demo_pool = Some (s', x, x) /\ x ∈ elements 100 8 2.
Proof.
  split; [reflexivity|]. refine (proj2 (proj2 (proj2 (proj2 (memp_exact 100 8 2 _ (MPool 0 id 0) demo_pool [] eq_refl _)))) _).
  - split; [lia|split; [lia|reflexivity]].
  - apply rtc_refl.
  - reflexivity.
Defined.
