(* ===== verification/Mem.v ===== *)
(** * Mem: the heap of lwIP (ext/ChibiOS_21.11.3/ext/lwip/src/core/mem.c)

    The heap is an area of MEM_SIZE bytes tiled by blocks, each behind a header [struct mem] with the
    offsets of its neighbours.  An offset from the start of the area stands for a pointer into it; the
    header at an offset is what the bytes there read as.  Only the headers of the blocks matter: what lies
    between them is data of the users, who may change what it reads as at any time ([m_write]).
    [mem_size_t] has 16 bits in this configuration (MEM_SIZE is 1600); the heap is protected by a mutex, so that
    each call is one step.  Of the statistics the number of used bytes is kept.  [None] is a failed assertion (an
    illegal free among them) or a loop that is out of fuel; a NULL pointer is [None] of a result. *)

From stdpp Require Import functions.
From S2P Require Import Prelude Memp.

Record smem := SMem { next : Z; prev : Z; used : bool }.

Definition MEM_SIZE_ALIGNED : Z := 1600.
Definition SIZEOF_STRUCT_MEM : Z := 8.
Definition MIN_SIZE_ALIGNED : Z := 12.

Record mheap := MHeap { hdr : Z -> smem; lfree : Z; used_stat : Z }.

Definition set_hdr (s : mheap) (p : Z) (m : smem) : mheap := MHeap (<[p := m]> (hdr s)) (lfree s) (used_stat s).
Definition set_next (s : mheap) (p v : Z) : mheap := set_hdr s p (SMem v (prev (hdr s p)) (used (hdr s p))).
Definition set_prev (s : mheap) (p v : Z) : mheap := set_hdr s p (SMem (next (hdr s p)) v (used (hdr s p))).
Definition set_used (s : mheap) (p : Z) (b : bool) : mheap := set_hdr s p (SMem (next (hdr s p)) (prev (hdr s p)) b).
Definition set_lfree (s : mheap) (p : Z) : mheap := MHeap (hdr s) p (used_stat s).
Definition set_stat (s : mheap) (u : Z) : mheap := MHeap (hdr s) (lfree s) (u16 u).

(** if (n != MEM_SIZE_ALIGNED) ptr_to_mem(n)->prev = v *)
Definition relink (s : mheap) (n v : Z) : mheap := if negb (n =? MEM_SIZE_ALIGNED) then set_prev s n v else s.

(** The block at [second] becomes part of the one before it at [first]. *)
Definition join (s : mheap) (first second : Z) : mheap :=
  let s := if lfree s =? second then set_lfree s first else s in
  let s := set_next s first (next (hdr s second)) in
  relink s (next (hdr s second)) first.

Definition plug_holes (s : mheap) (mem : Z) : option mheap :=
  if (0 <=? mem) && (mem <? MEM_SIZE_ALIGNED) && negb (used (hdr s mem)) && (next (hdr s mem) <=? MEM_SIZE_ALIGNED) then
    let nmem := next (hdr s mem) in
    let s := if negb (mem =? nmem) && negb (used (hdr s nmem)) && negb (nmem =? MEM_SIZE_ALIGNED) then join s mem nmem else s in
    let pmem := prev (hdr s mem) in
    Some (if negb (pmem =? mem) && negb (used (hdr s pmem)) then join s pmem mem else s)
  else None.

Definition mem_init (h : Z -> smem) : mheap :=
  let s := MHeap h 0 0 in
  let s := set_hdr s 0 (SMem MEM_SIZE_ALIGNED 0 false) in
  let s := set_hdr s MEM_SIZE_ALIGNED (SMem MEM_SIZE_ALIGNED MEM_SIZE_ALIGNED true) in
  set_lfree s 0.

Definition mem_link_valid (s : mheap) (mem : Z) : bool :=
  let m := hdr s mem in
  negb ((MEM_SIZE_ALIGNED <? next m) || (MEM_SIZE_ALIGNED <? prev m) ||
        (negb (prev m =? mem) && negb (next (hdr s (prev m)) =? mem)) ||
        (negb (next m =? MEM_SIZE_ALIGNED) && negb (prev (hdr s (next m)) =? mem))).

Definition mem_free (s : mheap) (rmem : option Z) : option mheap :=
  match rmem with
  | None => Some s
  | Some rmem =>
      if negb (Z.land rmem (MEM_ALIGNMENT - 1) =? 0) then None
      else
        let mem := rmem - SIZEOF_STRUCT_MEM in
        if (mem <? 0) || (MEM_SIZE_ALIGNED <? rmem + MIN_SIZE_ALIGNED) then None
        else if negb (used (hdr s mem)) then None
        else if negb (mem_link_valid s mem) then None
        else
          let s := set_used s mem false in
          let s := if mem <? lfree s then set_lfree s mem else s in
          let s := set_stat s (used_stat s - (next (hdr s mem) - mem)) in
          plug_holes s mem
  end.

(** The size of a block for a request, at least MIN_SIZE_ALIGNED. *)
Definition request (size_in : Z) : Z :=
  let size := u16 (LWIP_MEM_ALIGN_SIZE size_in) in
  if size <? MIN_SIZE_ALIGNED then MIN_SIZE_ALIGNED else size.

Definition mem_trim (s : mheap) (rmem new_size : Z) : option (mheap * option Z) :=
  let newsize := request new_size in
  if (MEM_SIZE_ALIGNED <? newsize) || (newsize <? new_size) then Some (s, None)
  else if negb ((0 <=? rmem) && (rmem <? MEM_SIZE_ALIGNED)) then None
  else
    let ptr := rmem - SIZEOF_STRUCT_MEM in
    let size := u16 (u16 (next (hdr s ptr) - ptr) - SIZEOF_STRUCT_MEM) in
    if size <? newsize then None
    else if newsize =? size then Some (s, Some rmem)
    else
      let mem2 := next (hdr s ptr) in
      if negb (used (hdr s mem2)) then
        if next (hdr s ptr) =? MEM_SIZE_ALIGNED then None
        else
          let nxt := next (hdr s mem2) in
          let ptr2 := u16 (ptr + SIZEOF_STRUCT_MEM + newsize) in
          let s := if lfree s =? mem2 then set_lfree s ptr2 else s in
          let s := set_hdr s ptr2 (SMem nxt ptr false) in
          let s := set_next s ptr ptr2 in
          let s := relink s (next (hdr s ptr2)) ptr2 in
          Some (set_stat s (used_stat s - (size - newsize)), Some rmem)
      else if newsize + SIZEOF_STRUCT_MEM + MIN_SIZE_ALIGNED <=? size then
        let ptr2 := u16 (ptr + SIZEOF_STRUCT_MEM + newsize) in
        if next (hdr s ptr) =? MEM_SIZE_ALIGNED then None
        else
          let s := if ptr2 <? lfree s then set_lfree s ptr2 else s in
          let s := set_hdr s ptr2 (SMem (next (hdr s ptr)) ptr false) in
          let s := set_next s ptr ptr2 in
          let s := relink s (next (hdr s ptr2)) ptr2 in
          Some (set_stat s (used_stat s - (size - newsize)), Some rmem)
      else Some (s, Some rmem).

(** The scan for a free block that is big enough; [Some None]: there is none. *)
Fixpoint search (fuel : nat) (s : mheap) (size ptr : Z) : option (option Z) :=
  match fuel with
  | O => None
  | S fuel =>
      if ptr <? MEM_SIZE_ALIGNED - size then
        if negb (used (hdr s ptr)) && (size <=? u32 (next (hdr s ptr) - (ptr + SIZEOF_STRUCT_MEM))) then Some (Some ptr)
        else search fuel s size (next (hdr s ptr))
      else Some None
  end.

(** while (cur->used && cur != ram_end) cur = ptr_to_mem(cur->next) *)
Fixpoint next_free (fuel : nat) (s : mheap) (cur : Z) : option Z :=
  match fuel with
  | O => None
  | S fuel => if used (hdr s cur) && negb (cur =? MEM_SIZE_ALIGNED) then next_free fuel s (next (hdr s cur)) else Some cur
  end.

(** A free block is taken: the headers of its two parts. *)
Definition carve (s : mheap) (size ptr : Z) : option mheap :=
  if size + SIZEOF_STRUCT_MEM + MIN_SIZE_ALIGNED <=? u32 (next (hdr s ptr) - (ptr + SIZEOF_STRUCT_MEM)) then
    let ptr2 := u16 (ptr + SIZEOF_STRUCT_MEM + size) in
    if ptr2 =? MEM_SIZE_ALIGNED then None
    else
      let s := set_hdr s ptr2 (SMem (next (hdr s ptr)) ptr false) in
      let s := set_next s ptr ptr2 in
      let s := set_used s ptr true in
      let s := relink s (next (hdr s ptr2)) ptr2 in
      Some (set_stat s (used_stat s + (size + SIZEOF_STRUCT_MEM)))
  else
    let s := set_used s ptr true in
    Some (set_stat s (used_stat s + (next (hdr s ptr) - ptr))).

(** As many blocks as fit into the heap, and one more. *)
Definition scan_fuel : nat := 82.

Definition mem_malloc (s : mheap) (size_in : Z) : option (mheap * option Z) :=
  if size_in =? 0 then Some (s, None)
  else
    let size := request size_in in
    if (MEM_SIZE_ALIGNED <? size) || (size <? size_in) then Some (s, None)
    else
      found ← search scan_fuel s size (lfree s);
      match found with
      | None => Some (s, None)
      | Some ptr =>
          let mem := ptr in
          s ← carve s size mem;
          s ← (if mem =? lfree s then
                 cur ← next_free scan_fuel s (lfree s);
                 if (cur =? MEM_SIZE_ALIGNED) || negb (used (hdr s cur)) then Some (set_lfree s cur) else None
               else Some s);
          if (mem + SIZEOF_STRUCT_MEM + size <=? MEM_SIZE_ALIGNED) && ((mem + SIZEOF_STRUCT_MEM) mod MEM_ALIGNMENT =? 0)
          then Some (s, Some (mem + SIZEOF_STRUCT_MEM)) else None
      end.

(** ** The blocks of the heap *)

(** A block: the size of its data, and whether it is in use. *)
Abbreviation block := (Z * bool)%type.

Fixpoint span (l : list block) : Z := match l with [] => 0 | (n, _) :: l => SIZEOF_STRUCT_MEM + n + span l end.
Fixpoint used_bytes (l : list block) : Z :=
  match l with [] => 0 | (n, u) :: l => (if u then SIZEOF_STRUCT_MEM + n else 0) + used_bytes l end.
Fixpoint first_free (p : Z) (l : list block) : Z :=
  match l with [] => p | (n, u) :: l => if u then first_free (p + SIZEOF_STRUCT_MEM + n) l else p end.

Definition block_ok (b : block) : Prop := MIN_SIZE_ALIGNED <= b.1 /\ b.1 mod MEM_ALIGNMENT = 0.

(** No two free blocks are neighbours. *)
Fixpoint coalesced (l : list block) : Prop :=
  match l with
  | [] => True
  | (_, u) :: r => (match r with (_, v) :: _ => u = true \/ v = true | [] => True end) /\ coalesced r
  end.

(** Merging neighbours that are free. *)
Fixpoint merge (l : list block) : list block :=
  match l with
  | [] => []
  | (n, true) :: r => (n, true) :: merge r
  | (n, false) :: r =>
      match merge r with
      | (m, false) :: r' => (n + SIZEOF_STRUCT_MEM + m, false) :: r'
      | r' => (n, false) :: r'
      end
  end.

(** A request for [size] bytes: the first free block that is big enough, cut if the rest can be a block. *)
Definition cut (size n : Z) : list block :=
  if size + SIZEOF_STRUCT_MEM + MIN_SIZE_ALIGNED <=? n then [(size, true); (n - size - SIZEOF_STRUCT_MEM, false)] else [(n, true)].

Fixpoint fit (size p : Z) (l : list block) : option (list block * Z) :=
  match l with
  | [] => None
  | (n, u) :: r =>
      if negb u && (size <=? n) then Some (cut size n ++ r, p)
      else '(r, q) ← fit size (p + SIZEOF_STRUCT_MEM + n) r; Some ((n, u) :: r, q)
  end.

(** The headers from [p] on, behind a block at [pp], are those of the blocks [l], and the next block
    after them is at [p + span l] behind one at [e]. *)
Fixpoint seg (h : Z -> smem) (pp p : Z) (l : list block) (e : Z) : Prop :=
  match l with
  | [] => e = pp
  | (n, u) :: l => h p = SMem (p + SIZEOF_STRUCT_MEM + n) pp u /\ seg h p (p + SIZEOF_STRUCT_MEM + n) l e
  end.

(** The headers, the lowest free block and the statistics are those of the blocks [l], which tile the heap. *)
Record tiles (s : mheap) (l : list block) : Prop := {
  r_seg : exists e, seg (hdr s) 0 0 l e;
  r_span : span l = MEM_SIZE_ALIGNED;
  r_end : hdr s MEM_SIZE_ALIGNED = SMem MEM_SIZE_ALIGNED MEM_SIZE_ALIGNED true;
  r_ok : Forall block_ok l;
  r_lfree : lfree s = first_free 0 l;
  r_stat : used_stat s = used_bytes l }.

Definition rep (s : mheap) (l : list block) : Prop := tiles s l /\ coalesced l.

(** *** Lemmas on lists of blocks *)

Ltac consts := unfold MEM_SIZE_ALIGNED, SIZEOF_STRUCT_MEM, MIN_SIZE_ALIGNED, MEM_ALIGNMENT in *.

Lemma span_app a b : span (a ++ b) = span a + span b.
Proof. induction a as [|[n u] a IH]; cbn; [done|]. rewrite IH. lia. Qed.

Lemma used_bytes_app a b : used_bytes (a ++ b) = used_bytes a + used_bytes b.
Proof. induction a as [|[n u] a IH]; cbn; [done|]. rewrite IH. lia. Qed.

Lemma span_nonneg l : Forall block_ok l -> 0 <= span l /\ 20 * Zlen l <= span l.
Proof.
  induction 1 as [|[n u] l [Hn _] _ IH]; [done|]. rewrite Zlen_cons. cbn [span fst] in *. consts. lia.
Qed.

Lemma span_aligned l : Forall block_ok l -> span l mod 4 = 0.
Proof. induction 1 as [|[n u] l [_ Hn] _ IH]; [done|]. cbn [span fst] in *. consts. dlia. Qed.

Lemma used_bytes_bound l : Forall block_ok l -> 0 <= used_bytes l <= span l.
Proof. induction 1 as [|[n u] l [Hn _] _ IH]; [done|]. cbn [span used_bytes fst] in *. consts. destruct u; lia. Qed.

Lemma first_free_bounds l : forall p, Forall block_ok l -> p <= first_free p l <= p + span l.
Proof.
  induction l as [|[n u] l IH]; intros p Hl; cbn [first_free span]; [lia|]. apply Forall_cons in Hl as [[Hn _] Hl].
  cbn [fst] in Hn. pose proof (span_nonneg l Hl). consts. destruct u; [|lia]. specialize (IH (p + 8 + n) Hl). lia.
Qed.

Definition head_used (l : list block) : bool := match l with (_, u) :: _ => u | [] => true end.
Fixpoint last_used (l : list block) : bool := match l with [] => true | [(_, u)] => u | _ :: l => last_used l end.

Lemma coalesced_app a b : coalesced (a ++ b) <-> coalesced a /\ coalesced b /\ (last_used a = true \/ head_used b = true).
Proof.
  induction a as [|[n u] a IH]; [cbn; tauto|]. destruct a as [|[m v] a].
  - cbn. destruct b as [|[k w] b]; cbn; tauto.
  - cbn [app] in *. change (coalesced ((n, u) :: (m, v) :: a ++ b)) with ((u = true \/ v = true) /\ coalesced ((m, v) :: a ++ b)).
    rewrite IH. cbn. tauto.
Qed.

Lemma merge_coalesced l : coalesced l -> merge l = l.
Proof.
  induction l as [|[n [|]] l IH]; cbn; [done| |]; intros [H Hl]; rewrite IH by done; [done|].
  destruct l as [|[m [|]] l]; [done|done|]. by destruct H.
Qed.

Lemma blocks_app h a : forall pp p b e, seg h pp p (a ++ b) e <-> exists m, seg h pp p a m /\ seg h m (p + span a) b e.
Proof.
  induction a as [|[n u] a IH]; intros pp p b e; cbn [app seg span].
  - rewrite Z.add_0_r. split; [by exists pp|]. by intros (m & -> & H).
  - rewrite IH. replace (p + (SIZEOF_STRUCT_MEM + n + span a)) with (p + SIZEOF_STRUCT_MEM + n + span a) by lia. naive_solver.
Qed.

Lemma seg_frame h h' l : forall pp p e, Forall block_ok l -> (forall x, p <= x < p + span l -> h' x = h x) -> seg h pp p l e -> seg h' pp p l e.
Proof.
  induction l as [|[n u] l IH]; intros pp p e Hok Hx; cbn [seg]; [done|]. apply Forall_cons in Hok as [[Hn _] Hok]. cbn [fst span] in *.
  pose proof (span_nonneg l Hok). consts. intros [H1 H2]. split; [rewrite Hx by lia; done|]. apply IH; [done| |done]. intros x Hx'. apply Hx. lia.
Qed.

(** The first block of a segment gets another predecessor. *)
Lemma seg_relink s pp pp' p l e : Forall block_ok l -> p + span l = MEM_SIZE_ALIGNED -> seg (hdr s) pp p l e ->
  exists e', seg (hdr (relink s p pp')) pp' p l e'.
Proof.
  intros Hok Hp. unfold relink. destruct l as [|[n u] l]; cbn [seg].
  - intros _. by exists pp'.
  - apply Forall_cons in Hok as [[Hn _] Hok]. cbn [fst span] in *. pose proof (span_nonneg l Hok). consts. intros [H1 H2].
    rewrite (proj2 (Z.eqb_neq p 1600)) by lia. cbn. exists e. rewrite fn_lookup_insert, H1. split; [done|].
    apply (seg_frame (hdr s)); [done| |done]. intros x Hx. apply fn_lookup_insert_ne. lia.
Qed.

Lemma relink_other s n v x : x <> n -> hdr (relink s n v) x = hdr s x.
Proof. intros Hx. unfold relink. destruct (n =? MEM_SIZE_ALIGNED); [done|]. by apply fn_lookup_insert_ne. Qed.

Lemma relink_end s n v : hdr (relink s n v) MEM_SIZE_ALIGNED = hdr s MEM_SIZE_ALIGNED.
Proof.
  unfold relink. destruct (Z.eqb_spec n MEM_SIZE_ALIGNED); [done|]. by apply fn_lookup_insert_ne.
Qed.

Lemma relink_lfree s n v : lfree (relink s n v) = lfree s /\ used_stat (relink s n v) = used_stat s.
Proof. unfold relink. by destruct (n =? MEM_SIZE_ALIGNED). Qed.

(** The last block before [p], and the headers from there on. *)
Record here (s : mheap) (a : list block) (m p : Z) (l : list block) : Prop := {
  h_pre : seg (hdr s) 0 0 a m;
  h_p : p = span a;
  h_post : exists e, seg (hdr s) m p l e;
  h_left : p + span l = MEM_SIZE_ALIGNED }.

Lemma tiles_here s a l : tiles s (a ++ l) -> exists m, here s a m (span a) l.
Proof.
  intros [[e He] Hsp _ _ _ _]. apply blocks_app in He as (m & H1 & H2). exists m. rewrite span_app in Hsp. split; eauto.
Qed.

(** A piece of the list is exchanged. *)
Lemma splice_blocks s s' a m p c c' m' b : tiles s (a ++ c ++ b) -> here s a m p (c ++ b) ->
  (forall x, 0 <= x < p -> hdr s' x = hdr s x) -> hdr s' MEM_SIZE_ALIGNED = hdr s MEM_SIZE_ALIGNED ->
  seg (hdr s') m p c' m' -> (exists e, seg (hdr s') m' (p + span c) b e) -> span c' = span c -> Forall block_ok c' ->
  lfree s' = first_free 0 (a ++ c' ++ b) -> used_stat s' = used_stat s - used_bytes c + used_bytes c' ->
  tiles s' (a ++ c' ++ b).
Proof.
  intros [_ Hsp He Hok _ Hst] [H1 -> _ _] Hx Hx' Hc [e Hb] Hs Hok' Hlf Hst'.
  rewrite !Forall_app in Hok. destruct Hok as (Ha & _ & Hokb). constructor.
  - exists e. apply blocks_app. exists m. split; [|rewrite Z.add_0_l; apply blocks_app; exists m'; split; [done|by rewrite Hs]].
    apply (seg_frame (hdr s)); [done| |done]. by rewrite Z.add_0_l.
  - rewrite !span_app in *. lia.
  - congruence.
  - by rewrite !Forall_app.
  - done.
  - rewrite !used_bytes_app in *. lia.
Qed.

Lemma first_free_app a b : forall p, first_free p (a ++ b) = if forallb (fun x => x.2) a then first_free (p + span a) b else first_free p a.
Proof.
  induction a as [|[n u] a IH]; intros p; cbn [app first_free forallb span snd]; [by rewrite Z.add_0_r|]. destruct u; [|done].
  cbn [andb]. rewrite IH. replace (p + (SIZEOF_STRUCT_MEM + n + span a)) with (p + SIZEOF_STRUCT_MEM + n + span a) by lia. done.
Qed.

Lemma first_free_used a : forall p, forallb (fun x => x.2) a = true -> first_free p a = p + span a.
Proof.
  induction a as [|[n u] a IH]; intros p; cbn [first_free forallb span snd]; [lia|]. destruct u; [|done]. cbn [andb]. intros H. rewrite IH by done. lia.
Qed.

(** A free block further up is not the lowest one. *)
Lemma first_free_before a p : Forall block_ok a -> forallb (fun x => x.2) a = false -> first_free p a < p + span a.
Proof.
  revert p. induction a as [|[n u] a IH]; intros p Ha; cbn [first_free forallb span snd]; [done|]. apply Forall_cons in Ha as [[Hn _] Ha]. cbn in Hn.
  pose proof (span_nonneg a Ha). consts. destruct u; cbn [andb]; [|lia]. intros H'. specialize (IH (p + 8 + n) Ha H'). lia.
Qed.

Lemma join_tiles s a n k b : tiles s (a ++ [(n, false); (k, false)] ++ b) ->
  tiles (join s (span a) (span a + SIZEOF_STRUCT_MEM + n)) (a ++ [(n + SIZEOF_STRUCT_MEM + k, false)] ++ b).
Proof.
  intros Ht. destruct (tiles_here s a _ Ht) as (m & Hh). pose proof Hh as [_ _ (e & Hseg) Hleft]. pose proof Ht as [_ Hsp He Hok Hlf Hst].
  rewrite !Forall_app in Hok. destruct Hok as (Ha & Hc & Hb). apply Forall_cons in Hc as [[Hn Hn4] [[Hk Hk4] _]%Forall_cons]. cbn [fst] in *.
  pose proof (span_nonneg a Ha) as [Ha0 _]. pose proof (span_nonneg b Hb) as [Hb0 _]. cbn [app seg] in Hseg. destruct Hseg as (E1 & E2 & E3).
  set (p := span a) in *. set (q := p + SIZEOF_STRUCT_MEM + n) in *.
  assert (lfree s <> q) as Hq.
  { rewrite Hlf, first_free_app. destruct (forallb _ a) eqn:Ea; [cbn; consts; lia|]. pose proof (first_free_before a 0 Ha Ea). fold p in H. consts. lia. }
  unfold join. rewrite (proj2 (Z.eqb_neq _ _)) by done. set (s1 := set_next s p (next (hdr s q))).
  assert (hdr s1 q = hdr s q) as Eq by (apply fn_lookup_insert_ne; unfold q; consts; lia). rewrite Eq, E2. cbn [next].
  set (r := q + SIZEOF_STRUCT_MEM + k) in *. assert (r + span b = MEM_SIZE_ALIGNED) as Hr by (cbn [app span] in Hleft; unfold r, q; lia).
  destruct (seg_relink s1 q p r b e Hb Hr) as (e' & E').
  { apply (seg_frame (hdr s)); [done| |done]. intros x Hx. apply fn_lookup_insert_ne. unfold r, q in Hx. consts. lia. }
  apply (splice_blocks s _ a m p [(n, false); (k, false)] _ p); [done|done| | | |eexists| | | |].
  - intros x Hx. rewrite relink_other by (unfold r, q; consts; lia). apply fn_lookup_insert_ne. lia.
  - rewrite relink_end. apply fn_lookup_insert_ne. unfold q, r in *. consts. lia.
  - cbn [seg]. rewrite relink_other by (unfold r, q; consts; lia). unfold s1, set_next. cbn. rewrite fn_lookup_insert, E1, E2. cbn. split; [|done].
    f_equal. unfold r, q. lia.
  - replace (p + span [(n, false); (k, false)]) with r by (cbn [span]; unfold r, q; lia). exact E'.
  - cbn [span]. lia.
  - constructor; [|done]. split; cbn [fst]; consts; [lia|dlia].
  - rewrite (proj1 (relink_lfree _ _ _)). cbn. rewrite Hlf, !first_free_app. by destruct (forallb _ a).
  - rewrite (proj2 (relink_lfree _ _ _)). cbn. lia.
Qed.

(** *** Merging *)

Lemma coalesced_merge l : coalesced (merge l).
Proof.
  induction l as [|[n [|]] l IH]; cbn; [done| |].
  - split; [|done]. destruct (merge l) as [|[m v] r]; auto.
  - destruct (merge l) as [|[m [|]] r]; [done|cbn in *; auto|]. cbn in *. by destruct r as [|[? ?] ?].
Qed.

Lemma merge_app a l : coalesced a -> last_used a = true -> merge (a ++ l) = a ++ merge l.
Proof.
  induction a as [|[n u] a IH]; [done|]. destruct a as [|[m v] a].
  - cbn. intros _ ->. done.
  - intros [Huv Hc] Hl. change (last_used ((n, u) :: (m, v) :: a)) with (last_used ((m, v) :: a)) in Hl.
    specialize (IH Hc Hl). change (((n, u) :: (m, v) :: a) ++ l) with ((n, u) :: (((m, v) :: a) ++ l)).
    destruct u; cbn [merge]; rewrite IH; [done|]. destruct v; [done|by destruct Huv].
Qed.

Lemma merge_free n l : coalesced l ->
  merge ((n, false) :: l) = match l with (m, false) :: r => (n + SIZEOF_STRUCT_MEM + m, false) :: r | _ => (n, false) :: l end.
Proof. intros Hl. cbn [merge]. rewrite merge_coalesced by done. by destruct l as [|[? []] ?]. Qed.

(** The end of a list: empty, or a last block at the end of its span. *)
Lemma blocks_last h a : forall pp p m, seg h pp p a m -> a <> [] ->
  exists a' k u, a = a' ++ [(k, u)] /\ m = p + span a' /\ (exists x, h m = SMem (p + span a) x u).
Proof.
  induction a as [|[n u] a IH]; intros pp p m; [done|]. intros [H1 H2] _. destruct a as [|b a].
  - cbn in H2. subst m. exists [], n, u. cbn [span app]. split; [done|]. split; [lia|]. exists pp. rewrite H1. f_equal. lia.
  - destruct (IH _ _ _ H2) as (a' & k & v & -> & -> & x & E); [done|]. exists ((n, u) :: a'), k, v. cbn [span app].
    split; [done|]. split; [lia|]. exists x. replace (p + (SIZEOF_STRUCT_MEM + n + span a')) with (p + SIZEOF_STRUCT_MEM + n + span a') by lia.
    rewrite E. f_equal. lia.
Qed.

Lemma last_used_app a k u : last_used (a ++ [(k, u)]) = u.
Proof. induction a as [|x a IH]; [done|]. destruct x as [n v]. cbn. by destruct a. Qed.

(** The backward half. *)
Lemma plug_backward s a n b : tiles s (a ++ [(n, false)] ++ b) -> coalesced a -> coalesced b -> head_used b = true ->
  let pmem := prev (hdr s (span a)) in
  rep (if negb (pmem =? span a) && negb (used (hdr s pmem)) then join s pmem (span a) else s) (merge (a ++ (n, false) :: b)).
Proof.
  intros Ht Ha Hb Hub pmem. destruct (tiles_here s a _ Ht) as (m & [Hpre _ (e & Hpost) _]). destruct Hpost as [E _].
  assert (pmem = m) as -> by (unfold pmem; by rewrite E).
  assert (merge ((n, false) :: b) = (n, false) :: b) as Hm.
  { rewrite merge_free by done. by destruct b as [|[? []] ?]. }
  destruct (decide (a = [])) as [->|Hne].
  - cbn in Hpre. subst m. cbn [app] in *. rewrite Hm. change (span []) with 0. cbn [Z.eqb negb andb]. split; [done|].
    change ((n, false) :: b) with ([(n, false)] ++ b). rewrite coalesced_app. cbn. auto.
  - destruct (blocks_last _ _ _ _ _ Hpre Hne) as (a' & k & u & -> & -> & x & Ex). rewrite Ex. cbn [used].
    pose proof (r_ok _ _ Ht) as Hok. rewrite !Forall_app in Hok. destruct Hok as ((Ha' & Hk) & _).
    apply Forall_cons in Hk as [[Hk _] _]. cbn [fst] in Hk.
    rewrite (proj2 (Z.eqb_neq _ _)) by (rewrite span_app; cbn [span]; consts; lia). cbn [negb andb].
    destruct u; cbn [negb].
    + rewrite merge_app, Hm by (done || by rewrite last_used_app). split; [done|].
      rewrite coalesced_app. split; [done|]. split; [|left; by rewrite last_used_app].
      change ((n, false) :: b) with ([(n, false)] ++ b). rewrite coalesced_app. cbn. auto.
    + apply coalesced_app in Ha as (Ha & _ & Hj). rewrite <- app_assoc, merge_app by (done || by destruct Hj).
      cbn [app]. rewrite (merge_free k). 2:{ change ((n, false) :: b) with ([(n, false)] ++ b). rewrite coalesced_app. cbn. auto. }
      split.
      * rewrite Z.add_0_l. replace (span (a' ++ [(k, false)])) with (span a' + SIZEOF_STRUCT_MEM + k) by (rewrite span_app; cbn [span]; lia).
        apply (join_tiles s a' k n b). by rewrite <- app_assoc in Ht.
      * rewrite coalesced_app. split; [done|]. split; [|left; by destruct Hj].
        change ((k + SIZEOF_STRUCT_MEM + n, false) :: b) with ([(k + SIZEOF_STRUCT_MEM + n, false)] ++ b). rewrite coalesced_app. cbn. auto.
Qed.

Lemma plug_holes_rep s a n b : tiles s (a ++ [(n, false)] ++ b) -> coalesced a -> coalesced b ->
  exists s', plug_holes s (span a) = Some s' /\ rep s' (merge (a ++ (n, false) :: b)).
Proof.
  intros Ht Ha Hb. destruct (tiles_here s a _ Ht) as (m & [_ _ (e & Hpost) Hleft]). destruct Hpost as [E1 E2].
  pose proof Ht as [_ _ He Hok _ _]. rewrite !Forall_app in Hok. destruct Hok as (Hoka & Hn & Hokb).
  apply Forall_cons in Hn as [[Hn Hn4] _]. cbn [fst] in *. pose proof (span_nonneg a Hoka) as [Ha0 _]. pose proof (span_nonneg b Hokb) as [Hb0 _].
  cbn [app span] in Hleft. unfold plug_holes. rewrite E1. cbn [used next].
  rewrite (proj2 (Z.leb_le 0 _)), (proj2 (Z.ltb_lt (span a) _)), (proj2 (Z.leb_le _ MEM_SIZE_ALIGNED)) by (consts; lia). cbn [negb andb].
  rewrite (proj2 (Z.eqb_neq (span a) _)) by (consts; lia). cbn [negb andb]. eexists. split; [done|].
  destruct b as [|[k v] b].
  - cbn [app span] in *. replace (span a + SIZEOF_STRUCT_MEM + n) with MEM_SIZE_ALIGNED by lia. rewrite Z.eqb_refl, andb_false_r.
    by apply plug_backward.
  - destruct E2 as [E2 E3]. rewrite E2. cbn [used]. cbn [span] in *. apply Forall_cons in Hokb as [[Hk _] Hokb]. cbn [fst] in Hk.
    pose proof (span_nonneg b Hokb) as [Hb1 _]. rewrite (proj2 (Z.eqb_neq _ MEM_SIZE_ALIGNED)) by (consts; lia). rewrite andb_true_r.
    destruct v; cbn [negb]; [by apply plug_backward|].
    pose proof (join_tiles s a n k b Ht) as Hj. cbn [app] in Hb. destruct Hb as [Hub Hb].
    assert (head_used b = true) as Hub' by (destruct b as [|[? ?] ?]; [done|cbn; by destruct Hub]).
    pose proof (plug_backward _ a _ b Hj Ha Hb Hub') as Hp. cbn zeta in Hp.
    replace (merge (a ++ (n, false) :: (k, false) :: b)) with (merge (a ++ (n + SIZEOF_STRUCT_MEM + k, false) :: b)); [exact Hp|].
    clear -Hb Hub'. induction a as [|[j [|]] a IH]; cbn [app merge]; [|by rewrite IH|by rewrite IH].
    rewrite merge_coalesced by done. destruct b as [|[? []] ?]; [done|done|done].
Qed.

(** *** Release *)

Lemma stat_small l x : Forall block_ok l -> span l = MEM_SIZE_ALIGNED -> x = used_bytes l -> u16 x = x.
Proof. intros Hok Hs ->. pose proof (used_bytes_bound l Hok). apply u16_small. consts. lia. Qed.

(** The lowest free block when a used block at [span a] becomes free. *)
Lemma lowest_free a n b : Forall block_ok (a ++ (n, true) :: b) ->
  (if span a <? first_free 0 (a ++ (n, true) :: b) then span a else first_free 0 (a ++ (n, true) :: b)) = first_free 0 (a ++ (n, false) :: b).
Proof.
  rewrite Forall_app. intros [Ha [[Hn _] Hb]%Forall_cons]. cbn in Hn. rewrite !first_free_app. destruct (forallb _ a) eqn:E.
  - cbn [first_free]. pose proof (first_free_bounds b (0 + span a + SIZEOF_STRUCT_MEM + n) Hb). consts. rewrite (proj2 (Z.ltb_lt _ _)) by lia. lia.
  - pose proof (first_free_before a 0 Ha E). rewrite (proj2 (Z.ltb_ge _ _)) by lia. done.
Qed.

Lemma link_valid s a n u b : tiles s (a ++ (n, u) :: b) -> mem_link_valid s (span a) = true.
Proof.
  intros Ht. destruct (tiles_here s a _ Ht) as (m & [Hpre _ (e & Hpost) Hleft]). destruct Hpost as [E1 E2].
  pose proof (r_ok _ _ Ht) as Hok. rewrite Forall_app in Hok. destruct Hok as [Ha [[Hn _] Hb]%Forall_cons]. cbn [fst span] in *.
  pose proof (span_nonneg a Ha) as [Ha0 _]. pose proof (span_nonneg b Hb) as [Hb0 _]. unfold mem_link_valid. rewrite E1. cbn [next prev].
  rewrite (proj2 (Z.ltb_ge MEM_SIZE_ALIGNED (span a + SIZEOF_STRUCT_MEM + n))) by (consts; lia).
  assert (m <= span a /\ (m = span a \/ next (hdr s m) = span a)) as [Hm Hm'].
  { destruct (decide (a = [])) as [->|Hne]; [cbn in Hpre |- *; subst m; split; [lia|by left]|].
    destruct (blocks_last _ _ _ _ _ Hpre Hne) as (a' & k & w & -> & -> & x & ->). rewrite span_app in *. cbn [span] in *.
    rewrite Forall_app in Ha. destruct Ha as [_ [[Hk _] _]%Forall_cons]. cbn in Hk. consts. split; [lia|right; cbn; lia]. }
  rewrite (proj2 (Z.ltb_ge MEM_SIZE_ALIGNED m)) by (consts; lia).
  replace (negb (m =? span a) && negb (next (hdr s m) =? span a)) with false.
  2:{ destruct Hm' as [->| ->]; rewrite Z.eqb_refl; [done|by rewrite andb_false_r]. }
  destruct b as [|[k v] b].
  - cbn [span] in *. by rewrite (proj2 (Z.eqb_eq _ MEM_SIZE_ALIGNED)) by (consts; lia).
  - destruct E2 as [E2 _]. rewrite E2. cbn [prev]. rewrite Z.eqb_refl. by rewrite andb_false_r.
Qed.

Lemma mark_free s a n b : tiles s (a ++ (n, true) :: b) ->
  let s := set_used s (span a) false in
  let s := if span a <? lfree s then set_lfree s (span a) else s in
  tiles (set_stat s (used_stat s - (next (hdr s (span a)) - span a))) (a ++ [(n, false)] ++ b).
Proof.
  intros Ht. destruct (tiles_here s a _ Ht) as (m & Hh). pose proof Hh as [_ _ (e & E1 & E2) Hleft]. pose proof Ht as [_ Hsp _ Hok Hlf Hst].
  pose proof (lowest_free a n b Hok) as Hlow. pose proof Hok as Hok2. rewrite Forall_app in Hok2. destruct Hok2 as [Ha [Hn Hb]%Forall_cons].
  pose proof (span_nonneg a Ha) as [Ha0 _]. pose proof (span_nonneg b Hb) as [Hb0 _]. pose proof Hn as [Hn0 _]. cbn [fst span] in *. cbn zeta.
  set (s1 := set_used s (span a) false).
  set (s2 := if span a <? lfree s1 then set_lfree s1 (span a) else s1).
  assert (hdr s2 = hdr s1 /\ used_stat s2 = used_stat s) as [Eh Eu] by (unfold s2; destruct (span a <? lfree s1); split; reflexivity).
  assert (hdr s1 (span a) = SMem (span a + SIZEOF_STRUCT_MEM + n) m false) as Es.
  { unfold s1, set_used. cbn. by rewrite fn_lookup_insert, E1. }
  rewrite Eh, Es, Eu. cbn [next].
  apply (splice_blocks s _ a m (span a) [(n, true)] [(n, false)] (span a) b); [done|done| | | |exists e| | | |]; cbn [hdr lfree used_stat set_stat]; rewrite ?Eh.
  - intros x Hx. apply fn_lookup_insert_ne. lia.
  - apply fn_lookup_insert_ne. consts. lia.
  - cbn [seg]. by rewrite Es.
  - replace (span a + span [(n, true)]) with (span a + SIZEOF_STRUCT_MEM + n) by (cbn [span]; lia).
    apply (seg_frame (hdr s)); [done| |done]. intros x Hx. apply fn_lookup_insert_ne. consts. lia.
  - done.
  - by constructor.
  - change (a ++ [(n, false)] ++ b) with (a ++ (n, false) :: b). rewrite <- Hlow, <- Hlf. unfold s2. change (lfree s1) with (lfree s). by destruct (span a <? lfree s).
  - rewrite Hst, used_bytes_app. cbn [used_bytes]. pose proof (used_bytes_bound a Ha). pose proof (used_bytes_bound b Hb).
    rewrite span_app in Hsp. cbn [span] in Hsp. rewrite u16_small by (consts; lia). lia.
Qed.

Lemma mem_free_rep s a n b : rep s (a ++ (n, true) :: b) ->
  exists s', mem_free s (Some (span a + SIZEOF_STRUCT_MEM)) = Some s' /\ rep s' (merge (a ++ (n, false) :: b)).
Proof.
  intros [Ht Hc]. apply coalesced_app in Hc as (Hca & [_ Hcb] & _).
  pose proof (mark_free s a n b Ht) as Hm. pose proof (link_valid s a n true b Ht) as Hv.
  destruct (tiles_here s a _ Ht) as (m & [_ _ (e & E1 & _) Hleft]). pose proof (r_ok _ _ Ht) as Hok. rewrite Forall_app in Hok.
  destruct Hok as [Ha [[Hn _] Hb]%Forall_cons]. cbn [fst span] in *.
  pose proof (span_nonneg a Ha) as [Ha0 _]. pose proof (span_nonneg b Hb) as [Hb0 _]. pose proof (span_aligned a Ha) as Hal.
  unfold mem_free. change (MEM_ALIGNMENT - 1) with (Z.ones 2). rewrite Z.land_ones by lia.
  rewrite (proj2 (Z.eqb_eq _ 0)) by (change (2 ^ 2) with 4; consts; dlia). cbn [negb].
  replace (span a + SIZEOF_STRUCT_MEM - SIZEOF_STRUCT_MEM) with (span a) by lia.
  rewrite (proj2 (Z.ltb_ge (span a) 0)), (proj2 (Z.ltb_ge MEM_SIZE_ALIGNED _)) by (consts; lia). cbn [orb].
  rewrite Hv, E1. cbn [used negb]. by apply plug_holes_rep.
Qed.

(** *** Allocation *)

Lemma align_spec z : 0 <= z -> z <= LWIP_MEM_ALIGN_SIZE z < z + 4 /\ LWIP_MEM_ALIGN_SIZE z mod 4 = 0.
Proof.
  intros Hz. unfold LWIP_MEM_ALIGN_SIZE, MEM_ALIGNMENT. change (4 - 1) with (Z.ones 2). replace (z + 4 - 1) with (z + 3) by lia.
  rewrite <- Z.ldiff_land, Z.ldiff_ones_r, Z.shiftl_mul_pow2, Z.shiftr_div_pow2 by lia. change (2 ^ 2) with 4. dlia.
Qed.

(** A request that passes the checks. *)
Lemma request_spec x : 0 <= x < 2 ^ 16 ->
  if (MEM_SIZE_ALIGNED <? request x) || (request x <? x) then MEM_SIZE_ALIGNED < x
  else x <= request x <= MEM_SIZE_ALIGNED /\ MIN_SIZE_ALIGNED <= request x /\ request x mod 4 = 0 /\ request x <= Z.max MIN_SIZE_ALIGNED (x + 3).
Proof.
  intros Hx. pose proof (align_spec x) as [H1 H2]; [lia|]. unfold request. consts.
  destruct (Z_lt_le_dec (LWIP_MEM_ALIGN_SIZE x) (2 ^ 16)) as [Hl|Hl].
  - rewrite u16_small by lia. destruct (Z.ltb_spec (LWIP_MEM_ALIGN_SIZE x) 12);
      destruct (Z.ltb_spec 1600 12); destruct (Z.ltb_spec 1600 (LWIP_MEM_ALIGN_SIZE x)); destruct (Z.ltb_spec 12 x);
      destruct (Z.ltb_spec (LWIP_MEM_ALIGN_SIZE x) x); cbn [orb]; try lia; try dlia; (split; [lia|split; [lia|split; [done|lia]]]).
  - assert (LWIP_MEM_ALIGN_SIZE x = 2 ^ 16) as -> by dlia. change (u16 (2 ^ 16)) with 0. cbn [Z.ltb Z.compare].
    rewrite (proj2 (Z.ltb_lt 12 x)) by lia. cbn. lia.
Qed.

(** Not a place for [size] bytes. *)
Definition no_fit (size : Z) (b : block) : Prop := b.2 = true \/ b.1 < size.

Lemma fit_some size l : forall p l' q, fit size p l = Some (l', q) ->
  exists a n b, l = a ++ [(n, false)] ++ b /\ q = p + span a /\ size <= n /\ l' = a ++ cut size n ++ b /\ Forall (no_fit size) a.
Proof.
  induction l as [|[n u] l IH]; intros p l' q; cbn [fit]; [done|]. destruct (negb u && (size <=? n)) eqn:E.
  - apply andb_prop in E as [Eu En]. destruct u; [done|]. apply Z.leb_le in En. intros [= <- <-]. exists [], n, l. cbn [span app]. split_and!; try done. lia.
  - destruct (fit size _ l) as [[r q']|] eqn:Ef; [|done]. cbn. intros [= <- <-]. destruct (IH _ _ _ Ef) as (a & k & b & -> & -> & Hk & -> & Ha).
    exists ((n, u) :: a), k, b. cbn [span app]. split_and!; try done; [lia|]. constructor; [|done]. unfold no_fit. cbn.
    destruct u; [by left|right]. cbn in E. zbool. lia.
Qed.

Lemma fit_none size l : forall p, fit size p l = None -> Forall (no_fit size) l.
Proof.
  induction l as [|[n u] l IH]; intros p; cbn [fit]; [by constructor|]. destruct (negb u && (size <=? n)) eqn:E; [done|].
  destruct (fit size _ l) as [[r q']|] eqn:Ef; [done|]. intros _. constructor; [|by eapply IH]. unfold no_fit. cbn.
  destruct u; [by left|right]. cbn in E. zbool. lia.
Qed.

Lemma fit_late size l : forall p, Forall block_ok l -> span l < size + SIZEOF_STRUCT_MEM -> fit size p l = None.
Proof.
  induction l as [|[n u] l IH]; intros p Hok Hs; cbn [fit]; [done|]. apply Forall_cons in Hok as [[Hn _] Hok]. cbn [fst span] in *.
  pose proof (span_nonneg l Hok) as [H0 _]. consts. rewrite (proj2 (Z.leb_gt size n)) by lia. rewrite andb_false_r.
  rewrite IH by (done || lia). done.
Qed.

Lemma fit_skip size a : forall p r, forallb (fun x => x.2) a = true ->
  snd <$> fit size p (a ++ r) = snd <$> fit size (p + span a) r.
Proof.
  induction a as [|[n u] a IH]; intros p r; cbn [forallb app span snd]; [by rewrite Z.add_0_r|]. destruct u; [|done]. cbn [andb]. intros Ha.
  cbn [fit negb andb]. replace (p + (SIZEOF_STRUCT_MEM + n + span a)) with (p + SIZEOF_STRUCT_MEM + n + span a) by lia.
  rewrite <- IH by done. by destruct (fit size _ (a ++ r)) as [[? ?]|].
Qed.

Lemma first_free_split l : forall p, exists a r, l = a ++ r /\ forallb (fun x => x.2) a = true /\ first_free p l = p + span a.
Proof.
  induction l as [|[n u] l IH]; intros p; cbn [first_free]; [exists [], []; cbn; auto with lia|].
  destruct u; [|exists [], ((n, false) :: l); cbn; auto with lia].
  destruct (IH (p + SIZEOF_STRUCT_MEM + n)) as (a & r & -> & Ha & ->). exists ((n, true) :: a), r. cbn. split_and!; [done|done|lia].
Qed.

Section Scan.
Context (s : mheap) (e : Z).
Hypothesis Hend : used (hdr s MEM_SIZE_ALIGNED) = true.

Lemma search_spec size l : 0 < size < 2 ^ 16 -> forall fuel pp p, seg (hdr s) pp p l e -> Forall block_ok l -> p + span l = MEM_SIZE_ALIGNED ->
  0 <= p -> (length l < fuel)%nat -> search fuel s size p = Some (snd <$> fit size p l).
Proof.
  intros Hz. induction l as [|[n u] l IH]; intros [|fuel] pp p Hs Hok Hp Hp0 Hf; try (cbn in Hf; lia); cbn [search seg span] in *.
  - rewrite (proj2 (Z.ltb_ge p _)) by lia. done.
  - destruct Hs as [E1 E2]. pose proof Hok as [[Hn _] Hok']%Forall_cons. cbn [fst] in Hn. pose proof (span_nonneg l Hok') as [H0 _].
    destruct (Z.ltb_spec p (MEM_SIZE_ALIGNED - size)) as [Hl|Hl].
    + rewrite E1. cbn [used next fit]. replace (p + SIZEOF_STRUCT_MEM + n - (p + SIZEOF_STRUCT_MEM)) with n by lia.
      rewrite u32_small by (consts; lia). destruct (negb u && (size <=? n)); [done|]. rewrite (IH fuel p) by (done || (consts; lia) || (cbn in Hf; lia)).
      by destruct (fit size _ l) as [[? ?]|].
    + rewrite fit_late; [done|done|]. cbn [span]. consts. lia.
Qed.

Lemma next_free_spec l : forall fuel pp p, seg (hdr s) pp p l e -> Forall block_ok l -> p + span l = MEM_SIZE_ALIGNED ->
  (length l < fuel)%nat -> next_free fuel s p = Some (first_free p l).
Proof.
  induction l as [|[n u] l IH]; intros [|fuel] pp p Hs Hok Hp Hf; try (cbn in Hf; lia); cbn [next_free seg span first_free] in *.
  - rewrite (proj2 (Z.eqb_eq p _)) by lia. by rewrite andb_false_r.
  - destruct Hs as [E1 E2]. apply Forall_cons in Hok as [[Hn _] Hok']. cbn [fst] in Hn. pose proof (span_nonneg l Hok') as [H0 _].
    rewrite E1. cbn [used next]. rewrite (proj2 (Z.eqb_neq p _)) by (consts; lia). rewrite andb_true_r. destruct u; [|done].
    apply (IH fuel p); [done|done|lia|cbn in Hf; lia].
Qed.
End Scan.

Lemma fuel_enough l : Forall block_ok l -> span l <= MEM_SIZE_ALIGNED -> (length l < scan_fuel)%nat.
Proof. intros Hok Hs. pose proof (span_nonneg l Hok) as [_ H]. unfold scan_fuel, Zlen in *. consts. lia. Qed.

(** What an exchange of the blocks [c] at [p] by [c'] leaves. *)
Record exchanged (s s1 : mheap) (m p : Z) (c c' b : list block) : Prop := {
  x_low : forall x, 0 <= x < p -> hdr s1 x = hdr s x;
  x_end : hdr s1 MEM_SIZE_ALIGNED = hdr s MEM_SIZE_ALIGNED;
  x_seg : exists m', seg (hdr s1) m p c' m' /\ exists e, seg (hdr s1) m' (p + span c) b e;
  x_span : span c' = span c;
  x_ok : Forall block_ok c';
  x_stat : used_stat s1 = used_stat s - used_bytes c + used_bytes c' }.

Lemma exchange_tiles s s1 a m p c c' b L : tiles s (a ++ c ++ b) -> here s a m p (c ++ b) -> exchanged s s1 m p c c' b ->
  L = first_free 0 (a ++ c' ++ b) -> tiles (set_lfree s1 L) (a ++ c' ++ b).
Proof. intros Ht Hh [Hl He (m' & Hs & Hs') Hsp Hok Hst] ->. by apply (splice_blocks s _ a m p c c' m' b). Qed.

(** Two headers at [p] and [q] have been written; the block behind them is linked. *)
Lemma two_headers s s1 m p n1 n2 u1 u2 c b e y q : 0 <= p -> Forall block_ok b -> block_ok (n1, u1) -> block_ok (n2, u2) ->
  span c = SIZEOF_STRUCT_MEM + n1 + (SIZEOF_STRUCT_MEM + n2) -> p + span c + span b = MEM_SIZE_ALIGNED -> seg (hdr s) y (p + span c) b e ->
  q = p + SIZEOF_STRUCT_MEM + n1 ->
  (forall x, x <> p -> x <> q -> hdr s1 x = hdr s x) -> hdr s1 p = SMem q m u1 -> hdr s1 q = SMem (p + span c) p u2 ->
  let s2 := relink s1 (p + span c) q in
  (forall x, 0 <= x < p -> hdr s2 x = hdr s x) /\ hdr s2 MEM_SIZE_ALIGNED = hdr s MEM_SIZE_ALIGNED /\
  exists m', seg (hdr s2) m p [(n1, u1); (n2, u2)] m' /\ exists e', seg (hdr s2) m' (p + span c) b e'.
Proof.
  intros Hp Hb [H1 _] [H2 _] Hc Hr Hs Hq Ho Ep Eq s2. cbn [fst] in *. pose proof (span_nonneg b Hb) as [Hb0 _]. unfold s2. split_and!.
  - intros x Hx. rewrite relink_other by (consts; lia). apply Ho; consts; lia.
  - rewrite relink_end. apply Ho; consts; lia.
  - exists q. split.
    + cbn [seg]. rewrite <- Hq, !relink_other by (consts; lia). rewrite Ep, Eq. split; [done|]. split; [|done]. f_equal. lia.
    + apply (seg_relink s1 y q _ b e); [done|lia|]. apply (seg_frame (hdr s)); [done| |done]. intros x Hx. apply Ho; consts; lia.
Qed.

(** Updates of headers. *)
Ltac hdrs := unfold set_used, set_next, set_prev, set_hdr, set_stat, set_lfree; cbn [hdr lfree used_stat];
  repeat first [rewrite fn_lookup_insert | rewrite fn_lookup_insert_ne by (consts; lia)]; cbn [next prev used].

Lemma carve_spec s a m p n b size : tiles s (a ++ [(n, false)] ++ b) -> here s a m p ([(n, false)] ++ b) ->
  MIN_SIZE_ALIGNED <= size <= n -> size mod 4 = 0 ->
  exists s1, carve s size p = Some s1 /\ exchanged s s1 m p [(n, false)] (cut size n) b /\ lfree s1 = lfree s.
Proof.
  intros Ht [Hpre Hp (e & E1 & E2) Hleft] Hz Hz4. pose proof Ht as [_ Hsp _ Hok _ Hst]. rewrite !Forall_app in Hok.
  destruct Hok as (Ha & [[Hn Hn4] _]%Forall_cons & Hb). cbn [fst app span] in *.
  pose proof (span_nonneg a Ha) as [Ha0 _]. pose proof (span_nonneg b Hb) as [Hb0 _]. rewrite !span_app in Hsp. cbn [span] in Hsp.
  pose proof (used_bytes_bound a Ha). pose proof (used_bytes_bound b Hb). rewrite !used_bytes_app in Hst. cbn [used_bytes] in Hst.
  unfold carve, cut. rewrite E1. cbn [next].
  replace (p + SIZEOF_STRUCT_MEM + n - (p + SIZEOF_STRUCT_MEM)) with n by lia. rewrite u32_small by (consts; lia).
  assert (p + span [(n, false)] = p + SIZEOF_STRUCT_MEM + n) as Esp by (cbn [span]; lia).
  destruct (Z.leb_spec (size + SIZEOF_STRUCT_MEM + MIN_SIZE_ALIGNED) n) as [Hc|Hc].
  - rewrite u16_small by (consts; lia). rewrite (proj2 (Z.eqb_neq _ MEM_SIZE_ALIGNED)) by (consts; lia).
    set (q := p + SIZEOF_STRUCT_MEM + size). assert (q = p + SIZEOF_STRUCT_MEM + size) as Hq by done. clearbody q. eexists. split; [done|].
    set (s1 := set_used _ _ _). assert (hdr s1 q = SMem (p + SIZEOF_STRUCT_MEM + n) p false) as Eq by (unfold s1; hdrs; done).
    rewrite Eq. cbn [next].
    destruct (two_headers s s1 m p size (n - size - SIZEOF_STRUCT_MEM) true false [(n, false)] b e p q) as (H1 & H2 & H3); rewrite ?Esp; try done; try (cbn [span]; lia).
    { split; cbn; [lia|consts; lia]. } { split; cbn; consts; [lia|dlia]. } { intros x Hx Hx'. unfold s1. hdrs. done. }
    { unfold s1. hdrs. by rewrite E1. }
    rewrite Esp in H1, H2, H3. split; [|exact (proj1 (relink_lfree _ _ _))]. constructor; try done.
    + rewrite Esp. exact H3.
    + cbn [span]. lia.
    + repeat constructor; cbn; consts; lia || dlia.
    + cbn [used_stat set_stat]. rewrite (proj2 (relink_lfree _ _ _)). unfold s1. hdrs. cbn [used_bytes]. rewrite u16_small by (consts; lia). lia.
  - eexists. split; [done|]. split; [|done].
    assert (hdr (set_used s p true) p = SMem (p + SIZEOF_STRUCT_MEM + n) m true) as Ep by (hdrs; by rewrite E1).
    constructor; try done; cbn [hdr set_stat].
    + intros x Hx. hdrs. done.
    + hdrs. done.
    + exists p. split; [cbn [seg]; by rewrite Ep|]. exists e. rewrite Esp. apply (seg_frame (hdr s)); [done| |done].
      intros x Hx. hdrs. done.
    + repeat constructor; cbn; consts; lia.
    + rewrite Ep. hdrs. cbn [used_bytes]. rewrite u16_small by (consts; lia). lia.
Qed.

Lemma set_lfree_id s : set_lfree s (lfree s) = s.
Proof. by destruct s. Qed.

Lemma cut_facts size n b : size <= n -> head_used (cut size n ++ b) = true /\ (coalesced b -> head_used b = true -> coalesced (cut size n ++ b)).
Proof.
  intros Hn. unfold cut. destruct (_ <=? _); (split; [done|]); intros Hb Hu; rewrite coalesced_app; cbn; auto.
Qed.

(** The lowest free block after an allocation at [span a]. *)
Lemma adjust_lfree s s1 a m n b size : tiles s (a ++ [(n, false)] ++ b) -> here s a m (span a) ([(n, false)] ++ b) ->
  exchanged s s1 m (span a) [(n, false)] (cut size n) b -> lfree s1 = lfree s ->
  (if span a =? lfree s1 then
     cur ← next_free scan_fuel s1 (lfree s1);
     if (cur =? MEM_SIZE_ALIGNED) || negb (used (hdr s1 cur)) then Some (set_lfree s1 cur) else None
   else Some s1) = Some (set_lfree s1 (first_free 0 (a ++ cut size n ++ b))).
Proof.
  intros Ht Hh Hx Hl. pose proof (exchange_tiles s s1 a m _ _ _ b _ Ht Hh Hx eq_refl) as Ht1. pose proof Ht1 as [_ Hsp1 Hend Hok1 _ _].
  destruct (tiles_here _ a _ Ht1) as (m1 & [_ _ (e1 & Hs1) Hl1]). cbn [hdr set_lfree] in *. rewrite Forall_app in Hok1. destruct Hok1 as [Ha Hc].
  pose proof (span_nonneg a Ha) as [Ha0 _]. rewrite Hl, (r_lfree _ _ Ht), !(first_free_app a). destruct (forallb _ a) eqn:E.
  - rewrite Z.add_0_l. cbn [app first_free]. rewrite Z.eqb_refl.
    rewrite (next_free_spec s1 e1 (cut size n ++ b) scan_fuel m1) by (done || apply fuel_enough; done || lia). cbn [mbind option_bind].
    destruct (Z.eqb_spec (first_free (span a) (cut size n ++ b)) MEM_SIZE_ALIGNED) as [|Hne]; [done|].
    destruct (first_free_split (cut size n ++ b) (span a)) as (x & r & Ex & Hx' & Ef). rewrite Ef in *.
    rewrite Ex in Hs1, Hl1. apply blocks_app in Hs1 as (y & _ & Hr). rewrite span_app in Hl1. destruct r as [|[k u] r]; [cbn in Hl1; lia|].
    destruct Hr as [-> _]. destruct u; [|done]. exfalso.
    rewrite Ex, first_free_app, Hx' in Ef. cbn [first_free] in Ef. rewrite Ex, Forall_app in Hc. destruct Hc as [_ [[Hk _] Hr]%Forall_cons]. cbn in Hk.
    pose proof (first_free_bounds r (span a + span x + SIZEOF_STRUCT_MEM + k) Hr). consts. lia.
  - pose proof (first_free_before a 0 Ha E) as Hlt. rewrite (proj2 (Z.eqb_neq _ _)) by lia.
    rewrite <- (set_lfree_id s1) at 1. by rewrite Hl, (r_lfree _ _ Ht), (first_free_app a), E.
Qed.

Lemma mem_malloc_rep s l size_in : rep s l -> 0 <= size_in < 2 ^ 16 ->
  if (size_in =? 0) || (MEM_SIZE_ALIGNED <? size_in) then mem_malloc s size_in = Some (s, None)
  else
    let size := request size_in in
    size_in <= size <= Z.max MIN_SIZE_ALIGNED (size_in + 3) /\
    match fit size 0 l with
    | None => mem_malloc s size_in = Some (s, None)
    | Some (l', p) => exists s', mem_malloc s size_in = Some (s', Some (p + SIZEOF_STRUCT_MEM)) /\ rep s' l'
    end.
Proof.
  intros [Ht Hc] Hz. pose proof (request_spec size_in Hz) as Hreq. unfold mem_malloc.
  destruct (Z.eqb_spec size_in 0) as [->|Hz0]; [done|]. cbn [orb].
  destruct ((MEM_SIZE_ALIGNED <? request size_in) || (request size_in <? size_in)).
  { by rewrite (proj2 (Z.ltb_lt MEM_SIZE_ALIGNED size_in)). }
  destruct Hreq as (H1 & H2 & H3 & H4). rewrite (proj2 (Z.ltb_ge MEM_SIZE_ALIGNED size_in)) by lia. split; [lia|].
  set (size := request size_in) in *. pose proof Ht as [[e He] Hsp Hend Hok Hlf _].
  assert (search scan_fuel s size (lfree s) = Some (snd <$> fit size 0 l)) as ->.
  { destruct (first_free_split l 0) as (a & r & -> & Ha & Ef). rewrite Hlf, Ef, fit_skip by done. apply blocks_app in He as (m & _ & Hr).
    rewrite Forall_app in Hok. destruct Hok as [Hoka Hokr]. rewrite span_app in Hsp. pose proof (span_nonneg a Hoka) as [Ha0 _].
    apply (search_spec s e) with (pp := m); [consts; lia|done|done|lia|lia|]. apply fuel_enough; [done|lia]. }
  cbn [mbind option_bind]. destruct (fit size 0 l) as [[l' p]|] eqn:Efit; [|done]. cbn [fmap option_fmap option_map snd].
  destruct (fit_some _ _ _ _ _ Efit) as (a & n & b & -> & -> & Hn & -> & _). rewrite Z.add_0_l.
  destruct (tiles_here s a _ Ht) as (m & Hh). destruct (carve_spec s a m (span a) n b size Ht Hh) as (s1 & -> & Hx & Hl1); [lia|done|].
  cbn [mbind option_bind]. rewrite (adjust_lfree s s1 a m n b size Ht Hh Hx Hl1). cbn [mbind option_bind].
  rewrite !Forall_app in Hok. destruct Hok as (Hoka & _ & Hokb). pose proof (span_aligned a Hoka). pose proof (span_nonneg b Hokb).
  rewrite !span_app in Hsp. cbn [span] in Hsp.
  rewrite (proj2 (Z.leb_le _ MEM_SIZE_ALIGNED)), (proj2 (Z.eqb_eq _ 0)) by (consts; lia || dlia). cbn [andb]. eexists. split; [done|]. split.
  - by apply (exchange_tiles s s1 a m (span a) [(n, false)]).
  - apply coalesced_app in Hc as (Hca & Hcb & Hj). apply coalesced_app in Hcb as (_ & Hcb & Hj'). destruct Hj' as [|Hub]; [done|].
    destruct (cut_facts size n b Hn) as [F1 F2]. rewrite coalesced_app. auto.
Qed.

(** *** Trimming *)

(** The blocks after a block of [n] bytes, followed by [b], is cut to [size]; [None]: an assertion fails. *)
Definition trimmed (size n : Z) (b : list block) : option (list block) :=
  if size =? n then Some ((n, true) :: b)
  else match b with
  | (k, false) :: b => Some ((size, true) :: (n - size + k, false) :: b)
  | _ =>
      if size + SIZEOF_STRUCT_MEM + MIN_SIZE_ALIGNED <=? n then
        match b with [] => None | _ => Some ((size, true) :: (n - size - SIZEOF_STRUCT_MEM, false) :: b) end
      else Some ((n, true) :: b)
  end.

(** Both ways of cutting: a header at [q] in front of [b], and the lowest free block. *)
Lemma cut_here s s0 a m n size k c b e y q : tiles s (a ++ (n, true) :: c ++ b) -> here s a m (span a) ((n, true) :: c ++ b) ->
  MIN_SIZE_ALIGNED <= size -> size mod 4 = 0 -> size < n -> block_ok (k, false) ->
  SIZEOF_STRUCT_MEM + n + span c = SIZEOF_STRUCT_MEM + size + (SIZEOF_STRUCT_MEM + k) ->
  seg (hdr s) y (span a + (SIZEOF_STRUCT_MEM + n + span c)) b e -> used_bytes c = 0 ->
  q = span a + SIZEOF_STRUCT_MEM + size -> hdr s0 = hdr s -> used_stat s0 = used_stat s -> lfree s0 = first_free 0 (a ++ (size, true) :: (k, false) :: b) ->
  let s1 := set_hdr s0 q (SMem (span a + (SIZEOF_STRUCT_MEM + n + span c)) (span a) false) in
  let s2 := set_next s1 (span a) q in
  let s3 := relink s2 (next (hdr s2 q)) q in
  tiles (set_stat s3 (used_stat s3 - (n - size))) (a ++ (size, true) :: (k, false) :: b).
Proof.
  intros Ht Hh Hz Hz4 Hlt Hk Hsp Hb Hc Hq Eh Eu El s1 s2 s3. pose proof Ht as [_ Hspan _ Hok _ Hst]. pose proof Hh as [_ _ (e0 & E1 & _) Hleft].
  rewrite Forall_app in Hok. destruct Hok as [Ha [[Hn _] [Hokc Hokb]%Forall_app]%Forall_cons]. cbn [fst] in *.
  pose proof (span_nonneg a Ha) as [Ha0 _]. pose proof (span_nonneg b Hokb) as [Hb0 _]. pose proof (span_nonneg c Hokc) as [Hc0 _].
  rewrite span_app in Hspan. cbn [span] in Hspan, Hleft. rewrite span_app in Hspan, Hleft.
  rewrite used_bytes_app in Hst. cbn [used_bytes] in Hst. rewrite used_bytes_app in Hst.
  pose proof (used_bytes_bound a Ha). pose proof (used_bytes_bound b Hokb).
  assert (hdr s2 q = SMem (span a + (SIZEOF_STRUCT_MEM + n + span c)) (span a) false) as Eq by (unfold s2, s1; hdrs; done).
  destruct (two_headers s s2 m (span a) size k true false ((n, true) :: c) b e y q) as (H1 & H2 & m' & H3 & H4); try done; try (cbn [span]; lia).
  { intros x Hx Hx'. unfold s2, s1. hdrs. by rewrite Eh. }
  { unfold s2, s1. hdrs. by rewrite Eh, E1. }
  unfold s3. rewrite Eq. cbn [next]. cbn [span] in H1, H2, H3, H4.
  apply (splice_blocks s _ a m (span a) ((n, true) :: c) [(size, true); (k, false)] m' b).
  - done.
  - done.
  - exact H1.
  - exact H2.
  - exact H3.
  - exact H4.
  - cbn [span]. lia.
  - repeat constructor; try done; apply Hk.
  - change (lfree (relink s2 (span a + (SIZEOF_STRUCT_MEM + n + span c)) q) = first_free 0 (a ++ (size, true) :: (k, false) :: b)).
    rewrite (proj1 (relink_lfree _ _ _)). unfold s2, s1. hdrs. done.
  - cbn [used_stat set_stat]. rewrite (proj2 (relink_lfree _ _ _)). unfold s2, s1. hdrs. cbn [used_bytes]. rewrite Eu, Hc. rewrite u16_small by (consts; lia). lia.
Qed.

(** The lowest free block when a free one is moved down, or a new one made. *)
Lemma lowest_moved a n k size d b : Forall block_ok (a ++ (n, true) :: (k, false) :: b) -> MIN_SIZE_ALIGNED <= size ->
  (if first_free 0 (a ++ (n, true) :: (k, false) :: b) =? span a + SIZEOF_STRUCT_MEM + n then span a + SIZEOF_STRUCT_MEM + size
   else first_free 0 (a ++ (n, true) :: (k, false) :: b)) = first_free 0 (a ++ (size, true) :: (d, false) :: b).
Proof.
  rewrite Forall_app. intros [Ha [[Hn _] _]%Forall_cons] Hz. cbn in Hn. rewrite !(first_free_app a). destruct (forallb _ a) eqn:E.
  - cbn [first_free]. rewrite Z.add_0_l, Z.eqb_refl. done.
  - pose proof (first_free_before a 0 Ha E). rewrite (proj2 (Z.eqb_neq _ _)) by (consts; lia). done.
Qed.

Lemma lowest_new a n size d b : Forall block_ok (a ++ (n, true) :: b) -> MIN_SIZE_ALIGNED <= size < n ->
  (if span a + SIZEOF_STRUCT_MEM + size <? first_free 0 (a ++ (n, true) :: b) then span a + SIZEOF_STRUCT_MEM + size
   else first_free 0 (a ++ (n, true) :: b)) = first_free 0 (a ++ (size, true) :: (d, false) :: b).
Proof.
  rewrite Forall_app. intros [Ha [[Hn _] Hb]%Forall_cons] Hz. cbn in Hn. rewrite !(first_free_app a). destruct (forallb _ a) eqn:E.
  - cbn [first_free]. pose proof (first_free_bounds b (0 + span a + SIZEOF_STRUCT_MEM + n) Hb). rewrite (proj2 (Z.ltb_lt _ _)) by lia. lia.
  - pose proof (first_free_before a 0 Ha E). rewrite (proj2 (Z.ltb_ge _ _)) by (consts; lia). done.
Qed.

Lemma request_le x n : 0 <= x <= n -> block_ok (n, true) -> n <= MEM_SIZE_ALIGNED ->
  ((MEM_SIZE_ALIGNED <? request x) || (request x <? x)) = false /\ x <= request x /\ MIN_SIZE_ALIGNED <= request x <= n /\ request x mod 4 = 0.
Proof.
  intros Hx [Hn Hn4] Hm. cbn in *. pose proof (request_spec x) as Hr. consts. destruct (_ || _); [lia|].
  destruct Hr as (H1 & H2 & H3 & H4); [lia|]. split; [done|]. split; [lia|]. split; [|done]. split; [done|]. dlia.
Qed.

Lemma mem_trim_rep s a n b new_size : rep s (a ++ (n, true) :: b) -> 0 <= new_size <= n ->
  let r := mem_trim s (span a + SIZEOF_STRUCT_MEM) new_size in
  match trimmed (request new_size) n b with
  | None => r = None
  | Some c => exists s', r = Some (s', Some (span a + SIZEOF_STRUCT_MEM)) /\ rep s' (a ++ c)
  end.
Proof.
  intros Hrep Hz r. pose proof Hrep as [Ht Hc]. destruct (tiles_here s a _ Ht) as (m & Hh). pose proof Hh as [_ _ (e & E1 & E2) Hleft]. pose proof Ht as [_ Hsp Hend Hok Hlf Hst].
  pose proof Hok as Hok2. rewrite Forall_app in Hok2. destruct Hok2 as [Ha [Hn Hb]%Forall_cons]. pose proof Hn as [Hn0 Hn4]. cbn [fst span] in *.
  pose proof (span_nonneg a Ha) as [Ha0 _]. pose proof (span_nonneg b Hb) as [Hb0 _].
  destruct (request_le new_size n Hz Hn ltac:(consts; lia)) as (Hg & _ & Hz1 & Hz4). set (size := request new_size) in *.
  unfold r, mem_trim. fold size. rewrite Hg. rewrite (proj2 (Z.leb_le 0 _)), (proj2 (Z.ltb_lt _ MEM_SIZE_ALIGNED)) by (consts; lia). cbn [andb negb].
  replace (span a + SIZEOF_STRUCT_MEM - SIZEOF_STRUCT_MEM) with (span a) by lia. rewrite E1. cbn [next].
  replace (u16 (u16 (span a + SIZEOF_STRUCT_MEM + n - span a) - SIZEOF_STRUCT_MEM)) with n.
  2:{ rewrite (u16_small (span a + _ + n - span a)), u16_small by (consts; lia). lia. }
  rewrite (proj2 (Z.ltb_ge n size)) by lia. unfold trimmed. destruct (Z.eqb_spec size n) as [Hs|Hs]; [by exists s|].
  apply coalesced_app in Hc as (Hca & [_ Hcb] & Hj). rewrite u16_small by (consts; lia).
  assert (forall d b', head_used b' = true -> coalesced b' -> coalesced (a ++ (size, true) :: (d, false) :: b')) as Hco.
  { intros d b' Hu Hb'. rewrite coalesced_app. split; [done|]. split; [|by right]. cbn. destruct b' as [|[? ?] ?]; cbn in *; auto. }
  destruct b as [|[k v] b].
  - replace (span a + SIZEOF_STRUCT_MEM + n) with MEM_SIZE_ALIGNED by (cbn [span] in *; lia). rewrite Hend. cbn [used negb].
    destruct (size + SIZEOF_STRUCT_MEM + MIN_SIZE_ALIGNED <=? n); [|by exists s]. by rewrite ?Z.eqb_refl.
  - destruct E2 as [E2 E3]. rewrite E2. cbn [used next span] in *. pose proof Hb as [[Hk0 Hk4] Hb']%Forall_cons. cbn [fst] in *.
    pose proof (span_nonneg b Hb') as [Hb0' _].
    rewrite (proj2 (Z.eqb_neq _ MEM_SIZE_ALIGNED)) by (consts; lia). destruct v; cbn [negb].
    + destruct (Z.leb_spec (size + SIZEOF_STRUCT_MEM + MIN_SIZE_ALIGNED) n) as [Hl|Hl]; [|by exists s].
      set (s0 := if span a + SIZEOF_STRUCT_MEM + size <? lfree s then _ else s).
      assert (hdr s0 = hdr s /\ used_stat s0 = used_stat s) as [Eh Eu] by (unfold s0; destruct (span a + SIZEOF_STRUCT_MEM + size <? lfree s); split; reflexivity).
      rewrite Eh, E1. cbn [next]. eexists. split; [done|]. split; [|by apply Hco].
      replace (span a + SIZEOF_STRUCT_MEM + n) with (span a + (SIZEOF_STRUCT_MEM + n + span [])) by (cbn [span]; lia).
      apply (cut_here s _ a m n size (n - size - SIZEOF_STRUCT_MEM) [] ((k, true) :: b) e (span a)); try done; try (cbn [span]; lia); try lia.
      * split; cbn; consts; [lia|dlia].
      * replace (span a + (SIZEOF_STRUCT_MEM + n + span [])) with (span a + SIZEOF_STRUCT_MEM + n) by (cbn [span]; lia). by split.
      * rewrite <- (lowest_new a n) by (done || lia). rewrite <- Hlf. unfold s0. by destruct (span a + SIZEOF_STRUCT_MEM + size <? lfree s).
    + set (s0 := if lfree s =? span a + SIZEOF_STRUCT_MEM + n then _ else s).
      assert (hdr s0 = hdr s /\ used_stat s0 = used_stat s) as [Eh Eu] by (unfold s0; destruct (lfree s =? span a + SIZEOF_STRUCT_MEM + n); split; reflexivity).
      eexists. split; [done|]. split.
      * replace (span a + SIZEOF_STRUCT_MEM + n + SIZEOF_STRUCT_MEM + k) with (span a + (SIZEOF_STRUCT_MEM + n + span [(k, false)])) by (cbn [span]; lia).
        apply (cut_here s _ a m n size (n - size + k) [(k, false)] b e (span a + SIZEOF_STRUCT_MEM + n)); try done; try (cbn [span]; lia); try lia.
        -- split; cbn; consts; [lia|dlia].
        -- by replace (span a + (SIZEOF_STRUCT_MEM + n + span [(k, false)])) with (span a + SIZEOF_STRUCT_MEM + n + SIZEOF_STRUCT_MEM + k) by (cbn [span]; lia).
        -- rewrite <- (lowest_moved a n k) by (done || lia). rewrite <- Hlf. unfold s0. by destruct (lfree s =? span a + SIZEOF_STRUCT_MEM + n).
      * destruct Hcb as [Hkb Hcb]. apply Hco; [|done]. destruct b as [|[? ?] ?]; [done|]. cbn. by destruct Hkb.
Qed.

Lemma mem_init_rep h : rep (mem_init h) [(MEM_SIZE_ALIGNED - SIZEOF_STRUCT_MEM, false)].
Proof.
  split; [|done]. constructor; try done.
  - exists 0. cbn [seg]. unfold mem_init. hdrs. done.
  - repeat constructor; cbn; consts; lia.
Qed.

(** ** Users of the heap *)

(** The data areas in use, as pointers and sizes. *)
Fixpoint areas (p : Z) (l : list block) : list (Z * Z) :=
  match l with
  | [] => []
  | (n, u) :: l => (if u then [(p + SIZEOF_STRUCT_MEM, n)] else []) ++ areas (p + SIZEOF_STRUCT_MEM + n) l
  end.

Lemma areas_app a : forall p b, areas p (a ++ b) = areas p a ++ areas (p + span a) b.
Proof.
  induction a as [|[n u] a IH]; intros p b; cbn [app areas span]; [by rewrite Z.add_0_r|]. rewrite IH, <- app_assoc.
  by replace (p + (SIZEOF_STRUCT_MEM + n + span a)) with (p + SIZEOF_STRUCT_MEM + n + span a) by lia.
Qed.

Lemma areas_merge l : forall p, areas p (merge l) = areas p l.
Proof.
  induction l as [|[n [|]] l IH]; intros p; cbn [merge areas]; [done|by rewrite IH|]. rewrite <- IH.
  destruct (merge l) as [|[m [|]] r]; [done|done|]. cbn [areas app]. f_equal. lia.
Qed.

Lemma areas_split l : forall p q n, (q, n) ∈ areas p l -> exists a b, l = a ++ (n, true) :: b /\ q = p + span a + SIZEOF_STRUCT_MEM.
Proof.
  induction l as [|[k u] l IH]; intros p q n; cbn [areas]; [intros H; by apply elem_of_nil in H|].
  intros [H|H]%elem_of_app.
  - destruct u; [|by apply elem_of_nil in H]. apply list_elem_of_singleton in H as [= -> ->]. exists [], l. cbn [span app]. split; [done|lia].
  - destruct (IH _ _ _ H) as (a & b & -> & ->). exists ((k, u) :: a), b. cbn [span app]. split; [done|lia].
Qed.

(** Two areas are the same or have a header between them. *)
Lemma areas_apart l p q n r k : Forall block_ok l -> (q, n) ∈ areas p l -> (r, k) ∈ areas p l ->
  (q = r /\ n = k) \/ q + n + SIZEOF_STRUCT_MEM <= r \/ r + k + SIZEOF_STRUCT_MEM <= q.
Proof.
  revert p. induction l as [|[j u] l IH]; intros p Hok H1 H2; cbn [areas] in *; [by apply elem_of_nil in H1|].
  apply Forall_cons in Hok as [[Hj _] Hok]. cbn [fst] in *.
  assert (forall x y, (x, y) ∈ areas (p + SIZEOF_STRUCT_MEM + j) l -> p + SIZEOF_STRUCT_MEM + j + SIZEOF_STRUCT_MEM <= x) as Hb.
  { intros x y (a & b & -> & ->)%areas_split. rewrite Forall_app in Hok. destruct Hok as [Ha _]. pose proof (span_nonneg a Ha). lia. }
  apply elem_of_app in H1 as [H1|H1], H2 as [H2|H2].
  - destruct u; [|by apply elem_of_nil in H1]. apply list_elem_of_singleton in H1 as [= -> ->]. apply list_elem_of_singleton in H2 as [= -> ->]. by left.
  - destruct u; [|by apply elem_of_nil in H1]. apply list_elem_of_singleton in H1 as [= -> ->]. apply Hb in H2. right. left. lia.
  - destruct u; [|by apply elem_of_nil in H2]. apply list_elem_of_singleton in H2 as [= -> ->]. apply Hb in H1. right. right. lia.
  - by apply (IH (p + SIZEOF_STRUCT_MEM + j)).
Qed.

(** The allocations [lv], with the sizes that were asked for, are those of the heap. *)
Record live_ok (lv : list (Z * Z)) (l : list block) : Prop := {
  lv_ptrs : map fst lv ≡ₚ map fst (areas 0 l);
  lv_size : forall p n, (p, n) ∈ lv -> exists N, (p, N) ∈ areas 0 l /\ n <= N }.

Inductive mem_step : mheap * list (Z * Z) -> mheap * list (Z * Z) -> Prop :=
| m_malloc s lv n s' p : 0 <= n < 2 ^ 16 -> mem_malloc s n = Some (s', Some p) -> mem_step (s, lv) (s', (p, n) :: lv)
| m_free s a p n b s' : mem_free s (Some p) = Some s' -> mem_step (s, a ++ (p, n) :: b) (s', a ++ b)
| m_trim s a p n b k s' : 0 <= k <= n -> mem_trim s p k = Some (s', Some p) -> mem_step (s, a ++ (p, n) :: b) (s', a ++ (p, k) :: b)
| m_write s lv h : (forall x, (forall p n, (p, n) ∈ lv -> ~ (p - 4 <= x < p + n)) -> h x = hdr s x) ->
    mem_step (s, lv) (MHeap h (lfree s) (used_stat s), lv).

Lemma map_middle {A B} (f : A -> B) a x b : map f (a ++ x :: b) ≡ₚ f x :: map f (a ++ b).
Proof. rewrite !map_app. cbn [map]. symmetry. apply Permutation_middle. Qed.

Lemma live_remove a p n b l l1 l2 N : live_ok (a ++ (p, n) :: b) l -> areas 0 l = l1 ++ (p, N) :: l2 -> NoDup (map fst (areas 0 l)) ->
  map fst (a ++ b) ≡ₚ map fst (l1 ++ l2) /\ (forall q k, (q, k) ∈ a ++ b -> exists K, (q, K) ∈ l1 ++ l2 /\ k <= K) /\ n <= N.
Proof.
  intros [Hp Hs] El Hn. rewrite El in *. rewrite !map_middle in Hp. rewrite map_middle in Hn. apply Permutation_cons_inv in Hp.
  apply NoDup_cons in Hn as [Hn _]. change (p ∉ map fst (l1 ++ l2)) in Hn.
  assert (forall q k, (q, k) ∈ a ++ b \/ (q, k) ∈ l1 ++ l2 -> q <> p) as Hne.
  { intros q k Hq ->. apply Hn. destruct Hq as [Hq|Hq]; [rewrite <- Hp|]; apply (list_elem_of_fmap_2 fst) in Hq; exact Hq. }
  split; [done|]. split.
  - intros q k Hq. destruct (Hs q k) as (K & HK & Hle); [rewrite <- Permutation_middle; by right|]. exists K. split; [|done].
    rewrite <- Permutation_middle in HK. apply elem_of_cons in HK as [[= -> ->]|HK]; [|done]. exfalso. by eapply Hne; [by left|].
  - destruct (Hs p n) as (K & HK & Hle); [rewrite <- Permutation_middle; by left|]. rewrite <- Permutation_middle in HK.
    apply elem_of_cons in HK as [[= ->]|HK]; [done|]. exfalso. by eapply Hne; [by right|].
Qed.

Lemma areas_nodup l p : Forall block_ok l -> NoDup (map fst (areas p l)).
Proof.
  revert p. induction l as [|[n u] l IH]; intros p Hok; cbn [areas]; [constructor|]. apply Forall_cons in Hok as [[Hn _] Hok]. cbn in Hn.
  rewrite map_app. destruct u; [|by apply IH]. cbn [map app fst]. apply NoDup_cons. split; [|by apply IH].
  intros ((q & k) & Hq & Hk)%list_elem_of_fmap. apply areas_split in Hk as (a & b & -> & ->). rewrite Forall_app in Hok. destruct Hok as [Ha _].
  pose proof (span_nonneg a Ha). cbn in Hq. consts. lia.
Qed.

(** A live pointer is that of a used block. *)
Lemma live_block s l a p n b : rep s l -> live_ok (a ++ (p, n) :: b) l ->
  exists c N d, l = c ++ (N, true) :: d /\ p = span c + SIZEOF_STRUCT_MEM /\ n <= N /\
    areas 0 l = areas 0 c ++ (p, N) :: areas (span c + SIZEOF_STRUCT_MEM + N) d.
Proof.
  intros Hr [_ Hs]. destruct (Hs p n) as (N & HN & Hle); [rewrite <- Permutation_middle; by left|].
  apply areas_split in HN as (c & d & -> & Hp). rewrite Z.add_0_l in Hp. exists c, N, d. split_and!; try done.
  rewrite areas_app. cbn [areas app]. rewrite Z.add_0_l. by rewrite <- Hp.
Qed.

Lemma live_malloc s l lv n s' p : rep s l -> live_ok lv l -> 0 <= n < 2 ^ 16 -> mem_malloc s n = Some (s', Some p) ->
  exists l', rep s' l' /\ live_ok ((p, n) :: lv) l'.
Proof.
  intros Hr Hl Hn E. pose proof (mem_malloc_rep s l n Hr Hn) as Hm. destruct (_ || _); [congruence|]. destruct Hm as [Hz Hm].
  destruct (fit (request n) 0 l) as [[l' q]|] eqn:Ef; [|congruence]. destruct Hm as (s2 & E2 & Hr'). simplify_eq. exists l'. split; [done|].
  destruct (fit_some _ _ _ _ _ Ef) as (a & k & b & -> & -> & Hk & -> & _).
  set (N := if request n + SIZEOF_STRUCT_MEM + MIN_SIZE_ALIGNED <=? k then request n else k).
  assert (areas 0 (a ++ cut (request n) k ++ b) = areas 0 a ++ (0 + span a + SIZEOF_STRUCT_MEM, N) :: areas (span a + SIZEOF_STRUCT_MEM + k) b) as Ea.
  { rewrite areas_app. f_equal. unfold cut, N. destruct (_ <=? k); cbn [app areas]; f_equal; f_equal; lia. }
  assert (areas 0 (a ++ [(k, false)] ++ b) = areas 0 a ++ areas (span a + SIZEOF_STRUCT_MEM + k) b) as Eo.
  { rewrite areas_app. f_equal. }
  destruct Hl as [Hp Hs]. rewrite Eo in *. constructor; rewrite Ea.
  - rewrite map_app in *. cbn [map fst]. rewrite <- Permutation_middle. by constructor.
  - intros q j [[= -> ->]|Hq]%elem_of_cons.
    + exists N. split; [apply elem_of_app; right; by left|]. unfold N. destruct (_ <=? k); lia.
    + destruct (Hs q j Hq) as (K & HK & Hle). exists K. split; [|done]. rewrite <- Permutation_middle. by right.
Qed.

Lemma trimmed_areas size k N d x p : trimmed size N d = Some x -> k <= size <= N ->
  exists M, k <= M /\ areas p x = (p + SIZEOF_STRUCT_MEM, M) :: areas (p + SIZEOF_STRUCT_MEM + N) d.
Proof.
  intros Et Hk. unfold trimmed in Et. destruct (Z.eqb_spec size N) as [<-|]; [injection Et as <-; exists size; split; [lia|done]|].
  destruct d as [|[j [|]] d].
  - destruct (_ <=? N); [done|]. injection Et as <-. exists N. split; [lia|done].
  - destruct (_ <=? N); injection Et as <-; [|exists N; split; [lia|done]]. exists size. split; [lia|]. cbn [areas app].
    replace (p + SIZEOF_STRUCT_MEM + size + SIZEOF_STRUCT_MEM + (N - size - SIZEOF_STRUCT_MEM)) with (p + SIZEOF_STRUCT_MEM + N) by lia. done.
  - injection Et as <-. exists size. split; [lia|]. cbn [areas app]. do 2 f_equal. lia.
Qed.

(** A block of the heap is smaller than the heap. *)
Lemma rep_block s c N u d : rep s (c ++ (N, u) :: d) -> block_ok (N, u) /\ 0 <= span c /\ 0 <= span d /\ span c + SIZEOF_STRUCT_MEM + N + span d = MEM_SIZE_ALIGNED.
Proof.
  intros [Ht _]. pose proof (r_ok _ _ Ht) as Hok. rewrite Forall_app in Hok. destruct Hok as [Hc [HN Hd]%Forall_cons].
  pose proof (r_span _ _ Ht) as Hsp. rewrite span_app in Hsp. cbn [span] in Hsp. pose proof (span_nonneg c Hc). pose proof (span_nonneg d Hd). split; [done|]. lia.
Qed.

Lemma live_trim s l a p n b k s' : rep s l -> live_ok (a ++ (p, n) :: b) l -> 0 <= k <= n -> mem_trim s p k = Some (s', Some p) ->
  exists l', rep s' l' /\ live_ok (a ++ (p, k) :: b) l'.
Proof.
  intros Hr Hl Hk E. pose proof (areas_nodup l 0 (r_ok _ _ (proj1 Hr))) as Hn.
  destruct (live_block s l a p n b Hr Hl) as (c & N & d & -> & -> & HN & Ea). destruct (live_remove _ _ _ _ _ _ _ _ Hl Ea Hn) as (H1 & H2 & _).
  pose proof (mem_trim_rep s c N d k Hr ltac:(lia)) as Ht. cbn zeta in Ht. destruct (rep_block s c N true d Hr) as (Hok & Hc0 & Hd0 & Hsp).
  destruct (request_le k N ltac:(lia) Hok ltac:(consts; lia)) as (_ & Hge & Hle & _).
  destruct (trimmed (request k) N d) as [x|] eqn:Et; [|congruence]. destruct Ht as (s2 & E2 & Hr2). simplify_eq.
  destruct (trimmed_areas (request k) k N d x (span c) Et) as (M & HM & Ex); [lia|].
  exists (c ++ x). split; [done|]. constructor; rewrite areas_app, Z.add_0_l, Ex.
  - rewrite !map_middle. by constructor.
  - intros q j Hq. rewrite <- Permutation_middle in Hq. apply elem_of_cons in Hq as [[= -> ->]|Hq].
    + exists M. split; [|done]. rewrite <- Permutation_middle. by left.
    + destruct (H2 q j Hq) as (K & HK & Hle'). exists K. split; [|done]. rewrite <- Permutation_middle. by right.
Qed.

Lemma live_free s l a p n b s' : rep s l -> live_ok (a ++ (p, n) :: b) l -> mem_free s (Some p) = Some s' ->
  exists l', rep s' l' /\ live_ok (a ++ b) l'.
Proof.
  intros Hr Hl E. pose proof (areas_nodup l 0 (r_ok _ _ (proj1 Hr))) as Hn.
  destruct (live_block s l a p n b Hr Hl) as (c & N & d & -> & -> & _ & Ea). destruct (mem_free_rep s c N d Hr) as (s2 & E2 & Hr2).
  simplify_eq. exists (merge (c ++ (N, false) :: d)). split; [done|]. destruct (live_remove _ _ _ _ _ _ _ _ Hl Ea Hn) as (H1 & H2 & _).
  assert (areas 0 (merge (c ++ (N, false) :: d)) = areas 0 c ++ areas (span c + SIZEOF_STRUCT_MEM + N) d) as Eo by (rewrite areas_merge, areas_app; done).
  constructor; rewrite Eo; done.
Qed.

Lemma seg_starts h h' l : forall pp p e, (forall a x b, l = a ++ x :: b -> h' (p + span a) = h (p + span a)) -> seg h pp p l e -> seg h' pp p l e.
Proof.
  induction l as [|[n u] l IH]; intros pp p e Hx; cbn [seg]; [done|]. intros [H1 H2]. split.
  - specialize (Hx [] (n, u) l eq_refl). cbn [span] in Hx. rewrite Z.add_0_r in Hx. by rewrite Hx.
  - apply IH; [|done]. intros a x b ->. specialize (Hx ((n, u) :: a) x b eq_refl). cbn [span] in Hx.
    by replace (p + (SIZEOF_STRUCT_MEM + n + span a)) with (p + SIZEOF_STRUCT_MEM + n + span a) in Hx by lia.
Qed.

(** The start of a block, and the end of the heap, are not in an area. *)
Lemma start_outside a r q N : Forall block_ok (a ++ r) -> (q, N) ∈ areas 0 (a ++ r) -> ~ (q - 4 <= span a < q + N).
Proof.
  rewrite Forall_app, areas_app, Z.add_0_l. intros [Ha Hr] [H|H]%elem_of_app; apply areas_split in H as (c & d & -> & ->).
  - rewrite span_app. cbn [span]. rewrite Forall_app in Ha. destruct Ha as [_ [_ Hd]%Forall_cons]. pose proof (span_nonneg d Hd). consts. lia.
  - rewrite Forall_app in Hr. destruct Hr as [Hc _]. pose proof (span_nonneg c Hc). consts. lia.
Qed.

Lemma live_write s lv h l : rep s l -> live_ok lv l -> (forall x, (forall p n, (p, n) ∈ lv -> ~ (p - 4 <= x < p + n)) -> h x = hdr s x) ->
  rep (MHeap h (lfree s) (used_stat s)) l.
Proof.
  intros [Ht Hc] [_ Hs] Hh. split; [|done]. pose proof Ht as [[e He] Hsp Hend Hok Hlf Hst].
  assert (forall a r, l = a ++ r -> h (span a) = hdr s (span a)) as Hx.
  { intros a r ->. apply Hh. intros p n Hp. destruct (Hs p n Hp) as (N & HN & Hle). pose proof (start_outside a r p N Hok HN). lia. }
  constructor; try done.
  - exists e. apply (seg_starts (hdr s)); [|done]. intros a x b E. rewrite Z.add_0_l. by apply (Hx a (x :: b)).
  - cbn [hdr]. specialize (Hx l [] (eq_sym (app_nil_r l))). rewrite Hsp in Hx. by rewrite Hx.
Qed.

Lemma mem_step_inv s lv s' lv' l : mem_step (s, lv) (s', lv') -> rep s l -> live_ok lv l -> exists l', rep s' l' /\ live_ok lv' l'.
Proof.
  intros Hst Hr Hl. inversion Hst as [? ? n ? p Hz E|? a p n b ? E|? a p n b k ? Hk E|? ? h Hh]; subst.
  - by eapply live_malloc.
  - by eapply live_free.
  - by eapply live_trim.
  - exists l. split; [by eapply live_write|done].
Qed.

Lemma mem_reachable h s lv : rtc mem_step (mem_init h, []) (s, lv) -> exists l, rep s l /\ live_ok lv l.
Proof.
  intros Hr. remember (mem_init h, []) as c0 eqn:E0. remember (s, lv) as c eqn:E.
  assert (exists l, rep c0.1 l /\ live_ok c0.2 l) as Hi.
  { subst c0. eexists. split; [apply mem_init_rep|]. constructor; [done|]. intros p n H. by apply elem_of_nil in H. }
  clear E0. revert E. induction Hr as [c|[s1 l1] [s2 l2] c Hst _ IH]; intros ->; [done|]. apply IH; [|done]. cbn.
  destruct Hi as (l & H1 & H2). by eapply mem_step_inv.
Qed.

(** A heap without a used block is one free block. *)
Lemma all_free l : coalesced l -> areas 0 l = [] -> span l = MEM_SIZE_ALIGNED -> l = [(MEM_SIZE_ALIGNED - SIZEOF_STRUCT_MEM, false)].
Proof.
  destruct l as [|[n u] l]; cbn [areas span coalesced]; [done|]. intros [H1 _] Ha Hs. destruct u; [done|].
  destruct l as [|[m v] l]; [cbn [span] in Hs; do 2 f_equal; lia|]. cbn [areas] in Ha. destruct v; [done|by destruct H1].
Qed.

(** C26: The heap is safe for its users.  After any sequence of allocations, releases and shrinkings, and of
    writes of the users to the bytes they were given, every area in use is aligned, inside the heap and
    apart from all others by at least a header, however large the requests and whatever the bytes of the heap were; every release
    of an area in use and every request, up to the largest 16-bit size, passes all assertions; and when
    everything has been released, nothing is counted as used and the whole heap is available again. *)
Theorem mem_heap_safe (h : Z -> smem) (s : mheap) (lv : list (Z * Z)) (Hr : rtc mem_step (mem_init h, []) (s, lv)) :
  (forall p n, (p, n) ∈ lv -> SIZEOF_STRUCT_MEM <= p /\ p mod MEM_ALIGNMENT = 0 /\ p + n <= MEM_SIZE_ALIGNED) /\
  (forall a p n b q k c, lv = a ++ (p, n) :: b ++ (q, k) :: c -> p + n + SIZEOF_STRUCT_MEM <= q \/ q + k + SIZEOF_STRUCT_MEM <= p) /\
  (forall p n, (p, n) ∈ lv -> is_Some (mem_free s (Some p))) /\
  (forall n, 0 <= n < 2 ^ 16 -> exists s' r, mem_malloc s n = Some (s', r) /\
     (lv = [] -> (r = None <-> n = 0 \/ MEM_SIZE_ALIGNED - SIZEOF_STRUCT_MEM < n))) /\
  (lv = [] -> used_stat s = 0).
Proof.
  destruct (mem_reachable h s lv Hr) as (l & Hrep & Hl). pose proof Hrep as [Ht Hc]. pose proof Ht as [_ Hsp _ Hok _ Hst].
  assert (lv = [] -> l = [(MEM_SIZE_ALIGNED - SIZEOF_STRUCT_MEM, false)]) as Hfree.
  { intros ->. apply all_free; [done| |done]. pose proof (lv_ptrs _ _ Hl) as Hp. cbn in Hp. apply Permutation_nil in Hp. by apply map_eq_nil in Hp. }
  split_and!.
  - intros p n (a & b & ->)%list_elem_of_split. destruct (live_block s l a p n b Hrep Hl) as (c & N & d & -> & -> & HN & _).
    destruct (rep_block s c N true d Hrep) as (_ & Hc0 & Hd0 & Hs). rewrite Forall_app in Hok. pose proof (span_aligned c (proj1 Hok)). consts. split_and!; [lia|dlia|lia].
  - intros a p n b q k c ->. destruct (lv_size _ _ Hl p n) as (N & HN & Hle); [apply elem_of_app; right; by left|].
    destruct (lv_size _ _ Hl q k) as (K & HK & Hle'); [apply elem_of_app; right; right; apply elem_of_app; right; by left|].
    destruct (areas_apart l 0 p N q K Hok HN HK) as [[-> _]|]; [|lia]. exfalso.
    pose proof (areas_nodup l 0 Hok) as Hn. rewrite <- (lv_ptrs _ _ Hl), map_middle in Hn. apply NoDup_cons in Hn as [Hn _]. apply Hn.
    rewrite app_assoc, map_middle. by left.
  - intros p n (a & b & ->)%list_elem_of_split. destruct (live_block s l a p n b Hrep Hl) as (c & N & d & -> & -> & HN & _).
    destruct (mem_free_rep s c N d Hrep) as (s' & -> & _). by eexists.
  - intros n Hn. pose proof (mem_malloc_rep s l n Hrep Hn) as Hm. destruct (Z.eqb_spec n 0) as [->|Hn0]; [exists s, None; split; [done|naive_solver]|].
    destruct (Z.ltb_spec MEM_SIZE_ALIGNED n) as [Hlt|Hge]; cbn [orb] in Hm.
    { exists s, None. split; [done|]. intros _. split; [|done]. intros _. right. consts. lia. }
    destruct Hm as [Hq Hm]. assert (lv = [] -> (fit (request n) 0 l = None <-> MEM_SIZE_ALIGNED - SIZEOF_STRUCT_MEM < n)) as Hf.
    { intros ->. rewrite (Hfree eq_refl). pose proof (request_spec n Hn) as Hrs. cbn [fit negb andb]. destruct (Z.leb_spec (request n) (MEM_SIZE_ALIGNED - SIZEOF_STRUCT_MEM)) as [Hr1|Hr1].
      - split; [done|lia].
      - cbn. split; [intros _|done]. destruct (_ || _); [consts; lia|]. consts. dlia. }
    destruct (fit (request n) 0 l) as [[l' p]|].
    + destruct Hm as (s' & E & _). exists s', (Some (p + SIZEOF_STRUCT_MEM)). split; [done|]. intros Hlv. split; [done|]. intros [?|H]; [done|]. by apply (Hf Hlv) in H.
    + exists s, None. split; [done|]. intros Hlv. split; [|done]. intros _. right. by apply (Hf Hlv).
  - intros Hlv. rewrite Hst, (Hfree Hlv). done.
Qed.

(** C18: The heap implements a list of blocks.  In every reachable state there is a list of blocks that tile
    the heap, no two neighbours free; a request takes the first free block that is big enough, cuts it when the
    rest can hold a block, and returns NULL exactly when there is none; a release merges the block with its
    free neighbours; shrinking gives the rest to the next block or makes a block of it - except that
    an assertion stops the system when the block is the last of the heap and the rest can hold a block. *)
Theorem mem_refines (h : Z -> smem) (s : mheap) (lv : list (Z * Z)) (Hr : rtc mem_step (mem_init h, []) (s, lv)) :
  exists l, rep s l /\
    (forall n, 0 < n <= MEM_SIZE_ALIGNED ->
       match fit (request n) 0 l with
       | None => mem_malloc s n = Some (s, None) /\ Forall (no_fit (request n)) l
       | Some (l', p) => exists s', mem_malloc s n = Some (s', Some (p + SIZEOF_STRUCT_MEM)) /\ rep s' l'
       end) /\
    (forall a n b, l = a ++ (n, true) :: b ->
       (exists s', mem_free s (Some (span a + SIZEOF_STRUCT_MEM)) = Some s' /\ rep s' (merge (a ++ (n, false) :: b))) /\
       (forall k, 0 <= k <= n ->
          match trimmed (request k) n b with
          | None => mem_trim s (span a + SIZEOF_STRUCT_MEM) k = None
          | Some c => exists s', mem_trim s (span a + SIZEOF_STRUCT_MEM) k = Some (s', Some (span a + SIZEOF_STRUCT_MEM)) /\ rep s' (a ++ c)
          end)).
Proof.
  destruct (mem_reachable h s lv Hr) as (l & Hrep & _). exists l. split; [done|]. split.
  - intros n Hn. pose proof (mem_malloc_rep s l n Hrep ltac:(consts; lia)) as Hm. rewrite (proj2 (Z.eqb_neq n 0)), (proj2 (Z.ltb_ge MEM_SIZE_ALIGNED n)) in Hm by lia.
    cbn [orb] in Hm. destruct Hm as [_ Hm]. destruct (fit (request n) 0 l) as [[l' p]|] eqn:E; [done|]. split; [done|]. by eapply fit_none.
  - intros a n b ->. split; [by apply mem_free_rep|]. intros k Hk. by apply mem_trim_rep.
Qed.

(** The whole heap in one block, then a part of it given back: the assertion of [mem_trim]. *)
Definition demo_h0 : Z -> smem := fun _ => SMem 7 7 true.
Definition demo_s1 : mheap := default (mem_init demo_h0) (fst <$> mem_malloc (mem_init demo_h0) 1592).

Lemma demo_reach : rtc mem_step (mem_init demo_h0, []) (demo_s1, [(8, 1592)]).
Proof.
  apply rtc_once, m_malloc; [lia|]. unfold demo_s1. destruct (mem_malloc (mem_init demo_h0) 1592) as [[s r]|] eqn:E.
  - cbn. do 2 f_equal. assert (snd <$> mem_malloc (mem_init demo_h0) 1592 = Some (Some 8)) as H by (vm_compute; reflexivity). rewrite E in H. by injection H.
  - exfalso. assert (snd <$> mem_malloc (mem_init demo_h0) 1592 = Some (Some 8)) as H by (vm_compute; reflexivity). by rewrite E in H.
Qed.

Example trim_halts : mem_trim demo_s1 8 100 = None.
Proof. vm_compute. reflexivity. Qed.

Lemma mem_heap_safe_witness : is_Some (mem_free demo_s1 (Some 8)).
Proof. refine (proj1 (proj2 (proj2 (mem_heap_safe demo_h0 demo_s1 [(8, 1592)] demo_reach))) 8 1592 _). by left. Defined.

Lemma mem_refines_witness : exists l, rep demo_s1 l.
Proof. destruct (mem_refines demo_h0 demo_s1 [(8, 1592)] demo_reach) as (l & H & _). by exists l. Defined.
