(* ===== verification/Chksum.v ===== *)
(** * Chksum: the Internet checksum of lwIP (ext/ChibiOS_21.11.3/ext/lwip/src/core/inet_chksum.c)

    The target is little-endian, and the configuration uses the second algorithm, which sums 16-bit words
    from even addresses on.  A buffer is the parity of its address and its bytes, a chain of
    packet buffers is a list of them.  The reference is the sum of RFC 1071: additions with
    end-around carry over the 16-bit words of the data, padded with a zero byte. *)

From S2P Require Import Prelude.

(** u32_t of the two halves added *)
Definition FOLD_U32T (u : Z) : Z := u32 (Z.shiftr u 16 + Z.land u 0xffff).
Definition SWAP_BYTES_IN_WORD (w : Z) : Z := Z.lor (Z.shiftl (Z.land w 0xff) 8) (Z.shiftr (Z.land w 0xff00) 8).
Definition lwip_htons (n : Z) : Z := u16 (Z.lor (Z.shiftl (Z.land n 0xff) 8) (Z.shiftr (Z.land n 0xff00) 8)).

(** while (len > 1) sum += *ps++ *)
Fixpoint word_loop (sum : Z) (ps : list Z) : Z * list Z :=
  match ps with
  | b0 :: b1 :: ps => word_loop (u32 (sum + (b0 + 256 * b1))) ps
  | _ => (sum, ps)
  end.

(** [odd]: the parity of the address. *)
Definition lwip_standard_chksum (odd : bool) (data : list Z) : Z :=
  let '(t, pb) := match odd, data with true, b :: pb => (256 * b, pb) | _, _ => (0, data) end in
  let '(sum, ps) := word_loop 0 pb in
  let t := match ps with b :: _ => Z.lor (Z.land t 0xff00) b | [] => t end in
  let sum := u32 (sum + t) in
  let sum := FOLD_U32T sum in
  let sum := FOLD_U32T sum in
  let sum := if odd then SWAP_BYTES_IN_WORD sum else sum in
  u16 sum.

Definition inet_chksum (odd : bool) (data : list Z) : Z := u16 (Z.lnot (lwip_standard_chksum odd data)).

(** A packet buffer: the parity of its payload's address, and the payload. *)
Abbreviation seg := (bool * list Z)%type.

(** The loop over a chain: the accumulator, and whether its bytes are swapped. *)
Fixpoint chain_loop (acc : Z) (swapped : bool) (p : list seg) : Z * bool :=
  match p with
  | [] => (acc, swapped)
  | (odd, q) :: p =>
      let acc := u32 (acc + lwip_standard_chksum odd q) in
      let acc := FOLD_U32T acc in
      if negb (Zlen q mod 2 =? 0) then chain_loop (SWAP_BYTES_IN_WORD acc) (negb swapped) p
      else chain_loop acc swapped p
  end.

Definition inet_chksum_pbuf (p : list seg) : Z :=
  let '(acc, swapped) := chain_loop 0 false p in
  let acc := if (swapped : bool) then SWAP_BYTES_IN_WORD acc else acc in
  u16 (Z.lnot (Z.land acc 0xffff)).

Definition inet_cksum_pseudo_base (p : list seg) (proto proto_len acc : Z) : Z :=
  let '(acc, swapped) := chain_loop acc false p in
  let acc := if (swapped : bool) then SWAP_BYTES_IN_WORD acc else acc in
  let acc := u32 (acc + lwip_htons (u16 proto)) in
  let acc := u32 (acc + lwip_htons proto_len) in
  let acc := FOLD_U32T acc in
  let acc := FOLD_U32T acc in
  u16 (Z.lnot (Z.land acc 0xffff)).

(** The addresses are words in network order. *)
Definition inet_chksum_pseudo (p : list seg) (proto proto_len src dest : Z) : Z :=
  let acc := Z.land src 0xffff in
  let acc := u32 (acc + Z.land (Z.shiftr src 16) 0xffff) in
  let acc := u32 (acc + Z.land dest 0xffff) in
  let acc := u32 (acc + Z.land (Z.shiftr dest 16) 0xffff) in
  let acc := FOLD_U32T acc in
  let acc := FOLD_U32T acc in
  inet_cksum_pseudo_base p proto proto_len acc.

(** The loop over a chain of which only [chksum_len] bytes are summed; [None]: an assertion fails. *)
Fixpoint partial_loop (acc : Z) (swapped : bool) (chksum_len : Z) (p : list seg) : option (Z * bool) :=
  match p with
  | [] => Some (acc, swapped)
  | (odd, q) :: p =>
      if 0 <? chksum_len then
        let chklen := if chksum_len <? Zlen q then chksum_len else Zlen q in
        let acc := u32 (acc + lwip_standard_chksum odd (take (Z.to_nat chklen) q)) in
        let chksum_len := u16 (chksum_len - chklen) in
        if chksum_len <? 0x7fff then
          let acc := FOLD_U32T acc in
          if negb (Zlen q mod 2 =? 0) then partial_loop (SWAP_BYTES_IN_WORD acc) (negb swapped) chksum_len p
          else partial_loop acc swapped chksum_len p
        else None
      else Some (acc, swapped)
  end.

Definition inet_cksum_pseudo_partial_base (p : list seg) (proto proto_len chksum_len acc : Z) : option Z :=
  '(acc, swapped) ← partial_loop acc false chksum_len p;
  let acc := if (swapped : bool) then SWAP_BYTES_IN_WORD acc else acc in
  let acc := u32 (acc + lwip_htons (u16 proto)) in
  let acc := u32 (acc + lwip_htons proto_len) in
  let acc := FOLD_U32T acc in
  let acc := FOLD_U32T acc in
  Some (u16 (Z.lnot (Z.land acc 0xffff))).

Definition inet_chksum_pseudo_partial (p : list seg) (proto proto_len chksum_len src dest : Z) : option Z :=
  let acc := Z.land src 0xffff in
  let acc := u32 (acc + Z.land (Z.shiftr src 16) 0xffff) in
  let acc := u32 (acc + Z.land dest 0xffff) in
  let acc := u32 (acc + Z.land (Z.shiftr dest 16) 0xffff) in
  let acc := FOLD_U32T acc in
  let acc := FOLD_U32T acc in
  inet_cksum_pseudo_partial_base p proto proto_len chksum_len acc.

(** ** The reference: RFC 1071 *)

Fixpoint words (data : list Z) : list Z :=
  match data with
  | [] => []
  | [b] => [b]
  | b0 :: b1 :: data => b0 + 256 * b1 :: words data
  end.

(** Addition with end-around carry. *)
Definition oc_add (a b : Z) : Z := let s := a + b in if s <? 2 ^ 16 then s else s - 2 ^ 16 + 1.

Definition rfc1071 (data : list Z) : Z := fold_left oc_add (words data) 0.

(** ** Sums modulo 65535 *)

(** The representative of a sum: 0 only for 0. *)
Definition norm (x : Z) : Z := if x =? 0 then 0 else (x - 1) mod 65535 + 1.

Lemma norm_range x : 0 <= norm x <= 65535.
Proof. unfold norm. destruct (x =? 0); [lia|]. pose proof (Z.mod_pos_bound (x - 1) 65535). lia. Qed.

Lemma norm_zero x : 0 <= x -> norm x = 0 <-> x = 0.
Proof. unfold norm. destruct (Z.eqb_spec x 0) as [->|]; [done|]. pose proof (Z.mod_pos_bound (x - 1) 65535). lia. Qed.

Lemma norm_mod x : norm x mod 65535 = x mod 65535.
Proof. unfold norm. destruct (Z.eqb_spec x 0) as [->|]; [done|]. rewrite Z.add_mod_idemp_l by lia. f_equal. lia. Qed.

(** What is in range, congruent and zero together with [x] is its representative. *)
Lemma norm_unique x y : 0 <= x -> 0 <= y <= 65535 -> y mod 65535 = x mod 65535 -> (y = 0 <-> x = 0) -> y = norm x.
Proof.
  intros Hx Hy Hm Hz. pose proof (norm_range x) as Hr. pose proof (norm_mod x) as Hn. pose proof (norm_zero x Hx) as H0.
  rewrite <- Hm in Hn. destruct (decide (x = 0)) as [->|Hne]; [rewrite (proj2 Hz) by done; done|].
  assert (y <> 0) by tauto. assert (norm x <> 0) by tauto. dlia.
Qed.

Lemma norm_eq x y : 0 <= x -> 0 <= y -> x mod 65535 = y mod 65535 -> (x = 0 <-> y = 0) -> norm x = norm y.
Proof. intros Hx Hy Hm Hz. apply norm_unique; [done|apply norm_range|by rewrite norm_mod|]. by rewrite norm_zero. Qed.

Lemma norm_small x : 0 <= x <= 65535 -> norm x = x.
Proof. intros Hx. symmetry. by apply norm_unique; [lia|..]. Qed.

Lemma norm_add_l x y : 0 <= x -> 0 <= y -> norm (norm x + y) = norm (x + y).
Proof.
  intros Hx Hy. pose proof (norm_range x). pose proof (norm_zero x Hx). apply norm_eq; [lia|lia| |lia].
  by rewrite <- Z.add_mod_idemp_l, norm_mod, Z.add_mod_idemp_l by lia.
Qed.

Lemma norm_add_r x y : 0 <= x -> 0 <= y -> norm (x + norm y) = norm (x + y).
Proof. intros. rewrite Z.add_comm, norm_add_l, Z.add_comm; done. Qed.

Lemma norm_mul c x : 0 < c -> 0 <= x -> norm (c * norm x) = norm (c * x).
Proof.
  intros Hc Hx. pose proof (norm_range x). pose proof (norm_zero x Hx). apply norm_eq; [nia|nia| |nia].
  by rewrite <- Z.mul_mod_idemp_r, norm_mod, Z.mul_mod_idemp_r by lia.
Qed.

Lemma fold_spec u : 0 <= u < 2 ^ 32 -> FOLD_U32T u = u / 65536 + u mod 65536.
Proof.
  intros Hu. unfold FOLD_U32T. change 0xffff with (Z.ones 16). rewrite Z.land_ones, Z.shiftr_div_pow2 by lia. change (2 ^ 16) with 65536.
  apply u32_small. dlia.
Qed.

(** One fold brings a sum of two words into range, two any 32-bit sum. *)
Lemma fold_once u : 0 <= u <= 2 * 65535 -> FOLD_U32T u = norm u.
Proof. intros Hu. rewrite fold_spec by lia. apply norm_unique; [lia|dlia|dlia|dlia]. Qed.

Lemma fold_twice u : 0 <= u < 2 ^ 32 -> FOLD_U32T (FOLD_U32T u) = norm u.
Proof.
  intros Hu. rewrite (fold_spec u) by done. rewrite fold_once by dlia. apply norm_eq; dlia.
Qed.

Lemma swap_spec w : 0 <= w <= 65535 -> SWAP_BYTES_IN_WORD w = 256 * (w mod 256) + w / 256.
Proof.
  intros Hw. unfold SWAP_BYTES_IN_WORD. assert (Z.land w 0xff = w mod 256) as -> by (change 0xff with (Z.ones 8); by rewrite Z.land_ones by lia).
  assert (Z.shiftr (Z.land w 0xff00) 8 = w / 256) as ->.
  { rewrite Z.shiftr_land. change (Z.shiftr 0xff00 8) with (Z.ones 8). rewrite Z.land_ones, Z.shiftr_div_pow2 by lia. change (2 ^ 8) with 256. apply Z.mod_small. dlia. }
  rewrite lor_disjoint_add by (lia || (change (2 ^ 8) with 256; dlia)). change (2 ^ 8) with 256. lia.
Qed.

Lemma swap_norm w : 0 <= w <= 65535 -> SWAP_BYTES_IN_WORD w = norm (256 * w).
Proof. intros Hw. rewrite swap_spec by done. apply norm_unique; dlia. Qed.

Lemma htons_spec n : 0 <= n < 2 ^ 16 -> lwip_htons n = 256 * (n mod 256) + n / 256.
Proof.
  intros Hn. unfold lwip_htons. change (u16 (SWAP_BYTES_IN_WORD n) = 256 * (n mod 256) + n / 256). rewrite swap_spec by lia. apply u16_small. dlia.
Qed.

(** ** The sum of the bytes of a buffer *)

Fixpoint bsum (data : list Z) : Z := match data with [] => 0 | b :: data => b + 256 * bsum data end.

Fixpoint sumw (l : list Z) : Z := match l with [] => 0 | w :: l => w + sumw l end.

Lemma bsum_nonneg data : is_bytes data -> 0 <= bsum data.
Proof. induction 1 as [|b data Hb _ IH]; cbn; [done|]. unfold is_byte in Hb. lia. Qed.

Lemma bsum_zero_app a b : is_bytes a -> is_bytes b -> bsum (a ++ b) = 0 <-> bsum a = 0 /\ bsum b = 0.
Proof.
  induction 1 as [|x a Hx Ha IH]; intros Hb; cbn [app bsum]; [tauto|]. specialize (IH Hb). unfold is_byte in Hx.
  pose proof (bsum_nonneg a Ha). pose proof (bsum_nonneg b Hb). assert (0 <= bsum (a ++ b)) by (apply bsum_nonneg; by apply Forall_app). lia.
Qed.

(** The weight of the bytes behind [n] others: 256 is its own inverse modulo 65535. *)
Definition weight (odd : bool) : Z := if odd then 256 else 1.
Definition is_odd (l : list Z) : bool := negb (Zlen l mod 2 =? 0).

Lemma is_odd_cons x l : is_odd (x :: l) = negb (is_odd l).
Proof. unfold is_odd. rewrite Zlen_cons. destruct (Z.eqb_spec (Zlen l mod 2) 0), (Z.eqb_spec ((Zlen l + 1) mod 2) 0); try done; exfalso; dlia. Qed.

Lemma is_odd_app a b : is_odd (a ++ b) = xorb (is_odd a) (is_odd b).
Proof. induction a as [|x a IH]; cbn [app]; [change (is_odd []) with false; by rewrite xorb_false_l|]. rewrite !is_odd_cons, IH. by destruct (is_odd a), (is_odd b). Qed.

Lemma bsum_app a b : bsum (a ++ b) mod 65535 = (bsum a + weight (is_odd a) * bsum b) mod 65535.
Proof.
  induction a as [|x a IH]; cbn [app bsum]; [cbn [is_odd weight]; change (is_odd []) with false; cbn [weight]; f_equal; lia|].
  rewrite is_odd_cons. rewrite <- Z.add_mod_idemp_r, <- Z.mul_mod_idemp_r, IH, Z.mul_mod_idemp_r, Z.add_mod_idemp_r by lia.
  destruct (is_odd a); cbn [negb weight].
  - replace (x + 256 * (bsum a + 256 * bsum b)) with (x + 256 * bsum a + 1 * bsum b + bsum b * 65535) by lia. by rewrite Z.mod_add by lia.
  - f_equal. lia.
Qed.

(** The words of the reference, two bytes at a time. *)
Lemma words_sum data : is_bytes data -> sumw (words data) mod 65535 = bsum data mod 65535 /\ (sumw (words data) = 0 <-> bsum data = 0) /\
  0 <= sumw (words data) /\ Forall (fun w => 0 <= w <= 65535) (words data).
Proof.
  revert data. fix IH 1. intros [|b0 [|b1 data]] Hd.
  - cbn. repeat constructor; lia.
  - apply Forall_cons in Hd as [H0 _]. unfold is_byte in H0. cbn. rewrite !Z.add_0_r. repeat constructor; lia.
  - apply Forall_cons in Hd as [H0 [H1 Hd]%Forall_cons]. destruct (IH data Hd) as (E1 & E2 & E3 & E4). unfold is_byte in *.
    pose proof (bsum_nonneg data Hd). cbn [words sumw bsum]. split_and!.
    + replace (b0 + 256 * (b1 + 256 * bsum data)) with (b0 + 256 * b1 + bsum data + bsum data * 65535) by lia. rewrite Z.mod_add by lia.
      rewrite <- Z.add_mod_idemp_r, E1, Z.add_mod_idemp_r by lia. done.
    + lia.
    + lia.
    + constructor; [lia|done].
Qed.

Lemma oc_add_norm a b : 0 <= a <= 65535 -> 0 <= b <= 65535 -> oc_add a b = norm (a + b).
Proof. intros Ha Hb. unfold oc_add. change (2 ^ 16) with 65536. destruct (Z.ltb_spec (a + b) 65536); apply norm_unique; dlia. Qed.

Lemma fold_oc l : forall a, 0 <= a <= 65535 -> Forall (fun w => 0 <= w <= 65535) l -> fold_left oc_add l a = norm (a + sumw l).
Proof.
  induction l as [|w l IH]; intros a Ha Hl; cbn [fold_left sumw]; [rewrite Z.add_0_r; by rewrite norm_small|].
  apply Forall_cons in Hl as [Hw Hl]. rewrite oc_add_norm by done. rewrite IH by (done || apply norm_range).
  assert (0 <= sumw l) by (clear -Hl; induction Hl; cbn; lia). rewrite norm_add_l by lia. f_equal. lia.
Qed.

(** The reference is the representative of the sum of the bytes. *)
Lemma rfc1071_norm data : is_bytes data -> rfc1071 data = norm (bsum data).
Proof.
  intros Hd. destruct (words_sum data Hd) as (E1 & E2 & E3 & E4). unfold rfc1071. rewrite fold_oc by (done || lia). rewrite Z.add_0_l.
  apply norm_eq; [done|by apply bsum_nonneg|done|done].
Qed.

(** ** One buffer *)

Lemma word_loop_spec ps : forall sum, is_bytes ps -> 0 <= sum -> sum + 65535 * (Zlen ps / 2) < 2 ^ 32 ->
  exists S rest, word_loop sum ps = (sum + S, rest) /\ 0 <= S <= 65535 * (Zlen ps / 2) /\
    (S + bsum rest) mod 65535 = bsum ps mod 65535 /\ (S + bsum rest = 0 <-> bsum ps = 0) /\ (rest = [] \/ exists b, rest = [b] /\ is_byte b /\ is_odd ps = true).
Proof.
  revert ps. fix IH 1. intros [|b0 [|b1 ps]] sum Hd Hs Hb.
  - exists 0, []. cbn. rewrite Z.add_0_r. split_and!; try done; by left.
  - exists 0, [b0]. cbn [word_loop bsum]. rewrite Z.add_0_r, !Z.add_0_l. apply Forall_cons in Hd as [H0 _]. split_and!; auto; try done. right. by exists b0.
  - apply Forall_cons in Hd as [H0 [H1 Hd]%Forall_cons]. unfold is_byte in H0, H1. rewrite !Zlen_cons in *.
    replace ((Zlen ps + 1 + 1) / 2) with (Zlen ps / 2 + 1) in * by dlia. pose proof (Zlen_nonneg ps). assert (0 <= Zlen ps / 2) by dlia.
    cbn [word_loop]. rewrite u32_small by lia. destruct (IH ps (sum + (b0 + 256 * b1)) Hd) as (S & rest & E & HS & Em & Ez & Er); [lia|lia|].
    exists (b0 + 256 * b1 + S), rest. rewrite E. pose proof (bsum_nonneg ps Hd). assert (0 <= bsum rest) as Hr0.
    { destruct Er as [->|(b & -> & Hb1 & _)]; cbn; [done|]. unfold is_byte in Hb1. lia. }
    split_and!; [f_equal; lia|lia|lia| | |].
    + cbn [bsum]. replace (b0 + 256 * (b1 + 256 * bsum ps)) with (b0 + 256 * b1 + bsum ps + bsum ps * 65535) by lia. rewrite Z.mod_add by lia.
      rewrite <- (Z.add_mod_idemp_r _ (bsum ps)), <- Em, Z.add_mod_idemp_r by lia. f_equal. lia.
    + cbn [bsum]. lia.
    + destruct Er as [->|(b & -> & Hb1 & Ho)]; [by left|right]. exists b. rewrite !is_odd_cons, Ho. done.
Qed.

(** The words from an even address on, with the byte [hi] before them and the byte left over. *)
Lemma tail_word hi pb : is_bytes pb -> 0 <= hi <= 255 ->
  65535 * (Zlen pb / 2) + 65535 < 2 ^ 32 \/ (is_odd pb = false /\ hi = 0 /\ 65535 * (Zlen pb / 2) < 2 ^ 32) ->
  let '(sum, ps) := word_loop 0 pb in
  let t := match ps with b :: _ => Z.lor (Z.land (256 * hi) 0xff00) b | [] => 256 * hi end in
  exists x, u32 (sum + t) = x /\ 0 <= x < 2 ^ 32 /\ x mod 65535 = (256 * hi + bsum pb) mod 65535 /\ (x = 0 <-> hi = 0 /\ bsum pb = 0).
Proof.
  intros Hpb Hhi Hlen. destruct (word_loop_spec pb 0 Hpb ltac:(lia)) as (S & rest & -> & HS & Em & Ez & Er); [lia|].
  rewrite Z.add_0_l. pose proof (bsum_nonneg pb Hpb).
  assert (match rest with b :: _ => Z.lor (Z.land (256 * hi) 0xff00) b | [] => 256 * hi end = 256 * hi + bsum rest /\ 0 <= bsum rest <= 255 /\ (is_odd pb = false -> bsum rest = 0)) as (-> & Hr & Hr').
  { destruct Er as [->|(b & -> & Hb & Ho)]; [cbn; split_and!; lia|]. unfold is_byte in Hb. cbn [bsum]. rewrite Ho. split_and!; [|lia|lia|done].
    assert (Z.land (256 * hi) 0xff00 = Z.shiftl hi 8) as ->.
    { rewrite Z.mul_comm. change 256 with (2 ^ 8). rewrite <- Z.shiftl_mul_pow2 by lia. change 0xff00 with (Z.shiftl (Z.ones 8) 8).
      rewrite <- Z.shiftl_land, Z.land_ones by lia. by rewrite Z.mod_small by lia. }
    rewrite lor_disjoint_add by lia. lia. }
  eexists. split; [done|]. rewrite u32_small.
  2:{ destruct Hlen as [?|(Ho & -> & ?)]; [lia|]. rewrite (Hr' Ho). lia. }
  split_and!; [lia|destruct Hlen as [?|(Ho & -> & ?)]; [lia|rewrite (Hr' Ho); lia]| |lia].
  replace (S + (256 * hi + bsum rest)) with (256 * hi + (S + bsum rest)) by lia. by rewrite <- Z.add_mod_idemp_r, Em, Z.add_mod_idemp_r by lia.
Qed.

Lemma chksum_norm odd data : is_bytes data -> Zlen data <= 0x20000 -> lwip_standard_chksum odd data = norm (bsum data).
Proof.
  intros Hd Hl. unfold lwip_standard_chksum.
  destruct odd.
  - destruct data as [|b pb].
    + reflexivity.
    + apply Forall_cons in Hd as [Hb Hpb]. unfold is_byte in Hb. rewrite Zlen_cons in Hl. pose proof (tail_word b pb Hpb ltac:(lia) ltac:(left; dlia)) as Hw.
      destruct (word_loop 0 pb) as [sum ps]. destruct Hw as (x & -> & Hx & Hm & Hz). rewrite fold_twice by done.
      pose proof (norm_range x). rewrite swap_norm by done. rewrite norm_mul by lia. pose proof (norm_range (256 * x)). rewrite u16_small by lia.
      cbn [bsum]. pose proof (bsum_nonneg pb Hpb). apply norm_eq; [lia|lia| |lia].
      rewrite <- Z.mul_mod_idemp_r, Hm, Z.mul_mod_idemp_r by lia.
      replace (256 * (256 * b + bsum pb)) with (b + 256 * bsum pb + b * 65535) by lia. by rewrite Z.mod_add by lia.
  - assert (65535 * (Zlen data / 2) + 65535 < 2 ^ 32 \/ (is_odd data = false /\ 0 = 0 /\ 65535 * (Zlen data / 2) < 2 ^ 32)) as Hlen.
    { destruct (Z.eq_dec (Zlen data) 0x20000) as [E|E]; [right|left; dlia]. unfold is_odd. rewrite E. done. }
    pose proof (tail_word 0 data Hd ltac:(lia) Hlen) as Hw.
    destruct (word_loop 0 data) as [sum ps]. destruct Hw as (x & Ex & Hx & Hm & Hz). rewrite Z.mul_0_r in *. rewrite Ex, fold_twice by done.
    pose proof (norm_range x). rewrite u16_small by lia. pose proof (bsum_nonneg data Hd). apply norm_eq; [lia|lia|done|lia].
Qed.

(** ** Chains *)

Definition bytes_of (p : list seg) : list Z := concat (map snd p).
Definition seg_ok (q : seg) : Prop := is_bytes q.2 /\ Zlen q.2 < 2 ^ 16.

Lemma bytes_of_ok p : Forall seg_ok p -> is_bytes (bytes_of p).
Proof. induction 1 as [|q p [Hq _] _ IH]; cbn; [constructor|]. by apply Forall_app. Qed.

(** The accumulator stands for [X], multiplied by 256 while its bytes are swapped. *)
Definition holds (acc : Z) (swapped : bool) (X : Z) : Prop := 0 <= X /\ acc = norm (weight swapped * X).

Lemma weight_pos s : 0 < weight s.
Proof. by destruct s. Qed.

Lemma weight_xor s o x : (weight s * (weight o * x)) mod 65535 = (weight (xorb s o) * x) mod 65535.
Proof.
  destruct s, o; cbn [xorb weight]; try (f_equal; lia). replace (256 * (256 * x)) with (1 * x + x * 65535) by lia. by rewrite Z.mod_add by lia.
Qed.

Lemma holds_unswap acc s X : holds acc s X -> (if s then SWAP_BYTES_IN_WORD acc else acc) = norm X.
Proof.
  intros [HX ->]. destruct s; cbn [weight]; [|by rewrite Z.mul_1_l]. rewrite swap_norm by apply norm_range. rewrite norm_mul by lia.
  apply norm_eq; [lia|done| |lia]. replace (256 * (256 * X)) with (X + X * 65535) by lia. by rewrite Z.mod_add by lia.
Qed.

(** A buffer is added; its parity decides whether the bytes are swapped. *)
Lemma holds_step acc s X odd q (o : bool) : holds acc s X -> is_bytes q -> Zlen q < 2 ^ 16 ->
  let acc1 := FOLD_U32T (u32 (acc + lwip_standard_chksum odd q)) in
  holds (if o then SWAP_BYTES_IN_WORD acc1 else acc1) (xorb s o) (X + weight s * bsum q).
Proof.
  intros [HX ->] Hq Hl acc1. pose proof (bsum_nonneg q Hq). pose proof (weight_pos s) as Hs. unfold acc1. rewrite chksum_norm by (done || lia).
  pose proof (norm_range (weight s * X)). pose proof (norm_range (bsum q)). rewrite u32_small, fold_once by lia.
  rewrite norm_add_l, norm_add_r by nia.
  assert (norm (weight s * X + bsum q) = norm (weight s * (X + weight s * bsum q))) as E.
  { apply norm_eq; [nia|nia| |nia]. rewrite Z.mul_add_distr_l, <- (Z.add_mod_idemp_r _ (weight s * _)), weight_xor, Z.add_mod_idemp_r by lia.
    rewrite xorb_nilpotent. cbn [weight]. by rewrite Z.mul_1_l. }
  split; [nia|]. rewrite E. destruct o; [|by rewrite xorb_false_r]. rewrite swap_norm by apply norm_range. rewrite norm_mul by nia.
  apply norm_eq; [nia|pose proof (weight_pos (xorb s true)); nia| |pose proof (weight_pos (xorb s true)); nia].
  rewrite xorb_comm. rewrite <- (weight_xor true s). done.
Qed.

Lemma chain_loop_spec p : forall acc s X, Forall seg_ok p -> holds acc s X ->
  exists acc' s' Y, chain_loop acc s p = (acc', s') /\ holds acc' s' Y /\ Y mod 65535 = (X + weight s * bsum (bytes_of p)) mod 65535 /\
    (Y = 0 <-> X = 0 /\ bsum (bytes_of p) = 0).
Proof.
  induction p as [|[odd q] p IH]; intros acc s X Hp Hh; cbn [chain_loop].
  { exists acc, s, X. cbn. rewrite Z.mul_0_r, Z.add_0_r. split_and!; try done. tauto. }
  apply Forall_cons in Hp as [[Hq Hl] Hp]. cbn [snd] in *. pose proof (holds_step acc s X odd q (is_odd q) Hh Hq Hl) as Hst. cbn zeta in Hst.
  change (negb (Zlen q mod 2 =? 0)) with (is_odd q). pose proof (bytes_of_ok p Hp) as Hb. pose proof (bsum_nonneg q Hq). pose proof (bsum_nonneg _ Hb).
  destruct (IH _ _ _ Hp Hst) as (acc' & s' & Y & E & HY & Em & Ez). exists acc', s', Y. split.
  { rewrite <- E. destruct (is_odd q); [by rewrite xorb_true_r|by rewrite xorb_false_r]. }
  split; [done|]. change (bytes_of ((odd, q) :: p)) with (q ++ bytes_of p). split.
  - rewrite Em. rewrite <- (Z.add_mod_idemp_r X), <- (Z.mul_mod_idemp_r (weight s)), bsum_app, Z.mul_mod_idemp_r, Z.add_mod_idemp_r by lia.
    rewrite Z.mul_add_distr_l, Z.add_assoc. rewrite <- (Z.add_mod_idemp_r _ (weight (xorb _ _) * _)), <- weight_xor, Z.add_mod_idemp_r by lia. done.
  - rewrite Ez, (bsum_zero_app q) by done. destruct Hh as [HX _]. pose proof (weight_pos s). split; [intros [? ?]; split_and!; nia|intros (? & ? & ?); nia].
Qed.

Lemma partial_loop_spec p : forall acc s X n, Forall seg_ok p -> holds acc s X -> 0 <= n < 0x7fff ->
  let D := take (Z.to_nat n) (bytes_of p) in
  exists acc' s' Y, partial_loop acc s n p = Some (acc', s') /\ holds acc' s' Y /\ Y mod 65535 = (X + weight s * bsum D) mod 65535 /\ (Y = 0 <-> X = 0 /\ bsum D = 0).
Proof.
  induction p as [|[odd q] p IH]; intros acc s X n Hp Hh Hn D; cbn [partial_loop].
  { exists acc, s, X. unfold D, bytes_of. cbn [map concat]. rewrite take_nil. cbn. rewrite Z.mul_0_r, Z.add_0_r. split_and!; try done. tauto. }
  destruct (Z.ltb_spec 0 n) as [Hpos|Hz].
  2:{ exists acc, s, X. assert (n = 0) as -> by lia. unfold D. rewrite take_0. cbn. rewrite Z.mul_0_r, Z.add_0_r. split_and!; try done. tauto. }
  apply Forall_cons in Hp as [[Hq Hl] Hp]. cbn [snd] in *. set (m := if n <? Zlen q then n else Zlen q).
  assert (0 <= m <= n /\ m <= Zlen q /\ take (Z.to_nat m) q = take (Z.to_nat n) q) as (Hm & Hmq & Et).
  { unfold m. pose proof (Zlen_nonneg q). destruct (Z.ltb_spec n (Zlen q)); (split; [lia|]); (split; [lia|]); [done|]. unfold Zlen in *. by rewrite !take_ge by lia. }
  rewrite Et. set (q' := take (Z.to_nat n) q). assert (is_bytes q') as Hq' by (by apply Forall_take).
  assert (Zlen q' < 2 ^ 16) as Hl' by (unfold q', Zlen in *; rewrite length_take; lia).
  pose proof (holds_step acc s X odd q' (is_odd q) Hh Hq' Hl') as Hst. cbn zeta in Hst. change (negb (Zlen q mod 2 =? 0)) with (is_odd q).
  rewrite u16_small by lia. rewrite (proj2 (Z.ltb_lt (n - m) _)) by lia.
  destruct (IH _ _ _ (n - m) Hp Hst) as (acc' & s' & Y & E & HY & Em & Ez); [lia|]. exists acc', s', Y. split.
  { rewrite <- E. destruct (is_odd q); [by rewrite xorb_true_r|by rewrite xorb_false_r]. }
  split; [done|]. set (r := take (Z.to_nat (n - m)) (bytes_of p)) in *.
  assert (D = q' ++ r /\ (is_odd q' = is_odd q \/ r = [])) as [-> Hodd].
  { unfold D, q', r, m. change (bytes_of ((odd, q) :: p)) with (q ++ bytes_of p). rewrite take_app. unfold Zlen.
    destruct (Z.ltb_spec n (Z.of_nat (length q))); [|rewrite take_ge by lia; split; [do 2 f_equal; lia|by left]].
    rewrite Z.sub_diag. replace (Z.to_nat n - length q)%nat with O by lia. rewrite !take_0. split; [done|by right]. }
  assert (is_bytes r) as Hr by (apply Forall_take; by apply bytes_of_ok). pose proof (bsum_nonneg q' Hq'). pose proof (bsum_nonneg r Hr). split.
  - rewrite Em. rewrite <- (Z.add_mod_idemp_r X), <- (Z.mul_mod_idemp_r (weight s)), bsum_app, Z.mul_mod_idemp_r, Z.add_mod_idemp_r by lia.
    rewrite Z.mul_add_distr_l, Z.add_assoc. rewrite <- (Z.add_mod_idemp_r _ (weight (xorb _ _) * _)), <- weight_xor, Z.add_mod_idemp_r by lia.
    destruct Hodd as [->| ->]; [done|]. cbn [bsum]. by rewrite !Z.mul_0_r.
  - rewrite Ez, (bsum_zero_app q') by done. destruct Hh as [HX _]. pose proof (weight_pos s). split; [intros [? ?]; split_and!; nia|intros (? & ? & ?); nia].
Qed.

(** ** The pseudo header *)

(** The bytes of a word in memory. *)
Definition le4 (a : Z) : list Z := [a mod 256; a / 256 mod 256; a / 65536 mod 256; a / 16777216].
Definition pseudo_header (proto proto_len src dest : Z) : list Z :=
  le4 src ++ le4 dest ++ [0; proto; proto_len / 256; proto_len mod 256].

Lemma compl_spec acc : 0 <= acc <= 65535 -> u16 (Z.lnot (Z.land acc 0xffff)) = 65535 - acc.
Proof.
  intros Ha. change 0xffff with (Z.ones 16). rewrite Z.land_ones by lia. change (2 ^ 16) with 65536. rewrite Z.mod_small by lia. unfold Z.lnot, u16.
  change (2 ^ 16) with 65536. change (Z.ones 16) with 65535. dlia.
Qed.

Lemma land_ffff a : 0 <= Z.land a 0xffff <= 65535.
Proof. change 0xffff with (Z.ones 16). rewrite Z.land_ones by lia. pose proof (Z.mod_pos_bound a (2 ^ 16)). change (Z.ones 16) with 65535. lia. Qed.

Definition halves (a : Z) : Z := Z.land a 0xffff + Z.land (Z.shiftr a 16) 0xffff.

Lemma halves_spec a : 0 <= a < 2 ^ 32 -> halves a = a mod 65536 + a / 65536.
Proof.
  intros Ha. unfold halves. change 0xffff with (Z.ones 16). rewrite !Z.land_ones, Z.shiftr_div_pow2 by lia. change (2 ^ 16) with 65536. f_equal. apply Z.mod_small. dlia.
Qed.

Section Pseudo.
Context (proto proto_len src dest : Z).
Hypothesis (Hp : 0 <= proto < 2 ^ 8) (Hl : 0 <= proto_len < 2 ^ 16) (Hs : 0 <= src < 2 ^ 32) (Hd : 0 <= dest < 2 ^ 32).

Lemma pseudo_ok : is_bytes (pseudo_header proto proto_len src dest) /\ is_odd (pseudo_header proto proto_len src dest) = false.
Proof. split; [|done]. unfold pseudo_header, le4, is_byte. repeat constructor; dlia. Qed.

Lemma pseudo_sum : let H := pseudo_header proto proto_len src dest in
  let S := halves src + halves dest + (256 * proto + (256 * (proto_len mod 256) + proto_len / 256)) in
  S mod 65535 = bsum H mod 65535 /\ (S = 0 <-> bsum H = 0) /\ 0 <= S.
Proof.
  intros H S. destruct (words_sum H (proj1 pseudo_ok)) as (E1 & E2 & E3 & _).
  assert (S = sumw (words H)) as ->; [|done]. unfold S, H, pseudo_header, le4. cbn [app words sumw]. rewrite !halves_spec by done. dlia.
Qed.

(** The sum of the addresses, as both functions start. *)
Lemma start_holds : holds (FOLD_U32T (FOLD_U32T (u32 (u32 (u32 (Z.land src 0xffff + Z.land (Z.shiftr src 16) 0xffff) + Z.land dest 0xffff) + Z.land (Z.shiftr dest 16) 0xffff))))
  false (halves src + halves dest).
Proof.
  pose proof (land_ffff src). pose proof (land_ffff dest). pose proof (land_ffff (Z.shiftr src 16)). pose proof (land_ffff (Z.shiftr dest 16)).
  unfold halves. rewrite (u32_small (Z.land src _ + _)) by lia. rewrite (u32_small (_ + Z.land dest _)) by lia. rewrite u32_small by lia.
  rewrite fold_twice by lia. split; [lia|]. cbn [weight]. f_equal. lia.
Qed.

(** The rest of both functions, after a loop over the bytes [D]. *)
Lemma finish acc s Y D : is_bytes D -> holds acc s Y -> Y mod 65535 = (halves src + halves dest + bsum D) mod 65535 ->
  (Y = 0 <-> halves src + halves dest = 0 /\ bsum D = 0) ->
  let acc := if s then SWAP_BYTES_IN_WORD acc else acc in
  let acc := u32 (acc + lwip_htons (u16 proto)) in
  let acc := u32 (acc + lwip_htons proto_len) in
  u16 (Z.lnot (Z.land (FOLD_U32T (FOLD_U32T acc)) 0xffff)) = 65535 - rfc1071 (pseudo_header proto proto_len src dest ++ D).
Proof.
  intros HD Hh Em Ez. pose proof Hh as [HY _]. destruct pseudo_ok as [Hok Hodd]. destruct pseudo_sum as (S1 & S2 & S3). cbn zeta in *.
  rewrite (holds_unswap acc s Y Hh). rewrite !htons_spec by (rewrite ?u16_small; lia). rewrite (u16_small proto) by lia.
  rewrite (Z.mod_small proto), (Z.div_small proto) by lia. pose proof (norm_range Y).
  assert (0 <= 256 * (proto_len mod 256) + proto_len / 256 <= 65535) by dlia.
  rewrite (u32_small (norm Y + _)) by lia. rewrite u32_small by lia. rewrite fold_twice by lia. rewrite compl_spec by apply norm_range.
  rewrite rfc1071_norm by (by apply Forall_app). f_equal. rewrite <- Z.add_assoc, norm_add_l by lia.
  pose proof (bsum_nonneg D HD). pose proof (halves_spec src Hs). pose proof (halves_spec dest Hd). assert (0 <= halves src + halves dest) by dlia.
  apply norm_eq; [lia|apply bsum_nonneg; by apply Forall_app| |].
  - rewrite bsum_app, Hodd. cbn [weight]. rewrite Z.mul_1_l. rewrite <- (Z.add_mod_idemp_l (bsum _)), <- S1, Z.add_mod_idemp_l by lia.
    rewrite <- Z.add_mod_idemp_l, Em, Z.add_mod_idemp_l by lia. f_equal. lia.
  - rewrite bsum_zero_app by done. rewrite <- S2. lia.
Qed.
End Pseudo.

Lemma chksum_pbuf_norm p : Forall seg_ok p -> inet_chksum_pbuf p = 65535 - norm (bsum (bytes_of p)).
Proof.
  intros Hp. unfold inet_chksum_pbuf. destruct (chain_loop_spec p 0 false 0 Hp) as (acc & s & Y & -> & Hh & Em & Ez); [by split|].
  rewrite (holds_unswap acc s Y Hh), compl_spec by apply norm_range. f_equal. cbn [weight] in Em.
  rewrite Z.add_0_l, Z.mul_1_l in Em. apply norm_eq; [apply Hh|apply bsum_nonneg; by apply bytes_of_ok|done|tauto].
Qed.

(** C28: The checksums are those of RFC 1071.  For every chain of packet buffers, however the data is cut into
    buffers of up to 65535 bytes and whatever their addresses, the checksum of the chain is the complement of the sum with
    end-around carry over the 16-bit words of the concatenated data; with the pseudo header, its words come first; the
    partial checksum sums the first [n] bytes of the data; and the sum of one buffer is exact up to 0x20000 bytes, as its
    comment says. *)
Theorem chksum_exact (p : list seg) (proto proto_len src dest : Z) (Hp : Forall seg_ok p)
    (Hpr : 0 <= proto < 2 ^ 8) (Hl : 0 <= proto_len < 2 ^ 16) (Hs : 0 <= src < 2 ^ 32) (Hd : 0 <= dest < 2 ^ 32) :
  inet_chksum_pbuf p = 65535 - rfc1071 (bytes_of p) /\
  inet_chksum_pseudo p proto proto_len src dest = 65535 - rfc1071 (pseudo_header proto proto_len src dest ++ bytes_of p) /\
  (forall n, 0 <= n < 0x7fff -> inet_chksum_pseudo_partial p proto proto_len n src dest =
     Some (65535 - rfc1071 (pseudo_header proto proto_len src dest ++ take (Z.to_nat n) (bytes_of p)))) /\
  (forall odd data, is_bytes data -> Zlen data <= 0x20000 -> inet_chksum odd data = 65535 - rfc1071 data).
Proof.
  pose proof (bytes_of_ok p Hp) as Hb. pose proof (start_holds src dest) as Hst. split_and!.
  - rewrite rfc1071_norm by done. by apply chksum_pbuf_norm.
  - unfold inet_chksum_pseudo, inet_cksum_pseudo_base. destruct (chain_loop_spec p _ false _ Hp Hst) as (acc & s & Y & -> & Hh & Em & Ez).
    cbn [weight] in Em. rewrite Z.mul_1_l in Em. by apply (finish proto proto_len src dest Hpr Hl Hs Hd acc s Y).
  - intros n Hn. unfold inet_chksum_pseudo_partial, inet_cksum_pseudo_partial_base.
    destruct (partial_loop_spec p _ false _ n Hp Hst Hn) as (acc & s & Y & -> & Hh & Em & Ez). cbn [mbind option_bind]. f_equal.
    cbn [weight] in Em. rewrite Z.mul_1_l in Em. apply (finish proto proto_len src dest Hpr Hl Hs Hd acc s Y); try done. by apply Forall_take.
  - intros odd data Hda Hlen. unfold inet_chksum. rewrite chksum_norm by done. rewrite rfc1071_norm by done. pose proof (norm_range (bsum data)) as Hr.
    rewrite <- (compl_spec (norm (bsum data))) by done. change 0xffff with (Z.ones 16). rewrite Z.land_ones, Z.mod_small by lia. done.
Qed.

Lemma chksum_exact_witness : inet_chksum_pbuf [(false, [1; 2; 3]); (true, [4])] = 65535 - rfc1071 [1; 2; 3; 4].
Proof.
  refine (proj1 (chksum_exact [(false, [1; 2; 3]); (true, [4])] 17 4 0 0 _ _ _ _ _)); try lia.
  repeat constructor; cbn; unfold is_byte; lia.
Defined.

(** C29: A packet with its checksum in place verifies, and a changed word is noticed.  When the checksum of a
    packet with zeros at an even offset is stored there, the checksum of the packet is zero, whichever way sender and
    receiver cut it into buffers; with other bytes there it is zero exactly when they are the same modulo 65535,
    that is, when they are the checksum or its other representation of zero. *)
Theorem chksum_verifies (p p' : list seg) (pre post : list Z) (x y : Z) (Hp : Forall seg_ok p) (Hp' : Forall seg_ok p')
    (He : Zlen pre mod 2 = 0) (E : bytes_of p = pre ++ [0; 0] ++ post) (E' : bytes_of p' = pre ++ [x; y] ++ post) :
  let c := inet_chksum_pbuf p in
  (x = c mod 256 -> y = c / 256 -> inet_chksum_pbuf p' = 0) /\
  (0 < x + 256 * y -> (inet_chksum_pbuf p' = 0 <-> (x + 256 * y) mod 65535 = c mod 65535)).
Proof.
  pose proof (bytes_of_ok p Hp) as Hb. pose proof (bytes_of_ok p' Hp') as Hb'. intros c. unfold c. rewrite !chksum_pbuf_norm, E, E' by done. rewrite E in Hb. rewrite E' in Hb'.
  apply Forall_app in Hb as [Hpre [_ Hpost]%Forall_app]. apply Forall_app in Hb' as [_ [Hxy _]%Forall_app].
  apply Forall_cons in Hxy as [Hx [Hy _]%Forall_cons]. unfold is_byte in Hx, Hy.
  set (S := bsum (pre ++ [0; 0] ++ post)). set (T := bsum (pre ++ [x; y] ++ post)).
  assert (is_odd pre = false) as Ho by (unfold is_odd; by rewrite He).
  assert (0 <= S) as HS by (apply bsum_nonneg; repeat (apply Forall_app; split); try done; repeat constructor; unfold is_byte; lia).
  assert (0 <= T) as HT by (apply bsum_nonneg; repeat (apply Forall_app; split); try done; repeat constructor; unfold is_byte; lia).
  assert (T mod 65535 = (S + (x + 256 * y)) mod 65535) as Em.
  { unfold S, T. rewrite <- (Z.add_mod_idemp_l (bsum _)), !bsum_app, Ho, Z.add_mod_idemp_l by lia. cbn [weight app bsum]. rewrite !Z.mul_1_l.
    replace (bsum pre + (x + 256 * (y + 256 * bsum post))) with (bsum pre + (0 + 256 * (0 + 256 * bsum post)) + (x + 256 * y)) by lia. done. }
  assert (0 < x + 256 * y -> T <> 0) as Hz.
  { unfold T. rewrite bsum_zero_app by (done || (cbn; repeat (constructor; [unfold is_byte; lia|]); done)). cbn [bsum app]. intros Hxy [_ H0].
    pose proof (bsum_nonneg post Hpost). lia. }
  pose proof (norm_range S). pose proof (norm_range T). pose proof (norm_mod S) as HnS. pose proof (norm_mod T) as HnT. pose proof (norm_zero S HS). pose proof (norm_zero T HT). split.
  - intros Ex Ey. assert (x + 256 * y = 65535 - norm S) as Exy by dlia. destruct (decide (norm S = 65535)) as [Ef|Ef].
    + assert (T = S) as ET; [|rewrite ET; lia]. unfold T, S. assert (x = 0 /\ y = 0) as [-> ->] by lia. done.
    + assert (T <> 0) by (apply Hz; lia). dlia.
  - intros Hxy. specialize (Hz Hxy). dlia.
Qed.

(** An empty packet of one word. *)
Lemma chksum_verifies_witness : inet_chksum_pbuf [(true, [1; 2; 254; 253])] = 0.
Proof.
  refine (proj1 (chksum_verifies [(false, [1]); (false, [2; 0; 0])] [(true, [1; 2; 254; 253])] [1; 2] [] 254 253 _ _ eq_refl eq_refl eq_refl) _ _);
    try reflexivity; repeat constructor; cbn; unfold is_byte; lia.
Defined.
