(* ===== verification/Pbuf.v ===== *)
(** * Pbuf: the packet buffers of the TCP/IP stack
    (ext/ChibiOS_21.11.3/ext/lwip/src/core/pbuf.c)

    A packet is a chain of buffers with reference counts.  The buffers that are allocated
    are a finite map from their address: a lookup that fails is an access to memory that was
    freed or never allocated, and like a failed assertion it is [None].  The bytes are a
    memory of their own, a function from addresses.  What the pools and the heap ([Memp],
    [Mem]) answer is an argument of the functions that allocate; what is given back to them
    is listed, with its source. *)

From stdpp Require Import gmap.
From S2P Require Import Prelude Memp Mem.

(** struct pbuf; a null pointer is [None], [if_idx] is left out (it is set by the drivers). *)
Record pbuf := PB {
  next : option Z; payload : Z; tot_len : Z; len : Z; type_internal : Z; flags : Z; ref : Z
}.

Abbreviation store := (gmap Z pbuf).

Definition PBUF_TYPE_FLAG_STRUCT_DATA_CONTIGUOUS : Z := 128.
Definition PBUF_TYPE_ALLOC_SRC_MASK : Z := 15.
Definition SRC_HEAP : Z := 0.
Definition SRC_MEMP_PBUF : Z := 1.
Definition SRC_MEMP_PBUF_POOL : Z := 2.
Definition SRC_CUSTOM : Z := 256.
Definition PBUF_FLAG_IS_CUSTOM : Z := 2.
(** enum pbuf_type; a buffer keeps the low eight bits. *)
Definition PBUF_RAM : Z := 640.
Definition PBUF_ROM : Z := 1.
Definition PBUF_REF : Z := 65.
Definition PBUF_POOL : Z := 386.
Definition SIZEOF_STRUCT_PBUF : Z := 16.
Definition PBUF_POOL_BUFSIZE_ALIGNED : Z := LWIP_MEM_ALIGN_SIZE (1480 + 40 + 16).

Definition set_next (x : pbuf) n := PB n (payload x) (tot_len x) (len x) (type_internal x) (flags x) (ref x).
Definition set_tot (x : pbuf) n := PB (next x) (payload x) n (len x) (type_internal x) (flags x) (ref x).
Definition set_ref (x : pbuf) n := PB (next x) (payload x) (tot_len x) (len x) (type_internal x) (flags x) n.
Definition set_lens (x : pbuf) pl t l := PB (next x) pl t l (type_internal x) (flags x) (ref x).

Definition is_custom (x : pbuf) : bool := negb (Z.land (flags x) PBUF_FLAG_IS_CUSTOM =? 0).
Definition pbuf_get_allocsrc (x : pbuf) : Z := Z.land (type_internal x) PBUF_TYPE_ALLOC_SRC_MASK.

(** ** Allocation *)

Definition pbuf_init_alloced_pbuf (pl tot l type fl : Z) : pbuf := PB None pl tot l (u8 type) fl 1.

(** The end of the loop of [pbuf_free]: where a buffer goes. *)
Definition free_source (x : pbuf) : option Z :=
  if is_custom x then Some SRC_CUSTOM
  else guard (pbuf_get_allocsrc x = SRC_MEMP_PBUF_POOL \/ pbuf_get_allocsrc x = SRC_MEMP_PBUF \/
              pbuf_get_allocsrc x = SRC_HEAP);; Some (pbuf_get_allocsrc x).

(** Each turn either stops or gives a buffer back: the number of buffers is fuel enough. *)
Fixpoint free_loop (fuel : nat) (σ : store) (p : option Z) : option (store * list (Z * Z)) :=
  match p with
  | None => Some (σ, [])
  | Some a =>
      match fuel with
      | O => None
      | S fuel =>
          x ← σ !! a;
          guard (0 < ref x);;
          if ref x - 1 =? 0 then
            src ← free_source x;
            '(σ, k) ← free_loop fuel (delete a σ) (next x);
            Some (σ, (src, a) :: k)
          else Some (<[a := set_ref x (ref x - 1)]> σ, [])
      end
  end.

(** The result is the store, the buffers given back and their number as the code returns it. *)
Definition pbuf_free (σ : store) (p : option Z) : option (store * list (Z * Z) * Z) :=
  guard (p <> None);;
  '(σ, k) ← free_loop (S (size σ)) σ p;
  Some (σ, k, u8 (Zlen k)).

Definition pbuf_alloc_reference (σ : store) (pl length type : Z) (malloc : option Z) : option (store * option Z) :=
  guard (type = PBUF_REF \/ type = PBUF_ROM);;
  Some match malloc with
       | None => (σ, None)
       | Some a => (<[a := pbuf_init_alloced_pbuf pl length length type 0]> σ, Some a)
       end.

Definition align (a : Z) : Z := LWIP_MEM_ALIGN_SIZE a.

(** The loop of [pbuf_alloc] for PBUF_POOL, with the answers of [memp_malloc]; [p] is the
    head of the chain so far and [last] its end.  [None] in the result is the null pointer. *)
Fixpoint pool_loop (σ : store) (p last : option Z) (offset rem_len : Z) (mallocs : list (option Z)) :
    option (store * option Z) :=
  match mallocs with
  | [] => None
  | None :: _ =>
      match p with
      | Some _ => '(σ, _, _) ← pbuf_free σ p; Some (σ, None)
      | None => Some (σ, None)
      end
  | Some q :: mallocs =>
      let qlen := Z.min rem_len (u16 (PBUF_POOL_BUFSIZE_ALIGNED - align offset)) in
      let pl := align (q + SIZEOF_STRUCT_PBUF + offset) in
      guard (0 < PBUF_POOL_BUFSIZE_ALIGNED - align offset);;
      let σ := <[q := pbuf_init_alloced_pbuf pl rem_len qlen PBUF_POOL 0]> σ in
      σ ← match last with
          | None => Some σ
          | Some l => x ← σ !! l; Some (<[l := set_next x (Some q)]> σ)
          end;
      let p := match p with None => Some q | Some _ => p end in
      let rem_len := u16 (rem_len - qlen) in
      if 0 <? rem_len then pool_loop σ p (Some q) 0 rem_len mallocs else Some (σ, p)
  end.

(** The size PBUF_RAM asks the heap for, if no sum overflows its 16 bits. *)
Definition ram_request (layer length : Z) : option Z :=
  let payload_len := u16 (align layer + align length) in
  let alloc_len := u16 (align SIZEOF_STRUCT_PBUF + payload_len) in
  if (payload_len <? align length) || (alloc_len <? align length) then None else Some alloc_len.

Definition pbuf_alloc_ram (σ : store) (layer length : Z) (malloc : Z -> option Z) : store * option Z :=
  match a ← ram_request layer length; malloc a with
  | None => (σ, None)
  | Some a =>
      (<[a := pbuf_init_alloced_pbuf (align (a + SIZEOF_STRUCT_PBUF + layer)) length length PBUF_RAM 0]> σ, Some a)
  end.

(** [memp] are the answers of [memp_malloc], [heap] is [mem_malloc]. *)
Definition pbuf_alloc (σ : store) (layer length type : Z) (memp : list (option Z)) (heap : Z -> option Z) :
    option (store * option Z) :=
  if (type =? PBUF_REF) || (type =? PBUF_ROM) then
    malloc ← head memp; pbuf_alloc_reference σ 0 length type malloc
  else if type =? PBUF_POOL then pool_loop σ None None layer length memp
  else if type =? PBUF_RAM then Some (pbuf_alloc_ram σ layer length heap)
  else None.

(** ** Chains *)

Definition pbuf_ref (σ : store) (p : option Z) : option store :=
  match p with
  | None => Some σ
  | Some a => x ← σ !! a; let r := u8 (ref x + 1) in guard (0 < r);; Some (<[a := set_ref x r]> σ)
  end.

Fixpoint cat_loop (fuel : nat) (σ : store) (p t : Z) : option store :=
  match fuel with
  | O => None
  | S fuel =>
      x ← σ !! p;
      y ← σ !! t;
      match next x with
      | Some q => cat_loop fuel (<[p := set_tot x (u16 (tot_len x + tot_len y))]> σ) q t
      | None =>
          guard (tot_len x = len x);;
          Some (<[p := set_next (set_tot x (u16 (tot_len x + tot_len y))) (Some t)]> σ)
      end
  end.

Definition pbuf_cat (σ : store) (h t : option Z) : option store :=
  match h, t with Some h, Some t => cat_loop (S (size σ)) σ h t | _, _ => Some σ end.

Definition pbuf_chain (σ : store) (h t : option Z) : option store := σ ← pbuf_cat σ h t; pbuf_ref σ t.

Definition pbuf_dechain (σ : store) (p : Z) : option (store * list (Z * Z) * option Z) :=
  x ← σ !! p;
  match next x with
  | None => guard (tot_len x = len x);; Some (σ, [], None)
  | Some q =>
      y ← σ !! q;
      guard (tot_len y = tot_len x - len x);;
      let σ := <[q := set_tot y (u16 (tot_len x - len x))]> σ in
      x ← σ !! p;
      let σ := <[p := set_tot (set_next x None) (len x)]> σ in
      '(σ, k, tail_gone) ← pbuf_free σ (Some q);
      x ← σ !! p;
      guard (tot_len x = len x);;
      Some (σ, k, if 0 <? tail_gone then None else Some q)
  end.

Fixpoint clen_loop (fuel : nat) (σ : store) (p : option Z) (n : Z) : option Z :=
  match p with
  | None => Some n
  | Some a => match fuel with O => None | S fuel => x ← σ !! a; clen_loop fuel σ (next x) (u16 (n + 1)) end
  end.

Definition pbuf_clen (σ : store) (p : option Z) : option Z := clen_loop (S (size σ)) σ p 0.

(** ** Lengths and headers *)

(** The first loop of [pbuf_realloc]: over the buffers that stay as they are. *)
Fixpoint realloc_loop (fuel : nat) (σ : store) (q rem_len shrink : Z) : option (store * Z * Z) :=
  match fuel with
  | O => None
  | S fuel =>
      x ← σ !! q;
      if len x <? rem_len then
        let σ := <[q := set_tot x (u16 (tot_len x - shrink))]> σ in
        n ← next x;
        realloc_loop fuel σ n (u16 (rem_len - len x)) shrink
      else Some (σ, q, rem_len)
  end.

(** What the caller asserts of a call [mem_trim(q, k)]: that it returns, and returns its argument. *)
Definition trim_passes (trim : Z -> Z -> option (option Z)) (call : option (Z * Z)) : bool :=
  match call with Some (q, k) => bool_decide (trim q k = Some (Some q)) | None => true end.

(** [trim] is what [mem_trim] answers: [None] when an assertion of its own stops the system, [Some None] for the null
    pointer.  The result has the call of it, if there is one: its pointer and its size. *)
Definition pbuf_realloc (trim : Z -> Z -> option (option Z)) (σ : store) (p new_len : Z) :
    option (store * list (Z * Z) * option (Z * Z)) :=
  x ← σ !! p;
  if tot_len x <=? new_len then Some (σ, [], None)
  else
    '(σ, q, rem_len) ← realloc_loop (S (size σ)) σ p new_len (u16 (tot_len x - new_len));
    y ← σ !! q;
    let call := if (pbuf_get_allocsrc y =? SRC_HEAP) && negb (rem_len =? len y) && negb (is_custom y)
                then Some (q, u16 (payload y - q + rem_len)) else None in
    guard (trim_passes trim call);;
    let σ := <[q := set_lens y (payload y) rem_len rem_len]> σ in
    '(σ, k) ← match next y with
              | Some n => '(σ, k, _) ← pbuf_free σ (Some n); Some (σ, k)
              | None => Some (σ, [])
              end;
    z ← σ !! q;
    Some (<[q := set_next z None]> σ, k, call).

(** The headers change one buffer: the new buffer, or [None] for the result 1. *)
Definition pbuf_add_header_impl (p : Z) (x : pbuf) (inc : Z) (force : bool) : option pbuf :=
  if 65535 <? inc then None
  else if inc =? 0 then Some x
  else if u16 (inc + tot_len x) <? inc then None
  else
    let pl := payload x - inc in
    let ok := if negb (Z.land (type_internal x) PBUF_TYPE_FLAG_STRUCT_DATA_CONTIGUOUS =? 0)
              then negb (pl <? p + SIZEOF_STRUCT_PBUF) else force in
    if ok then Some (set_lens x pl (u16 (tot_len x + inc)) (u16 (len x + inc))) else None.

Definition pbuf_remove_header (x : pbuf) (dec : Z) : option pbuf :=
  if 65535 <? dec then None
  else if dec =? 0 then Some x
  else if dec <=? len x then Some (set_lens x (payload x + dec) (u16 (tot_len x - dec)) (u16 (len x - dec)))
  else None.

Definition pbuf_header_impl (p : Z) (x : pbuf) (inc : Z) (force : bool) : option pbuf :=
  if inc <? 0 then pbuf_remove_header x (- inc) else pbuf_add_header_impl p x inc force.

Fixpoint free_header_loop (fuel : nat) (σ : store) (p : option Z) (free_left : Z) :
    option (store * list (Z * Z) * option Z) :=
  match p with
  | None => Some (σ, [], None)
  | Some a =>
      if free_left =? 0 then Some (σ, [], p)
      else
      match fuel with
      | O => None
      | S fuel =>
          x ← σ !! a;
          if len x <=? free_left then
            '(σ, k, _) ← pbuf_free (<[a := set_next x None]> σ) (Some a);
            '(σ, k', r) ← free_header_loop fuel σ (next x) (u16 (free_left - len x));
            Some (σ, k ++ k', r)
          else
            let x := default x (pbuf_remove_header x free_left) in
            Some (<[a := x]> σ, [], p)
      end
  end.

Definition pbuf_free_header (σ : store) (q : option Z) (sz : Z) : option (store * list (Z * Z) * option Z) :=
  free_header_loop (S (size σ)) σ q sz.

(** ** Contents *)

(** Bytes [a .. a + n - 1] of the memory. *)
Definition load (m : Z -> Z) (a n : Z) : list Z := m <$> seqZ a n.

Fixpoint copy_partial_loop (fuel : nat) (σ : store) (m : Z -> Z) (p : option Z) (n offset : Z) : option (list Z) :=
  match p with
  | None => Some []
  | Some a =>
      if n =? 0 then Some []
      else
      match fuel with
      | O => None
      | S fuel =>
          x ← σ !! a;
          if negb (offset =? 0) && (len x <=? offset) then copy_partial_loop fuel σ m (next x) n (u16 (offset - len x))
          else
            let buf_copy_len := u16 (len x - offset) in
            let buf_copy_len := if n <? buf_copy_len then n else buf_copy_len in
            r ← copy_partial_loop fuel σ m (next x) (u16 (n - buf_copy_len)) 0;
            Some (load m (payload x + offset) buf_copy_len ++ r)
      end
  end.

(** What the caller's buffer gets; the number returned is its length. *)
Definition pbuf_copy_partial (σ : store) (m : Z -> Z) (p : option Z) (n offset : Z) : option (list Z) :=
  copy_partial_loop (S (size σ)) σ m p n offset.

Fixpoint skip_loop (fuel : nat) (σ : store) (q : option Z) (offset_left : Z) : option (option Z * Z) :=
  match q with
  | None => Some (None, offset_left)
  | Some a =>
      match fuel with
      | O => None
      | S fuel =>
          x ← σ !! a;
          if len x <=? offset_left then skip_loop fuel σ (next x) (u16 (offset_left - len x))
          else Some (q, offset_left)
      end
  end.

Definition pbuf_skip_const (σ : store) (p : option Z) (in_offset : Z) : option (option Z * Z) :=
  skip_loop (S (size σ)) σ p in_offset.

Definition pbuf_try_get_at (σ : store) (m : Z -> Z) (p : option Z) (offset : Z) : option Z :=
  '(q, q_idx) ← pbuf_skip_const σ p offset;
  match q with
  | Some a => x ← σ !! a; Some (if q_idx <? len x then m (payload x + q_idx) else -1)
  | None => Some (-1)
  end.

Definition pbuf_get_at (σ : store) (m : Z -> Z) (p : option Z) (offset : Z) : option Z :=
  r ← pbuf_try_get_at σ m p offset; Some (if 0 <=? r then u8 r else 0).

(** ** Reference counts *)

(** The number of buffers whose [next] is [a]. *)
Definition refs (σ : store) (a : Z) : Z := Z.of_nat (size (filter (fun '(_, x) => next x = Some a) σ)).

Definition points (x : pbuf) (a : Z) : Z := if decide (next x = Some a) then 1 else 0.

(** [own a]: the pointers to [a] that the stack, the drivers and the applications hold. *)
Definition inc (own : Z -> Z) (a : Z) : Z -> Z := fun x => own x + if x =? a then 1 else 0.
Definition dec (own : Z -> Z) (a : Z) : Z -> Z := fun x => own x - if x =? a then 1 else 0.

(** The count of a buffer is the number of pointers to it, and no pointer leads to a
    buffer that was given back. *)
Record counted (σ : store) (own : Z -> Z) : Prop := {
  ct_own : forall a, 0 <= own a;
  ct_ref : forall a x, σ !! a = Some x -> ref x = own a + refs σ a /\ 0 < ref x < 256 /\ is_Some (free_source x);
  ct_gone : forall a, σ !! a = None -> own a = 0 /\ refs σ a = 0;
}.

#[export] Instance counted_proper : Proper (eq ==> pointwise_relation Z eq ==> iff) counted.
Proof.
  intros σ ? <- o o' E. split; intros [H1 H2 H3]; split.
  - intros a. by rewrite <- (E a).
  - intros a x. rewrite <- (E a). apply H2.
  - intros a. rewrite <- (E a). apply H3.
  - intros a. by rewrite (E a).
  - intros a x. rewrite (E a). apply H2.
  - intros a. rewrite (E a). apply H3.
Qed.

Lemma refs_new σ b y a : σ !! b = None -> refs (<[b := y]> σ) a = refs σ a + points y a.
Proof.
  intros H. unfold refs, points. destruct (decide (next y = Some a)).
  - rewrite map_filter_insert_True by done. rewrite map_size_insert_None; [lia|]. apply map_lookup_filter_None. by left.
  - rewrite map_filter_insert_False by done. rewrite delete_id by done. lia.
Qed.

Lemma refs_delete σ b x a : σ !! b = Some x -> refs (delete b σ) a = refs σ a - points x a.
Proof.
  intros H. pose proof (refs_new (delete b σ) b x a (lookup_delete_eq _ _)) as E.
  rewrite insert_delete_id in E by done. lia.
Qed.

Lemma refs_set σ b x y a : σ !! b = Some x -> refs (<[b := y]> σ) a = refs σ a - points x a + points y a.
Proof.
  intros H. rewrite <- insert_delete_eq, refs_new by (by rewrite lookup_delete_eq). by rewrite (refs_delete _ _ _ _ H).
Qed.

Lemma refs_nonneg σ a : 0 <= refs σ a.
Proof. unfold refs. lia. Qed.

Lemma points_bound x a : 0 <= points x a <= 1.
Proof. unfold points. case_decide; lia. Qed.

(** A buffer that points to [a] is counted. *)
Lemma refs_pos σ b x a : σ !! b = Some x -> next x = Some a -> 0 < refs σ a.
Proof.
  intros H Hn. pose proof (refs_delete σ b x a H) as E. pose proof (refs_nonneg (delete b σ) a).
  unfold points in E. rewrite decide_True in E by done. lia.
Qed.

Lemma counted_next σ own b x a : counted σ own -> σ !! b = Some x -> next x = Some a -> is_Some (σ !! a).
Proof.
  intros HC Hb Hn. destruct (σ !! a) eqn:E; [by eexists|]. destruct (ct_gone _ _ HC a E) as [_ H].
  pose proof (refs_pos σ b x a Hb Hn). lia.
Qed.

(** Fields that are not counted. *)
Lemma counted_set σ own b x y : counted σ own -> σ !! b = Some x -> next y = next x -> ref y = ref x ->
  free_source y = free_source x -> counted (<[b := y]> σ) own.
Proof.
  intros [H1 H2 H3] Hb Hn Hr Hs.
  assert (forall a, refs (<[b := y]> σ) a = refs σ a) as E.
  { intros a. rewrite (refs_set _ _ _ _ _ Hb). unfold points. rewrite Hn. lia. }
  split; [done| |].
  - intros a z Hz. rewrite E. destruct (decide (a = b)) as [->|Hne].
    + rewrite lookup_insert_eq in Hz. injection Hz as <-. rewrite Hr, Hs. by apply H2.
    + rewrite lookup_insert_ne in Hz by done. by apply H2.
  - intros a. rewrite E. intros [Ha _]%lookup_insert_None. by apply H3.
Qed.

(** A pointer to [t] is moved from an owner into the chain. *)
Lemma counted_link σ own b x t : counted σ own -> σ !! b = Some x -> next x = None -> 0 < own t ->
  counted (<[b := set_next x (Some t)]> σ) (dec own t).
Proof.
  intros [H1 H2 H3] Hb Hn Ht.
  assert (forall a, refs (<[b := set_next x (Some t)]> σ) a = refs σ a + if a =? t then 1 else 0) as E.
  { intros a. rewrite (refs_set _ _ _ _ _ Hb). unfold points. rewrite Hn. cbn.
    rewrite (decide_False (P := None = Some a)) by done.
    destruct (Z.eqb_spec a t) as [->|]; [rewrite decide_True by done|rewrite decide_False by congruence]; lia. }
  split.
  - intros a. unfold dec. destruct (Z.eqb_spec a t) as [->|]; [lia|]. specialize (H1 a). lia.
  - intros a z Hz. rewrite E. unfold dec. destruct (decide (a = b)) as [->|Hne].
    + rewrite lookup_insert_eq in Hz. injection Hz as <-. cbn. destruct (H2 b x Hb) as (E1 & E2 & E3).
      split_and!; try done; lia.
    + rewrite lookup_insert_ne in Hz by done. destruct (H2 a z Hz) as (E1 & E2 & E3). split_and!; try done; lia.
  - intros a [Ha _]%lookup_insert_None. rewrite E. unfold dec. destruct (H3 a Ha) as [E1 E2].
    destruct (Z.eqb_spec a t) as [->|]; lia.
Qed.

(** And back: the caller now holds the pointer that was in the chain. *)
Lemma counted_unlink σ own b x t : counted σ own -> σ !! b = Some x -> next x = Some t ->
  counted (<[b := set_next x None]> σ) (inc own t).
Proof.
  intros HC Hb Hn. pose proof HC as [H1 H2 H3].
  assert (forall a, refs (<[b := set_next x None]> σ) a = refs σ a - if a =? t then 1 else 0) as E.
  { intros a. rewrite (refs_set _ _ _ _ _ Hb). unfold points. rewrite Hn. cbn.
    rewrite (decide_False (P := None = Some a)) by done.
    destruct (Z.eqb_spec a t) as [->|]; [rewrite decide_True by done|rewrite decide_False by congruence]; lia. }
  split.
  - intros a. unfold inc. specialize (H1 a). case_match; lia.
  - intros a z Hz. rewrite E. unfold inc. destruct (decide (a = b)) as [->|Hne].
    + rewrite lookup_insert_eq in Hz. injection Hz as <-. cbn. destruct (H2 b x Hb) as (E1 & E2 & E3).
      split_and!; try done; lia.
    + rewrite lookup_insert_ne in Hz by done. destruct (H2 a z Hz) as (E1 & E2 & E3). split_and!; try done; lia.
  - intros a [Ha _]%lookup_insert_None. rewrite E. unfold inc. destruct (H3 a Ha) as [E1 E2].
    destruct (Z.eqb_spec a t) as [->|]; [|lia]. destruct (counted_next _ _ _ _ _ HC Hb Hn). congruence.
Qed.

Lemma counted_new σ own a x : counted σ own -> σ !! a = None -> next x = None -> ref x = 1 -> is_Some (free_source x) ->
  counted (<[a := x]> σ) (inc own a).
Proof.
  intros [H1 H2 H3] Ha Hn Hr Hs.
  assert (forall b, refs (<[a := x]> σ) b = refs σ b) as E.
  { intros b. rewrite refs_new by done. unfold points. rewrite Hn, decide_False by done. lia. }
  split.
  - intros b. unfold inc. specialize (H1 b). case_match; lia.
  - intros b z Hz. rewrite E. unfold inc. destruct (decide (b = a)) as [->|Hne].
    + rewrite lookup_insert_eq in Hz. injection Hz as <-. rewrite Z.eqb_refl. destruct (H3 a Ha) as [E1 E2].
      split_and!; try done; lia.
    + rewrite lookup_insert_ne in Hz by done. rewrite (proj2 (Z.eqb_neq b a)) by done. destruct (H2 b z Hz). split; [lia|done].
  - intros b [Hb Hne]%lookup_insert_None. rewrite E. unfold inc. rewrite (proj2 (Z.eqb_neq b a)) by done.
    destruct (H3 b Hb). lia.
Qed.

(** A pointer less to a buffer that stays. *)
Lemma counted_ref σ own a x d : counted σ own -> σ !! a = Some x -> 0 <= own a + d -> 0 < ref x + d < 256 ->
  counted (<[a := set_ref x (ref x + d)]> σ) (fun b => own b + if b =? a then d else 0).
Proof.
  intros [H1 H2 H3] Ha Hd Hr.
  assert (forall b, refs (<[a := set_ref x (ref x + d)]> σ) b = refs σ b) as E.
  { intros b. rewrite (refs_set _ _ _ _ _ Ha). unfold points. cbn. lia. }
  split.
  - intros b. specialize (H1 b). destruct (Z.eqb_spec b a) as [->|]; lia.
  - intros b z Hz. rewrite E. destruct (decide (b = a)) as [->|Hne].
    + rewrite lookup_insert_eq in Hz. injection Hz as <-. rewrite Z.eqb_refl. destruct (H2 a x Ha) as (E1 & E2 & E3).
      cbn. split_and!; try done; lia.
    + rewrite lookup_insert_ne in Hz by done. rewrite (proj2 (Z.eqb_neq b a)) by done. destruct (H2 b z Hz). split; [lia|done].
  - intros b [Hb Hne]%lookup_insert_None. rewrite E. rewrite (proj2 (Z.eqb_neq b a)) by done. destruct (H3 b Hb). lia.
Qed.

(** The last pointer to a buffer goes: the pointer the buffer held becomes the caller's. *)
Lemma counted_drop σ own a x : counted σ own -> σ !! a = Some x -> 0 < own a -> ref x = 1 ->
  counted (delete a σ) (match next x with Some b => inc (dec own a) b | None => dec own a end).
Proof.
  intros HC Ha Ho Hr. pose proof HC as [H1 H2 H3]. destruct (H2 a x Ha) as (E1 & _ & _). pose proof (refs_nonneg σ a).
  assert (forall b, (match next x with Some b => inc (dec own a) b | None => dec own a end) b
                    = own b - (if b =? a then 1 else 0) + points x b) as Eo.
  { intros b. unfold points, inc, dec. destruct (next x) as [t|].
    - destruct (Z.eqb_spec b t) as [->|]; [rewrite decide_True by done|rewrite decide_False by congruence]; lia.
    - rewrite decide_False by done. lia. }
  assert (points x a = 0) as Hp.
  { pose proof (refs_delete σ a x a Ha). pose proof (refs_nonneg (delete a σ) a). pose proof (points_bound x a). lia. }
  split.
  - intros b. rewrite Eo. pose proof (points_bound x b). specialize (H1 b). destruct (Z.eqb_spec b a) as [->|]; lia.
  - intros b z Hz. rewrite Eo, (refs_delete _ _ _ _ Ha). apply lookup_delete_Some in Hz as [Hne Hz].
    destruct (Z.eqb_spec b a) as [->|]; [done|]. destruct (H2 b z Hz) as (F1 & F2). split; [lia|done].
  - intros b [->|Hb]%lookup_delete_None; rewrite Eo, (refs_delete _ _ _ _ Ha).
    + rewrite Z.eqb_refl. lia.
    + destruct (Z.eqb_spec b a) as [->|]; [congruence|]. destruct (H3 b Hb) as [F1 F2].
      assert (points x b = 0); [|lia]. unfold points. case_decide as Hx; [|done].
      destruct (counted_next _ _ _ _ _ HC Ha Hx). congruence.
Qed.

(** What a call that may give buffers back leaves: the buffers that are left have only
    their count changed; those that are gone were given back once, to where they came from. *)
Record released (σ σ' : store) (k : list (Z * Z)) : Prop := {
  rl_kept : forall b x', σ' !! b = Some x' -> exists x, σ !! b = Some x /\ x' = set_ref x (ref x');
  rl_gone : forall b, (exists x, σ !! b = Some x) -> σ' !! b = None -> b ∈ k.*2;
  rl_once : NoDup k.*2;
  rl_source : forall src b, (src, b) ∈ k -> σ' !! b = None /\ exists x, σ !! b = Some x /\ free_source x = Some src;
}.

Lemma set_ref_id x : x = set_ref x (ref x).
Proof. by destruct x. Qed.

Lemma released_one σ a x r : σ !! a = Some x -> released σ (<[a := set_ref x r]> σ) [].
Proof.
  intros Ha. split; try by constructor.
  - intros b x' [[-> <-]|[Hne Hb]]%lookup_insert_Some; [by exists x|]. exists x'. split; [done|apply set_ref_id].
  - intros b [y Hb] [Hn _]%lookup_insert_None. congruence.
  - by intros src b ?%elem_of_nil.
Qed.

Lemma released_more σ σ' a x src k : σ !! a = Some x -> free_source x = Some src -> released (delete a σ) σ' k ->
  released σ σ' ((src, a) :: k).
Proof.
  intros Ha Hs [R1 R2 R3 R4]. assert (σ' !! a = None) as Hn.
  { destruct (σ' !! a) eqn:E; [|done]. destruct (R1 _ _ E) as (y & Hy & _). by rewrite lookup_delete_eq in Hy. }
  split.
  - intros b x' Hb. destruct (R1 b x' Hb) as (y & [_ Hy]%lookup_delete_Some & E). by exists y.
  - intros b [y Hy] Hb. cbn. destruct (decide (b = a)) as [->|Hne]; [left|]. right. apply R2; [|done].
    exists y. by rewrite lookup_delete_ne.
  - cbn. constructor; [|done]. intros ([s b] & -> & Hin)%list_elem_of_fmap. destruct (R4 _ _ Hin) as (_ & y & Hy & _).
    cbn in Hy. by rewrite lookup_delete_eq in Hy.
  - intros s b [[= -> ->]|Hin]%elem_of_cons; [by eauto|]. destruct (R4 _ _ Hin) as (Hb & y & [_ Hy]%lookup_delete_Some & E).
    eauto.
Qed.

Lemma dec_inc own a : pointwise_relation Z eq (dec (inc own a) a) own.
Proof. intros x. unfold dec, inc. lia. Qed.

Lemma free_counted fuel : forall σ own a, (size σ < fuel)%nat -> counted σ own -> 0 < own a ->
  exists σ' k, free_loop fuel σ (Some a) = Some (σ', k) /\ counted σ' (dec own a) /\ released σ σ' k.
Proof.
  induction fuel as [|fuel IH]; intros σ own a Hf HC Ho; [lia|].
  destruct (σ !! a) as [x|] eqn:Ha; [|destruct (ct_gone _ _ HC a Ha); lia].
  destruct (ct_ref _ _ HC a x Ha) as (E1 & E2 & [src Hsrc]). pose proof (refs_nonneg σ a).
  cbn [free_loop]. rewrite Ha. cbn [mbind option_bind]. rewrite option_guard_True by lia. cbn [mbind option_bind].
  destruct (Z.eqb_spec (ref x - 1) 0) as [H1|H1].
  - rewrite Hsrc. cbn [mbind option_bind]. pose proof (counted_drop _ _ _ _ HC Ha Ho ltac:(lia)) as HD.
    assert (size (delete a σ) < fuel)%nat as Hsz.
    { rewrite map_size_delete_Some by (by eexists). enough (size σ <> 0)%nat by lia.
      intros ->%map_size_empty_inv. by rewrite lookup_empty in Ha. }
    destruct (next x) as [b|].
    + destruct (IH _ _ b Hsz HD) as (σ' & k & -> & HC' & HR).
      { unfold inc, dec. rewrite Z.eqb_refl. pose proof (ct_own _ _ HC b).
        destruct (Z.eqb_spec b a) as [->|]; lia. }
      eexists _, _. split; [done|]. rewrite dec_inc in HC'. split; [done|]. by eapply released_more.
    + destruct fuel; cbn; (eexists _, _; split; [done|]; split; [done|]).
      all: eapply released_more; [done..|]. all: split; try by constructor.
      all: try by intros ? ? ?%elem_of_nil. all: try (intros b y Hb; exists y; split; [done|apply set_ref_id]).
      all: intros b [y Hy]; congruence.
  - eexists _, _. split; [done|]. split; [|by apply released_one].
    replace (ref x - 1) with (ref x + -1) by lia. eapply counted_proper; [done| |apply (counted_ref σ own a x (-1))]; try done; try lia.
    intros b. unfold dec. case_match; lia.
Qed.

(** ** Packets *)

Definition plen (σ : store) (a : Z) : Z := match σ !! a with Some x => len x | None => 0 end.
Definition total (σ : store) (l : list Z) : Z := foldr (fun a n => plen σ a + n) 0 l.

(** [l] are the buffers of the chain at [p], each with the length of what follows. *)
Fixpoint packet (σ : store) (p : option Z) (l : list Z) : Prop :=
  match l with
  | [] => p = None
  | a :: r => p = Some a /\ exists x, σ !! a = Some x /\ 0 <= len x /\
      tot_len x = len x + total σ r /\ tot_len x < 65536 /\ packet σ (next x) r
  end.

Definition pbytes (σ : store) (m : Z -> Z) (a : Z) : list Z :=
  match σ !! a with Some x => load m (payload x) (len x) | None => [] end.

(** The contents of a packet. *)
Definition contents (σ : store) (m : Z -> Z) (l : list Z) : list Z := concat (pbytes σ m <$> l).

(** The buffers of [l] have the same data in both stores. *)
Definition same_data (σ σ' : store) (l : list Z) : Prop :=
  forall a, a ∈ l -> exists x x', σ !! a = Some x /\ σ' !! a = Some x' /\ payload x' = payload x /\ len x' = len x.

Definition same_chain (σ σ' : store) (l : list Z) : Prop :=
  forall a, a ∈ l -> exists x x', σ !! a = Some x /\ σ' !! a = Some x' /\ payload x' = payload x /\ len x' = len x /\
    tot_len x' = tot_len x /\ next x' = next x.

Lemma total_cons σ a l : total σ (a :: l) = plen σ a + total σ l.
Proof. done. Qed.
Lemma contents_cons σ m a l : contents σ m (a :: l) = pbytes σ m a ++ contents σ m l.
Proof. done. Qed.
Lemma contents_app σ m l k : contents σ m (l ++ k) = contents σ m l ++ contents σ m k.
Proof. unfold contents. by rewrite fmap_app, concat_app. Qed.

Lemma same_data_total σ σ' l : same_data σ σ' l -> total σ' l = total σ l.
Proof.
  induction l as [|a l IH]; intros H; [done|]. rewrite !total_cons, IH by (intros b Hb; apply H; by right).
  destruct (H a) as (x & x' & E & E' & _ & El); [by left|]. unfold plen. by rewrite E, E', El.
Qed.

Lemma same_data_contents σ σ' m l : same_data σ σ' l -> contents σ' m l = contents σ m l.
Proof.
  induction l as [|a l IH]; intros H; [done|]. rewrite !contents_cons, IH by (intros b Hb; apply H; by right).
  destruct (H a) as (x & x' & E & E' & Ep & El); [by left|]. unfold pbytes. by rewrite E, E', El, Ep.
Qed.

Lemma same_chain_data σ σ' l : same_chain σ σ' l -> same_data σ σ' l.
Proof. intros H a Ha. destruct (H a Ha) as (x & x' & ? & ? & ? & ? & _). eauto 10. Qed.

Lemma same_chain_packet σ σ' l : forall p, same_chain σ σ' l -> packet σ p l -> packet σ' p l.
Proof.
  induction l as [|a l IH]; intros p H; [done|]. cbn [packet]. intros (-> & x & E & H0 & Ht & Hb & Hp). split; [done|].
  assert (same_chain σ σ' l) as Hl by (intros b Hb'; apply H; by right).
  destruct (H a) as (y & x' & E1 & E2 & _ & El & Et & En); [by left|]. rewrite E in E1. injection E1 as <-.
  exists x'. rewrite El, Et, En, (same_data_total σ σ' l) by (by apply same_chain_data).
  split_and!; try done. by apply IH.
Qed.

Lemma packet_unique σ l : forall p l', packet σ p l -> packet σ p l' -> l = l'.
Proof.
  induction l as [|a l IH]; intros p [|b l']; try done; cbn; [naive_solver..|].
  intros (-> & x & E & _ & _ & _ & Hp) ([= ->] & y & E' & _ & _ & _ & Hp'). rewrite E in E'. injection E' as <-.
  f_equal. by eapply IH.
Qed.

Lemma packet_suffix σ l1 l2 : forall p, packet σ p (l1 ++ l2) -> exists q, packet σ q l2.
Proof. induction l1 as [|a l1 IH]; cbn; [eauto|]. intros p (_ & x & _ & _ & _ & _ & Hp). by eapply IH. Qed.

Lemma packet_nodup σ l : forall p, packet σ p l -> NoDup l.
Proof.
  induction l as [|a l IH]; intros p; [constructor|]. intros Hp. pose proof Hp as (_ & x & E & _ & _ & _ & Hr). constructor; [|eauto].
  intros (l1 & l2 & ->)%list_elem_of_split.
  destruct (packet_suffix σ (a :: l1) (a :: l2) p Hp) as [q Hq]. pose proof Hq as [-> _].
  destruct Hp as [-> Hp]. assert (packet σ (Some a) (a :: l1 ++ a :: l2)) as Hp' by (by split).
  pose proof (packet_unique _ _ _ _ Hp' Hq) as Eq. apply (f_equal length) in Eq. cbn in Eq. rewrite length_app in Eq. cbn in Eq. lia.
Qed.

Lemma packet_size σ p l : packet σ p l -> (length l <= size σ)%nat.
Proof.
  intros Hp. pose proof (packet_nodup _ _ _ Hp) as Hn. rewrite <- size_dom.
  rewrite <- (size_list_to_set (C := gset Z) l Hn). apply subseteq_size. intros a. rewrite elem_of_list_to_set, elem_of_dom.
  clear Hn. revert p Hp. induction l as [|b l IH]; intros p; [by intros _ ?%elem_of_nil|].
  intros (_ & x & E & _ & _ & _ & Hp) [->|Ha]%elem_of_cons; [by eexists|by eapply IH].
Qed.

Lemma packet_total_nonneg σ l : forall p, packet σ p l -> 0 <= total σ l.
Proof.
  induction l as [|a l IH]; intros p; [done|]. intros (_ & x & E & H0 & _ & _ & Hp). rewrite total_cons. unfold plen.
  rewrite E. specialize (IH _ Hp). lia.
Qed.

Lemma same_chain_insert σ a x l : a ∉ l -> (forall b, b ∈ l -> is_Some (σ !! b)) -> same_chain σ (<[a := x]> σ) l.
Proof.
  intros Ha Hl b Hb. destruct (Hl b Hb) as [y Hy]. exists y, y. rewrite lookup_insert_ne by set_solver. by split_and!.
Qed.

Lemma packet_defined σ l : forall p b, packet σ p l -> b ∈ l -> is_Some (σ !! b).
Proof.
  induction l as [|a l IH]; intros p b; [by intros _ ?%elem_of_nil|].
  intros (_ & x & E & _ & _ & _ & Hp) [->|Hb]%elem_of_cons; [by eexists|by eapply IH].
Qed.

Lemma packet_insert σ a x p l : a ∉ l -> packet σ p l -> packet (<[a := x]> σ) p l.
Proof. intros Ha Hp. eapply same_chain_packet; [|done]. apply same_chain_insert; [done|]. intros b. by eapply packet_defined. Qed.

Lemma total_app σ l k : total σ (l ++ k) = total σ l + total σ k.
Proof. induction l as [|a l IH]; [done|]. cbn [app]. rewrite !total_cons, IH. lia. Qed.

Lemma same_data_trans σ1 σ2 σ3 l : same_data σ1 σ2 l -> same_data σ2 σ3 l -> same_data σ1 σ3 l.
Proof.
  intros H1 H2 a Ha. destruct (H1 a Ha) as (x & y & ? & Ey & ? & ?). destruct (H2 a Ha) as (z & w & Ez & ? & ? & ?).
  rewrite Ey in Ez. injection Ez as <-. exists x, w. split_and!; congruence.
Qed.

Lemma same_data_app σ σ' l k : same_data σ σ' l -> same_data σ σ' k -> same_data σ σ' (l ++ k).
Proof. intros H1 H2 a [Ha|Ha]%elem_of_app; auto. Qed.

Lemma same_data_frame σ σ' p l k : packet σ p l -> (forall b, b ∉ k -> σ' !! b = σ !! b) -> l ## k -> same_chain σ σ' l.
Proof.
  intros Hp Hf Hd a Ha. destruct (packet_defined σ l p a Hp Ha) as [x Hx]. exists x, x. rewrite Hf by set_solver.
  by split_and!.
Qed.

Lemma insert_frame (σ : store) a x b : b ∉ [a] -> <[a := x]> σ !! b = σ !! b.
Proof. intros H. rewrite lookup_insert_ne; [done|]. intros ->. apply H. by left. Qed.

Lemma plen_is σ a x : σ !! a = Some x -> plen σ a = len x.
Proof. intros H. unfold plen. by rewrite H. Qed.

Lemma head_total σ a l : packet σ (Some a) l -> exists x, σ !! a = Some x /\ total σ l = tot_len x /\ a ∈ l.
Proof.
  destruct l as [|b l]; [done|]. intros ([= <-] & x & E & _ & Et & _). exists x. rewrite total_cons, (plen_is _ _ _ E).
  split_and!; [done|lia|by left].
Qed.

(** The last buffer of the first chain. *)
Lemma cat_last σ a x t lt n : σ !! a = Some x -> 0 <= len x -> next x = None -> a ∉ lt -> packet σ (Some t) lt ->
  n = len x + total σ lt -> n < 65536 ->
  let σ' := <[a := set_next (set_tot x n) (Some t)]> σ in
  packet σ' (Some a) (a :: lt) /\ same_data σ σ' [a] /\
  (forall own, counted σ own -> 0 < own t -> counted σ' (dec own t)).
Proof.
  intros Ex H0 Hn Ha Ht En Hlt. cbv zeta. split_and!.
  - split; [done|]. eexists. split; [apply lookup_insert_eq|]. split_and!; try done; [|by apply packet_insert].
    rewrite (same_data_total σ); [done|]. eapply same_chain_data, same_data_frame; [done|apply insert_frame|set_solver].
  - intros b ->%list_elem_of_singleton. eexists x, _. by rewrite lookup_insert_eq.
  - intros own HC Ho. rewrite <- (insert_insert_eq σ a _ (set_tot x n)).
    apply (counted_link _ own a (set_tot x n)); [|by rewrite lookup_insert_eq|done|done].
    by apply (counted_set σ own a x).
Qed.

(** Concatenation: the totals of the first chain grow, its last buffer points to [t]. *)
Lemma cat_loop_spec t lt lh : forall fuel σ h, (length lh <= fuel)%nat ->
  packet σ (Some h) lh -> packet σ (Some t) lt -> lh ## lt -> total σ lh + total σ lt < 65536 ->
  exists σ', cat_loop fuel σ h t = Some σ' /\ packet σ' (Some h) (lh ++ lt) /\ same_data σ σ' lh /\
    (forall b, b ∉ lh -> σ' !! b = σ !! b) /\
    (forall own, counted σ own -> 0 < own t -> counted σ' (dec own t)).
Proof.
  induction lh as [|a lh IH]; intros fuel σ h Hf Hh Ht Hd Hb; [done|].
  destruct fuel as [|fuel]; [cbn in Hf; lia|]. pose proof (packet_nodup _ _ _ Hh) as [Ha Hn]%NoDup_cons.
  destruct Hh as ([= ->] & x & Ex & H0 & Htot & Hlt & Hp).
  destruct (head_total _ _ _ Ht) as (y & Ey & Ety & _). rewrite total_cons, (plen_is _ _ _ Ex) in Hb.
  pose proof (packet_total_nonneg _ _ _ Hp) as Hnn. pose proof (packet_total_nonneg _ _ _ Ht) as Hnt.
  cbn [cat_loop]. rewrite Ex, Ey. cbn [mbind option_bind]. rewrite (u16_small (tot_len x + tot_len y)) by lia.
  assert (a ∉ lt) as Hat by set_solver.
  destruct lh as [|q lh].
  { cbn in Hp. rewrite Hp. change (total σ []) with 0 in *. rewrite option_guard_True by lia. eexists. split; [done|].
    destruct (cat_last σ a x t lt (tot_len x + tot_len y)) as (P1 & P2 & P3); try done; try lia.
    split_and!; try done. apply insert_frame. }
  destruct Hp as [Hq Hp]. rewrite Hq. set (x1 := set_tot x (tot_len x + tot_len y)).
  assert (packet σ (Some q) (q :: lh)) as Hp' by (by split).
  pose proof (same_chain_data _ _ _ (same_data_frame σ _ _ _ [a] Hp' (insert_frame σ a x1) ltac:(set_solver))) as S1.
  pose proof (same_chain_data _ _ _ (same_data_frame σ _ _ _ [a] Ht (insert_frame σ a x1) ltac:(set_solver))) as S2.
  destruct (IH fuel (<[a := x1]> σ) q) as (σ' & E & P1 & P2 & P3 & P4).
  - cbn in Hf |- *. lia.
  - by apply packet_insert.
  - by apply packet_insert.
  - set_solver.
  - rewrite (same_data_total σ _ (q :: lh)), (same_data_total σ _ lt) by done. lia.
  - exists σ'. assert (σ' !! a = Some x1) as Ea by (rewrite P3 by done; by rewrite lookup_insert_eq).
    assert (same_data σ σ' (q :: lh)) as S3 by (by eapply same_data_trans).
    assert (same_data σ σ' lt) as S4.
    { eapply same_data_trans; [exact S2|]. eapply same_chain_data, same_data_frame; [by apply packet_insert|exact P3|set_solver]. }
    split_and!; try done.
    + split; [done|]. exists x1. rewrite total_app, (same_data_total σ _ (q :: lh)), (same_data_total σ _ lt) by done.
      unfold x1. cbn [tot_len len set_tot next]. rewrite Hq. split_and!; try done; lia.
    + intros b [->|Hb']%elem_of_cons; [exists x, x1; by split_and!|by apply S3].
    + intros b Hb'. rewrite P3 by set_solver. apply insert_frame. set_solver.
    + intros own HC. apply P4. by apply (counted_set σ own a x).
Qed.

Lemma pbuf_cat_spec σ h t lh lt : packet σ (Some h) lh -> packet σ (Some t) lt -> lh ## lt ->
  total σ lh + total σ lt < 65536 ->
  exists σ', pbuf_cat σ (Some h) (Some t) = Some σ' /\ packet σ' (Some h) (lh ++ lt) /\ packet σ' (Some t) lt /\
    (forall m, contents σ' m (lh ++ lt) = contents σ m lh ++ contents σ m lt) /\
    (forall b, b ∉ lh -> σ' !! b = σ !! b) /\
    (forall own, counted σ own -> 0 < own t -> counted σ' (dec own t)).
Proof.
  intros Hh Ht Hd Hb. pose proof (packet_size _ _ _ Hh).
  destruct (cat_loop_spec t lt lh (S (size σ)) σ h) as (σ' & E & P1 & P2 & P3 & P4); try done; [lia|].
  pose proof (same_data_frame σ σ' _ lt lh Ht P3 ltac:(set_solver)) as S. exists σ'. split_and!; try done.
  - by eapply same_chain_packet.
  - intros m. rewrite contents_app. f_equal; apply same_data_contents; [done|by apply same_chain_data].
Qed.

(** ** Giving back the end of a packet *)

Lemma packet_delete σ a p l : a ∉ l -> packet σ p l -> packet (delete a σ) p l.
Proof.
  intros Ha Hp. eapply same_chain_packet; [|done]. eapply (same_data_frame _ _ _ _ [a]); [done| |set_solver].
  intros b Hb. rewrite lookup_delete_ne; [done|]. intros ->. apply Hb. by left.
Qed.

(** One turn of [pbuf_free] on a chain. *)
Lemma free_turn fuel σ a x l : σ !! a = Some x -> NoDup (a :: l) -> packet σ (next x) l ->
  packet (delete a σ) (next x) l /\
  free_loop (S fuel) σ (Some a) =
    (guard (0 < ref x);;
    if ref x - 1 =? 0 then src ← free_source x; '(σ, k) ← free_loop fuel (delete a σ) (next x); Some (σ, (src, a) :: k)
    else Some (<[a := set_ref x (ref x - 1)]> σ, [])).
Proof.
  intros Ex [Hn _]%NoDup_cons Hp. split; [by apply packet_delete|]. cbn [free_loop]. by rewrite Ex.
Qed.

(** [pbuf_free] reads and changes buffers of its chain only. *)
Lemma free_frame fuel : forall σ p l q y, packet σ p l -> q ∉ l ->
  free_loop fuel (<[q := y]> σ) p = '(σ', k) ← free_loop fuel σ p; Some (<[q := y]> σ', k).
Proof.
  induction fuel as [|fuel IH]; intros σ p [|a l] q y Hp Hq; try (cbn in Hp; subst p; done);
    pose proof (packet_nodup _ _ _ Hp) as Hn; destruct Hp as (-> & x & Ex & _ & _ & _ & Hp); [done|].
  assert (a <> q) as Hne by set_solver.
  destruct (free_turn fuel σ a x l Ex Hn Hp) as [Hd ->].
  destruct (free_turn fuel (<[q := y]> σ) a x l) as [_ ->]; [by rewrite lookup_insert_ne|done|apply packet_insert; [set_solver|done]|].
  case_guard; [|done]. cbn [mbind option_bind]. case_match; [|cbn; by rewrite insert_insert_ne].
  destruct (free_source x) as [src|]; [|done]. cbn [mbind option_bind]. rewrite <- insert_delete_ne by done.
  rewrite (IH _ _ l q y) by (done || set_solver). by destruct (free_loop fuel (delete a σ) (next x)) as [[σ' k]|].
Qed.

Lemma free_untouched fuel : forall σ p l σ' k b, packet σ p l -> free_loop fuel σ p = Some (σ', k) -> b ∉ l ->
  σ' !! b = σ !! b.
Proof.
  induction fuel as [|fuel IH]; intros σ p [|a l] σ' k b Hp E Hb; try (cbn in Hp; subst p; by injection E as <- _);
    pose proof (packet_nodup _ _ _ Hp) as Hn; destruct Hp as (-> & x & Ex & _ & _ & _ & Hp); [done|].
  assert (a <> b) as Hne by set_solver. destruct (free_turn fuel σ a x l Ex Hn Hp) as [Hd F]. rewrite F in E.
  case_guard; [|done]. cbn [mbind option_bind] in E. case_match; [|injection E as <- _; by rewrite lookup_insert_ne].
  destruct (free_source x) as [src|]; [|done]. cbn [mbind option_bind] in E.
  destruct (free_loop fuel (delete a σ) (next x)) as [[σ1 k1]|] eqn:E1; [|done]. injection E as <- _.
  rewrite (IH _ _ l _ _ b Hd E1) by set_solver. by rewrite lookup_delete_ne.
Qed.

Lemma pbuf_free_eq σ a :
  pbuf_free σ (Some a) = '(σ', k) ← free_loop (S (size σ)) σ (Some a); Some (σ', k, u8 (Zlen k)).
Proof. unfold pbuf_free. by rewrite option_guard_True. Qed.

Lemma pbuf_free_spec σ own a : counted σ own -> 0 < own a ->
  exists σ' k, pbuf_free σ (Some a) = Some (σ', k, u8 (Zlen k)) /\ counted σ' (dec own a) /\ released σ σ' k /\
    (forall l b, packet σ (Some a) l -> b ∉ l -> σ' !! b = σ !! b).
Proof.
  intros HC Ho. destruct (free_counted (S (size σ)) σ own a) as (σ' & k & E & HC' & HR); [lia|done|done|].
  exists σ', k. rewrite pbuf_free_eq, E. split_and!; try done.
  intros l b Hp Hb. by eapply free_untouched.
Qed.

(** The buffer [q], whose next is [n], gives up its tail. *)
Lemma cut_tail σ own q y w n l : counted σ own -> σ !! q = Some y -> next y = Some n -> packet σ (Some n) l -> q ∉ l ->
  ref w = ref y -> free_source w = free_source y -> next w = None ->
  exists σ' k c, pbuf_free (<[q := w]> σ) (Some n) = Some (σ', k, c) /\ counted σ' own /\ released (<[q := w]> σ) σ' k /\
    σ' !! q = Some w /\ (forall b, b ∉ q :: l -> σ' !! b = σ !! b) /\
    forall z, exists σ'', pbuf_free (<[q := z]> σ) (Some n) = Some (σ'', k, c) /\ <[q := w]> σ'' = σ' /\ σ'' !! q = Some z.
Proof.
  intros HC Hq Hn Hp Hql Hr Hs Hw.
  assert (counted (<[q := w]> σ) (inc own n)) as HC'.
  { rewrite <- (insert_insert_eq σ q w (set_next y None)). eapply counted_set; [|apply lookup_insert_eq|done..].
    by apply counted_unlink. }
  assert (0 < inc own n n) as Ho by (unfold inc; rewrite Z.eqb_refl; pose proof (ct_own _ _ HC n); lia).
  destruct (pbuf_free_spec _ _ _ HC' Ho) as (σ' & k & E & HC2 & HR & HU). rewrite dec_inc in HC2.
  pose proof (packet_insert σ q w (Some n) l Hql Hp) as Hp'.
  assert (σ' !! q = Some w) as Hqw by (rewrite (HU l q) by done; apply lookup_insert_eq).
  exists σ', k, (u8 (Zlen k)). split_and!; try done.
  - intros b Hb. rewrite (HU l b) by (done || set_solver). apply lookup_insert_ne. set_solver.
  - intros z. rewrite pbuf_free_eq in E |- *. rewrite map_size_insert_Some in E |- * by (by eexists).
    rewrite (free_frame _ σ _ l) in E |- * by done.
    destruct (free_loop (S (size σ)) σ (Some n)) as [[σ1 k1]|]; [|done]. cbn in *. injection E as <- <- _.
    exists (<[q := z]> σ1). split_and!; [done|by rewrite insert_insert_eq|apply lookup_insert_eq].
Qed.

(** ** Shortening a packet *)

Lemma load_length m a n : 0 <= n -> Zlen (load m a n) = n.
Proof. intros H. unfold load, Zlen. rewrite length_fmap, length_seqZ. lia. Qed.

Lemma load_take m a n k : 0 <= k <= n -> load m a k = take (Z.to_nat k) (load m a n).
Proof.
  intros H. unfold load. replace n with (k + (n - k)) by lia. rewrite seqZ_app, fmap_app by lia.
  rewrite take_app_length'; [done|]. rewrite length_fmap, length_seqZ. lia.
Qed.

Lemma load_drop m a n k : 0 <= k <= n -> load m (a + k) (n - k) = drop (Z.to_nat k) (load m a n).
Proof.
  intros H. unfold load. replace n with (k + (n - k)) at 2 by lia. rewrite seqZ_app, fmap_app by lia.
  rewrite drop_app_length'; [done|]. rewrite length_fmap, length_seqZ. lia.
Qed.

Lemma pbytes_length σ m a x : σ !! a = Some x -> 0 <= len x -> Zlen (pbytes σ m a) = plen σ a.
Proof. intros E H. unfold pbytes, plen. rewrite E. by apply load_length. Qed.

Lemma packet_prefix_len σ m k l : forall p, packet σ p (l ++ k) -> Zlen (contents σ m l) = total σ l.
Proof.
  induction l as [|a l IH]; intros p; [done|]. intros (_ & x & E & H0 & _ & _ & Hp).
  rewrite contents_cons, total_cons, Zlen_app, (IH _ Hp), (pbytes_length σ m a x) by done. done.
Qed.

Lemma contents_length σ m l p : packet σ p l -> Zlen (contents σ m l) = total σ l.
Proof. intros Hp. apply (packet_prefix_len σ m [] l p). by rewrite app_nil_r. Qed.

Lemma same_chain_trans σ1 σ2 σ3 l : same_chain σ1 σ2 l -> same_chain σ2 σ3 l -> same_chain σ1 σ3 l.
Proof.
  intros H1 H2 a Ha. destruct (H1 a Ha) as (x & y & ? & Ey & ? & ? & ? & ?). destruct (H2 a Ha) as (z & w & Ez & ? & ? & ? & ? & ?).
  rewrite Ey in Ez. injection Ez as <-. exists x, w. split_and!; congruence.
Qed.

(** The loop stops at the buffer [q] that becomes the last one, with the length [r]; the
    buffers before it are a packet of the new length once [q] has its own. *)
Record stops (σ : store) (p : Z) (l : list Z) (n : Z) (σ1 : store) (l1 : list Z) (q : Z) (l2 : list Z) (r : Z) : Prop := {
  st_list : l = l1 ++ q :: l2;
  st_rest : r = n - total σ l1;
  st_fits : 0 <= r <= plen σ q;
  st_data : same_data σ σ1 l1;
  st_frame : forall b, b ∉ l1 -> σ1 !! b = σ !! b;
  st_counted : forall own, counted σ own -> counted σ1 own;
  st_packet : forall σ2, same_chain σ1 σ2 l1 -> packet σ2 (Some q) [q] -> plen σ2 q = r -> packet σ2 (Some p) (l1 ++ [q]);
}.

Lemma stops_here σ a l n : 0 <= n <= plen σ a -> stops σ a (a :: l) n σ [] a l n.
Proof.
  intros H. split; try done.
  - change (total σ []) with 0. lia.
  - by intros b ?%elem_of_nil.
Qed.

(** A buffer that is kept as it is. *)
Lemma stops_later σ a x b l n σ1 l1 q l2 r : σ !! a = Some x -> 0 <= len x < n -> n < 65536 -> a ∉ b :: l ->
  packet σ (next x) (b :: l) ->
  stops (<[a := set_tot x n]> σ) b (b :: l) (n - len x) σ1 l1 q l2 r ->
  stops σ a (a :: b :: l) n σ1 (a :: l1) q l2 r.
Proof.
  intros Ex Hx Hn Ha Hp [El Er Hr S1 F C P]. set (x1 := set_tot x n) in *.
  assert (a ∉ l1) as Hal by (rewrite El in Ha; set_solver).
  pose proof (same_data_frame σ _ _ _ [a] Hp (insert_frame σ a x1) ltac:(set_solver)) as S.
  assert (same_data σ (<[a := x1]> σ) l1) as Sl1.
  { intros c Hc. apply (same_chain_data _ _ _ S). rewrite El. set_solver. }
  assert (σ1 !! a = Some x1) as E1a by (rewrite F by done; apply lookup_insert_eq).
  assert (a <> q) as Haq by (rewrite El in Ha; set_solver).
  rewrite (same_data_total σ) in Er by done. unfold plen in Hr. rewrite lookup_insert_ne in Hr by done.
  split; try done.
  - by rewrite El.
  - rewrite total_cons, (plen_is _ _ _ Ex). lia.
  - intros c [->|Hc]%elem_of_cons; [exists x, x1; by split_and!|]. by apply (same_data_trans _ _ _ _ Sl1 S1).
  - intros c Hc. rewrite F by set_solver. apply insert_frame. set_solver.
  - intros own HC. apply C. by apply (counted_set σ own a x).
  - intros σ2 Sc Pq Eq. destruct (Sc a) as (u & v & Eu & Ev & _ & Evl & Evt & Evn); [by left|].
    rewrite E1a in Eu. injection Eu as <-. split; [done|]. exists v. rewrite Evn, Evl, Evt. unfold x1. cbn [next len tot_len set_tot].
    assert (same_chain σ1 σ2 l1) as Sc1 by (intros c Hc; apply Sc; by right).
    assert (total σ2 (l1 ++ [q]) = n - len x) as Etl.
    { rewrite total_app, (same_data_total σ1 σ2), (same_data_total _ σ1 l1 S1), (same_data_total σ) by (done || by apply same_chain_data).
      rewrite (total_cons σ2). change (total σ2 []) with 0. lia. }
    pose proof Hp as [Eb _]. rewrite Etl, Eb. split_and!; try done; try lia. by apply P.
Qed.

Lemma realloc_loop_spec l : forall fuel σ p n, (length l <= fuel)%nat -> packet σ (Some p) l -> 0 <= n < total σ l ->
  exists σ1 l1 q l2 r, realloc_loop fuel σ p n (total σ l - n) = Some (σ1, q, r) /\ stops σ p l n σ1 l1 q l2 r.
Proof.
  induction l as [|a l IH]; intros fuel σ p n Hf Hp Hn; [done|].
  destruct fuel as [|fuel]; [cbn in Hf; lia|]. pose proof (packet_nodup _ _ _ Hp) as [Ha Hnd]%NoDup_cons.
  destruct Hp as ([= ->] & x & Ex & H0 & Htot & Hlt & Hp). rewrite total_cons, (plen_is _ _ _ Ex) in *.
  pose proof (packet_total_nonneg _ _ _ Hp) as Hnn.
  cbn [realloc_loop]. rewrite Ex. cbn [mbind option_bind]. destruct (Z.ltb_spec (len x) n) as [Hx|Hx].
  2: { exists σ, [], a, l, n. split; [done|]. apply stops_here. rewrite (plen_is _ _ _ Ex). lia. }
  destruct l as [|b l]; [change (total σ []) with 0 in *; lia|]. pose proof Hp as [Eb _].
  rewrite (u16_small (tot_len x - _)), (u16_small (n - len x)) by lia.
  replace (tot_len x - (len x + total σ (b :: l) - n)) with n by lia. rewrite Eb. cbn [mbind option_bind].
  pose proof (same_data_frame σ _ _ _ [a] Hp (insert_frame σ a (set_tot x n)) ltac:(set_solver)) as S.
  assert (total (<[a := set_tot x n]> σ) (b :: l) = total σ (b :: l)) as Et by (by apply same_data_total, same_chain_data).
  destruct (IH fuel (<[a := set_tot x n]> σ) b (n - len x)) as (σ1 & l1 & q & l2 & r & E & St).
  - cbn in Hf |- *. lia.
  - rewrite Eb in Hp. by eapply same_chain_packet.
  - rewrite Et. lia.
  - rewrite Et in E. replace (len x + total σ (b :: l) - n) with (total σ (b :: l) - (n - len x)) by lia.
    exists σ1, (a :: l1), q, l2, r. split; [done|]. eapply stops_later; try done; lia.
Qed.

Lemma packet_split σ l1 q l2 : forall p, packet σ p (l1 ++ q :: l2) ->
  exists y, σ !! q = Some y /\ 0 <= len y < 65536 /\ packet σ (next y) l2 /\ q ∉ l1 /\ q ∉ l2 /\ l1 ## l2.
Proof.
  intros p Hp. pose proof (packet_nodup _ _ _ Hp) as (_ & Hd & [Hq _]%NoDup_cons)%NoDup_app.
  destruct (packet_suffix σ l1 (q :: l2) p Hp) as (_ & _ & y & E & H0 & Ht & Hlt & Hn). exists y.
  pose proof (packet_total_nonneg _ _ _ Hn). split_and!; try done; [lia|set_solver..].
Qed.

(** The end of [pbuf_realloc]: the tail of [q] is given back, [q] is the last buffer. *)
Lemma realloc_end σ own q y l2 r : counted σ own -> σ !! q = Some y -> packet σ (next y) l2 -> q ∉ l2 ->
  let w := set_lens y (payload y) r r in
  exists σ' k,
    ('(σ, k) ← match next y with
               | Some n => '(σ, k, _) ← pbuf_free (<[q := w]> σ) (Some n); Some (σ, k)
               | None => Some (<[q := w]> σ, [])
               end;
     z ← σ !! q;
     Some (<[q := set_next z None]> σ, k)) = Some (σ', k) /\
    counted σ' own /\ σ' !! q = Some (set_next w None) /\ forall b, b ∉ q :: l2 -> σ' !! b = σ !! b.
Proof.
  intros HC Hq Hp Hl w. destruct (next y) as [n|] eqn:En.
  - destruct (cut_tail σ own q y (set_next w None) n l2) as (σ' & k & c & _ & HC' & _ & Eq & F & Hz); try done.
    destruct (Hz w) as (σ'' & E & <- & Ew). rewrite E. cbn [mbind option_bind]. rewrite Ew. cbn. exists (<[q := set_next w None]> σ''), k.
    by split_and!.
  - cbn [mbind option_bind]. rewrite lookup_insert_eq. cbn. rewrite insert_insert_eq. eexists _, _. split; [done|].
    split_and!; [|apply lookup_insert_eq|].
    + by eapply counted_set.
    + intros b Hb. apply lookup_insert_ne. set_solver.
Qed.

Lemma take_three (n a b : Z) (A B C : list Z) : Zlen A = a -> n = a + b -> 0 <= b <= Zlen B ->
  take (Z.to_nat n) (A ++ B ++ C) = A ++ take (Z.to_nat b) B.
Proof.
  intros HA -> Hb. unfold Zlen in *. rewrite take_app_ge by lia. f_equal. rewrite take_app_le by lia. f_equal. lia.
Qed.

Lemma pbuf_realloc_spec σ own p l n : counted σ own -> packet σ (Some p) l -> 0 <= n ->
  exists σ' k tr l', (forall trim, pbuf_realloc trim σ p n = if trim_passes trim tr then Some (σ', k, tr) else None) /\
    counted σ' own /\ packet σ' (Some p) l' /\ forall m, contents σ' m l' = take (Z.to_nat n) (contents σ m l).
Proof.
  intros HC Hp Hn. destruct (head_total _ _ _ Hp) as (x & Ex & Et & _). unfold pbuf_realloc. rewrite Ex. cbn [mbind option_bind].
  destruct (Z.leb_spec (tot_len x) n) as [Hle|Hlt].
  { eexists _, _, None, l. split; [done|]. split_and!; try done. intros m. rewrite take_ge; [done|].
    pose proof (contents_length σ m l _ Hp). unfold Zlen in *. lia. }
  assert (tot_len x < 65536) as Hx by (destruct l; [done|]; destruct Hp as ([= ->] & ? & ? & _ & _ & ? & _); congruence).
  rewrite u16_small, <- Et by lia. pose proof (packet_size _ _ _ Hp) as Hsz.
  destruct (realloc_loop_spec l (S (size σ)) σ p n) as (σ1 & l1 & q & l2 & r & -> & [El Er Hr S1 F C P]); [lia|done|lia|].
  cbn [mbind option_bind]. subst l. destruct (packet_split _ _ _ _ _ Hp) as (y & Ey & H0 & Hy & Hq1 & Hq2 & Hd).
  assert (σ1 !! q = Some y) as Eq by (by rewrite F). rewrite Eq. cbn [mbind option_bind].
  assert (packet σ1 (next y) l2) as Hy1.
  { eapply same_chain_packet; [|done]. eapply same_data_frame; [done|exact F|set_solver]. }
  destruct (realloc_end σ1 own q y l2 r (C _ HC) Eq Hy1 Hq2) as (σ' & k & E & HC' & Eq' & F').
  rewrite (plen_is _ _ _ Ey) in Hr.
  set (call := if _ && _ && _ then _ else None).
  destruct (match next y with Some _ => _ | None => _ end) as [[σ3 k3]|]; [|done]. cbn [mbind option_bind] in E |- *.
  destruct (σ3 !! q) as [z|]; [|done]. cbn [mbind option_bind] in E |- *. injection E as -> ->.
  assert (same_chain σ1 σ' l1) as Sc.
  { intros b Hb. destruct (S1 b Hb) as (u & v & _ & Ev & _). exists v, v. rewrite F' by set_solver. by split_and!. }
  exists σ', k, call, (l1 ++ [q]). split; [intros trim; by destruct (trim_passes trim call)|]. split_and!; [done| |].
  - apply P; [done| |by rewrite (plen_is _ _ _ Eq')]. split; [done|]. eexists. split; [exact Eq'|].
    cbn [len tot_len next set_next set_lens]. change (total σ' []) with 0. split_and!; try done; lia.
  - intros m. rewrite !contents_app, !contents_cons.
    rewrite (take_three n (total σ l1) r); [|by eapply packet_prefix_len|lia|rewrite (pbytes_length σ m q y), (plen_is _ _ _ Ey) by (done || lia); lia].
    f_equal.
    + apply same_data_contents. eapply same_data_trans; [done|by apply same_chain_data].
    + change (contents σ' m []) with ([] : list Z). rewrite app_nil_r. unfold pbytes. rewrite Ey, Eq'. cbn [len payload set_next set_lens].
      by apply load_take.
Qed.

(** With no buffer given back, the chains are as they were. *)
Lemma released_nothing σ σ' p l : released σ σ' [] -> packet σ p l -> same_chain σ σ' l.
Proof.
  intros [K G _ _] Hp a Ha. destruct (packet_defined σ l p a Hp Ha) as [x Ex].
  destruct (σ' !! a) as [x'|] eqn:E; [|exfalso; eapply (not_elem_of_nil a), (G a); eauto].
  destruct (K a x' E) as (y & Ey & ->). rewrite Ex in Ey. injection Ey as <-. exists x. eexists. by split_and!.
Qed.

Lemma released_count σ σ' k : released σ σ' k -> (length k <= size σ)%nat.
Proof.
  intros [_ _ Hn Hs]. rewrite <- (length_fmap snd), <- size_dom, <- (size_list_to_set (C := gset Z) k.*2 Hn).
  apply subseteq_size. intros a. rewrite elem_of_list_to_set, elem_of_dom. intros ([s b] & -> & Hin)%list_elem_of_fmap.
  destruct (Hs s b Hin) as (_ & x & ? & _). by exists x.
Qed.

(** [pbuf_dechain]: the first buffer alone, and the rest if somebody else holds it. *)
Lemma pbuf_dechain_spec σ own p l : counted σ own -> packet σ (Some p) (p :: l) -> (size σ < 256)%nat ->
  exists σ' k r, pbuf_dechain σ p = Some (σ', k, r) /\ counted σ' own /\ packet σ' (Some p) [p] /\
    (forall m, contents σ' m [p] = pbytes σ m p) /\ (r <> None -> packet σ' r l).
Proof.
  intros HC Hp Hsz. pose proof (packet_nodup _ _ _ Hp) as [Hpl _]%NoDup_cons.
  pose proof Hp as (_ & x & Ex & H0 & Ht & Hlt & Hn). unfold pbuf_dechain. rewrite Ex. cbn [mbind option_bind].
  destruct l as [|q l].
  { change (total σ []) with 0 in Ht. pose proof Hn as En. cbn in En. rewrite En, option_guard_True by lia. eexists _, _, _. split; [done|].
    split_and!; try done. intros m. by rewrite contents_cons, app_nil_r. }
  pose proof Hn as [En _]. rewrite En in *. destruct (head_total _ _ _ Hn) as (y & Ey & Ety & _). rewrite Ey. cbn [mbind option_bind].
  pose proof (packet_total_nonneg _ _ _ Hn). rewrite option_guard_True by lia. rewrite u16_small by lia. cbn [mbind option_bind].
  assert (set_tot y (tot_len x - len x) = y) as -> by (destruct y; unfold set_tot; cbn in *; f_equal; lia).
  rewrite (insert_id σ q y) by done. rewrite Ex. cbn [mbind option_bind].
  set (w := set_tot (set_next x None) (len x)).
  destruct (cut_tail σ own p x w q (q :: l)) as (σ' & k & c & E & HC' & HR & Ep & _ & _); try done.
  rewrite E. cbn [mbind option_bind]. rewrite Ep. cbn [mbind option_bind]. rewrite option_guard_True by done.
  eexists _, _, _. split; [done|]. split_and!; try done.
  - split; [done|]. exists w. cbn [w set_tot set_next len tot_len next]. change (total σ' []) with 0. unfold w. cbn. split_and!; try done; lia.
  - intros m. rewrite contents_cons, app_nil_r. unfold pbytes. by rewrite Ep, Ex.
  - rewrite pbuf_free_eq in E. destruct (free_loop _ _ _) as [[σ1 k1]|]; [|done]. injection E as -> -> <-.
    pose proof (released_count _ _ _ HR) as Hk. rewrite map_size_insert_Some in Hk by (by eexists).
    rewrite u8_small by (unfold Zlen; lia). case_match eqn:Ec; [done|]. intros _. apply Z.ltb_ge in Ec.
    assert (k = []) as -> by (apply length_zero_iff_nil; unfold Zlen in Ec; lia).
    pose proof (packet_insert σ p w (Some q) (q :: l) Hpl Hn) as Hq.
    eapply same_chain_packet; [|exact Hq]. by eapply released_nothing.
Qed.

(** The headers: the first buffer shows more or fewer bytes at its front. *)
Lemma remove_header_spec σ own p l x n : counted σ own -> packet σ (Some p) l -> σ !! p = Some x -> 0 <= n <= len x ->
  exists x', pbuf_remove_header x n = Some x' /\ counted (<[p := x']> σ) own /\ packet (<[p := x']> σ) (Some p) l /\
    forall m, contents (<[p := x']> σ) m l = drop (Z.to_nat n) (contents σ m l).
Proof.
  intros HC Hp Ex Hn. destruct l as [|a l]; [done|]. pose proof (packet_nodup _ _ _ Hp) as [Ha _]%NoDup_cons.
  destruct Hp as ([= <-] & x0 & Ex0 & H0 & Ht & Hlt & Hp). rewrite Ex in Ex0. injection Ex0 as <-.
  pose proof (packet_total_nonneg _ _ _ Hp). unfold pbuf_remove_header. rewrite (proj2 (Z.ltb_ge _ _)) by lia.
  destruct (Z.eqb_spec n 0) as [->|Hne].
  { exists x. rewrite (insert_id σ p x) by done. split_and!; try done. split; eauto 10. }
  rewrite (proj2 (Z.leb_le _ _)), !u16_small by lia. eexists. split; [done|].
  pose proof (same_data_frame σ _ _ _ [p] Hp (insert_frame σ p (set_lens x (payload x + n) (tot_len x - n) (len x - n))) ltac:(set_solver)) as S.
  split_and!; [by eapply counted_set| |].
  - split; [done|]. eexists. split; [apply lookup_insert_eq|]. cbn [len tot_len next set_lens].
    rewrite (same_data_total σ) by (by apply same_chain_data). split_and!; try lia. by eapply same_chain_packet.
  - intros m. rewrite !contents_cons, (same_data_contents σ) by (by apply same_chain_data).
    unfold pbytes. rewrite lookup_insert_eq, Ex. cbn [len payload set_lens]. rewrite drop_app_le; [by rewrite load_drop|].
    pose proof (load_length m (payload x) (len x) H0). unfold Zlen in *. lia.
Qed.

Lemma free_alone σ a x σ' k c b : σ !! a = Some x -> next x = None -> pbuf_free σ (Some a) = Some (σ', k, c) -> b <> a ->
  σ' !! b = σ !! b.
Proof.
  intros Ex Hn. rewrite pbuf_free_eq. cbn [free_loop]. rewrite Ex. cbn [mbind option_bind]. case_guard; [|done].
  cbn [mbind option_bind]. case_match; [|intros [= <- _ _] Hb; by rewrite lookup_insert_ne].
  destruct (free_source x); [|done]. cbn [mbind option_bind]. rewrite Hn.
  assert (forall fuel, free_loop fuel (delete a σ) None = Some (delete a σ, [])) as -> by (by intros []).
  intros [= <- _ _] Hb. by rewrite lookup_delete_ne.
Qed.

(** The caller's pointer moves from [p] to [r]. *)
Definition move (own : Z -> Z) (p r : option Z) : Z -> Z :=
  let own := match p with Some a => dec own a | None => own end in
  match r with Some b => inc own b | None => own end.

Lemma move_self own p : pointwise_relation Z eq (move own p p) own.
Proof. intros b. destruct p as [a|]; unfold move, inc, dec; lia. Qed.

Lemma move_trans own p q r : pointwise_relation Z eq (move (move own p q) q r) (move own p r).
Proof. intros b. destruct p, q, r; unfold move, inc, dec; lia. Qed.

(** Removing the first buffer, whose bytes are all skipped. *)
Lemma free_first σ own a x l : counted σ own -> σ !! a = Some x -> 0 < own a -> a ∉ l -> packet σ (next x) l ->
  exists σ' k c, pbuf_free (<[a := set_next x None]> σ) (Some a) = Some (σ', k, c) /\
    counted σ' (move own (Some a) (next x)) /\ same_chain σ σ' l.
Proof.
  intros HC Ex Ho Ha Hp.
  assert (counted (<[a := set_next x None]> σ) (match next x with Some b => inc own b | None => own end)) as HC1.
  { destruct (next x) eqn:En; [by apply counted_unlink|]. by eapply counted_set. }
  destruct (pbuf_free_spec _ _ a HC1) as (σ' & k & E & HC' & HR & _).
  { destruct (next x); [|done]. unfold inc. case_match; lia. }
  exists σ', k, (u8 (Zlen k)). split_and!; [done| |].
  - eapply counted_proper; [done| |exact HC']. intros b. unfold move, dec, inc. destruct (next x); lia.
  - intros b Hb. destruct (packet_defined _ _ _ b Hp Hb) as [z Ez]. exists z, z.
    rewrite (free_alone _ a (set_next x None) σ' k _ b (lookup_insert_eq _ _ _) eq_refl E) by set_solver.
    rewrite lookup_insert_ne by set_solver. by split_and!.
Qed.

Lemma free_header_spec l : forall fuel σ own p n, (length l < fuel)%nat -> counted σ own -> packet σ p l ->
  (forall a, p = Some a -> 0 < own a) -> 0 <= n < 65536 ->
  exists σ' k r l', free_header_loop fuel σ p n = Some (σ', k, r) /\ counted σ' (move own p r) /\ packet σ' r l' /\
    forall m, contents σ' m l' = drop (Z.to_nat n) (contents σ m l).
Proof.
  induction l as [|a l IH]; intros fuel σ own p n Hf HC Hp Ho Hn.
  { cbn in Hp. subst p. exists σ, [], None, []. split_and!; try done; [by destruct fuel|]. intros m. symmetry. apply drop_nil. }
  pose proof (packet_nodup _ _ _ Hp) as [Ha _]%NoDup_cons. pose proof Hp as (-> & x & Ex & H0 & Ht & Hlt & Hp').
  destruct fuel as [|fuel]; [cbn in Hf; lia|]. cbn [free_header_loop].
  destruct (Z.eqb_spec n 0) as [->|Hne].
  { exists σ, [], (Some a), (a :: l). split_and!; try done. by rewrite move_self. }
  rewrite Ex. cbn [mbind option_bind]. destruct (Z.leb_spec (len x) n) as [Hle|Hgt].
  - destruct (free_first σ own a x l HC Ex (Ho a eq_refl) Ha Hp') as (σ1 & k1 & c1 & -> & HC1 & S). cbn [mbind option_bind].
    rewrite u16_small by lia. 
    destruct (IH fuel σ1 (move own (Some a) (next x)) (next x) (n - len x)) as (σ' & k & r & l' & E & HC' & Hp2 & Hc).
    + cbn in Hf. lia.
    + done.
    + by eapply same_chain_packet.
    + intros b Eb. rewrite Eb. unfold move, inc. rewrite Z.eqb_refl. pose proof (ct_own _ _ HC b). unfold dec.
      destruct (Z.eqb_spec b a) as [->|]; [specialize (Ho a eq_refl)|]; lia.
    + lia.
    + rewrite E. cbn [mbind option_bind]. eexists _, _, r, l'. split; [done|]. rewrite move_trans in HC'. split_and!; try done.
      intros m. rewrite Hc, contents_cons, (same_data_contents σ) by (by apply same_chain_data).
      pose proof (pbytes_length σ m a x Ex H0) as Hl. rewrite (plen_is _ _ _ Ex) in Hl. unfold Zlen in Hl.
      rewrite drop_app_ge by lia. f_equal. lia.
  - destruct (remove_header_spec σ own a (a :: l) x n) as (x' & -> & HC' & Hp2 & Hc); try done; [lia|]. cbn [default].
    eexists _, _, _, (a :: l). split; [done|]. split_and!; try done. by rewrite move_self.
Qed.

(** ** Reading a packet *)

Lemma copy_partial_spec σ m l : forall fuel p n off, (length l < fuel)%nat -> packet σ p l ->
  0 <= n < 65536 -> 0 <= off < 65536 ->
  copy_partial_loop fuel σ m p n off = Some (take (Z.to_nat n) (drop (Z.to_nat off) (contents σ m l))).
Proof.
  induction l as [|a l IH]; intros fuel p n off Hf Hp Hn Ho.
  { cbn in Hp. subst p. change (contents σ m []) with (@nil Z). rewrite drop_nil, take_nil. by destruct fuel. }
  destruct Hp as (-> & x & Ex & H0 & Ht & Hlt & Hp). destruct fuel as [|fuel]; [cbn in Hf; lia|]. cbn in Hf.
  pose proof (packet_total_nonneg _ _ _ Hp). pose proof (pbytes_length σ m a x Ex H0) as Hl. rewrite (plen_is _ _ _ Ex) in Hl.
  cbn [copy_partial_loop]. destruct (Z.eqb_spec n 0) as [->|Hn0]; [done|]. rewrite Ex. cbn [mbind option_bind].
  rewrite contents_cons. destruct (negb (off =? 0) && (len x <=? off)) eqn:E.
  - apply andb_prop in E as [_ E%Z.leb_le]. rewrite u16_small, IH by (done || lia).
    do 2 f_equal. unfold Zlen in Hl. rewrite drop_app_ge by lia. f_equal. lia.
  - assert (off <= len x) as Hoff.
    { apply andb_false_iff in E as [E%negb_false_iff%Z.eqb_eq|E%Z.leb_gt]; lia. }
    rewrite (u16_small (len x - off)) by lia. unfold Zlen in Hl. rewrite drop_app_le by lia.
    assert (load m (payload x + off) (len x - off) = drop (Z.to_nat off) (pbytes σ m a)) as Ed
      by (unfold pbytes; rewrite Ex; apply load_drop; lia).
    pose proof (load_length m (payload x + off) (len x - off) ltac:(lia)) as Hll. rewrite Ed in Hll. unfold Zlen in Hll.
    destruct (Z.ltb_spec n (len x - off)).
    + rewrite Z.sub_diag, (u16_small 0), IH by (done || lia). cbn [mbind option_bind]. rewrite app_nil_r, take_app_le by lia.
      rewrite <- Ed, <- load_take by lia. done.
    + rewrite u16_small, IH by (done || lia). cbn [mbind option_bind]. rewrite Ed, take_app_ge by lia. do 3 f_equal. lia.
Qed.

Lemma skip_spec σ m l : forall fuel p off, (length l < fuel)%nat -> packet σ p l -> 0 <= off < 65536 ->
  exists q i, skip_loop fuel σ p off = Some (q, i) /\
    match q with
    | Some a => exists x, σ !! a = Some x /\ 0 <= i < len x /\ contents σ m l !! Z.to_nat off = Some (m (payload x + i))
    | None => contents σ m l !! Z.to_nat off = None
    end.
Proof.
  induction l as [|a l IH]; intros fuel p off Hf Hp Ho.
  { cbn in Hp. subst p. exists None, off. by destruct fuel. }
  destruct Hp as (-> & x & Ex & H0 & Ht & Hlt & Hp). destruct fuel as [|fuel]; [cbn in Hf; lia|]. cbn in Hf.
  pose proof (pbytes_length σ m a x Ex H0) as Hl. rewrite (plen_is _ _ _ Ex) in Hl. unfold Zlen in Hl.
  cbn [skip_loop]. rewrite Ex. cbn [mbind option_bind]. destruct (Z.leb_spec (len x) off).
  - rewrite u16_small by lia. destruct (IH fuel (next x) (off - len x)) as (q & i & E & H1); [lia|done|lia|].
    exists q, i. split; [done|]. rewrite contents_cons, lookup_app_r by lia.
    replace (Z.to_nat off - length (pbytes σ m a))%nat with (Z.to_nat (off - len x)) by lia. done.
  - exists (Some a), off. split; [done|]. exists x. split_and!; try done; try lia.
    rewrite contents_cons, lookup_app_l by lia. unfold pbytes. rewrite Ex. unfold load. rewrite list_lookup_fmap.
    rewrite lookup_seqZ_lt by lia. cbn. do 2 f_equal. lia.
Qed.

Lemma pbuf_try_get_at_spec σ m p l off : packet σ p l -> 0 <= off < 65536 ->
  pbuf_try_get_at σ m p off = Some (default (-1) (contents σ m l !! Z.to_nat off)).
Proof.
  intros Hp Ho. pose proof (packet_size _ _ _ Hp). unfold pbuf_try_get_at, pbuf_skip_const.
  destruct (skip_spec σ m l (S (size σ)) p off) as (q & i & -> & Hq); [lia|done|done|]. cbn [mbind option_bind].
  destruct q as [a|]; [|by rewrite Hq]. destruct Hq as (x & Ex & Hi & ->). rewrite Ex. cbn. by rewrite (proj2 (Z.ltb_lt _ _)) by lia.
Qed.

(** ** Adding a header, a reference, a chain *)

Lemma add_header_spec σ own p l x n force x' : counted σ own -> packet σ (Some p) l -> σ !! p = Some x -> 0 <= n ->
  pbuf_add_header_impl p x n force = Some x' ->
  counted (<[p := x']> σ) own /\ packet (<[p := x']> σ) (Some p) l /\
  (Z.land (type_internal x) PBUF_TYPE_FLAG_STRUCT_DATA_CONTIGUOUS <> 0 -> 0 < n -> p + SIZEOF_STRUCT_PBUF <= payload x') /\
  forall m, contents (<[p := x']> σ) m l = load m (payload x - n) n ++ contents σ m l.
Proof.
  intros HC Hp Ex Hn. destruct l as [|a l]; [done|]. pose proof (packet_nodup _ _ _ Hp) as [Ha _]%NoDup_cons.
  pose proof Hp as ([= <-] & x0 & Ex0 & H0 & Ht & Hlt & Hp'). rewrite Ex in Ex0. injection Ex0 as <-.
  pose proof (packet_total_nonneg _ _ _ Hp'). unfold pbuf_add_header_impl.
  destruct (Z.ltb_spec 65535 n); [done|]. destruct (Z.eqb_spec n 0) as [->|Hne].
  { intros [= <-]. rewrite (insert_id σ p x) by done. by split_and!. }
  destruct (Z.ltb_spec (u16 (n + tot_len x)) n) as [|Hw]; [done|].
  assert (tot_len x + n < 65536) as Hfit.
  { unfold u16 in Hw. destruct (Z.lt_ge_cases (n + tot_len x) (2 ^ 16)); [lia|].
    rewrite <- (Z.mod_add _ (-1)), Z.mod_small in Hw by lia. lia. }
  case_match eqn:Eok; [|done]. intros [= <-]. rewrite !u16_small by lia.
  pose proof (same_data_frame σ _ _ _ [p] Hp' (insert_frame σ p (set_lens x (payload x - n) (tot_len x + n) (len x + n))) ltac:(set_solver)) as S.
  split_and!; [by eapply counted_set| | |].
  - split; [done|]. eexists. split; [apply lookup_insert_eq|]. cbn [len tot_len next set_lens].
    rewrite (same_data_total σ) by (by apply same_chain_data). split_and!; try lia. by eapply same_chain_packet.
  - intros Hc _. rewrite (proj2 (Z.eqb_neq _ _) Hc) in Eok. cbn in Eok |- *. apply negb_true_iff, Z.ltb_ge in Eok. lia.
  - intros m. rewrite !contents_cons, (same_data_contents σ) by (by apply same_chain_data).
    unfold pbytes. rewrite lookup_insert_eq, Ex. cbn [len payload set_lens]. rewrite app_assoc. f_equal. unfold load.
    rewrite (Z.add_comm (len x) n), seqZ_app, fmap_app by lia. do 3 f_equal. lia.
Qed.

Lemma pbuf_ref_spec σ own a x : counted σ own -> σ !! a = Some x -> ref x < 255 ->
  exists σ', pbuf_ref σ (Some a) = Some σ' /\ counted σ' (inc own a) /\ σ' = <[a := set_ref x (ref x + 1)]> σ.
Proof.
  intros HC Ex Hr. destruct (ct_ref _ _ HC a x Ex) as (_ & H & _). unfold pbuf_ref. rewrite Ex. cbn [mbind option_bind].
  rewrite u8_small by lia. rewrite option_guard_True by lia. eexists. split; [done|]. split; [|done].
  eapply counted_proper; [done| |apply (counted_ref σ own a x 1)]; try done; try lia.
  pose proof (ct_own _ _ HC a). lia.
Qed.

(** ** Allocating a chain from the pool *)

(** A chain that still lacks [rem] bytes. *)
Fixpoint growing (σ : store) (p : option Z) (l : list Z) (rem : Z) : Prop :=
  match l with
  | [] => p = None
  | a :: r => p = Some a /\ exists x, σ !! a = Some x /\ 0 <= len x /\
      tot_len x = len x + total σ r + rem /\ tot_len x < 65536 /\ growing σ (next x) r rem
  end.

Lemma growing_packet σ l : forall p, growing σ p l 0 -> packet σ p l.
Proof.
  induction l as [|a l IH]; intros p; [done|]. intros (-> & x & Ex & H0 & Ht & Hlt & Hg). split; [done|]. exists x.
  split_and!; try done; [lia|by apply IH].
Qed.

Lemma growing_last σ l b : forall p rem, growing σ p (l ++ [b]) rem -> exists x, σ !! b = Some x /\ next x = None.
Proof.
  induction l as [|a l IH]; intros p rem; cbn [app].
  - intros (_ & x & Ex & _ & _ & _ & Hn). by exists x.
  - intros (_ & x & _ & _ & _ & _ & Hg). by eapply IH.
Qed.

Lemma growing_append σ σ' q y b l rem : σ' !! q = Some y -> 0 <= len y -> tot_len y = rem -> rem < 65536 -> next y = None ->
  (forall x, σ !! b = Some x -> σ' !! b = Some (set_next x (Some q))) ->
  (forall c, c ∉ [b; q] -> σ' !! c = σ !! c) -> forall p, NoDup (l ++ [b]) -> q ∉ l ++ [b] ->
  growing σ p (l ++ [b]) rem -> growing σ' p (l ++ [b; q]) (rem - len y).
Proof.
  intros Eq H0 Et Hr Hn Hb Hf. induction l as [|a l IH]; intros p Hnd Hq; cbn [app]; intros (-> & x & Ex & Hx0 & Htx & Hlt & Hg);
    (split; [done|]).
  - exists (set_next x (Some q)). split; [by apply Hb|]. rewrite total_cons, (plen_is _ _ _ Eq).
    change (total σ' []) with 0. change (total σ []) with 0 in Htx. cbn [len tot_len set_next next]. split_and!; try done; [lia|].
    split; [done|]. exists y. change (total σ' []) with 0. split_and!; try done; lia.
  - apply NoDup_cons in Hnd as [Ha Hnd]. exists x. rewrite Hf by set_solver.
    assert (total σ' (l ++ [b]) = total σ (l ++ [b])) as E.
    { clear - Hf Hb Hq Hg. revert Hg. generalize (next x). rename x into x0.
      induction l as [|c l IHl]; cbn [app]; intros p (_ & z & Ez & _ & _ & _ & Hg); rewrite !total_cons.
      - by rewrite (plen_is _ _ _ Ez), (plen_is _ _ _ (Hb _ Ez)).
      - rewrite (IHl ltac:(set_solver) _ Hg). f_equal. unfold plen. destruct (decide (c = b)) as [->|].
        + by rewrite (Hb _ Ez), Ez.
        + by rewrite Hf by set_solver. }
    assert (total σ' (l ++ [b; q]) = total σ (l ++ [b]) + len y) as E'.
    { replace (l ++ [b; q]) with ((l ++ [b]) ++ [q]) by (by rewrite <- app_assoc). rewrite total_app, E, total_cons, (plen_is _ _ _ Eq).
      change (total σ' []) with 0. lia. }
    rewrite E'. split_and!; try done; [lia|]. apply IH; set_solver.
Qed.

(** The state of the loop: nothing yet, or a chain whose first buffer the caller will own. *)
Definition pool_state (own : Z -> Z) (n : Z) (σ : store) (p last : option Z) (rem : Z) : Prop :=
  match p, last with
  | None, None => counted σ own /\ rem = n
  | Some h, Some b => exists l, growing σ p (l ++ [b]) rem /\ NoDup (l ++ [b]) /\ total σ (l ++ [b]) + rem = n /\
      counted σ (inc own h)
  | _, _ => False
  end.

Definition pool_chunk (offset rem : Z) : Z := Z.min rem (u16 (PBUF_POOL_BUFSIZE_ALIGNED - align offset)).

Lemma growing_defined σ l : forall p rem c, growing σ p l rem -> c ∈ l -> is_Some (σ !! c).
Proof.
  induction l as [|a l IH]; intros p rem c; [by intros _ ?%elem_of_nil|].
  intros (_ & x & E & _ & _ & _ & Hg) [->|Hc]%elem_of_cons; [by eexists|by eapply IH].
Qed.

(** One more buffer: the store after it was initialised and linked. *)
Lemma pool_grow own n σ p last rem q pl k : pool_state own n σ p last rem -> σ !! q = None ->
  0 <= k <= rem -> rem < 65536 ->
  exists σ', (match last with
              | None => Some (<[q := pbuf_init_alloced_pbuf pl rem k PBUF_POOL 0]> σ)
              | Some l => x ← <[q := pbuf_init_alloced_pbuf pl rem k PBUF_POOL 0]> σ !! l;
                  Some (<[l := set_next x (Some q)]> (<[q := pbuf_init_alloced_pbuf pl rem k PBUF_POOL 0]> σ))
              end) = Some σ' /\
    pool_state own n σ' (match p with None => Some q | Some _ => p end) (Some q) (rem - k) /\
    forall c, c <> q -> σ !! c = None -> σ' !! c = None.
Proof.
  intros Hs Hq Hk Hr. set (y := pbuf_init_alloced_pbuf pl rem k PBUF_POOL 0). unfold pool_state in Hs.
  destruct p as [h|], last as [b|]; try done.
  - destruct Hs as (l & Hg & Hnd & Ht & HC). destruct (growing_last _ _ _ _ _ Hg) as (x & Ex & Hx).
    assert (b <> q) as Hbq by congruence. rewrite lookup_insert_ne, Ex by done. cbn [mbind option_bind]. eexists. split; [done|].
    assert (q ∉ l ++ [b]) as Hql by (intros Hin; destruct (growing_defined _ _ _ _ _ Hg Hin); congruence).
    split; [exists (l ++ [b]); split_and!|].
    + rewrite <- app_assoc. change (rem - k) with (rem - len y).
      eapply (growing_append σ _ q y b); try done; try (cbn; lia); [by rewrite lookup_insert_ne, lookup_insert_eq| |].
      * intros z Ez. rewrite lookup_insert_eq. congruence.
      * intros c Hc. rewrite !lookup_insert_ne by set_solver. done.
    + apply NoDup_app. split_and!; [done|set_solver|apply NoDup_singleton].
    + rewrite total_app, total_cons. change (total _ []) with 0.
      rewrite (plen_is _ q y) by (by rewrite lookup_insert_ne, lookup_insert_eq). change (len y) with k.
      rewrite (same_data_total σ); [lia|]. intros c Hc. destruct (growing_defined _ _ _ _ _ Hg Hc) as [z Ez].
      destruct (decide (c = b)) as [->|Hcb]; [rewrite Ex in Ez; injection Ez as <-; exists x, (set_next x (Some q)); by rewrite lookup_insert_eq|].
      exists z, z. rewrite !lookup_insert_ne by set_solver. by split_and!.
    + eapply counted_proper; [done| |apply counted_link; [apply counted_new| | |]]; try done.
      * symmetry. apply dec_inc.
      * by rewrite lookup_insert_ne.
      * unfold inc. rewrite Z.eqb_refl. pose proof (ct_own _ _ HC q) as H1. unfold inc in H1. lia.
    + intros c Hc Hn. rewrite !lookup_insert_ne; congruence.
  - destruct Hs as [HC <-]. eexists. split; [done|]. split; [exists []; split_and!|].
    + split; [done|]. exists y. change (total _ []) with 0. rewrite lookup_insert_eq. split_and!; try done; cbn; lia.
    + apply NoDup_singleton.
    + cbn [app]. rewrite total_cons, (plen_is _ q y) by (by rewrite lookup_insert_eq). change (total _ []) with 0. cbn. lia.
    + by apply counted_new.
    + intros c Hc Hn. by rewrite lookup_insert_ne by congruence.
Qed.

Lemma pool_loop_spec own n ms : (forall a, 0 <= own a) -> forall σ p last off rem, pool_state own n σ p last rem ->
  NoDup (omap id ms) -> (forall a, Some a ∈ ms -> σ !! a = None) -> 0 <= rem < 65536 -> rem < Zlen ms ->
  0 < PBUF_POOL_BUFSIZE_ALIGNED - align off < 65536 ->
  exists σ' r, pool_loop σ p last off rem ms = Some (σ', r) /\
    match r with
    | Some h => counted σ' (inc own h) /\ exists l, packet σ' (Some h) l /\ total σ' l = n
    | None => counted σ' own
    end.
Proof.
  intros Hown. induction ms as [|[q|] ms IH]; intros σ p last off rem Hs Hnd Hfr Hr Hlen Ho; [unfold Zlen in Hlen; cbn in Hlen; lia| |].
  - cbn [pool_loop]. rewrite option_guard_True by lia. cbn [mbind option_bind]. rewrite (u16_small (_ - align off)) by lia.
    set (k := Z.min rem (PBUF_POOL_BUFSIZE_ALIGNED - align off)).
    destruct (pool_grow own n σ p last rem q (align (q + SIZEOF_STRUCT_PBUF + off)) k Hs) as (σ1 & -> & Hs1 & Hf1);
      [by apply Hfr; left|lia|lia|]. cbn [mbind option_bind]. rewrite u16_small by lia. rewrite Zlen_cons in Hlen.
    apply NoDup_cons in Hnd as [Hq Hnd].
    destruct (Z.ltb_spec 0 (rem - k)).
    + apply IH; try done; [|lia|lia]. intros a Ha. apply Hf1; [|apply Hfr; by right].
      intros ->. apply Hq. apply list_elem_of_omap. by exists (Some q).
    + replace (rem - k) with 0 in Hs1 by lia. exists σ1.
      destruct p as [h|]; cbn in Hs1; destruct Hs1 as (l & Hg & _ & Ht & HC); eexists; (split; [done|]); (split; [done|]);
        exists (l ++ [q]); (split; [by apply growing_packet|lia]).
  - cbn [pool_loop]. destruct p as [h|], last as [b|]; try done; [|destruct Hs; by eexists _, None].
    destruct Hs as (l & _ & _ & _ & HC).
    destruct (pbuf_free_spec σ _ h HC) as (σ' & k & -> & HC' & _).
    { unfold inc. rewrite Z.eqb_refl. specialize (Hown h). lia. }
    exists σ', None. split; [done|]. by rewrite dec_inc in HC'.
Qed.

(** ** The heap behind [pbuf_realloc] *)

(** The answer of the heap in state [h], whose memory starts at [base]. *)
Definition heap_trim (h : mheap) (base q k : Z) : option (option Z) :=
  '(_, r) ← mem_trim h (q - base) k; Some (a ← r; Some (base + a)).

(** A used block that is shrunk stays where it is; the system stops exactly when the block is the last of
    the heap and the rest could be a block. *)
Lemma heap_trim_answers h base a n b k : rep h (a ++ (n, true) :: b) -> 0 <= k <= n ->
  let q := base + span a + SIZEOF_STRUCT_MEM in
  heap_trim h base q k = match trimmed (request k) n b with Some _ => Some (Some q) | None => None end.
Proof.
  intros Hr Hk q. pose proof (mem_trim_rep h a n b k Hr Hk) as Ht. cbv zeta in Ht. unfold heap_trim, q.
  replace (base + span a + SIZEOF_STRUCT_MEM - base) with (span a + SIZEOF_STRUCT_MEM) by lia.
  destruct (trimmed (request k) n b) as [c|]; [destruct Ht as (s' & -> & _)|by rewrite Ht]. cbn. do 2 f_equal. lia.
Qed.

(** ** Any sequence of calls *)

Inductive op :=
  | OAlloc (layer length type : Z) (memp : list (option Z)) (heap : Z -> option Z)
  | ORef (a : Z) | OFree (a : Z) | OCat (h t : Z) | OChain (h t : Z) | ODechain (p : Z)
  | ORealloc (p n : Z) (trim : Z -> Z -> option (option Z)) | OFreeHeader (q n : Z) | OHeader (p n : Z) (force : bool).

(** The call, and the pointers its caller holds after it. *)
Definition exec (σ : store) (own : Z -> Z) (o : op) : option (store * (Z -> Z)) :=
  match o with
  | OAlloc layer length type memp heap =>
      '(σ, r) ← pbuf_alloc σ layer length type memp heap; Some (σ, match r with Some a => inc own a | None => own end)
  | ORef a => σ ← pbuf_ref σ (Some a); Some (σ, inc own a)
  | OFree a => '(σ, _, _) ← pbuf_free σ (Some a); Some (σ, dec own a)
  | OCat h t => σ ← pbuf_cat σ (Some h) (Some t); Some (σ, dec own t)
  | OChain h t => σ ← pbuf_chain σ (Some h) (Some t); Some (σ, own)
  | ODechain p => '(σ, _, _) ← pbuf_dechain σ p; Some (σ, own)
  | ORealloc p n trim => '(σ, _, _) ← pbuf_realloc trim σ p n; Some (σ, own)
  | OFreeHeader q n => '(σ, _, r) ← pbuf_free_header σ (Some q) n; Some (σ, move own (Some q) r)
  | OHeader p n force => x ← σ !! p; Some (default σ (x' ← pbuf_header_impl p x n force; Some (<[p := x']> σ)), own)
  end.

(** Two packets that can be joined: the second one is not part of the first. *)
Definition joinable (σ : store) (h t : Z) : Prop :=
  exists lh lt, packet σ (Some h) lh /\ packet σ (Some t) lt /\ lh ## lt /\ total σ lh + total σ lt < 65536.

(** What the documentation asks of the callers: a pointer is used up only by who holds it.
    The allocators answer with memory that is not in use; [mem_trim] returns its argument for the call that is
    made, which [heap_trim_answers] shows of the heap as long as the block is not its last one. *)
Definition allowed (σ : store) (own : Z -> Z) (o : op) : Prop :=
  match o with
  | OAlloc layer length type memp heap =>
      (type = PBUF_REF \/ type = PBUF_ROM \/ type = PBUF_POOL \/ type = PBUF_RAM) /\ 0 <= layer <= 128 /\
      0 <= length < 65536 /\ length < Zlen memp /\ NoDup (omap id memp) /\
      (forall a, Some a ∈ memp -> σ !! a = None) /\ (forall n a, heap n = Some a -> σ !! a = None)
  | ORef a => 0 < own a /\ forall x, σ !! a = Some x -> ref x < 255
  | OFree a => 0 < own a
  | OCat h t => 0 < own t /\ joinable σ h t
  | OChain h t => 0 < own t /\ joinable σ h t /\ forall x, σ !! t = Some x -> ref x < 255
  | ODechain p => (exists l, packet σ (Some p) l) /\ (size σ < 256)%nat
  | ORealloc p n trim => (exists l, packet σ (Some p) l) /\ 0 <= n /\
      forall σ' k q i, pbuf_realloc (fun q _ => Some (Some q)) σ p n = Some (σ', k, Some (q, i)) -> trim q i = Some (Some q)
  | OFreeHeader q n => 0 < own q /\ (exists l, packet σ (Some q) l) /\ 0 <= n < 65536
  | OHeader p n force => is_Some (σ !! p)
  end.

Lemma owned_defined σ own a : counted σ own -> 0 < own a -> is_Some (σ !! a).
Proof. intros HC Ho. destruct (σ !! a) eqn:E; [by eexists|]. destruct (ct_gone _ _ HC a E). lia. Qed.

Lemma header_counted σ own p x n force x' : counted σ own -> σ !! p = Some x -> pbuf_header_impl p x n force = Some x' ->
  counted (<[p := x']> σ) own.
Proof.
  intros HC Ex. unfold pbuf_header_impl, pbuf_remove_header, pbuf_add_header_impl. intros H.
  repeat case_match; simplify_eq; try (by eapply counted_set); by rewrite insert_id.
Qed.

Lemma align_layer layer : 0 <= layer <= 128 -> 0 < PBUF_POOL_BUFSIZE_ALIGNED - align layer < 65536.
Proof.
  intros H. unfold align, LWIP_MEM_ALIGN_SIZE, MEM_ALIGNMENT. change PBUF_POOL_BUFSIZE_ALIGNED with 1536.
  change (Z.lnot (4 - 1)) with (Z.lnot (Z.ones 2)). rewrite <- Z.ldiff_land, Z.ldiff_ones_r, Z.shiftl_mul_pow2, Z.shiftr_div_pow2 by lia.
  pose proof (Z.div_mod (layer + 4 - 1) (2 ^ 2) ltac:(lia)). pose proof (Z.mod_pos_bound (layer + 4 - 1) (2 ^ 2) ltac:(lia)). lia.
Qed.

(** A single buffer. *)
Lemma alloc_one σ own a t pl n : counted σ own -> t = PBUF_REF \/ t = PBUF_ROM \/ t = PBUF_RAM -> σ !! a = None ->
  0 <= n < 65536 ->
  let σ' := <[a := pbuf_init_alloced_pbuf pl n n t 0]> σ in
  counted σ' (inc own a) /\ exists l, packet σ' (Some a) l /\ total σ' l = n.
Proof.
  intros HC Ht Ha Hn. cbv zeta. split; [apply counted_new; try done; destruct_or! Ht; by subst t|]. exists [a].
  rewrite total_cons, (plen_is _ a _ (lookup_insert_eq _ _ _)). split; [|change (total _ []) with 0; cbn; lia].
  split; [done|]. eexists. split; [apply lookup_insert_eq|]. change (total _ []) with 0. cbn. split_and!; try done; lia.
Qed.

(** What an allocation leaves: a packet of the length asked for, or everything as it was counted. *)
Definition alloc_ok (own : Z -> Z) (n : Z) (o : option (store * option Z)) : Prop :=
  exists σ' r, o = Some (σ', r) /\ counted σ' (match r with Some a => inc own a | None => own end) /\
    (forall a, r = Some a -> exists l, packet σ' (Some a) l /\ total σ' l = n).

Lemma alloc_reference_ok σ own n type malloc : counted σ own -> type = PBUF_REF \/ type = PBUF_ROM -> 0 <= n < 65536 ->
  (forall a, malloc = Some a -> σ !! a = None) -> alloc_ok own n (pbuf_alloc_reference σ 0 n type malloc).
Proof.
  intros HC Hty Hn Hm. unfold pbuf_alloc_reference. rewrite option_guard_True by done.
  destruct malloc as [a|]; (eexists _, _; split; [done|]); [|by split].
  destruct (alloc_one σ own a type 0 n) as [H1 H2]; try done; [naive_solver|by apply Hm|].
  split; [done|]. by intros b [= <-].
Qed.

Lemma alloc_ram_ok σ own layer n heap : counted σ own -> 0 <= n < 65536 -> (forall k a, heap k = Some a -> σ !! a = None) ->
  alloc_ok own n (Some (pbuf_alloc_ram σ layer n heap)).
Proof.
  intros HC Hn Hh. unfold pbuf_alloc_ram. destruct (ram_request layer n) as [k|]; cbn [mbind option_bind];
    [destruct (heap k) as [a|] eqn:E|]; (eexists _, _; split; [done|]); try by split.
  destruct (alloc_one σ own a PBUF_RAM (align (a + SIZEOF_STRUCT_PBUF + layer)) n) as [H1 H2]; try done; [naive_solver|by eapply Hh|].
  split; [done|]. by intros b [= <-].
Qed.

Lemma alloc_counted σ own layer n type memp heap : counted σ own -> allowed σ own (OAlloc layer n type memp heap) ->
  alloc_ok own n (pbuf_alloc σ layer n type memp heap).
Proof.
  intros HC (Hty & Hla & Hn & Hms & Hnd & Hfr & Hh). unfold pbuf_alloc.
  destruct ((type =? PBUF_REF) || (type =? PBUF_ROM)) eqn:E.
  { apply orb_true_iff in E. rewrite !Z.eqb_eq in E. destruct memp as [|m0 memp]; [unfold Zlen in Hms; cbn in Hms; lia|].
    cbn. apply alloc_reference_ok; try done. intros a ->. apply Hfr. by left. }
  destruct (Z.eqb_spec type PBUF_POOL) as [->|Hp].
  { destruct (pool_loop_spec own n memp (ct_own _ _ HC) σ None None layer n) as (σ' & r & Ep & Hr); try done; [by apply align_layer|].
    exists σ', r. split; [done|]. destruct r as [h|]; [|by split]. destruct Hr as [HC' Hl]. split; [done|]. by intros a [= <-]. }
  apply orb_false_iff in E. rewrite !Z.eqb_neq in E. destruct (Z.eqb_spec type PBUF_RAM) as [->|]; [by apply alloc_ram_ok|].
  naive_solver.
Qed.

Lemma chain_counted σ own h t : counted σ own -> allowed σ own (OChain h t) ->
  exists σ', pbuf_chain σ (Some h) (Some t) = Some σ' /\ counted σ' own.
Proof.
  intros HC (Ho & (lh & lt & Hh & Ht & Hd & Hb) & Hr).
  destruct (pbuf_cat_spec σ h t lh lt) as (σ1 & E & _ & _ & _ & F & C); try done.
  destruct (owned_defined _ _ _ HC Ho) as [y Ey]. destruct (head_total _ _ _ Ht) as (_ & _ & _ & Htl).
  assert (σ1 !! t = Some y) as Ey1 by (rewrite F by set_solver; done).
  destruct (pbuf_ref_spec σ1 (dec own t) t y (C _ HC Ho) Ey1 (Hr y Ey)) as (σ2 & E2 & HC2 & _).
  exists σ2. unfold pbuf_chain. rewrite E. cbn [mbind option_bind]. split; [done|].
  eapply counted_proper; [done| |exact HC2]. intros b. unfold inc, dec. lia.
Qed.

(** C16: The reference count of every packet buffer is the number of pointers to it.  From
    the empty store on, every call of the packet buffers that the documentation allows (an
    allocation from the pools or from the heap, a reference more or less, joining packets,
    cutting off the first buffer, shortening at either end, moving the headers) returns
    without a failed assertion and without touching a buffer that was given back - a shortening under the
    condition that the [mem_trim] it makes returns its argument, which [heap_trim_answers] shows of every block of
    the heap but the last one, for which [mem_trim] can stop the system - and
    afterwards each count equals the pointers the callers hold plus the chains that lead to
    the buffer, and no pointer leads to one that was given back: nothing is freed too early
    or twice, and what nobody points to any more was freed. *)
Theorem pbuf_counts (σ : store) (own : Z -> Z) (o : op) (HC : counted σ own) (Ha : allowed σ own o) :
  counted ∅ (fun _ => 0) /\
  exists σ' own', exec σ own o = Some (σ', own') /\ counted σ' own'.
Proof.
  split. { split; [done|by intros a x|]. intros a _. split; [done|]. unfold refs. by rewrite map_filter_empty, map_size_empty. }
  destruct o; cbn [exec].
  - destruct (alloc_counted σ own layer length type memp heap HC Ha) as (σ' & r & -> & HC' & _). cbn. eauto.
  - destruct Ha as [Ho Hr]. destruct (owned_defined _ _ _ HC Ho) as [x Ex].
    destruct (pbuf_ref_spec σ own a x HC Ex (Hr x Ex)) as (σ' & -> & HC' & _). cbn. eauto.
  - destruct (pbuf_free_spec σ own a HC Ha) as (σ' & k & -> & HC' & _). cbn. eauto.
  - destruct Ha as (Ho & lh & lt & Hh & Ht & Hd & Hb).
    destruct (pbuf_cat_spec σ h t lh lt) as (σ1 & -> & _ & _ & _ & _ & C); try done. cbn. eauto.
  - destruct (chain_counted σ own h t HC Ha) as (σ' & -> & HC'). cbn. eauto.
  - destruct Ha as ([[|b l] Hp] & Hsz); [done|]. pose proof Hp as [[= ->] _].
    destruct (pbuf_dechain_spec σ own b l HC Hp Hsz) as (σ' & k & r & -> & HC' & _). cbn. eauto.
  - destruct Ha as ([l Hp] & Hn & Htr). destruct (pbuf_realloc_spec σ own p l n HC Hp Hn) as (σ' & k & tr & l' & E & HC' & _).
    assert (trim_passes trim tr = true) as Et; [|rewrite E, Et; cbn; eauto]. pose proof (E (fun q _ => Some (Some q))) as E0.
    destruct tr as [[q i]|]; [|done]. cbn in E0 |- *. apply bool_decide_true. eapply Htr. by rewrite E0, bool_decide_true.
  - destruct Ha as (Ho & [l Hp] & Hn). unfold pbuf_free_header. pose proof (packet_size _ _ _ Hp).
    destruct (free_header_spec l (S (size σ)) σ own (Some q) n) as (σ' & k & r & l' & -> & HC' & _); try done; [lia|by intros b [= <-]|].
    cbn. eauto.
  - destruct Ha as [x Ex]. rewrite Ex. cbn [mbind option_bind]. destruct (pbuf_header_impl p x n force) as [x'|] eqn:E; cbn; [|eauto].
    eexists _, _. split; [done|]. by eapply header_counted.
Qed.

(** Two packets of 100 and 60 bytes. *)
Definition demo : store :=
  <[2000 := pbuf_init_alloced_pbuf 2016 60 60 PBUF_RAM 0]> (<[1000 := pbuf_init_alloced_pbuf 1016 100 100 PBUF_RAM 0]> ∅).
Definition demo_own : Z -> Z := inc (inc (fun _ => 0) 1000) 2000.

Lemma demo_counted : counted demo demo_own.
Proof.
  apply alloc_one; [apply alloc_one; [|naive_solver|done|lia]|naive_solver|done|lia].
  split; [done|by intros a x|]. intros a _. split; [done|]. unfold refs. by rewrite map_filter_empty, map_size_empty.
Qed.

Lemma demo_packets : packet demo (Some 1000) [1000] /\ packet demo (Some 2000) [2000].
Proof. split; (split; [done|]); (eexists; split; [reflexivity|]); by vm_compute. Qed.

Lemma pbuf_counts_witness : exists σ' own', exec demo demo_own (OChain 1000 2000) = Some (σ', own') /\ counted σ' own'.
Proof.
  apply (pbuf_counts demo demo_own (OChain 1000 2000) demo_counted). destruct demo_packets as [H1 H2].
  split; [done|]. split; [exists [1000], [2000]; split_and!; [done|done|set_solver|done]|]. by intros x [= <-].
Defined.

(** C17: A packet is a string of bytes, however its buffers cut it up.  For a chain [l] whose
    contents are [s]: joining it with another appends that one's contents; shortening it to
    [n] bytes keeps the first [n], and stops only if the call of [mem_trim] it makes does not
    return its argument; freeing [n] bytes of headers or hiding them drops the
    first [n]; revealing a header of [n] bytes puts the [n] bytes of memory before the
    payload in front, and never reaches into the buffer's own record; copying [n] bytes from
    an offset yields exactly those of them that exist; and reading one byte yields it, or -1
    past the end.  The lengths kept in the buffers stay exact throughout. *)
Theorem packet_bytes (σ : store) (own : Z -> Z) (m : Z -> Z) (p : Z) (l : list Z) (HC : counted σ own)
    (Hp : packet σ (Some p) l) :
  let s := contents σ m l in
  Zlen s = total σ l /\
  (forall t lt, packet σ (Some t) lt -> l ## lt -> total σ l + total σ lt < 65536 ->
     exists σ', pbuf_cat σ (Some p) (Some t) = Some σ' /\ packet σ' (Some p) (l ++ lt) /\
       contents σ' m (l ++ lt) = s ++ contents σ m lt) /\
  (forall n, 0 <= n -> exists σ' k tr l',
     (forall trim, pbuf_realloc trim σ p n = if trim_passes trim tr then Some (σ', k, tr) else None) /\ packet σ' (Some p) l' /\
     contents σ' m l' = take (Z.to_nat n) s) /\
  (forall n, 0 < own p -> 0 <= n < 65536 -> exists σ' k r l', pbuf_free_header σ (Some p) n = Some (σ', k, r) /\
     packet σ' r l' /\ contents σ' m l' = drop (Z.to_nat n) s) /\
  (forall x n, σ !! p = Some x -> 0 <= n <= len x -> exists x', pbuf_header_impl p x (- n) false = Some x' /\
     packet (<[p := x']> σ) (Some p) l /\ contents (<[p := x']> σ) m l = drop (Z.to_nat n) s) /\
  (forall x n force x', σ !! p = Some x -> 0 < n -> pbuf_header_impl p x n force = Some x' ->
     packet (<[p := x']> σ) (Some p) l /\ contents (<[p := x']> σ) m l = load m (payload x - n) n ++ s /\
     (Z.land (type_internal x) PBUF_TYPE_FLAG_STRUCT_DATA_CONTIGUOUS <> 0 -> p + SIZEOF_STRUCT_PBUF <= payload x')) /\
  (forall n off, 0 <= n < 65536 -> 0 <= off < 65536 ->
     pbuf_copy_partial σ m (Some p) n off = Some (take (Z.to_nat n) (drop (Z.to_nat off) s)) /\
     pbuf_try_get_at σ m (Some p) off = Some (default (-1) (s !! Z.to_nat off))).
Proof.
  intros s. pose proof (packet_size _ _ _ Hp) as Hsz. split; [by eapply contents_length|]. split_and!.
  - intros t lt Ht Hd Hb. destruct (pbuf_cat_spec σ p t l lt) as (σ' & E & P & _ & Hc & _); eauto.
  - intros n Hn. destruct (pbuf_realloc_spec σ own p l n HC Hp Hn) as (σ' & k & tr & l' & E & _ & P & Hc). eauto 10.
  - intros n Ho Hn. destruct (free_header_spec l (S (size σ)) σ own (Some p) n) as (σ' & k & r & l' & E & _ & P & Hc);
      try done; [lia|by intros b [= <-]|]. eauto 10.
  - intros x n Ex Hn. destruct (remove_header_spec σ own p l x n) as (x' & E & _ & P & Hc); try done. exists x'. split_and!; try done.
    unfold pbuf_header_impl. destruct (Z.ltb_spec (- n) 0); [by rewrite Z.opp_involutive|].
    assert (n = 0) as -> by lia. exact E.
  - intros x n force x' Ex Hn E. unfold pbuf_header_impl in E. rewrite (proj2 (Z.ltb_ge _ _)) in E by lia.
    destruct (add_header_spec σ own p l x n force x' HC Hp Ex ltac:(lia) E) as (_ & P & Hb & Hc). split_and!; try done. auto.
  - intros n off Hn Ho. split; [apply copy_partial_spec; try done; lia|by apply pbuf_try_get_at_spec].
Qed.

Lemma packet_bytes_witness : pbuf_copy_partial demo (fun a => a mod 256) (Some 2000) 2 59 = Some [27].
Proof.
  destruct (packet_bytes demo demo_own (fun a => a mod 256) 2000 [2000] demo_counted (proj2 demo_packets))
    as (_ & _ & _ & _ & _ & _ & H).
  destruct (H 2 59) as [-> _]; [lia|lia|]. reflexivity.
Defined.
