(* ===== verification/Packet.v ===== *)
(** * Packet: the packets of the service transport (portable/xbot/packet.cpp)

    A packet is a block of [max_packet_size] bytes from a pool of 25 that lwIP manages,
    guarded by a semaphore of the kernel.  The pool is an interface: allocation and
    release with their laws, which the pool of [Memp] satisfies.  The blocking [allocatePacket] and [freePacket] are two
    atomic steps each - semaphore and pool - that any number of threads interleave. *)

From S2P Require Import Prelude Iobuf Memp Mailbox Sem.

Definition XBOT_PACKET_POOL_SIZE : Z := 25.

(** ** Contents *)

Record packet := Pkt { used_data : Z; pbuffer : list Z }.

Section Contents.
(** [config::max_packet_size] of the service library. *)
Context (max_packet_size : Z).

(** The block as [allocatePacket] hands it out. *)
Definition allocated (block : list Z) : packet := Pkt 0 block.

(** [None]: the copy leaves the buffer. *)
Definition packetAppendData (p : option packet) (data : list Z) : option (bool * option packet) :=
  match p with
  | None => Some (false, p)
  | Some k =>
      if max_packet_size <? u32 (u32 (Zlen data) + used_data k) then Some (false, p)
      else b ← blit (pbuffer k) (used_data k) data;
           Some (true, Some (Pkt (u32 (used_data k + Zlen data)) b))
  end.

(** The bytes the caller may read through the pointer and the length it gets. *)
Definition packetGetData (p : option packet) : option (list Z * Z) :=
  match p with None => None | Some k => Some (pbuffer k, used_data k) end.

(** The payload: the first [used_data] bytes. *)
Definition payload (k : packet) : list Z := take (Z.to_nat (used_data k)) (pbuffer k).

Definition packet_ok (k : packet) : Prop :=
  Zlen (pbuffer k) = max_packet_size /\ 0 <= used_data k <= max_packet_size /\ max_packet_size < 2 ^ 31.

Lemma packetAppendData_spec k data : packet_ok k -> Zlen data < 2 ^ 31 ->
  if used_data k + Zlen data <=? max_packet_size then
    exists k', packetAppendData (Some k) data = Some (true, Some k') /\ packet_ok k' /\
      payload k' = payload k ++ data
  else packetAppendData (Some k) data = Some (false, Some k).
Proof.
  intros (Hb & Hu & Hm) Hd. pose proof (Zlen_nonneg data). cbn.
  rewrite (u32_small (Zlen data)), (u32_small (Zlen data + _)) by lia.
  destruct (Z.leb_spec (used_data k + Zlen data) max_packet_size); ztests; [|done].
  rewrite blit_Some by lia. cbn. eexists. split; [done|]. rewrite u32_small by lia. split.
  - unfold packet_ok. cbn. split; [|lia]. unfold Zlen in *. rewrite !length_app, length_take, length_drop. lia.
  - unfold payload. cbn. rewrite app_assoc, take_app_le, firstn_all2; [done| |].
    all: unfold Zlen in *; rewrite length_app, length_take; lia.
Qed.

(** Appending a sequence of pieces, as long as each fits. *)
Fixpoint append_all (k : packet) (ds : list (list Z)) : option packet :=
  match ds with
  | [] => Some k
  | d :: ds => match packetAppendData (Some k) d with Some (true, Some k) => append_all k ds | _ => None end
  end.

Lemma append_all_spec ds : forall k, packet_ok k -> used_data k + Zlen (concat ds) <= max_packet_size ->
  exists k', append_all k ds = Some k' /\ packet_ok k' /\ payload k' = payload k ++ concat ds.
Proof.
  induction ds as [|d ds IH]; intros k Hk Hl; cbn.
  { exists k. by rewrite app_nil_r. }
  cbn in Hl. rewrite Zlen_app in Hl. pose proof (Zlen_nonneg (concat ds)). pose proof (Zlen_nonneg d).
  pose proof Hk as (? & ? & ?). pose proof (packetAppendData_spec k d Hk ltac:(lia)) as Hs.
  rewrite (proj2 (Z.leb_le _ _)) in Hs by lia. destruct Hs as (k2 & E & Hk2 & P2). cbn in E. rewrite E.
  destruct (IH k2 Hk2) as (k3 & E3 & Hk3 & P3).
  - enough (used_data k2 = used_data k + Zlen d) by lia. destruct Hk2 as (Hb2 & Hu2 & _).
    apply (f_equal Zlen) in P2. unfold payload, Zlen in *. rewrite !length_app, !length_take in P2. lia.
  - exists k3. split; [done|]. split; [done|]. by rewrite P3, P2, app_assoc.
Qed.

(** What is put into a packet is what is read from it.  Starting from a freshly
    allocated block, pieces that fit together are appended one after the other without
    leaving the buffer, and [packetGetData] then gives a buffer whose first [size] bytes
    are their concatenation. *)
Theorem packet_roundtrip (block : list Z) (ds : list (list Z))
    (Hb : Zlen block = max_packet_size) (Hm : max_packet_size < 2 ^ 31)
    (Hfit : Zlen (concat ds) <= max_packet_size) :
  exists k b n, append_all (allocated block) ds = Some k /\ packetGetData (Some k) = Some (b, n) /\
    n = Zlen (concat ds) /\ slice b 0 n = Some (concat ds).
Proof.
  pose proof (Zlen_nonneg block). pose proof (Zlen_nonneg (concat ds)).
  destruct (append_all_spec ds (allocated block)) as (k & E & (Hb' & Hu & _) & P); [|cbn; lia|].
  { unfold packet_ok. cbn. lia. }
  change (payload (allocated block)) with (@nil Z) in P. rewrite app_nil_l in P. unfold payload in P.
  exists k, (pbuffer k), (used_data k). split; [done|]. split; [done|].
  assert (used_data k = Zlen (concat ds)) as Hl.
  { apply (f_equal Zlen) in P. unfold Zlen in *. rewrite length_take in P. lia. }
  split; [done|]. rewrite slice_Some by lia. change (Z.to_nat 0) with O. by rewrite drop_0, P.
Qed.
End Contents.

Lemma packet_roundtrip_witness : exists k b n,
  append_all 4 (allocated [9; 9; 9; 9]) [[1]; [2; 3]] = Some k /\ packetGetData (Some k) = Some (b, n) /\
  n = 3 /\ slice b 0 n = Some [1; 2; 3].
Proof. apply (packet_roundtrip 4 [9; 9; 9; 9] [[1]; [2; 3]]); vm_compute; congruence. Defined.

(** ** The pool *)

(** [LWIP_MEMPOOL_ALLOC] and [LWIP_MEMPOOL_FREE]; [mp_avail] are the blocks that can be
    handed out. *)
Class MemPool (P : Type) := {
  mp_init : P;
  mp_alloc : P -> option (Z * P);
  mp_free : P -> Z -> P;
  mp_avail : P -> list Z;
}.

(** [mp_ok] is what the pool keeps of itself; a release is of a block of the pool that is in use. *)
Class MemPoolLaws (P : Type) `{MemPool P} := {
  mp_ok : P -> Prop;
  mp_init_ok : mp_ok mp_init;
  mp_init_size : NoDup (mp_avail mp_init) /\ Zlen (mp_avail mp_init) = XBOT_PACKET_POOL_SIZE;
  mp_alloc_some p x p' : mp_ok p -> mp_alloc p = Some (x, p') -> mp_ok p' /\ mp_avail p ≡ₚ x :: mp_avail p';
  mp_alloc_none p : mp_ok p -> mp_alloc p = None -> mp_avail p = [];
  mp_free_avail p x : mp_ok p -> x ∈ mp_avail mp_init -> x ∉ mp_avail p ->
    mp_ok (mp_free p x) /\ mp_avail (mp_free p x) ≡ₚ x :: mp_avail p;
}.

(** The pool of lwIP, declared by LWIP_MEMPOOL_DECLARE at [base] with elements of [size] bytes.  A
    failed assertion of a call never happens under the laws; it leaves the pool as it is. *)
Section LwipPool.
Context (base size : Z).
Definition pool_num : nat := Z.to_nat XBOT_PACKET_POOL_SIZE.

#[export] Instance lwip_pool : MemPool mpool := {
  mp_init := memp_init_pool base size pool_num (MPool 0 id 0);
  mp_alloc p := match do_memp_malloc_pool p with Some (p', x) => if x =? 0 then None else Some (x, p') | None => None end;
  mp_free p x := default p (memp_free_pool p x);
  mp_avail p := walk pool_num (mnext p) (tab p);
}.

Definition lwip_ok (p : mpool) : Prop := exists l o, pool_rep base size pool_num p l o.

Lemma lwip_walk p l o : layout base size -> pool_rep base size pool_num p l o -> walk pool_num (mnext p) (tab p) = l.
Proof.
  intros Hlay Hr. apply walk_linked; [apply Hr| |].
  - apply Forall_forall. intros x Hx. by apply (rep_elem base size pool_num Hlay p l o).
  - pose proof (Permutation_length (pr_perm _ _ _ _ _ _ Hr)) as Hp. unfold elements in Hp. rewrite length_app, length_map, length_seq in Hp. lia.
Qed.

Lemma lwip_init : layout base size -> exists l, pool_rep base size pool_num mp_init l [] /\ l ≡ₚ elements base size pool_num.
Proof.
  intros Hlay. destruct (memp_init_rep base size pool_num Hlay (MPool 0 id 0) eq_refl) as [l Hr]. exists l. split; [done|]. apply (pr_perm _ _ _ _ _ _ Hr).
Qed.

#[refine] Definition lwip_pool_laws (Hlay : layout base size) : MemPoolLaws mpool := Build_MemPoolLaws mpool lwip_pool lwip_ok _ _ _ _ _.
Proof.
  - destruct (lwip_init Hlay) as (l0 & H0 & _). by exists l0, [].
  - destruct (lwip_init Hlay) as (l0 & H0 & Hp0). change (mp_avail mp_init) with (walk pool_num (mnext mp_init) (tab mp_init)).
    rewrite (lwip_walk _ l0 [] Hlay H0). split; [rewrite Hp0; by apply elements_nodup|]. unfold Zlen. by rewrite Hp0.
  - cbn. intros p x p' (l & o & Hr) E. pose proof (memp_malloc_rep base size pool_num Hlay p l o Hr) as Hm. rewrite (lwip_walk p l o Hlay Hr).
    destruct l as [|y r]; [by rewrite Hm in E|]. destruct Hm as (p2 & E2 & Hr2). rewrite E2 in E.
    destruct (y =? 0); [done|]. simplify_eq. split; [by exists r, (x :: o)|]. by rewrite (lwip_walk p' r (x :: o) Hlay Hr2).
  - cbn. intros p (l & o & Hr) E. pose proof (memp_malloc_rep base size pool_num Hlay p l o Hr) as Hm. rewrite (lwip_walk p l o Hlay Hr).
    destruct l as [|y r]; [done|]. destruct Hm as (p2 & E2 & _). rewrite E2 in E.
    destruct (rep_elem base size pool_num Hlay p (y :: r) o y Hr) as [Hy _]; [by left|]. by rewrite (proj2 (Z.eqb_neq _ _)) in E.
  - destruct (lwip_init Hlay) as (l0 & H0 & Hp0). change (mp_avail mp_init) with (walk pool_num (mnext mp_init) (tab mp_init)). cbn [mp_avail lwip_pool].
    intros p x (l & o & Hr). rewrite (lwip_walk _ l0 [] Hlay H0), (lwip_walk p l o Hlay Hr), Hp0. intros Hx Hn.
    rewrite <- (pr_perm _ _ _ _ _ _ Hr) in Hx. apply elem_of_app in Hx as [Hx|]; [|done].
    apply list_elem_of_split in Hx as (a & b & ->).
    destruct (memp_free_rep base size pool_num Hlay p l a x b Hr) as (p2 & E2 & Hr2). cbn [mp_free lwip_pool]. rewrite E2. change (default p (Some p2)) with p2.
    split; [by exists (x :: l), (a ++ b)|]. cbn [mp_avail lwip_pool]. by rewrite (lwip_walk p2 _ _ Hlay Hr2).
Defined.
End LwipPool.

Section Pool.
Context {P : Type} `{MemPoolLaws P}.

(** [tickets]: threads the semaphore let through that have not allocated yet; [owned]: the
    blocks handed out; [unsignalled]: blocks given back whose signal is still to come. *)
Record pool_sys := PoolSys {
  psem : semaphore; ppool : P; tickets : list Z; owned : list Z; unsignalled : Z
}.

(** [allocatePacket], up to the return of [chSemWait], for thread [t]. *)
Definition allocate_wait (s : pool_sys) (t : Z) : option pool_sys :=
  '(c, r) ← chSemWaitS (psem s) t;
  Some (PoolSys c (ppool s) (match r with WSleep => tickets s | WRet _ => t :: tickets s end)
          (owned s) (unsignalled s)).

(** The rest of [allocatePacket]; [None]: the pool is empty and the thread spins for ever. *)
Definition allocate_take (s : pool_sys) : option (Z * pool_sys) :=
  '(x, p) ← mp_alloc (ppool s);
  Some (x, PoolSys (psem s) p (tickets s) (x :: owned s) (unsignalled s)).

(** [freePacket]: back into the pool ... *)
Definition free_give (s : pool_sys) (x : Z) : pool_sys :=
  PoolSys (psem s) (mp_free (ppool s) x) (tickets s) (owned s) (unsignalled s + 1).

(** ... then the signal, which may let a sleeping thread through. *)
Definition free_signal (s : pool_sys) : option pool_sys :=
  '(c, k) ← chSemSignal (psem s);
  Some (PoolSys c (ppool s) (map fst k ++ tickets s) (owned s) (unsignalled s - 1)).

Definition set_tickets (s : pool_sys) ts := PoolSys (psem s) (ppool s) ts (owned s) (unsignalled s).
Definition set_owned (s : pool_sys) os := PoolSys (psem s) (ppool s) (tickets s) os (unsignalled s).

Inductive pool_step : pool_sys -> pool_sys -> Prop :=
  | p_wait s t s' : allocate_wait s t = Some s' -> pool_step s s'
  | p_take s a t b x s' : tickets s = a ++ t :: b ->
      allocate_take (set_tickets s (a ++ b)) = Some (x, s') -> pool_step s s'
  | p_give s a x b : owned s = a ++ x :: b -> pool_step s (free_give (set_owned s (a ++ b)) x)
  | p_signal s s' : 0 < unsignalled s -> free_signal s = Some s' -> pool_step s s'.

Definition pool_init : pool_sys := PoolSys (chSemObjectInit XBOT_PACKET_POOL_SIZE) mp_init [] [] 0.

Record pool_inv (s : pool_sys) : Prop := {
  pi_sem : sem_ok (psem s);
  pi_pool : mp_ok (ppool s);
  pi_blocks : owned s ++ mp_avail (ppool s) ≡ₚ mp_avail mp_init;
  pi_units : tokens (psem s) + Zlen (tickets s) + unsignalled s = Zlen (mp_avail (ppool s));
  pi_signal : 0 <= unsignalled s;
}.

Lemma pool_init_inv : pool_inv pool_init.
Proof.
  split; cbn; try done; try lia; [apply mp_init_ok|]. rewrite (proj2 mp_init_size). done.
Qed.

Lemma Zlen_perm {A} (l k : list A) : l ≡ₚ k -> Zlen l = Zlen k.
Proof. intros E. unfold Zlen. by rewrite E. Qed.

Lemma pool_step_inv s s' : pool_inv s -> pool_step s s' -> pool_inv s'.
Proof.
  intros [Hs Hk Hb Hu Hg] Hst. destruct Hst as [s t s' E|s a t b x s' Ht E|s a x b Ho|s s' Hp E].
  - unfold allocate_wait in E. destruct (chSemWaitS (psem s) t) as [[c r]|] eqn:Ec; [|done].
    destruct (wait_spec (psem s) t c r Hs Ec) as (Hok & _ & D). cbn in E. simplify_eq. split; cbn; try done.
    destruct D as [(-> & _ & E2)|(-> & _ & E2 & E3)]; rewrite ?Zlen_cons; lia.
  - unfold allocate_take in E. cbn in E. destruct (mp_alloc (ppool s)) as [[y p]|] eqn:Ea; [|done].
    cbn in E. simplify_eq. apply mp_alloc_some in Ea as [Hk' Ea]; [|done]. pose proof (Zlen_perm _ _ Ea) as L.
    rewrite Zlen_cons in L. split; cbn; try done.
    + rewrite <- Hb, Ea. apply Permutation_middle.
    + rewrite Ht, !Zlen_app, Zlen_cons in Hu. rewrite Zlen_app. lia.
  - pose proof (proj1 mp_init_size) as Hnd. rewrite <- Hb, Ho in Hnd. apply NoDup_app in Hnd as (_ & Hnd & _).
    destruct (mp_free_avail (ppool s) x Hk) as [Hk' Hf].
    { rewrite <- Hb, Ho. apply elem_of_app. left. apply elem_of_app. right. by left. }
    { apply Hnd. apply elem_of_app. right. by left. }
    pose proof (Zlen_perm _ _ Hf) as L. rewrite Zlen_cons in L. split; cbn; try done.
    + rewrite <- Hb, Hf, Ho. rewrite <- Permutation_middle, <- Permutation_middle. done.
    + lia.
    + lia.
  - unfold free_signal, chSemSignal in E. rewrite guard_ok in E by done.
    destruct (signal1 (psem s)) as [[c k]|] eqn:Ec; [|done].
    destruct (signal1_spec (psem s) c k Hs Ec) as (Hok & _ & D). cbn in E. simplify_eq.
    split; cbn; try done; try lia.
    destruct D as [(_ & _ & -> & E2)|(t & _ & -> & E2)]; cbn; rewrite ?Zlen_cons; lia.
Qed.

Lemma pool_reachable s : rtc pool_step pool_init s -> pool_inv s.
Proof.
  intros Hr. pose proof pool_init_inv as Hi. induction Hr as [|x y z Hst _ IH]; [done|].
  apply IH. by eapply pool_step_inv.
Qed.

(** C9: Packets are conserved and never handed out twice, however the threads interleave, as
    long as no call of the memory pool is interrupted by another one.  In every reachable state the blocks in the pool and those in use are the 25 blocks, each
    once; a thread the semaphore let through always finds a block that nobody else has, so the
    endless loop behind a failed allocation is never entered; and if a thread sleeps in
    [allocatePacket] while none is between the semaphore and the pool, all 25 are in use. *)
Theorem packet_conservation (s : pool_sys) (Hr : rtc pool_step pool_init s) :
  owned s ++ mp_avail (ppool s) ≡ₚ mp_avail mp_init /\ NoDup (owned s ++ mp_avail (ppool s)) /\
  (tickets s <> [] -> exists x s', allocate_take s = Some (x, s') /\ x ∉ owned s) /\
  (squeue (psem s) <> [] -> tickets s = [] -> unsignalled s = 0 -> Zlen (owned s) = XBOT_PACKET_POOL_SIZE).
Proof.
  destruct (pool_reachable s Hr) as [Hs Hk Hb Hu Hg]. destruct mp_init_size as [Hnd Hsz].
  assert (NoDup (owned s ++ mp_avail (ppool s))) as Hn by (by rewrite Hb). split_and!; try done.
  - intros Ht. unfold allocate_take. destruct (mp_alloc (ppool s)) as [[x p]|] eqn:E.
    + cbn. do 2 eexists. split; [done|]. apply mp_alloc_some in E as [_ E]; [|done]. rewrite E, NoDup_app in Hn.
      destruct Hn as (_ & Hd & _). intros Hx. apply (Hd x Hx). by left.
    + apply mp_alloc_none in E; [|done]. rewrite E, Zlen_nil in Hu. unfold tokens in Hu.
      destruct (tickets s) as [|t ts]; [done|]. rewrite Zlen_cons in Hu. pose proof (Zlen_nonneg ts). lia.
  - intros Hq Ht Hz. rewrite Ht, Hz, Zlen_nil in Hu. unfold sem_ok, tokens in *.
    destruct (squeue (psem s)) as [|t q]; [done|]. rewrite Zlen_cons in Hs. pose proof (Zlen_nonneg q).
    rewrite <- Hsz, <- (Zlen_perm _ _ Hb), Zlen_app. lia.
Qed.

(** One thread allocates a block. *)
Lemma one_allocation x p : mp_alloc mp_init = Some (x, p) -> rtc pool_step pool_init (PoolSys (Semaphore 24 []) p [] [x] 0).
Proof.
  intros E. apply (rtc_l _ _ (PoolSys (Semaphore 24 []) mp_init [7] [] 0)); [by apply (p_wait _ 7)|].
  apply rtc_once, (p_take _ [] 7 [] x); [done|]. unfold allocate_take. cbn. by rewrite E.
Qed.
End Pool.

Arguments pool_sys : clear implicits.

(** A pool at 1000 with elements of 8 bytes, after an allocation. *)
Definition demo_pool1 : mpool := default (MPool 0 id 0) (snd <$> mp_alloc (MemPool := lwip_pool 1000 8) (mp_init (MemPool := lwip_pool 1000 8))).

Lemma demo_alloc : mp_alloc (MemPool := lwip_pool 1000 8) (mp_init (MemPool := lwip_pool 1000 8)) = Some (1192, demo_pool1).
Proof.
  assert (fst <$> mp_alloc (MemPool := lwip_pool 1000 8) (mp_init (MemPool := lwip_pool 1000 8)) = Some 1192) as E by (vm_compute; reflexivity).
  unfold demo_pool1. destruct (mp_alloc _) as [[x p]|]; [|done]. cbn in *. by injection E as ->.
Qed.

Definition demo_sys : pool_sys mpool := PoolSys (Semaphore 24 []) demo_pool1 [] [1192] 0.

Lemma packet_conservation_witness : NoDup (owned demo_sys ++ mp_avail (MemPool := lwip_pool 1000 8) (ppool demo_sys)).
Proof.
  assert (layout 1000 8) as Hl by (split; [lia|split; [lia|reflexivity]]).
  pose proof (one_allocation (H := lwip_pool 1000 8) 1192 demo_pool1 demo_alloc) as Hr.
  exact (proj1 (proj2 (packet_conservation (H := lwip_pool 1000 8) (H0 := lwip_pool_laws 1000 8 Hl) _ Hr))).
Defined.
