(* ===== verification/Xio.v ===== *)
(** * Xio: the transport of the services (portable/xbot/Io.cpp, socket.cpp, queue.cpp,
    system.cpp, src/services/service_ext.hpp)

    The services are records in a store, linked into a list through [next_service_]; the
    loops over that list run on fuel, which the number of services bounds.  A round of the
    IO thread is a function from what [recvfrom] gives to the trace of what is done with
    the packet.  The message header and the services' [ioInput] belong to the service
    library: the header's size and fields are parameters, [ioInput] is the event of handing the
    packet over. *)

From stdpp Require Import gmap.
From S2P Require Import Prelude Iobuf Chibi Mailbox Events Packet.

(** ** Registered services *)

Record service := Service { service_id_ : Z; stopped : bool; next_service_ : option Z }.

Record io := Io { firstService_ : option Z; services : gmap Z service }.

Definition set_next (s : service) (n : option Z) : service := Service (service_id_ s) (stopped s) n.

(** The location behind the last service: [firstService_] ([None]) or the link of a service.
    Out of fuel or a dangling link: [None]. *)
Fixpoint last_link (fuel : nat) (st : gmap Z service) (prev p : option Z) : option (option Z) :=
  match fuel with
  | O => None
  | S fuel =>
      match p with
      | None => Some prev
      | Some x => s ← st !! x; last_link fuel st (Some x) (next_service_ s)
      end
  end.

Definition io_fuel (i : io) : nat := S (base.size (services i)).

Definition registerServiceIo (i : io) (s : Z) : option io :=
  link ← last_link (io_fuel i) (services i) None (firstService_ i);
  match link with
  | None => Some (Io (Some s) (services i))
  | Some x => sv ← services i !! x; Some (Io (firstService_ i) (<[x := set_next sv (Some s)]> (services i)))
  end.

(** The first running service with the identifier. *)
Fixpoint find_service (fuel : nat) (st : gmap Z service) (p : option Z) (id : Z) : option (option Z) :=
  match fuel with
  | O => None
  | S fuel =>
      match p with
      | None => Some None
      | Some x =>
          s ← st !! x;
          if (service_id_ s =? id) && negb (stopped s) then Some (Some x)
          else find_service fuel st (next_service_ s) id
      end
  end.

(** ** The IO thread *)

Inductive event := EvAlloc (p : Z) | EvFree (p : Z) | EvInput (s p : Z) | EvSend (ip port : Z) (data : list Z).

Section Io.
Context (max_packet_size : Z).
(** [sizeof (XbotHeader)] and two of its fields, from the first bytes of a packet. *)
Context (header_size : Z) (hdr_service_id hdr_payload_size : list Z -> Z).

(** [receivePacket] with the block [p]; [recv] is what [recvfrom] delivers, [None] an error or the
    time-out of one second.  The trace, and the packet if it returns true. *)
Definition receivePacket (p : Z) (block : list Z) (recv : option (list Z)) : option (list event * option packet) :=
  match recv with
  | None => Some ([EvAlloc p; EvFree p], None)
  | Some data =>
      let data := take (Z.to_nat max_packet_size) data in
      b ← blit block 0 data; Some ([EvAlloc p], Some (Pkt (Zlen data) b))
  end.

(** The body of the loop of [runIo]. *)
Definition runIo (i : io) (p : Z) (block : list Z) (recv : option (list Z)) : option (list event * option packet) :=
  '(tr, pk) ← receivePacket p block recv;
  match pk with
  | None => Some (tr, None)
  | Some k =>
      match packetGetData (Some k) with
      | None => Some (tr ++ [EvFree p], pk)
      | Some (buffer, used_data) =>
          if used_data <? header_size then Some (tr ++ [EvFree p], pk)
          else if negb (u32 (used_data - header_size) =? hdr_payload_size buffer) then Some (tr ++ [EvFree p], pk)
          else
            target ← find_service (io_fuel i) (services i) (firstService_ i) (hdr_service_id buffer);
            Some (tr ++ [match target with Some s => EvInput s p | None => EvFree p end], pk)
      end
  end.

(** [transmitPacket]: the packet is sent and freed, whether or not sending works. *)
Definition transmitPacket (p : Z) (k : packet) (ip port : Z) : option (list event * bool) :=
  d ← slice (pbuffer k) 0 (used_data k); Some ([EvSend ip port d; EvFree p], true).

(** ** The chain of services *)

Fixpoint chain (st : gmap Z service) (p : option Z) (l : list Z) : Prop :=
  match l with
  | [] => p = None
  | x :: l => p = Some x /\ exists s, st !! x = Some s /\ chain st (next_service_ s) l
  end.

Lemma chain_dom st l : forall p x, chain st p l -> x ∈ l -> is_Some (st !! x).
Proof.
  induction l as [|y l IH]; intros p x; cbn; [intros _ H; by apply elem_of_nil in H|].
  intros (_ & s & Hs & Hc) [->|Hx]%elem_of_cons; [by eexists|by eapply IH].
Qed.

Lemma chain_fuel st p l : chain st p l -> NoDup l -> (length l < S (base.size st))%nat.
Proof.
  intros Hc Hn. rewrite <- (size_list_to_set (C := gset Z)) by done.
  apply Nat.lt_succ_r. rewrite <- size_dom. apply subseteq_size.
  intros x Hx%elem_of_list_to_set. apply elem_of_dom. by eapply chain_dom.
Qed.

Lemma last_link_chain st l : forall p prev fuel, chain st p l -> (length l < fuel)%nat ->
  last_link fuel st prev p = Some (match last l with Some x => Some x | None => prev end).
Proof.
  induction l as [|x l IH]; intros p prev fuel Hc Hf; destruct fuel as [|fuel]; try (cbn in Hf; lia); cbn in Hc |- *.
  - by subst.
  - destruct Hc as (-> & s & Hs & Hc). rewrite Hs. cbn. rewrite (IH _ (Some x)) by (done || (cbn in Hf; lia)).
    change (match l with [] => Some x | _ => last l end) with (last (x :: l)). rewrite last_cons. by destruct (last l).
Qed.

Lemma chain_frame st x s l : forall p, chain st p l -> x ∉ l -> chain (<[x := s]> st) p l.
Proof.
  induction l as [|y l IH]; intros p; cbn; [done|]. intros (-> & sy & Hy & Hc) Hx.
  split; [done|]. exists sy. apply not_elem_of_cons in Hx as [Hne Hx].
  rewrite lookup_insert_ne by done. auto.
Qed.

Lemma chain_extend st s sv : st !! s = Some sv -> next_service_ sv = None ->
  forall l q sq p, chain st p (l ++ [q]) -> NoDup (l ++ [q; s]) -> st !! q = Some sq ->
  chain (<[q := set_next sq (Some s)]> st) p (l ++ [q; s]).
Proof.
  intros Hs Hnx. induction l as [|x l IH]; intros q sq p Hc Hn Hq; cbn in Hc |- *.
  - destruct Hc as (-> & sq' & Hq' & Hc). simplify_eq. cbn in Hn.
    apply NoDup_cons in Hn as [Hne _]. rewrite list_elem_of_singleton in Hne. split; [done|].
    exists (set_next sq' (Some s)). rewrite lookup_insert_eq. split; [done|]. split; [done|].
    exists sv. rewrite lookup_insert_ne by done. auto.
  - destruct Hc as (-> & sx & Hx & Hc). cbn in Hn. apply NoDup_cons in Hn as [Hnx' Hn]. split; [done|].
    exists sx. rewrite lookup_insert_ne.
    + split; [done|]. by apply IH.
    + intros ->. apply Hnx'. apply elem_of_app. right. by left.
Qed.

(** The services by themselves, without their links. *)
Definition same_services (st st' : gmap Z service) : Prop :=
  forall x, (fun s => (service_id_ s, stopped s)) <$> st' !! x = (fun s => (service_id_ s, stopped s)) <$> st !! x.

Lemma register_spec i l s sv : chain (services i) (firstService_ i) l -> NoDup (l ++ [s]) ->
  services i !! s = Some sv -> next_service_ sv = None ->
  exists i', registerServiceIo i s = Some i' /\ chain (services i') (firstService_ i') (l ++ [s]) /\
    same_services (services i) (services i') /\
    (forall x, x ∉ l -> services i' !! x = services i !! x).
Proof.
  intros Hc Hn Hs Hnx. unfold registerServiceIo, io_fuel.
  pose proof Hn as Hn'. apply NoDup_app in Hn' as (Hnl & _ & _). pose proof (chain_fuel _ _ _ Hc Hnl) as Hf.
  rewrite (last_link_chain _ l) by done. cbn.
  destruct l as [|q l0 _] using rev_ind.
  - cbn. eexists. split; [done|]. cbn. split; [|done]. split; [done|]. exists sv. by rewrite Hnx.
  - rewrite last_snoc. cbn. destruct (chain_dom _ _ _ q Hc) as [sq Hq]; [apply elem_of_app; right; by left|].
    rewrite Hq. cbn. eexists. split; [done|]. cbn. rewrite <- app_assoc in *. cbn in *. split_and!.
    + by eapply chain_extend.
    + intros x. destruct (decide (x = q)) as [->|]; [by rewrite lookup_insert_eq, Hq|by rewrite lookup_insert_ne].
    + intros x Hx. rewrite lookup_insert_ne; [done|]. intros ->. apply Hx. apply elem_of_app. right. by left.
Qed.
End Io.

Fixpoint register_all (i : io) (ss : list Z) : option io :=
  match ss with [] => Some i | s :: ss => i ← registerServiceIo i s; register_all i ss end.

(** The first of [ss] that has the identifier and runs. *)
Definition first_running (st : gmap Z service) (ss : list Z) (id : Z) : option Z :=
  List.find (fun s => match st !! s with
                      | Some sv => (service_id_ sv =? id) && negb (stopped sv)
                      | None => false
                      end) ss.

(** Services that are known and not linked yet. *)
Definition unlinked (st : gmap Z service) (ss : list Z) : Prop :=
  Forall (fun s => exists sv, st !! s = Some sv /\ next_service_ sv = None) ss.

Lemma register_all_spec ss : forall i l, chain (services i) (firstService_ i) l -> NoDup (l ++ ss) ->
  unlinked (services i) ss ->
  exists i', register_all i ss = Some i' /\ chain (services i') (firstService_ i') (l ++ ss) /\
    same_services (services i) (services i').
Proof.
  induction ss as [|s ss IH]; intros i l Hc Hn Hu; cbn [register_all].
  { exists i. by rewrite app_nil_r. }
  apply Forall_cons in Hu as [(sv & Hs & Hnx) Hu].
  assert (NoDup (l ++ [s])) as Hn1.
  { replace (l ++ s :: ss) with ((l ++ [s]) ++ ss) in Hn by (by rewrite <- app_assoc). by apply NoDup_app in Hn as [? _]. }
  destruct (register_spec i l s sv Hc Hn1 Hs Hnx) as (i1 & E1 & Hc1 & Hsame & Hkeep). rewrite E1.
  cbn [mbind option_bind].
  destruct (IH i1 (l ++ [s])) as (i2 & E2 & Hc2 & Hsame2); [done|by rewrite <- app_assoc| |].
  - apply Forall_forall. intros x Hx. apply NoDup_app in Hn as (_ & Hd & _).
    rewrite Hkeep by (intros Hxl; apply (Hd x Hxl); by right). by apply (proj1 (Forall_forall _ _) Hu).
  - exists i2. rewrite E2, <- app_assoc in *. split_and!; try done. intros x. by rewrite Hsame2, Hsame.
Qed.

Lemma find_service_chain st id l : forall p fuel, chain st p l -> (length l < fuel)%nat ->
  find_service fuel st p id = Some (first_running st l id).
Proof.
  induction l as [|x l IH]; intros p fuel Hc Hf; destruct fuel as [|fuel]; try (cbn in Hf; lia); cbn in Hc |- *.
  - by subst.
  - destruct Hc as (-> & s & Hs & Hc). rewrite Hs. cbn. unfold first_running. cbn [List.find].
    destruct ((service_id_ s =? id) && negb (stopped s)); [done|]. apply IH; [done|]. cbn in Hf. lia.
Qed.

Lemma first_running_same st st' l id : same_services st st' -> first_running st' l id = first_running st l id.
Proof.
  intros H. unfold first_running. induction l as [|x l IH]; [done|]. cbn [List.find]. rewrite IH. specialize (H x).
  destruct (st' !! x) as [s'|], (st !! x) as [s|]; cbn in H; try done. injection H as -> ->. done.
Qed.

Section Delivery.
Context (max_packet_size header_size : Z) (hdr_service_id hdr_payload_size : list Z -> Z).
(** The fields lie in the first [header_size] bytes. *)
Hypothesis hdr_local : forall d r, header_size <= Zlen d ->
  hdr_service_id (d ++ r) = hdr_service_id d /\ hdr_payload_size (d ++ r) = hdr_payload_size d.

Definition well_formed (d : list Z) : bool :=
  (header_size <=? Zlen d) && (u32 (Zlen d - header_size) =? hdr_payload_size d).

(** C8: A datagram reaches exactly the service it is meant for, and its packet is never lost.
    For services registered one after the other, every round of the IO thread terminates: it
    allocates one packet and either hands it to the first registered service with the header's
    identifier that is not stopped, with the bytes of the datagram as its contents, or frees
    it - when the datagram is shorter than a header, its length disagrees with the header, or
    no such service runs, and when nothing was received. *)
Theorem io_delivery (st : gmap Z service) (ss : list Z) (Hn : NoDup ss) (Hu : unlinked st ss)
    (Hmax : 0 <= max_packet_size < 2 ^ 31) (Hhs : 0 <= header_size) :
  exists i, register_all (Io None st) ss = Some i /\
  forall p block, Zlen block = max_packet_size ->
    runIo max_packet_size header_size hdr_service_id hdr_payload_size i p block None
      = Some ([EvAlloc p; EvFree p], None) /\
    forall data, let d := take (Z.to_nat max_packet_size) data in
    exists k, payload k = d /\ packet_ok max_packet_size k /\
      runIo max_packet_size header_size hdr_service_id hdr_payload_size i p block (Some data)
      = Some ([EvAlloc p;
               match if well_formed d then first_running st ss (hdr_service_id d) else None with
               | Some s => EvInput s p | None => EvFree p end], Some k).
Proof.
  destruct (register_all_spec ss (Io None st) [] eq_refl Hn Hu) as (i & E & Hc & Hsame).
  exists i. split; [done|]. intros p block Hb. split; [done|]. intros data d. unfold runIo, receivePacket.
  fold d. assert (Zlen d <= max_packet_size) as Hd by (unfold d, Zlen; rewrite length_take; lia).
  pose proof (Zlen_nonneg d).
  rewrite blit_start by lia. cbn [mbind option_bind packetGetData app used_data pbuffer].
  eexists (Pkt (Zlen d) (d ++ drop (length d) block)). split_and!.
  - unfold payload. cbn [used_data pbuffer]. unfold Zlen. rewrite Nat2Z.id. apply take_app_length.
  - unfold packet_ok. cbn. split; [|lia]. rewrite <- Hb. unfold Zlen in *. rewrite length_app, length_drop. lia.
  - unfold well_formed. destruct (Z.ltb_spec (Zlen d) header_size); ztests; [done|].
    destruct (hdr_local d (drop (length d) block)) as [-> ->]; [lia|].
    destruct (u32 (Zlen d - header_size) =? hdr_payload_size d); cbn [negb]; [|done].
    rewrite (find_service_chain _ _ ss) by (done || by eapply chain_fuel).
    cbn. rewrite (first_running_same st) by done. done.
Qed.
End Delivery.

(** A header of an identifier and a size of two bytes each. *)
Definition demo_id (d : list Z) : Z := match d with a :: b :: _ => a + 256 * b | _ => 0 end.
Definition demo_size (d : list Z) : Z := match d with _ :: _ :: a :: b :: _ => a + 256 * b | _ => 0 end.

Definition demo_store : gmap Z service :=
  <[100 := Service 1 true None]> (<[101 := Service 1 false None]> ∅).

Lemma io_delivery_witness :
  exists i, register_all (Io None demo_store) [100; 101] = Some i /\
  exists k, payload k = [1; 0; 1; 0; 42] /\
    runIo 8 4 demo_id demo_size i 3 [0; 0; 0; 0; 0; 0; 0; 0] (Some [1; 0; 1; 0; 42])
    = Some ([EvAlloc 3; EvInput 101 3], Some k).
Proof.
  destruct (io_delivery 8 4 demo_id demo_size) with (st := demo_store) (ss := [100; 101]) as (i & Hi & Hd).
  - intros [|? [|? [|? [|? d]]]] r H; done || (exfalso; revert H; vm_compute; congruence).
  - repeat constructor; set_solver.
  - repeat constructor; eexists; split; reflexivity.
  - lia.
  - lia.
  - exists i. split; [exact Hi|]. destruct (proj2 (Hd 3 [0; 0; 0; 0; 0; 0; 0; 0] eq_refl) [1; 0; 1; 0; 42]) as (k & Hk & _ & E).
    exists k. split; [exact Hk|exact E].
Defined.

(** A service that is registered twice is its own successor: the walk over the list does
    not end for any other identifier. *)
Example register_twice : forall fuel,
  exists i, register_all (Io None (<[100 := Service 1 false None]> ∅)) [100; 100] = Some i /\
    find_service fuel (services i) (firstService_ i) 2 = None.
Proof.
  intros fuel. eexists. split; [reflexivity|]. cbn [services firstService_].
  induction fuel as [|fuel IH]; [done|]. cbn [find_service]. rewrite lookup_insert_eq. exact IH.
Qed.

(** ** Queues of the services (queue.cpp) *)

(** [buf] is the array of messages behind the pointer; a message takes four bytes. *)
Definition queue_initialize (buf : list Z) (buffer_size : Z) : mailbox :=
  chMBObjectInit (take (Z.to_nat (buffer_size / 4)) buf).

Definition pop_timeout (timeout_micros : Z) : Z :=
  if 0 <? timeout_micros then Time.TIME_US2I timeout_micros else TIME_IMMEDIATE.

(** What [queuePopItem] returns, with the item; [None]: the thread sleeps. *)
Definition queuePopItem (m : mailbox) (self timeout_micros : Z) (resumed : option Z) :
    option (mailbox * wakes * option (bool * option Z)) :=
  '(m, k, o) ← chMBFetchTimeoutS m (Waiter self CFetch 0 (pop_timeout timeout_micros)) resumed;
  Some (m, k, match o with
              | Return r v => Some ((r =? MSG_OK) && negb (default 0 v =? 0), v)
              | Sleep => None
              end).

Definition queuePushItem (m : mailbox) (self item : Z) (resumed : option Z) : option (mailbox * wakes * option bool) :=
  '(m, k, o) ← chMBPostTimeoutS m (Waiter self CPost item (Time.TIME_MS2I 10)) resumed;
  Some (m, k, match o with Return r _ => Some (r =? MSG_OK) | Sleep => None end).

(** [ServiceExt::SendEvent]: the event for the service's thread, and a null message to get it
    out of its queue. *)
Definition SendEvent (t : thread) (m : mailbox) (id : Z) : option (thread * mailbox * wakes) :=
  let t := signal_thread t (EVENT_MASK id) in
  '(m, k, _) ← chMBPostI m 0; Some (t, m, k).

(** The queue of a service that is not being reset never puts the reader to sleep while it
    holds an item. *)
Lemma pop_ready m self us v q : wf m -> reset m = false -> contents m = v :: q ->
  exists m' k, queuePopItem m self us None = Some (m', k, Some (negb (v =? 0), Some v)) /\ contents m' = q.
Proof.
  intros Hw Hr Hc. unfold queuePopItem.
  destruct (run_call_effect m (Waiter self CFetch 0 (pop_timeout us)) None Hw) as (m' & k & o & E & He).
  cbn [run_call wcall] in E. rewrite E. cbn [mbind option_bind].
  pose proof (contents_len m Hw) as L. rewrite Hc, Zlen_cons in L. pose proof (Zlen_nonneg q).
  destruct He as [x Hx [G|[(y & G & _)|[[_ G]|[G _]]]]|m' k ? ? ? ? G|m' k v' ? ? ? ? ? G| |G ? ?]; try done; try congruence; try lia.
  rewrite Hc in G. simplify_eq. do 2 eexists. split; [|done]. done.
Qed.

(** An event sent to a service gets its thread going and is not lost.  Whatever the queue
    holds, [SendEvent] succeeds without leaving the ring, sets exactly the event in the thread's
    mask and adds at most one null message - none if the queue is full; a reader that sleeps on
    the empty queue is woken; and the next [queuePopItem] does not sleep: it returns the oldest
    item, reported as a packet exactly if it is not the null message. *)
Theorem send_event_delivered (t : thread) (m : mailbox) (id : Z)
    (Hw : wf m) (Hr : reset m = false) (Hid : 0 <= id < 32) :
  exists t' m' k, SendEvent t m id = Some (t', m', k) /\
    (forall b, 0 <= b -> Z.testbit (epending t') b = Z.testbit (epending t) b || (b =? id)) /\
    contents m' = (if Zlen (contents m) <? Mailbox.size m then contents m ++ [0] else contents m) /\
    (forall w q, qr m = w :: q -> contents m = [] -> k = [(w, MSG_OK)] /\ qr m' = q) /\
    forall self us, exists v q m2 k2, contents m' = v :: q /\
      queuePopItem m' self us None = Some (m2, k2, Some (negb (v =? 0), Some v)) /\ contents m2 = q.
Proof.
  unfold SendEvent, chMBPostI. rewrite Hr, free_count by done. pose proof (contents_len m Hw) as L. rewrite L.
  assert (forall b, 0 <= b -> Z.testbit (epending (signal_thread t (EVENT_MASK id))) b = Z.testbit (epending t) b || (b =? id)) as Hbit.
  { intros b Hb. cbn. rewrite Z.lor_spec, event_mask_bit, Z.pow2_bits_eqb by lia. by rewrite (Z.eqb_sym b). }
  destruct (Z.ltb_spec (cnt m) (Mailbox.size m)) as [Hlt|Hge].
  - destruct (store_tail_spec m 0 Hw Hlt) as (m1 & -> & Hw1 & (Hs & Hre & Hqw & Hqr) & Hc).
    cbn [mbind option_bind]. unfold wake_reader. rewrite dequeue_next. cbn [mbind option_bind].
    do 3 eexists. split; [done|]. split; [done|]. change (contents (set_qr m1 (tail (qr m1)))) with (contents m1).
    split; [done|]. split.
    + intros w q Hq _. rewrite Hqr, Hq. done.
    + intros self us. rewrite Hc. destruct (contents m) as [|v q] eqn:E; cbn [app].
      * destruct (pop_ready (set_qr m1 (tail (qr m1))) self us 0 []) as (m2 & k2 & E2 & C2);
          [by apply wf_set_qr|cbn; congruence|done|]. exists 0, [], m2, k2. done.
      * destruct (pop_ready (set_qr m1 (tail (qr m1))) self us v (q ++ [0])) as (m2 & k2 & E2 & C2);
          [by apply wf_set_qr|cbn; congruence|done|]. exists v, (q ++ [0]), m2, k2. done.
  - cbn [mbind option_bind]. do 3 eexists. split; [done|]. split; [done|]. split; [done|].
    pose proof (wf_size m Hw). destruct (contents m) as [|v q] eqn:E; [rewrite Zlen_nil in L; lia|].
    split; [done|]. intros self us. destruct (pop_ready m self us v q Hw Hr E) as (m2 & k2 & E2 & C2).
    exists v, q, m2, k2. done.
Qed.

Lemma send_event_delivered_witness :
  exists t' m' k, SendEvent (Thread 0 TRun) (MB [0; 0] 0 0 0 false [] [demo_reader]) 1 = Some (t', m', k) /\
    k = [(demo_reader, MSG_OK)].
Proof.
  destruct (send_event_delivered (Thread 0 TRun) (MB [0; 0] 0 0 0 false [] [demo_reader]) 1) as (t' & m' & k & E & _ & _ & H & _).
  - split; vm_compute; repeat split; congruence.
  - reflexivity.
  - lia.
  - exists t', m', k. split; [exact E|]. exact (proj1 (H demo_reader [] eq_refl eq_refl)).
Defined.

(** ** Identity of the node (system.cpp) *)

Definition byte_at (w n : Z) : Z := Z.land (Z.shiftr w n) 255.

(** [node_id_] after [initSystem]; [None]: the endless loop of the error handler. *)
Definition initSystem (node_id : Z) : option (list Z) :=
  let zeros n := repeat 0 n in
  let id :=
    if negb (node_id =? 0) then [u8 (Z.shiftr node_id 8); u8 (Z.land node_id 255)] ++ zeros 14%nat
    else
      let w0 := 1 in let w1 := 2 in let w2 := 3 in
      [byte_at w0 0; byte_at w0 8; byte_at w0 16; byte_at w0 24; byte_at w1 0; byte_at w1 8; byte_at w1 16; byte_at w1 24;
       byte_at w2 0; byte_at w2 8; byte_at w2 16; byte_at w2 24; 0; 0; 0; 0] in
  if forallb (fun i => i =? 0) id then None else Some id.

Definition getNodeId (node_id_ : list Z) (id_len : Z) : option (list Z) :=
  if id_len =? Zlen node_id_ then Some node_id_ else None.

(** A node identifier is used with its lower 16 bits only: the start-up hangs exactly for those
    identifiers other than 0 in which these are zero; without an identifier every board gets
    the same one. *)
Lemma initSystem_spec (node_id : Z) : 0 <= node_id < 2 ^ 32 ->
  initSystem node_id =
    if node_id =? 0 then Some [1; 0; 0; 0; 2; 0; 0; 0; 3; 0; 0; 0; 0; 0; 0; 0]
    else if u16 node_id =? 0 then None
    else Some ([node_id / 256 mod 256; node_id mod 256] ++ repeat 0 14).
Proof.
  intros H. unfold initSystem. destruct (Z.eqb_spec node_id 0) as [->|Hne]; [done|]. cbn [negb].
  change 255 with (Z.ones 8). rewrite Z.land_ones, Z.shiftr_div_pow2 by lia. unfold u8, u16. rewrite Z.mod_mod by lia.
  change (2 ^ 8) with 256. cbn [forallb app repeat]. rewrite !andb_true_r.
  assert ((node_id / 256 mod 256 =? 0) && (node_id mod 256 =? 0) = (node_id mod 2 ^ 16 =? 0)) as E.
  { destruct (Z.eqb_spec (node_id / 256 mod 256) 0), (Z.eqb_spec (node_id mod 256) 0), (Z.eqb_spec (node_id mod 2 ^ 16) 0); try done; dlia. }
  by rewrite E.
Qed.

Example initSystem_hangs : initSystem 0x10000 = None.
Proof. reflexivity. Qed.

(** ** The address of the node (socket.cpp) *)

(** [strncpy (dst, src, n)] of a string without its terminator. *)
Definition strncpy (dst src : list Z) (n : Z) : option (list Z) :=
  blit dst 0 (take (Z.to_nat n) (src ++ replicate (Z.to_nat n) 0)).

(** [addr]: the port [getsockname] gives, in network order converted, [None] on error; [addrStr]: the
    string [inet_ntoa] makes. *)
Definition getEndpoint (addr : option Z) (addrStr ip : list Z) (ip_len : Z) : option (option (list Z * Z)) :=
  match addr with
  | None => Some None
  | Some port =>
      if ip_len <=? Zlen addrStr then Some None
      else ip ← strncpy ip addrStr ip_len; Some (Some (ip, port))
  end.

(** The text fits with its terminator or is refused. *)
Lemma getEndpoint_terminated port addrStr ip : Zlen ip < 2 ^ 32 ->
  getEndpoint (Some port) addrStr ip (Zlen ip) =
    Some (if Zlen ip <=? Zlen addrStr then None
          else Some (addrStr ++ replicate (length ip - length addrStr) 0, port)).
Proof.
  intros H. cbn. destruct (Z.leb_spec (Zlen ip) (Zlen addrStr)) as [|Hlt]; [done|].
  unfold strncpy. unfold Zlen in Hlt |- *. rewrite Nat2Z.id, take_app_ge, take_replicate, Nat.min_l by lia.
  rewrite blit_start; [|unfold Zlen; rewrite length_app, length_replicate; lia]. cbn [mbind option_bind].
  rewrite drop_ge; [by rewrite app_nil_r|rewrite length_app, length_replicate; lia].
Qed.
