(* ===== verification/Debug.v ===== *)
(** * Debug: raw access to a driver over the network (src/debug/debug_tcp_interface.cpp,
    debug_udp_interface.cpp, debuggable_driver.cpp)

    The sockets are parameters: what [read] and [recvfrom] deliver, which descriptors [accept] returns.
    A critical section of one of the two mutexes is one step.  The bridge over TCP is a state machine
    of its thread, interleaved with the output of the driver, which runs in any other thread. *)

From stdpp Require Import gmap.
From S2P Require Import Prelude Iobuf.

(** ** The driver's side (debuggable_driver.cpp) *)

Record driver := Driver { is_raw_mode_ : bool; raw_data_callback_ : bool }.

Definition SetRawAccessMode (d : driver) (enabled : bool) : driver := Driver enabled (raw_data_callback_ d).
Definition SetRawDataCallback (d : driver) (set : bool) : driver := Driver (is_raw_mode_ d) set.
Definition IsRawMode (d : driver) : bool := is_raw_mode_ d.

(** What is given to the callback, if there is one. *)
Definition RawDataOutput (d : driver) (data : list Z) : option (list Z) := if raw_data_callback_ d then Some data else None.

(** ** The loop that reads from the client *)

Definition BUFFER_SIZE : Z := 1024.

(** What [read] returns: a number of bytes, written to the buffer, or -1. *)
Definition read_result (r : option (list Z)) : Z := match r with Some d => Zlen (take 1024 d) | None => -1 end.

(** [bytes_received] is a size_t.  The driver is given the buffer with that length: [None] when it
    is longer than the buffer.  Result: the bytes the driver got, and whether the loop is over. *)
Fixpoint read_loop (buf : list Z) (rs : list (option (list Z))) : option (list Z * bool) :=
  match rs with
  | [] => Some ([], false)
  | r :: rs =>
      let bytes_received := u32 (read_result r) in
      buf ← blit buf 0 (match r with Some d => take 1024 d | None => [] end);
      if 0 <? bytes_received then
        input ← slice buf 0 bytes_received;
        '(got, over) ← read_loop buf rs;
        Some (input ++ got, over)
      else Some ([], true)
  end.

(** The reads up to the end of the stream. *)
Fixpoint session (rs : list (option (list Z))) : list (option (list Z)) :=
  match rs with
  | [] | Some [] :: _ => []
  | r :: rs => r :: session rs
  end.

Lemma read_loop_spec rs : forall buf, Zlen buf = BUFFER_SIZE ->
  read_loop buf rs =
    if bool_decide (None ∈ session rs) then None
    else Some (concat (map (fun r => take 1024 (default [] r)) (session rs)), negb (Nat.eqb (length (session rs)) (length rs))).
Proof.
  induction rs as [|r rs IH]; intros buf Hb; [done|]. unfold BUFFER_SIZE in *. cbn [read_loop]. destruct r as [d|].
  - set (dd := take 1024 d). assert (Zlen dd <= 1024) as Hd by (unfold dd, Zlen; rewrite length_take; lia).
    pose proof (Zlen_nonneg dd) as H0. rewrite blit_start by lia. cbn [mbind option_bind read_result]. fold dd. rewrite u32_small by lia.
    destruct d as [|c d].
    + cbn. done.
    + assert (0 < Zlen dd) as Hpos by (unfold dd; cbn [take]; rewrite Zlen_cons; pose proof (Zlen_nonneg (take 1023 d)); lia).
      rewrite (proj2 (Z.ltb_lt _ _)) by lia. change (session (Some (c :: d) :: rs)) with (Some (c :: d) :: session rs).
      rewrite slice_prefix. cbn [mbind option_bind].
      rewrite IH by (unfold Zlen in *; rewrite length_app, length_drop; lia).
      rewrite (bool_decide_ext (None ∈ Some (c :: d) :: session rs) (None ∈ session rs)) by (rewrite elem_of_cons; naive_solver).
      destruct (bool_decide _); [done|]. cbn. done.
  - cbn [read_result]. change (u32 (-1)) with (2 ^ 32 - 1). rewrite blit_start by (change (Zlen []) with 0; lia). cbn [mbind option_bind].
    change (0 <? 2 ^ 32 - 1) with true. cbn iota.
    rewrite bool_decide_true by (by left). unfold slice. rewrite (proj2 (Z.leb_gt (0 + (2 ^ 32 - 1)) _)); [by rewrite andb_false_r|]. unfold Zlen in *. cbn [app length]. rewrite length_drop. cbn [length]. lia.
Qed.

(** What a client sends reaches the driver, or the driver reads behind the buffer.  Over the reads of
    a session, up to the end of the stream, the driver gets exactly the bytes received, in order - unless one of
    the reads fails: its -1, taken as a size_t, counts as 2^32 - 1 bytes, and the driver is given that many
    behind the start of a buffer of 1024. *)
Theorem tcp_input_exact (buf : list Z) (rs : list (option (list Z))) (Hb : Zlen buf = BUFFER_SIZE)
    (Hr : Forall (fun r => match r with Some d => Zlen d <= BUFFER_SIZE | None => True end) rs) :
  (read_loop buf rs = None <-> None ∈ session rs) /\
  (None ∉ session rs -> exists over, read_loop buf rs = Some (concat (omap id (session rs)), over)).
Proof.
  rewrite (read_loop_spec rs buf Hb). split.
  - destruct (bool_decide_reflect (None ∈ session rs)); split; done.
  - intros Hn. rewrite bool_decide_false by done. eexists. f_equal. f_equal. clear Hb buf.
    induction rs as [|[[|c d]|] rs IH]; cbn [session] in *; [done|done| |exfalso; apply Hn; by left].
    apply Forall_cons in Hr as [Hd Hr]. cbn [map omap list_omap default concat]. rewrite IH; [|done|intros H; apply Hn; by right].
    change (Zlen (c :: d) <= 1024) in Hd. unfold Zlen in Hd. unfold id. rewrite (take_ge (c :: d)) by lia. done.
Qed.

Lemma tcp_input_exact_witness : read_loop (repeat 0 1024) [Some [1; 2]; None] = None.
Proof.
  apply (tcp_input_exact (repeat 0 1024) [Some [1; 2]; None]); [reflexivity|repeat constructor; vm_compute; congruence|].
  right. left.
Defined.

(** ** The bridge over TCP as a state machine *)

(** Where the thread is: waiting for a client, with a client before it is published, published, in raw mode,
    back from raw mode, retracted. *)
Inductive tcp_pc := Accepting | Accepted (fd : Z) | Published (fd : Z) | Session (fd : Z) | Ended (fd : Z) | Retracted (fd : Z).

Record tcp := Tcp { pc : tcp_pc; current_client_socket_ : Z; open_fds : gset Z; raw : driver }.

(** The steps of the thread, each one system call or critical section, and the output of the driver in
    any other thread: it writes to a descriptor, [Some fd], or is dropped. *)
Inductive tcp_step : tcp -> option Z -> tcp -> Prop :=
| t_accept s fd : pc s = Accepting -> 0 <= fd -> fd ∉ open_fds s ->
    tcp_step s None (Tcp (Accepted fd) (current_client_socket_ s) ({[fd]} ∪ open_fds s) (raw s))
| t_refuse s fd : pc s = Accepted fd ->
    tcp_step s None (Tcp Accepting (current_client_socket_ s) (open_fds s ∖ {[fd]}) (raw s))
| t_publish s fd : pc s = Accepted fd -> tcp_step s None (Tcp (Published fd) fd (open_fds s) (raw s))
| t_raw s fd : pc s = Published fd ->
    tcp_step s None (Tcp (Session fd) (current_client_socket_ s) (open_fds s) (SetRawAccessMode (raw s) true))
| t_end s fd : pc s = Session fd ->
    tcp_step s None (Tcp (Ended fd) (current_client_socket_ s) (open_fds s) (SetRawAccessMode (raw s) false))
| t_retract s fd : pc s = Ended fd -> tcp_step s None (Tcp (Retracted fd) (-1) (open_fds s) (raw s))
| t_close s fd : pc s = Retracted fd ->
    tcp_step s None (Tcp Accepting (current_client_socket_ s) (open_fds s ∖ {[fd]}) (raw s))
| t_output s data : RawDataOutput (raw s) data = Some data ->
    tcp_step s (if 0 <=? current_client_socket_ s then Some (current_client_socket_ s) else None) s.

(** [Start]: the callback is set. *)
Definition tcp_start (fds : gset Z) (d : driver) : tcp := Tcp Accepting (-1) fds (SetRawDataCallback d true).

Definition tcp_tau (s s' : tcp) : Prop := exists l, tcp_step s l s'.

Definition client (p : tcp_pc) : option Z :=
  match p with Published fd | Session fd | Ended fd => Some fd | _ => None end.
Definition holds_fd (p : tcp_pc) : option Z :=
  match p with Accepting => None | Accepted fd | Published fd | Session fd | Ended fd | Retracted fd => Some fd end.

Record tcp_inv (s : tcp) : Prop := {
  ti_cur : current_client_socket_ s = default (-1) (client (pc s));
  ti_open : forall fd, holds_fd (pc s) = Some fd -> fd ∈ open_fds s /\ 0 <= fd;
  ti_raw : IsRawMode (raw s) = match pc s with Session _ => true | _ => false end }.

Lemma tcp_step_inv s l s' : tcp_step s l s' -> tcp_inv s -> tcp_inv s'.
Proof.
  intros Hst [Hc Ho Hr]. destruct Hst as [s fd Hp H0 Hf|s fd Hp|s fd Hp|s fd Hp|s fd Hp|s fd Hp|s fd Hp|s data Hd];
    try rewrite Hp in *; constructor; cbn in *; try done; try (intros ? [= <-]); try set_solver; naive_solver.
Qed.

(** The driver's output goes to the client that is connected.  However the bridge's thread and the
    driver's output interleave, a write goes to a descriptor that is open and belongs to the
    current client, never to one that has been closed, and the driver is in raw mode exactly while a
    session lasts. *)
Theorem tcp_output_safe (fds : gset Z) (d : driver) (s : tcp) (Hd : is_raw_mode_ d = false) (Hr : rtc tcp_tau (tcp_start fds d) s) :
  (forall fd s', tcp_step s (Some fd) s' -> fd ∈ open_fds s /\ client (pc s) = Some fd) /\
  (IsRawMode (raw s) = true <-> exists fd, pc s = Session fd).
Proof.
  assert (tcp_inv s) as [Hc Ho Hraw].
  { assert (tcp_inv (tcp_start fds d)) as H0 by (constructor; cbn; done). revert H0.
    induction Hr as [|x y z [l Hst] _ IH]; [done|]. intros H0. apply IH. by eapply tcp_step_inv. }
  split.
  - intros fd s' Hst. inversion Hst as [| | | | | | |? data Hdat E1 E2]; subst. destruct (Z.leb_spec 0 (current_client_socket_ s')) as [H0|]; [|done].
    injection E2 as <-. rewrite Hc in H0 |- *. destruct (pc s') eqn:Ep; cbn in *; try lia; (split; [by apply Ho|done]).
  - rewrite Hraw. destruct (pc s); split; naive_solver.
Qed.

Lemma tcp_output_safe_witness : 5 ∈ ({[5]} ∪ ∅ : gset Z) /\ client (Published 5) = Some 5.
Proof.
  refine (proj1 (tcp_output_safe ∅ (Driver false false) (Tcp (Published 5) 5 ({[5]} ∪ ∅) (Driver false true)) eq_refl _) 5 _ _).
  - eapply rtc_l; [eexists; apply (t_accept _ 5); [reflexivity|lia|apply not_elem_of_empty]|].
    apply rtc_once. eexists. exact (t_publish (Tcp (Accepted 5) (-1) ({[5]} ∪ ∅) (Driver false true)) 5 eq_refl).
  - exact (t_output (Tcp (Published 5) 5 ({[5]} ∪ ∅) (Driver false true)) [1] eq_refl).
Defined.

(** ** The bridge over UDP *)

Record udp := Udp { usocket : Z; target_ip_ : Z; target_port_ : Z; udriver : driver }.

(** A datagram of [data] from [ip] and [port]: what the driver gets. *)
Definition udp_receive (s : udp) (buf : list Z) (recv : option (list Z * Z * Z)) : option (udp * list Z * option (list Z)) :=
  match recv with
  | None => Some (s, buf, None)
  | Some (data, ip, port) =>
      let data := take 1023 data in
      buf ← blit buf 0 data;
      if 0 <? Zlen data then
        input ← slice buf 0 (Zlen data);
        Some (Udp (usocket s) ip port (SetRawAccessMode (udriver s) true), buf, Some input)
      else Some (s, buf, None)
  end.

(** Where the output of the driver is sent to. *)
Definition udp_OnRawDriverData (s : udp) (data : list Z) : option (Z * Z * list Z) :=
  if (0 <=? usocket s) && (0 <? target_ip_ s) && (0 <? target_port_ s) then Some (target_ip_ s, target_port_ s, data) else None.

(** A datagram reaches the driver unchanged, and what it answers goes back to its sender. *)
Lemma udp_answers s buf data ip port out : Zlen buf = BUFFER_SIZE -> 0 < Zlen data < BUFFER_SIZE -> 0 <= usocket s -> 0 < ip -> 0 < port ->
  exists s' buf', udp_receive s buf (Some (data, ip, port)) = Some (s', buf', Some data) /\
    udp_OnRawDriverData s' out = Some (ip, port, out) /\ Zlen buf' = BUFFER_SIZE.
Proof.
  unfold BUFFER_SIZE. intros Hb Hd Hs Hi Hp. unfold udp_receive. rewrite take_ge by (unfold Zlen in Hd; lia). rewrite blit_start by lia.
  cbn [mbind option_bind]. rewrite (proj2 (Z.ltb_lt 0 (Zlen data))) by lia. rewrite slice_prefix. cbn [mbind option_bind].
  do 2 eexists. split; [done|]. unfold udp_OnRawDriverData. cbn [usocket target_ip_ target_port_].
  rewrite (proj2 (Z.leb_le _ _)), !(proj2 (Z.ltb_lt _ _)) by lia. split; [done|].
  unfold Zlen in *. rewrite length_app, length_drop. lia.
Qed.
