(* ===== verification/Sha1.v ===== *)
(** * Sha1: the hash of the WebSocket handshake (mongoose/mongoose.c, lines 8009-8208)

    The transform works on the sixteen words of a block in place; the macro calls of the
    source rotate their five arguments by one place from line to line, so the registers are
    kept in the order in which the next call names them.  The reference is the hash as the
    standard (FIPS 180-4) defines it: schedule of eighty words, padding, big-endian words. *)

From S2P Require Import Prelude Iobuf.

Definition rol (v n : Z) : Z := u32 (Z.lor (Z.shiftl v n) (Z.shiftr v (32 - n))).

Record regs := rg { ra : Z; rb : Z; rc : Z; rd_ : Z; re : Z }.

(** The words of a block as the little-endian target loads them. *)
Definition le_word (b : list Z) : Z :=
  match b with [b0; b1; b2; b3] => b0 + 256 * b1 + 65536 * b2 + 16777216 * b3 | _ => 0 end.
Definition be_word (b : list Z) : Z :=
  match b with [b0; b1; b2; b3] => b3 + 256 * b2 + 65536 * b1 + 16777216 * b0 | _ => 0 end.

Fixpoint words (f : list Z -> Z) (n : nat) (b : list Z) : list Z :=
  match n with O => [] | S n' => f (take 4 b) :: words f n' (drop 4 b) end.

(** [blk0]: the byte swap of one word. *)
Definition bswap (w : Z) : Z :=
  Z.lor (Z.land (rol w 24) 4278255360) (Z.land (rol w 8) 16711935).

Definition wd (block : list Z) (i : Z) : Z := nth (Z.to_nat i) block 0.

Definition blk0 (block : list Z) (i : Z) : list Z * Z :=
  let w := bswap (wd block i) in (<[Z.to_nat i := w]> block, w).

(** [blk(i)]. *)
Definition blk (block : list Z) (i : Z) : list Z * Z :=
  let w := rol (Z.lxor (Z.lxor (Z.lxor (wd block (Z.land (i + 13) 15)) (wd block (Z.land (i + 8) 15)))
                               (wd block (Z.land (i + 2) 15))) (wd block (Z.land i 15))) 1 in
  (<[Z.to_nat (Z.land i 15) := w]> block, w).

(** The boolean functions of the four kinds of rounds. *)
Definition f_if (w x y : Z) : Z := Z.lxor (Z.land w (Z.lxor x y)) y.
Definition f_xor (w x y : Z) : Z := Z.lxor (Z.lxor w x) y.
Definition f_maj (w x y : Z) : Z := Z.lor (Z.land (Z.lor w x) y) (Z.land w x).

Definition f_of (i : Z) : Z -> Z -> Z -> Z :=
  if i <? 20 then f_if else if i <? 40 then f_xor else if i <? 60 then f_maj else f_xor.
Definition k_of (i : Z) : Z :=
  if i <? 20 then 1518500249 else if i <? 40 then 1859775393 else if i <? 60 then 2400959708 else 3395469782.

(** A macro call [Rk(v, w, x, y, z, i)]; the registers for the next call. *)
Definition round (i : Z) (st : regs * list Z) : regs * list Z :=
  let '(r, block) := st in
  let '(block, w) := if i <? 16 then blk0 block i else blk block i in
  let z := u32 (re r + (f_of i (rb r) (rc r) (rd_ r) + w + k_of i + rol (ra r) 5)) in
  (rg z (ra r) (rol (rb r) 30) (rc r) (rd_ r), block).

Fixpoint rounds (n : nat) (i : Z) (st : regs * list Z) : regs * list Z :=
  match n with O => st | S n' => rounds n' (i + 1) (round i st) end.

Definition add_regs (s r : regs) : regs :=
  rg (u32 (ra s + ra r)) (u32 (rb s + rb r)) (u32 (rc s + rc r)) (u32 (rd_ s + rd_ r)) (u32 (re s + re r)).

Definition mg_sha1_transform (state : regs) (buffer : list Z) : regs :=
  add_regs state (rounds 80 0 (state, words le_word 16 buffer)).1.

Record mg_sha1_ctx := sctx { state : regs; count0 : Z; count1 : Z; buffer : list Z }.

Definition initial : regs := rg 1732584193 4023233417 2562383102 271733878 3285377520.

(** [mg_sha1_init] leaves the buffer as it is. *)
Definition mg_sha1_init (stack : list Z) : mg_sha1_ctx := sctx initial 0 0 stack.

(** The blocks taken directly from the data, from offset [i]. *)
Fixpoint direct (fuel : nat) (s : regs) (data : list Z) (i : Z) : regs * Z :=
  match fuel with
  | O => (s, i)
  | S fuel' =>
      if u32 (i + 63) <? Zlen data
      then direct fuel' (mg_sha1_transform s (take 64 (drop (Z.to_nat i) data))) data (u32 (i + 64))
      else (s, i)
  end.

Definition mg_sha1_update (c : mg_sha1_ctx) (data : list Z) : option mg_sha1_ctx :=
  let len := Zlen data in
  let j0 := count0 c in
  let c0 := u32 (count0 c + u32 (Z.shiftl (u32 len) 3)) in
  let c1 := if c0 <? j0 then u32 (count1 c + 1) else count1 c in
  let c1 := u32 (c1 + Z.shiftr len 29) in
  let j := Z.land (Z.shiftr j0 3) 63 in
  if 63 <? u32 (j + len) then
    let i := 64 - j in
    b ← blit (buffer c) j (take (Z.to_nat i) data);
    let '(s, i) := direct (length data) (mg_sha1_transform (state c) b) data i in
    b ← blit b 0 (drop (Z.to_nat i) data);
    Some (sctx s c0 c1 b)
  else
    b ← blit (buffer c) j data;
    Some (sctx (state c) c0 c1 b).

Definition byte_of (v : Z) (k : Z) : Z := Z.land (Z.shiftr v ((3 - k) * 8)) 255.
Definition word_bytes (v : Z) : list Z := map (byte_of v) [0; 1; 2; 3].

Fixpoint pad_zeros (fuel : nat) (c : mg_sha1_ctx) : option mg_sha1_ctx :=
  match fuel with
  | O => None
  | S fuel' =>
      if Z.land (count0 c) 504 =? 448 then Some c
      else c ← mg_sha1_update c [0]; pad_zeros fuel' c
  end.

Definition digest_of (s : regs) : list Z :=
  word_bytes (ra s) ++ word_bytes (rb s) ++ word_bytes (rc s) ++ word_bytes (rd_ s) ++ word_bytes (re s).

(** [mg_sha1_final]: the digest. *)
Definition mg_sha1_final (c : mg_sha1_ctx) : option (list Z) :=
  let finalcount := word_bytes (count1 c) ++ word_bytes (count0 c) in
  c ← mg_sha1_update c [128];
  c ← pad_zeros 65 c;
  c ← mg_sha1_update c finalcount;
  Some (digest_of (state c)).

Fixpoint updates (c : mg_sha1_ctx) (ds : list (list Z)) : option mg_sha1_ctx :=
  match ds with [] => Some c | d :: ds' => c ← mg_sha1_update c d; updates c ds' end.

Definition sha1_of (stack : list Z) (ds : list (list Z)) : option (list Z) :=
  c ← updates (mg_sha1_init stack) ds; mg_sha1_final c.

Example sha1_abc : sha1_of (replicate 64 7) [str:("abc")] =
  Some [169; 153; 62; 54; 71; 6; 129; 106; 186; 62; 37; 113; 120; 80; 194; 108; 156; 208; 216; 157].
Proof. vm_compute. reflexivity. Qed.

(** ** Reference *)

Definition Ch (x y z : Z) : Z := Z.lxor (Z.land x y) (Z.land (Z.lnot x) z).
Definition Parity (x y z : Z) : Z := Z.lxor x (Z.lxor y z).
Definition Maj (x y z : Z) : Z := Z.lxor (Z.lxor (Z.land x y) (Z.land x z)) (Z.land y z).
Definition spec_f (t : Z) : Z -> Z -> Z -> Z :=
  if t <=? 19 then Ch else if t <=? 39 then Parity else if t <=? 59 then Maj else Parity.

Definition spec_round (i : Z) (wi : Z) (r : regs) : regs :=
  rg (u32 (rol (ra r) 5 + spec_f i (rb r) (rc r) (rd_ r) + re r + wi + k_of i)) (ra r) (rol (rb r) 30) (rc r) (rd_ r).

(** W_t of the standard. *)
Fixpoint schedule (n : nat) (w : list Z) : list Z :=
  match n with O => w | S n' => schedule n' (w ++ [rol (Z.lxor (Z.lxor (Z.lxor
     (nth (length w - 3) w 0) (nth (length w - 8) w 0)) (nth (length w - 14) w 0)) (nth (length w - 16) w 0)) 1]) end.

Fixpoint spec_rounds (i : Z) (ws : list Z) (r : regs) : regs :=
  match ws with [] => r | w :: ws' => spec_rounds (i + 1) ws' (spec_round i w r) end.

Definition compress (s : regs) (block : list Z) : regs :=
  add_regs s (spec_rounds 0 (schedule 64 (words be_word 16 block)) s).

Fixpoint hash_blocks (n : nat) (s : regs) (m : list Z) : regs :=
  match n with O => s | S n' => hash_blocks n' (compress s (take 64 m)) (drop 64 m) end.

Definition be64 (v : Z) : list Z := word_bytes (v / 2 ^ 32) ++ word_bytes (v mod 2 ^ 32).

Definition padded (m : list Z) : list Z :=
  m ++ [128] ++ replicate (Z.to_nat ((55 - Zlen m) mod 64)) 0 ++ be64 (8 * Zlen m).

Definition SHA1 (m : list Z) : list Z :=
  digest_of (hash_blocks (length (padded m) / 64) initial (padded m)).

(** ** The transform *)

Lemma mod_window t i : i - 16 <= t <= i -> t mod 16 = i mod 16 -> t = i \/ t = i - 16.
Proof. intros. dlia. Qed.

Lemma land15 a : Z.land a 15 = a mod 16.
Proof. by rewrite (Z.land_ones a 4 ltac:(lia) : Z.land a 15 = _). Qed.

Lemma wd_insert block i w j : 0 <= i < Zlen block -> 0 <= j ->
  wd (<[Z.to_nat i := w]> block) j = if j =? i then w else wd block j.
Proof.
  unfold wd, Zlen. intros Hi Hj. rewrite !nth_lookup. destruct (Z.eqb_spec j i) as [->|].
  - by rewrite list_lookup_insert_eq by lia.
  - by rewrite list_lookup_insert_ne by lia.
Qed.

Lemma rol_bits w n : 0 <= w < 2 ^ 32 -> 0 <= n <= 32 -> rol w n = u32 (w * 2 ^ n) + w / 2 ^ (32 - n).
Proof.
  intros Hw Hn. unfold rol. rewrite Z.shiftr_div_pow2 by lia.
  assert (0 < 2 ^ n) by (apply Z.pow_pos_nonneg; lia). assert (0 < 2 ^ (32 - n)) by (apply Z.pow_pos_nonneg; lia).
  assert (2 ^ n * 2 ^ (32 - n) = 2 ^ 32) as E by (rewrite <- Z.pow_add_r by lia; f_equal; lia).
  assert (0 <= w / 2 ^ (32 - n) < 2 ^ n) as Hd.
  { split; [apply Z.div_pos; lia|apply Z.div_lt_upper_bound; lia]. }
  rewrite lor_disjoint_add by (lia || done). unfold u32.
  rewrite <- Z.add_mod_idemp_l by lia. apply Z.mod_small. split; [pose proof (Z.mod_pos_bound (w * 2 ^ n) (2 ^ 32)); lia|].
  assert ((w * 2 ^ n) mod 2 ^ 32 = (w mod 2 ^ (32 - n)) * 2 ^ n) as ->.
  { rewrite <- E, (Z.mul_comm (2 ^ n) (2 ^ (32 - n))). apply Z.mul_mod_distr_r; lia. }
  pose proof (Z.mod_pos_bound w (2 ^ (32 - n))). nia.
Qed.

(** Byte-wise bit operations. *)
Lemma testbit_byte lo hi n : is_byte lo -> 0 <= n ->
  Z.testbit (lo + 256 * hi) n = if n <? 8 then Z.testbit lo n else Z.testbit hi (n - 8).
Proof.
  unfold is_byte. intros Hlo Hn. replace (lo + 256 * hi) with (Z.lor (Z.shiftl hi 8) lo)
    by (rewrite (lor_disjoint_add hi lo 8) by lia; lia).
  rewrite Z.lor_spec, Z.shiftl_spec by lia. destruct (Z.ltb_spec n 8).
  - by rewrite Z.testbit_neg_r by lia.
  - rewrite (proj1 (bounded_bits 8 lo ltac:(lia)) ltac:(lia) n) by lia. apply orb_false_r.
Qed.

Lemma land_byte lo hi mlo mhi : is_byte lo -> is_byte mlo ->
  Z.land (lo + 256 * hi) (mlo + 256 * mhi) = Z.land lo mlo + 256 * Z.land hi mhi.
Proof.
  intros H1 H2. apply Z.bits_inj'. intros n Hn.
  rewrite Z.land_spec, !testbit_byte by (done || apply (land_small_l 8); done).
  rewrite !Z.land_spec. by destruct (n <? 8).
Qed.

Lemma lor_byte lo hi mlo mhi : is_byte lo -> is_byte mlo ->
  Z.lor (lo + 256 * hi) (mlo + 256 * mhi) = Z.lor lo mlo + 256 * Z.lor hi mhi.
Proof.
  intros H1 H2. apply Z.bits_inj'. intros n Hn.
  rewrite Z.lor_spec, !testbit_byte by (done || apply (lor_small 8); done).
  rewrite !Z.lor_spec. by destruct (n <? 8).
Qed.

Lemma land_byte255 b : is_byte b -> Z.land b 255 = b.
Proof. intros H. rewrite (Z.land_ones b 8 ltac:(lia) : Z.land b 255 = _). by apply Z.mod_small. Qed.

(** The masked rotations swap the bytes. *)
Lemma bswap_word b0 b1 b2 b3 : is_byte b0 -> is_byte b1 -> is_byte b2 -> is_byte b3 ->
  bswap (le_word [b0; b1; b2; b3]) = be_word [b0; b1; b2; b3].
Proof.
  intros H0 H1 H2 H3. unfold bswap, le_word, be_word.
  set (w := b0 + 256 * b1 + 65536 * b2 + 16777216 * b3).
  assert (rol w 24 = b1 + 256 * (b2 + 256 * (b3 + 256 * b0))) as ->
    by (unfold is_byte in *; rewrite rol_bits by (unfold w; lia); unfold u32, w; change (2 ^ 24) with 16777216; change (2 ^ (32 - 24)) with 256;
        change (2 ^ 32) with 4294967296; dlia).
  assert (rol w 8 = b3 + 256 * (b0 + 256 * (b1 + 256 * b2))) as ->
    by (unfold is_byte in *; rewrite rol_bits by (unfold w; lia); unfold u32, w; change (2 ^ 8) with 256; change (2 ^ (32 - 8)) with 16777216;
        change (2 ^ 32) with 4294967296; dlia).
  change 4278255360 with (0 + 256 * (255 + 256 * (0 + 256 * 255))).
  change 16711935 with (255 + 256 * (0 + 256 * (255 + 256 * 0))).
  assert (is_byte 0 /\ is_byte 255) as [? ?] by (unfold is_byte; lia).
  rewrite !land_byte by done. rewrite !Z.land_0_r, !land_byte255 by done.
  rewrite !lor_byte by done. rewrite !Z.lor_0_r, !Z.lor_0_l. lia.
Qed.

Lemma words_length f n b : length (words f n b) = n.
Proof. revert b. induction n; intros b; simpl; auto. Qed.

Lemma wd_words f n b i : (i < n)%nat -> wd (words f n b) (Z.of_nat i) = f (take 4 (drop (4 * i) b)).
Proof.
  unfold wd. rewrite Nat2Z.id. revert b i. induction n as [|n IH]; intros b i Hi; [lia|].
  destruct i as [|i]; [done|]. cbn [words nth]. rewrite IH by lia. rewrite drop_drop. do 3 f_equal. lia.
Qed.

Lemma bswap_words b t : is_bytes b -> length b = 64%nat -> 0 <= t < 16 ->
  bswap (wd (words le_word 16 b) t) = wd (words be_word 16 b) t.
Proof.
  intros Hb Hl Ht. rewrite <- (Z2Nat.id t) by lia. rewrite !wd_words by lia.
  set (q := take 4 _). assert (is_bytes q) as Hq by (apply Forall_take, Forall_drop, Hb).
  assert (length q = 4%nat) as Hlq by (unfold q; rewrite length_take, length_drop; lia).
  destruct q as [|b0 [|b1 [|b2 [|b3 [|? ?]]]]]; try done.
  repeat (apply Forall_cons in Hq as [? Hq]). by apply bswap_word.
Qed.

Lemma f_of_spec i x y z : f_of i x y z = spec_f i x y z.
Proof.
  assert (f_if x y z = Ch x y z) as E1 by (unfold f_if, Ch; bitwise).
  assert (f_xor x y z = Parity x y z) as E2 by (unfold f_xor, Parity; bitwise).
  assert (f_maj x y z = Maj x y z) as E3 by (unfold f_maj, Maj; bitwise).
  unfold f_of, spec_f.
  repeat case_match; zbool; first [congruence | lia | done].
Qed.

(** The recurrence of the schedule. *)
Definition next_word (w : list Z) (t : Z) : Z :=
  rol (Z.lxor (Z.lxor (Z.lxor (wd w (t - 3)) (wd w (t - 8))) (wd w (t - 14))) (wd w (t - 16))) 1.

Lemma schedule_S n w : 16 <= Zlen w -> schedule (S n) w = schedule n (w ++ [next_word w (Zlen w)]).
Proof.
  intros Hw. simpl. unfold next_word, wd, Zlen in *.
  rewrite !Z2Nat.inj_sub, !Nat2Z.id by lia. done.
Qed.

Lemma schedule_prefix n w : exists k, schedule n w = w ++ k /\ length k = n.
Proof.
  revert w. induction n as [|n IH]; intros w; [exists []; by rewrite app_nil_r|].
  simpl. destruct (IH (w ++ [rol (Z.lxor (Z.lxor (Z.lxor
     (nth (length w - 3) w 0) (nth (length w - 8) w 0)) (nth (length w - 14) w 0)) (nth (length w - 16) w 0)) 1]))
    as (k & -> & Hk).
  eexists (_ :: k). rewrite <- app_assoc. split; [done|]. simpl. lia.
Qed.

Lemma wd_app_l w k t : 0 <= t < Zlen w -> wd (w ++ k) t = wd w t.
Proof. unfold wd, Zlen. intros. rewrite app_nth1 by lia. done. Qed.

Lemma next_word_app w k t : 16 <= t <= Zlen w -> next_word (w ++ k) t = next_word w t.
Proof. unfold next_word. intros. by rewrite !wd_app_l by lia. Qed.

Lemma schedule_rec n w t : 16 <= Zlen w <= t -> t < Zlen w + Z.of_nat n ->
  wd (schedule n w) t = next_word (schedule n w) t.
Proof.
  revert w. induction n as [|n IH]; intros w Hw Ht; [lia|]. rewrite schedule_S by lia.
  destruct (decide (t = Zlen w)) as [->|].
  - destruct (schedule_prefix n (w ++ [next_word w (Zlen w)])) as (k & -> & _).
    rewrite <- app_assoc, next_word_app by lia. unfold wd, Zlen. rewrite Nat2Z.id. apply nth_middle.
  - apply IH; rewrite Zlen_app, Zlen_cons, Zlen_nil; lia.
Qed.

(** The block holds the last sixteen words of the schedule, and before them the input. *)
Definition window (ws : list Z) (i : Z) (block : list Z) : Prop :=
  Zlen block = 16 /\ (forall t, i <= t < 16 -> bswap (wd block t) = wd ws t) /\
  (forall t, 0 <= t -> i - 16 <= t < i -> wd block (t mod 16) = wd ws t).

Lemma blk0_window ws i block : window ws i block -> 0 <= i < 16 ->
  (blk0 block i).2 = wd ws i /\ window ws (i + 1) (blk0 block i).1.
Proof.
  intros (Hl & H1 & H2) Hi. simpl. split; [apply H1; lia|]. unfold window, Zlen in *.
  rewrite length_insert. split_and!; [done|intros t Ht..].
  - rewrite wd_insert by (unfold Zlen; lia). ztests. apply H1. lia.
  - intros Hw. rewrite wd_insert by (unfold Zlen; dlia). rewrite Z.mod_small by lia.
    destruct (Z.eqb_spec t i) as [->|]; [apply H1; lia|].
    rewrite <- (Z.mod_small t 16) at 1 by lia. apply H2; lia.
Qed.

Lemma blk_window ws i block : window ws i block -> 16 <= i -> wd ws i = next_word ws i ->
  (blk block i).2 = wd ws i /\ window ws (i + 1) (blk block i).1.
Proof.
  intros (Hl & H1 & H2) Hi Hn. unfold blk. cbn [fst snd]. rewrite !land15.
  replace ((i + 13) mod 16) with ((i - 3) mod 16) by dlia.
  replace ((i + 8) mod 16) with ((i - 8) mod 16) by dlia.
  replace ((i + 2) mod 16) with ((i - 14) mod 16) by dlia.
  replace (i mod 16) with ((i - 16) mod 16) by dlia.
  rewrite !H2 by lia. fold (next_word ws i). rewrite <- Hn. split; [done|].
  replace ((i - 16) mod 16) with (i mod 16) by dlia.
  unfold window, Zlen in *. rewrite length_insert. split_and!; [done|intros t Ht; lia|intros t Ht Hw].
  rewrite wd_insert by (unfold Zlen; dlia). destruct (Z.eqb_spec (t mod 16) (i mod 16)).
  - destruct (mod_window t i) as [->| ->]; [lia|done|done|lia].
  - apply H2; [done|]. destruct (decide (t = i)); [congruence|lia].
Qed.

Lemma round_spec ws i r block : window ws i block -> 0 <= i -> (16 <= i -> wd ws i = next_word ws i) ->
  exists block', round i (r, block) = (spec_round i (wd ws i) r, block') /\ window ws (i + 1) block'.
Proof.
  intros Hw Hi Hn. unfold round.
  assert (exists block', (if i <? 16 then blk0 block i else blk block i) = (block', wd ws i) /\
            window ws (i + 1) block') as (block' & -> & Hb).
  { destruct (Z.ltb_spec i 16).
    - destruct (blk0_window ws i block Hw) as [E ?]; [lia|]. destruct (blk0 block i); simpl in *; subst; eauto.
    - destruct (blk_window ws i block Hw) as [E ?]; [lia|auto|]. destruct (blk block i); simpl in *; subst; eauto. }
  exists block'. split; [|done]. rewrite f_of_spec. unfold spec_round. do 3 f_equal. lia.
Qed.

Lemma rounds_spec n ws i r block : window ws i block -> 0 <= i ->
  (forall t, 16 <= t < i + Z.of_nat n -> wd ws t = next_word ws t) -> i + Z.of_nat n = Zlen ws ->
  (rounds n i (r, block)).1 = spec_rounds i (drop (Z.to_nat i) ws) r.
Proof.
  revert i r block. induction n as [|n IH]; intros i r block Hw Hi Hn Hl; cbn [rounds].
  - by rewrite drop_ge by (unfold Zlen in *; lia).
  - destruct (round_spec ws i r block Hw Hi) as (block' & -> & Hw'); [intros; apply Hn; lia|].
    destruct (drop (Z.to_nat i) ws) as [|x k] eqn:E.
    { apply (f_equal length) in E. rewrite length_drop in E. unfold Zlen in *. simpl in E. lia. }
    cbn [spec_rounds]. assert (wd ws i = x) as ->.
    { unfold wd. rewrite nth_lookup, <- (Nat.add_0_r (Z.to_nat i)), <- lookup_drop, E. done. }
    rewrite IH; [|done|lia|intros; apply Hn; lia|lia]. f_equal.
    replace (Z.to_nat (i + 1)) with (Z.to_nat i + 1)%nat by lia. by rewrite <- drop_drop, E.
Qed.

Lemma transform_compress s block : is_bytes block -> length block = 64%nat ->
  mg_sha1_transform s block = compress s block.
Proof.
  intros Hb Hl. unfold mg_sha1_transform, compress. f_equal.
  set (ws := schedule 64 (words be_word 16 block)).
  assert (Zlen (words be_word 16 block) = 16) as Hw by (unfold Zlen; by rewrite words_length).
  destruct (schedule_prefix 64 (words be_word 16 block)) as (k & Ek & Hk). fold ws in Ek.
  rewrite (rounds_spec 80 ws); [done|..].
  - unfold window. split_and!; [unfold Zlen; by rewrite words_length| |lia].
    intros t Ht. rewrite bswap_words by done. rewrite Ek, wd_app_l by lia. done.
  - lia.
  - intros t Ht. apply schedule_rec; lia.
  - rewrite Ek, Zlen_app, Hw. unfold Zlen. lia.
Qed.

(** ** The streaming interface *)

Lemma hash_blocks_app q1 q2 s (A B : list Z) : Zlen A = 64 * Z.of_nat q1 ->
  hash_blocks (q1 + q2) s (A ++ B) = hash_blocks q2 (hash_blocks q1 s A) B.
Proof.
  revert s A. induction q1 as [|q1 IH]; intros s A HA; unfold Zlen in HA.
  - destruct A; [done|simpl in HA; lia].
  - cbn [hash_blocks Nat.add]. rewrite take_app_le, drop_app_le by lia. apply IH.
    unfold Zlen. rewrite length_drop. lia.
Qed.

Lemma direct_spec fuel s (P D : list Z) : is_bytes D -> (length D <= fuel)%nat -> Zlen P + Zlen D <= 2 ^ 32 - 64 ->
  exists k D1 D2, D = D1 ++ D2 /\ Zlen D1 = 64 * Z.of_nat k /\ Zlen D2 < 64 /\
    direct fuel s (P ++ D) (Zlen P) = (hash_blocks k s D1, Zlen (P ++ D1)).
Proof.
  revert s P D. induction fuel as [|fuel IH]; intros s P D Hb Hf Hw.
  - destruct D; [|simpl in Hf; lia]. exists O, [], []. split_and!; try done. by rewrite app_nil_r.
  - pose proof (Zlen_nonneg P) as HP0. pose proof (Zlen_nonneg D) as HD0.
    cbn [direct]. rewrite Zlen_app, (u32_small (_ + 63)) by lia. destruct (Z.ltb_spec (Zlen P + 63) (Zlen P + Zlen D)) as [H|H].
    + assert (length (take 64 D) = 64%nat) as Ht by (unfold Zlen in *; rewrite length_take; lia).
      replace (drop (Z.to_nat (Zlen P)) (P ++ D)) with D by (unfold Zlen; by rewrite Nat2Z.id, drop_app_length).
      rewrite transform_compress by (done || by apply Forall_take).
      destruct (IH (compress s (take 64 D)) (P ++ take 64 D) (drop 64 D)) as (k & D1 & D2 & E & H1 & H2 & H3).
      { by apply Forall_drop. } { rewrite length_drop. lia. }
      { rewrite Zlen_app. unfold Zlen in *. rewrite length_drop. lia. }
      rewrite (u32_small (_ + 64)) by lia.
      exists (S k), (take 64 D ++ D1), D2.
      rewrite <- app_assoc, take_drop in H3. rewrite Zlen_app in H3.
      replace (Zlen (take 64 D)) with 64 in H3 by (unfold Zlen; lia). rewrite H3.
      split_and!; [by rewrite <- app_assoc, <- E, take_drop|rewrite Zlen_app; unfold Zlen in *; lia|done|].
      f_equal; [|by rewrite app_assoc].
      change (S k) with (1 + k)%nat. rewrite hash_blocks_app by (unfold Zlen; lia).
      cbn [hash_blocks]. by rewrite (take_ge (take 64 D)) by lia.
    + exists O, [], D. split_and!; [done|done|lia|by rewrite app_nil_r].
Qed.

(** The context that has taken the bytes [m]: the state is the hash of the full blocks, the
    buffer starts with the rest, the two counters hold the length in bits. *)
Definition rep (c : mg_sha1_ctx) (m : list Z) : Prop :=
  exists q A T R, m = A ++ T /\ Zlen A = 64 * Z.of_nat q /\ Zlen T < 64 /\
    state c = hash_blocks q initial A /\ buffer c = T ++ R /\ Zlen (T ++ R) = 64 /\
    count0 c = u32 (8 * Zlen m) /\ count1 c = u32 (8 * Zlen m / 2 ^ 32).

Lemma counters n len : 0 <= n -> 0 <= len < 2 ^ 32 ->
  let j0 := u32 (8 * n) in
  let c0 := u32 (j0 + u32 (Z.shiftl (u32 len) 3)) in
  let c1 := if c0 <? j0 then u32 (u32 (8 * n / 2 ^ 32) + 1) else u32 (8 * n / 2 ^ 32) in
  c0 = u32 (8 * (n + len)) /\ u32 (c1 + Z.shiftr len 29) = u32 (8 * (n + len) / 2 ^ 32).
Proof.
  intros Hn Hl. rewrite (u32_small len), Z.shiftl_mul_pow2, Z.shiftr_div_pow2 by lia. unfold u32.
  set (M := 2 ^ 32). set (r := (8 * n) mod M). set (a := 8 * n / M). set (t := (len * 2 ^ 3) mod M).
  set (b := len / 2 ^ 29).
  assert (8 * n = M * a + r /\ 0 <= r < M) as [E1 Hr]
    by (unfold a, r, M; split; [apply Z.div_mod|apply Z.mod_pos_bound]; lia).
  assert (8 * len = M * b + t /\ 0 <= t < M) as [E2 Ht].
  { unfold b, t, M. change (2 ^ 3) with 8. change (2 ^ 29) with 536870912.
    change (2 ^ 32) with 4294967296. dlia. }
  cbv zeta. assert (8 * (n + len) = r + t + (a + b) * M) as -> by lia.
  assert (M <> 0) by done. rewrite Z.mod_add, Z.div_add by done. split; [done|].
  destruct (Z.ltb_spec ((r + t) mod M) r) as [H1|H1]; (destruct (Z.lt_ge_cases (r + t) M) as [H2|H2];
    [rewrite (Z.mod_small (r + t)), (Z.div_small (r + t)) in * by lia
    |assert ((r + t) mod M = r + t - M /\ (r + t) / M = 1) as [H3 ->];
      [split; [symmetry; apply (Z.mod_unique_pos _ _ 1); lia|symmetry; apply (Z.div_unique_pos _ _ 1 (r + t - M)); lia]
      |rewrite H3 in *]]); try lia.
  - rewrite Zplus_mod_idemp_l, <- Z.add_assoc, Zplus_mod_idemp_l. f_equal. lia.
  - by rewrite Zplus_mod_idemp_l.
Qed.

Lemma update_rep c m d : rep c m -> is_bytes m -> is_bytes d -> Zlen d <= 2 ^ 32 - 64 ->
  exists c', mg_sha1_update c d = Some c' /\ rep c' (m ++ d).
Proof.
  intros (q & A & T & R & Em & HA & HT & Hs & Hbuf & Hl & H0 & H1) Hm Hd Hn.
  destruct (counters (Zlen m) (Zlen d)) as [C0 C1]; [apply Zlen_nonneg|pose proof (Zlen_nonneg d); lia|].
  cbv zeta in C0, C1. unfold mg_sha1_update. cbv zeta. rewrite H1, H0.
  rewrite C0 in C1 |- *. rewrite C1, <- Zlen_app.
  assert (Z.land (Z.shiftr (u32 (8 * Zlen m)) 3) 63 = Zlen T) as ->.
  { rewrite (Z.land_ones _ 6 ltac:(lia) : Z.land _ 63 = _), Z.shiftr_div_pow2 by lia. unfold u32.
    rewrite Em, Zlen_app, HA. pose proof (Zlen_nonneg T). change (2 ^ 32) with 4294967296.
    change (2 ^ 6) with 64. change (2 ^ 3) with 8. dlia. }
  rewrite Hbuf. assert (is_bytes T) as HbT by (rewrite Em in Hm; by apply Forall_app in Hm as [_ ?]).
  rewrite Zlen_app in Hl. pose proof (Zlen_nonneg T). pose proof (Zlen_nonneg d).
  rewrite (u32_small (Zlen T + _)) by lia. destruct (Z.ltb_spec 63 (Zlen T + Zlen d)) as [Hf|Hf].
  - set (P := take (Z.to_nat (64 - Zlen T)) d). set (D := drop (Z.to_nat (64 - Zlen T)) d).
    assert (d = P ++ D) as Ed by (unfold P, D; by rewrite take_drop).
    assert (Zlen P = 64 - Zlen T) as HP by (unfold P, Zlen in *; rewrite length_take; lia).
    assert (is_bytes P /\ is_bytes D) as [HbP HbD] by (by rewrite Ed, Forall_app in Hd).
    rewrite <- (app_nil_r R), blit_gap, app_nil_r by lia. cbn [mbind option_bind].
    rewrite transform_compress by (apply Forall_app_2 || (unfold Zlen in *; rewrite length_app; lia); done).
    rewrite <- HP. destruct (direct_spec (length d) (compress (state c) (T ++ P)) P D)
      as (k & D1 & D2 & E & K1 & K2 & K3); [done|rewrite Ed, length_app; lia|rewrite <- Zlen_app, <- Ed; lia|].
    rewrite <- Ed in K3. rewrite K3.
    assert (drop (Z.to_nat (Zlen (P ++ D1))) d = D2) as ->
      by (rewrite Ed, E, app_assoc; unfold Zlen; by rewrite Nat2Z.id, drop_app_length).
    assert (Zlen (T ++ P) = 64) as HTP by (rewrite Zlen_app; lia).
    rewrite blit_start by lia. cbn [mbind option_bind]. eexists. split; [done|].
    exists (q + (1 + k))%nat, (A ++ (T ++ P) ++ D1), D2, (drop (length D2) (T ++ P)). cbn [state count0 count1 buffer].
    split_and!; try done.
    + rewrite Em, Ed, E, <- !app_assoc. done.
    + rewrite !Zlen_app in *. lia.
    + rewrite hash_blocks_app by done. rewrite hash_blocks_app by lia. cbn [hash_blocks].
      by rewrite (take_ge (T ++ P)), Hs by (unfold Zlen in *; lia).
    + rewrite Zlen_app. unfold Zlen in *. rewrite length_drop. lia.
  - rewrite <- (take_drop (length d) R), blit_gap by (unfold Zlen in *; rewrite length_take; lia).
    cbn [mbind option_bind]. eexists. split; [done|]. exists q, A, (T ++ d), (drop (length d) R).
    cbn [state count0 count1 buffer]. split_and!; try done.
    + by rewrite Em, app_assoc.
    + rewrite Zlen_app. lia.
    + by rewrite app_assoc.
    + rewrite !Zlen_app. unfold Zlen in *. rewrite length_drop. lia.
Qed.

Lemma init_rep stack : Zlen stack = 64 -> rep (mg_sha1_init stack) [].
Proof. intros H. exists O, [], [], stack. done. Qed.

Lemma updates_rep ds : Forall (fun d => is_bytes d /\ Zlen d <= 2 ^ 32 - 64) ds ->
  forall c m, rep c m -> is_bytes m -> exists c', updates c ds = Some c' /\ rep c' (m ++ concat ds).
Proof.
  induction 1 as [|d ds [Hd Hl] _ IH]; intros c m Hr Hm; simpl; [rewrite app_nil_r; eauto|].
  destruct (update_rep c m d) as (c1 & -> & Hr1); [done..|]. simpl.
  rewrite app_assoc. apply IH; [done|by apply Forall_app_2].
Qed.

Lemma pad_test (m : list Z) : (Z.land (u32 (8 * Zlen m)) 504 =? 448) = (Zlen m mod 64 =? 56).
Proof.
  pose proof (Zlen_nonneg m). change 504 with (Z.shiftl (Z.ones 6) 3).
  assert (Z.land (u32 (8 * Zlen m)) (Z.shiftl (Z.ones 6) 3) = 8 * (Zlen m mod 64)) as ->; [|dlia].
  apply Z.bits_inj'. intros n Hn. rewrite Z.land_spec, Z.shiftl_spec by lia.
  unfold u32. rewrite testbit_mod_pow2 by lia.
  rewrite (Z.mul_comm 8 (Zlen m)), (Z.mul_comm 8). change 8 with (2 ^ 3). change 64 with (2 ^ 6).
  rewrite !Z.mul_pow2_bits, testbit_mod_pow2 by lia.
  destruct (Z.lt_ge_cases n 3); [rewrite (Z.testbit_neg_r (Zlen m)) by lia; by rewrite ?andb_false_r|].
  rewrite Z.testbit_ones_nonneg by lia.
  destruct (Z.ltb_spec n 32), (Z.ltb_spec (n - 3) 6); simpl; try lia; by rewrite ?andb_true_r, ?andb_false_r.
Qed.

Lemma pad_zeros_rep fuel z : (z < fuel)%nat -> (z < 64)%nat ->
  forall c m, rep c m -> is_bytes m -> Z.of_nat z = (56 - Zlen m) mod 64 ->
  exists c', pad_zeros fuel c = Some c' /\ rep c' (m ++ replicate z 0).
Proof.
  revert z. induction fuel as [|fuel IH]; intros z Hf Hz c m Hr Hm Hc; [lia|]. cbn [pad_zeros].
  assert (count0 c = u32 (8 * Zlen m)) as -> by (destruct Hr as (?&?&?&?&?&?&?&?&?&?&?&?); done).
  rewrite pad_test. destruct z as [|z].
  - rewrite (proj2 (Z.eqb_eq _ _)) by dlia. exists c. by rewrite app_nil_r.
  - rewrite (proj2 (Z.eqb_neq _ _)) by dlia.
    assert (is_bytes [0]) by (repeat constructor; lia).
    destruct (update_rep c m [0]) as (c1 & -> & Hr1); [done..|]. cbn [mbind option_bind].
    destruct (IH z ltac:(lia) ltac:(lia) c1 (m ++ [0])) as (c2 & -> & Hr2); [done|by apply Forall_app_2|..].
    { rewrite Zlen_app. change (Zlen [0]) with 1. dlia. }
    exists c2. split; [done|]. by rewrite <- app_assoc in Hr2.
Qed.

Lemma word_bytes_bytes v : is_bytes (word_bytes v).
Proof.
  unfold word_bytes. apply Forall_map, Forall_true. intros k. unfold byte_of. simpl.
  apply (land_small_r 8); [lia|done].
Qed.

Lemma padded_length m : exists q, Zlen (padded m) = 64 * Z.of_nat q.
Proof.
  exists (Z.to_nat (Zlen (padded m) / 64)). pose proof (Zlen_nonneg (padded m)).
  assert (Zlen (padded m) mod 64 = 0); [|dlia].
  unfold padded, be64. rewrite !Zlen_app. unfold Zlen at 3. rewrite length_replicate.
  rewrite Z2Nat.id by dlia. change (Zlen [128]) with 1. unfold word_bytes, Zlen. rewrite !length_map. simpl. dlia.
Qed.

Lemma final_rep c m : rep c m -> is_bytes m -> 8 * Zlen m < 2 ^ 64 -> mg_sha1_final c = Some (SHA1 m).
Proof.
  intros Hr Hm Hl. unfold mg_sha1_final. pose proof (Zlen_nonneg m).
  assert (word_bytes (count1 c) ++ word_bytes (count0 c) = be64 (8 * Zlen m)) as ->.
  { destruct Hr as (?&?&?&?&_&_&_&_&_&_&-> & ->). unfold be64. rewrite (u32_small (_ / _)); [done|].
    split; [apply Z.div_pos; lia|apply Z.div_lt_upper_bound; lia]. }
  assert (is_bytes [128]) by (repeat constructor; lia).
  destruct (update_rep c m [128]) as (c1 & -> & Hr1); [done..|]. cbn [mbind option_bind].
  set (z := Z.to_nat ((55 - Zlen m) mod 64)).
  assert (Z.of_nat z = (56 - Zlen (m ++ [128])) mod 64) as Hz
    by (unfold z; rewrite Zlen_app; change (Zlen [128]) with 1; dlia).
  assert (is_bytes (m ++ [128])) by (by apply Forall_app_2).
  destruct (pad_zeros_rep 65 z ltac:(dlia) ltac:(dlia) c1 (m ++ [128])) as (c2 & -> & Hr2); [done..|].
  cbn [mbind option_bind]. assert (is_bytes ((m ++ [128]) ++ replicate z 0))
    by (apply Forall_app_2; [done|apply Forall_replicate; unfold is_byte; lia]).
  assert (is_bytes (be64 (8 * Zlen m))) by (apply Forall_app_2; apply word_bytes_bytes).
  destruct (update_rep c2 _ (be64 (8 * Zlen m)) Hr2) as (c3 & -> & q & A & T & R & Em & HA & HT & Hs & _);
    [done..|]. cbn [mbind option_bind]. rewrite <- !app_assoc in Em. unfold SHA1. fold (padded m) in Em.
  change (m ++ [128] ++ replicate z 0 ++ be64 (8 * Zlen m)) with (padded m) in Em.
  destruct (padded_length m) as [p Hp].
  assert (Zlen T = 0) as HT0 by (rewrite Em, Zlen_app in Hp; pose proof (Zlen_nonneg T); dlia).
  destruct T; [|rewrite Zlen_cons in HT0; pose proof (Zlen_nonneg T); lia]. rewrite app_nil_r in Em. subst A.
  rewrite Hs. unfold Zlen in HA. replace (length (padded m)) with (q * 64)%nat by lia.
  by rewrite Nat.div_mul by lia.
Qed.

Lemma sha1_stream (stack : list Z) (ds : list (list Z)) :
  Zlen stack = 64 -> Forall (fun d => is_bytes d /\ Zlen d <= 2 ^ 32 - 64) ds ->
  8 * Zlen (concat ds) < 2 ^ 64 ->
  sha1_of stack ds = Some (SHA1 (concat ds)).
Proof.
  intros Hs Hd Hl. unfold sha1_of.
  destruct (updates_rep ds Hd (mg_sha1_init stack) [] (init_rep stack Hs)) as (c & -> & Hr); [done|].
  cbn [mbind option_bind]. apply final_rep; [done| |done].
  apply Forall_concat. eapply Forall_impl; [exact Hd|]. by intros d [? _].
Qed.

(** C34: The incremental hash is SHA-1: for a message handed over in any number of pieces of any
    sizes (each up to 2^32 - 64 bytes, as the sums of [size_t] in the code wrap beyond), with whatever the stack held in the context before, [mg_sha1_init], the calls of
    [mg_sha1_update] and [mg_sha1_final] give the digest the standard defines for the
    concatenation of the pieces, and no call writes outside the 64 byte buffer. *)
Theorem sha1_exact (stack : list Z) (ds : list (list Z)) :
  Zlen stack = 64 -> Forall (fun d => is_bytes d /\ Zlen d <= 2 ^ 32 - 64) ds ->
  8 * Zlen (concat ds) < 2 ^ 64 ->
  sha1_of stack ds = Some (SHA1 (concat ds)).
Proof. by apply sha1_stream. Qed.

Lemma sha1_exact_witness : sha1_of (replicate 64 7) [replicate 60 1; [2; 3; 4; 5; 6]] =
  Some (SHA1 (concat [replicate 60 1; [2; 3; 4; 5; 6]])).
Proof.
  apply sha1_exact; [reflexivity| |vm_compute; reflexivity].
  apply (bool_decide_unpack (Forall (fun d => Forall (fun b => 0 <= b < 256) d /\ Zlen d <= 2 ^ 32 - 64) _)).
  vm_compute. exact I.
Defined.
