(* ===== verification/Json.v ===== *)
(** * Json: the JSON scanner (mongoose/mongoose.c, lines 2680-3040)

    A document is the list of its bytes, a path the bytes of a C string with the
    terminator.  Every read is checked: [None] is a read or write outside the document,
    the path or the nesting stack.  Doubles are IEEE binary64 values of the Standard
    Library's [SpecFloat]. *)

From S2P Require Import Prelude Str Base64.
From Stdlib Require Import Floats.SpecFloat.

Definition MG_JSON_MAX_DEPTH : Z := 30.
Definition MG_JSON_TOO_DEEP : Z := -1.
Definition MG_JSON_INVALID : Z := -2.
Definition MG_JSON_NOT_FOUND : Z := -3.

(** ** Escapes *)

Definition escapeseq (esc : bool) : list Z :=
  if esc then [8; 12; 10; 13; 9; 92; 34]          (* the characters *)
  else str:("bfnrt") ++ [92; 34].                 (* what follows the backslash *)

Fixpoint esc_find (c : Z) (esc1 esc2 : list Z) : Z :=
  match esc1, esc2 with
  | p :: esc1', q :: esc2' => if p =? c then q else esc_find c esc1' esc2'
  | _, _ => 0
  end.

Definition json_esc (c : Z) (esc : bool) : Z := esc_find c (escapeseq esc) (escapeseq (negb esc)).

(** The offset of the closing quote, from just after the opening one. *)
Fixpoint pass_string (s : list Z) (i : Z) : Z :=
  match s with
  | [] => MG_JSON_INVALID
  | c :: s' =>
      let next := if c =? 0 then MG_JSON_INVALID else if c =? 34 then i else pass_string s' (i + 1) in
      if c =? 92 then
        match s' with
        | e :: s'' => if negb (json_esc e true =? 0) then pass_string s'' (i + 2) else next
        | [] => next
        end
      else next
  end.

Definition mg_pass_string (s : list Z) : Z := pass_string s 0.

(** ** Numbers *)

Definition f64_prec : Z := 53.
Definition f64_emax : Z := 1024.
Definition f64_of_Z (z : Z) : spec_float := binary_normalize f64_prec f64_emax z 0 false.
Definition f64_mul := SFmul f64_prec f64_emax.
Definition f64_add := SFadd f64_prec f64_emax.
Definition f64_div := SFdiv f64_prec f64_emax.
Definition f64_ten : spec_float := f64_of_Z 10.

(** Digits: the value accumulated and the characters left. *)
Fixpoint atod_int (d : spec_float) (p : list Z) : spec_float * list Z :=
  match p with
  | c :: p' => if is_digit c then atod_int (f64_add (f64_mul d f64_ten) (f64_of_Z (c - 48))) p'
               else (d, p)
  | [] => (d, [])
  end.

Fixpoint atod_frac (frac base : spec_float) (p : list Z) : spec_float * list Z :=
  match p with
  | c :: p' => if is_digit c
               then atod_frac (f64_add frac (f64_mul base (f64_of_Z (c - 48)))) (f64_div base f64_ten) p'
               else (frac, p)
  | [] => (frac, [])
  end.

Fixpoint atod_exp (exp : Z) (p : list Z) : Z * list Z :=
  match p with
  | c :: p' => if is_digit c && (exp <? 308) then atod_exp (exp * 10 + (c - 48)) p' else (exp, p)
  | [] => (exp, [])
  end.

Definition skip_char (c : Z) (p : list Z) : bool * list Z :=
  match p with
  | x :: p' => if x =? c then (true, p') else (false, p)
  | [] => (false, [])
  end.

(** The fraction part, if any. *)
Definition atod_fraction (sign d : spec_float) (p : list Z) : spec_float * list Z :=
  match skip_char 46 p with
  | (true, p') =>
      let '(frac, r) := atod_frac (f64_of_Z 0) (f64_div (f64_of_Z 1) f64_ten) p' in
      (f64_add d (f64_mul frac sign), r)
  | (false, p') => (d, p')
  end.

(** The exponent part, if any. *)
Definition atod_exponent (d : spec_float) (p : list Z) : spec_float * list Z :=
  match p with
  | x :: p' =>
      if (x =? 101) || (x =? 69) then
        let '(minus, p1) := skip_char 45 p' in
        let '(_, p2) := skip_char 43 p1 in
        let '(ex, p3) := atod_exp 0 p2 in
        (Nat.iter (Z.to_nat ex)
           (fun d => if (minus : bool) then f64_div d f64_ten else f64_mul d f64_ten) d, p3)
      else (d, p)
  | [] => (d, p)
  end.

(** The value and the number of characters read. *)
Definition mg_atod (p : list Z) : spec_float * Z :=
  let '(neg, p1) := skip_char 45 p in
  let p1 := if (neg : bool) then p1 else snd (skip_char 43 p1) in
  let sign := f64_of_Z (if neg then -1 else 1) in
  let '(d, p2) := atod_int (f64_of_Z 0) p1 in
  let '(d, p3) := atod_fraction sign (f64_mul d sign) p2 in
  let '(d, p4) := atod_exponent d p3 in
  (d, Zlen p - Zlen p4).

(** ** The scanner *)

Inductive expecting := S_VALUE | S_KEY | S_COLON | S_COMMA_OR_EOO.

Record jstate := js {
  ji : Z; jj : Z; depth : Z; ed : Z; pos : Z; ci : Z; ei : Z;
  expect : expecting;
  nesting : list Z
}.

(** A step ends the scan with a result and a token length, or continues. *)
Inductive outcome := Ret (r toklen : Z) | Cont (st : jstate).

Section Get.
Context (s : list Z) (path : list Z).

Definition len : Z := Zlen s.

(** The rest of the document from offset [i]. *)
Definition from (i : Z) : list Z := drop (Z.to_nat i) s.

Definition starts_with (w : list Z) (i : Z) : bool :=
  bool_decide (take (length w) (from i) = w).

(** [MG_CHECKRET] *)
Definition checkret (st : jstate) (k : jstate -> option outcome) : option outcome :=
  pc ← rd path (pos st);
  if (depth st =? ed st) && (pc =? 0) && (ci st =? ei st)
  then Some (Ret (jj st) (ji st - jj st + 1)) else k st.

(** [MG_EOO] on the closing character [c]. *)
Definition eoo (c : Z) (st : jstate) (k : jstate -> option outcome) : option outcome :=
  if (depth st =? ed st) && negb (ci st =? ei st) then Some (Ret MG_JSON_NOT_FOUND 0)
  else
    n ← rd (nesting st) (depth st - 1);
    if negb (c =? n + 2) then Some (Ret MG_JSON_INVALID 0)
    else checkret (js (ji st) (jj st) (depth st - 1) (ed st) (pos st) (ci st) (ei st)
                      (expect st) (nesting st)) k.

(** An element of the array being indexed was passed. *)
Definition bump (st : jstate) : jstate :=
  if (depth st =? ed st) && (0 <=? ei st)
  then js (ji st) (jj st) (depth st) (ed st) (pos st) (ci st + 1) (ei st) (expect st) (nesting st)
  else st.

Definition set_expect (e : expecting) (st : jstate) : jstate :=
  js (ji st) (jj st) (depth st) (ed st) (pos st) (ci st) (ei st) e (nesting st).

Definition set_i (i : Z) (st : jstate) : jstate :=
  js i (jj st) (depth st) (ed st) (pos st) (ci st) (ei st) (expect st) (nesting st).

(** After a scalar (or an empty array): the common tail of the value state. *)
Definition value_done (st : jstate) : option outcome :=
  checkret st (fun st => Some (Cont (set_expect S_COMMA_OR_EOO (bump st)))).

(** The decimal index of a path element: digits up to ']' or the end.  [fuel] bounds the
    path. *)
Fixpoint path_index (fuel : nat) (ei pos : Z) : option (Z * Z) :=
  pc ← rd path pos;
  if (pc =? 93) || (pc =? 0) then Some (ei, pos)
  else match fuel with
       | O => None
       | S fuel' => path_index fuel' (ei * 10 + (pc - 48)) (pos + 1)
       end.

Definition push (c : Z) (st : jstate) (e : expecting) : option outcome :=
  n ← wr (nesting st) (depth st) c;
  Some (Cont (js (ji st) (jj st) (depth st + 1) (ed st) (pos st) (ci st) (ei st) e n)).

Definition on_value (c : Z) (st : jstate) : option outcome :=
  let st := if depth st =? ed st
            then js (ji st) (ji st) (depth st) (ed st) (pos st) (ci st) (ei st) (expect st) (nesting st)
            else st in
  let i := ji st in
  if c =? 123 then
    if MG_JSON_MAX_DEPTH <=? depth st then Some (Ret MG_JSON_TOO_DEEP 0)
    else
      pc ← rd path (pos st);
      let st := if (depth st =? ed st) && (pc =? 46) && (ci st =? ei st)
                then js i (jj st) (depth st) (ed st + 1) (pos st + 1) (-1) (-1) (expect st) (nesting st)
                else st in
      push c st S_KEY
  else if c =? 91 then
    if MG_JSON_MAX_DEPTH <=? depth st then Some (Ret MG_JSON_TOO_DEEP 0)
    else
      pc ← rd path (pos st);
      if (depth st =? ed st) && (pc =? 91) && (ei st =? ci st) then
        '(e, p) ← path_index (length path) 0 (pos st + 1);
        pe ← rd path p;
        let p := if negb (pe =? 0) then p + 1 else p in
        push c (js i (jj st) (depth st) (ed st + 1) p 0 e (expect st) (nesting st)) (expect st)
      else push c st (expect st)
  else if (c =? 93) && (0 <? depth st) then eoo 93 st value_done
  else if (c =? 116) && (i + 3 <? len) && starts_with str:("true") i then value_done (set_i (i + 3) st)
  else if (c =? 110) && (i + 3 <? len) && starts_with str:("null") i then value_done (set_i (i + 3) st)
  else if (c =? 102) && (i + 4 <? len) && starts_with str:("false") i then value_done (set_i (i + 4) st)
  else if (c =? 45) || is_digit c then
    value_done (set_i (i + snd (mg_atod (from i)) - 1) st)
  else if c =? 34 then
    let n := mg_pass_string (from (i + 1)) in
    if n <? 0 then Some (Ret n 0) else value_done (set_i (i + n + 1) st)
  else Some (Ret MG_JSON_INVALID 0).

(** [strncmp (a, b, n) == 0], reading both up to a difference or a terminator. *)
Fixpoint strncmp_eq (n : nat) (a b : list Z) : option bool :=
  match n with
  | O => Some true
  | S n' =>
      match a, b with
      | x :: a', y :: b' =>
          if negb (x =? y) then Some false else if x =? 0 then Some true else strncmp_eq n' a' b'
      | _, _ => None
      end
  end.

(** The path element at [pos] is the key of length [n] at [i + 1]. *)
Definition key_matches (st : jstate) (n : Z) : option bool :=
  eq ← strncmp_eq (Z.to_nat n) (from (ji st + 1)) (drop (Z.to_nat (pos st)) path);
  if (eq : bool) then
    pe ← rd path (pos st + n);
    Some ((pe =? 0) || (pe =? 46) || (pe =? 91))
  else Some false.

Definition on_key (c : Z) (st : jstate) : option outcome :=
  let i := ji st in
  if c =? 34 then
    let n := mg_pass_string (from (i + 1)) in
    if n <? 0 then Some (Ret n 0)
    else if len <=? i + 1 + n then Some (Ret MG_JSON_NOT_FOUND 0)
    else if depth st <? ed st then Some (Ret MG_JSON_NOT_FOUND 0)
    else
      pp ← rd path (pos st - 1);
      if (depth st =? ed st) && negb (pp =? 46) then Some (Ret MG_JSON_NOT_FOUND 0)
      else
        hit ← (if (depth st =? ed st) && (pp =? 46) then key_matches st n else Some false);
        let p := if (hit : bool) then pos st + n else pos st in
        Some (Cont (js (i + n + 1) (jj st) (depth st) (ed st) p (ci st) (ei st) S_COLON (nesting st)))
  else if c =? 125 then
    eoo 125 st (fun st => Some (Cont (bump (set_expect S_COMMA_OR_EOO st))))
  else Some (Ret MG_JSON_INVALID 0).

Definition on_comma (c : Z) (st : jstate) : option outcome :=
  if depth st <=? 0 then Some (Ret MG_JSON_INVALID 0)
  else if c =? 44 then
    n ← rd (nesting st) (depth st - 1);
    Some (Cont (set_expect (if n =? 123 then S_KEY else S_VALUE) st))
  else if (c =? 93) || (c =? 125) then
    pp ← rd path (pos st - 1);
    if (depth st =? ed st) && (c =? 125) && (pp =? 46) then Some (Ret MG_JSON_NOT_FOUND 0)
    else if (depth st =? ed st) && (c =? 93) && (pp =? 44) then Some (Ret MG_JSON_NOT_FOUND 0)
    else eoo c st (fun st => Some (Cont (bump st)))
  else Some (Ret MG_JSON_INVALID 0).

Definition is_space (c : Z) : bool := (c =? 32) || (c =? 9) || (c =? 10) || (c =? 13).

(** One iteration of the scan, without the increment of [i]. *)
Definition json_step (st : jstate) : option outcome :=
  c ← rd s (ji st);
  if is_space c then Some (Cont st)
  else match expect st with
       | S_VALUE => on_value c st
       | S_KEY => on_key c st
       | S_COLON => if c =? 58 then Some (Cont (set_expect S_VALUE st))
                    else Some (Ret MG_JSON_INVALID 0)
       | S_COMMA_OR_EOO => on_comma c st
       end.

Fixpoint json_loop (fuel : nat) (st : jstate) : option (Z * Z) :=
  if ji st <? len then
    match fuel with
    | O => None
    | S fuel' =>
        o ← json_step st;
        match o with
        | Ret r toklen => Some (r, toklen)
        | Cont st' => json_loop fuel' (set_i (ji st' + 1) st')
        end
    end
  else Some (MG_JSON_NOT_FOUND, 0).

(** The scan advances at every iteration: [len] iterations are enough.  The nesting array
    is not initialised by the code; its initial contents are immaterial. *)
Definition mg_json_get : option (Z * Z) :=
  p0 ← rd path 0;
  if negb (p0 =? 36) then Some (MG_JSON_INVALID, 0)
  else json_loop (length s) (js 0 0 0 0 1 (-1) (-1) S_VALUE (replicate (Z.to_nat MG_JSON_MAX_DEPTH) 0)).

End Get.

(** ** Numbers stay inside the text *)

Lemma atod_int_len p : forall d, (length (snd (atod_int d p)) <= length p)%nat.
Proof.
  induction p as [|c p IH]; intros d; simpl; [lia|]. destruct (is_digit c); simpl; [|lia].
  etransitivity; [apply IH|lia].
Qed.

Lemma atod_frac_len p : forall f b, (length (snd (atod_frac f b p)) <= length p)%nat.
Proof.
  induction p as [|c p IH]; intros f b; simpl; [lia|]. destruct (is_digit c); simpl; [|lia].
  etransitivity; [apply IH|lia].
Qed.

Lemma atod_exp_len p : forall e, (length (snd (atod_exp e p)) <= length p)%nat.
Proof.
  induction p as [|c p IH]; intros e; simpl; [lia|]. destruct (_ && _); simpl; [|lia].
  etransitivity; [apply IH|lia].
Qed.

Lemma skip_char_len c p : (length (snd (skip_char c p)) <= length p)%nat.
Proof. destruct p as [|x p]; simpl; [lia|]. destruct (x =? c); simpl; lia. Qed.

Lemma atod_fraction_len sign d p : (length (snd (atod_fraction sign d p)) <= length p)%nat.
Proof.
  unfold atod_fraction. pose proof (skip_char_len 46 p) as H.
  destruct (skip_char 46 p) as [[|] p']; simpl in *; [|lia].
  pose proof (atod_frac_len p' (f64_of_Z 0) (f64_div (f64_of_Z 1) f64_ten)) as H1.
  destruct (atod_frac _ _ p') as [f r]. simpl in *. lia.
Qed.

Lemma atod_exponent_len d p : (length (snd (atod_exponent d p)) <= length p)%nat.
Proof.
  unfold atod_exponent. destruct p as [|x p]; [done|]. destruct (_ || _); [|done].
  pose proof (skip_char_len 45 p) as H5. destruct (skip_char 45 p) as [mn p6].
  pose proof (skip_char_len 43 p6) as H6. destruct (skip_char 43 p6) as [pl p7].
  pose proof (atod_exp_len p7 0) as H7. destruct (atod_exp 0 p7) as [ex p8]. simpl in *. lia.
Qed.

(** A number read from a digit or a minus sign has at least one character and ends inside
    the text. *)
Lemma mg_atod_len c p :
  (c =? 45) || is_digit c = true -> 1 <= snd (mg_atod (c :: p)) <= Zlen (c :: p).
Proof.
  intros Hc. unfold mg_atod.
  set (p1 := if fst (skip_char 45 (c :: p)) then snd (skip_char 45 (c :: p))
             else snd (skip_char 43 (snd (skip_char 45 (c :: p))))).
  assert (forall d, (length (snd (atod_int d p1)) < length (c :: p))%nat) as H1.
  { intros d. subst p1. simpl. destruct (Z.eqb_spec c 45) as [->|Hne]; simpl.
    - pose proof (atod_int_len p d). lia.
    - simpl in Hc. destruct (Z.eqb_spec c 43) as [->|]; [done|]. simpl. rewrite Hc.
      pose proof (atod_int_len p (f64_add (f64_mul d f64_ten) (f64_of_Z (c - 48)))). lia. }
  clear Hc. subst p1. revert H1. generalize (c :: p). clear c p. intros p.
  destruct (skip_char 45 p) as [neg q1]. cbn [fst snd].
  set (p1 := if neg then q1 else snd (skip_char 43 q1)). intros H1. specialize (H1 (f64_of_Z 0)).
  destruct (atod_int _ p1) as [d p2]. cbn [snd] in H1. clear p1.
  match goal with |- context [atod_fraction ?sg ?x p2] => pose proof (atod_fraction_len sg x p2) as H2;
    destruct (atod_fraction sg x p2) as [d' p3] end.
  pose proof (atod_exponent_len d' p3) as H3. destruct (atod_exponent d' p3) as [d2 p4].
  unfold Zlen. simpl in *. lia.
Qed.

(** ** Strings stay inside the text *)

Lemma json_esc_nonzero c : json_esc c true <> 0 -> c <> 0.
Proof. intros H ->. by apply H. Qed.

Lemma pass_string_spec n : forall s i, (length s <= n)%nat -> 0 <= i ->
  pass_string s i < 0 \/
  (i <= pass_string s i < i + Zlen s /\
   Forall (fun c => c <> 0) (take (Z.to_nat (pass_string s i - i)) s)).
Proof.
  induction n as [|n IH]; intros s i Hn Hi.
  { destruct s; [|simpl in Hn; lia]. left. done. }
  destruct s as [|c s]; [left; done|]. simpl in Hn. cbn [pass_string].
  assert (forall k r, (length r <= n)%nat -> forall pre, Zlen pre = k -> 0 < k ->
    Forall (fun c => c <> 0) pre -> c :: s = pre ++ r ->
    pass_string r (i + k) < 0 \/
    (i <= pass_string r (i + k) < i + Zlen (c :: s) /\
     Forall (fun c => c <> 0) (take (Z.to_nat (pass_string r (i + k) - i)) (c :: s)))) as Hrec.
  { intros k r Hr pre Hk Hk0 Hp E. destruct (IH r (i + k)) as [?|[Hb HF]]; [done|lia|by left|].
    right. rewrite E, Zlen_app. split; [lia|]. rewrite take_app, Forall_app. split.
    - by apply Forall_take.
    - unfold Zlen in *. by replace (Z.to_nat (pass_string r (i + k) - i) - length pre)%nat
        with (Z.to_nat (pass_string r (i + k) - (i + k))) by lia. }
  assert (let next := if c =? 0 then MG_JSON_INVALID else if c =? 34 then i else pass_string s (i + 1) in
    next < 0 \/ (i <= next < i + Zlen (c :: s) /\
     Forall (fun c => c <> 0) (take (Z.to_nat (next - i)) (c :: s)))) as Hnext.
  { cbn zeta. destruct (Z.eqb_spec c 0); [left; done|].
    destruct (Z.eqb_spec c 34).
    - right. rewrite Z.sub_diag, Zlen_cons. pose proof (Zlen_nonneg s). split; [lia|constructor].
    - apply (Hrec 1 s ltac:(lia) [c]); [done..| |done]. by constructor. }
  cbn zeta in Hnext. destruct (Z.eqb_spec c 92) as [->|]; [|exact Hnext].
  destruct s as [|e s]; [exact Hnext|].
  destruct (Z.eqb_spec (json_esc e true) 0); cbn [negb]; [exact Hnext|].
  apply (Hrec 2 s ltac:(simpl in Hn; lia) [92; e]); [done..| |done].
  repeat constructor; [done|]. by apply json_esc_nonzero.
Qed.

(** ** Memory safety of the scanner *)

(** A terminated path. *)
Definition cstring (path : list Z) : Prop := exists q, path = q ++ [0] /\ 0 ∉ q.

Lemma strncmp_safe n : forall a q, (n <= length a)%nat ->
  exists r, strncmp_eq n a (q ++ [0]) = Some r /\
    (r = true -> Forall (fun c => c <> 0) (take n a) -> (n <= length q)%nat).
Proof.
  induction n as [|n IH]; intros a q Hn; [eexists; split; [done|lia]|].
  destruct a as [|x a]; [simpl in Hn; lia|]. simpl in Hn.
  destruct q as [|y q]; simpl.
  - destruct (Z.eqb_spec x 0) as [->|]; simpl; eexists; (split; [done|]); [|done].
    intros _ H. inversion H. done.
  - destruct (Z.eqb_spec x y) as [->|]; simpl; [|eexists; split; [done|done]].
    destruct (Z.eqb_spec y 0) as [->|]; [eexists; split; [done|]; intros _ H; by inversion H|].
    destruct (IH a q) as (r & Hr & Hq); [lia|]. exists r. split; [done|].
    intros Ht H. inversion H; subst. apply le_n_S. by apply Hq.
Qed.

Section Safe.
Context (s path : list Z).
Context (Hpath : cstring path) (Hdollar : rd path 0 = Some 36).

Abbreviation N := (Zlen path - 1).

Lemma N_pos : 1 <= N.
Proof.
  destruct Hpath as (q & -> & _). destruct q as [|x q]; [done|].
  rewrite Zlen_app, Zlen_cons. change (Zlen [0]) with 1. pose proof (Zlen_nonneg q). lia.
Qed.

Lemma path_char p : 0 <= p <= N -> exists c, rd path p = Some c /\ (c = 0 <-> p = N).
Proof.
  intros Hp. destruct Hpath as (q & E & Hq). rewrite E in Hp |- *.
  rewrite Zlen_app in Hp |- *. change (Zlen [0]) with 1 in Hp |- *.
  destruct (decide (p = Zlen q)) as [->|Hne].
  - exists 0. rewrite rd_here. split; [done|]. split; [lia|done].
  - rewrite rd_app_l by lia. destruct (rd_is_Some q p) as [c Hc]; [lia|]. exists c. split; [done|].
    split; [|lia]. intros ->. exfalso. apply Hq. unfold rd in Hc. destruct (0 <=? p); [|done].
    by eapply list_elem_of_lookup_2.
Qed.

Definition jinv (st : jstate) : Prop :=
  0 <= jj st <= ji st /\ 0 <= depth st <= MG_JSON_MAX_DEPTH /\
  Zlen (nesting st) = MG_JSON_MAX_DEPTH /\ 1 <= pos st <= N /\
  (expect st = S_KEY -> 1 <= depth st).

(** What a step delivers: an error, a token inside the document, or a state further on. *)
Definition good (i0 : Z) (o : outcome) : Prop :=
  match o with
  | Ret r t => (r < 0 /\ t = 0) \/ (0 <= r /\ 1 <= t /\ r + t <= Zlen s)
  | Cont st => jinv st /\ i0 <= ji st < Zlen s
  end.

Definition safe (i0 : Z) (m : option outcome) : Prop :=
  match m with Some o => good i0 o | None => False end.

Lemma checkret_safe i0 st k :
  jinv st -> ji st < Zlen s -> safe i0 (k st) -> safe i0 (checkret path st k).
Proof.
  intros (Hj & _ & _ & Hp & _) Hi Hk. unfold checkret.
  destruct (path_char (pos st)) as (c & -> & _); [lia|]. cbn [mbind option_bind].
  destruct (_ && _); [|done]. simpl. right. lia.
Qed.

(** The invariant without the condition on the expected token. *)
Definition jinv0 (st : jstate) : Prop := jinv (set_expect S_VALUE st).

Lemma jinv0_jinv st : jinv0 st -> expect st <> S_KEY -> jinv st.
Proof. unfold jinv0, jinv. simpl. naive_solver. Qed.

Lemma jinv_jinv0 st : jinv st -> jinv0 st.
Proof. unfold jinv0, jinv. simpl. naive_solver. Qed.

Lemma eoo_safe i0 c st k :
  jinv st -> 1 <= depth st -> ji st < Zlen s ->
  (forall st', jinv0 st' -> ji st' = ji st -> expect st' = expect st -> safe i0 (k st')) ->
  safe i0 (eoo path c st k).
Proof.
  intros (Hj & Hd & Hn & Hp & Hk1) H1 Hi Hk. unfold eoo.
  destruct (_ && _); [simpl; left; done|].
  destruct (rd_is_Some (nesting st) (depth st - 1)) as [n ->]; [lia|]. cbn [mbind option_bind].
  destruct (negb _); [simpl; left; done|].
  set (st' := js _ _ _ _ _ _ _ _ _).
  assert (safe i0 (k st')) as Hst'.
  { apply Hk; [|done|done]. unfold jinv0, jinv. simpl. split_and!; lia || done. }
  unfold checkret. simpl. destruct (path_char (pos st)) as (pc & -> & _); [lia|].
  cbn [mbind option_bind]. destruct (_ && _); [|done]. simpl. right. lia.
Qed.

Lemma bump_inv st : (jinv0 st -> jinv0 (bump st)) /\ ji (bump st) = ji st /\ expect (bump st) = expect st.
Proof. unfold bump. by destruct (_ && _). Qed.

Lemma value_done_safe i0 st :
  jinv0 st -> expect st <> S_KEY -> i0 <= ji st < Zlen s -> safe i0 (value_done path st).
Proof.
  intros H He Hi. apply checkret_safe; [by apply jinv0_jinv|lia|].
  destruct (bump_inv st) as (Hb & Hbi & Hbe). specialize (Hb H). simpl. rewrite Hbi.
  split; [|lia]. apply jinv0_jinv; [|done]. exact Hb.
Qed.

Lemma set_i_inv i st : jinv0 st -> ji st <= i -> jinv0 (set_i i st).
Proof. unfold jinv0, jinv. simpl. intros (H1 & H2 & H3 & H4 & H5) Hi. split_and!; lia || done. Qed.

Lemma push_safe i0 c st e :
  jinv0 st -> depth st < MG_JSON_MAX_DEPTH -> i0 <= ji st < Zlen s -> safe i0 (push c st e).
Proof.
  intros (H1 & H2 & H3 & H4 & H5) Hd Hi. simpl in *. unfold push.
  destruct (wr_is_Some (nesting st) (depth st) c) as [n E]; [lia|]. rewrite E. simpl.
  apply wr_Zlen in E. split; [|lia]. unfold jinv. simpl. split_and!; lia || done.
Qed.

Lemma path_index_spec fuel : forall e p, 1 <= p <= N -> N - p <= Z.of_nat fuel ->
  exists e' p' c, path_index path fuel e p = Some (e', p') /\ p <= p' <= N /\
    rd path p' = Some c /\ (c <> 0 -> p' < N).
Proof.
  induction fuel as [|fuel IH]; intros e p Hp Hf; cbn [path_index];
    destruct (path_char p) as (c & E & Hc); [lia| |lia|]; rewrite E; cbn [mbind option_bind].
  - rewrite (proj2 Hc) by lia. simpl. do 3 eexists. split_and!; [done|lia|lia|done|].
    intros Hne. assert (c = 0) by (apply Hc; lia). congruence.
  - destruct ((c =? 93) || (c =? 0)) eqn:Eq.
    + do 3 eexists. split_and!; [done|lia|lia|done|]. intros Hne.
      destruct (decide (p = N)); [|lia]. tauto.
    + zbool. assert (p <> N) by tauto.
      destruct (IH (e * 10 + (c - 48)) (p + 1)) as (e' & p' & c' & -> & ? & ? & ?); [lia..|].
      do 3 eexists. split_and!; [done|lia|lia|done|done].
Qed.

Lemma from_len i : 0 <= i <= Zlen s -> Zlen (from s i) = Zlen s - i.
Proof. intros Hi. unfold from, Zlen in *. rewrite length_drop. lia. Qed.

Lemma from_cons i c : rd s i = Some c -> from s i = c :: from s (i + 1).
Proof.
  intros H. pose proof (rd_Some _ _ _ H). unfold rd in H. rewrite (proj2 (Z.leb_le 0 i)) in H by lia.
  unfold from. rewrite (drop_S _ _ _ H). do 2 f_equal. lia.
Qed.

(** The closing quote lies inside the document. *)
Lemma string_end i : 0 <= i < Zlen s ->
  mg_pass_string (from s (i + 1)) < 0 \/
  (0 <= mg_pass_string (from s (i + 1)) /\ i + mg_pass_string (from s (i + 1)) + 1 < Zlen s /\
   Forall (fun c => c <> 0) (take (Z.to_nat (mg_pass_string (from s (i + 1)))) (from s (i + 1)))).
Proof.
  intros Hi. unfold mg_pass_string.
  destruct (pass_string_spec _ (from s (i + 1)) 0 (le_n _) ltac:(lia)) as [?|[Hb HF]]; [by left|].
  right. rewrite Z.sub_0_r in HF. rewrite from_len in Hb by lia. split_and!; [lia|lia|done].
Qed.

Lemma on_value_safe c st :
  jinv st -> rd s (ji st) = Some c -> expect st = S_VALUE ->
  safe (ji st) (on_value s path c st).
Proof.
  intros Hinv Hc He. pose proof (rd_Some _ _ _ Hc) as Hi. unfold on_value.
  set (st1 := if depth st =? ed st then _ else _).
  assert (jinv0 st1 /\ ji st1 = ji st /\ expect st1 = S_VALUE /\ depth st1 = depth st) as (H1 & E1 & E2 & E3).
  { subst st1. destruct (depth st =? ed st); [|by split; [apply jinv_jinv0|]].
    split; [|done]. destruct Hinv as (? & ? & ? & ? & ?). unfold jinv0, jinv. simpl.
    split_and!; lia || done. }
  clearbody st1. rewrite <- E1 in *. clear Hinv He E1 E3 st.
  assert (forall n, ji st1 <= n < Zlen s -> safe (ji st1) (value_done path (set_i n st1))) as Hdone.
  { intros n Hn. apply value_done_safe; [apply set_i_inv; [done|lia]|by simpl; rewrite E2|simpl; lia]. }
  pose proof H1 as (Hj & Hd & Hn & Hp & _). simpl in Hj, Hd, Hn, Hp.
  destruct (path_char (pos st1)) as (pc & Epc & Hpc); [lia|].
  destruct (c =? 123); [|destruct (c =? 91)].
  - destruct (Z.leb_spec MG_JSON_MAX_DEPTH (depth st1)); [left; done|].
    rewrite Epc. cbn [mbind option_bind].
    destruct ((depth st1 =? ed st1) && (pc =? 46) && (ci st1 =? ei st1)) eqn:Eq.
    + zbool. subst pc. apply push_safe; simpl; [|lia|lia].
      assert (pos st1 <> N) by (intros ?; assert (46 = 0) by tauto; done).
      unfold jinv0, jinv. simpl. split_and!; lia || done.
    + apply push_safe; done || lia.
  - destruct (Z.leb_spec MG_JSON_MAX_DEPTH (depth st1)); [left; done|].
    rewrite Epc. cbn [mbind option_bind].
    destruct ((depth st1 =? ed st1) && (pc =? 91) && (ei st1 =? ci st1)) eqn:Eq.
    + zbool. subst pc.
      assert (pos st1 <> N) by (intros ?; assert (91 = 0) by tauto; done).
      destruct (path_index_spec (length path) 0 (pos st1 + 1)) as (e & p & c' & -> & Hpp & Ec' & Hc');
        [lia|unfold Zlen in *; lia|].
      cbn [mbind option_bind]. rewrite Ec'. cbn [mbind option_bind].
      apply push_safe; simpl; [|lia|lia]. unfold jinv0, jinv. simpl.
      destruct (Z.eqb_spec c' 0); simpl; split_and!; try lia; try done.
    + apply push_safe; done || lia.
  - destruct ((c =? 93) && (0 <? depth st1)) eqn:Eq.
    { zbool. apply eoo_safe; [apply jinv0_jinv; [done|by rewrite E2]|lia|lia|].
      intros st' H' Ei Ee. apply value_done_safe; [done|by rewrite Ee, E2|lia]. }
    clear Eq. destruct ((c =? 116) && _ && _) eqn:Eq; [zbool; apply Hdone; unfold len in *; lia|]. clear Eq.
    destruct ((c =? 110) && _ && _) eqn:Eq; [zbool; apply Hdone; unfold len in *; lia|]. clear Eq.
    destruct ((c =? 102) && _ && _) eqn:Eq; [zbool; apply Hdone; unfold len in *; lia|]. clear Eq.
    destruct ((c =? 45) || is_digit c) eqn:Eq.
    { apply Hdone. rewrite (from_cons _ _ Hc). pose proof (mg_atod_len c (from s (ji st1 + 1)) Eq).
      rewrite Zlen_cons, from_len in H by lia. lia. }
    destruct (c =? 34); [|left; done].
    destruct (string_end (ji st1) Hi) as [Hneg|(Hs0 & Hs1 & _)].
    + rewrite (proj2 (Z.ltb_lt _ _) Hneg). left. done.
    + rewrite (proj2 (Z.ltb_ge _ _) Hs0). apply Hdone. lia.
Qed.

Lemma key_matches_safe st n :
  jinv st -> 0 <= n -> ji st + n + 1 < Zlen s ->
  Forall (fun c => c <> 0) (take (Z.to_nat n) (from s (ji st + 1))) ->
  exists b, key_matches s path st n = Some b /\ (b = true -> pos st + n <= N).
Proof.
  intros (Hj & _ & _ & Hp & _) Hn Hl HF. unfold key_matches.
  destruct Hpath as (q & Eq & Hq).
  assert (drop (Z.to_nat (pos st)) path = drop (Z.to_nat (pos st)) q ++ [0]) as Ed.
  { rewrite Eq. rewrite Eq in Hp. rewrite Zlen_app in Hp. change (Zlen [0]) with 1 in Hp.
    apply drop_app_le. unfold Zlen in Hp. lia. }
  rewrite Ed.
  assert (Z.to_nat n <= length (from s (ji st + 1)))%nat as Hlen.
  { pose proof (from_len (ji st + 1)). unfold Zlen in *. lia. }
  destruct (strncmp_safe (Z.to_nat n) (from s (ji st + 1)) (drop (Z.to_nat (pos st)) q) Hlen)
    as (r & -> & Hr). cbn [mbind option_bind].
  destruct r; [|eexists; split; [done|done]].
  specialize (Hr eq_refl HF). rewrite length_drop in Hr.
  assert (pos st + n <= N).
  { rewrite Eq, Zlen_app in *. change (Zlen [0]) with 1 in *. unfold Zlen in *. lia. }
  destruct (path_char (pos st + n)) as (pc & -> & _); [lia|]. cbn [mbind option_bind].
  eexists. split; [done|]. lia.
Qed.

Lemma on_key_safe c st :
  jinv st -> rd s (ji st) = Some c -> expect st = S_KEY -> safe (ji st) (on_key s path c st).
Proof.
  intros Hinv Hc He. pose proof (rd_Some _ _ _ Hc) as Hi. unfold on_key.
  pose proof Hinv as (Hj & Hd & Hn & Hp & Hk). specialize (Hk He).
  destruct (c =? 34).
  - destruct (string_end (ji st) Hi) as [Hneg|(Hs0 & Hs1 & HF)].
    { rewrite (proj2 (Z.ltb_lt _ _) Hneg). left. done. }
    rewrite (proj2 (Z.ltb_ge _ _) Hs0). set (n := mg_pass_string _) in *.
    destruct (len s <=? ji st + 1 + n); [left; done|].
    destruct (depth st <? ed st); [left; done|].
    destruct (path_char (pos st - 1)) as (pp & -> & _); [lia|]. cbn [mbind option_bind].
    destruct (_ && negb _); [left; done|].
    assert (exists b, (if (depth st =? ed st) && (pp =? 46) then key_matches s path st n else Some false)
              = Some b /\ (b = true -> pos st + n <= N)) as (b & -> & Hb).
    { destruct (_ && _); [by apply key_matches_safe|]. eexists. split; done. }
    cbn [mbind option_bind]. simpl. unfold jinv. simpl.
    destruct b; split_and!; try lia; try done.
  - destruct (c =? 125); [|left; done].
    apply eoo_safe; [done|lia|lia|]. intros st' H' Ei Ee.
    destruct (bump_inv (set_expect S_COMMA_OR_EOO st')) as (Hb & Hbi & Hbe).
    simpl. split; [|rewrite Hbi; simpl; lia].
    apply jinv0_jinv; [|by rewrite Hbe]. by apply Hb.
Qed.

Lemma on_comma_safe c st :
  jinv st -> rd s (ji st) = Some c -> expect st = S_COMMA_OR_EOO ->
  safe (ji st) (on_comma path c st).
Proof.
  intros Hinv Hc He. pose proof (rd_Some _ _ _ Hc) as Hi. unfold on_comma.
  pose proof Hinv as (Hj & Hd & Hn & Hp & _).
  destruct (Z.leb_spec (depth st) 0); [left; done|].
  destruct (c =? 44).
  - destruct (rd_is_Some (nesting st) (depth st - 1)) as [n ->]; [lia|]. cbn [mbind option_bind].
    simpl. split; [|lia]. unfold jinv. simpl. split_and!; lia || done.
  - destruct (_ || _); [|left; done].
    destruct (path_char (pos st - 1)) as (pp & -> & _); [lia|]. cbn [mbind option_bind].
    destruct (_ && _); [left; done|]. destruct (_ && _); [left; done|].
    apply eoo_safe; [done|lia|lia|]. intros st' H' Ei Ee.
    destruct (bump_inv st') as (Hb & Hbi & Hbe).
    simpl. split; [|rewrite Hbi; lia]. apply jinv0_jinv; [by apply Hb|]. by rewrite Hbe, Ee, He.
Qed.

Lemma json_step_safe st : jinv st -> ji st < Zlen s -> safe (ji st) (json_step s path st).
Proof.
  intros Hinv Hi. unfold json_step.
  pose proof Hinv as (Hj & Hd & Hn & Hp & _).
  destruct (rd_is_Some s (ji st)) as [c Hc]; [lia|]. rewrite Hc. cbn [mbind option_bind].
  destruct (is_space c); [simpl; split; [done|lia]|].
  destruct (expect st) eqn:He.
  - by apply on_value_safe.
  - by apply on_key_safe.
  - destruct (c =? 58); [|left; done]. simpl. split; [by apply jinv_jinv0|lia].
  - by apply on_comma_safe.
Qed.

Lemma json_loop_safe fuel : forall st, jinv st -> Zlen s - ji st <= Z.of_nat fuel ->
  exists r t, json_loop s path fuel st = Some (r, t) /\ good 0 (Ret r t).
Proof.
  induction fuel as [|fuel IH]; intros st Hinv Hf; cbn [json_loop]; unfold len in *.
  { rewrite (proj2 (Z.ltb_ge _ _)) by lia. do 2 eexists. split; [done|]. by left. }
  destruct (Z.ltb_spec (ji st) (Zlen s)) as [Hlt|].
  2:{ do 2 eexists. split; [done|]. by left. }
  pose proof (json_step_safe st Hinv Hlt) as Hs.
  destruct (json_step s path st) as [[r t|st']|]; simpl in Hs |- *; [eauto| |done].
  destruct Hs as [Hinv' Hi']. apply IH; simpl; [|lia].
  destruct Hinv' as (? & ? & ? & ? & ?). unfold jinv. simpl. split_and!; lia || done.
Qed.

End Safe.

Lemma json_get_spec (s path : list Z) (Hpath : cstring path) :
  exists r t, mg_json_get s path = Some (r, t) /\
    ((r < 0 /\ t = 0) \/ (0 <= r /\ 1 <= t /\ r + t <= Zlen s)).
Proof.
  unfold mg_json_get. destruct (path_char path Hpath 0) as (c & E & _).
  { destruct Hpath as (q & -> & _). rewrite Zlen_app. change (Zlen [0]) with 1.
    pose proof (Zlen_nonneg q). lia. }
  rewrite E. cbn [mbind option_bind].
  destruct (Z.eqb_spec c 36) as [->|]; cbn [negb]; [|do 2 eexists; split; [done|by left]].
  apply (json_loop_safe s path Hpath E).
  - unfold jinv. simpl. pose proof (N_pos path Hpath E). split_and!; lia || done.
  - unfold Zlen. simpl. lia.
Qed.

(** The JSON scanner is memory safe and total: for every document and every
    terminated path, whatever bytes they hold, [mg_json_get] returns, it never reads or
    writes outside the document, the path or its 30-level nesting stack, and a
    non-negative result is the offset of a non-empty token that lies entirely inside the
    document; an error result leaves the token length 0. *)
Theorem mg_json_get_safe (s path : list Z) (Hpath : cstring path) :
  exists r t, mg_json_get s path = Some (r, t) /\
    ((r < 0 /\ t = 0) \/ (0 <= r /\ 1 <= t /\ r + t <= Zlen s)).
Proof. by apply json_get_spec. Qed.

Lemma mg_json_get_safe_witness :
  exists r t, mg_json_get str:("{,]") (str:("$.a") ++ [0]) = Some (r, t) /\
    ((r < 0 /\ t = 0) \/ (0 <= r /\ 1 <= t /\ r + t <= 3)).
Proof.
  apply (mg_json_get_safe str:("{,]") (str:("$.a") ++ [0])).
  exists str:("$.a"). split; [reflexivity|]. by apply (bool_decide_unpack _).
Defined.

(** ** Typed access *)

(** Offset and length of a token, or nothing. *)
Definition mg_json_get_tok (s path : list Z) : option mg_str :=
  '(ofs, n) ← mg_json_get s path;
  Some (if ofs <? 0 then [] else take (Z.to_nat n) (from s ofs)).

Definition mg_json_get_num (s path : list Z) : option (option spec_float) :=
  '(n, toklen) ← mg_json_get s path;
  if 0 <=? n then
    c ← rd s n;
    if (c =? 45) || is_digit c then Some (Some (fst (mg_atod (take (Z.to_nat toklen) (from s n)))))
    else Some None
  else Some None.

Definition mg_json_get_bool (s path : list Z) : option (option bool) :=
  '(off, _) ← mg_json_get s path;
  if 0 <=? off then
    c ← rd s off;
    if (c =? 116) || (c =? 102) then Some (Some (c =? 116)) else Some None
  else Some None.

(** The copying loop of [mg_json_unescape]: [false] is the early failure. *)
Fixpoint unescape_loop (fuel : nat) (s : mg_str) (to : list Z) (j : Z) : option (bool * list Z * Z) :=
  match s with
  | [] => Some (true, to, j)
  | c :: s' =>
      if j <? Zlen to then
        match fuel with
        | O => None
        | S fuel' =>
            match s' with
            | u :: x1 :: x2 :: x3 :: x4 :: s'' =>
                if (c =? 92) && (u =? 117) then
                  match mg_str_to_num [x1; x2; x3; x4] 16 1 with
                  | Some v => to ← wr to j v; unescape_loop fuel' s'' to (j + 1)
                  | None => Some (false, to, j)
                  end
                else if c =? 92 then
                  let e := json_esc u false in
                  if e =? 0 then Some (false, to, j)
                  else to ← wr to j e; unescape_loop fuel' (x1 :: x2 :: x3 :: x4 :: s'') to (j + 1)
                else to ← wr to j c; unescape_loop fuel' s' to (j + 1)
            | u :: s'' =>
                if c =? 92 then
                  let e := json_esc u false in
                  if e =? 0 then Some (false, to, j)
                  else to ← wr to j e; unescape_loop fuel' s'' to (j + 1)
                else to ← wr to j c; unescape_loop fuel' s' to (j + 1)
            | [] => to ← wr to j c; unescape_loop fuel' s' to (j + 1)
            end
        end
      else Some (true, to, j)
  end.

Definition mg_json_unescape (s : mg_str) (to : list Z) : option (bool * list Z) :=
  let n := Zlen to in
  '(ok, to, j) ← unescape_loop (length s) s to 0;
  if negb (ok : bool) then Some (false, to)
  else if n <=? j then Some (false, to)
  else to ← (if 0 <? n then wr to j 0 else Some to); Some (true, to).

(** The allocated string, when the token is a string and its escapes are well formed. *)
Definition mg_json_get_str (heap : bool) (s path : list Z) : option (option (list Z)) :=
  '(off, n) ← mg_json_get s path;
  if (0 <=? off) && (1 <? n) then
    c ← rd s off;
    if (c =? 34) && heap then
      '(ok, r) ← mg_json_unescape (take (Z.to_nat (n - 2)) (from s (off + 1)))
                   (replicate (Z.to_nat n) 0);
      Some (if (ok : bool) then Some r else None)
    else Some None
  else Some None.

Definition mg_json_get_b64 (heap : bool) (s path : list Z) : option (option (list Z * Z)) :=
  '(off, n) ← mg_json_get s path;
  if (0 <=? off) && (1 <? n) then
    c ← rd s off;
    if (c =? 34) && heap then
      r ← mg_base64_decode (take (Z.to_nat (n - 2)) (from s (off + 1))) (replicate (Z.to_nat n) 0);
      Some (Some r)
    else Some None
  else Some None.

(** Pairs of hexadecimal digits; a malformed pair leaves its byte alone. *)
Fixpoint hex_loop (fuel : nat) (s : list Z) (ofs i n : Z) (r : list Z) : option (list Z) :=
  if i <? n - 2 then
    match fuel with
    | O => None
    | S fuel' =>
        d0 ← rd s (ofs + 1 + i); d1 ← rd s (ofs + 1 + i + 1);
        r ← (match mg_str_to_num [d0; d1] 16 1 with
             | Some v => wr r (Z.shiftr i 1) v
             | None => Some r
             end);
        hex_loop fuel' s ofs (i + 2) n r
    end
  else Some r.

Definition mg_json_get_hex (heap : bool) (s path : list Z) : option (option (list Z * Z)) :=
  '(off, n) ← mg_json_get s path;
  if (0 <=? off) && (1 <? n) then
    c ← rd s off;
    if (c =? 34) && heap then
      r ← hex_loop (Z.to_nat n) s off 0 n (replicate (Z.to_nat (n / 2)) 0);
      r ← wr r (n / 2 - 1) 0;
      Some (Some (r, n / 2 - 1))
    else Some None
  else Some None.

(** Conversion of a double to a 32-bit [long]: truncation; out of range (undefined in C)
    has no value. *)
Definition long_of_f64 (d : spec_float) : option Z :=
  match d with
  | S754_zero _ => Some 0
  | S754_finite sg m e =>
      let a := if 0 <=? e then Z.shiftl (Zpos m) e else Z.shiftr (Zpos m) (- e) in
      let v := if sg then - a else a in
      if (- 2 ^ 31 <=? v) && (v <? 2 ^ 31) then Some v else None
  | _ => None
  end.

Definition mg_json_get_long (s path : list Z) (dflt : Z) : option Z :=
  d ← mg_json_get_num s path;
  match d with Some dv => long_of_f64 dv | None => Some dflt end.

(** ** Iteration *)

Definition dollar : list Z := [36; 0].

Fixpoint skip_to_colon (s : list Z) : list Z :=
  match s with
  | c :: s' => if c =? 58 then s else skip_to_colon s'
  | [] => []
  end.

Fixpoint skip_space (s : list Z) : list Z :=
  match s with
  | c :: s' => if is_space c then skip_space s' else s
  | [] => []
  end.

(** Find the next token of [sub]: its offset and length when it lies inside. *)
Definition next_tok (sub : list Z) : option (option (Z * Z)) :=
  '(o, n) ← mg_json_get sub dollar;
  Some (if (n <? 0) || (o <? 0) || (Zlen sub <? o + n) then None else Some (o, n)).

(** [mg_json_next]: the new offset, the key and the value; what the code leaves unwritten
    when it stops (offset 0) is given as empty. *)
Definition mg_json_next (obj : mg_str) (ofs : Z) : option (Z * mg_str * mg_str) :=
  if Zlen obj <=? ofs then Some (0, [], [])
  else
    match obj with
    | c :: _ =>
        if (Zlen obj <? 2) || (negb (c =? 123) && negb (c =? 91)) then Some (0, [], [])
        else
          let sub := from obj (if ofs =? 0 then 1 else ofs) in
          t ← next_tok sub;
          '(rest, key, val) ←
            (match t with
             | None => Some (None, [], [])
             | Some (o, n) =>
                 let tok := take (Z.to_nat n) (from sub o) in
                 let after := from sub (o + n) in
                 if c =? 91 then Some (Some after, [], tok)
                 else
                   let sub2 := tail (skip_to_colon after) in
                   t2 ← next_tok sub2;
                   match t2 with
                   | None => Some (None, tok, [])
                   | Some (o2, n2) =>
                       Some (Some (from sub2 (o2 + n2)), tok, take (Z.to_nat n2) (from sub2 o2))
                   end
             end);
          match rest with
          | None => Some (0, key, val)
          | Some r =>
              let r := skip_space r in
              let r := match r with x :: r' => if x =? 44 then r' else r | [] => [] end in
              Some (Zlen obj - Zlen r, key, val)
          end
    | [] => Some (0, [], [])
    end.

Example json_str_ex :
  mg_json_get_str true ([123; 34; 107; 34; 58; 34] ++ str:("a\u0041\n") ++ [34; 125]) (str:("$.k") ++ [0]) =
  Some (Some (str:("aA") ++ [10; 0; 0; 0; 0; 0; 0; 0; 0])).
Proof. reflexivity. Qed.

Lemma dollar_cstring : cstring dollar.
Proof. exists [36]. split; [done|]. by apply (bool_decide_unpack _). Qed.

Lemma next_tok_spec sub :
  exists t, next_tok sub = Some t /\
    match t with Some (o, n) => 0 <= o /\ 1 <= n /\ o + n <= Zlen sub | None => True end.
Proof.
  unfold next_tok. destruct (json_get_spec sub dollar dollar_cstring) as (r & t & -> & H).
  cbn [mbind option_bind]. eexists. split; [done|].
  destruct (_ || _) eqn:E; [done|]. zbool. destruct H as [[? ?]|?]; lia.
Qed.

Lemma skip_to_colon_len s : Zlen (skip_to_colon s) <= Zlen s.
Proof.
  induction s as [|c s IH]; simpl; [lia|]. destruct (c =? 58); rewrite ?Zlen_cons in *; lia.
Qed.

Lemma tail_len (s : list Z) : Zlen (tail s) <= Zlen s.
Proof. destruct s; simpl; [lia|]. rewrite Zlen_cons. lia. Qed.

Lemma skip_space_len s : Zlen (skip_space s) <= Zlen s.
Proof.
  induction s as [|c s IH]; simpl; [lia|]. destruct (is_space c); rewrite ?Zlen_cons in *; lia.
Qed.

(** Iterating over a JSON object or array terminates: for every text and every
    offset [mg_json_next] returns, without reading outside the text, either 0 (stop) or
    an offset strictly after the given one and not beyond the end, so a loop that feeds
    the result back runs at most as many times as the text has bytes. *)
Theorem mg_json_next_progress (obj : mg_str) (ofs : Z) (Hofs : 0 <= ofs) :
  exists ofs' key val, mg_json_next obj ofs = Some (ofs', key, val) /\
    (ofs' = 0 \/ ofs < ofs' <= Zlen obj).
Proof.
  unfold mg_json_next. destruct (Z.leb_spec (Zlen obj) ofs) as [|Hlt]; [eauto 6|].
  destruct obj as [|c obj]; [eauto 6|]. destruct (_ || _) eqn:Eobj; [eauto 6|].
  zbool. set (o := c :: obj) in *. clearbody o. clear obj.
  set (start := if ofs =? 0 then 1 else ofs).
  assert (ofs <= start /\ 1 <= start <= Zlen o) as Hst
    by (subst start; destruct (Z.eqb_spec ofs 0); lia).
  clearbody start.
  assert (forall (l : list Z) i, 0 <= i <= Zlen l -> Zlen (from l i) = Zlen l - i) as Hfrom
    by (intros; by apply from_len).
  destruct (next_tok_spec (from o start)) as (t & -> & Ht). cbn [mbind option_bind].
  assert (forall r : list Z, Zlen r < Zlen o - ofs ->
    let r1 := skip_space r in
    let r2 := match r1 with x :: r' => if x =? 44 then r' else r1 | [] => [] end in
    ofs < Zlen o - Zlen r2 <= Zlen o) as Hrest.
  { intros r Hr r1 r2. assert (Zlen r1 <= Zlen r) by apply skip_space_len.
    assert (Zlen r2 <= Zlen r1) by (subst r2; destruct r1 as [|x r1]; [done|];
      destruct (x =? 44); rewrite ?Zlen_cons; lia).
    pose proof (Zlen_nonneg r2). lia. }
  destruct t as [[o1 n1]|]; [|cbn [mbind option_bind]; eauto 6].
  rewrite Hfrom in Ht by lia.
  destruct (c =? 91).
  - cbn [mbind option_bind]. do 3 eexists. split; [done|]. right. apply Hrest.
    rewrite Hfrom; rewrite ?Hfrom; lia.
  - set (sub2 := tail (skip_to_colon (from (from o start) (o1 + n1)))).
    assert (Zlen sub2 <= Zlen o - start - (o1 + n1)) as Hs2.
    { subst sub2. etransitivity; [apply tail_len|]. etransitivity; [apply skip_to_colon_len|].
      rewrite Hfrom; rewrite ?Hfrom; lia. }
    destruct (next_tok_spec sub2) as (t2 & -> & Ht2). cbn [mbind option_bind].
    destruct t2 as [[o2 n2]|]; cbn [mbind option_bind]; [|eauto 6].
    do 3 eexists. split; [done|]. right. apply Hrest. rewrite Hfrom by lia. lia.
Qed.

Lemma mg_json_next_progress_witness :
  exists ofs' key val, mg_json_next str:("[1, 22]") 4 = Some (ofs', key, val) /\
    (ofs' = 0 \/ 4 < ofs' <= 7).
Proof. apply (mg_json_next_progress str:("[1, 22]") 4). lia. Defined.

Example json_next_ex : mg_json_next str:("[1, 22]") 3 = Some (6, [], str:("22")).
Proof. reflexivity. Qed.

(** ** Unescaping *)

Lemma unescape_loop_safe fuel : forall s to j,
  (length s <= fuel)%nat -> 0 <= j <= Zlen to ->
  exists ok to' j', unescape_loop fuel s to j = Some (ok, to', j') /\ Zlen to' = Zlen to /\
    j <= j' <= j + Zlen s /\ j' <= Zlen to.
Proof.
  induction fuel as [|fuel IH]; intros s to j Hf Hj.
  { destruct s; [|simpl in Hf; lia]. do 3 eexists. split_and!; [done|done|lia|unfold Zlen; simpl; lia|lia]. }
  destruct s as [|c s]; [do 3 eexists; split_and!; [done|done|lia|unfold Zlen; simpl; lia|lia]|].
  assert (forall v s' ,(length s' <= length s)%nat -> j < Zlen to ->
    exists ok to' j', (to ← wr to j v; unescape_loop fuel s' to (j + 1)) = Some (ok, to', j') /\
      Zlen to' = Zlen to /\ j <= j' <= j + Zlen (c :: s) /\ j' <= Zlen to) as Hrec.
  { intros v s' Hs' Hlt. destruct (wr_is_Some to j v) as [t E]; [lia|]. rewrite E.
    cbn [mbind option_bind]. apply wr_Zlen in E. simpl in Hf.
    destruct (IH s' t (j + 1)) as (ok & to' & j' & -> & H1 & H2 & H3); [lia|lia|].
    exists ok, to', j'. rewrite Zlen_cons. unfold Zlen in *. split_and!; [done|lia..]. }
  assert (exists ok to' j', Some (true, to, j) = Some (ok, to', j') /\
      Zlen to' = Zlen to /\ j <= j' <= j + Zlen (c :: s) /\ j' <= Zlen to) as Hstop.
  { exists true, to, j. rewrite Zlen_cons. pose proof (Zlen_nonneg s). split_and!; [done|done|lia..]. }
  assert (exists ok to' j', Some (false, to, j) = Some (ok, to', j') /\
      Zlen to' = Zlen to /\ j <= j' <= j + Zlen (c :: s) /\ j' <= Zlen to) as Hfail.
  { exists false, to, j. rewrite Zlen_cons. pose proof (Zlen_nonneg s). split_and!; [done|done|lia..]. }
  cbn [unescape_loop]. destruct (Z.ltb_spec j (Zlen to)) as [Hlt|]; [|exact Hstop].
  destruct s as [|u [|x1 [|x2 [|x3 [|x4 s]]]]];
    repeat (match goal with
            | |- context [mg_str_to_num ?a ?b ?n] => destruct (mg_str_to_num a b n)
            | |- context [if ?b then _ else _] => destruct b
            end);
    try exact Hfail; try exact Hstop; apply Hrec; simpl; lia.
Qed.

(** Unescaping a JSON string is memory safe for every text and every destination: it
    never writes outside the destination, and when it reports success the result is
    terminated inside it; a destination longer than the text is always large enough. *)
Theorem mg_json_unescape_safe (s : mg_str) (to : list Z) :
  exists ok to', mg_json_unescape s to = Some (ok, to') /\ Zlen to' = Zlen to /\
    (ok = true -> exists j, 0 <= j < Zlen to /\ j <= Zlen s /\ rd to' j = Some 0).
Proof.
  unfold mg_json_unescape.
  destruct (unescape_loop_safe (length s) s to 0) as (ok & to' & j & -> & Hl & Hj & Hj2);
    [lia|pose proof (Zlen_nonneg to); lia|].
  cbn [mbind option_bind]. destruct ok; cbn [negb]; [|exists false, to'; done].
  destruct (Z.leb_spec (Zlen to) j); [exists false, to'; done|].
  rewrite (proj2 (Z.ltb_lt 0 _)) by lia.
  destruct (wr_is_Some to' j 0) as [t E]; [lia|]. rewrite E. cbn [mbind option_bind].
  do 2 eexists. split_and!; [done|by apply wr_Zlen in E; lia|].
  intros _. exists j. split_and!; [lia..|]. by eapply rd_wr_eq.
Qed.
