(* ===== verification/JsonStream.v ===== *)
(** * JsonStream: reading a configuration as a stream of characters (src/json_stream.cpp,
    src/json_stream.hpp)

    The source of the characters (DataSource) and the parser (lwjson) are libraries: the source is
    an interface with its laws, the parser a step function on a state of its own that also says
    whether the callback of the caller accepted what it was given.  [None] is a write behind the
    line buffer of 128 bytes on the stack. *)

From S2P Require Import Prelude.

(** ** The data source *)

(** Operations, and what they do to the characters that are left. *)
Class DataSource (D : Type) := {
  HasNext : D -> bool;
  Next : D -> Z * D;
  Position : D -> Z;
  Rewind : D -> D;
  ds_bytes : D -> list Z;
}.

Class DataSourceLaws (D : Type) `{DataSource D} := {
  ds_pos d : 0 <= Position d <= Zlen (ds_bytes d);
  ds_has_next d : HasNext d = (Position d <? Zlen (ds_bytes d));
  ds_next d c : rd (ds_bytes d) (Position d) = Some c ->
    fst (Next d) = c /\ ds_bytes (snd (Next d)) = ds_bytes d /\ Position (snd (Next d)) = Position d + 1;
  ds_rewind d : ds_bytes (Rewind d) = ds_bytes d /\ Position (Rewind d) = 0;
}.

(** A buffer with a position. *)
Record cursor := Cursor { cbytes : list Z; cpos : nat }.

#[export] Instance cursor_source : DataSource cursor := {
  HasNext d := Nat.ltb (cpos d) (length (cbytes d));
  Next d := (default 0 (cbytes d !! cpos d), Cursor (cbytes d) (if Nat.ltb (cpos d) (length (cbytes d)) then S (cpos d) else cpos d));
  Position d := Z.of_nat (Nat.min (cpos d) (length (cbytes d)));
  Rewind d := Cursor (cbytes d) 0;
  ds_bytes := cbytes;
}.

#[export] Instance cursor_laws : DataSourceLaws cursor.
Proof.
  split; cbn [HasNext Next Position Rewind ds_bytes cursor_source fst snd].
  - intros d. unfold Zlen. lia.
  - intros d. unfold Zlen. destruct (Nat.ltb_spec (cpos d) (length (cbytes d))).
    + symmetry. apply Z.ltb_lt. lia.
    + symmetry. apply Z.ltb_ge. lia.
  - intros d c Hc. pose proof (rd_Some _ _ _ Hc) as Hr. unfold rd, Zlen in *. rewrite (proj2 (Z.leb_le _ _)) in Hc by lia.
    replace (Z.to_nat (Z.of_nat (Nat.min (cpos d) (length (cbytes d))))) with (cpos d) in Hc by lia. rewrite Hc.
    rewrite (proj2 (Nat.ltb_lt _ _)) by lia. split_and!; try done. cbn [cpos cbytes]. lia.
  - done.
Qed.

(** ** The operations *)

Inductive lwjsonr :=
  | lwjsonOK | lwjsonERR | lwjsonERRJSON | lwjsonERRMEM | lwjsonERRPAR
  | lwjsonSTREAMWAITFIRSTCHAR | lwjsonSTREAMDONE | lwjsonSTREAMINPROG.

Definition IsError (res : lwjsonr) : bool :=
  match res with lwjsonERR | lwjsonERRJSON | lwjsonERRMEM | lwjsonERRPAR => true | _ => false end.

(** [strchr (" \t\r\n", c) != nullptr]: also true of the terminator. *)
Definition is_ws (c : Z) : bool := existsb (Z.eqb c) [32; 9; 13; 10; 0].

Definition LINE_BUF : Z := 128.

(** [line_buf[line_pos++] = c]; the line is what is in the buffer so far. *)
Definition push (line : list Z) (c : Z) : option (list Z) :=
  if Zlen line <? LINE_BUF then Some (line ++ [c]) else None.

Fixpoint push_all (line cs : list Z) : option (list Z) :=
  match cs with [] => Some line | c :: cs => line ← push line c; push_all line cs end.

Definition ERROR_MARK : list Z := str:("<ERROR>").
Definition SPLIT_MARK : list Z := str:("<SPLIT>").
Definition NL : Z := 10.

(** One character: the buffer after it and the line that is logged. *)
Definition log_char (line : list Z) (c : Z) (at_error more : bool) : option (list Z * option (list Z)) :=
  line ← (if negb (c =? NL) then push line c else Some line);
  line ← (if at_error then push_all line ERROR_MARK else Some line);
  let split_line := LINE_BUF - 7 <=? Zlen line in
  line ← (if split_line then push_all line SPLIT_MARK else Some line);
  Some (if (c =? NL) || negb more || split_line then ([], Some line) else (line, None)).

Section Source.
Context {D : Type} `{DataSourceLaws D}.

(** The loops over the source; out of fuel they stop. *)
Fixpoint only_ws (fuel : nat) (d : D) : bool :=
  match fuel with
  | O => true
  | S fuel => if HasNext d then let '(c, d) := Next d in if is_ws c then only_ws fuel d else false else true
  end.

Definition ds_fuel (d : D) : nat := length (ds_bytes d).

Definition OnlyWhitespaceRemaining (d : D) : bool := only_ws (ds_fuel d) d.

Fixpoint log_loop (fuel : nat) (d : D) (error_pos : Z) (line : list Z) : option (list (list Z)) :=
  match fuel with
  | O => Some []
  | S fuel =>
      if HasNext d then
        let '(c, d) := Next d in
        '(line, out) ← log_char line c (Position d =? error_pos) (HasNext d);
        rest ← log_loop fuel d error_pos line;
        Some (match out with Some l => l :: rest | None => rest end)
      else Some []
  end.

(** The lines that are logged. *)
Definition LogErrorPosition (d : D) : option (list (list Z)) :=
  log_loop (ds_fuel d) (Rewind d) (Position d) [].

Section Process.
(** The parser: a step gives the result and whether the callback, if it was called, accepted. *)
Context {P : Type} (stream_init : P) (stream_parse : P -> Z -> P * lwjsonr * bool).

(** [data.failed] is set by the callback. *)
Fixpoint process_loop (fuel : nat) (d : D) (p : P) (failed : bool) : option bool :=
  match fuel with
  | O => _ ← LogErrorPosition d; Some true
  | S fuel =>
      if HasNext d then
        let '(c, d) := Next d in
        let '(p, res, ok) := stream_parse p c in
        let failed := failed || negb ok in
        match res with
        | lwjsonSTREAMDONE => if OnlyWhitespaceRemaining d then Some true else _ ← LogErrorPosition d; Some false
        | _ =>
            if failed then _ ← LogErrorPosition d; Some false
            else if IsError res then _ ← LogErrorPosition d; Some false
            else process_loop fuel d p failed
        end
      else _ ← LogErrorPosition d; Some true
  end.

Definition ProcessJson (d : D) (failed : bool) : option bool :=
  process_loop (S (ds_fuel d)) (Rewind d) stream_init failed.
End Process.
End Source.

(** ** The values *)

Inductive lwjson_type := T_TRUE | T_FALSE | T_NUMBER | T_OTHER.

(** The value if the type fits. *)
Definition JsonGetBool (type : lwjson_type) : option bool :=
  match type with T_TRUE => Some true | T_FALSE => Some false | _ => None end.

(** [to_arithmetic] of the library on the text of the number. *)
Definition JsonGetNumber (to_arithmetic : list Z -> option Z) (type : lwjson_type) (buff : list Z) : option Z :=
  match type with T_NUMBER => to_arithmetic buff | _ => None end.

(** ** On the list of characters *)

Lemma push_all_spec cs : forall line, Zlen line <= LINE_BUF ->
  push_all line cs = if Zlen line + Zlen cs <=? LINE_BUF then Some (line ++ cs) else None.
Proof.
  induction cs as [|c cs IH]; intros line Hl; cbn [push_all].
  - rewrite Zlen_nil, app_nil_r. by ztests.
  - rewrite Zlen_cons. pose proof (Zlen_nonneg cs). unfold push. destruct (Z.ltb_spec (Zlen line) LINE_BUF); cbn [mbind option_bind].
    + rewrite IH by (rewrite Zlen_app; change (Zlen [c]) with 1; lia). rewrite Zlen_app, <- app_assoc. change (Zlen [c]) with 1.
      replace (Zlen line + 1 + Zlen cs) with (Zlen line + (Zlen cs + 1)) by lia. done.
    + by ztests.
Qed.

(** The column behind a character, and the column the next one starts from. *)
Definition col_behind (col c : Z) : Z := if c =? NL then col else col + 1.
Definition col_next (col c : Z) : Z :=
  if (c =? NL) || (LINE_BUF - 7 <=? col_behind col c) then 0 else col_behind col c.

(** The column behind the last character of [l], from column [col]. *)
Fixpoint column (col : Z) (l : list Z) : Z :=
  match l with [] => col | [c] => col_behind col c | c :: r => column (col_next col c) r end.

Lemma log_char_plain line c more : Zlen line <= LINE_BUF - 8 ->
  exists line' out, log_char line c false more = Some (line', out) /\ (more = true -> Zlen line' = col_next (Zlen line) c) /\
    Zlen line' <= LINE_BUF - 8.
Proof.
  intros Hl. unfold log_char, col_next, col_behind, push. change SPLIT_MARK with [60; 83; 80; 76; 73; 84; 62]. unfold LINE_BUF in *.
  pose proof (Zlen_nonneg line). destruct (c =? NL); cbn [negb mbind option_bind orb].
  - ztests. do 2 eexists. split; [done|]. rewrite Zlen_nil. lia.
  - rewrite (proj2 (Z.ltb_lt _ _)) by lia. cbn [mbind option_bind]. rewrite Zlen_app. change (Zlen [c]) with 1.
    destruct (Z.leb_spec (128 - 7) (Zlen line + 1)) as [Hs|Hs].
    + rewrite push_all_spec; rewrite Zlen_app; change (Zlen [c]) with 1; unfold LINE_BUF; [|lia].
      change (Zlen [60; 83; 80; 76; 73; 84; 62]) with 7. ztests. cbn [mbind option_bind]. rewrite !orb_true_r.
      do 2 eexists. split; [done|]. rewrite Zlen_nil. lia.
    + cbn [mbind option_bind]. destruct more; cbn [negb orb]; do 2 eexists; (split; [done|]).
      * rewrite Zlen_app. change (Zlen [c]) with 1. split; [done|lia].
      * rewrite Zlen_nil. split; [done|lia].
Qed.

Lemma log_char_error line c more : Zlen line <= LINE_BUF - 8 ->
  if LINE_BUF - 14 <? col_behind (Zlen line) c then log_char line c true more = None
  else exists line' out, log_char line c true more = Some (line', out) /\ Zlen line' <= LINE_BUF - 8.
Proof.
  intros Hl. unfold log_char, col_behind, push. unfold LINE_BUF in *. pose proof (Zlen_nonneg line).
  set (l1 := if c =? NL then line else line ++ [c]).
  assert ((if negb (c =? NL) then if Zlen line <? 128 then Some (line ++ [c]) else None else Some line) = Some l1) as ->.
  { unfold l1. destruct (c =? NL); cbn; [done|]. by ztests. }
  assert (Zlen l1 = if c =? NL then Zlen line else Zlen line + 1) as <-.
  { unfold l1. destruct (c =? NL); [done|]. by rewrite Zlen_app. }
  assert (0 <= Zlen l1 <= 121) as H1.
  { unfold l1. destruct (c =? NL); rewrite ?Zlen_app; [|change (Zlen [c]) with 1]; lia. }
  clearbody l1. cbn [mbind option_bind]. rewrite push_all_spec by (unfold LINE_BUF; lia).
  change (Zlen ERROR_MARK) with 7. unfold LINE_BUF. rewrite (proj2 (Z.leb_le _ _)) by lia. cbn [mbind option_bind].
  rewrite Zlen_app. change (Zlen ERROR_MARK) with 7.
  destruct (Z.leb_spec (128 - 7) (Zlen l1 + 7)) as [Hs|Hs].
  - rewrite push_all_spec; rewrite Zlen_app; change (Zlen ERROR_MARK) with 7; unfold LINE_BUF; [|lia].
    change (Zlen SPLIT_MARK) with 7. destruct (Z.ltb_spec (128 - 14) (Zlen l1)); ztests; cbn [mbind option_bind]; [done|].
    rewrite !orb_true_r. do 2 eexists. split; [done|]. rewrite Zlen_nil. lia.
  - rewrite (proj2 (Z.ltb_ge _ _)) by lia. cbn [mbind option_bind]. destruct ((c =? NL) || negb more || false); do 2 eexists; (split; [done|]).
    + rewrite Zlen_nil. lia.
    + rewrite Zlen_app. change (Zlen ERROR_MARK) with 7. lia.
Qed.

Fixpoint log_list (l : list Z) (p e : Z) (line : list Z) : option (list (list Z)) :=
  match l with
  | [] => Some []
  | c :: r =>
      '(line, out) ← log_char line c (p + 1 =? e) (match r with [] => false | _ => true end);
      rest ← log_list r (p + 1) e line;
      Some (match out with Some o => o :: rest | None => rest end)
  end.

(** Behind the error nothing can overflow. *)
Lemma log_list_after l : forall p e line, e <= p -> Zlen line <= LINE_BUF - 8 -> is_Some (log_list l p e line).
Proof.
  induction l as [|c r IH]; intros p e line Hp Hl; cbn [log_list]; [by eexists|].
  rewrite (proj2 (Z.eqb_neq (p + 1) e)) by lia.
  destruct (log_char_plain line c (match r with [] => false | _ => true end) Hl) as (line' & out & -> & _ & Hl'). cbn [mbind option_bind].
  destruct (IH (p + 1) e line') as [rest ->]; [lia|done|]. by eexists.
Qed.

Lemma log_list_spec l : forall p e line, p < e -> Zlen line <= LINE_BUF - 8 ->
  log_list l p e line = None <-> e - p <= Zlen l /\ LINE_BUF - 14 < column (Zlen line) (take (Z.to_nat (e - p)) l).
Proof.
  induction l as [|c r IH]; intros p e line Hp Hl; cbn [log_list].
  { rewrite Zlen_nil. split; [done|lia]. }
  rewrite Zlen_cons. pose proof (Zlen_nonneg r). destruct (Z.eqb_spec (p + 1) e) as [He|He].
  - replace (Z.to_nat (e - p)) with 1%nat by lia. change (column (Zlen line) (take 1 (c :: r))) with (col_behind (Zlen line) c).
    pose proof (log_char_error line c (match r with [] => false | _ => true end) Hl) as Hc.
    destruct (Z.ltb_spec (LINE_BUF - 14) (col_behind (Zlen line) c)).
    + rewrite Hc. cbn [mbind option_bind]. split; [intros _; lia|done].
    + destruct Hc as (line' & out & -> & Hl'). cbn [mbind option_bind].
      destruct (log_list_after r (p + 1) e line') as [rest ->]; [lia|done|]. cbn [mbind option_bind]. split; [done|lia].
  - destruct (log_char_plain line c (match r with [] => false | _ => true end) Hl) as (line' & out & -> & Hcol & Hl'). cbn [mbind option_bind].
    specialize (IH (p + 1) e line' ltac:(lia) Hl').
    assert (log_list r (p + 1) e line' = None <-> e - p <= Zlen r + 1 /\ LINE_BUF - 14 < column (Zlen line) (take (Z.to_nat (e - p)) (c :: r))) as <-.
    { rewrite IH. destruct r as [|c2 r]; [rewrite Zlen_nil in *; lia|]. rewrite Hcol by done.
      replace (Z.to_nat (e - p)) with (S (S (Z.to_nat (e - (p + 2))))) by lia.
      replace (Z.to_nat (e - (p + 1))) with (S (Z.to_nat (e - (p + 2)))) by lia. rewrite !firstn_cons. cbn [column].
      split; intros [? ?]; (split; [lia|done]). }
    destruct (log_list r (p + 1) e line'); cbn; split; done.
Qed.

Section SourceSpec.
Context {D : Type} `{DataSourceLaws D}.

Definition remaining (d : D) : list Z := drop (Z.to_nat (Position d)) (ds_bytes d).

Lemma next_cases d : match remaining d with
  | [] => HasNext d = false
  | c :: r => HasNext d = true /\ fst (Next d) = c /\ remaining (snd (Next d)) = r /\
              ds_bytes (snd (Next d)) = ds_bytes d /\ Position (snd (Next d)) = Position d + 1
  end.
Proof.
  pose proof (ds_pos d) as Hp. rewrite ds_has_next. unfold remaining. unfold Zlen in *.
  destruct (drop (Z.to_nat (Position d)) (ds_bytes d)) as [|c r] eqn:E.
  - apply Z.ltb_ge. apply (f_equal length) in E. rewrite length_drop in E. cbn in E. lia.
  - assert (ds_bytes d !! Z.to_nat (Position d) = Some c) as Hc
      by (rewrite <- (Nat.add_0_r (Z.to_nat _)), <- lookup_drop, E; done).
    destruct (ds_next d c) as (E1 & E2 & E3); [unfold rd; by rewrite (proj2 (Z.leb_le _ _)) by lia|].
    split; [|rewrite E2, E3; split_and!; try done].
    + apply Z.ltb_lt. apply lookup_lt_Some in Hc. lia.
    + replace (Z.to_nat (Position d + 1)) with (Z.to_nat (Position d) + 1)%nat by lia. rewrite <- drop_drop, E. done.
Qed.

Lemma only_ws_spec fuel : forall d, (length (remaining d) <= fuel)%nat -> only_ws fuel d = forallb is_ws (remaining d).
Proof.
  induction fuel as [|fuel IH]; intros d Hf; cbn [only_ws].
  { by destruct (remaining d); [|cbn in Hf; lia]. }
  pose proof (next_cases d) as Hn. destruct (remaining d) as [|c r]; [by rewrite Hn|].
  destruct Hn as (-> & E1 & E2 & _). destruct (Next d) as [c' d']. cbn in E1, E2, Hf |- *. subst c'.
  rewrite <- E2. rewrite IH by (rewrite E2; lia). by destruct (is_ws c).
Qed.

Lemma log_loop_spec fuel : forall d e line, (length (remaining d) <= fuel)%nat ->
  log_loop fuel d e line = log_list (remaining d) (Position d) e line.
Proof.
  induction fuel as [|fuel IH]; intros d e line Hf; cbn [log_loop].
  { by destruct (remaining d); [|cbn in Hf; lia]. }
  pose proof (next_cases d) as Hn. destruct (remaining d) as [|c r]; [by rewrite Hn|].
  destruct Hn as (-> & E1 & E2 & E3 & E4). destruct (Next d) as [c' d']. cbn in E1, E2, E3, E4, Hf |- *. subst c'. rewrite E4.
  pose proof (next_cases d') as Hn'. rewrite E2 in Hn'.
  assert (HasNext d' = match r with [] => false | _ => true end) as -> by (destruct r; [done|by destruct Hn']).
  destruct (log_char _ _ _ _) as [[line' out]|]; [|done]. cbn [mbind option_bind].
  rewrite IH by (rewrite E2; lia). by rewrite E2, E4.
Qed.

Lemma remaining_len d : (length (remaining d) <= ds_fuel d)%nat.
Proof. unfold remaining, ds_fuel. rewrite length_drop. lia. Qed.

Lemma remaining_rewind d : remaining (Rewind d) = ds_bytes d.
Proof. destruct (ds_rewind d) as [E1 E2]. unfold remaining. rewrite E1, E2. done. Qed.

Lemma OnlyWhitespaceRemaining_spec d : OnlyWhitespaceRemaining d = forallb is_ws (remaining d).
Proof. apply only_ws_spec, remaining_len. Qed.

(** When the error report overruns its line buffer.  For every document and error position,
    [LogErrorPosition] writes behind the 128 bytes of its buffer exactly if the error is at a
    character of the document at which the current output line - broken at line ends and after 121
    characters - has reached column 115 or more: then the error mark and the split mark do not both fit. *)
Theorem log_error_overrun (d : D) :
  LogErrorPosition d = None <->
  0 < Position d /\ LINE_BUF - 14 < column 0 (take (Z.to_nat (Position d)) (ds_bytes d)).
Proof.
  unfold LogErrorPosition. rewrite log_loop_spec.
  - rewrite remaining_rewind. destruct (ds_rewind d) as [_ ->]. pose proof (ds_pos d) as Hp.
    destruct (Z.eq_dec (Position d) 0) as [E|E].
    + rewrite E. destruct (log_list_after (ds_bytes d) 0 0 []) as [x ->]; [lia|by vm_compute|]. split; [done|lia].
    + rewrite log_list_spec by (lia || by vm_compute). rewrite Z.sub_0_r, Zlen_nil. split; intros [? ?]; split; done || lia.
  - rewrite remaining_rewind. done.
Qed.
End SourceSpec.

(** ** Which documents are accepted *)

Definition is_done (res : lwjsonr) : bool := match res with lwjsonSTREAMDONE => true | _ => false end.

Section Accept.
Context {P : Type} (stream_init : P) (stream_parse : P -> Z -> P * lwjsonr * bool).

(** The parser takes the characters of [l] without an end, an error or a refusal. *)
Fixpoint clean (p : P) (l : list Z) : option P :=
  match l with
  | [] => Some p
  | c :: r => let '(p, res, ok) := stream_parse p c in if ok && negb (IsError res) && negb (is_done res) then clean p r else None
  end.

(** It comes to the end of the document, with white space behind it. *)
Definition complete (p : P) (l : list Z) : Prop :=
  exists a c r p1 p2 ok, l = a ++ c :: r /\ clean p a = Some p1 /\ stream_parse p1 c = (p2, lwjsonSTREAMDONE, ok) /\
    forallb is_ws r = true.

Lemma complete_cons p c r : complete p (c :: r) <->
  let '(p', res, ok) := stream_parse p c in
  if is_done res then forallb is_ws r = true else ok && negb (IsError res) = true /\ complete p' r.
Proof.
  destruct (stream_parse p c) as [[p' res] ok] eqn:E. split.
  - intros ([|c0 a] & c1 & r1 & p1 & p2 & ok1 & El & Hc & Hp & Hw); cbn in El, Hc; simplify_eq.
    + rewrite E in Hp. simplify_eq. cbn. done.
    + rewrite E in Hc. destruct (ok && negb (IsError res)) eqn:E2; [|done]. cbn in Hc. destruct (is_done res); [done|].
      split; [done|]. by exists a, c1, r1, p1, p2, ok1.
  - destruct (is_done res) eqn:Ed.
    + intros Hw. destruct res; try done. by exists [], c, r, p, p', ok.
    + intros [E2 (a & c1 & r1 & p1 & p2 & ok1 & -> & Hc & Hp & Hw)]. exists (c :: a), c1, r1, p1, p2, ok1. cbn. rewrite E, E2, Ed. done.
Qed.

Lemma complete_nil p : ~ complete p [].
Proof. intros (a & c & r & ? & ? & ? & E & _). by destruct a. Qed.

Context {D : Type} `{DataSourceLaws D}.

(** Whether the error report at the end of the source stays in its buffer. *)
Definition report_fits (l : list Z) : Prop := column 0 l <= LINE_BUF - 14.

Lemma report_end (d : D) : remaining d = [] -> LogErrorPosition d <> None <-> report_fits (ds_bytes d).
Proof.
  intros E. rewrite log_error_overrun. unfold report_fits. pose proof (ds_pos d) as Hp.
  apply (f_equal length) in E. unfold remaining in E. rewrite length_drop in E. cbn in E. unfold Zlen in Hp.
  rewrite firstn_all2 by lia. destruct (Z.eq_dec (Position d) 0) as [E0|E0].
  - assert (ds_bytes d = []) as -> by (apply length_zero_iff_nil; lia). cbn. split; [vm_compute; congruence|lia].
  - lia.
Qed.

Lemma process_loop_spec fuel : forall (d : D) p, (length (remaining d) < fuel)%nat ->
  process_loop stream_parse fuel d p false = Some true <->
  complete p (remaining d) \/ (is_Some (clean p (remaining d)) /\ report_fits (ds_bytes d)).
Proof.
  induction fuel as [|fuel IH]; intros d p Hf; [lia|]. cbn [process_loop].
  pose proof (next_cases d) as Hn. destruct (remaining d) as [|c r] eqn:Er.
  { rewrite Hn. rewrite <- (report_end d Er). cbn. destruct (LogErrorPosition d); cbn; split.
    - intros _. right. split; [by eexists|done].
    - done.
    - done.
    - intros [H1|[_ H1]]; [by apply complete_nil in H1|done]. }
  destruct Hn as (-> & E1 & E2 & E3 & E4). destruct (Next d) as [c' d']. cbn in E1, E2, E3, E4. subst c'.
  rewrite complete_cons. cbn [clean]. destruct (stream_parse p c) as [[p' res] ok] eqn:E.
  assert (forall (o : option (list (list Z))), (_ ← o; Some false) <> Some true) as Hno by (by intros [|]).
  destruct (is_done res) eqn:Ed.
  { destruct res; try done. cbn [is_done IsError negb]. rewrite OnlyWhitespaceRemaining_spec, E2. cbn. rewrite !andb_false_r.
    destruct (forallb is_ws r); split; try done; [by left|intros H1; by apply Hno in H1|].
    intros [H1|[[x H1] _]]; done. }
  assert (match res with
          | lwjsonSTREAMDONE => if OnlyWhitespaceRemaining d' then Some true else _ ← LogErrorPosition d'; Some false
          | _ => if false || negb ok then _ ← LogErrorPosition d'; Some false
                 else if IsError res then _ ← LogErrorPosition d'; Some false
                 else process_loop stream_parse fuel d' p' (false || negb ok)
          end = if ok && negb (IsError res) then process_loop stream_parse fuel d' p' false else _ ← LogErrorPosition d'; Some false) as ->.
  { destruct ok; cbn [negb orb andb]; destruct res; done. }
  rewrite andb_true_r. destruct (ok && negb (IsError res)).
  - rewrite IH by (rewrite E2; cbn in Hf; lia). rewrite E2, E3. tauto.
  - split; [intros H1; by apply Hno in H1|]. intros [[? _]|[[x H1] _]]; done.
Qed.

(** Which documents [ProcessJson] accepts, for any parser and callback.  A document is
    accepted exactly if the parser reports its end with only white space (or zero bytes) behind it,
    nothing before having been refused - or if the parser reports nothing at all until the source
    ends: so every proper prefix of an accepted document is accepted too (as long as the report of the
    missing end fits its buffer), although the code logs it as a failure. *)
Theorem process_json_accepts (d : D) :
  (ProcessJson stream_init stream_parse d false = Some true <->
   complete stream_init (ds_bytes d) \/ (is_Some (clean stream_init (ds_bytes d)) /\ report_fits (ds_bytes d))) /\
  (forall a b, ds_bytes d = a -> complete stream_init (a ++ b) -> b <> [] -> report_fits a ->
   forallb is_ws b = false -> ProcessJson stream_init stream_parse d false = Some true).
Proof.
  assert (ProcessJson stream_init stream_parse d false = Some true <->
    complete stream_init (ds_bytes d) \/ (is_Some (clean stream_init (ds_bytes d)) /\ report_fits (ds_bytes d))) as Hiff.
  { unfold ProcessJson. rewrite process_loop_spec.
    - rewrite remaining_rewind. by destruct (ds_rewind d) as [-> _].
    - rewrite remaining_rewind. unfold ds_fuel. lia. }
  split; [done|]. intros a b Ea Hc Hb Hfit Hws. apply Hiff. rewrite Ea in *. clear Ea Hiff Hb.
  destruct (clean stream_init a) as [p|] eqn:Ec; [right; split; [by eexists|done]|]. left.
  clear Hfit. revert Hc Ec. generalize stream_init. induction a as [|c a IH]; intros p; [done|].
  rewrite <- app_comm_cons, !complete_cons. cbn [clean]. destruct (stream_parse p c) as [[p' res] ok]. destruct (is_done res).
  - rewrite forallb_app. intros [Hw1 Hw2]%andb_prop. congruence.
  - intros [E2 Hc]. rewrite E2. cbn. intros Ec. split; [done|]. by apply IH.
Qed.
End Accept.

(** A parser that only counts brackets. *)
Definition demo_parse (p c : Z) : Z * lwjsonr * bool :=
  let p := if c =? 91 then p + 1 else if c =? 93 then p - 1 else p in
  (p, if (c =? 93) && (p =? 0) then lwjsonSTREAMDONE else lwjsonSTREAMINPROG, true).

Lemma process_json_accepts_witness :
  ProcessJson 0 demo_parse (Cursor (str:("[[],")) 0) false = Some true /\
  complete demo_parse 0 (str:("[[],") ++ str:("[]]")).
Proof.
  assert (complete demo_parse 0 (str:("[[],") ++ str:("[]]"))) as Hc.
  { exists (str:("[[],[]")), 93, [], 1, 0, true. vm_compute. tauto. }
  split; [|exact Hc].
  refine (proj2 (process_json_accepts (D := cursor) 0 demo_parse (Cursor (str:("[[],")) 0)) (str:("[[],")) (str:("[]]")) _ Hc _ _ _).
  - reflexivity.
  - discriminate.
  - vm_compute. congruence.
  - reflexivity.
Defined.

Lemma log_error_overrun_witness : LogErrorPosition (Cursor (repeat 91 120) 120) = None.
Proof. apply (log_error_overrun (D := cursor)). split; reflexivity. Defined.

(** A document of one line of 120 characters that ends too early: the report overruns the stack. *)
Example truncated_overrun : ProcessJson 0 demo_parse (Cursor (repeat 91 120) 0) false = None.
Proof. vm_compute. reflexivity. Qed.
