(* ===== verification/Url.v ===== *)
(** * Url: percent encoding and the small parsers of the HTTP layer
    (mongoose/mongoose.c: 1455-1486, 1567-1627, 2001-2015, 2319-2339, 2363-2384, 2430-2453) *)

From S2P Require Import Prelude Str Base64.

(** ** Percent decoding *)

Definition isx (c : Z) : bool :=
  is_digit c || ((chr:("a") <=? c) && (c <=? chr:("f"))) || ((chr:("A") <=? c) && (c <=? chr:("F"))).

(** The loop of [mg_url_decode] over the rest of the source: [None] outside is an access
    out of bounds; [inl] the early return, [inr] the state after the loop. *)
Fixpoint url_decode_loop (src : mg_str) (dst : list Z) (j : Z) (form : bool)
  : option (list Z * option (mg_str * Z)) :=
  match src with
  | [] => Some (dst, Some ([], j))
  | c :: src' =>
      if j + 1 <? Zlen dst then
        if c =? chr:("%") then
          match src' with
          | x :: y :: src'' =>
              if isx x && isx y then
                dst ← wr dst j (default 0 (mg_str_to_num [x; y] 16 1));
                url_decode_loop src'' dst (j + 1) form
              else Some (dst, None)
          | _ => Some (dst, None)
          end
        else if form && (c =? chr:("+")) then
          dst ← wr dst j chr:(" "); url_decode_loop src' dst (j + 1) form
        else dst ← wr dst j c; url_decode_loop src' dst (j + 1) form
      else Some (dst, Some (src, j))
  end.

Definition mg_url_decode (src : mg_str) (dst : list Z) (form : bool) : option (Z * list Z) :=
  '(dst, r) ← url_decode_loop src dst 0 form;
  match r with
  | None => Some (-1, dst)
  | Some (rest, j) =>
      dst ← (if j <? Zlen dst then wr dst j 0 else Some dst);
      Some (if match rest with [] => j <? Zlen dst | _ => false end then j else -1, dst)
  end.

(** ** Percent encoding *)

Definition mg_is_url_safe (c : Z) : bool :=
  is_digit c || ((chr:("a") <=? c) && (c <=? chr:("z"))) || is_upper c ||
  (c =? chr:(".")) || (c =? chr:("_")) || (c =? chr:("-")) || (c =? chr:("~")).

(** A lower case hexadecimal digit, as [mg_print_hex] prints it. *)
Definition hex_digit (d : Z) : Z := if d <? 10 then chr:("0") + d else chr:("a") + d - 10.

Fixpoint url_encode_loop (s : mg_str) (buf : list Z) (n : Z) : option (option Z * list Z) :=
  match s with
  | [] => Some (Some n, buf)
  | c :: s' =>
      if Zlen buf <=? n + 4 then Some (None, buf)
      else if mg_is_url_safe c then buf ← wr buf n c; url_encode_loop s' buf (n + 1)
      else
        buf ← wr buf n chr:("%"); buf ← wr buf (n + 1) (hex_digit (c / 16));
        buf ← wr buf (n + 2) (hex_digit (c mod 16)); buf ← wr buf (n + 3) 0;
        url_encode_loop s' buf (n + 3)
  end.

Definition mg_url_encode (s : mg_str) (buf : list Z) : option (Z * list Z) :=
  let len := Zlen buf in
  '(r, buf) ← url_encode_loop s buf 0;
  match r with
  | None => Some (0, buf)
  | Some n =>
      buf ← (if (0 <? len) && (n <? len - 1) then wr buf n 0 else Some buf);
      buf ← (if 0 <? len then wr buf (len - 1) 0 else Some buf);
      Some (n, buf)
  end.

(** ** Form variables *)

(** [mg_ncasecmp] over two strings of at least [len] bytes: zero when equal. *)
Fixpoint mg_ncasecmp (s1 s2 : list Z) (len : nat) : option Z :=
  match len with
  | O => Some 0
  | S len' =>
      match s1, s2 with
      | c :: s1', d :: s2' =>
          let diff := mg_tolc c - mg_tolc d in
          if (diff =? 0) && negb (c =? 0) then
            match len' with O => Some diff | _ => mg_ncasecmp s1' s2' len' end
          else Some diff
      | _, _ => None
      end
  end.

(** [mg_http_var]: the value of the first variable with that name; [None] when there is
    none.  The text gets shorter at every turn. *)
Fixpoint http_var_loop (fuel : nat) (buf name : mg_str) : option mg_str :=
  match fuel with
  | O => None
  | S fuel' =>
      match mg_span buf chr:("&") with
      | None => None
      | Some (entry, rest) =>
          match mg_span entry chr:("=") with
          | Some (k, v) =>
              if (Zlen name =? Zlen k) &&
                 match mg_ncasecmp name k (length k) with Some 0 => true | _ => false end
              then Some v else http_var_loop fuel' rest name
          | None => http_var_loop fuel' rest name
          end
      end
  end.

Definition mg_http_var (buf name : mg_str) : option mg_str := http_var_loop (S (length buf)) buf name.

Definition mg_http_get_var (buf name : mg_str) (dst : list Z) : option (Z * list Z) :=
  if Zlen dst =? 0 then Some (-2, dst)
  else
    dst ← wr dst 0 0;
    if Zlen buf =? 0 then Some (-1, dst)
    else match mg_http_var buf name with
         | None => Some (-4, dst)
         | Some v =>
             '(n, dst) ← mg_url_decode v dst true;
             Some (if n <? 0 then -3 else n, dst)
         end.

(** ** Decimal lengths *)

Definition is_blank (c : Z) : bool := (c =? chr:(" ")) || (c =? 9).

Fixpoint skip_blank (s : mg_str) : mg_str :=
  match s with c :: s' => if is_blank c then skip_blank s' else s | [] => [] end.

(** [mg_to_size_t]: [size_t] has 32 bits. *)
Fixpoint size_loop (s : mg_str) (result ndigits : Z) : option (Z * Z * mg_str) :=
  match s with
  | [] => Some (result, ndigits, [])
  | c :: s' =>
      if is_digit c then
        let digit := c - chr:("0") in
        if UINT32_MAX / 10 <? result then None
        else let result := u32 (result * 10) in
             if UINT32_MAX - digit <? result then None
             else size_loop s' (u32 (result + digit)) (ndigits + 1)
      else Some (result, ndigits, s)
  end.

Definition mg_to_size_t (s : mg_str) : option Z :=
  let s := skip_blank s in
  if match s with c :: _ => c =? chr:("-") | [] => false end then None
  else
    '(result, ndigits, rest) ← size_loop s 0 0;
    if ndigits =? 0 then None
    else match skip_blank rest with [] => Some result | _ => None end.

(** ** Header variables *)

Definition stripquotes (s : mg_str) : mg_str :=
  if (1 <? Zlen s) && (hd 0 s =? 34) && (List.last s 0 =? 34)
  then take (length s - 2) (drop 1 s) else s.

(** Length of an unquoted or quoted value: up to a delimiter. *)
Fixpoint value_end (p : mg_str) (q first : bool) : nat :=
  match p with
  | [] => O
  | c :: p' =>
      if (if q then first || negb (c =? 34)
          else negb (c =? chr:(";")) && negb (c =? chr:(" ")) && negb (c =? chr:(",")))
      then S (value_end p' q false) else O
  end.

(** The scan over the header value; [after] is the byte that follows it in memory: a
    quoted value without a closing quote takes it in. *)
Fixpoint header_var_loop (s v : mg_str) (after : Z) : mg_str :=
  match s with
  | [] => []
  | _ :: s' =>
      if (0 <? Zlen v) && (Zlen v + 2 <? Zlen s) then
        if (nth (length v) s 0 =? chr:("=")) && bool_decide (take (length v) s = v) then
          let b := drop (length v + 1) s in
          let q := hd 0 b =? 34 in
          let n := (value_end b q true + (if q then 1 else 0))%nat in
          stripquotes (take n (b ++ [after]))
        else header_var_loop s' v after
      else []
  end.

Definition mg_http_get_header_var (s v : mg_str) (after : Z) : mg_str := header_var_loop s v after.

(** ** Range header: number of limits parsed and the limits *)
Fixpoint range_loop (s : mg_str) : Z * Z * Z :=
  match s with
  | [] => (0, 0, 0)
  | _ :: s' =>
      if 6 <? Zlen s then
        if bool_decide (take 6 s = str:("bytes=")) then
          let v := drop 6 s in
          match mg_span v chr:("-") with
          | Some (k, w) =>
              let a := mg_to_size_t k in
              let b := if 0 <? Zlen w then mg_to_size_t w else None in
              ((match a with Some _ => 1 | None => 0 end) +
               (match b with Some _ => 1 | None => 0 end), default 0 a, default 0 b)
          | None =>
              let a := mg_to_size_t v in
              (match a with Some _ => 1 | None => 0 end, default 0 a, 0)
          end
        else range_loop s'
      else (0, 0, 0)
  end.

Definition getrange (s : mg_str) : Z * Z * Z := range_loop s.

(** ** Chunked transfer: one chunk *)

(** [skip_chunk] on [len] received bytes; [after] is the byte that follows them in memory
    (the test of the line end may read it).  The result is the value returned, and the
    prefix and data lengths when it is positive. *)
Fixpoint hex_prefix (s : list Z) : nat :=
  match s with c :: s' => if isx c then S (hex_prefix s') else O | [] => O end.

Definition skip_chunk (buf : list Z) (after : Z) : option (Z * Z * Z) :=
  let len := Zlen buf in
  if len <? 3 then Some (0, 0, 0)
  else
    let i := Z.of_nat (hex_prefix buf) in
    if i =? 0 then Some (-1, 0, 0)
    else if 8 <? i then Some (-1, 0, 0)
    else if len <? i + 1 then Some (-1, 0, 0)
    else
      c0 ← rd (buf ++ [after]) i;
      if negb (c0 =? 13) then Some (-1, 0, 0)
      else
        c1 ← rd (buf ++ [after]) (i + 1);
        if negb (c1 =? 10) then Some (-1, 0, 0)
        else match mg_str_to_num (take (Z.to_nat i) buf) 16 4 with
             | None => Some (-1, 0, 0)
             | Some v =>
                 let n := s32 v in
                 if n <? 0 then Some (-1, 0, 0)
                 else if len - i - 4 <? n then Some (0, 0, 0)
                 else
                   d0 ← rd buf (i + n + 2); d1 ← rd buf (i + n + 3);
                   if negb (d0 =? 13) || negb (d1 =? 10) then Some (-1, 0, 0)
                   else Some (i + 2 + n + 2, i + 2, n)
             end.

Example var_ex : mg_http_var str:("a=1&Bc=2%20x&d") str:("bC") = Some str:("2%20x").
Proof. reflexivity. Qed.
Example hv_ex : mg_http_get_header_var (str:("form-data; name=") ++ [34; 120; 121; 34] ++ str:("; z=1"))
  str:("name") 13 = str:("xy").
Proof. reflexivity. Qed.
Example range_ex : getrange str:("bytes=10-20") = (2, 10, 20).
Proof. reflexivity. Qed.
Example chunk_ex : skip_chunk (str:("3") ++ [13; 10] ++ str:("abc") ++ [13; 10]) 0 = Some (8, 3, 3).
Proof. reflexivity. Qed.

(** An unterminated quoted value ends one byte after the header value. *)
Example hv_overrun :
  mg_http_get_header_var (str:("name=") ++ [34; 120; 121]) str:("name") 13 = [34; 120; 121; 13].
Proof. reflexivity. Qed.
(** A chunk header that arrives cut before the line feed is refused, not waited for. *)
Example chunk_cut : skip_chunk (str:("1f") ++ [13]) 0 = Some (-1, 0, 0).
Proof. reflexivity. Qed.

(** ** Percent decoding is safe *)

Lemma url_decode_loop_safe n : forall src dst j form,
  (length src <= n)%nat -> 0 <= j -> j < Zlen dst \/ Zlen dst = 0 ->
  exists dst' r, url_decode_loop src dst j form = Some (dst', r) /\ Zlen dst' = Zlen dst /\
    match r with
    | Some (rest, j') => j <= j' /\ (j' < Zlen dst \/ j' = j) /\ (rest <> [] -> Zlen dst <= j' + 1)
    | None => True
    end.
Proof.
  induction n as [|n IH]; intros src dst j form Hn Hj Hb.
  { destruct src; [|simpl in Hn; lia]. exists dst, (Some ([], j)).
    split_and!; try done; try lia; by intros []. }
  destruct src as [|c src].
  { exists dst, (Some ([], j)). split_and!; try done; try lia; by intros []. }
  simpl in Hn. cbn [url_decode_loop].
  destruct (Z.ltb_spec (j + 1) (Zlen dst)) as [Hlt|Hge].
  2:{ exists dst, (Some (c :: src, j)). split_and!; try done; lia. }
  assert (forall v src', (length src' <= n)%nat ->
    exists dst' r, (dst ← wr dst j v; url_decode_loop src' dst (j + 1) form) = Some (dst', r) /\
      Zlen dst' = Zlen dst /\
      match r with
      | Some (rest, j') => j <= j' /\ (j' < Zlen dst \/ j' = j) /\ (rest <> [] -> Zlen dst <= j' + 1)
      | None => True
      end) as Hrec.
  { intros v src' Hs. destruct (wr_is_Some dst j v) as [d E]; [lia|]. rewrite E.
    cbn [mbind option_bind]. apply wr_Zlen in E.
    destruct (IH src' d (j + 1) form) as (d' & r & -> & Hl & Hr); [lia|lia|lia|].
    exists d', r. split_and!; [done|lia|]. destruct r as [[rest j']|]; [|done].
    rewrite <- E. destruct Hr as (H1 & H2 & H3). split_and!; [lia|lia|done]. }
  assert (exists dst' r, Some (dst, @None (mg_str * Z)) = Some (dst', r) /\ Zlen dst' = Zlen dst /\
      match r with
      | Some (rest, j') => j <= j' /\ (j' < Zlen dst \/ j' = j) /\ (rest <> [] -> Zlen dst <= j' + 1)
      | None => True
      end) as Hnone by (exists dst, None; done).
  destruct (c =? 37).
  - destruct src as [|x [|y src]]; try exact Hnone. destruct (isx x && isx y); [|exact Hnone].
    apply Hrec. simpl in Hn. lia.
  - destruct (form && (c =? 43)); apply Hrec; lia.
Qed.

Lemma url_decode_mem (src : mg_str) (dst : list Z) (form : bool) :
  exists n dst', mg_url_decode src dst form = Some (n, dst') /\ Zlen dst' = Zlen dst /\
    (n = -1 \/ (0 <= n < Zlen dst /\ rd dst' n = Some 0)).
Proof.
  unfold mg_url_decode. pose proof (Zlen_nonneg dst).
  destruct (url_decode_loop_safe (length src) src dst 0 form) as (d & r & -> & Hl & Hr); [lia..|].
  cbn [mbind option_bind]. destruct r as [[rest j]|]; [|exists (-1), d; auto].
  destruct (Z.ltb_spec j (Zlen d)) as [Hlt|Hge]; cbn [mbind option_bind].
  - destruct (wr_is_Some d j 0) as [d' E]; [lia|]. rewrite E. cbn [mbind option_bind].
    pose proof (wr_Zlen _ _ _ _ E). do 2 eexists. split_and!; [done|lia|].
    destruct rest; [|by left]. rewrite (proj2 (Z.ltb_lt j (Zlen d'))) by lia. right.
    split; [lia|]. by eapply rd_wr_eq.
  - do 2 eexists. split_and!; [done|lia|]. left. destruct rest; [|done].
    by rewrite (proj2 (Z.ltb_ge j (Zlen d))) by lia.
Qed.

(** Percent decoding is memory safe for every source and every destination, form
    encoded or not: nothing is written outside the destination, a destination of at
    least one byte is terminated unless a malformed escape stopped the decoding, and a
    non-negative result is the length of what was written, terminator after it. *)
Theorem url_decode_safe (src : mg_str) (dst : list Z) (form : bool) :
  exists n dst', mg_url_decode src dst form = Some (n, dst') /\ Zlen dst' = Zlen dst /\
    (n = -1 \/ (0 <= n < Zlen dst /\ rd dst' n = Some 0)).
Proof. apply url_decode_mem. Qed.

(** ** Round trip *)

(** Reference encoding. *)
Definition enc_char (c : Z) : mg_str :=
  if mg_is_url_safe c then [c] else [chr:("%"); hex_digit (c / 16); hex_digit (c mod 16)].

Definition urlenc (s : mg_str) : mg_str := flat_map enc_char s.

Lemma hex_pair c : is_byte c ->
  isx (hex_digit (c / 16)) && isx (hex_digit (c mod 16)) = true /\
  mg_str_to_num [hex_digit (c / 16); hex_digit (c mod 16)] 16 1 = Some c.
Proof.
  intros Hc. cut (isx (hex_digit (c / 16)) && isx (hex_digit (c mod 16)) &&
    (default (-1) (mg_str_to_num [hex_digit (c / 16); hex_digit (c mod 16)] 16 1) =? c) = true).
  { intros [H1 H2]%andb_prop. split; [done|]. zbool. unfold is_byte in Hc.
    destruct (mg_str_to_num _ _ _); simpl in H2; [by subst|lia]. }
  revert c Hc. apply (forallb_seqZ (fun c => isx (hex_digit (c / 16)) && isx (hex_digit (c mod 16)) &&
    (default (-1) (mg_str_to_num [hex_digit (c / 16); hex_digit (c mod 16)] 16 1) =? c)) 256).
  vm_compute. reflexivity.
Qed.

Lemma safe_not_special c : mg_is_url_safe c = true -> (c =? 37) = false /\ (c =? 43) = false.
Proof.
  intros H. split; apply Z.eqb_neq; intros ->; by vm_compute in H.
Qed.

Lemma url_encode_loop_spec s : is_bytes s -> forall w rest,
  Zlen (urlenc s) + 4 <= Zlen rest ->
  exists rest', url_encode_loop s (w ++ rest) (Zlen w) =
    Some (Some (Zlen w + Zlen (urlenc s)), w ++ urlenc s ++ rest') /\
    Zlen rest' = Zlen rest - Zlen (urlenc s).
Proof.
  induction 1 as [|c s Hc Hs IH]; intros w rest Hr.
  { exists rest. change (urlenc []) with (@nil Z). rewrite Zlen_nil, Z.add_0_r, Z.sub_0_r. done. }
  change (urlenc (c :: s)) with (enc_char c ++ urlenc s) in *. rewrite Zlen_app in *.
  cbn [url_encode_loop]. pose proof (Zlen_nonneg (urlenc s)). pose proof (Zlen_nonneg (enc_char c)).
  assert ((Zlen (w ++ rest) <=? Zlen w + 4) = false) as ->.
  { apply Z.leb_gt. rewrite Zlen_app. unfold enc_char in *.
    destruct (mg_is_url_safe c); [change (Zlen [c]) with 1 in *|change (Zlen [_; _; _]) with 3 in *]; lia. }
  unfold enc_char in *. destruct (mg_is_url_safe c).
  - change (Zlen [c]) with 1 in *. do 1 uncons rest. rewrite wr_here. cbn [mbind option_bind].
    destruct (IH (w ++ [c]) rest) as (r' & E & Hl); [lia|].
    rewrite Zlen_app, <- !app_assoc in E. change (Zlen [c]) with 1 in E.
    exists r'. split; [|lia]. refine (eq_trans E _). simpl. do 3 f_equal. lia.
  - change (Zlen [37; hex_digit (c / 16); hex_digit (c mod 16)]) with 3 in *.
    do 4 uncons rest. rewrite wr_here. cbn [mbind option_bind]. rewrite wr_next.
    cbn [mbind option_bind]. rewrite wr_next2. cbn [mbind option_bind]. rewrite wr_next3.
    cbn [mbind option_bind].
    destruct (IH (w ++ [37; hex_digit (c / 16); hex_digit (c mod 16)]) (0 :: rest)) as (r' & E & Hl);
      [rewrite Zlen_cons; lia|].
    rewrite Zlen_app, <- !app_assoc in E.
    change (Zlen [37; hex_digit (c / 16); hex_digit (c mod 16)]) with 3 in E.
    exists r'. rewrite Zlen_cons in Hl. split; [|lia]. refine (eq_trans E _). simpl. do 3 f_equal. lia.
Qed.

Lemma url_decode_enc s : is_bytes s -> forall form w rest,
  Zlen s < Zlen rest ->
  exists rest', url_decode_loop (urlenc s) (w ++ rest) (Zlen w) form =
    Some (w ++ s ++ rest', Some ([], Zlen w + Zlen s)) /\ Zlen rest' = Zlen rest - Zlen s.
Proof.
  induction 1 as [|c s Hc Hs IH]; intros form w rest Hr.
  { exists rest. rewrite Zlen_nil, Z.add_0_r, Z.sub_0_r. done. }
  change (urlenc (c :: s)) with (enc_char c ++ urlenc s). rewrite Zlen_cons in *.
  pose proof (Zlen_nonneg s). do 1 uncons rest.
  assert ((Zlen w + 1 <? Zlen (w ++ x :: rest)) = true) as Hroom
    by (apply Z.ltb_lt; rewrite Zlen_app, Zlen_cons; lia).
  destruct (IH form (w ++ [c]) rest) as (r' & E & Hl); [lia|].
  rewrite Zlen_app, <- !app_assoc in E. change (Zlen [c]) with 1 in E.
  exists r'. split; [|lia].
  replace (Zlen w + (Zlen s + 1)) with (Zlen w + 1 + Zlen s) by lia.
  unfold enc_char. destruct (mg_is_url_safe c) eqn:Es.
  - destruct (safe_not_special c Es) as [H1 H2]. simpl app. cbn [url_decode_loop].
    rewrite Hroom, H1, H2, andb_false_r, wr_here. exact E.
  - destruct (hex_pair c Hc) as [H1 H2]. simpl app. cbn [url_decode_loop].
    rewrite Hroom, H1. cbn [Z.eqb Pos.eqb]. rewrite H2, wr_here. exact E.
Qed.

(** Percent encoding followed by percent decoding is the identity: every byte string
    encoded into a buffer with room is read back unchanged, terminator after it, in form
    and in plain mode, when the destination is longer than the string. *)
Theorem url_roundtrip (s : mg_str) (buf dst : list Z) (form : bool) (Hs : is_bytes s)
  (Hbuf : Zlen (urlenc s) + 4 <= Zlen buf) (Hdst : Zlen s < Zlen dst) :
  exists n buf' dst', mg_url_encode s buf = Some (n, buf') /\
    mg_url_decode (take (Z.to_nat n) buf') dst form = Some (Zlen s, dst') /\
    take (length s + 1) dst' = s ++ [0].
Proof.
  unfold mg_url_encode, mg_url_decode.
  destruct (url_encode_loop_spec s Hs [] buf Hbuf) as (r & E & Hr). simpl in E.
  change (Zlen []) with 0 in E. rewrite E. cbn [mbind option_bind]. rewrite Z.add_0_l.
  pose proof (Zlen_nonneg (urlenc s)).
  rewrite (proj2 (Z.ltb_lt 0 (Zlen buf))), (proj2 (Z.ltb_lt _ (Zlen buf - 1))) by lia. cbn [andb].
  destruct r as [|x0 r]; [change (Zlen []) with 0 in Hr; lia|].
  rewrite wr_here. cbn [mbind option_bind].
  destruct (wr_is_Some (urlenc s ++ 0 :: r) (Zlen buf - 1) 0) as [b E2].
  { rewrite Zlen_app, Zlen_cons in *. lia. }
  rewrite E2. cbn [mbind option_bind].
  assert (take (Z.to_nat (Zlen (urlenc s))) b = urlenc s) as Ht.
  { apply list_eq. intros i. destruct (decide (i < length (urlenc s))%nat) as [Hi|Hi].
    - rewrite lookup_take_lt by (unfold Zlen; lia).
      rewrite Zlen_cons in Hr. pose proof (Zlen_nonneg r).
      pose proof (rd_wr_ne _ _ _ (Z.of_nat i) _ E2 ltac:(unfold Zlen in *; lia)) as Hrd.
      unfold rd in Hrd. rewrite (proj2 (Z.leb_le 0 (Z.of_nat i))), Nat2Z.id in Hrd by lia.
      rewrite Hrd. by apply lookup_app_l.
    - rewrite lookup_take_ge, lookup_ge_None_2 by (unfold Zlen; lia). done. }
  destruct (url_decode_enc s Hs form [] dst Hdst) as (r2 & E3 & Hr2). simpl in E3.
  change (Zlen []) with 0 in E3.
  assert (Zlen (s ++ r2) = Zlen dst) as Hsr by (rewrite Zlen_app; lia).
  destruct r2 as [|y r2]; [change (Zlen []) with 0 in Hr2; lia|].
  do 3 eexists. split; [done|]. rewrite Ht, E3. cbn [mbind option_bind]. rewrite Z.add_0_l.
  rewrite Hsr, (proj2 (Z.ltb_lt _ _)) by lia. rewrite wr_here. cbn [mbind option_bind].
  assert ((Zlen s <? Zlen (s ++ 0 :: r2)) = true) as ->.
  { apply Z.ltb_lt. rewrite Zlen_app, Zlen_cons. pose proof (Zlen_nonneg r2). lia. }
  split; [done|]. rewrite take_app_add. done.
Qed.

Lemma url_roundtrip_witness :
  exists n buf' dst', mg_url_encode [37; 255; 97; 43] (replicate 20 7) = Some (n, buf') /\
    mg_url_decode (take (Z.to_nat n) buf') (replicate 5 7) true = Some (4, dst') /\
    take 5 dst' = [37; 255; 97; 43; 0].
Proof.
  apply (url_roundtrip [37; 255; 97; 43] (replicate 20 7) (replicate 5 7) true);
    [repeat constructor; done|vm_compute; congruence|reflexivity].
Defined.

(** ** Chunks *)

Lemma hex_prefix_le s : (hex_prefix s <= length s)%nat.
Proof. induction s as [|c s IH]; simpl; [lia|]. destruct (isx c); lia. Qed.

Lemma hex_prefix_app h s : forallb isx h = true -> isx (hd 0 s) = false ->
  hex_prefix (h ++ s) = length h.
Proof.
  intros Hh Hs. induction h as [|c h IH]; simpl in *.
  - destruct s as [|x s]; [done|]. simpl in Hs |- *. by rewrite Hs.
  - apply andb_prop in Hh as [-> Hh]. by rewrite IH.
Qed.

(** The chunk scanner is memory safe and never consumes more than it was given: for
    every buffer it returns, and a positive result is the total length of a chunk that
    lies inside the buffer, made of the size line, the data and the closing line end. *)
Lemma skip_chunk_safe (buf : list Z) (after : Z) :
  exists r pl dl, skip_chunk buf after = Some (r, pl, dl) /\
    (r <= 0 \/ (0 < pl /\ 0 <= dl /\ r = pl + dl + 2 /\ r <= Zlen buf)).
Proof.
  unfold skip_chunk. pose proof (hex_prefix_le buf) as Hp.
  assert (forall r : Z, r <= 0 -> exists r' pl dl, Some (r, 0, 0) = Some (r', pl, dl) /\
    (r' <= 0 \/ (0 < pl /\ 0 <= dl /\ r' = pl + dl + 2 /\ r' <= Zlen buf))) as Hret
    by (intros r Hr; exists r, 0, 0; auto).
  destruct (Z.ltb_spec (Zlen buf) 3); [by apply Hret|].
  set (i := Z.of_nat (hex_prefix buf)) in *.
  destruct (Z.eqb_spec i 0); [by apply Hret|].
  destruct (Z.ltb_spec 8 i); [by apply Hret|].
  destruct (Z.ltb_spec (Zlen buf) (i + 1)); [by apply Hret|].
  destruct (rd_is_Some (buf ++ [after]) i) as [c0 ->]; [rewrite Zlen_app; unfold Zlen in *; simpl; lia|].
  cbn [mbind option_bind]. destruct (negb _); [by apply Hret|].
  destruct (rd_is_Some (buf ++ [after]) (i + 1)) as [c1 ->];
    [rewrite Zlen_app; unfold Zlen in *; simpl; lia|].
  cbn [mbind option_bind]. destruct (negb _); [by apply Hret|].
  destruct (mg_str_to_num _ 16 4) as [v|]; [|by apply Hret].
  destruct (Z.ltb_spec (s32 v) 0); [by apply Hret|].
  destruct (Z.ltb_spec (Zlen buf - i - 4) (s32 v)); [by apply Hret|].
  destruct (rd_is_Some buf (i + s32 v + 2)) as [d0 ->]; [lia|]. cbn [mbind option_bind].
  destruct (rd_is_Some buf (i + s32 v + 3)) as [d1 ->]; [lia|]. cbn [mbind option_bind].
  destruct (_ || _); [by apply Hret|]. do 3 eexists. split; [done|]. right. lia.
Qed.

(** A well-formed chunk is recognised exactly: a size of one to eight hexadecimal
    digits whose value is below 2^31, the line end, that many data bytes and the closing
    line end, whatever follows. *)
Lemma skip_chunk_exact (h d rest : list Z) (v after : Z)
  (Hh : forallb isx h = true) (Hl : 1 <= Zlen h <= 8)
  (Hv : mg_str_to_num h 16 4 = Some v) (Hv31 : v < 2 ^ 31) (Hd : Zlen d = v) :
  skip_chunk (h ++ [13; 10] ++ d ++ [13; 10] ++ rest) after =
  Some (Zlen h + v + 4, Zlen h + 2, v).
Proof.
  unfold skip_chunk. pose proof (Zlen_nonneg d). pose proof (Zlen_nonneg rest).
  set (buf := h ++ _).
  assert (Zlen buf = Zlen h + v + 4 + Zlen rest) as Hb
    by (subst buf; rewrite !Zlen_app; change (Zlen [13; 10]) with 2; lia).
  assert (hex_prefix buf = length h) as -> by (by apply hex_prefix_app).
  change (Z.of_nat (length h)) with (Zlen h). rewrite Hb. ztests.
  assert (buf ++ [after] = h ++ 13 :: (10 :: d ++ [13; 10] ++ rest ++ [after])) as Ea
    by (subst buf; rewrite <- !app_assoc; done).
  rewrite Ea, rd_here. cbn [mbind option_bind Z.eqb Pos.eqb negb].
  assert (h ++ 13 :: 10 :: d ++ [13; 10] ++ rest ++ [after] =
          (h ++ [13]) ++ 10 :: d ++ [13; 10] ++ rest ++ [after]) as -> by (by rewrite <- app_assoc).
  replace (Zlen h + 1) with (Zlen (h ++ [13])) by (by rewrite Zlen_app). rewrite rd_here.
  cbn [mbind option_bind Z.eqb Pos.eqb negb].
  assert (take (Z.to_nat (Zlen h)) buf = h) as -> by (subst buf; unfold Zlen;
    by rewrite Nat2Z.id, take_app_length).
  rewrite Hv. assert (s32 v = v) as ->.
  { unfold s32, swrap. rewrite Z.mod_small; lia. }
  ztests.
  assert (buf = (h ++ [13; 10] ++ d) ++ 13 :: 10 :: rest) as E2
    by (subst buf; rewrite <- !app_assoc; done).
  assert (Zlen (h ++ [13; 10] ++ d) = Zlen h + v + 2) as E3
    by (rewrite !Zlen_app; change (Zlen [13; 10]) with 2; lia).
  rewrite E2, <- E3, rd_here. cbn [mbind option_bind].
  assert ((h ++ [13; 10] ++ d) ++ 13 :: 10 :: rest = ((h ++ [13; 10] ++ d) ++ [13]) ++ 10 :: rest) as E4
    by (by rewrite <- (app_assoc _ [13])).
  rewrite E4. replace (Zlen h + v + 3) with (Zlen ((h ++ [13; 10] ++ d) ++ [13]))
    by (rewrite Zlen_app, E3; change (Zlen [13]) with 1; lia).
  rewrite rd_here. cbn [mbind option_bind Z.eqb Pos.eqb negb orb]. do 3 f_equal. lia.
Qed.
