(* ===== verification/Util.v ===== *)
(** * Util: checksums, path checks and timers of Mongoose
    (mongoose/mongoose.c: 9707-9747, 19825-19899) *)

From S2P Require Import Prelude.

(** ** CRC32 with a 16-entry table *)
Module Crc.

Definition crclut : list Z :=
  [0; 498536548; 997073096; 651767980; 1994146192; 1802195444; 1303535960; 1342533948;
   3988292384; 4027552580; 3604390888; 3412177804; 2607071920; 2262029012; 2685067896; 3183342108].

Definition lut (i : Z) : Z := nth (Z.to_nat i) crclut 0.

(** One byte: two table steps. *)
Definition crc_byte (crc b : Z) : Z :=
  let crc := Z.lxor (lut (Z.land (Z.lxor crc b) 15)) (Z.shiftr crc 4) in
  Z.lxor (lut (Z.land (Z.lxor crc (Z.shiftr b 4)) 15)) (Z.shiftr crc 4).

Definition not32 (z : Z) : Z := Z.lxor z UINT32_MAX.

Definition mg_crc32 (crc : Z) (buf : list Z) : Z := not32 (fold_left crc_byte buf (not32 crc)).

(** The definition of the checksum: one bit at a time with the reflected polynomial. *)
Definition POLY : Z := 3988292384.

Definition bit_step (x : Z) : Z := Z.lxor (Z.shiftr x 1) (if Z.odd x then POLY else 0).

Definition crc_spec_byte (crc b : Z) : Z := Nat.iter 8 bit_step (Z.lxor crc b).

Definition crc_spec (crc : Z) (buf : list Z) : Z := not32 (fold_left crc_spec_byte buf (not32 crc)).

Lemma lxor_nonneg2 a b : 0 <= a -> 0 <= b -> 0 <= Z.lxor a b.
Proof. intros Ha Hb. apply Z.lxor_nonneg. done. Qed.

Lemma shiftr_nonneg2 a n : 0 <= a -> 0 <= Z.shiftr a n.
Proof. apply Z.shiftr_nonneg. Qed.

Lemma lut_nonneg i : 0 <= nth (Z.to_nat i) crclut 0.
Proof.
  destruct (nth_in_or_default (Z.to_nat i) crclut 0) as [H| ->]; [|done].
  assert (forallb (Z.leb 0) crclut = true) as Hf by reflexivity.
  rewrite forallb_forall in Hf. by apply Z.leb_le, Hf.
Qed.

#[local] Hint Resolve lxor_nonneg2 shiftr_nonneg2 lut_nonneg : core.

Lemma bit_step_lxor x y : bit_step (Z.lxor x y) = Z.lxor (bit_step x) (bit_step y).
Proof.
  unfold bit_step. rewrite <- !Z.bit0_odd, Z.lxor_spec, Z.shiftr_lxor.
  destruct (Z.testbit x 0), (Z.testbit y 0); simpl; bitwise.
Qed.

Lemma bit_step_even x : bit_step (Z.shiftl x 1) = x.
Proof.
  unfold bit_step. rewrite <- Z.bit0_odd, Z.shiftl_spec_low by lia.
  rewrite Z.lxor_0_r, Z.shiftr_shiftl_l by lia. apply Z.shiftl_0_r.
Qed.

Definition step4 (x : Z) : Z := Nat.iter 4 bit_step x.

Lemma step4_lxor x y : step4 (Z.lxor x y) = Z.lxor (step4 x) (step4 y).
Proof. unfold step4. simpl. by rewrite !bit_step_lxor. Qed.

Lemma step4_shift x : step4 (Z.shiftl x 4) = x.
Proof.
  unfold step4. simpl. replace 4 with (1 + 1 + 1 + 1) by lia.
  rewrite <- !Z.shiftl_shiftl by lia. by rewrite !bit_step_even.
Qed.

Lemma step4_nibble x : 0 <= x < 16 -> step4 x = lut x.
Proof.
  intros Hx. apply Z.eqb_eq. revert x Hx. apply forallb_seqZ. vm_compute. reflexivity.
Qed.

(** A number is its low four bits and the rest. *)
Lemma nibble_split x : x = Z.lxor (Z.shiftl (Z.shiftr x 4) 4) (Z.land x 15).
Proof.
  change 15 with (Z.ones 4). apply Z.bits_inj'. intros n Hn. rewrite Z.lxor_spec, Z.land_spec.
  destruct (Z.lt_ge_cases n 4).
  - rewrite Z.shiftl_spec_low, Z.ones_spec_low by lia. by rewrite andb_true_r.
  - rewrite Z.shiftl_spec, Z.shiftr_spec, Z.ones_spec_high by lia.
    rewrite andb_false_r, xorb_false_r. f_equal. lia.
Qed.

Lemma step4_table x : 0 <= x -> step4 x = Z.lxor (lut (Z.land x 15)) (Z.shiftr x 4).
Proof.
  intros Hx. rewrite (nibble_split x) at 1. rewrite step4_lxor, step4_shift.
  rewrite step4_nibble by (change 15 with (Z.ones 4); rewrite Z.land_ones by lia;
    change (2 ^ 4) with 16; apply Z.mod_pos_bound; lia).
  apply Z.lxor_comm.
Qed.

Lemma crc_byte_spec crc b : 0 <= crc -> is_byte b -> crc_byte crc b = crc_spec_byte crc b.
Proof.
  intros Hc Hb. unfold is_byte in Hb. unfold crc_byte, crc_spec_byte.
  change (Nat.iter 8 bit_step (Z.lxor crc b)) with (step4 (step4 (Z.lxor crc b))).
  assert (0 <= b) as Hb0 by lia.
  rewrite (step4_table (Z.lxor crc b)) by auto.
  rewrite (Z.shiftr_lxor crc b), <- (Z.lxor_assoc _ (Z.shiftr crc 4)). set (c1 := Z.lxor (lut _) (Z.shiftr crc 4)).
  assert (0 <= c1) as Hc1 by (subst c1; unfold lut; auto).
  clearbody c1. rewrite step4_table by auto.
  rewrite (Z.shiftr_lxor c1), Z.shiftr_shiftr by lia.
  assert (Z.shiftr b (4 + 4) = 0) as ->
    by (rewrite Z.shiftr_div_pow2 by lia; apply Z.div_small; lia).
  by rewrite Z.lxor_0_r.
Qed.

Lemma crc_byte_range crc b : 0 <= crc -> 0 <= crc_byte crc b.
Proof.
  intros Hc. unfold crc_byte, lut. auto 10.
Qed.

(** The nibble-table CRC is the CRC-32 of the reflected polynomial 0xEDB88320: for
    every initial value and every buffer [mg_crc32] returns what the bit-by-bit
    definition returns, so a checksum may be computed piecewise. *)
Theorem crc32_exact (crc : Z) (buf more : list Z)
  (Hc : 0 <= crc < 2 ^ 32) (Hb : is_bytes buf) (Hm : is_bytes more) :
  mg_crc32 crc buf = crc_spec crc buf /\
  mg_crc32 (mg_crc32 crc buf) more = mg_crc32 crc (buf ++ more).
Proof.
  unfold mg_crc32, crc_spec. split.
  - f_equal. assert (0 <= not32 crc) as H by (apply Z.lxor_nonneg; unfold UINT32_MAX; lia).
    revert H. generalize (not32 crc). clear Hc. induction Hb as [|b buf Hb1 Hb2 IH]; intros c H; [done|].
    simpl. rewrite <- crc_byte_spec by done. apply IH, crc_byte_range, H.
  - f_equal. rewrite fold_left_app. f_equal. unfold not32. rewrite Z.lxor_assoc, Z.lxor_nilpotent.
    apply Z.lxor_0_r.
Qed.

Lemma crc32_exact_witness :
  mg_crc32 0 str:("123456789") = crc_spec 0 str:("123456789") /\
  mg_crc32 (mg_crc32 0 str:("123456789")) [7] = mg_crc32 0 (str:("123456789") ++ [7]).
Proof.
  apply (crc32_exact 0 str:("123456789") [7]); [lia|repeat constructor; done|repeat constructor; done].
Defined.

Example crc_check : mg_crc32 0 str:("123456789") = 3421780262.
Proof. reflexivity. Qed.
End Crc.

(** ** Paths that stay below their root *)
Module Path.

(** [mg_path_is_sane] over the memory [m] from the start of the path, [n] = path.len. *)
Fixpoint sane_loop (m : list Z) (n : Z) : option bool :=
  match m with
  | [] => None
  | c :: m' =>
      if negb (c =? 0) && (0 <? n) then
        if ((c =? chr:("/")) || (c =? 92)) && (2 <=? n) then
          c1 ← rd m' 0;
          if c1 =? chr:(".") then
            c2 ← rd m' 1;
            if c2 =? chr:(".") then Some false else sane_loop m' (n - 1)
          else sane_loop m' (n - 1)
        else sane_loop m' (n - 1)
      else Some true
  end.

Definition mg_path_is_sane (m : list Z) (n : Z) : option bool :=
  c0 ← rd m 0;
  if c0 =? chr:("~") then Some false
  else
    dots ← (if c0 =? chr:(".") then c1 ← rd m 1; Some (c1 =? chr:(".")) else Some false);
    if (dots : bool) then Some false else sane_loop m n.

Definition is_sep (c : Z) : Prop := c = chr:("/") \/ c = 92.

(** Some path component starts with two dots. *)
Definition climbs (q : list Z) : Prop :=
  exists a b, q = a ++ [chr:("."); chr:(".")] ++ b /\ (a = [] \/ exists a' s, a = a' ++ [s] /\ is_sep s).

(** ... after a separator. *)
Definition climbs_later (q : list Z) : Prop :=
  exists a s b, q = a ++ [s; chr:("."); chr:(".")] ++ b /\ is_sep s.

Lemma climbs_later_cons c q :
  climbs_later (c :: q) <->
  (is_sep c /\ exists b, q = [chr:("."); chr:(".")] ++ b) \/ climbs_later q.
Proof.
  split.
  - intros ([|x a] & s & b & E & Hs); simplify_eq/=; [left; split; [done|]; by exists b|].
    right. exists a, s, b. done.
  - intros [(Hs & b & ->)|(a & s & b & -> & Hs)].
    + by exists [], c, b.
    + by exists (c :: a), s, b.
Qed.

Lemma climbs_later_nil : ~ climbs_later [].
Proof. intros (a & s & b & E & _). by destruct a. Qed.

Lemma sane_loop_spec q pad : 0 ∉ q -> forall n, Zlen q <= n ->
  exists r, sane_loop (q ++ 0 :: pad) n = Some r /\ (r = false <-> climbs_later q).
Proof.
  intros H0. induction q as [|c q IH]; intros n Hn.
  { exists true. split; [done|]. split; [done|]. intros H. by apply climbs_later_nil in H. }
  apply not_elem_of_cons in H0 as [Hc H0]. rewrite Zlen_cons in Hn. pose proof (Zlen_nonneg q).
  simpl app. cbn [sane_loop]. rewrite (proj2 (Z.eqb_neq c 0)), (proj2 (Z.ltb_lt 0 n)) by (lia || auto).
  cbn [negb andb]. destruct (IH H0 (n - 1)) as (r & Er & Hr); [lia|].
  assert (((c =? 47) || (c =? 92) = true) <-> is_sep c) as Hsep
    by (unfold is_sep; rewrite orb_true_iff, !Z.eqb_eq; done).
  setoid_rewrite (climbs_later_cons c q).
  destruct ((c =? 47) || (c =? 92)) eqn:Es; cbn [andb].
  2:{ exists r. split; [done|]. rewrite Hr. naive_solver. }
  destruct (Z.leb_spec 2 n) as [Hn2|Hn2].
  2:{ exists r. split; [done|]. rewrite Hr. destruct q; [|rewrite Zlen_cons in *; pose proof (Zlen_nonneg q); lia].
      split; [auto|]. intros [(_ & b & E)|?]; done. }
  destruct q as [|c1 q].
  { simpl. exists r. split; [exact Er|]. rewrite Hr. split; [auto|].
    intros [(_ & b & E)|?]; done. }
  change (rd ((c1 :: q) ++ 0 :: pad) 0) with (Some c1). cbn [mbind option_bind].
  destruct (Z.eqb_spec c1 46) as [->|Hne].
  2:{ exists r. split; [done|]. rewrite Hr. split; [auto|].
      intros [(_ & b & E)|?]; [by simplify_eq/=|done]. }
  assert (exists c2, rd ((46 :: q) ++ 0 :: pad) 1 = Some c2 /\ (c2 = 46 <-> exists b, q = 46 :: b))
    as (c2 & -> & Hc2).
  { destruct q as [|c2 q].
    - exists 0. split; [done|]. split; [done|]. intros (b & ?). done.
    - exists c2. split; [done|]. split; [intros ->; eauto|]. by intros (b & [= -> _]). }
  cbn [mbind option_bind]. destruct (Z.eqb_spec c2 46) as [->|Hne].
  - exists false. split; [done|]. split; [|done]. intros _. left. split; [by apply Hsep|].
    destruct (proj1 Hc2 eq_refl) as (b & ->). by exists b.
  - exists r. split; [done|]. rewrite Hr. split; [auto|].
    intros [(_ & b & E)|?]; [|done]. exfalso. apply Hne, Hc2. simplify_eq/=. by exists b.
Qed.

Lemma climbs_iff q : climbs q <-> (exists b, q = [46; 46] ++ b) \/ climbs_later q.
Proof.
  split.
  - intros (a & b & -> & [->|(a' & s & -> & Hs)]); [left; by exists b|].
    right. exists a', s, b. by rewrite <- app_assoc.
  - intros [(b & ->)|(a & s & b & -> & Hs)].
    + exists [], b. auto.
    + exists (a ++ [s]), b. rewrite <- app_assoc. split; [done|]. right. eauto.
Qed.

Lemma path_check (q pad : list Z) (n : Z) (Hq : 0 ∉ q) (Hn : Zlen q <= n) :
  exists r, mg_path_is_sane (q ++ 0 :: pad) n = Some r /\
    (r = true <-> hd 0 q <> chr:("~") /\ ~ climbs q).
Proof.
  destruct (sane_loop_spec q pad Hq n Hn) as (r & Er & Hr).
  unfold mg_path_is_sane. destruct q as [|c0 q].
  { simpl in Er |- *. exists r. split; [done|]. rewrite climbs_iff. simpl.
    destruct r; [|by destruct (climbs_later_nil (proj1 Hr eq_refl))]. split; [|done]. intros _.
    split; [done|]. intros [(b & ?)|H]; [done|by apply climbs_later_nil in H]. }
  change (rd ((c0 :: q) ++ 0 :: pad) 0) with (Some c0). cbn [mbind option_bind hd].
  setoid_rewrite (climbs_iff (c0 :: q)). destruct (Z.eqb_spec c0 126) as [->|H126].
  { exists false. split; [done|]. naive_solver. }
  destruct (Z.eqb_spec c0 46) as [->|H46].
  - assert (exists c1, rd ((46 :: q) ++ 0 :: pad) 1 = Some c1 /\ (c1 = 46 <-> exists b, q = 46 :: b))
      as (c1 & -> & Hc1).
    { destruct q as [|c1 q].
      - exists 0. split; [done|]. split; [done|]. intros (b & ?). done.
      - exists c1. split; [done|]. split; [intros ->; eauto|]. by intros (b & [= -> _]). }
    cbn [mbind option_bind]. destruct (Z.eqb_spec c1 46) as [->|Hne].
    + exists false. split; [done|]. split; [done|]. intros [_ H]. exfalso. apply H. left.
      destruct (proj1 Hc1 eq_refl) as (b & ->). by exists b.
    + exists r. split; [done|]. destruct r.
      * split; [|done]. intros _. split; [done|]. intros [(b & E)|H].
        -- apply Hne, Hc1. simplify_eq/=. by exists b.
        -- by apply Hr in H.
      * split; [done|]. intros [_ H]. exfalso. apply H. right. by apply Hr.
  - cbn [mbind option_bind]. exists r. split; [done|]. destruct r.
    + split; [|done]. intros _. split; [done|]. intros [(b & E)|H]; [by simplify_eq/=|by apply Hr in H].
    + split; [done|]. intros [_ H]. exfalso. apply H. right. by apply Hr.
Qed.

(** The path check refuses exactly the paths that could leave their directory: for
    every terminated path, inside a buffer at least as long as its length says, the
    check never reads past the terminator and accepts exactly the paths that do not
    start with a tilde and in which no component, between slashes or backslashes, starts
    with two dots. *)
Theorem path_is_sane_exact (q pad : list Z) (n : Z) (Hq : 0 ∉ q) (Hn : Zlen q <= n) :
  exists r, mg_path_is_sane (q ++ 0 :: pad) n = Some r /\
    (r = true <-> hd 0 q <> chr:("~") /\ ~ climbs q).
Proof. by apply path_check. Qed.

Lemma path_is_sane_exact_witness :
  exists r, mg_path_is_sane (str:("/web/../etc") ++ 0 :: [1; 2]) 20 = Some r /\
    (r = true <-> hd 0 str:("/web/../etc") <> chr:("~") /\ ~ climbs str:("/web/../etc")).
Proof.
  apply (path_is_sane_exact str:("/web/../etc") [1; 2] 20); [|vm_compute; congruence].
  by apply (bool_decide_unpack _).
Defined.
End Path.

(** ** Timers *)
Module Timer.

Definition MG_TIMER_REPEAT : Z := 1.
Definition MG_TIMER_RUN_NOW : Z := 2.
Definition MG_TIMER_CALLED : Z := 4.
Definition MG_TIMER_AUTODELETE : Z := 8.

Definition has (flags f : Z) : bool := negb (Z.land flags f =? 0).

(** The timers are a linked list; [fn] and [arg] are named by an identifier. *)
Record mg_timer := timer { id : nat; period_ms : Z; expire : Z; flags : Z }.

Definition mg_timer_init (head : list mg_timer) (i : nat) (ms fl : Z) : list mg_timer :=
  timer i (u64 ms) 0 fl :: head.

Fixpoint mg_timer_free (head : list mg_timer) (i : nat) : list mg_timer :=
  match head with
  | [] => []
  | t :: rest => if Nat.eqb (id t) i then rest else t :: mg_timer_free rest i
  end.

(** All of [*t], [prd] and [now] are unsigned 64-bit. *)
Definition mg_timer_expired (t prd now : Z) : bool * Z :=
  let t := if u64 (now + prd) <? t then 0 else t in
  let t := if t =? 0 then u64 (now + prd) else t in
  if now <? t then (false, t)
  else (true, if prd <? u64 (now - t) then u64 (now + prd) else u64 (t + prd)).

(** One timer of the poll loop: whether its function is called, and the timer. *)
Definition poll_timer (now : Z) (t : mg_timer) : bool * mg_timer * bool :=
  let once := (expire t =? 0) && has (flags t) MG_TIMER_RUN_NOW && negb (has (flags t) MG_TIMER_CALLED) in
  let '(expired, e) := mg_timer_expired (expire t) (period_ms t) now in
  if negb once && negb expired then (false, timer (id t) (period_ms t) e (flags t), false)
  else
    let call := has (flags t) MG_TIMER_REPEAT || negb (has (flags t) MG_TIMER_CALLED) in
    let fl := Z.lor (flags t) MG_TIMER_CALLED in
    (call, timer (id t) (period_ms t) e fl,
     negb (has fl MG_TIMER_REPEAT) && has fl MG_TIMER_AUTODELETE).

(** [mg_timer_poll]: the functions called, in order, and the timers left (functions that
    change the list themselves are not modelled). *)
Fixpoint mg_timer_poll (head : list mg_timer) (now : Z) : list nat * list mg_timer :=
  match head with
  | [] => ([], [])
  | t :: rest =>
      let '(call, t', delete) := poll_timer now t in
      let '(calls, rest') := mg_timer_poll rest now in
      ((if (call : bool) then id t :: calls else calls),
       if (delete : bool) then rest' else t' :: rest')
  end.

(** The polls of one timer at the given times: how often it expired. *)
Fixpoint expirations (t prd : Z) (nows : list Z) : nat * Z :=
  match nows with
  | [] => (O, t)
  | now :: nows' =>
      let '(b, t') := mg_timer_expired t prd now in
      let '(n, t'') := expirations t' prd nows' in
      (if (b : bool) then S n else n, t'')
  end.

(** Times that do not go backwards and whose sums with the period do not wrap. *)
Fixpoint clock (prd start : Z) (nows : list Z) : Prop :=
  match nows with
  | [] => True
  | now :: nows' => start <= now /\ now + prd < 2 ^ 64 /\ clock prd now nows'
  end.

(** The last of the times. *)
Fixpoint last_time (start : Z) (nows : list Z) : Z :=
  match nows with [] => start | now :: nows' => last_time now nows' end.

Lemma expired_cases t prd now :
  0 < t <= now + prd -> 0 <= now -> 0 < prd -> now + prd < 2 ^ 64 ->
  let '(b, t') := mg_timer_expired t prd now in
  b = (t <=? now) /\ 0 < t' <= now + prd /\ (if b then t + prd <= t' /\ now <= t' else t' = t).
Proof.
  intros Ht Hn Hp Hw. unfold mg_timer_expired. rewrite (u64_small (now + prd)) by lia.
  rewrite (proj2 (Z.ltb_ge (now + prd) t)) by lia. rewrite (proj2 (Z.eqb_neq t 0)) by lia.
  destruct (Z.ltb_spec now t).
  - split_and!; [symmetry; apply Z.leb_gt; lia|lia|lia|done].
  - rewrite (u64_small (now - t)) by lia.
    destruct (Z.ltb_spec prd (now - t)); rewrite ?(u64_small (t + prd)) by lia;
      (split_and!; [symmetry; apply Z.leb_le; lia|lia..]).
Qed.

Lemma expirations_bound prd nows : 0 < prd -> forall start t,
  0 <= start -> clock prd start nows -> 0 < t <= start + prd ->
  let '(n, t') := expirations t prd nows in
  t + Z.of_nat n * prd <= t' /\ t' <= last_time start nows + prd.
Proof.
  intros Hp. induction nows as [|now nows IH]; intros start t Hs Hc Ht; cbn [expirations].
  { simpl. lia. }
  destruct Hc as (Hsn & Hw & Hc).
  pose proof (expired_cases t prd now ltac:(lia) ltac:(lia) Hp Hw) as He.
  destruct (mg_timer_expired t prd now) as [b t1]. destruct He as (_ & Ht1 & Hb).
  specialize (IH now t1 ltac:(lia) Hc Ht1). destruct (expirations t1 prd nows) as [n t2].
  cbn [last_time]. destruct b; nia.
Qed.

(** A periodic timer never runs faster than its period: started at time [t0], then
    polled at any non-decreasing times however irregular, it has expired at most
    (now - t0) / period times at time now, and on the first poll it does not expire but
    is armed for t0 + period. *)
Theorem timer_rate (prd t0 : Z) (nows : list Z) (Hp : 0 < prd) (Ht0 : 0 <= t0)
  (Hw : t0 + prd < 2 ^ 64) (Hc : clock prd t0 nows) :
  mg_timer_expired 0 prd t0 = (false, t0 + prd) /\
  Z.of_nat (fst (expirations (t0 + prd) prd nows)) * prd <= last_time t0 nows - t0.
Proof.
  split.
  - unfold mg_timer_expired. rewrite u64_small by lia.
    rewrite (proj2 (Z.ltb_ge (t0 + prd) 0)) by lia. simpl.
    by rewrite (proj2 (Z.ltb_lt t0 (t0 + prd))) by lia.
  - pose proof (expirations_bound prd nows Hp t0 (t0 + prd) Ht0 Hc ltac:(lia)) as H.
    destruct (expirations _ _ _) as [n t']. simpl. lia.
Qed.

Lemma timer_rate_witness :
  mg_timer_expired 0 100 5 = (false, 105) /\
  Z.of_nat (fst (expirations (5 + 100) 100 [50; 105; 106; 700; 700])) * 100 <= 700 - 5.
Proof. apply (timer_rate 100 5 [50; 105; 106; 700; 700]); simpl; lia. Defined.

(** How often a timer's function is called over a sequence of polls. *)
Fixpoint calls_of (t : mg_timer) (nows : list Z) : nat :=
  match nows with
  | [] => O
  | now :: nows' =>
      let '(call, t', delete) := poll_timer now t in
      ((if (call : bool) then 1 else 0) + (if (delete : bool) then 0 else calls_of t' nows'))%nat
  end.

Lemma has_lor_other fl f : Z.land f MG_TIMER_CALLED = 0 -> has (Z.lor fl MG_TIMER_CALLED) f = has fl f.
Proof.
  intros H. unfold has. rewrite Z.land_lor_distr_l, (Z.land_comm MG_TIMER_CALLED), H.
  by rewrite Z.lor_0_r.
Qed.

Lemma has_called fl : has (Z.lor fl MG_TIMER_CALLED) MG_TIMER_CALLED = true.
Proof.
  unfold has. rewrite Z.land_lor_distr_l. change (Z.land MG_TIMER_CALLED MG_TIMER_CALLED) with 4.
  apply negb_true_iff, Z.eqb_neq. intros E. apply (f_equal (fun z => Z.testbit z 2)) in E.
  rewrite Z.lor_spec, Z.bits_0 in E. change (Z.testbit 4 2) with true in E.
  by rewrite orb_true_r in E.
Qed.

Lemma called_never_again nows : forall t,
  has (flags t) MG_TIMER_REPEAT = false -> has (flags t) MG_TIMER_CALLED = true ->
  calls_of t nows = O.
Proof.
  induction nows as [|now nows IH]; intros t Hr Hc; [done|]. cbn [calls_of].
  unfold poll_timer. destruct (mg_timer_expired _ _ _) as [b e]. rewrite Hc, Hr.
  destruct (negb _ && negb b); cbn [orb negb].
  - by rewrite IH.
  - rewrite has_lor_other by reflexivity. rewrite Hr. destruct (_ && _); [done|].
    rewrite IH; [done|simpl; by rewrite has_lor_other|apply has_called].
Qed.

(** A timer without the repeat flag calls its function at most once, whatever the
    poll times, the period and the other flags. *)
Theorem one_shot_once (t : mg_timer) (nows : list Z)
  (Hr : has (flags t) MG_TIMER_REPEAT = false) : (calls_of t nows <= 1)%nat.
Proof.
  revert t Hr. induction nows as [|now nows IH]; intros t Hr; [simpl; lia|]. cbn [calls_of].
  unfold poll_timer. destruct (mg_timer_expired _ _ _) as [b e].
  destruct (negb _ && negb b); [by apply IH|].
  set (call := if _ || _ then 1%nat else 0%nat).
  assert (call <= 1)%nat by (subst call; destruct (_ || _); lia).
  destruct (_ && _); [lia|]. rewrite called_never_again; [lia|simpl; by rewrite has_lor_other|apply has_called].
Qed.

Lemma one_shot_once_witness : Nat.le (calls_of (timer 1 10 0 2) [5; 6; 40; 41]) 1.
Proof. apply (one_shot_once (timer 1 10 0 2) [5; 6; 40; 41]). reflexivity. Defined.
End Timer.
