(* ===== verification/Ws.v ===== *)
(** * Ws: WebSocket framing (mongoose/mongoose.c, lines 20033-20250)

    Frames are parsed from and written to lists of bytes; a read outside has no value.
    [size_t] has 32 bits.  The frame loop of [mg_ws_cb] works on the contents of the
    receive buffer, deletes as [Iobuf.mg_iobuf_del] is proved to, and records the events
    it raises and the frames it sends. *)

From S2P Require Import Prelude.

Definition WEBSOCKET_OP_CONTINUE : Z := 0.
Definition WEBSOCKET_OP_TEXT : Z := 1.
Definition WEBSOCKET_OP_BINARY : Z := 2.
Definition WEBSOCKET_OP_CLOSE : Z := 8.
Definition WEBSOCKET_OP_PING : Z := 9.
Definition WEBSOCKET_OP_PONG : Z := 10.

Record ws_msg := wsm { flags : Z; header_len : Z; data_len : Z }.

Definition be32 (p : list Z) : Z :=
  Z.lor (Z.lor (Z.lor (nth 3 p 0) (Z.shiftl (nth 2 p 0) 8)) (Z.shiftl (nth 1 p 0) 16))
        (Z.shiftl (nth 0 p 0) 24).

(** [p[i] ^= m[i & 3]] for every [i]. *)
Definition xor_mask (m : list Z) (p : list Z) : list Z :=
  imap (fun i x => Z.lxor x (nth (i mod 4) m 0)) p.

(** The header of the frame at the start of [buf]. *)
Definition ws_header (buf : list Z) : option (ws_msg * Z) :=
  let len := Zlen buf in
  if 2 <=? len then
    b0 ← rd buf 0; b1 ← rd buf 1;
    let n := Z.land b1 127 in
    let mask_len := if Z.land b1 128 =? 0 then 0 else 4 in
    if (n <? 126) && (mask_len <=? len) then Some (wsm b0 (2 + mask_len) n, mask_len)
    else if (n =? 126) && (4 + mask_len <=? len) then
      b2 ← rd buf 2; b3 ← rd buf 3;
      Some (wsm b0 (4 + mask_len) (Z.lor (Z.shiftl b2 8) b3), mask_len)
    else if 10 + mask_len <=? len then
      let hi := be32 (take 4 (drop 2 buf)) in
      let lo := be32 (take 4 (drop 6 buf)) in
      Some (wsm b0 (10 + mask_len) (u32 (u64 (Z.shiftl hi 32 + lo))), mask_len)
    else Some (wsm b0 0 0, mask_len)
  else Some (wsm 0 0 0, 0).

(** The number of bytes of the frame (0: not complete), the message and the buffer with
    the payload unmasked in place. *)
Definition ws_process (buf : list Z) : option (Z * ws_msg * list Z) :=
  '(msg, mask_len) ← ws_header buf;
  if 1024 * 1024 * 1024 <? data_len msg then Some (0, msg, buf)
  else if Zlen buf <? u32 (header_len msg + data_len msg) then Some (0, msg, buf)
  else
    let h := Z.to_nat (header_len msg) in
    let n := Z.to_nat (data_len msg) in
    let buf' :=
      if 0 <? mask_len then
        let m := take 4 (drop (h - 4) buf) in
        take h buf ++ xor_mask m (take n (drop h buf)) ++ drop (h + n) buf
      else buf in
    Some (header_len msg + data_len msg, msg, buf').

(** The header [mkhdr] writes; [rnd] are the four random mask bytes of a client. *)
Definition mkhdr (len op : Z) (is_client : bool) (rnd : list Z) : list Z :=
  let b0 := u8 (Z.lor op 128) in
  let m b1 := if is_client then Z.lor b1 128 else b1 in
  let tail := if is_client then take 4 rnd else [] in
  if len <? 126 then [b0; m len] ++ tail
  else if len <? 65536 then [b0; m 126; len / 256; len mod 256] ++ tail
  else
    let hi := u32 (Z.shiftr (u64 len) 32) in
    let lo := Z.land len 4294967295 in
    [b0; m 127; Z.shiftr hi 24; Z.land (Z.shiftr hi 16) 255; Z.land (Z.shiftr hi 8) 255; Z.land hi 255;
     Z.shiftr lo 24; Z.land (Z.shiftr lo 16) 255; Z.land (Z.shiftr lo 8) 255; Z.land lo 255] ++ tail.

(** A frame: header and payload, masked by a client. *)
Definition ws_frame (data : list Z) (op : Z) (is_client : bool) (rnd : list Z) : list Z :=
  mkhdr (Zlen data) op is_client rnd ++ (if is_client then xor_mask (take 4 rnd) data else data).

(** [mg_ws_mask]: the last [len] bytes of the send buffer, with the four bytes before them. *)
Definition mg_ws_mask (is_client : bool) (send : list Z) (len : Z) : list Z :=
  let p := (length send - Z.to_nat len)%nat in
  if is_client then take p send ++ xor_mask (take 4 (drop (p - 4) send)) (drop p send) else send.

(** [mg_ws_send] on the send buffer [send]: what it returns and the buffer afterwards.  [ok_header] and
    [ok_data] say whether the two calls of [mg_send] find memory. *)
Definition mg_ws_send (ok_header ok_data : bool) (send data : list Z) (op : Z) (is_client : bool) (rnd : list Z) : Z * list Z :=
  let header := mkhdr (Zlen data) op is_client rnd in
  if negb ok_header then (0, send)
  else
    let send := send ++ header in
    if negb ok_data then (Zlen header, send)
    else (Zlen header + Zlen data, mg_ws_mask is_client (send ++ data) (Zlen data)).

(** [mg_ws_wrap]: a frame around the last [len] bytes of the send buffer, if there is memory for the header. *)
Definition mg_ws_wrap (ok : bool) (send : list Z) (len op : Z) (is_client : bool) (rnd : list Z) : list Z :=
  let keep := take (length send - Z.to_nat len) send in
  let data := drop (length send - Z.to_nat len) send in
  if ok then mg_ws_mask is_client (keep ++ mkhdr len op is_client rnd ++ data) len else send.

Example ws_rt_ex :
  ws_process (snd (mg_ws_send true true [] [72; 105] 1 true [1; 2; 3; 4]) ++ [9]) =
  Some (8, wsm 129 6 2, [129; 130; 1; 2; 3; 4; 72; 105; 9]).
Proof. reflexivity. Qed.

(** The length is cut to 32 bits before the size check: a frame announcing 2^32 + 1 bytes
    is taken for one of a single byte. *)
Example ws_len_truncated :
  ws_process ([130; 127; 0; 0; 0; 1; 0; 0; 0; 1] ++ [65; 66]) =
  Some (11, wsm 130 10 1, [130; 127; 0; 0; 0; 1; 0; 0; 0; 1; 65; 66]).
Proof. reflexivity. Qed.

(** ** Masking *)

Lemma xor_mask_len m p : length (xor_mask m p) = length p.
Proof. apply length_imap. Qed.

Lemma xor_mask_involutive m p : xor_mask m (xor_mask m p) = p.
Proof.
  unfold xor_mask. apply list_eq. intros i. rewrite !list_lookup_imap.
  destruct (p !! i) as [x|]; simpl; [|done]. f_equal.
  rewrite Z.lxor_assoc, Z.lxor_nilpotent. apply Z.lxor_0_r.
Qed.

(** ** Frames *)

Lemma lor_op_128 op : 0 <= op < 128 -> u8 (Z.lor op 128) = op + 128.
Proof.
  intros H. rewrite Z.lor_comm. change 128 with (Z.shiftl 1 7) at 1.
  rewrite lor_disjoint_add by lia. rewrite u8_small; lia.
Qed.

Lemma mask_bit b : 0 <= b < 128 ->
  Z.land (Z.lor b 128) 127 = b /\ (Z.land (Z.lor b 128) 128 =? 0) = false /\
  Z.land b 127 = b /\ (Z.land b 128 =? 0) = true.
Proof.
  intros H. cut (((Z.land (Z.lor b 128) 127 =? b) && negb (Z.land (Z.lor b 128) 128 =? 0) &&
    (Z.land b 127 =? b) && (Z.land b 128 =? 0)) = true).
  { intros E. zbool. split_and!; [done|by apply Z.eqb_neq|done|by apply Z.eqb_eq]. }
  revert b H. apply (forallb_seqZ (fun b => (Z.land (Z.lor b 128) 127 =? b) &&
    negb (Z.land (Z.lor b 128) 128 =? 0) && (Z.land b 127 =? b) && (Z.land b 128 =? 0)) 128).
  vm_compute. reflexivity.
Qed.

Lemma land_255 a : Z.land a 255 = a mod 256.
Proof. change 255 with (Z.ones 8). rewrite Z.land_ones by lia. done. Qed.

Lemma be32_of a b c d : is_byte a -> is_byte b -> is_byte c -> is_byte d ->
  be32 [a; b; c; d] = a * 2 ^ 24 + b * 2 ^ 16 + c * 2 ^ 8 + d.
Proof.
  unfold is_byte, be32. simpl nth. intros Ha Hb Hc Hd.
  rewrite (Z.lor_comm d), lor_disjoint_add by lia.
  rewrite (Z.lor_comm _ (Z.shiftl b 16)), lor_disjoint_add by lia.
  rewrite (Z.lor_comm _ (Z.shiftl a 24)), lor_disjoint_add by lia. lia.
Qed.

Lemma rd_0 (a : Z) l : rd (a :: l) 0 = Some a.
Proof. done. Qed.
Lemma rd_1 (a b : Z) l : rd (a :: b :: l) 1 = Some b.
Proof. done. Qed.
Lemma rd_2 (a b c : Z) l : rd (a :: b :: c :: l) 2 = Some c.
Proof. done. Qed.
Lemma rd_3 (a b c d : Z) l : rd (a :: b :: c :: d :: l) 3 = Some d.
Proof. done. Qed.

(** The second byte of a header, with or without the mask flag. *)
Definition b1_of (client : bool) (b : Z) : Z := if client then Z.lor b 128 else b.

Lemma b1_of_spec client b : 0 <= b < 128 ->
  Z.land (b1_of client b) 127 = b /\
  (if Z.land (b1_of client b) 128 =? 0 then 0 else 4) = (if client then 4 else 0).
Proof.
  intros Hb. destruct (mask_bit b Hb) as (H1 & H2 & H3 & H4). unfold b1_of.
  destruct client; [by rewrite H1, H2|by rewrite H3, H4].
Qed.

Lemma lo_bytes len : 0 <= len < 2 ^ 32 ->
  be32 [Z.shiftr len 24; Z.land (Z.shiftr len 16) 255; Z.land (Z.shiftr len 8) 255; Z.land len 255] = len.
Proof.
  intros H. rewrite !land_255, !Z.shiftr_div_pow2 by lia.
  rewrite be32_of; unfold is_byte; change (2 ^ 24) with 16777216; change (2 ^ 16) with 65536;
    change (2 ^ 8) with 256; dlia.
Qed.

(** The header [mkhdr] wrote is read back, whatever follows it. *)
Lemma header_roundtrip len op client rnd rest :
  0 <= len < 2 ^ 32 -> 0 <= op < 128 -> (4 <= length rnd)%nat ->
  let h := mkhdr len op client rnd in
  ws_header (h ++ rest) = Some (wsm (op + 128) (Zlen h) len, if client then 4 else 0).
Proof.
  intros Hlen Hop Hr. cbn zeta. unfold mkhdr. rewrite lor_op_128 by done.
  set (tl := if client then take 4 rnd else []).
  assert (Zlen tl = if client then 4 else 0) as Htl.
  { subst tl. destruct client; [|done]. unfold Zlen. rewrite length_take. lia. }
  set (ml := if client then 4 else 0) in *.
  assert (0 <= ml <= 4) as Hml by (subst ml; destruct client; lia).
  pose proof (Zlen_nonneg rest) as Hrest.
  destruct (Z.ltb_spec len 126) as [H1|H1]; [|destruct (Z.ltb_spec len 65536) as [H2|H2]];
    unfold ws_header; rewrite <- app_assoc; simpl app; cbn zeta; rewrite !Zlen_cons, Zlen_app, Htl.
  - destruct (b1_of_spec client len) as [Hn Hm]; [lia|]. fold ml in Hm. unfold b1_of in *.
    ztests. rewrite rd_0, rd_1. cbn [mbind option_bind]. rewrite Hn, Hm. ztests.
    do 3 f_equal. lia.
  - destruct (b1_of_spec client 126) as [Hn Hm]; [lia|]. fold ml in Hm. unfold b1_of in *.
    ztests. rewrite rd_0, rd_1, rd_2, rd_3. cbn [mbind option_bind]. rewrite Hn, Hm. ztests.
    rewrite lor_disjoint_add by (change (2 ^ 8) with 256; dlia).
    do 3 f_equal; [lia|]. change (2 ^ 8) with 256. dlia.
  - destruct (b1_of_spec client 127) as [Hn Hm]; [lia|]. fold ml in Hm. unfold b1_of in *.
    ztests. rewrite rd_0, rd_1. cbn [mbind option_bind]. rewrite Hn, Hm. ztests.
    assert (u32 (Z.shiftr (u64 len) 32) = 0) as ->.
    { rewrite u64_small by lia. rewrite Z.shiftr_div_pow2, Z.div_small by lia. done. }
    assert (Z.land len 4294967295 = len) as ->.
    { change 4294967295 with (Z.ones 32). rewrite Z.land_ones by lia. apply Z.mod_small. lia. }
    simpl drop. simpl take. rewrite take_0, (lo_bytes len), (lo_bytes 0) by (done || lia).
    rewrite Z.shiftl_0_l, Z.add_0_l, u64_small, u32_small by lia. do 3 f_equal. lia.
Qed.

Lemma mkhdr_len len op client rnd :
  (4 <= length rnd)%nat -> 2 <= Zlen (mkhdr len op client rnd) <= 14.
Proof.
  intros Hr. unfold mkhdr.
  assert (0 <= Zlen (if client then take 4 rnd else []) <= 4).
  { destruct client; [|done]. unfold Zlen. rewrite length_take. lia. }
  destruct (len <? 126); [|destruct (len <? 65536)]; rewrite Zlen_app;
    match goal with |- context [Zlen ?l + _] => let n := eval cbv in (Zlen (map (fun _ => tt) l)) in
      change (Zlen l) with n || (replace (Zlen l) with n by reflexivity) end; lia.
Qed.

(** A client's header ends with its mask. *)
Lemma mkhdr_mask len op rnd : (4 <= length rnd)%nat ->
  let h := mkhdr len op true rnd in
  drop (length h - 4) h = take 4 rnd /\ (6 <= length h)%nat.
Proof.
  intros Hr. cbn zeta. unfold mkhdr.
  assert (length (take 4 rnd) = 4%nat) as Ht by (rewrite length_take; lia).
  destruct (len <? 126); [|destruct (len <? 65536)]; rewrite !length_app, Ht;
    (split; [rewrite drop_app_length'; [done|simpl; lia]|simpl; lia]).
Qed.

(** Processing a frame whose header is understood. *)
Lemma process_generic h fl data (client : bool) rnd rest :
  let body := if client then xor_mask (take 4 rnd) data else data in
  ws_header (h ++ body ++ rest) = Some (wsm fl (Zlen h) (Zlen data), if client then 4 else 0) ->
  (client = true -> drop (length h - 4) h = take 4 rnd /\ (6 <= length h)%nat) ->
  Zlen data <= 1024 * 1024 * 1024 -> Zlen h <= 14 ->
  ws_process (h ++ body ++ rest) =
  Some (Zlen h + Zlen data, wsm fl (Zlen h) (Zlen data), h ++ data ++ rest).
Proof.
  intros body Hhd Hm Hl Hh. pose proof (Zlen_nonneg data). pose proof (Zlen_nonneg rest).
  pose proof (Zlen_nonneg h).
  assert (length body = length data) as Hb
    by (subst body; destruct client; [apply xor_mask_len|done]).
  unfold ws_process. rewrite Hhd. cbn [mbind option_bind data_len header_len].
  rewrite (proj2 (Z.ltb_ge _ (Zlen data))) by lia. rewrite u32_small by lia.
  rewrite (proj2 (Z.ltb_ge _ _)) by (rewrite !Zlen_app; unfold Zlen in *; lia).
  do 2 f_equal. destruct client; cbn [Z.ltb Z.compare]; [|done].
  destruct (Hm eq_refl) as [Hm1 Hm4].
  assert (Z.to_nat (Zlen h) = length h) as -> by (unfold Zlen; lia).
  assert (Z.to_nat (Zlen data) = length body) as -> by (unfold Zlen; lia).
  rewrite take_app_length, drop_app_length, take_app_length.
  rewrite (app_assoc h body rest), <- (length_app h body), drop_app_length.
  rewrite <- app_assoc, drop_app_le, take_app_le by (rewrite ?length_drop; lia).
  rewrite Hm1, take_take. replace (min 4 4) with 4%nat by lia.
  subst body. by rewrite xor_mask_involutive.
Qed.

Lemma ws_process_frame data op client rnd rest :
  0 <= op < 128 -> (4 <= length rnd)%nat -> Zlen data <= 1024 * 1024 * 1024 ->
  let h := mkhdr (Zlen data) op client rnd in
  ws_process (ws_frame data op client rnd ++ rest) =
  Some (Zlen h + Zlen data, wsm (op + 128) (Zlen h) (Zlen data), h ++ data ++ rest).
Proof.
  intros Hop Hr Hl. cbn zeta. unfold ws_frame. rewrite <- app_assoc.
  pose proof (Zlen_nonneg data). apply process_generic; [|intros ->|done|].
  - apply header_roundtrip; done || lia.
  - by apply mkhdr_mask.
  - pose proof (mkhdr_len (Zlen data) op client rnd Hr). lia.
Qed.

(** Masking in the send buffer gives the frame. *)
Lemma mask_frame send data op client rnd : (4 <= length rnd)%nat ->
  mg_ws_mask client (send ++ mkhdr (Zlen data) op client rnd ++ data) (Zlen data) = send ++ ws_frame data op client rnd.
Proof.
  intros Hr. unfold mg_ws_mask, ws_frame. destruct client; [|done].
  destruct (mkhdr_mask (Zlen data) op rnd Hr) as [Hm Hl]. set (h := mkhdr _ _ _ _) in *.
  rewrite !length_app. unfold Zlen. rewrite Nat2Z.id, !app_assoc.
  replace (length send + (length h + length data) - length data)%nat with (length (send ++ h)) by (rewrite length_app; lia).
  rewrite take_app_length, drop_app_length. do 2 f_equal.
  rewrite drop_app_le, (drop_app_ge send) by (rewrite length_app; lia).
  replace (length (send ++ h) - 4 - length send)%nat with (length h - 4)%nat by (rewrite length_app; lia).
  rewrite Hm, take_app_le by (rewrite length_take; lia). by rewrite take_take.
Qed.

(** [mg_ws_wrap] with memory makes the same frame. *)
Lemma wrap_frame keep data op client rnd : (4 <= length rnd)%nat ->
  mg_ws_wrap true (keep ++ data) (Zlen data) op client rnd = keep ++ ws_frame data op client rnd.
Proof.
  intros Hr. unfold mg_ws_wrap. rewrite length_app.
  replace (length keep + length data - Z.to_nat (Zlen data))%nat with (length keep) by (unfold Zlen; lia).
  rewrite take_app_length, drop_app_length. by apply mask_frame.
Qed.

(** C35: a frame written by [mg_ws_send] behind whatever the send buffer holds, by a client with any mask or by
    a server, with any payload up to 1 GiB (all three length encodings), is read back by [ws_process]
    whatever bytes follow it: the same opcode with the final bit, the same length, the
    payload unmasked in place, the following bytes untouched; the length of the frame is returned.
    Without memory for the payload only the header is written, without memory for the header nothing. *)
Theorem ws_frame_roundtrip (send data rnd rest : list Z) (op : Z) (client : bool)
  (Hd : is_bytes data) (Hop : 0 <= op < 16) (Hr : length rnd = 4%nat)
  (Hl : Zlen data <= 1024 * 1024 * 1024) :
  exists h, let payload := if client then xor_mask rnd data else data in
    mg_ws_send true true send data op client rnd = (Zlen h + Zlen data, send ++ h ++ payload) /\
    ws_process (h ++ payload ++ rest) =
      Some (Zlen h + Zlen data, wsm (op + 128) (Zlen h) (Zlen data), h ++ data ++ rest) /\
    mg_ws_send true false send data op client rnd = (Zlen h, send ++ h) /\
    (forall ok, mg_ws_send false ok send data op client rnd = (0, send)).
Proof.
  exists (mkhdr (Zlen data) op client rnd). cbv zeta.
  assert (ws_frame data op client rnd = mkhdr (Zlen data) op client rnd ++ (if client then xor_mask rnd data else data)) as Ef
    by (unfold ws_frame; by rewrite take_ge by lia).
  split_and!; [| |done|done].
  - unfold mg_ws_send. cbn [negb]. by rewrite <- app_assoc, mask_frame, Ef by lia.
  - rewrite app_assoc, <- Ef. apply ws_process_frame; lia.
Qed.

Lemma ws_frame_roundtrip_witness : exists h,
  mg_ws_send true true [9] (replicate 200 7) 1 true [1; 2; 3; 4] =
    (Zlen h + 200, [9] ++ h ++ xor_mask [1; 2; 3; 4] (replicate 200 7)) /\
  ws_process (h ++ xor_mask [1; 2; 3; 4] (replicate 200 7) ++ [5]) =
    Some (Zlen h + 200, wsm (1 + 128) (Zlen h) 200, h ++ replicate 200 7 ++ [5]).
Proof.
  destruct (ws_frame_roundtrip [9] (replicate 200 7) [1; 2; 3; 4] [5] 1 true) as (h & H1 & H2 & _);
    [apply Forall_replicate; done|lia|reflexivity|vm_compute; congruence|].
  exists h. split; [exact H1|exact H2].
Defined.

(** Any bytes at all: the parser is safe. *)
Lemma ws_header_total buf : is_bytes buf -> exists msg ml, ws_header buf = Some (msg, ml) /\
  (ml = 0 \/ ml = 4) /\ 0 <= header_len msg <= 14 /\ 0 <= data_len msg < 2 ^ 32 /\
  (header_len msg = 0 -> data_len msg = 0) /\ (0 < header_len msg -> 2 + ml <= header_len msg).
Proof.
  intros Hbytes. unfold ws_header. destruct (Z.leb_spec 2 (Zlen buf)) as [Hl|Hl].
  2:{ exists (wsm 0 0 0), 0. simpl. split_and!; auto; lia. }
  destruct (rd_is_Some buf 0) as [b0 ->]; [lia|]. destruct (rd_is_Some buf 1) as [b1 ->]; [lia|].
  cbn [mbind option_bind]. set (ml := if _ =? 0 then 0 else 4).
  assert (ml = 0 \/ ml = 4) as Hml by (subst ml; destruct (_ =? 0); auto).
  clearbody ml.
  assert (0 <= Z.land b1 127 < 2 ^ 7) as H7 by (apply land_small_r; lia).
  destruct (_ && (ml <=? _)); [do 2 eexists; split; [reflexivity|]; simpl; lia|].
  destruct ((_ =? 126) && (4 + ml <=? Zlen buf)) eqn:E.
  - zbool. destruct (rd_is_Some buf 2) as [b2 E2]; [lia|]. destruct (rd_is_Some buf 3) as [b3 E3]; [lia|].
    rewrite E2, E3. pose proof (rd_byte _ _ _ Hbytes E2) as B2. pose proof (rd_byte _ _ _ Hbytes E3) as B3.
    unfold is_byte in B2, B3. do 2 eexists. split; [reflexivity|]. simpl.
    rewrite lor_disjoint_add by lia. lia.
  - clear E. destruct (10 + ml <=? Zlen buf); do 2 eexists; (split; [reflexivity|]); simpl; [|lia].
    pose proof (u32_range (u64 (Z.shiftl (be32 (take 4 (drop 2 buf))) 32 + be32 (take 4 (drop 6 buf))))).
    lia.
Qed.

(** [ws_process] is safe on every input: it reads only inside the received bytes, a
    positive result is the length of a complete frame inside them with a header of at
    least two bytes, and nothing but the payload changes in the buffer. *)
Theorem ws_process_safe (buf : list Z) (Hbytes : is_bytes buf) :
  exists n msg buf', ws_process buf = Some (n, msg, buf') /\
    (n = 0 /\ buf' = buf \/
     (2 <= header_len msg /\ n = header_len msg + data_len msg /\ n <= Zlen buf /\
      exists p, Zlen p = data_len msg /\
        buf' = take (Z.to_nat (header_len msg)) buf ++ p ++ drop (Z.to_nat n) buf)).
Proof.
  unfold ws_process.
  destruct (ws_header_total buf Hbytes) as (msg & ml & E & Hml & Hh & Hd & Hz & H2).
  rewrite E. cbn [mbind option_bind].
  destruct (Z.ltb_spec (1024 * 1024 * 1024) (data_len msg)); [do 3 eexists; split; [done|]; by left|].
  rewrite u32_small by lia.
  destruct (Z.ltb_spec (Zlen buf) (header_len msg + data_len msg)); [do 3 eexists; split; [done|]; by left|].
  set (h := Z.to_nat (header_len msg)). set (n := Z.to_nat (data_len msg)).
  assert (buf = take h buf ++ take n (drop h buf) ++ drop (h + n) buf) as Hsplit
    by (rewrite <- drop_drop, !take_drop; done).
  do 3 eexists. split; [done|].
  destruct (decide (header_len msg = 0)) as [Hh0|Hh0].
  - left. split; [rewrite (Hz Hh0), Hh0; done|]. destruct (0 <? ml); [|done].
    assert (n = 0%nat) as -> by (subst n; by rewrite (Hz Hh0)).
    assert (h = 0%nat) as -> by (subst h; by rewrite Hh0). by rewrite !take_0.
  - right. split_and!; [lia|lia|lia|].
    exists (if 0 <? ml then xor_mask (take 4 (drop (h - 4) buf)) (take n (drop h buf)) else take n (drop h buf)).
    split.
    + assert (Zlen (take n (drop h buf)) = data_len msg)
        by (unfold Zlen in *; rewrite length_take, length_drop; lia).
      destruct (0 <? ml); [|done]. unfold Zlen in *. by rewrite xor_mask_len.
    + replace (Z.to_nat (header_len msg + data_len msg)) with (h + n)%nat by lia.
      destruct (0 <? ml); done.
Qed.

Lemma ws_process_safe_witness :
  exists n msg buf', ws_process [129; 255; 1] = Some (n, msg, buf') /\
    (n = 0 /\ buf' = [129; 255; 1] \/
     (2 <= header_len msg /\ n = header_len msg + data_len msg /\ n <= 3 /\
      exists p, Zlen p = data_len msg /\
        buf' = take (Z.to_nat (header_len msg)) [129; 255; 1] ++ p ++ drop (Z.to_nat n) [129; 255; 1])).
Proof. apply (ws_process_safe [129; 255; 1]). repeat constructor; done. Defined.

(** ** The frame loop *)

Inductive ws_event :=
| EV_WS_MSG (fl : Z) (data : list Z)
| EV_WS_CTL (fl : Z) (data : list Z)
| EV_ERROR (op : Z).

(** The connection as the loop sees it: received bytes, the length of the part of them
    that belongs to an unfinished message ([pfn_data]), what was sent, the flags it sets
    and the events raised so far. *)
Record ws_conn := wsc {
  recv : list Z;
  ofs : Z;
  sent : list Z;
  is_draining : bool;
  is_closing : bool;
  events : list ws_event
}.

Definition idel (l : list Z) (o n : Z) : list Z := take (Z.to_nat o) l ++ drop (Z.to_nat (o + n)) l.

Section Loop.
Context (is_client : bool) (rnd : list Z).

(** The switch on the opcode; the answers find memory in the send buffer. *)
Definition ws_dispatch (c : ws_conn) (fl : Z) (data : list Z) : ws_conn :=
  let final := negb (Z.land fl 128 =? 0) in
  let op := Z.land fl 15 in
  let add e := wsc (recv c) (ofs c) (sent c) (is_draining c) (is_closing c) (events c ++ [e]) in
  if op =? WEBSOCKET_OP_CONTINUE then add (EV_WS_CTL fl data)
  else if op =? WEBSOCKET_OP_PING then
    wsc (recv c) (ofs c) (snd (mg_ws_send true true (sent c) data WEBSOCKET_OP_PONG is_client rnd))
        (is_draining c) (is_closing c) (events c ++ [EV_WS_CTL fl data])
  else if op =? WEBSOCKET_OP_PONG then add (EV_WS_CTL fl data)
  else if (op =? WEBSOCKET_OP_TEXT) || (op =? WEBSOCKET_OP_BINARY) then
    if final then add (EV_WS_MSG fl data) else c
  else if op =? WEBSOCKET_OP_CLOSE then
    wsc (recv c) (ofs c) (snd (mg_ws_send true true (sent c) data WEBSOCKET_OP_CLOSE is_client rnd))
        true (is_closing c) (events c ++ [EV_WS_CTL fl data])
  else wsc (recv c) (ofs c) (sent c) (is_draining c) true (events c ++ [EV_ERROR op]).

(** One turn of the loop; [None] inside: no complete frame, the loop ends. *)
Definition ws_step (c : ws_conn) : option (option ws_conn) :=
  '(n, msg, buf') ← ws_process (drop (Z.to_nat (ofs c)) (recv c));
  if n <=? 0 then Some None
  else
    let r := take (Z.to_nat (ofs c)) (recv c) ++ buf' in
    let data := take (Z.to_nat (data_len msg)) (drop (Z.to_nat (header_len msg)) buf') in
    let final := negb (Z.land (flags msg) 128 =? 0) in
    let op := Z.land (flags msg) 15 in
    let len := header_len msg + data_len msg in
    let c := ws_dispatch (wsc r (ofs c) (sent c) (is_draining c) (is_closing c) (events c)) (flags msg) data in
    let c :=
      if negb final || (op =? 0) then
        let first := negb (op =? 0) in
        let o := if first then ofs c + 1 else ofs c in
        let l := if first then len - 1 else len in
        let h := if first then header_len msg - 1 else header_len msg in
        wsc (idel (recv c) o h) (o + (l - h)) (sent c) (is_draining c) (is_closing c) (events c)
      else c in
    let c :=
      if final && negb (op =? 0)
      then wsc (idel (recv c) (ofs c) len) (ofs c) (sent c) (is_draining c) (is_closing c) (events c)
      else c in
    if final && (op =? 0) && (0 <? ofs c) then
      fl ← rd (recv c) 0;
      Some (Some (wsc (idel (recv c) 0 (ofs c)) 0 (sent c) (is_draining c) (is_closing c)
        (events c ++ [EV_WS_MSG fl (take (Z.to_nat (ofs c - 1)) (drop 1 (recv c)))])))
    else Some (Some c).

Fixpoint ws_loop (fuel : nat) (c : ws_conn) : option ws_conn :=
  match fuel with
  | O => None
  | S fuel' =>
      r ← ws_step c;
      match r with
      | None => Some c
      | Some c' => ws_loop fuel' c'
      end
  end.

(** Every turn shortens the received bytes by a header at least. *)
Definition mg_ws_cb (c : ws_conn) : option ws_conn := ws_loop (S (length (recv c))) c.

(** ** A fragmented message *)

(** A frame with the first byte [b0], as a peer sends it. *)
Definition peer_frame (b0 : Z) (data : list Z) : list Z :=
  b0 :: tail (ws_frame data 0 is_client rnd).

Context (Hrnd : length rnd = 4%nat).

Lemma mkhdr_cons len : exists t, mkhdr len 0 is_client rnd = 128 :: t /\ (1 <= length t)%nat.
Proof.
  unfold mkhdr. destruct (len <? 126); [|destruct (len <? 65536)]; eexists; (split; [reflexivity|]); simpl; lia.
Qed.

(** The first byte only gives the flags. *)
Lemma ws_header_first a b t :
  ws_header (b :: t) =
  match ws_header (a :: t) with
  | Some (m, ml) => Some (wsm (if decide (t = []) then 0 else b) (header_len m) (data_len m), ml)
  | None => None
  end.
Proof.
  destruct t as [|x t]; [done|]. unfold ws_header. rewrite !Zlen_cons.
  pose proof (Zlen_nonneg t). ztests. rewrite !rd_0, !rd_1. cbn [mbind option_bind].
  rewrite decide_False by done. set (ml := if _ =? 0 then 0 else 4).
  change (rd (b :: x :: t) 2) with (rd (a :: x :: t) 2).
  change (rd (b :: x :: t) 3) with (rd (a :: x :: t) 3).
  change (drop 2 (b :: x :: t)) with (drop 2 (a :: x :: t)).
  change (drop 6 (b :: x :: t)) with (drop 6 (a :: x :: t)).
  destruct (_ && _); [done|]. destruct (_ && _).
  - destruct (rd _ 2); [|done]. by destruct (rd _ 3).
  - by destruct (_ <=? _).
Qed.

Lemma ws_process_peer b0 data rest :
  Zlen data <= 1024 * 1024 * 1024 ->
  exists h, hd 0 h = b0 /\ 2 <= Zlen h <= 14 /\ (length h <= length (peer_frame b0 data))%nat /\
    ws_process (peer_frame b0 data ++ rest) =
    Some (Zlen h + Zlen data, wsm b0 (Zlen h) (Zlen data), h ++ data ++ rest).
Proof.
  intros Hl. destruct (mkhdr_cons (Zlen data)) as (t & Et & Ht). pose proof (Zlen_nonneg data).
  pose proof (mkhdr_len (Zlen data) 0 is_client rnd ltac:(lia)) as Hh. rewrite Et, Zlen_cons in Hh.
  set (body := if is_client then xor_mask (take 4 rnd) data else data).
  assert (peer_frame b0 data ++ rest = (b0 :: t) ++ body ++ rest) as Ef.
  { unfold peer_frame, ws_frame. rewrite Et. simpl. by rewrite <- app_assoc. }
  exists (b0 :: t). split_and!; [done|rewrite Zlen_cons; lia|rewrite Zlen_cons; lia| |].
  - apply (f_equal length) in Ef. rewrite !length_app in Ef. lia.
  - rewrite Ef. apply process_generic; [| |done|rewrite Zlen_cons; lia].
    + fold body. simpl app. rewrite (ws_header_first 128).
      pose proof (header_roundtrip (Zlen data) 0 is_client rnd (body ++ rest)) as Hhd. cbn zeta in Hhd.
      rewrite Et in Hhd. simpl app in Hhd. rewrite Hhd by lia. rewrite decide_False.
      * cbn [header_len data_len]. by rewrite !Zlen_cons.
      * destruct t; [simpl in Ht; lia|done].
    + intros ->. destruct (mkhdr_mask (Zlen data) 0 rnd) as [Hm Hm4]; [lia|].
      rewrite Et in Hm, Hm4. split; [|exact Hm4]. simpl length in *.
      destruct (S (length t) - 4)%nat as [|k] eqn:Ek; [lia|exact Hm].
Qed.

Lemma idel_spec (a b r : list Z) o n : Zlen a = o -> Zlen b = n -> idel (a ++ b ++ r) o n = a ++ r.
Proof.
  intros <- <-. unfold idel, Zlen. rewrite Nat2Z.id, take_app_length. f_equal.
  replace (Z.to_nat _) with (length a + length b)%nat by lia.
  by rewrite <- drop_drop, !drop_app_length.
Qed.

(** The state of the loop while a message is being put together. *)
Definition gathering (c : ws_conn) (acc rest : list Z) : Prop :=
  recv c = acc ++ rest /\ ofs c = Zlen acc.

Definition with_recv (c : ws_conn) (r : list Z) (o : Z) (ev : list ws_event) : ws_conn :=
  wsc r o (sent c) (is_draining c) (is_closing c) (events c ++ ev).

Lemma take_drop_at (acc r : list Z) :
  drop (Z.to_nat (Zlen acc)) (acc ++ r) = r /\ take (Z.to_nat (Zlen acc)) (acc ++ r) = acc.
Proof. unfold Zlen. by rewrite Nat2Z.id, drop_app_length, take_app_length. Qed.

Lemma payload_at (h data rest : list Z) :
  take (Z.to_nat (Zlen data)) (drop (Z.to_nat (Zlen h)) (h ++ data ++ rest)) = data.
Proof. unfold Zlen. by rewrite !Nat2Z.id, drop_app_length, take_app_length. Qed.

(** Compute the bit tests on known flags. *)
Ltac eval_flags :=
  repeat match goal with
  | |- context [Z.land ?a ?b] => let v := eval vm_compute in (Z.land a b) in change (Z.land a b) with v
  end.

(** The first frame of a fragmented message: its flags and payload are kept. *)
Lemma step_first c op data rest :
  gathering c [] (peer_frame op data ++ rest) -> op = WEBSOCKET_OP_TEXT \/ op = WEBSOCKET_OP_BINARY ->
  Zlen data <= 1024 * 1024 * 1024 ->
  ws_step c = Some (Some (with_recv c (op :: data ++ rest) (Zlen (op :: data)) [])).
Proof.
  intros [Hr Ho] Hop Hl. change (Zlen []) with 0 in Ho. rewrite app_nil_l in Hr.
  destruct (ws_process_peer op data rest Hl) as (h & Hh0 & Hh & _ & Hp).
  unfold ws_step. rewrite Ho, Hr. change (Z.to_nat 0) with O. rewrite drop_0, take_0, Hp. cbn [mbind option_bind].
  pose proof (Zlen_nonneg data). rewrite (proj2 (Z.leb_gt _ 0)) by lia.
  cbn [flags header_len data_len].
  destruct h as [|x h]; [change (Zlen []) with 0 in Hh; lia|]. simpl in Hh0. subst x.
  unfold WEBSOCKET_OP_TEXT, WEBSOCKET_OP_BINARY in *.
  assert (forall b, idel (b :: h ++ data ++ rest) (0 + 1) (Zlen (b :: h) - 1) = b :: data ++ rest) as Hdel.
  { intros b. apply (idel_spec [b] h (data ++ rest)); [done|]. rewrite Zlen_cons. lia. }
  assert (forall b : Z, 0 + 1 + (Zlen (b :: h) + Zlen data - 1 - (Zlen (b :: h) - 1)) = Zlen (b :: data)) as Hlen
    by (intros b; rewrite !Zlen_cons; lia).
  unfold with_recv. rewrite app_nil_r.
  destruct Hop as [-> | ->]; unfold ws_dispatch; eval_flags; cbn -[Zlen idel Z.add Z.sub];
    by rewrite Hdel, Hlen.
Qed.

(** Common start of the next lemmas: the frame after the gathered part is parsed. *)
Lemma step_parsed c acc b0 data rest :
  gathering c acc (peer_frame b0 data ++ rest) -> Zlen data <= 1024 * 1024 * 1024 ->
  exists h, 2 <= Zlen h <= 14 /\
    drop (Z.to_nat (ofs c)) (recv c) = peer_frame b0 data ++ rest /\
    take (Z.to_nat (ofs c)) (recv c) = acc /\
    ws_process (peer_frame b0 data ++ rest) =
    Some (Zlen h + Zlen data, wsm b0 (Zlen h) (Zlen data), h ++ data ++ rest).
Proof.
  intros [Hr Ho] Hl. destruct (ws_process_peer b0 data rest Hl) as (h & _ & Hh & _ & Hp).
  exists h. rewrite Ho, Hr. destruct (take_drop_at acc (peer_frame b0 data ++ rest)) as [E1 E2].
  done.
Qed.

(** A continuation frame: its payload is appended. *)
Lemma step_more c acc data rest :
  gathering c acc (peer_frame 0 data ++ rest) -> Zlen data <= 1024 * 1024 * 1024 ->
  ws_step c = Some (Some (with_recv c (acc ++ data ++ rest) (Zlen (acc ++ data)) [EV_WS_CTL 0 data])).
Proof.
  intros Hg Hl. destruct (step_parsed c acc 0 data rest Hg Hl) as (h & Hh & Ed & Et & Hp).
  destruct Hg as [Hr Ho]. pose proof (Zlen_nonneg data).
  unfold ws_step. rewrite Ed, Hp. cbn [mbind option_bind]. rewrite (proj2 (Z.leb_gt _ 0)) by lia.
  cbn [flags header_len data_len]. rewrite Et, payload_at, Ho.
  unfold ws_dispatch. eval_flags. cbn -[Zlen idel Z.add Z.sub].
  rewrite (idel_spec acc h (data ++ rest)) by done. unfold with_recv. rewrite Zlen_app.
  do 3 f_equal. lia.
Qed.

(** The last continuation frame: the message is delivered and removed. *)
Lemma step_last c fl acc data rest :
  gathering c (fl :: acc) (peer_frame 128 data ++ rest) -> Zlen data <= 1024 * 1024 * 1024 ->
  ws_step c = Some (Some (with_recv c rest 0 [EV_WS_CTL 128 data; EV_WS_MSG fl (acc ++ data)])).
Proof.
  intros Hg Hl. destruct (step_parsed c (fl :: acc) 128 data rest Hg Hl) as (h & Hh & Ed & Et & Hp).
  destruct Hg as [Hr Ho]. pose proof (Zlen_nonneg data). pose proof (Zlen_nonneg acc).
  unfold ws_step. rewrite Ed, Hp. cbn [mbind option_bind]. rewrite (proj2 (Z.leb_gt _ 0)) by lia.
  cbn [flags header_len data_len]. rewrite Et, payload_at, Ho.
  unfold ws_dispatch. eval_flags. cbn -[Zlen idel Z.add Z.sub Z.ltb rd].
  rewrite (idel_spec (fl :: acc) h (data ++ rest)) by done.
  rewrite (proj2 (Z.ltb_lt 0 _)) by (rewrite Zlen_cons; lia).
  change ((fl :: acc) ++ data ++ rest) with (fl :: (acc ++ data ++ rest)). rewrite rd_0.
  cbn [mbind option_bind]. unfold with_recv. rewrite <- app_assoc. simpl app.
  replace (Zlen (fl :: acc) + (Zlen h + Zlen data - Zlen h)) with (Zlen (fl :: acc ++ data))
    by (rewrite !Zlen_cons, Zlen_app; lia).
  do 3 f_equal.
  - pose proof (idel_spec [] (fl :: acc ++ data) rest 0 _ eq_refl eq_refl) as Hi. simpl app in Hi.
    by rewrite <- app_assoc in Hi.
  - do 3 f_equal. rewrite Zlen_cons. change (drop 1 (fl :: ?l)) with l. simpl drop.
    replace (Z.to_nat (Zlen (acc ++ data) + 1 - 1)) with (length (acc ++ data)) by (unfold Zlen; lia).
    rewrite app_assoc. by rewrite drop_0, take_app_length.
Qed.

(** An unfragmented text or binary message is delivered at once; a message being put
    together is not disturbed. *)
Lemma step_whole c acc op data rest :
  gathering c acc (peer_frame (op + 128) data ++ rest) ->
  op = WEBSOCKET_OP_TEXT \/ op = WEBSOCKET_OP_BINARY -> Zlen data <= 1024 * 1024 * 1024 ->
  ws_step c = Some (Some (with_recv c (acc ++ rest) (Zlen acc) [EV_WS_MSG (op + 128) data])).
Proof.
  intros Hg Hop Hl. destruct (step_parsed c acc (op + 128) data rest Hg Hl) as (h & Hh & Ed & Et & Hp).
  destruct Hg as [Hr Ho]. pose proof (Zlen_nonneg data).
  unfold ws_step. rewrite Ed, Hp. cbn [mbind option_bind]. rewrite (proj2 (Z.leb_gt _ 0)) by lia.
  cbn [flags header_len data_len]. rewrite Et, payload_at, Ho. unfold ws_dispatch.
  assert (idel (acc ++ h ++ data ++ rest) (Zlen acc) (Zlen h + Zlen data) = acc ++ rest) as Hdel.
  { rewrite (app_assoc h). apply idel_spec; [done|]. apply Zlen_app. }
  destruct Hop as [-> | ->]; unfold WEBSOCKET_OP_TEXT, WEBSOCKET_OP_BINARY; simpl (_ + 128); eval_flags;
    cbn -[Zlen idel Z.add Z.sub]; by rewrite Hdel.
Qed.

(** The loop on enough fuel. *)
Lemma loop_step fuel c c' : ws_step c = Some (Some c') -> ws_loop (S fuel) c = ws_loop fuel c'.
Proof. intros H. cbn [ws_loop]. by rewrite H. Qed.

(** The events and the state after the continuation frames [ds] and the last one. *)
Lemma loop_fragments ds : forall fuel c fl acc last rest,
  Forall (fun d => Zlen d <= 1024 * 1024 * 1024) ds -> Zlen last <= 1024 * 1024 * 1024 ->
  gathering c (fl :: acc) (concat (map (peer_frame 0) ds) ++ peer_frame 128 last ++ rest) ->
  ws_loop (S (length ds) + fuel) c =
  ws_loop fuel (with_recv c rest 0
    (map (EV_WS_CTL 0) ds ++ [EV_WS_CTL 128 last; EV_WS_MSG fl (acc ++ concat ds ++ last)])).
Proof.
  induction ds as [|d ds IH]; intros fuel c fl acc last rest Hds Hlast Hg.
  - simpl in Hg. simpl Nat.add. erewrite loop_step by (by apply (step_last c fl acc last rest)).
    simpl. done.
  - apply Forall_cons in Hds as [Hd Hds]. cbn [map concat] in Hg. rewrite <- app_assoc in Hg.
    change (S (length (d :: ds)) + fuel)%nat with (S (S (length ds) + fuel)).
    rewrite (loop_step _ _ _ (step_more c (fl :: acc) d _ Hg Hd)).
    rewrite (IH fuel _ fl (acc ++ d) last rest Hds Hlast); [|by split; [simpl; by rewrite <- app_assoc|]].
    unfold with_recv. cbn. rewrite <- !app_assoc. done.
Qed.

(** Steps never lengthen the buffer: the fuel of [mg_ws_cb] covers any number of frames. *)
Lemma peer_frame_len b0 d : (2 <= length (peer_frame b0 d))%nat.
Proof.
  unfold peer_frame, ws_frame. destruct (mkhdr_cons (Zlen d)) as (t & -> & Ht).
  simpl. rewrite length_app. lia.
Qed.

Lemma frames_len ds : (length ds <= length (concat (map (peer_frame 0) ds)))%nat.
Proof.
  induction ds as [|d ds IH]; simpl; [lia|]. rewrite length_app.
  pose proof (peer_frame_len 0 d). unfold peer_frame in *. simpl in *. lia.
Qed.

(** Reassembly of fragmented messages: a text or binary message that arrives as a
    first frame, any number of continuation frames and a final one (from a masking client
    or an unmasked peer, payloads up to 1 GiB each) is delivered as exactly one message
    event that carries the flags of the first frame and the concatenation of all
    payloads, after one control event per continuation frame; nothing of it stays in
    the receive buffer and the connection is ready for the next frame. *)
Theorem ws_reassembly (c : ws_conn) (op : Z) (d0 last : list Z) (ds : list (list Z))
  (Hop : op = WEBSOCKET_OP_TEXT \/ op = WEBSOCKET_OP_BINARY)
  (Hd0 : Zlen d0 <= 1024 * 1024 * 1024) (Hlast : Zlen last <= 1024 * 1024 * 1024)
  (Hds : Forall (fun d => Zlen d <= 1024 * 1024 * 1024) ds)
  (Hc : recv c = peer_frame op d0 ++ concat (map (peer_frame 0) ds) ++ peer_frame 128 last)
  (Ho : ofs c = 0) :
  mg_ws_cb c = Some (with_recv c [] 0
    (map (EV_WS_CTL 0) ds ++ [EV_WS_CTL 128 last; EV_WS_MSG op (d0 ++ concat ds ++ last)])).
Proof.
  unfold mg_ws_cb.
  assert (exists k, S (length (recv c)) = S (S (length ds) + S k)) as [k ->].
  { exists (length (recv c) - S (length ds) - 1)%nat. rewrite Hc, !length_app.
    pose proof (frames_len ds). pose proof (peer_frame_len op d0). pose proof (peer_frame_len 128 last). lia. }
  rewrite <- (app_nil_r (_ ++ concat _ ++ _)), <- !app_assoc in Hc.
  erewrite loop_step by (eapply (step_first c op d0); [split; [exact Hc|by rewrite Ho]|done|done]).
  erewrite loop_fragments; [|exact Hds|exact Hlast|split; [reflexivity|done]].
  cbn -[map concat]. unfold with_recv. cbn -[map concat]. rewrite app_nil_r. done.
Qed.
End Loop.

Lemma ws_reassembly_witness :
  let c := wsc (peer_frame true [1; 2; 3; 4] 1 [72] ++ concat (map (peer_frame true [1; 2; 3; 4] 0) [[101]; [108; 108]])
                ++ peer_frame true [1; 2; 3; 4] 128 [111]) 0 [] false false [] in
  mg_ws_cb true [1; 2; 3; 4] c = Some (wsc [] 0 [] false false
    [EV_WS_CTL 0 [101]; EV_WS_CTL 0 [108; 108]; EV_WS_CTL 128 [111]; EV_WS_MSG 1 [72; 101; 108; 108; 111]]).
Proof.
  intros c. apply (ws_reassembly true [1; 2; 3; 4] eq_refl c 1 [72] [111] [[101]; [108; 108]]);
    [by left|vm_compute; congruence|vm_compute; congruence|repeat constructor; vm_compute; congruence
    |reflexivity|reflexivity].
Defined.
