(* ===== verification/Http.v ===== *)
(** * Http: framing and parsing of HTTP messages (mongoose/mongoose.c, lines 1488-1785)

    The received bytes are a list; a pointer into them is an index and a [struct mg_str]
    is a start and a length.  Every read goes through [rd], so [None] is an access outside
    the buffer; a loop takes fuel and is also [None] when the fuel runs out: a theorem that
    the result is [Some] shows at once that the parser stays inside the buffer and that its
    loops end. *)

From S2P Require Import Prelude Str Base64 Url.

(** ** The end of the head *)

Definition isok (c : Z) : bool := (c =? 10) || (c =? 13) || (c =? 9) || (32 <=? c).

(** The two ways a head ends at [c]: the byte before is a newline, or the two bytes before
    are a newline and a carriage return (not within the first four bytes). *)
Definition head_end (buf : list Z) (i : Z) (c : Z) : option bool :=
  lone ← (if (0 <? i) && (c =? 10) then p ← rd buf (i - 1); Some (p =? 10) else Some false);
  if (lone : bool) then Some true
  else if (3 <? i) && (c =? 10) then
    p ← rd buf (i - 1);
    if p =? 13 then q ← rd buf (i - 2); Some (q =? 10) else Some false
  else Some false.

Fixpoint request_loop (n : nat) (buf : list Z) (i : Z) : option Z :=
  match n with
  | O => Some 0
  | S n' =>
      c ← rd buf i;
      if negb (isok c) then Some (-1)
      else
        e ← head_end buf i c;
        if (e : bool) then Some (i + 1) else request_loop n' buf (i + 1)
  end.

(** [mg_http_get_request_len]: -1 for a byte that may not be in a head, 0 for "not yet". *)
Definition mg_http_get_request_len (buf : list Z) : option Z := request_loop (length buf) buf 0.

(** ** Messages *)

Record str_at := sat { at_ : Z; ln : Z }.

Definition null_str : str_at := sat 0 0.

(** The bytes of a slice. *)
Definition text (b : list Z) (s : str_at) : list Z := take (Z.to_nat (ln s)) (drop (Z.to_nat (at_ s)) b).

Definition MG_MAX_HTTP_HEADERS : nat := 30.

(** The used entries of the array [headers]; the rest of it is zero. *)
Record mg_http_message := hmsg {
  method : str_at; uri : str_at; query : str_at; proto : str_at;
  headers : list (str_at * str_at);
  body : str_at; head : str_at; message : str_at }.

Definition zero_message : mg_http_message :=
  hmsg null_str null_str null_str null_str [] null_str null_str null_str.

(** ** Scanning *)

Definition vcb (c : Z) : bool := Z.land c 192 =? 128.

(** The reads of [clen] short-circuit: a byte is read when all before it are continuations. *)
Definition cont_at (b : list Z) (s k : Z) : option bool := c ← rd b (s + k); Some (vcb c).

Definition and_then (x : option bool) (y : option bool) : option bool :=
  v ← x; if (v : bool) then y else Some false.

Definition clen (b : list Z) (s e : Z) : option Z :=
  c ← rd b s;
  let n := e - s in
  if (32 <? c) && (c <=? 126) then Some 1
  else
    two ← and_then (Some ((Z.land c 224 =? 192) && (1 <? n))) (cont_at b s 1);
    if (two : bool) then Some 2
    else
      three ← and_then (Some ((Z.land c 240 =? 224) && (2 <? n)))
                (and_then (cont_at b s 1) (cont_at b s 2));
      if (three : bool) then Some 3
      else
        four ← and_then (Some ((Z.land c 248 =? 240) && (3 <? n)))
                 (and_then (cont_at b s 1) (and_then (cont_at b s 2) (cont_at b s 3)));
        Some (if (four : bool) then 4 else 0).

(** [while (s < end && !stop(s[0]) && (n = clen(s, end)) > 0) s += n, len += n]. *)
Fixpoint token (stop : Z -> bool) (fuel : nat) (b : list Z) (s e len : Z) : option (Z * Z) :=
  match fuel with
  | O => None
  | S fuel' =>
      if s <? e then
        c ← rd b s;
        if stop c then Some (s, len)
        else
          n ← clen b s e;
          if 0 <? n then token stop fuel' b (s + n) e (len + n) else Some (s, len)
      else Some (s, len)
  end.

(** [while (s < end && p(s[0])) s++]. *)
Fixpoint skip_while (p : Z -> bool) (fuel : nat) (b : list Z) (s e : Z) : option Z :=
  match fuel with
  | O => None
  | S fuel' =>
      if s <? e then c ← rd b s; if p c then skip_while p fuel' b (s + 1) e else Some s
      else Some s
  end.

Definition no_stop (_ : Z) : bool := false.
Definition is_colon (c : Z) : bool := c =? chr:(":").
Definition is_sp (c : Z) : bool := c =? chr:(" ").
Definition not_eol (c : Z) : bool := negb (c =? 10) && negb (c =? 13).

(** [skiptorn]: the inner [None] is the NULL result. *)
Definition skiptorn (fuel : nat) (b : list Z) (s e : Z) : option (option Z * str_at) :=
  s1 ← skip_while not_eol fuel b s e;
  let v := sat s (s1 - s) in
  if e <=? s1 then Some (None, v)
  else
    c ← rd b s1;
    if c =? 13 then
      d ← rd b (s1 + 1);
      if negb (d =? 10) then Some (None, v)
      else if e <=? s1 + 1 then Some (None, v)
      else Some (Some (s1 + 2), v)
    else Some (if c =? 10 then Some (s1 + 1) else None, v).

(** ** Headers *)

(** Trailing blanks of a value. *)
Fixpoint trim (fuel : nat) (b : list Z) (v : str_at) : option str_at :=
  match fuel with
  | O => None
  | S fuel' =>
      if 0 <? ln v then
        c ← rd b (at_ v + ln v - 1);
        if is_blank c then trim fuel' b (sat (at_ v) (ln v - 1)) else Some v
      else Some v
  end.

Inductive hdr_result := HStop | HBad | HNext (s : Z) (k v : str_at).

(** One turn of the loop of [mg_http_parse_headers]. *)
Definition parse_header (fuel : nat) (b : list Z) (s e : Z) : option hdr_result :=
  if e <=? s then Some HBad
  else
    c ← rd b s;
    fin ← (if c =? 10 then Some true
           else if c =? 13 then d ← rd b (s + 1); Some (d =? 10) else Some false);
    if (fin : bool) then Some HStop
    else
      '(s1, kl) ← token is_colon fuel b s e 0;
      if kl =? 0 then Some HBad
      else if e <=? s1 then Some HBad
      else
        n ← clen b s1 e;
        if n =? 0 then Some HBad
        else
          c1 ← rd b s1;
          if negb (is_colon c1) then Some HBad
          else
            s2 ← skip_while is_blank fuel b (s1 + 1) e;
            '(r, v) ← skiptorn fuel b s2 e;
            match r with
            | None => Some HBad
            | Some s3 => v ← trim fuel b v; Some (HNext s3 (sat s kl) v)
            end.

Fixpoint mg_http_parse_headers (max_hdrs fuel : nat) (b : list Z) (s e : Z)
    (h : list (str_at * str_at)) : option (bool * list (str_at * str_at)) :=
  match max_hdrs with
  | O => Some (true, h)
  | S m =>
      r ← parse_header fuel b s e;
      match r with
      | HBad => Some (false, h)
      | HStop => Some (true, h)
      | HNext s k v => mg_http_parse_headers m fuel b s e (h ++ [(k, v)])
      end
  end.

(** [mg_http_get_header]: [name] without its terminator. *)
Fixpoint mg_http_get_header (b : list Z) (h : list (str_at * str_at)) (name : list Z)
    : option (option str_at) :=
  match h with
  | [] => Some None
  | (k, v) :: h' =>
      if 0 <? ln k then
        hit ← (if Zlen name =? ln k then
                 d ← mg_ncasecmp (drop (Z.to_nat (at_ k)) b) name (length name); Some (d =? 0)
               else Some false);
        if (hit : bool) then Some (Some v) else mg_http_get_header b h' name
      else Some None
  end.

(** ** The whole head *)

Fixpoint memchr (s : list Z) (c : Z) : option Z :=
  match s with
  | [] => None
  | d :: s' => if d =? c then Some 0 else i ← memchr s' c; Some (i + 1)
  end.

Definition SIZE_INF : Z := UINT32_MAX.

Definition http_prefix (b : list Z) (s : str_at) : option bool :=
  if 5 <? ln s then d ← mg_ncasecmp (drop (Z.to_nat (at_ s)) b) str:("HTTP/") 5; Some (d =? 0)
  else Some false.

(** Is the version acceptable: absent, or HTTP/x.y. *)
Definition version_ok (b : list Z) (is_response : bool) (p : str_at) : option bool :=
  valid ← http_prefix b p;
  if is_response || negb (0 <? ln p) then Some true
  else if negb valid || negb (ln p =? 8) then Some false
  else
    c5 ← rd b (at_ p + 5); c6 ← rd b (at_ p + 6); c7 ← rd b (at_ p + 7);
    Some (is_digit c5 && (c6 =? chr:(".")) && is_digit c7).

(** The query is what follows the first question mark of the URI. *)
Definition split_query (b : list Z) (u : str_at) : str_at * str_at :=
  match memchr (text b u) chr:("?") with
  | Some i => (sat (at_ u) i, sat (at_ u + i + 1) (ln u - i - 1))
  | None => (u, null_str)
  end.

Definition body_len_rules (b : list Z) (is_response : bool) (req_len : Z) (hm : mg_http_message)
    : mg_http_message :=
  let none m := hmsg (method m) (uri m) (query m) (proto m) (headers m)
                     (sat (at_ (body m)) 0) (head m) (sat (at_ (message m)) req_len) in
  let hm := if (ln (body hm) =? SIZE_INF) && negb is_response
               && negb (mg_strcasecmp (text b (method hm)) str:("PUT") =? 0)
               && negb (mg_strcasecmp (text b (method hm)) str:("POST") =? 0)
            then none hm else hm in
  if (ln (body hm) =? SIZE_INF) && is_response && (mg_strcasecmp (text b (uri hm)) str:("204") =? 0)
  then none hm else hm.

Definition content_length (b : list Z) (req_len : Z) (hm : mg_http_message) : option (option mg_http_message) :=
  cl ← mg_http_get_header b (headers hm) str:("Content-Length");
  match cl with
  | None => Some (Some hm)
  | Some v =>
      Some match mg_to_size_t (text b v) with
           | None => None
           | Some n => Some (hmsg (method hm) (uri hm) (query hm) (proto hm) (headers hm)
                               (sat (at_ (body hm)) n) (head hm) (sat (at_ (message hm)) (u32 (req_len + n))))
           end
  end.

(** [mg_http_parse] on the bytes [b] (a NULL buffer is the empty list). *)
Definition mg_http_parse (b : list Z) : option (Z * mg_http_message) :=
  req_len ← mg_http_get_request_len b;
  if req_len <=? 0 then Some (req_len, zero_message)
  else
    let e := req_len in let fuel := S (length b) in
    let hm0 := hmsg null_str null_str null_str null_str [] (sat e SIZE_INF) (sat 0 req_len) (sat 0 SIZE_INF) in
    '(s, ml) ← token no_stop fuel b 0 e 0;
    let meth := sat 0 ml in
    s ← skip_while is_sp fuel b s e;
    let u0 := s in
    '(s, ul) ← token no_stop fuel b s e 0;
    let u := sat u0 ul in
    s ← skip_while is_sp fuel b s e;
    is_response ← http_prefix b meth;
    '(r, p) ← skiptorn fuel b s e;
    let hm1 u q h := hmsg meth u q p h (body hm0) (head hm0) (message hm0) in
    match r with
    | None => Some (0, hm1 u null_str [])
    | Some s =>
        ok ← version_ok b is_response p;
        if negb ok then Some (-1, hm1 u null_str [])
        else
          let '(u, q) := split_query b u in
          if (ln meth =? 0) || (ln u =? 0) then Some (-1, hm1 u q [])
          else
            '(good, h) ← mg_http_parse_headers MG_MAX_HTTP_HEADERS fuel b s e [];
            if negb (good : bool) then Some (-1, hm1 u q h)
            else
              cl ← content_length b req_len (hm1 u q h);
              match cl with
              | None => Some (-1, hm1 u q h)
              | Some hm =>
                  let hm := body_len_rules b is_response req_len hm in
                  Some (if ln (message hm) <? req_len then -1 else req_len, hm)
              end
    end.

Example parse_get :
  let b := str:("GET /a?x=1 HTTP/1.1") ++ [13; 10] ++ str:("Host: h ") ++ [13; 10; 13; 10] ++ str:("rest") in
  match mg_http_parse b with
  | Some (r, hm) => r = 33 /\ text b (uri hm) = str:("/a") /\ text b (query hm) = str:("x=1")
                    /\ map (fun '(k, v) => (text b k, text b v)) (headers hm) = [(str:("Host"), str:("h"))]
                    /\ ln (message hm) = 33
  | None => False
  end.
Proof. vm_compute. auto. Qed.

(** The request line ends in a carriage return without newline: the parser says "not yet"
    although the head is complete. *)
Example parse_stray_cr :
  match mg_http_parse (str:("GET / HTTP/1.1") ++ [13] ++ str:("x") ++ [10; 10]) with
  | Some (r, _) => r = 0 | None => False end.
Proof. reflexivity. Qed.

(** ** Framing does not depend on segmentation *)

Lemma head_end_app buf more i c : 0 <= i < Zlen buf -> head_end (buf ++ more) i c = head_end buf i c.
Proof. intros H. unfold head_end. by rewrite !rd_app_l by lia. Qed.

Lemma head_end_total buf i c : 0 <= i < Zlen buf ->
  exists b, head_end buf i c = Some b /\ (b = true -> c = 10).
Proof.
  intros H. unfold head_end.
  destruct ((0 <? i) && (c =? 10)) eqn:E; zbool.
  - destruct (rd_is_Some buf (i - 1)) as [p ->]; [lia|]. cbn [mbind option_bind].
    destruct (p =? 10); [by exists true|]. destruct ((3 <? i) && (c =? 10)) eqn:E3; zbool; [|by exists false].
    destruct (p =? 13); [|by exists false]. destruct (rd_is_Some buf (i - 2)) as [q ->]; [lia|].
    cbn [mbind option_bind]. by exists (q =? 10).
  - cbn [mbind option_bind]. destruct ((3 <? i) && (c =? 10)) eqn:E3; zbool; [|by exists false].
    apply andb_false_iff in E as [E|E]; zbool; lia.
Qed.

Lemma request_loop_total n : forall buf i, 0 <= i -> i + Z.of_nat n = Zlen buf ->
  exists r, request_loop n buf i = Some r /\ -1 <= r <= Zlen buf /\ (0 < r -> i < r /\ rd buf (r - 1) = Some 10).
Proof.
  induction n as [|n IH]; intros buf i Hi Hn; simpl request_loop.
  - exists 0. pose proof (Zlen_nonneg buf). split; [done|]. lia.
  - destruct (rd_is_Some buf i) as [c Hc]; [lia|]. rewrite Hc. cbn [mbind option_bind].
    destruct (isok c); simpl negb; [|exists (-1); split; [done|]; lia].
    destruct (head_end_total buf i c) as (e & -> & He); [lia|]. cbn [mbind option_bind].
    destruct e.
    + exists (i + 1). split; [done|]. split; [lia|]. intros _. split; [lia|].
      rewrite <- (He eq_refl), <- Hc. f_equal. lia.
    + destruct (IH buf (i + 1)) as (r & -> & Hr & Hp); [lia..|]. exists r. split; [done|]. split; [lia|].
      intros H0. destruct (Hp H0). split; [lia|done].
Qed.

Lemma request_loop_app n : forall buf more m i r, 0 <= i -> i + Z.of_nat n = Zlen buf ->
  request_loop n buf i = Some r -> r <> 0 -> request_loop (n + m) (buf ++ more) i = Some r.
Proof.
  induction n as [|n IH]; intros buf more m i r Hi Hn H Hr; simpl in *; [by injection H as <-|].
  rewrite rd_app_l by lia. destruct (rd buf i) as [c|] eqn:Hc; [|done]. cbn [mbind option_bind] in *.
  destruct (isok c); simpl negb in *; [|done]. cbn [negb] in *. rewrite head_end_app by lia.
  destruct (head_end buf i c) as [[]|]; cbn [mbind option_bind] in *; [done| |done].
  apply IH; [lia|lia|done|done].
Qed.

Lemma request_len_total buf : exists r, mg_http_get_request_len buf = Some r /\
  -1 <= r <= Zlen buf /\ (0 < r -> rd buf (r - 1) = Some 10).
Proof.
  destruct (request_loop_total (length buf) buf 0) as (r & Hr & Hb & Hp); [lia|done|].
  exists r. split; [done|]. split; [done|]. intros H0. by apply Hp.
Qed.

Lemma request_len_app a more r :
  mg_http_get_request_len a = Some r -> r <> 0 -> mg_http_get_request_len (a ++ more) = Some r.
Proof. intros H Hr. unfold mg_http_get_request_len. rewrite length_app. by apply request_loop_app. Qed.

(** The end of an HTTP head is found independently of how the bytes arrive:
    [mg_http_get_request_len] reads only received bytes, returns a length within them, 0 or
    -1; once it has decided (a length, or -1) more bytes do not change the answer; and a
    positive length is the first point at which it decides: on every shorter prefix it
    says "not yet". *)
Theorem request_len_stream (a : list Z) :
  exists r, mg_http_get_request_len a = Some r /\ -1 <= r <= Zlen a /\
  (r <> 0 -> forall more, mg_http_get_request_len (a ++ more) = Some r) /\
  (0 < r -> forall k, Z.of_nat k < r -> mg_http_get_request_len (take k a) = Some 0).
Proof.
  destruct (request_len_total a) as (r & Hr & Hb & _). exists r. split; [done|]. split; [done|].
  split; [intros Hne more; by apply request_len_app|].
  intros H0 k Hk. destruct (request_len_total (take k a)) as (r' & Hr' & Hb' & _).
  rewrite Hr'. f_equal. destruct (Z.eq_dec r' 0) as [|Hne]; [done|].
  pose proof (request_len_app _ (drop k a) r' Hr' Hne) as H. rewrite take_drop in H.
  rewrite Hr in H. injection H as ->. unfold Zlen in Hb'. rewrite length_take in Hb'. lia.
Qed.

(** ** The parser stays inside the head *)

Lemma ncasecmp_total n : forall s1 s2, (n <= length s1)%nat -> (n <= length s2)%nat ->
  is_Some (mg_ncasecmp s1 s2 n).
Proof.
  induction n as [|n IH]; intros s1 s2 H1 H2; [destruct s1; by eexists|].
  destruct s1 as [|c s1], s2 as [|d s2]; simpl in H1, H2; [lia..|]. cbn [mg_ncasecmp].
  case_match; [|by eexists]. destruct n; [by eexists|]. apply IH; simpl; lia.
Qed.

(** A slice inside the first [e] bytes. *)
Definition inside (e : Z) (s : str_at) : Prop := 0 <= at_ s /\ 0 <= ln s /\ at_ s + ln s <= e.

Lemma and_then_safe (x y : option bool) (P : Prop) :
  (exists g, x = Some g /\ (g = true -> P)) -> (P -> exists v, y = Some v) ->
  exists v, and_then x y = Some v /\ (v = true -> P).
Proof.
  intros (g & -> & Hg) Hy. unfold and_then. cbn [mbind option_bind].
  destruct g; [|by exists false]. destruct Hy as [v ->]; [by apply Hg|]. exists v. split; [done|auto].
Qed.

Lemma guard_safe (m : bool) (n k : Z) : exists g, Some (m && (k <? n)) = Some g /\ (g = true -> k < n).
Proof. eexists. split; [done|]. intros. zbool. done. Qed.

Section Safe.
Context (b : list Z) (e : Z).
Context (He : 0 < e <= Zlen b) (Hend : rd b (e - 1) = Some 10).

Lemma cont_at_total s k : 0 <= s + k < e -> exists v, cont_at b s k = Some v.
Proof.
  intros H. unfold cont_at. destruct (rd_is_Some b (s + k)) as [c ->]; [lia|]. eauto.
Qed.

Lemma conts_total s k y : 0 <= s + k < e -> (exists v, y = Some v) ->
  exists v, and_then (cont_at b s k) y = Some v.
Proof.
  intros H Hy. destruct (cont_at_total s k H) as [g Hg].
  destruct (and_then_safe (cont_at b s k) y True) as (v & -> & _); eauto.
Qed.

(** Every UTF-8 character [clen] accepts lies before the end. *)
Lemma clen_safe s : 0 <= s < e -> exists n, clen b s e = Some n /\ 0 <= n <= e - s.
Proof.
  intros Hs. unfold clen. destruct (rd_is_Some b s) as [c ->]; [lia|]. cbn [mbind option_bind].
  case_match; [exists 1; split; [done|lia]|].
  destruct (and_then_safe (Some ((Z.land c 224 =? 192) && (1 <? e - s))) (cont_at b s 1) (1 < e - s))
    as (two & -> & H2); [apply guard_safe|intros; apply cont_at_total; lia|].
  cbn [mbind option_bind]. destruct two; [exists 2; split; [done|lia]|].
  destruct (and_then_safe (Some ((Z.land c 240 =? 224) && (2 <? e - s)))
      (and_then (cont_at b s 1) (cont_at b s 2)) (2 < e - s)) as (three & -> & H3);
    [apply guard_safe|intros; apply conts_total; [lia|]; apply cont_at_total; lia|].
  cbn [mbind option_bind]. destruct three; [exists 3; split; [done|lia]|].
  destruct (and_then_safe (Some ((Z.land c 248 =? 240) && (3 <? e - s)))
      (and_then (cont_at b s 1) (and_then (cont_at b s 2) (cont_at b s 3))) (3 < e - s)) as (four & -> & H4);
    [apply guard_safe|intros; apply conts_total; [lia|]; apply conts_total; [lia|]; apply cont_at_total; lia|].
  cbn [mbind option_bind]. destruct four; [exists 4; split; [done|lia]|]. exists 0. split; [done|lia].
Qed.

Lemma token_safe stop fuel : forall s len, 0 <= s <= e -> e - s < Z.of_nat fuel ->
  exists s', token stop fuel b s e len = Some (s', len + (s' - s)) /\ s <= s' <= e.
Proof.
  induction fuel as [|fuel IH]; intros s len Hs Hf; [lia|]. cbn [token].
  assert (forall P : Prop, P -> exists s', Some (s, len) = Some (s', len + (s' - s)) /\ s <= s' <= e) as Hstop.
  { intros _ _. exists s. split; [f_equal; f_equal; lia|lia]. }
  destruct (Z.ltb_spec s e); [|by apply (Hstop True)].
  destruct (rd_is_Some b s) as [c ->]; [lia|]. cbn [mbind option_bind].
  destruct (stop c); [by apply (Hstop True)|].
  destruct (clen_safe s) as (n & -> & Hn); [lia|]. cbn [mbind option_bind].
  destruct (Z.ltb_spec 0 n); [|by apply (Hstop True)].
  destruct (IH (s + n) (len + n)) as (s' & -> & Hs'); [lia..|]. exists s'. split; [f_equal; f_equal; lia|lia].
Qed.

Lemma skip_while_safe p fuel : forall s, 0 <= s <= e -> e - s < Z.of_nat fuel ->
  exists s', skip_while p fuel b s e = Some s' /\ s <= s' <= e /\
    (s' < e -> exists c, rd b s' = Some c /\ p c = false).
Proof.
  induction fuel as [|fuel IH]; intros s Hs Hf; [lia|]. cbn [skip_while].
  destruct (Z.ltb_spec s e); [|exists s; repeat split; (done || lia)].
  destruct (rd_is_Some b s) as [c Hc]; [lia|]. rewrite Hc. cbn [mbind option_bind].
  destruct (p c) eqn:Hp; [|exists s; split; [done|]; split; [lia|]; eauto].
  destruct (IH (s + 1)) as (s' & -> & Hs' & Hq); [lia..|]. exists s'. split; [done|]. split; [lia|done].
Qed.

(** The byte before the end is a newline: a carriage return is not the last byte. *)
Lemma cr_inside s : 0 <= s < e -> rd b s = Some 13 -> s + 1 < e.
Proof.
  intros Hs H. destruct (Z.eq_dec s (e - 1)) as [->|]; [|lia]. by rewrite Hend in H.
Qed.

Lemma skiptorn_safe fuel s : 0 <= s <= e -> e - s < Z.of_nat fuel ->
  exists r v, skiptorn fuel b s e = Some (r, v) /\ inside e v /\ at_ v = s /\
    (forall s', r = Some s' -> s < s' <= e /\ at_ v + ln v < s').
Proof.
  intros Hs Hf. unfold skiptorn. destruct (skip_while_safe not_eol fuel s Hs Hf) as (s1 & -> & H1 & Hc).
  cbn [mbind option_bind]. unfold inside.
  destruct (Z.leb_spec e s1).
  { eexists _, _. split; [done|]. simpl. split; [lia|]. split; [done|]. intros s' [=]. }
  destruct Hc as (c & Hc & Hp); [lia|]. rewrite Hc. cbn [mbind option_bind].
  destruct (Z.eqb_spec c 13) as [->|].
  - pose proof (cr_inside s1 ltac:(lia) Hc). destruct (rd_is_Some b (s1 + 1)) as [d ->]; [lia|].
    cbn [mbind option_bind]. rewrite (proj2 (Z.leb_gt e (s1 + 1))) by lia.
    destruct (negb (d =? 10)); eexists _, _; (split; [done|]); simpl; (split; [lia|]); (split; [done|]); intros s' [=]; lia.
  - eexists _, _; (split; [done|]); simpl; (split; [lia|]); (split; [done|]).
    destruct (c =? 10); intros s' [=]; lia.
Qed.

Lemma trim_safe fuel : forall v, inside e v -> ln v < Z.of_nat fuel ->
  exists v', trim fuel b v = Some v' /\ inside e v'.
Proof.
  unfold inside. induction fuel as [|fuel IH]; intros v Hv Hf; [lia|]. cbn [trim].
  destruct (Z.ltb_spec 0 (ln v)); [|eauto].
  destruct (rd_is_Some b (at_ v + ln v - 1)) as [c ->]; [lia|]. cbn [mbind option_bind].
  destruct (is_blank c); [|eauto]. apply IH; simpl; lia.
Qed.

(** The headers of a parsed head: names are not empty. *)
Definition hdr_ok (kv : str_at * str_at) : Prop :=
  inside e kv.1 /\ inside e kv.2 /\ 0 < ln kv.1.

Lemma parse_header_safe fuel s : 0 <= s <= e -> e < Z.of_nat fuel ->
  exists r, parse_header fuel b s e = Some r /\
    forall s' k v, r = HNext s' k v -> s < s' <= e /\ hdr_ok (k, v).
Proof.
  intros Hs Hf. unfold parse_header. destruct (Z.leb_spec e s); [eexists; split; [done|]; intros ??? [=]|].
  destruct (rd_is_Some b s) as [c Hc]; [lia|]. rewrite Hc. cbn [mbind option_bind].
  assert (exists fin, (if c =? 10 then Some true
           else if c =? 13 then d ← rd b (s + 1); Some (d =? 10) else Some false) = Some fin) as [fin ->].
  { destruct (c =? 10); [eauto|]. destruct (Z.eqb_spec c 13) as [->|]; [|eauto].
    pose proof (cr_inside s ltac:(lia) Hc). destruct (rd_is_Some b (s + 1)) as [d ->]; [lia|]. cbn. eauto. }
  cbn [mbind option_bind]. destruct fin; [eexists; split; [done|]; intros ??? [=]|].
  destruct (token_safe is_colon fuel s 0) as (s1 & -> & H1); [lia..|]. cbn [mbind option_bind].
  destruct (Z.eqb_spec (0 + (s1 - s)) 0) as [|Hkl]; [eexists; split; [done|]; intros ??? [=]|].
  destruct (Z.leb_spec e s1); [eexists; split; [done|]; intros ??? [=]|].
  destruct (clen_safe s1) as (n & -> & Hn); [lia|]. cbn [mbind option_bind].
  destruct (n =? 0); [eexists; split; [done|]; intros ??? [=]|].
  destruct (rd_is_Some b s1) as [c1 ->]; [lia|]. cbn [mbind option_bind].
  destruct (negb (is_colon c1)); [eexists; split; [done|]; intros ??? [=]|].
  destruct (skip_while_safe is_blank fuel (s1 + 1)) as (s2 & -> & H2 & _); [lia..|]. cbn [mbind option_bind].
  destruct (skiptorn_safe fuel s2) as (r & v & -> & Hv & Hat & Hr); [lia..|]. cbn [mbind option_bind].
  destruct r as [s3|]; [|eexists; split; [done|]; intros ??? [=]].
  destruct (Hr s3 eq_refl) as [H3 H3']. pose proof Hv as (Hv1 & Hv2 & Hv3).
  destruct (trim_safe fuel v Hv ltac:(lia)) as (v' & -> & Hv'). cbn [mbind option_bind].
  eexists. split; [done|]. intros s' k v'' [= <- <- <-]. unfold hdr_ok, inside in *. simpl. lia.
Qed.

Lemma parse_headers_safe m fuel : forall s h, 0 <= s <= e -> e < Z.of_nat fuel -> Forall hdr_ok h ->
  exists g h', mg_http_parse_headers m fuel b s e h = Some (g, h') /\ Forall hdr_ok h' /\
    (length h' <= length h + m)%nat.
Proof.
  induction m as [|m IH]; intros s h Hs Hf Hh; cbn [mg_http_parse_headers].
  { exists true, h. split; [done|]. split; [done|lia]. }
  destruct (parse_header_safe fuel s Hs Hf) as (r & -> & Hr). cbn [mbind option_bind].
  destruct r as [| |s' k v].
  1,2: eexists _, h; split; [done|]; split; [done|lia].
  destruct (Hr s' k v eq_refl) as [Hs' Hkv].
  destruct (IH s' (h ++ [(k, v)])) as (g & h' & -> & Hh' & Hl); [lia|done|by apply Forall_app_2; [|constructor]|].
  exists g, h'. split; [done|]. split; [done|]. rewrite length_app in Hl. simpl in Hl. lia.
Qed.

Lemma length_drop_inside (s : str_at) n : inside e s -> n <= ln s ->
  (Z.to_nat n <= length (drop (Z.to_nat (at_ s)) b))%nat.
Proof. unfold inside, Zlen in *. rewrite length_drop. lia. Qed.

Lemma get_header_safe name h : Forall hdr_ok h ->
  exists r, mg_http_get_header b h name = Some r /\ (forall v, r = Some v -> inside e v).
Proof.
  induction 1 as [|[k v] h (Hk & Hv & Hl) _ IH]; cbn [mg_http_get_header]; [by eexists|].
  cbn [fst snd] in *. rewrite (proj2 (Z.ltb_lt 0 (ln k))) by done.
  destruct (Z.eqb_spec (Zlen name) (ln k)) as [E|]; [|by apply IH].
  destruct (ncasecmp_total (length name) (drop (Z.to_nat (at_ k)) b) name) as [d ->]; [|lia|].
  { pose proof (length_drop_inside k (ln k) Hk ltac:(lia)). unfold Zlen in E. lia. }
  cbn [mbind option_bind]. destruct (d =? 0); [|by apply IH].
  eexists. split; [done|]. by intros v' [= <-].
Qed.

Lemma http_prefix_safe s : inside e s -> exists v, http_prefix b s = Some v.
Proof.
  intros Hs. unfold http_prefix. destruct (Z.ltb_spec 5 (ln s)); [|eauto].
  destruct (ncasecmp_total 5 (drop (Z.to_nat (at_ s)) b) str:("HTTP/")) as [d ->];
    [|simpl; lia|cbn; eauto].
  pose proof (length_drop_inside s 5 Hs ltac:(lia)). lia.
Qed.

Lemma version_ok_safe ir p : inside e p -> exists v, version_ok b ir p = Some v.
Proof.
  intros Hp. unfold version_ok. destruct (http_prefix_safe p Hp) as [v ->]. cbn [mbind option_bind].
  case_match; [eauto|]. case_match eqn:E; [eauto|]. zbool. unfold inside in Hp.
  destruct (rd_is_Some b (at_ p + 5)) as [c5 ->]; [lia|].
  destruct (rd_is_Some b (at_ p + 6)) as [c6 ->]; [lia|].
  destruct (rd_is_Some b (at_ p + 7)) as [c7 ->]; [lia|]. cbn. eauto.
Qed.

Lemma memchr_bound s c i : memchr s c = Some i -> 0 <= i < Zlen s.
Proof.
  revert i. induction s as [|d s IH]; intros i; [done|]. cbn [memchr]. rewrite Zlen_cons.
  pose proof (Zlen_nonneg s). case_match; [intros [= <-]; lia|].
  destruct (memchr s c) as [j|]; [|done]. cbn. intros [= <-]. specialize (IH j eq_refl). lia.
Qed.

Lemma split_query_inside u : inside e u -> inside e (split_query b u).1 /\ inside e (split_query b u).2.
Proof.
  intros Hu. unfold split_query. case_match eqn:E; cbn [fst snd]; [|split; [done|]; unfold inside; simpl; lia].
  apply memchr_bound in E. unfold inside, Zlen, text in *. rewrite length_take in E. simpl. lia.
Qed.
End Safe.

(** A message as the parser leaves it: all its strings lie in the head. *)
Definition message_ok (e : Z) (hm : mg_http_message) : Prop :=
  inside e (method hm) /\ inside e (uri hm) /\ inside e (query hm) /\ inside e (proto hm) /\
  Forall (hdr_ok e) (headers hm) /\ (length (headers hm) <= MG_MAX_HTTP_HEADERS)%nat.

Lemma body_len_rules_fields b ir n hm :
  let hm' := body_len_rules b ir n hm in
  method hm' = method hm /\ uri hm' = uri hm /\ query hm' = query hm /\ proto hm' = proto hm /\
  headers hm' = headers hm /\ at_ (body hm') = at_ (body hm) /\
  (ln (body hm') = ln (body hm) /\ ln (message hm') = ln (message hm)
   \/ ln (body hm') = 0 /\ ln (message hm') = n).
Proof.
  unfold body_len_rules.
  repeat match goal with |- context [if ?x then _ else _] => destruct x end; simpl; tauto.
Qed.

Lemma content_length_fields b e n hm : Forall (hdr_ok e) (headers hm) -> 0 < e <= Zlen b ->
  exists r, content_length b n hm = Some r /\
  forall hm', r = Some hm' ->
    method hm' = method hm /\ uri hm' = uri hm /\ query hm' = query hm /\ proto hm' = proto hm /\
    headers hm' = headers hm /\ at_ (body hm') = at_ (body hm) /\
    (hm' = hm \/ ln (message hm') = u32 (n + ln (body hm'))).
Proof.
  intros Hh He. unfold content_length.
  destruct (get_header_safe b e He str:("Content-Length") (headers hm) Hh) as (r & -> & _).
  cbn [mbind option_bind]. destruct r as [v|].
  - eexists. split; [done|]. intros hm'. case_match; [|done]. intros [= <-]. simpl. tauto.
  - eexists. split; [done|]. intros hm' [= <-]. tauto.
Qed.

(** What the caller may rely on. *)
Definition parsed_ok (r : Z) (hm : mg_http_message) : Prop :=
  message_ok r hm /\ 0 < ln (method hm) /\ 0 < ln (uri hm) /\ at_ (body hm) = r /\ r <= ln (message hm) /\
  (ln (message hm) = u32 (r + ln (body hm)) \/ ln (body hm) = SIZE_INF /\ ln (message hm) = SIZE_INF).

Definition parse_result (b : list Z) (x : option (Z * mg_http_message)) : Prop :=
  exists r hm, x = Some (r, hm) /\ -1 <= r <= Zlen b /\ (0 < r -> parsed_ok r hm).

Lemma parse_result_neg b r hm : -1 <= r <= 0 -> parse_result b (Some (r, hm)).
Proof. intros Hr. pose proof (Zlen_nonneg b). exists r, hm. split; [done|]. split; lia. Qed.

(** The part of the parser after the headers. *)
Lemma finish_safe b e ir hm1 : 0 < e <= Zlen b -> Zlen b < 2 ^ 31 -> message_ok e hm1 ->
  0 < ln (method hm1) -> 0 < ln (uri hm1) -> body hm1 = sat e SIZE_INF -> message hm1 = sat 0 SIZE_INF ->
  parse_result b
    (cl ← content_length b e hm1;
     match cl with
     | None => Some (-1, hm1)
     | Some hm => let hm := body_len_rules b ir e hm in
                  Some (if ln (message hm) <? e then -1 else e, hm)
     end).
Proof.
  intros He Hb Hok Hm Hu Hbody Hmsg. pose proof Hok as (M1 & M2 & M3 & M4 & M5 & M6).
  destruct (content_length_fields b e e hm1 M5 He) as (cl & -> & Hcl).
  cbn [mbind option_bind]. destruct cl as [hm|]; [|by apply parse_result_neg].
  destruct (Hcl hm eq_refl) as (C1 & C2 & C3 & C4 & C5 & C6 & C7).
  destruct (body_len_rules_fields b ir e hm) as (B1 & B2 & B3 & B4 & B5 & B6 & B7).
  cbv zeta. destruct (Z.ltb_spec (ln (message (body_len_rules b ir e hm))) e); [by apply parse_result_neg|].
  eexists _, _. split; [done|]. split; [lia|]. intros _. unfold parsed_ok, message_ok.
  rewrite B1, B2, B3, B4, B5, B6, C1, C2, C3, C4, C5, C6, Hbody. split; [done|].
  do 3 (split; [done|]). split; [done|]. destruct B7 as [[-> ->]|[-> ->]].
  - destruct C7 as [->|C7]; [right; by rewrite Hbody, Hmsg|by left].
  - left. rewrite Z.add_0_r. symmetry. apply u32_small. lia.
Qed.

(** Every step of the parser, in order. *)
Lemma parse_safe (b : list Z) (Hb : Zlen b < 2 ^ 31) : parse_result b (mg_http_parse b).
Proof.
  unfold mg_http_parse. destruct (request_len_total b) as (e & -> & Hl & Hend). cbn [mbind option_bind].
  destruct (Z.leb_spec e 0) as [|He0]; [apply parse_result_neg; lia|].
  specialize (Hend He0). assert (0 < e <= Zlen b) as He by lia.
  assert (e < Z.of_nat (S (length b))) as Hf by (unfold Zlen in *; lia).
  destruct (token_safe b e He no_stop (S (length b)) 0 0) as (s1 & -> & H1); [lia..|]. cbn [mbind option_bind].
  destruct (skip_while_safe b e He is_sp (S (length b)) s1) as (s2 & -> & H2 & _); [lia..|]. cbn [mbind option_bind].
  destruct (token_safe b e He no_stop (S (length b)) s2 0) as (s3 & -> & H3); [lia..|]. cbn [mbind option_bind].
  destruct (skip_while_safe b e He is_sp (S (length b)) s3) as (s4 & -> & H4 & _); [lia..|]. cbn [mbind option_bind].
  assert (inside e (sat 0 (0 + (s1 - 0)))) as Hm by (unfold inside; simpl; lia).
  assert (inside e (sat s2 (0 + (s3 - s2)))) as Hu by (unfold inside; simpl; lia).
  destruct (http_prefix_safe b e He _ Hm) as [ir ->]. cbn [mbind option_bind].
  destruct (skiptorn_safe b e He Hend (S (length b)) s4) as (r & p & -> & Hp & _ & Hr); [lia..|]. cbn [mbind option_bind].
  destruct r as [s5|]; [|by apply parse_result_neg]. destruct (Hr s5 eq_refl) as [H5 _].
  destruct (version_ok_safe b e He ir p Hp) as [ok ->]. cbn [mbind option_bind].
  destruct (negb ok); [by apply parse_result_neg|].
  destruct (split_query_inside b e He _ Hu) as [Hu' Hq].
  destruct (split_query b _) as [u q]. cbn [fst snd] in Hu', Hq.
  destruct ((ln (sat 0 (0 + (s1 - 0))) =? 0) || (ln u =? 0)) eqn:Enz; [by apply parse_result_neg|]. zbool.
  destruct (parse_headers_safe b e He Hend MG_MAX_HTTP_HEADERS (S (length b)) s5 []) as (g & h & -> & Hh & Hlen);
    [lia|lia|done|]. cbn [mbind option_bind].
  destruct (negb g); [by apply parse_result_neg|].
  apply finish_safe; [done|done|do 5 (split; [assumption|]); simpl in *; lia|destruct Hm as (? & ? & ?); simpl in *; lia
    |destruct Hu' as (? & ? & ?); simpl; lia|done|done].
Qed.

(** [mg_http_parse] is memory safe and terminates on every buffer of the 32-bit target:
    it returns -1, 0 or the length of the head within the received bytes; when it returns a
    length, the method, URI, query, protocol and the at most 30 headers are slices of the
    head, method, URI and header names are not empty, the body starts where the head ends,
    and the length announced for the whole message covers the head and is the sum of head
    and body (or both are open-ended). *)
Theorem http_parse_safe (b : list Z) (Hb : Zlen b < 2 ^ 31) : parse_result b (mg_http_parse b).
Proof. by apply parse_safe. Qed.

Lemma http_parse_safe_witness :
  parse_result (str:("GET / HTTP/1.1") ++ [13; 10; 13; 10])
    (mg_http_parse (str:("GET / HTTP/1.1") ++ [13; 10; 13; 10])).
Proof. apply http_parse_safe. vm_compute. reflexivity. Defined.

(** ** Multipart bodies *)

Record mg_http_part := part { pname : mg_str; pfilename : mg_str; pbody : mg_str }.

Definition empty_part : mg_http_part := part [] [] [].

(** [while (b + 2 < max && s[b] != '\r' && s[b + 1] != '\n') b++]. *)
Fixpoint line_end (fuel : nat) (s : list Z) (b : Z) : option Z :=
  match fuel with
  | O => None
  | S fuel' =>
      if b + 2 <? Zlen s then
        c ← rd s b;
        if c =? 13 then Some b
        else d ← rd s (b + 1); if d =? 10 then Some b else line_end fuel' s (b + 1)
      else Some b
  end.

Definition sub (s : list Z) (ofs n : Z) : option (list Z) :=
  if (0 <=? ofs) && (0 <=? n) && (ofs + n <=? Zlen s)
  then Some (take (Z.to_nat n) (drop (Z.to_nat ofs) s)) else None.

(** The name and the file name of a Content-Disposition header between [h1] and [h2]. *)
Definition disposition (s : list Z) (h1 h2 : Z) (p : mg_http_part) : option mg_http_part :=
  if h1 + 19 + 2 <? h2 then
    c ← rd s (h1 + 19);
    if c =? chr:(":") then
      d ← mg_ncasecmp (drop (Z.to_nat h1) s) str:("Content-Disposition") 19;
      if d =? 0 then
        v ← sub s (h1 + 21) (h2 - (h1 + 21));
        after ← rd s h2;
        Some (part (mg_http_get_header_var v str:("name") after)
                   (mg_http_get_header_var v str:("filename") after) (pbody p))
      else Some p
    else Some p
  else Some p.

(** The loop over the headers of a part: [inl] the return of 0, [inr] the end of headers. *)
Fixpoint part_headers (fuel : nat) (s : list Z) (h1 : Z) (p : mg_http_part)
    : option (bool * Z * mg_http_part) :=
  match fuel with
  | O => None
  | S fuel' =>
      h2 ← line_end (S (length s)) s h1;
      if h2 =? h1 then Some (true, h2, p)
      else if Zlen s <=? h2 + 2 then Some (false, h2, p)
      else p ← disposition s h1 h2 p; part_headers fuel' s (h2 + 2) p
  end.

(** Search of the next boundary: [n] bytes equal to the first bytes of the body, after CRLF. *)
Fixpoint body_end (fuel : nat) (s : list Z) (b2 n : Z) : option Z :=
  match fuel with
  | O => None
  | S fuel' =>
      if b2 + 2 + n + 2 <? Zlen s then
        c ← rd s b2;
        hit ← (if c =? 13 then
                 d ← rd s (b2 + 1);
                 if d =? 10 then
                   x ← sub s (b2 + 2) n; y ← sub s 0 n; Some (bool_decide (x = y))
                 else Some false
               else Some false);
        if (hit : bool) then Some b2 else body_end fuel' s (b2 + 1) n
      else Some b2
  end.

Definition mg_http_next_multipart (s : list Z) (ofs : Z) : option (Z * mg_http_part) :=
  let max := Zlen s in
  b ← line_end (S (length s)) s ofs;
  if (b <=? ofs) || (max <=? b + 2) then Some (0, empty_part)
  else
    '(ok, h2, p) ← part_headers (S (length s)) s (b + 2) empty_part;
    if negb (ok : bool) then Some (0, p)
    else
      let b1 := h2 + 2 in
      b2 ← body_end (S (length s)) s b1 (b - ofs);
      if max <=? b2 + 2 then Some (0, p)
      else v ← sub s b1 (b2 - b1); Some (b2 + 2, part (pname p) (pfilename p) v).

Example multipart_one :
  let s := str:("--xyz") ++ [13; 10] ++ str:("Content-Disposition: form-data; name=fu") ++ [13; 10; 13; 10]
           ++ str:("hello") ++ [13; 10] ++ str:("--xyz--") ++ [13; 10] in
  mg_http_next_multipart s 0 = Some (57, part str:("fu") [] str:("hello")).
Proof. vm_compute. reflexivity. Qed.

Lemma sub_total s ofs n : 0 <= ofs -> 0 <= n -> ofs + n <= Zlen s -> is_Some (sub s ofs n).
Proof. intros. unfold sub. ztests. by eexists. Qed.

Lemma line_end_S fuel s b : line_end (S fuel) s b =
  if b + 2 <? Zlen s then
    c ← rd s b;
    if c =? 13 then Some b
    else d ← rd s (b + 1); if d =? 10 then Some b else line_end fuel s (b + 1)
  else Some b.
Proof. reflexivity. Qed.

Lemma body_end_S fuel s b2 n : body_end (S fuel) s b2 n =
  if b2 + 2 + n + 2 <? Zlen s then
    c ← rd s b2;
    hit ← (if c =? 13 then
             d ← rd s (b2 + 1);
             if d =? 10 then
               x ← sub s (b2 + 2) n; y ← sub s 0 n; Some (bool_decide (x = y))
             else Some false
           else Some false);
    if (hit : bool) then Some b2 else body_end fuel s (b2 + 1) n
  else Some b2.
Proof. reflexivity. Qed.

Lemma line_end_safe fuel : forall s b, 0 <= b -> Zlen s - b <= Z.of_nat fuel ->
  exists r, line_end (S fuel) s b = Some r /\ b <= r /\ (r + 2 <= Zlen s \/ r = b).
Proof.
  induction fuel as [|fuel IH]; intros s b Hb Hf; rewrite line_end_S;
    (destruct (Z.ltb_spec (b + 2) (Zlen s)); [|exists b; split; [done|lia]]); [lia|].
  destruct (rd_is_Some s b) as [c ->]; [lia|]. cbn [mbind option_bind].
  destruct (c =? 13); [exists b; split; [done|lia]|].
  destruct (rd_is_Some s (b + 1)) as [d ->]; [lia|]. cbn [mbind option_bind].
  destruct (d =? 10); [exists b; split; [done|lia]|].
  destruct (IH s (b + 1)) as (r & -> & Hr); [lia..|]. exists r. split; [done|lia].
Qed.

Lemma disposition_safe s h1 h2 p : 0 <= h1 -> h2 + 2 < Zlen s -> is_Some (disposition s h1 h2 p).
Proof.
  intros H1 H2. unfold disposition. destruct (Z.ltb_spec (h1 + 19 + 2) h2); [|by eexists].
  destruct (rd_is_Some s (h1 + 19)) as [c ->]; [lia|]. cbn [mbind option_bind].
  destruct (c =? _); [|by eexists].
  destruct (ncasecmp_total 19 (drop (Z.to_nat h1) s) str:("Content-Disposition")) as [d ->];
    [unfold Zlen in *; rewrite length_drop; lia|simpl; lia|]. cbn [mbind option_bind].
  destruct (d =? 0); [|by eexists].
  destruct (sub_total s (h1 + 21) (h2 - (h1 + 21))) as [v ->]; [lia..|].
  destruct (rd_is_Some s h2) as [a ->]; [lia|]. by eexists.
Qed.

Lemma part_headers_safe fuel : forall s h1 p, 0 <= h1 <= Zlen s + 2 -> Zlen s + 2 - h1 < Z.of_nat fuel ->
  exists ok h2 p', part_headers fuel s h1 p = Some (ok, h2, p') /\ h1 <= h2.
Proof.
  induction fuel as [|fuel IH]; intros s h1 p Hh Hf; cbn [part_headers]; [lia|].
  destruct (line_end_safe (length s) s h1) as (h2 & -> & H2 & H2'); [lia|unfold Zlen; lia|].
  cbn [mbind option_bind]. destruct (Z.eqb_spec h2 h1) as [->|]; [exists true, h1, p; split; [done|lia]|].
  destruct (Z.leb_spec (Zlen s) (h2 + 2)); [exists false, h2, p; split; [done|lia]|].
  destruct (disposition_safe s h1 h2 p) as [p' ->]; [lia..|]. cbn [mbind option_bind].
  destruct (IH s (h2 + 2) p') as (ok & h3 & p'' & -> & H3); [lia..|]. eexists _, _, _. split; [done|lia].
Qed.

Lemma body_end_safe fuel : forall s b n, 0 <= b -> 0 <= n -> Zlen s - b <= Z.of_nat fuel ->
  exists r, body_end (S fuel) s b n = Some r /\ b <= r.
Proof.
  induction fuel as [|fuel IH]; intros s b n Hb Hn Hf; rewrite body_end_S;
    (destruct (Z.ltb_spec (b + 2 + n + 2) (Zlen s)); [|exists b; split; [done|lia]]); [lia|].
  destruct (rd_is_Some s b) as [c ->]; [lia|].
  destruct (rd_is_Some s (b + 1)) as [d ->]; [lia|].
  destruct (sub_total s (b + 2) n) as [x ->]; [lia..|].
  destruct (sub_total s 0 n) as [y ->]; [lia..|]. cbn [mbind option_bind].
  destruct (IH s (b + 1) n) as (r & IHr & Hr); [lia..|].
  destruct (c =? 13), (d =? 10), (bool_decide (x = y)); cbn [mbind option_bind];
    first [exists r; split; [exact IHr|lia] | exists b; split; [done|lia]].
Qed.

(** [mg_http_next_multipart] on any body and offset reads only the body, terminates, and
    makes progress: it returns 0 (no further part) or the offset of the next boundary,
    strictly behind the one given and inside the body, so the loop over the parts of a
    multipart body ends. *)
Theorem next_multipart_progress (s : list Z) (ofs : Z) (Hofs : 0 <= ofs) :
  exists r p, mg_http_next_multipart s ofs = Some (r, p) /\ (r = 0 \/ ofs < r < Zlen s).
Proof.
  unfold mg_http_next_multipart.
  destruct (line_end_safe (length s) s ofs) as (b & -> & Hb & Hb'); [lia|unfold Zlen; lia|].
  cbn [mbind option_bind]. destruct ((b <=? ofs) || (Zlen s <=? b + 2)) eqn:E; [eexists _, _; split; [done|by left]|].
  zbool. destruct (part_headers_safe (S (length s)) s (b + 2) empty_part) as (ok & h2 & p & -> & Hh);
    [lia|unfold Zlen; lia|].
  cbn [mbind option_bind]. destruct (negb ok); [eexists _, _; split; [done|by left]|].
  destruct (body_end_safe (length s) s (h2 + 2) (b - ofs)) as (b2 & -> & H2); [lia|lia|unfold Zlen; lia|].
  cbn [mbind option_bind]. destruct (Z.leb_spec (Zlen s) (b2 + 2)); [eexists _, _; split; [done|by left]|].
  destruct (sub_total s (h2 + 2) (b2 - (h2 + 2))) as [v ->]; [lia..|].
  eexists _, _. split; [done|]. right. lia.
Qed.

Lemma next_multipart_progress_witness :
  exists r p, mg_http_next_multipart [45; 13; 10; 13; 10; 120; 13; 10; 45; 45; 13; 10] 0 = Some (r, p) /\
    (r = 0 \/ 0 < r < 12).
Proof. apply next_multipart_progress. vm_compute. congruence. Defined.
