(* ===== verification/Fmt.v ===== *)
(** * Fmt: formatted output (mongoose/mongoose.c, lines 587-815 and 7624-7805)

    [mg_vxprintf] emits characters through a function pointer; the model returns the list
    of the characters emitted and the count the function returns.  A format is the list of
    its characters before the terminator.  The variadic arguments are a list of tagged
    values; taking one of another kind, reading a string outside its memory, or reading
    past the end of the format is [None].  [%M] calls a printer given as an argument: the
    printers are identified by number and [pm] says what each does. *)

From S2P Require Import Prelude Str Base64 Json Iobuf.
From Stdlib Require Import Floats.SpecFloat.

Inductive arg :=
  | AInt (v : Z)                       (* int, long, unsigned: 32 bits *)
  | AI64 (v : Z)                       (* int64_t *)
  | ADbl (d : spec_float)
  | AStr (p : option (list Z))         (* char pointer: the memory it points to; NULL *)
  | AFun (id : Z).                     (* mg_pm_t *)

Definition va_list : Type := list arg.

(** ** Integers *)

Definition letters : list Z := str:("0123456789abcdef").

Definition letter (d : Z) : Z := nth (Z.to_nat d) letters 0.

(** Digits of [v] in reverse order; 64 turns are enough for 64 bits. *)
Fixpoint rev_digits (fuel : nat) (base v : Z) : list Z :=
  match fuel with
  | O => []
  | S fuel' => if v =? 0 then [] else letter (v mod base) :: rev_digits fuel' base (v / base)
  end.

(** [mg_lld]: [val] is an [int64_t]; the conversion of its negation wraps. *)
Definition mg_lld (val : Z) (is_signed is_hex : bool) : list Z :=
  let neg := is_signed && (val <? 0) in
  let v := if neg then u64 (- val) else u64 val in
  let digits := rev (rev_digits 64 (if is_hex then 16 else 10) v) in
  (if neg then [chr:("-")] else []) ++ digits ++ (if val =? 0 then [chr:("0")] else []).

(** ** Doubles *)

Definition f64_sub := SFsub f64_prec f64_emax.
Definition f64_opp := SFopp.
Definition f64_one : spec_float := f64_of_Z 1.
Definition f64_tenth : spec_float := f64_div f64_one f64_ten.
Definition f64_lt (a b : spec_float) : bool := SFltb a b.
Definition f64_le (a b : spec_float) : bool := SFleb a b.

Definition addexp (buf : list Z) (at_ : Z) (e sign : Z) : option (list Z * Z) :=
  buf ← wr buf at_ chr:("e");
  buf ← wr buf (at_ + 1) sign;
  if 400 <? e then Some (buf, 0)
  else
    '(buf, n) ← (if e <? 10 then buf ← wr buf (at_ + 2) chr:("0"); Some (buf, 3) else Some (buf, 2));
    '(buf, n, e) ← (if 100 <=? e then
                      buf ← wr buf (at_ + n) (e / 100 + 48); Some (buf, n + 1, e - 100 * (e / 100))
                    else Some (buf, n, e));
    '(buf, n, e) ← (if 10 <=? e then
                      buf ← wr buf (at_ + n) (e / 10 + 48); Some (buf, n + 1, e - 10 * (e / 10))
                    else Some (buf, n, e));
    buf ← wr buf (at_ + n) (e + 48);
    Some (buf, n + 1).

Definition xisinf (d : spec_float) : bool := match d with S754_infinity _ => true | _ => false end.
Definition xisnan (d : spec_float) : bool := match d with S754_nan => true | _ => false end.

(** [while (test(mul)) mul = step(mul), e += de]. *)
Fixpoint scale (fuel : nat) (test : spec_float -> bool) (step : spec_float -> spec_float) (de : Z)
    (mul : spec_float) (e : Z) : option (spec_float * Z) :=
  match fuel with
  | O => None
  | S fuel' => if test mul then scale fuel' test step de (step mul) (e + de) else Some (mul, e)
  end.

Definition times_ten (x : spec_float) : spec_float := f64_mul x f64_ten.
Definition by_ten (x : spec_float) : spec_float := f64_div x f64_ten.

Definition DTOA_BUF : Z := 40.
Definition dtoa_fuel : nat := 1200.

(** Integer digits: [for (t = mul; t >= 1.0 && s + n < 40; )]. *)
Fixpoint int_digits (fuel : nat) (buf : list Z) (s n : Z) (d t : spec_float)
    : option (list Z * Z * spec_float * spec_float) :=
  match fuel with
  | O => None
  | S fuel' =>
      if f64_le f64_one t && (s + n <? DTOA_BUF) then
        ch ← long_of_f64 (f64_div d t);
        '(buf, n) ← (if (0 <? n) || (0 <? ch) then buf ← wr buf (s + n) (u8 (ch + 48)); Some (buf, n + 1)
                     else Some (buf, n));
        int_digits fuel' buf s n (f64_sub d (f64_mul (f64_of_Z ch) t)) (by_ten t)
      else Some (buf, n, d, t)
  end.

(** [while (t >= 1.0 && n + s < 40) buf[n++] = '0', t /= 10.0]. *)
Fixpoint zero_digits (fuel : nat) (buf : list Z) (s n : Z) (t : spec_float)
    : option (list Z * Z * spec_float) :=
  match fuel with
  | O => None
  | S fuel' =>
      if f64_le f64_one t && (n + s <? DTOA_BUF) then
        buf ← wr buf n chr:("0"); zero_digits fuel' buf s (n + 1) (by_ten t)
      else Some (buf, n, t)
  end.

Fixpoint frac_digits (fuel : nat) (buf : list Z) (s n targ_width : Z) (d t : spec_float)
    : option (list Z * Z) :=
  match fuel with
  | O => None
  | S fuel' =>
      if (s + n <? DTOA_BUF) && (n <? targ_width) then
        ch ← long_of_f64 (f64_div d t);
        buf ← wr buf (s + n) (u8 (ch + 48));
        frac_digits fuel' buf s (n + 1) targ_width (f64_sub d (f64_mul (f64_of_Z ch) t)) (by_ten t)
      else Some (buf, n)
  end.

Fixpoint trim_zeros (fuel : nat) (buf : list Z) (s n : Z) : option Z :=
  match fuel with
  | O => None
  | S fuel' =>
      if 0 <? n then c ← rd buf (s + n - 1); if c =? chr:("0") then trim_zeros fuel' buf s (n - 1) else Some n
      else Some n
  end.

(** The characters of a C string in a block. *)
Definition cstr (b : list Z) : option (list Z) := mg_str_s b.

(** What [mg_snprintf(dst, dstlen, "%.*s", n, buf)] stores and returns for [dstlen] = 40. *)
Fixpoint until_nul (b : list Z) (n : nat) {struct n} : option (list Z) :=
  match n with
  | O => Some []
  | S n' => match b with
            | [] => None
            | c :: b' => if c =? 0 then Some [] else r ← until_nul b' n'; Some (c :: r)
            end
  end.

Definition to_tmp (l : list Z) : list Z * Z := (take 39 l, Zlen l).

(** [mg_dtoa]: [stack] is what [char buf[40]] holds on entry, [depth] bounds the recursion.
    The result is the string stored in the destination of 40 bytes and the count returned. *)
Fixpoint mg_dtoa (depth : nat) (stack : list Z) (d : spec_float) (width : Z) (tz : bool)
    : option (list Z * Z) :=
  match depth with
  | O => None
  | S depth' =>
      if SFeqb d (f64_of_Z 0) then Some (to_tmp str:("0"))
      else if xisinf d then Some (to_tmp (if f64_lt (f64_of_Z 0) d then str:("inf") else str:("-inf")))
      else if xisnan d then Some (to_tmp str:("nan"))
      else
        '(d, buf, s) ← (if f64_lt d (f64_of_Z 0)
                        then buf ← wr stack 0 chr:("-"); Some (f64_opp d, buf, 1)
                        else Some (d, stack, 0));
        let saved := d in
        mul ← (if tz then
                 '(m, _) ← scale dtoa_fuel (fun m => f64_le f64_ten d && f64_le f64_ten (f64_div d m))
                             times_ten 0 f64_one 0; Some m
               else Some f64_tenth);
        '(mul, _) ← scale dtoa_fuel (fun m => f64_le d f64_one && f64_le (f64_div d m) f64_one) by_ten 0 mul 0;
        let t := Nat.iter (Z.to_nat width) by_ten (f64_mul mul (f64_of_Z 5)) in
        let d := f64_add d t in
        '(mul, e) ← scale dtoa_fuel (fun m => f64_le f64_ten d && f64_le f64_ten (f64_div d m))
                      times_ten 1 f64_one 0;
        '(mul, e) ← scale dtoa_fuel (fun m => f64_lt d f64_one && f64_lt (f64_div d m) f64_one)
                      by_ten (-1) mul e;
        let sci (e sign : Z) :=
          '(inner, n) ← mg_dtoa depth' (replicate 40 0) (f64_div saved mul) width tz;
          buf ← blit buf 0 (inner ++ [0]);
          '(buf, k) ← addexp buf (s + n) e sign;
          out ← until_nul buf (Z.to_nat (n + k));
          Some (to_tmp out) in
        if tz && (width <=? e) && (1 <? width) then sci e chr:("+")
        else if tz && (e <=? - width) && (1 <? width) then sci (- e) chr:("-")
        else
          '(buf, n, d, t) ← int_digits dtoa_fuel buf s 0 d mul;
          '(buf, s) ← (if n =? 0 then buf ← wr buf s chr:("0"); Some (buf, s + 1) else Some (buf, s));
          '(buf, n, t) ← zero_digits dtoa_fuel buf s n t;
          '(buf, s) ← (if s + n <? DTOA_BUF then buf ← wr buf (n + s) chr:("."); Some (buf, s + 1) else Some (buf, s));
          let targ_width := if negb tz && (0 <? n) then width + n else width in
          '(buf, n) ← frac_digits dtoa_fuel buf s n targ_width d f64_tenth;
          n ← (if tz then trim_zeros dtoa_fuel buf s n else Some n);
          n ← (if tz && (0 <? n) then c ← rd buf (s + n - 1); Some (if c =? chr:(".") then n - 1 else n)
               else Some n);
          let n := n + s in
          let n := if DTOA_BUF <=? n then DTOA_BUF - 1 else n in
          buf ← wr buf n 0;
          out ← cstr buf;
          Some (to_tmp out)
  end.

Definition dtoa (d : spec_float) (width : Z) (tz : bool) : option (list Z * Z) :=
  mg_dtoa 3 (replicate 40 0) d width tz.

Example dtoa_half : dtoa (f64_div (f64_of_Z 3) (f64_of_Z 2)) 6 true = Some (to_tmp str:("1.5")).
Proof. vm_compute. reflexivity. Qed.

Example dtoa_big : dtoa (f64_of_Z (10 ^ 20)) 6 true = Some (to_tmp str:("1e+20")).
Proof. vm_compute. reflexivity. Qed.

(** Negative numbers in exponential notation lose their sign and their exponent: the
    mantissa is printed over the sign, and its terminator ends the string. *)
Example dtoa_negative_exponential : dtoa (f64_of_Z (- 10 ^ 20)) 6 true = Some (to_tmp str:("1")).
Proof. vm_compute. reflexivity. Qed.

(** ** The formatter *)

Record spec := mkspec {
  alt : bool; minus : bool; pad : Z; width : Z; prec : Z; is_long : Z; conv : Z }.

Definition NO_PREC : Z := UINT32_MAX.

(** A character read at the format: the terminator at its end. *)
Definition cur (f : list Z) : Z := hd 0 f.

(** A flag character, consumed when present. *)
Definition opt_char (c : Z) (f : list Z) : bool * list Z :=
  if cur f =? c then (true, tail f) else (false, f).

Fixpoint digits (f : list Z) (acc : Z) : Z * list Z :=
  match f with
  | c :: f' => if is_digit c then digits f' (u32 (u32 (acc * 10) + (c - 48))) else (acc, f)
  | [] => (acc, [])
  end.

Fixpoint skip_h (f : list Z) : list Z :=
  match f with c :: f' => if c =? chr:("h") then skip_h f' else f | [] => [] end.

(** The conversion after a percent sign: the text starts at the character after it. *)
Definition parse_spec (f : list Z) (ap : va_list) : option (spec * list Z * va_list) :=
  let '(x, f) := opt_char chr:("#") f in
  let '(mi, f) := opt_char chr:("-") f in
  let '(z, f) := opt_char chr:("0") f in
  let '(w, f) := digits f 0 in
  let '(dot, f) := opt_char chr:(".") f in
  '(pr, f, ap) ← (if dot then
                    if cur f =? chr:("*") then
                      match ap with AInt v :: ap => Some (u32 v, tail f, ap) | _ => None end
                    else let '(p, f) := digits f 0 in Some (p, f, ap)
                  else Some (NO_PREC, f, ap));
  let f := skip_h f in
  let '(l1, f) := opt_char chr:("l") f in
  let '(l2, f) := if l1 then opt_char chr:("l") f else (false, f) in
  let lng := (if l1 then 1 else 0) + (if l2 then 1 else 0) in
  let c := cur f in
  let ptr := c =? chr:("p") in
  Some (mkspec (x || ptr) mi (if z then chr:("0") else chr:(" ")) w pr (if ptr then 1 else lng) c, f, ap).

(** [scpy]: at most [n] characters, up to a terminator. *)
Definition scpy (buf : list Z) (n : Z) : option (list Z) := until_nul buf (Z.to_nat n).

Definition pad_count (w k : Z) : nat := Z.to_nat (w - k).

(** Integer and floating conversions: padding, prefix, digits. *)
Definition print_number (sp : spec) (tmp : list Z) (k : Z) : option (list Z) :=
  let xl := if alt sp then 2 else 0 in
  let w := Z.max 0 (width sp - xl) in
  body ← scpy (tmp ++ [0]) k;
  let sp_pad := pad sp =? chr:(" ") in
  Some ((if sp_pad && negb (minus sp) then replicate (pad_count w k) (pad sp) else [])
        ++ (if alt sp then str:("0x") else [])
        ++ (if pad sp =? chr:("0") then replicate (pad_count w k) (pad sp) else [])
        ++ body
        ++ (if sp_pad && minus sp then replicate (pad_count w k) (pad sp) else [])).

Definition is_number_conv (c : Z) : bool :=
  existsb (Z.eqb c) str:("duxXpgf").

(** The value of a number conversion as characters, with the count, and the arguments left. *)
Definition fetch_number (sp : spec) (ap : va_list) : option (list Z * Z * va_list) :=
  let c := conv sp in
  let s := c =? chr:("d") in
  let h := (c =? chr:("x")) || (c =? chr:("X")) || (c =? chr:("p")) in
  if (c =? chr:("g")) || (c =? chr:("f")) then
    match ap with
    | ADbl v :: ap =>
        let pr := if prec sp =? NO_PREC then 6 else prec sp in
        '(tmp, k) ← dtoa v (s32 pr) (c =? chr:("g")); Some (tmp, k, ap)
    | _ => None
    end
  else if is_long sp =? 2 then
    match ap with
    | AI64 v :: ap => let l := mg_lld v s h in Some (l, Zlen l, ap)
    | _ => None
    end
  else
    match ap with
    | AInt v :: ap => let l := mg_lld (if s then s32 v else u32 v) s h in Some (l, Zlen l, ap)
    | _ => None
    end.

Section Vxprintf.
(** What a printer called for [%m] or [%M] emits, and what it leaves of the arguments. *)
Context (pm : Z -> va_list -> option (list Z * va_list)).

(** One conversion: the characters emitted and the arguments left. *)
Definition convert (sp : spec) (ap : va_list) : option (list Z * va_list) :=
  let c := conv sp in
  if is_number_conv c then
    '(tmp, k, ap) ← fetch_number sp ap;
    out ← print_number sp tmp k;
    Some (out, ap)
  else if (c =? chr:("m")) || (c =? chr:("M")) then
    match ap with
    | AFun id :: ap =>
        '(out, ap) ← pm id ap;
        Some (if c =? chr:("m") then [34] ++ out ++ [34] else out, ap)
    | _ => None
    end
  else if c =? chr:("c") then
    match ap with AInt v :: ap => Some ([u8 v], ap) | _ => None end
  else if c =? chr:("s") then
    match ap with
    | AStr p :: ap =>
        pr ← (if prec sp =? NO_PREC then match p with None => Some 0 | Some m => strlen m end
              else Some (prec sp));
        body ← match p with
               | Some m => scpy m pr
               | None => if pr =? 0 then Some [] else None
               end;
        Some ((if minus sp then [] else replicate (pad_count (width sp) pr) (pad sp)) ++ body
              ++ (if minus sp then replicate (pad_count (width sp) pr) (pad sp) else []), ap)
    | _ => None
    end
  else if c =? chr:("%") then Some ([chr:("%")], ap)
  else Some ([chr:("%"); c], ap).

(** The characters emitted for a format; every turn consumes at least one of its characters. *)
Fixpoint mg_vxprintf_loop (fuel : nat) (f : list Z) (ap : va_list) : option (list Z * va_list) :=
  match fuel with
  | O => None
  | S fuel' =>
      match f with
      | [] => Some ([], ap)
      | c :: f' =>
          if c =? chr:("%") then
            '(sp, f', ap) ← parse_spec f' ap;
            '(out, ap) ← convert sp ap;
            match f' with
            | [] => None                      (* the terminator was taken as a conversion *)
            | _ :: f'' => '(rest, ap) ← mg_vxprintf_loop fuel' f'' ap; Some (out ++ rest, ap)
            end
          else '(rest, ap) ← mg_vxprintf_loop fuel' f' ap; Some (c :: rest, ap)
      end
  end.

Definition mg_vxprintf (f : list Z) (ap : va_list) : option (list Z * va_list) :=
  mg_vxprintf_loop (S (length f)) f ap.

(** ** The count returned *)

(** The value a printer returns. *)
Context (pmn : Z -> va_list -> option Z).

(** What [mg_vxprintf] adds to [n] for a number: the results of [scpy] for each padding character, the prefix and
    the digits. *)
Definition number_count (sp : spec) (tmp : list Z) (k : Z) : option Z :=
  let xl := if alt sp then 2 else 0 in
  let w := Z.max 0 (width sp - xl) in
  let sp_pad := pad sp =? chr:(" ") in
  let n := if sp_pad && negb (minus sp) then Z.of_nat (pad_count w k) else 0 in
  prefix ← scpy (str:("0x") ++ [0]) xl;
  let n := n + Zlen prefix in
  let n := if pad sp =? chr:("0") then n + Z.of_nat (pad_count w k) else n in
  body ← scpy (tmp ++ [0]) k;
  let n := n + Zlen body in
  Some (if sp_pad && minus sp then n + Z.of_nat (pad_count w k) else n).

(** What one conversion adds. *)
Definition convert_count (sp : spec) (ap : va_list) : option Z :=
  let c := conv sp in
  if is_number_conv c then '(tmp, k, _) ← fetch_number sp ap; number_count sp tmp k
  else if (c =? chr:("m")) || (c =? chr:("M")) then
    match ap with
    | AFun id :: ap => n ← pmn id ap; Some (if c =? chr:("m") then n + 2 else n)
    | _ => None
    end
  else if c =? chr:("c") then Some 1
  else if c =? chr:("s") then
    match ap with
    | AStr p :: ap =>
        pr ← (if prec sp =? NO_PREC then match p with None => Some 0 | Some m => strlen m end
              else Some (prec sp));
        let n := if minus sp then 0 else Z.of_nat (pad_count (width sp) pr) in
        body ← match p with
               | Some m => scpy m pr
               | None => if pr =? 0 then Some [] else None
               end;
        let n := n + Zlen body in
        Some (if minus sp then n + Z.of_nat (pad_count (width sp) pr) else n)
    | _ => None
    end
  else if c =? chr:("%") then Some 1
  else Some 2.

(** The count [n], a [size_t], through the format. *)
Fixpoint count_loop (fuel : nat) (f : list Z) (ap : va_list) (n : Z) : option Z :=
  match fuel with
  | O => None
  | S fuel' =>
      match f with
      | [] => Some n
      | c :: f' =>
          if c =? chr:("%") then
            '(sp, f', ap) ← parse_spec f' ap;
            k ← convert_count sp ap;
            '(_, ap) ← convert sp ap;
            match f' with
            | [] => None
            | _ :: f'' => count_loop fuel' f'' ap (u32 (n + k))
            end
          else count_loop fuel' f' ap (u32 (n + 1))
      end
  end.

Definition mg_vxprintf_count (f : list Z) (ap : va_list) : option Z := count_loop (S (length f)) f ap 0.

(** ** Writing into buffers *)

(** [mg_pfn_iobuf_private]. *)
Definition mg_pfn_iobuf_private (heap : bool) (ch : Z) (io : mg_iobuf) (expand : bool) : option mg_iobuf :=
  io ← (if expand && (size io <? len io + 2) then '(_, io) ← mg_iobuf_resize heap io (len io + 2); Some io
        else Some io);
  if len io + 2 <=? size io then
    b ← wr (buf io) (len io) ch;
    b ← wr b (len io + 1) 0;
    Some (iobuf b (len io + 1) (align io))
  else if len io <? size io then
    b ← wr (buf io) (len io) 0;
    Some (iobuf b (len io + 1) (align io))
  else Some io.

Fixpoint put_all (heap : bool) (out : list Z) (io : mg_iobuf) (expand : bool) : option mg_iobuf :=
  match out with
  | [] => Some io
  | c :: out' => io ← mg_pfn_iobuf_private heap c io expand; put_all heap out' io expand
  end.

(** [mg_vsnprintf] into the block [dst]: the block afterwards and the count returned. *)
Definition mg_vsnprintf (dst : list Z) (f : list Z) (ap : va_list) : option (list Z * Z) :=
  '(out, _) ← mg_vxprintf f ap;
  io ← put_all false out (iobuf dst 0 0) false;
  n ← mg_vxprintf_count f ap;
  b ← (if n <? Zlen dst then wr (buf io) n 0 else Some (buf io));
  Some (b, n).

(** [mg_mprintf]: the block allocated, zero-terminated unless allocation fails. *)
Definition mg_vmprintf (heap : bool) (f : list Z) (ap : va_list) : option (list Z) :=
  '(out, _) ← mg_vxprintf f ap;
  io ← put_all heap out (iobuf [] 0 256) true;
  Some (buf io).
End Vxprintf.

Definition no_pm (_ : Z) (_ : va_list) : option (list Z * va_list) := None.
Definition no_pmn (_ : Z) (_ : va_list) : option Z := None.

Example printf_mix :
  mg_vxprintf no_pm str:("a %d|%-4s|%04x|%.*s|%%|%lu") [AInt (-7); AStr (Some (str:("xy") ++ [0])); AInt 255;
    AInt 2; AStr (Some str:("hello")); AInt (2 ^ 32 - 1)]
  = Some (str:("a -7|xy  |00ff|he|%|4294967295"), []).
Proof. vm_compute. reflexivity. Qed.

(** ** Truncation *)

(** After [out]: the characters that fit, a terminator, and the rest of the block. *)
Definition stored (out dst : list Z) : list Z :=
  let k := Nat.min (length out) (length dst - 1) in take k out ++ [0] ++ drop (S k) dst.

Lemma put_static_fits out : forall w r al, (length out < length r)%nat ->
  out <> [] ->
  put_all false out (iobuf (w ++ r) (Zlen w) al) false =
  Some (iobuf (w ++ out ++ [0] ++ drop (S (length out)) r) (Zlen w + Zlen out) al).
Proof.
  induction out as [|c out IH]; intros w r al Hl Hne; [done|]. cbn [put_all].
  unfold mg_pfn_iobuf_private. cbn [andb len buf align size]. unfold size. cbn [buf].
  destruct r as [|x [|y r]]; simpl in Hl; [lia..|].
  cbn [mbind option_bind len buf align]. rewrite Zlen_app, !Zlen_cons. pose proof (Zlen_nonneg r).
  rewrite (proj2 (Z.leb_le _ _)) by lia. rewrite wr_here. cbn [mbind option_bind].
  rewrite wr_next. cbn [mbind option_bind].
  destruct out as [|c' out].
  - simpl. done.
  - specialize (IH (w ++ [c]) (0 :: r) al). rewrite Zlen_app, <- app_assoc in IH.
    cbn [app] in IH. change (Zlen [c]) with 1 in IH. rewrite IH by (done || simpl in *; lia).
    do 2 f_equal; [by rewrite <- app_assoc|]. rewrite !Zlen_cons. lia.
Qed.

(** A full buffer takes nothing more. *)
Lemma put_static_full out b al : put_all false out (iobuf b (Zlen b) al) false = Some (iobuf b (Zlen b) al).
Proof.
  induction out as [|c out IH]; [done|]. cbn [put_all]. unfold mg_pfn_iobuf_private.
  unfold size. cbn [andb mbind option_bind len buf align].
  rewrite (proj2 (Z.leb_gt _ _)), (proj2 (Z.ltb_ge _ _)) by lia. cbn [mbind option_bind]. done.
Qed.

Lemma put_all_app h a b io e : put_all h (a ++ b) io e = io ← put_all h a io e; put_all h b io e.
Proof.
  revert io. induction a as [|c a IH]; intros io; [done|]. cbn [put_all app].
  destruct (mg_pfn_iobuf_private h c io e); [|done]. cbn [mbind option_bind]. apply IH.
Qed.

(** The character that no longer fits ends the buffer. *)
Lemma put_static_last c w x al :
  mg_pfn_iobuf_private false c (iobuf (w ++ [x]) (Zlen w) al) false =
  Some (iobuf (w ++ [0]) (Zlen (w ++ [0])) al).
Proof.
  unfold mg_pfn_iobuf_private, size. cbn [andb mbind option_bind len buf align].
  rewrite Zlen_app. change (Zlen [x]) with 1. rewrite (proj2 (Z.leb_gt _ _)), (proj2 (Z.ltb_lt _ _)) by lia.
  rewrite wr_here. cbn [mbind option_bind]. rewrite Zlen_app. done.
Qed.

(** ** The count is the number of characters *)

(** Printers return the number of characters they emit. *)
Definition reports (pm : Z -> va_list -> option (list Z * va_list)) (pmn : Z -> va_list -> option Z) : Prop :=
  forall id ap out ap', pm id ap = Some (out, ap') -> pmn id ap = Some (u32 (Zlen out)).

Lemma Zlen_replicate {A} n (x : A) : Zlen (replicate n x) = Z.of_nat n.
Proof. unfold Zlen. by rewrite length_replicate. Qed.

Lemma number_count_exact sp tmp k out : print_number sp tmp k = Some out -> number_count sp tmp k = Some (Zlen out).
Proof.
  unfold print_number, number_count. intros H. apply bind_Some in H as (body & Eb & [= <-]). rewrite Eb.
  assert (scpy (str:("0x") ++ [0]) (if alt sp then 2 else 0) = Some (if alt sp then str:("0x") else [])) as -> by (by destruct (alt sp)).
  cbn [mbind option_bind]. f_equal. rewrite !Zlen_app.
  destruct (pad sp =? chr:(" ")), (minus sp), (pad sp =? chr:("0")); cbn [andb negb]; rewrite ?Zlen_replicate; change (Zlen (@nil Z)) with 0; lia.
Qed.

Lemma convert_count_exact pm pmn sp ap out ap' : reports pm pmn -> convert pm sp ap = Some (out, ap') ->
  exists n, convert_count pmn sp ap = Some n /\ u32 n = u32 (Zlen out).
Proof.
  intros Hr. unfold convert, convert_count. destruct (is_number_conv (conv sp)).
  - intros H. apply bind_Some in H as ([[tmp k] ap1] & -> & H). cbn [mbind option_bind].
    apply bind_Some in H as (o & E & [= <- <-]). exists (Zlen o). split; [by apply number_count_exact|done].
  - destruct ((conv sp =? chr:("m")) || (conv sp =? chr:("M"))).
    + destruct ap as [|[] ap]; try done. intros H. apply bind_Some in H as ([o ap1] & E & H). rewrite (Hr _ _ _ _ E).
      cbn [mbind option_bind]. eexists. split; [done|]. injection H as <- <-. destruct (conv sp =? chr:("m")).
      * cbn [app]. rewrite Zlen_cons, Zlen_app. change (Zlen [34]) with 1. unfold u32. rewrite Zplus_mod_idemp_l. f_equal. lia.
      * unfold u32. by rewrite Zmod_mod.
    + destruct (conv sp =? chr:("c")); [destruct ap as [|[] ap]; try done; intros [= <- <-]; by eexists|].
      destruct (conv sp =? chr:("s")).
      * destruct ap as [|[] ap]; try done. intros H. apply bind_Some in H as (pr & -> & H). cbn [mbind option_bind].
        apply bind_Some in H as (body & -> & [= <- <-]). cbn [mbind option_bind]. eexists. split; [done|].
        rewrite !Zlen_app. destruct (minus sp); rewrite ?Zlen_replicate; change (Zlen (@nil Z)) with 0; f_equal; lia.
      * destruct (conv sp =? chr:("%")); intros [= <- <-]; by eexists.
Qed.

Lemma count_loop_exact pm pmn : reports pm pmn -> forall fuel f ap out ap' n, 
  mg_vxprintf_loop pm fuel f ap = Some (out, ap') -> 0 <= n < 2 ^ 32 -> count_loop pm pmn fuel f ap n = Some (u32 (n + Zlen out)).
Proof.
  intros Hr. induction fuel as [|fuel IH]; intros f ap out ap' n H Hn; [done|]. cbn [mg_vxprintf_loop count_loop] in *.
  destruct f as [|c f]; [injection H as <- <-; change (Zlen (@nil Z)) with 0; rewrite Z.add_0_r, u32_small by done; done|].
  destruct (c =? chr:("%")).
  - apply bind_Some in H as ([[sp f'] ap1] & -> & H). cbn [mbind option_bind]. apply bind_Some in H as ([o ap2] & E & H).
    destruct (convert_count_exact pm pmn sp ap1 o ap2 Hr E) as (k & -> & Ek). rewrite E. cbn [mbind option_bind].
    destruct f' as [|c' f']; [done|]. apply bind_Some in H as ([rest ap3] & Er & [= <- <-]).
    rewrite (IH f' ap2 rest ap3 _ Er) by (unfold u32; apply Z.mod_pos_bound; lia). f_equal. rewrite Zlen_app.
    unfold u32 in *. rewrite Zplus_mod_idemp_l, <- Z.add_assoc, (Z.add_comm k), Z.add_assoc, <- Zplus_mod_idemp_r, Ek, Zplus_mod_idemp_r.
    f_equal. lia.
  - apply bind_Some in H as ([rest ap3] & Er & [= <- <-]).
    rewrite (IH f ap rest ap3 _ Er) by (unfold u32; apply Z.mod_pos_bound; lia). f_equal. rewrite Zlen_cons.
    unfold u32. rewrite Zplus_mod_idemp_l. f_equal. lia.
Qed.

Lemma count_exact pm pmn f ap out ap' : reports pm pmn -> mg_vxprintf pm f ap = Some (out, ap') -> Zlen out < 2 ^ 32 ->
  mg_vxprintf_count pm pmn f ap = Some (Zlen out).
Proof.
  intros Hr H Hl. unfold mg_vxprintf_count. rewrite (count_loop_exact pm pmn Hr _ _ _ out ap' 0 H) by lia.
  rewrite Z.add_0_l, u32_small; [done|]. pose proof (Zlen_nonneg out). lia.
Qed.

Lemma no_pm_reports : reports no_pm no_pmn.
Proof. by intros id ap out ap'. Qed.

Lemma vsnprintf_stores pm pmn dst f ap out ap' : reports pm pmn ->
  mg_vxprintf pm f ap = Some (out, ap') -> Zlen out < 2 ^ 32 -> dst <> [] ->
  mg_vsnprintf pm pmn dst f ap = Some (stored out dst, Zlen out).
Proof.
  intros Hrep Hp Hlen Hd. unfold mg_vsnprintf. rewrite (count_exact pm pmn f ap out ap' Hrep Hp Hlen), Hp. cbn [mbind option_bind]. unfold stored.
  destruct (decide (length out < length dst)%nat) as [Hlt|Hge].
  - rewrite Nat.min_l by lia. rewrite take_ge by lia.
    destruct (decide (out = [])) as [->|Hne].
    + cbn [put_all mbind option_bind buf]. destruct dst as [|x dst]; [done|].
      change (Zlen (@nil Z)) with 0. rewrite Zlen_cons, (proj2 (Z.ltb_lt _ _)) by (pose proof (Zlen_nonneg dst); lia).
      rewrite (wr_here [] x dst 0 : wr (x :: dst) 0 0 = _). done.
    + pose proof (put_static_fits out [] dst 0 Hlt Hne) as H. cbn [app] in H. change (Zlen []) with 0 in H.
      rewrite H. cbn [mbind option_bind buf]. rewrite (proj2 (Z.ltb_lt _ _)) by (unfold Zlen; lia).
      cbn [app]. rewrite wr_here. done.
  - rewrite Nat.min_r by lia. rewrite (proj2 (Z.ltb_ge (Zlen out) (Zlen dst))) by (unfold Zlen; lia).
    destruct dst as [|x dst] using rev_ind; [done|]. clear Hd IHdst. rewrite length_app in *. simpl in *.
    replace (length dst + 1 - 1)%nat with (length dst) by lia.
    rewrite (drop_ge (dst ++ [x])) by (rewrite length_app; simpl; lia).
    rewrite <- (take_drop (length dst) out) at 1. rewrite put_all_app.
    set (a := take (length dst) out). assert (length a = length dst) as Ha by (unfold a; rewrite length_take; lia).
    destruct (drop (length dst) out) as [|c rest] eqn:Hr.
    { apply (f_equal length) in Hr. rewrite length_drop in Hr. simpl in Hr. lia. }
    assert (put_all false a (iobuf (dst ++ [x]) 0 0) false = Some (iobuf (a ++ [if bool_decide (a = []) then x else 0]) (Zlen a) 0)) as ->.
    { destruct (decide (a = [])) as [E|Hne].
      - rewrite E in *. destruct dst; [|simpl in Ha; lia]. done.
      - pose proof (put_static_fits a [] (dst ++ [x]) 0) as H. cbn [app] in H. change (Zlen []) with 0 in H.
        rewrite H by (rewrite ?length_app; simpl; done || lia). rewrite drop_ge by (rewrite length_app; simpl; lia).
        rewrite bool_decide_false by done. done. }
    cbn [mbind option_bind put_all]. rewrite put_static_last. cbn [mbind option_bind].
    rewrite put_static_full. done.
Qed.

(** ** Printers *)

(** [mg_esc]: the character after the backslash ([esc]), or the one it stands for. *)
Definition mg_esc (c : Z) (esc : bool) : Z := json_esc c esc.
Definition mg_escape (c : Z) : Z := mg_esc c true.

(** [qcpy]: at most [n] characters of the memory at [buf], escaped. *)
Fixpoint qcpy (buf : list Z) (n : nat) {struct n} : option (list Z) :=
  match n with
  | O => Some []
  | S n' =>
      match buf with
      | [] => None
      | c :: buf' =>
          if c =? 0 then Some []
          else r ← qcpy buf' n';
               Some ((if negb (mg_escape c =? 0) then [92; mg_escape c] else [c]) ++ r)
      end
  end.

Definition b64_table : list Z := str:("ABCDEFGHIJKLMNOPQRSTUVWXYZabcdefghijklmnopqrstuvwxyz0123456789+/").
Definition b64_char (i : Z) : Z := nth (Z.to_nat i) b64_table 0.

(** [bcpy] over the bytes of a block, in steps of three. *)
Fixpoint bcpy (l : list Z) : list Z :=
  match l with
  | [] => []
  | [c1] => [b64_char (Z.shiftr c1 2); b64_char (Z.lor (Z.shiftl (Z.land c1 3) 4) (Z.shiftr 0 4));
             chr:("="); chr:("=")]
  | [c1; c2] => [b64_char (Z.shiftr c1 2); b64_char (Z.lor (Z.shiftl (Z.land c1 3) 4) (Z.shiftr c2 4));
                 b64_char (Z.lor (Z.shiftl (Z.land c2 15) 2) (Z.shiftr 0 6)); chr:("=")]
  | c1 :: c2 :: c3 :: r =>
      [b64_char (Z.shiftr c1 2); b64_char (Z.lor (Z.shiftl (Z.land c1 3) 4) (Z.shiftr c2 4));
       b64_char (Z.lor (Z.shiftl (Z.land c2 15) 2) (Z.shiftr c3 6)); b64_char (Z.land c3 63)] ++ bcpy r
  end.

(** The first two arguments of the printers of byte blocks: a length and a pointer. *)
Definition block_arg (ap : va_list) : option (Z * list Z * va_list) :=
  match ap with
  | AInt n :: AStr (Some p) :: ap => Some (u32 n, p, ap)
  | AInt n :: AStr None :: ap => Some (u32 n, [], ap)
  | _ => None
  end.

Definition mg_print_hex (ap : va_list) : option (list Z * va_list) :=
  '(n, p, ap) ← block_arg ap;
  b ← slice p 0 n;
  Some (flat_map (fun c => [letter (Z.land (Z.shiftr c 4) 15); letter (Z.land c 15)]) b, ap).

Definition mg_print_base64 (ap : va_list) : option (list Z * va_list) :=
  '(n, p, ap) ← block_arg ap; b ← slice p 0 n; Some (bcpy b, ap).

Definition mg_print_esc (ap : va_list) : option (list Z * va_list) :=
  match ap with
  | AInt n :: AStr p :: ap =>
      k ← (if u32 n =? 0 then match p with None => Some 0 | Some m => strlen m end else Some (u32 n));
      out ← match p with Some m => qcpy m (Z.to_nat k) | None => if k =? 0 then Some [] else None end;
      Some (out, ap)
  | _ => None
  end.

(** [print_ip4], [print_ip6], [mg_print_mac] on the bytes in network order. *)
Definition print_ip4 (p : list Z) : option (list Z) :=
  '(out, _) ← mg_vxprintf no_pm str:("%d.%d.%d.%d") (map AInt (take 4 p)); Some out.

Definition be16_at (p : list Z) (i : nat) : Z := nth (2 * i) p 0 * 256 + nth (2 * i + 1) p 0.

Definition print_ip6 (p : list Z) : option (list Z) :=
  '(out, _) ← mg_vxprintf no_pm str:("[%x:%x:%x:%x:%x:%x:%x:%x]") (map (fun i => AInt (be16_at p i)) (seq 0 8));
  Some out.

Definition mg_print_mac (p : list Z) : option (list Z) :=
  '(out, _) ← mg_vxprintf no_pm str:("%02x:%02x:%02x:%02x:%02x:%02x") (map AInt (take 6 p)); Some out.

Inductive printer := PM_hex | PM_base64 | PM_esc | PM_ip4 | PM_ip6 | PM_mac.

Definition pm_id (p : printer) : Z :=
  match p with PM_hex => 1 | PM_base64 => 2 | PM_esc => 3 | PM_ip4 => 4 | PM_ip6 => 5 | PM_mac => 6 end.

Definition ptr_arg (f : list Z -> option (list Z)) (n : nat) (ap : va_list) : option (list Z * va_list) :=
  match ap with
  | AStr (Some p) :: ap => if (n <=? length p)%nat then out ← f p; Some (out, ap) else None
  | _ => None
  end.

(** The printers of the library, as [%M] dispatches to them. *)
Definition mg_pm (id : Z) (ap : va_list) : option (list Z * va_list) :=
  if id =? pm_id PM_hex then mg_print_hex ap
  else if id =? pm_id PM_base64 then mg_print_base64 ap
  else if id =? pm_id PM_esc then mg_print_esc ap
  else if id =? pm_id PM_ip4 then ptr_arg print_ip4 4 ap
  else if id =? pm_id PM_ip6 then ptr_arg print_ip6 16 ap
  else if id =? pm_id PM_mac then ptr_arg mg_print_mac 6 ap
  else None.

Example print_mix :
  mg_vxprintf mg_pm str:("%M %m %M") [AFun (pm_id PM_mac); AStr (Some [1; 2; 3; 171; 5; 6]);
    AFun (pm_id PM_esc); AInt 0; AStr (Some [97; 34; 10; 0]); AFun (pm_id PM_ip4); AStr (Some [10; 0; 0; 254])]
  = Some (str:("01:02:03:ab:05:06 ") ++ [34; 97; 92; 34; 92; 110; 34] ++ str:(" 10.0.0.254"), []).
Proof. vm_compute. reflexivity. Qed.

(** ** What the printers return *)

(** [i + extra] of [qcpy]. *)
Fixpoint qcpy_count (buf : list Z) (n : nat) (i extra : Z) {struct n} : option Z :=
  match n with
  | O => Some (i + extra)
  | S n' =>
      match buf with
      | [] => None
      | c :: buf' =>
          if c =? 0 then Some (i + extra)
          else qcpy_count buf' n' (i + 1) (if negb (mg_escape c =? 0) then extra + 1 else extra)
      end
  end.

(** [n] of [bcpy]: the characters of every group of three bytes, up to a terminator. *)
Fixpoint bcpy_count (l : list Z) (n : Z) : Z :=
  match l with
  | [] => n
  | [_] | [_; _] => n + 4
  | _ :: _ :: _ :: r => bcpy_count r (n + 4)
  end.

Definition mg_print_hex_count (ap : va_list) : option Z := '(n, _, _) ← block_arg ap; Some (u32 (2 * n)).

Definition mg_print_base64_count (ap : va_list) : option Z :=
  '(n, p, _) ← block_arg ap; b ← slice p 0 n; Some (u32 (bcpy_count b 0)).

Definition mg_print_esc_count (ap : va_list) : option Z :=
  match ap with
  | AInt n :: AStr p :: _ =>
      k ← (if u32 n =? 0 then match p with None => Some 0 | Some m => strlen m end else Some (u32 n));
      c ← match p with Some m => qcpy_count m (Z.to_nat k) 0 0 | None => if k =? 0 then Some 0 else None end;
      Some (u32 c)
  | _ => None
  end.

(** [mg_xprintf] inside the printers of addresses. *)
Definition ptr_count (f : list Z) (args : list Z -> va_list) (n : nat) (ap : va_list) : option Z :=
  match ap with
  | AStr (Some p) :: _ => if (n <=? length p)%nat then mg_vxprintf_count no_pm no_pmn f (args p) else None
  | _ => None
  end.

Definition mg_pm_count (id : Z) (ap : va_list) : option Z :=
  if id =? pm_id PM_hex then mg_print_hex_count ap
  else if id =? pm_id PM_base64 then mg_print_base64_count ap
  else if id =? pm_id PM_esc then mg_print_esc_count ap
  else if id =? pm_id PM_ip4 then ptr_count str:("%d.%d.%d.%d") (fun p => map AInt (take 4 p)) 4 ap
  else if id =? pm_id PM_ip6 then
    ptr_count str:("[%x:%x:%x:%x:%x:%x:%x:%x]") (fun p => map (fun i => AInt (be16_at p i)) (seq 0 8)) 16 ap
  else if id =? pm_id PM_mac then ptr_count str:("%02x:%02x:%02x:%02x:%02x:%02x") (fun p => map AInt (take 6 p)) 6 ap
  else None.

Lemma qcpy_count_exact n : forall buf out i e, qcpy buf n = Some out -> qcpy_count buf n i e = Some (i + e + Zlen out).
Proof.
  induction n as [|n IH]; intros buf out i e H; cbn [qcpy qcpy_count] in *; [injection H as <-; f_equal; change (Zlen (@nil Z)) with 0; lia|].
  destruct buf as [|c buf]; [done|]. destruct (c =? 0); [injection H as <-; f_equal; change (Zlen (@nil Z)) with 0; lia|].
  apply bind_Some in H as (r & Er & [= <-]). rewrite (IH buf r _ _ Er). f_equal. rewrite Zlen_app.
  destruct (negb (mg_escape c =? 0)); rewrite ?Zlen_cons; change (Zlen (@nil Z)) with 0; lia.
Qed.

Lemma bcpy_count_exact l : forall n, bcpy_count l n = n + Zlen (bcpy l).
Proof.
  induction l as [|a|a b|a b c r IH] using list_ind3; intros n; cbn [bcpy_count bcpy]; rewrite ?Zlen_app, ?Zlen_cons; change (Zlen (@nil Z)) with 0; try lia.
  rewrite IH. lia.
Qed.

Lemma ptr_count_exact f args n ap out ap' :
  ptr_arg (fun p => '(o, _) ← mg_vxprintf no_pm f (args p); Some o) n ap = Some (out, ap') -> ptr_count f args n ap = Some (u32 (Zlen out)).
Proof.
  unfold ptr_arg, ptr_count. destruct ap as [|[| | |[p|]|] ap]; try done. destruct (_ <=? _)%nat; [|done].
  intros H. apply bind_Some in H as (o & H & [= <- <-]). apply bind_Some in H as ([o' ap2] & E & [= <-]).
  unfold mg_vxprintf_count. by rewrite (count_loop_exact no_pm no_pmn no_pm_reports _ _ _ o' ap2 0 E) by lia.
Qed.

(** The printers of the library return the number of characters they emit. *)
Lemma mg_pm_reports : reports mg_pm mg_pm_count.
Proof.
  intros id ap out ap'. unfold mg_pm, mg_pm_count.
  destruct (id =? pm_id PM_hex).
  { unfold mg_print_hex, mg_print_hex_count. intros H. apply bind_Some in H as ([[n p] ap1] & -> & H). cbn [mbind option_bind].
    apply bind_Some in H as (b & E & [= <- <-]). apply slice_len in E as [E _]. rewrite <- E. do 2 f_equal.
    clear. induction b as [|c b IH]; [done|]. cbn [flat_map]. rewrite Zlen_app, !Zlen_cons, <- IH. change (Zlen (@nil Z)) with 0. lia. }
  destruct (id =? pm_id PM_base64).
  { unfold mg_print_base64, mg_print_base64_count. intros H. apply bind_Some in H as ([[n p] ap1] & -> & H). cbn [mbind option_bind].
    apply bind_Some in H as (b & -> & [= <- <-]). cbn [mbind option_bind]. by rewrite bcpy_count_exact. }
  destruct (id =? pm_id PM_esc).
  { unfold mg_print_esc, mg_print_esc_count. destruct ap as [|[n| | | |] [|[| | |p|] ap]]; try done.
    intros H. apply bind_Some in H as (k & -> & H). cbn [mbind option_bind]. apply bind_Some in H as (o & E & [= <- <-]).
    destruct p as [m|]; [by rewrite (qcpy_count_exact _ _ _ 0 0 E)|]. destruct (k =? 0); [injection E as <-|]; done. }
  destruct (id =? pm_id PM_ip4).
  { exact (ptr_count_exact str:("%d.%d.%d.%d") (fun p => map AInt (take 4 p)) 4 ap out ap'). }
  destruct (id =? pm_id PM_ip6).
  { exact (ptr_count_exact str:("[%x:%x:%x:%x:%x:%x:%x:%x]") (fun p => map (fun i => AInt (be16_at p i)) (seq 0 8)) 16 ap out ap'). }
  destruct (id =? pm_id PM_mac); [|done].
  exact (ptr_count_exact str:("%02x:%02x:%02x:%02x:%02x:%02x") (fun p => map AInt (take 6 p)) 6 ap out ap').
Qed.

(** C40: [mg_snprintf] never writes outside the destination, always terminates it and reports the length: for
    every format and arguments the formatter accepts and whose text is shorter than 2^32 characters, a destination of
    n > 0 bytes receives the first n - 1 characters (all of them when they fit) followed by a zero byte, the
    bytes behind it stay as they were, and the value returned - counted by the formatter conversion by
    conversion, and not read off the output - is the length of the whole text, so truncation is visible to
    the caller.  Printers behind %m and %M are assumed to return the number of characters
    they emit, which [mg_pm_reports] shows of those of the library. *)
Theorem snprintf_exact (pm : Z -> va_list -> option (list Z * va_list)) (pmn : Z -> va_list -> option Z) (dst f : list Z)
  (ap ap' : va_list) (out : list Z) (Hr : reports pm pmn)
  (Hp : mg_vxprintf pm f ap = Some (out, ap')) (Hl : Zlen out < 2 ^ 32) (Hd : dst <> []) :
  mg_vsnprintf pm pmn dst f ap = Some (stored out dst, Zlen out).
Proof. by apply (vsnprintf_stores pm pmn dst f ap out ap'). Qed.

Lemma snprintf_exact_witness :
  mg_vsnprintf mg_pm mg_pm_count [9; 9; 9; 9] str:("%d-%m") [AInt 12; AFun (pm_id PM_esc); AInt 0; AStr (Some [97; 10; 0])] =
  Some ([49; 50; 45; 0], 8).
Proof.
  apply (snprintf_exact mg_pm mg_pm_count [9; 9; 9; 9] str:("%d-%m") [AInt 12; AFun (pm_id PM_esc); AInt 0; AStr (Some [97; 10; 0])]
    [] (str:("12-") ++ [34; 97; 92; 110; 34])); [exact mg_pm_reports|vm_compute; reflexivity|vm_compute; reflexivity|discriminate].
Defined.

(** ** Integers survive printing and parsing *)

Lemma letter_digit base d : base = 10 \/ base = 16 -> 0 <= d < base -> digit_of base (letter d) = Some d.
Proof.
  intros Hb Hd.
  assert (forall x, 0 <= x < base -> match digit_of base (letter x) with Some y => y =? x | None => false end = true) as H.
  { apply forallb_seqZ. destruct Hb as [-> | ->]; reflexivity. }
  specialize (H d Hd). case_match; [|done]. apply Z.eqb_eq in H. by subst.
Qed.

Lemma value_from_app base a b : forall acc,
  value_from base acc (a ++ b) = v ← value_from base acc a; value_from base v b.
Proof.
  induction a as [|c a IH]; intros acc; [done|]. simpl. destruct (digit_of base c); [|done]. simpl. apply IH.
Qed.

Lemma value_rev_digits base n : base = 10 \/ base = 16 -> forall v, 0 <= v < base ^ Z.of_nat n ->
  value_from base 0 (rev (rev_digits n base v)) = Some v.
Proof.
  intros Hb. induction n as [|n IH]; intros v Hv; simpl rev_digits.
  { change (base ^ Z.of_nat 0) with 1 in Hv. simpl. f_equal. lia. }
  destruct (Z.eqb_spec v 0) as [->|]; [done|]. simpl rev. rewrite value_from_app.
  rewrite Nat2Z.inj_succ, Z.pow_succ_r in Hv by lia.
  assert (0 < base) by lia. pose proof (Z.mod_pos_bound v base ltac:(done)) as Hm.
  rewrite IH; [|split; [apply Z.div_pos; lia|apply Z.div_lt_upper_bound; lia]].
  cbn [mbind option_bind value_from]. rewrite letter_digit by done. cbn [mbind option_bind].
  f_equal. pose proof (Z.div_mod v base). lia.
Qed.

Lemma rev_digits_nil n base v : v <> 0 -> rev_digits (S n) base v <> [].
Proof. intros H. simpl. by rewrite (proj2 (Z.eqb_neq v 0)). Qed.

(** Numbers survive printing and parsing: for every 64-bit unsigned value the digits
    written by [mg_lld] (decimal, or hexadecimal) are read back by [mg_str_to_num] as the
    same value. *)
Theorem number_roundtrip (v : Z) (is_hex : bool) (Hv : 0 <= v < 2 ^ 64) :
  mg_str_to_num (mg_lld v false is_hex) (if is_hex then 16 else 10) 8 = Some v.
Proof.
  apply str_to_num_spec; [destruct is_hex; unfold base_ok; auto|unfold width_ok; auto|].
  unfold mg_lld. cbn [andb app]. rewrite u64_small by done.
  destruct (Z.eqb_spec v 0) as [->|Hne].
  { destruct is_hex; (split; [vm_compute; congruence|split; [reflexivity|lia]]). }
  rewrite app_nil_r. split; [|split; [|apply Hv]].
  - intros H. apply (f_equal (@rev Z)) in H. rewrite rev_involutive in H. by apply rev_digits_nil in H.
  - apply value_rev_digits; [destruct is_hex; auto|].
    split; [apply Hv|]. apply (Z.lt_le_trans _ (2 ^ 64)); [apply Hv|].
    apply Z.leb_le. destruct is_hex; vm_compute; reflexivity.
Qed.

Lemma number_roundtrip_witness :
  mg_str_to_num (mg_lld (2 ^ 64 - 1) false false) 10 8 = Some (2 ^ 64 - 1).
Proof. apply (number_roundtrip (2 ^ 64 - 1) false). lia. Defined.

(** ** JSON strings survive escaping *)

Lemma unescape_raw fuel c s' w x r :
  c <> 92 -> unescape_loop (S fuel) (c :: s') (w ++ x :: r) (Zlen w) =
             unescape_loop fuel s' (w ++ c :: r) (Zlen w + 1).
Proof.
  intros Hc. cbn [unescape_loop]. rewrite Zlen_app, Zlen_cons.
  rewrite (proj2 (Z.ltb_lt _ _)) by (pose proof (Zlen_nonneg r); lia).
  rewrite (proj2 (Z.eqb_neq c 92)) by done. cbn [andb].
  rewrite !wr_here. cbn [mbind option_bind]. repeat case_match; done.
Qed.

Lemma unescape_escaped fuel u s'' w x r :
  u <> 117 -> json_esc u false <> 0 ->
  unescape_loop (S fuel) (92 :: u :: s'') (w ++ x :: r) (Zlen w) =
  unescape_loop fuel s'' (w ++ json_esc u false :: r) (Zlen w + 1).
Proof.
  intros Hu He. cbn [unescape_loop]. rewrite Zlen_app, Zlen_cons.
  rewrite (proj2 (Z.ltb_lt _ _)) by (pose proof (Zlen_nonneg r); lia).
  rewrite (proj2 (Z.eqb_neq u 117)) by done. rewrite (proj2 (Z.eqb_neq (json_esc u false) 0)) by done.
  rewrite !wr_here. cbn [mbind option_bind andb Z.eqb Pos.eqb]. repeat case_match; done.
Qed.

(** Every character that is escaped comes back, and is not taken for a code point. *)
Lemma escape_inverse c : mg_escape c <> 0 ->
  mg_escape c <> 117 /\ json_esc (mg_escape c) false = c /\ c <> 0.
Proof.
  unfold mg_escape, mg_esc, json_esc, escapeseq. cbn [negb app esc_find].
  repeat (case_match; zbool; subst; [by vm_compute|]). done.
Qed.

Lemma raw_not_backslash c : mg_escape c = 0 -> c <> 92.
Proof. intros H ->. by vm_compute in H. Qed.

Lemma unescape_qcpy s : forall mem fuel w r,
  0 ∉ s -> (length s < length r)%nat ->
  exists e, qcpy (s ++ mem) (length s) = Some e /\ (length s <= length e)%nat /\
  ((length e <= fuel)%nat ->
   unescape_loop fuel e (w ++ r) (Zlen w) = Some (true, w ++ s ++ drop (length s) r, Zlen w + Zlen s)).
Proof.
  induction s as [|c s IH]; intros mem fuel w r H0 Hr.
  { exists []. split; [done|]. split; [done|]. intros _. change (Zlen []) with 0.
    rewrite Z.add_0_r. simpl app. simpl drop. rewrite drop_0. destruct fuel; reflexivity. }
  apply not_elem_of_cons in H0 as [H0 H0']. destruct r as [|x r]; simpl in Hr; [lia|].
  destruct (IH mem (fuel - 1)%nat (w ++ [c]) r H0' ltac:(lia)) as (e & He & Hle & Hu).
  cbn [length qcpy app]. rewrite (proj2 (Z.eqb_neq c 0)) by done. rewrite He. cbn [mbind option_bind].
  eexists. split; [done|].
  assert (forall f, (length e <= f)%nat -> f = (fuel - 1)%nat ->
    unescape_loop f e (w ++ c :: r) (Zlen w + 1) =
    Some (true, w ++ (c :: s) ++ drop (S (length s)) (x :: r), Zlen w + Zlen (c :: s))) as Hgo.
  { intros f Hf ->. specialize (Hu Hf). rewrite Zlen_app in Hu. change (Zlen [c]) with 1 in Hu.
    rewrite <- !app_assoc in Hu. cbn [app] in Hu. rewrite Hu. rewrite Zlen_cons. do 2 f_equal. lia. }
  destruct (Z.eqb_spec (mg_escape c) 0) as [E|E]; cbn [negb app length].
  - split; [lia|]. intros Hf. destruct fuel as [|fuel]; [lia|].
    rewrite unescape_raw by (by apply raw_not_backslash). apply Hgo; lia.
  - split; [lia|]. intros Hf. destruct fuel as [|fuel]; [lia|].
    destruct (escape_inverse c E) as (H117 & Hinv & _).
    rewrite unescape_escaped by (congruence || (rewrite Hinv; done)). rewrite Hinv. apply Hgo; lia.
Qed.

(** Strings survive the trip through JSON: what [mg_print_esc] prints for a string
    (as [%m] puts it between quotes in a reply) is decoded by [mg_json_unescape] to the
    same string, terminated, whenever the destination has room for it. *)
Theorem json_escape_roundtrip (s dst : list Z) (H0 : 0 ∉ s) (Hs : 0 < Zlen s < 2 ^ 32)
  (Hd : Zlen s < Zlen dst) :
  exists e, mg_print_esc [AInt (Zlen s); AStr (Some (s ++ [0]))] = Some (e, []) /\
            mg_json_unescape e dst = Some (true, s ++ [0] ++ drop (S (length s)) dst).
Proof.
  destruct (unescape_qcpy s [0] (length s + length s + length s)%nat [] dst H0) as (e & He & _ & _);
    [unfold Zlen in *; lia|].
  destruct (unescape_qcpy s [0] (length e) [] dst H0) as (e' & He' & _ & Hu); [unfold Zlen in *; lia|].
  rewrite He in He'. injection He' as <-. specialize (Hu ltac:(lia)).
  exists e. split.
  - unfold mg_print_esc. rewrite u32_small by lia. rewrite (proj2 (Z.eqb_neq _ 0)) by lia.
    cbn [mbind option_bind]. unfold Zlen. rewrite Nat2Z.id, He. done.
  - unfold mg_json_unescape. cbn [app] in Hu. change (Zlen []) with 0 in Hu. rewrite Hu.
    cbn [mbind option_bind negb]. rewrite Z.add_0_l, (proj2 (Z.leb_gt _ _)) by lia.
    rewrite (proj2 (Z.ltb_lt _ _)) by lia.
    destruct (drop (length s) dst) as [|x r] eqn:E.
    { apply (f_equal length) in E. rewrite length_drop in E. simpl in E. unfold Zlen in Hd. lia. }
    rewrite wr_here. cbn [mbind option_bind]. do 3 f_equal.
    replace (S (length s)) with (length s + 1)%nat by lia. rewrite <- drop_drop, E. done.
Qed.

Lemma json_escape_roundtrip_witness :
  exists e, mg_print_esc [AInt 4; AStr (Some ([97; 34; 92; 10] ++ [0]))] = Some (e, []) /\
            mg_json_unescape e (replicate 8 7) = Some (true, [97; 34; 92; 10; 0; 7; 7; 7]).
Proof.
  apply (json_escape_roundtrip [97; 34; 92; 10] (replicate 8 7));
    [by apply (bool_decide_unpack (0 ∉ [97; 34; 92; 10]))|vm_compute; split; congruence|vm_compute; reflexivity].
Defined.

(** ** The two base64 encoders agree *)

Lemma b64_char_enc i : 0 <= i < 64 -> b64_char i = enc i.
Proof.
  intros Hi. assert (forall x, 0 <= x < 64 -> (b64_char x =? enc x) = true) as H
    by (apply forallb_seqZ; vm_compute; reflexivity).
  specialize (H i Hi). by apply Z.eqb_eq.
Qed.

(** Six bits from the end of one byte and the start of the next. *)
Lemma splice a k b m : 0 <= k -> 0 <= m -> 0 <= b < 2 ^ (m + k) ->
  Z.lor (Z.shiftl a k) (Z.shiftr b m) = a * 2 ^ k + b / 2 ^ m.
Proof.
  intros Hk Hm Hb. rewrite Z.shiftr_div_pow2 by done. apply lor_disjoint_add; [done|].
  rewrite Z.pow_add_r in Hb by done. split; [apply Z.div_pos; [lia|apply Z.pow_pos_nonneg; lia]|].
  apply Z.div_lt_upper_bound; [apply Z.pow_pos_nonneg; lia|lia].
Qed.

Lemma bcpy_b64 l : is_bytes l -> bcpy l = b64 l.
Proof.
  unfold is_byte.
  assert (forall c, Z.land c 3 = c mod 4 /\ Z.land c 15 = c mod 16 /\ Z.land c 63 = c mod 64 /\ Z.shiftr c 2 = c / 4)
    as Hl by (intros c; rewrite (Z.land_ones c 2 ltac:(lia) : Z.land c 3 = _), (Z.land_ones c 4 ltac:(lia) : Z.land c 15 = _),
      (Z.land_ones c 6 ltac:(lia) : Z.land c 63 = _), Z.shiftr_div_pow2 by lia; done).
  induction l as [|a|a b|a b c r IH] using list_ind3; intros Hb; repeat apply Forall_cons in Hb as [? Hb];
    cbn [bcpy b64 app]; [done|..]; destruct (Hl a) as (-> & _ & _ & ->); try destruct (Hl b) as (_ & -> & _ & _);
    try destruct (Hl c) as (_ & _ & -> & _).
  all: rewrite ?(splice _ 4 _ 4), ?(splice _ 2 _ 6) by (simpl; lia).
  all: rewrite ?b64_char_enc by dlia; try (rewrite IH by done); repeat f_equal; try lia; try dlia; done.
Qed.

(** The base64 printer behind [%M] and the incremental encoder agree: for every block
    of bytes, [bcpy] emits exactly what [mg_base64_encode] stores, so a block printed into
    a reply can be read back by [mg_base64_decode]. *)
Theorem bcpy_encode (l dst : list Z) (Hl : is_bytes l) (Hd : Zlen (bcpy l) < Zlen dst) :
  mg_base64_encode l dst = Some (bcpy l ++ 0 :: drop (S (length (bcpy l))) dst, Zlen (bcpy l)).
Proof.
  rewrite bcpy_b64 in * by done. rewrite encode_eq by done. by rewrite (proj2 (Z.leb_gt _ _)) by done.
Qed.

Lemma bcpy_encode_witness :
  mg_base64_encode [77; 97] (replicate 6 9) = Some (str:("TWE=") ++ [0; 9], 4).
Proof.
  apply (bcpy_encode [77; 97] (replicate 6 9)); [repeat constructor; done|vm_compute; reflexivity].
Defined.

(** ** Equations of the formatter *)

Lemma opt_char_len c f b f' : opt_char c f = (b, f') -> (length f' <= length f)%nat.
Proof. unfold opt_char. case_match; intros [= <- <-]; [destruct f; simpl; lia|lia]. Qed.

Lemma digits_len f : forall acc v f', digits f acc = (v, f') -> (length f' <= length f)%nat.
Proof.
  induction f as [|c f IH]; intros acc v f'; simpl; [intros [= <- <-]; simpl; lia|].
  case_match; [intros ?%IH; lia|intros [= <- <-]; simpl; lia].
Qed.

Lemma skip_h_len f : (length (skip_h f) <= length f)%nat.
Proof. induction f as [|c f IH]; simpl; [lia|]. case_match; simpl; lia. Qed.

Lemma parse_spec_len f ap sp f' ap' :
  parse_spec f ap = Some (sp, f', ap') -> (length f' <= length f)%nat.
Proof.
  unfold parse_spec.
  destruct (opt_char chr:("#") f) as [x f1] eqn:E1. apply opt_char_len in E1.
  destruct (opt_char chr:("-") f1) as [mi f2] eqn:E2. apply opt_char_len in E2.
  destruct (opt_char chr:("0") f2) as [z f3] eqn:E3. apply opt_char_len in E3.
  destruct (digits f3 0) as [w f4] eqn:E4. apply digits_len in E4.
  destruct (opt_char chr:(".") f4) as [dot f5] eqn:E5. apply opt_char_len in E5.
  intros Hp. apply bind_Some in Hp as ([[pr g] ap2] & Hg & Hp).
  assert (length g <= length f5)%nat as Hlen.
  { destruct dot; [|by simplify_eq]. destruct (cur f5 =? _).
    - destruct ap as [|[] ?]; simplify_eq. destruct f5; simpl; lia.
    - destruct (digits f5 0) as [p f6] eqn:E6. apply digits_len in E6. by simplify_eq. }
  pose proof (skip_h_len g). destruct (opt_char chr:("l") (skip_h g)) as [l1 g1] eqn:E7. apply opt_char_len in E7.
  destruct l1.
  - destruct (opt_char chr:("l") g1) as [l2 g2] eqn:E8. apply opt_char_len in E8. simplify_eq. lia.
  - simplify_eq. lia.
Qed.

Section Equations.
Context (pm : Z -> va_list -> option (list Z * va_list)).

Lemma vx_loop_cons fuel c f ap : mg_vxprintf_loop pm (S fuel) (c :: f) ap =
  if c =? chr:("%") then
    '(sp, f', ap) ← parse_spec f ap;
    '(out, ap) ← convert pm sp ap;
    match f' with
    | [] => None
    | _ :: f'' => '(rest, ap) ← mg_vxprintf_loop pm fuel f'' ap; Some (out ++ rest, ap)
    end
  else '(rest, ap) ← mg_vxprintf_loop pm fuel f ap; Some (c :: rest, ap).
Proof. reflexivity. Qed.

(** More fuel than characters changes nothing. *)
Lemma loop_fuel f : forall fuel1 fuel2 ap, (length f < fuel1)%nat -> (length f < fuel2)%nat ->
  mg_vxprintf_loop pm fuel1 f ap = mg_vxprintf_loop pm fuel2 f ap.
Proof.
  remember (length f) as n eqn:Hn. revert f Hn. induction (lt_wf n) as [n _ IH].
  intros f -> [|fuel1] [|fuel2] ap H1 H2; [lia..|]. cbn [mg_vxprintf_loop].
  destruct f as [|c f]; [done|]. simpl in H1, H2. destruct (c =? _).
  - destruct (parse_spec f ap) as [[[sp f'] ap']|] eqn:Es; [|done]. cbn [mbind option_bind].
    apply parse_spec_len in Es. destruct (convert pm sp ap') as [[out ap2]|]; [|done]. cbn [mbind option_bind].
    destruct f' as [|c' f']; [done|]. simpl in Es.
    rewrite (IH (length f') ltac:(simpl; lia) f' eq_refl fuel1 fuel2) by lia. done.
  - rewrite (IH (length f) ltac:(simpl; lia) f eq_refl fuel1 fuel2) by lia. done.
Qed.

Definition put_front (out : list Z) (r : option (list Z * va_list)) : option (list Z * va_list) :=
  '(rest, ap) ← r; Some (out ++ rest, ap).

Lemma vx_nil ap : mg_vxprintf pm [] ap = Some ([], ap).
Proof. done. Qed.

Lemma vx_char c f ap : c <> 37 -> mg_vxprintf pm (c :: f) ap = put_front [c] (mg_vxprintf pm f ap).
Proof.
  intros Hc. unfold mg_vxprintf at 1. cbn [mg_vxprintf_loop length]. rewrite (proj2 (Z.eqb_neq c 37)) by done. done.
Qed.

Lemma vx_text t f ap : 37 ∉ t -> mg_vxprintf pm (t ++ f) ap = put_front t (mg_vxprintf pm f ap).
Proof.
  induction t as [|c t IH]; intros Ht.
  - unfold put_front. simpl. by destruct (mg_vxprintf pm f ap) as [[? ?]|].
  - apply not_elem_of_cons in Ht as [Hc Ht]. cbn [app]. rewrite vx_char by done. rewrite IH by done.
    unfold put_front. by destruct (mg_vxprintf pm f ap) as [[? ?]|].
Qed.

(** A conversion, given what its specification parses to. *)
Lemma vx_conv g c f ap sp ap1 out ap2 :
  parse_spec (g ++ c :: f) ap = Some (sp, c :: f, ap1) -> convert pm sp ap1 = Some (out, ap2) ->
  mg_vxprintf pm (37 :: g ++ c :: f) ap = put_front out (mg_vxprintf pm f ap2).
Proof.
  intros Hs Hc. unfold mg_vxprintf at 1. rewrite vx_loop_cons, Z.eqb_refl, Hs. cbn [mbind option_bind].
  rewrite Hc. cbn [mbind option_bind]. unfold put_front, mg_vxprintf.
  rewrite (loop_fuel f (length (37 :: g ++ c :: f)) (S (length f))) by (simpl; rewrite ?length_app; simpl; lia). done.
Qed.
End Equations.

(** ** Strings and integers as arguments *)

Lemma until_nul_all s r : 0 ∉ s -> until_nul (s ++ r) (length s) = Some s.
Proof.
  induction s as [|c s IH]; intros H; [done|]. apply not_elem_of_cons in H as [H0 H]. cbn [length until_nul app].
  rewrite (proj2 (Z.eqb_neq c 0)) by done. by rewrite IH.
Qed.

Lemma strlen_all s r : 0 ∉ s -> strlen (s ++ 0 :: r) = Some (Zlen s).
Proof.
  induction s as [|c s IH]; intros H; [done|]. apply not_elem_of_cons in H as [H0 H]. cbn [strlen app].
  rewrite (proj2 (Z.eqb_neq c 0)) by done. rewrite IH by done. cbn [mbind option_bind]. f_equal.
  rewrite Zlen_cons. lia.
Qed.

Lemma scpy_all s r : 0 ∉ s -> scpy (s ++ r) (Zlen s) = Some s.
Proof. intros H. unfold scpy, Zlen. rewrite Nat2Z.id. by apply until_nul_all. Qed.

Lemma letter_nonzero d : 0 <= d < 16 -> letter d <> 0.
Proof.
  intros Hd. assert (forall x, 0 <= x < 16 -> negb (letter x =? 0) = true) as H
    by (apply forallb_seqZ; reflexivity). specialize (H d Hd). zbool. done.
Qed.

Lemma rev_digits_no_nul n base v : base = 10 \/ base = 16 -> 0 ∉ rev_digits n base v.
Proof.
  intros Hb. revert v. induction n as [|n IH]; intros v; simpl; [apply not_elem_of_nil|].
  destruct (v =? 0); [apply not_elem_of_nil|]. apply not_elem_of_cons. split; [|done].
  intros H. symmetry in H. revert H. apply letter_nonzero. pose proof (Z.mod_pos_bound v base). lia.
Qed.

Lemma mg_lld_no_nul v sg hx : 0 ∉ mg_lld v sg hx.
Proof.
  unfold mg_lld. rewrite !not_elem_of_app. split; [|split].
  - destruct (sg && _); [|apply not_elem_of_nil]. by apply (bool_decide_unpack (0 ∉ [45])).
  - intros H. apply list_elem_of_In, in_rev, list_elem_of_In in H. revert H. apply rev_digits_no_nul.
    destruct hx; auto.
  - destruct (v =? 0); [|apply not_elem_of_nil]. by apply (bool_decide_unpack (0 ∉ [48])).
Qed.


Section Conversions.
Context (pm : Z -> va_list -> option (list Z * va_list)).

(** [%s] with a C string. *)
Lemma vx_s s mem f ap : 0 ∉ s ->
  mg_vxprintf pm (37 :: 115 :: f) (AStr (Some (s ++ 0 :: mem)) :: ap) = put_front s (mg_vxprintf pm f ap).
Proof.
  intros Hs. apply (vx_conv pm [] 115 f _ (mkspec false false 32 0 NO_PREC 0 115)
    (AStr (Some (s ++ 0 :: mem)) :: ap) s ap); [done|].
  unfold convert.
  cbn -[strlen scpy Zlen]. rewrite strlen_all by done. cbn [mbind option_bind].
  rewrite Z.eqb_refl. cbn [mbind option_bind]. rewrite scpy_all by done. cbn [mbind option_bind].
  replace (pad_count 0 (Zlen s)) with 0%nat by (unfold pad_count, Zlen; lia). simpl. by rewrite app_nil_r.
Qed.

(** [%.*s] with a length and a pointer. *)
Lemma vx_prec_s s mem f ap : 0 ∉ s -> Zlen s < 2 ^ 32 - 1 ->
  mg_vxprintf pm (37 :: 46 :: 42 :: 115 :: f) (AInt (Zlen s) :: AStr (Some (s ++ mem)) :: ap) =
  put_front s (mg_vxprintf pm f ap).
Proof.
  intros Hs Hl. pose proof (Zlen_nonneg s).
  apply (vx_conv pm [46; 42] 115 f _ (mkspec false false 32 0 (Zlen s) 0 115) (AStr (Some (s ++ mem)) :: ap) s ap).
  - unfold parse_spec. cbn -[u32 Zlen]. by rewrite u32_small by lia.
  - unfold convert. cbn -[scpy strlen Zlen NO_PREC].
    rewrite (proj2 (Z.eqb_neq (Zlen s) NO_PREC)) by (unfold NO_PREC, UINT32_MAX; lia).
    cbn [mbind option_bind]. rewrite scpy_all by done. cbn [mbind option_bind].
    replace (pad_count 0 (Zlen s)) with 0%nat by (unfold pad_count; lia). simpl. by rewrite app_nil_r.
Qed.

(** [%d] with an int. *)
Lemma vx_d v f ap :
  mg_vxprintf pm (37 :: 100 :: f) (AInt v :: ap) = put_front (mg_lld (s32 v) true false) (mg_vxprintf pm f ap).
Proof.
  apply (vx_conv pm [] 100 f _ (mkspec false false 32 0 NO_PREC 0 100) (AInt v :: ap) _ ap); [done|].
  unfold convert. cbn -[mg_lld scpy Zlen]. unfold print_number. cbn [alt width pad minus].
  rewrite scpy_all by apply mg_lld_no_nul. cbn -[mg_lld pad_count].
  replace (pad_count 0 _) with 0%nat by (unfold pad_count, Zlen; lia). simpl. by rewrite app_nil_r.
Qed.
End Conversions.
