(* ===== verification/Dns.v ===== *)
(** * Dns: names, records and messages of the resolver (mongoose.c, src/dns.c)

    The parser of DNS messages, which come from the network, and the encoder of queries.  Name
    compression recurses at most six levels; the loop over the labels of a name runs on fuel, the length
    of the message.  The parser takes messages up to 512 bytes, so offsets do not wrap. *)

From S2P Require Import Prelude Iobuf.

(** 16 bits in network order. *)
Definition rd16 (s : list Z) (i : Z) : option Z := a ← rd s i; b ← rd s (i + 1); Some (Z.lor (Z.shiftl a 8) b).

Section Depth.
(** The call one level deeper. *)
Context (deeper : Z -> Z -> list Z -> option (Z * list Z)) (s : list Z).

(** The end of the function. *)
Definition name_end (i : Z) (to : list Z) : option (Z * list Z) :=
  to ← (if 0 <? Zlen to then wr to (Zlen to - 1) 0 else Some to); Some (i, to).

Fixpoint name_loop (fuel : nat) (ofs i j : Z) (to : list Z) : option (Z * list Z) :=
  match fuel with
  | O => None
  | S fuel' =>
      let tolen := Zlen to in
      if ofs + i + 1 <? Zlen s then
        n ← rd s (ofs + i);
        if n =? 0 then name_end (i + 1) to
        else if negb (Z.land n 192 =? 0) then
          lo ← rd s (ofs + i + 1);
          let ptr := Z.lor (Z.shiftl (Z.land n 63) 8) lo in
          if ptr + 1 <? Zlen s then
            b ← rd s ptr;
            if Z.land b 192 =? 0 then
              '(r, to) ← deeper ptr j to;
              if r =? 0 then Some (0, to) else name_end (i + 2) to
            else name_end (i + 2) to
          else name_end (i + 2) to
        else if Zlen s <=? ofs + i + n + 1 then Some (0, to)
        else
          '(to, j) ← (if 0 <? j then to ← (if j <? tolen then wr to j chr:(".") else Some to); Some (to, j + 1)
                      else Some (to, j));
          to ← (if j + n <? tolen then l ← slice s (ofs + i + 1) n; blit to j l else Some to);
          let j := j + n in
          let i := i + n + 1 in
          to ← (if j <? tolen then wr to j 0 else Some to);
          name_loop fuel' ofs i j to
      else name_end i to
  end.
End Depth.

(** [mg_dns_parse_name_depth] with [levels] = 6 - depth. *)
Fixpoint mg_dns_parse_name_depth (levels : nat) (s : list Z) (ofs j : Z) (to : list Z) : option (Z * list Z) :=
  to ← (if (0 <? Zlen to) && Nat.eqb levels 6 then wr to 0 0 else Some to);
  match levels with
  | O => Some (0, to)
  | S levels' => name_loop (mg_dns_parse_name_depth levels' s) s (S (length s)) ofs 0 j to
  end.

Definition mg_dns_parse_name (s : list Z) (ofs : Z) (dst : list Z) : option (Z * list Z) :=
  mg_dns_parse_name_depth 6 s ofs 0 dst.

Record mg_dns_rr := dns_rr { nlen : Z; atype : Z; aclass : Z; alen : Z }.

Definition no_rr : mg_dns_rr := dns_rr 0 0 0 0.

Definition mg_dns_parse_rr (buf : list Z) (ofs : Z) (is_question : bool) : option (Z * mg_dns_rr) :=
  let len := Zlen buf in
  if len <? 12 then Some (0, no_rr)
  else if 512 <? len then Some (0, no_rr)
  else if len <=? ofs then Some (0, no_rr)
  else
    '(n, _) ← mg_dns_parse_name buf ofs [];
    let nl := u16 n in
    let s := ofs + nl + 4 in
    if nl =? 0 then Some (0, no_rr)
    else if len <? s then Some (0, dns_rr nl 0 0 0)
    else
      t ← rd16 buf (s - 4);
      c ← rd16 buf (s - 2);
      if is_question then Some (nl + 4, dns_rr nl t c 0)
      else
        let s := s + 6 in
        if len <? s then Some (0, dns_rr nl t c 0)
        else
          al ← rd16 buf (s - 2);
          if len <? s + al then Some (0, dns_rr nl t c al)
          else Some (nl + al + 10, dns_rr nl t c al).

Record mg_dns_message := dns_msg { txnid : Z; resolved : bool; is_ip6 : bool; ip : list Z; name : list Z }.

Definition with_name (m : mg_dns_message) (n : list Z) : mg_dns_message := dns_msg (txnid m) (resolved m) (is_ip6 m) (ip m) n.

(** The answers from [ofs]: the first address ends the search. *)
Fixpoint dns_answers (count : nat) (buf : list Z) (ofs : Z) (dm : mg_dns_message) : option (bool * mg_dns_message) :=
  match count with
  | O => Some (true, dm)
  | S count' =>
      '(n, rr) ← mg_dns_parse_rr buf ofs false;
      if n =? 0 then Some (false, dm)
      else
        '(_, nm) ← mg_dns_parse_name buf ofs (name dm);
        let dm := with_name dm nm in
        let ofs := ofs + n in
        if (alen rr =? 4) && (atype rr =? 1) && (aclass rr =? 1) then
          a ← slice buf (ofs - 4) 4; p ← blit (ip dm) 0 a;
          Some (true, dns_msg (txnid dm) true false p (name dm))
        else if (alen rr =? 16) && (atype rr =? 28) && (aclass rr =? 1) then
          a ← slice buf (ofs - 16) 16; p ← blit (ip dm) 0 a;
          Some (true, dns_msg (txnid dm) true true p (name dm))
        else dns_answers count' buf ofs dm
  end.

(** The questions, of which there is at most one. *)
Fixpoint dns_questions (count : nat) (buf : list Z) (ofs : Z) (dm : mg_dns_message) : option (option Z * mg_dns_message) :=
  match count with
  | O => Some (Some ofs, dm)
  | S count' =>
      '(n, rr) ← mg_dns_parse_rr buf ofs true;
      if n =? 0 then Some (None, dm)
      else
        '(_, nm) ← mg_dns_parse_name buf ofs (name dm);
        dns_questions count' buf (ofs + n) (with_name dm nm)
  end.

Definition no_message : mg_dns_message := dns_msg 0 false false (replicate 16 0) (replicate 256 0).

Definition mg_dns_parse (buf : list Z) : option (bool * mg_dns_message) :=
  if Zlen buf <? 12 then Some (false, no_message)
  else
    nq ← rd16 buf 4;
    if 1 <? nq then Some (false, no_message)
    else
      na ← rd16 buf 6;
      let num_answers := if 10 <? na then 10 else na in
      id ← rd16 buf 0;
      fl ← rd16 buf 2;
      let dm := dns_msg id false false (ip no_message) (name no_message) in
      '(r, dm) ← dns_questions (Z.to_nat nq) buf 12 dm;
      match r with
      | None => Some (false, dm)
      | Some ofs => if Z.land fl 32768 =? 0 then Some (true, dm) else dns_answers (Z.to_nat num_answers) buf ofs dm
      end.

(** ** The query *)

(** The loop of [mg_dns_send]: [after] is the byte behind the name.  Returns the data and [n]. *)
Fixpoint send_loop (fuel : nat) (nm : list Z) (after : Z) (i n : Z) (data : list Z) : option (list Z * Z) :=
  match fuel with
  | O => Some (data, n)
  | S fuel' =>
      c ← rd (nm ++ [after]) i;
      let last := Zlen nm <=? i in
      '(data, n) ← (if (c =? chr:(".")) || last then
                      data ← wr data n (u8 (i - n));
                      l ← slice nm n (i - n);
                      data ← blit data (n + 1) l;
                      Some (data, i + 1)
                    else Some (data, n));
      if last then Some (data, n) else send_loop fuel' nm after (i + 1) n data
  end.

(** The packet passed to [mg_send]. *)
Definition mg_dns_send (nm : list Z) (after id : Z) (ipv6 : bool) : option (list Z) :=
  let header := [Z.shiftr id 8; Z.land id 255; 1; 0; 0; 1; 0; 0; 0; 0; 0; 0] in
  '(data, n) ← send_loop 251 nm after 0 0 (replicate 256 0);
  data ← blit data n [0; 0; 1; 0; 1];
  data ← (if ipv6 then wr data (n + 2) 28 else Some data);
  Some (header ++ take (Z.to_nat (n + 5)) data).

(** ** The parser is safe *)

(** A step of the parser: it succeeds, and leaves the size of the destination. *)
Definition fits (to : list Z) (r : option (Z * list Z)) : Prop :=
  exists n to', r = Some (n, to') /\ 0 <= n /\ Zlen to' = Zlen to.

Lemma wr_if (b : list Z) i v : 0 <= i ->
  exists b', (if i <? Zlen b then wr b i v else Some b) = Some b' /\ Zlen b' = Zlen b.
Proof. intros H. destruct (Z.ltb_spec i (Zlen b)); [by apply wr_total|eauto]. Qed.

Lemma rd_total (s : list Z) i : is_bytes s -> 0 <= i < Zlen s -> exists x, rd s i = Some x /\ is_byte x.
Proof. intros Hs H. destruct (rd_is_Some s i H) as [x E]. eauto using rd_byte. Qed.

Lemma name_end_fits i (to to' : list Z) : 0 <= i -> Zlen to' = Zlen to -> fits to (name_end i to').
Proof.
  intros Hi Hl. unfold name_end. destruct (Z.ltb_spec 0 (Zlen to')).
  - destruct (wr_total to' (Zlen to' - 1) 0) as (b & E & Hb); [lia|]. rewrite E. cbn. exists i, b. split_and!; [done|done|lia].
  - exists i, to'. done.
Qed.

Lemma name_loop_fits deeper (s : list Z) :
  is_bytes s -> (forall ptr j to, 0 <= ptr -> 0 <= j -> fits to (deeper ptr j to)) ->
  forall fuel ofs i j to0 to, 0 <= ofs -> 0 <= i -> 0 <= j -> Zlen s - ofs - i < Z.of_nat fuel -> Zlen to = Zlen to0 ->
  fuel <> O -> fits to0 (name_loop deeper s fuel ofs i j to).
Proof.
  intros Hs Hd. induction fuel as [|fuel IH]; intros ofs i j to0 to Ho Hi Hj Hf Ht Hz; [done|]. cbn [name_loop].
  destruct (Z.ltb_spec (ofs + i + 1) (Zlen s)) as [Hlt|]; [|by apply name_end_fits].
  destruct (rd_total s (ofs + i) Hs) as (n & -> & Hn); [lia|]. cbn [mbind option_bind]. unfold is_byte in Hn.
  destruct (n =? 0); [apply name_end_fits; [lia|done]|]. destruct (negb _).
  { destruct (rd_total s (ofs + i + 1) Hs) as (lo & -> & Hlo); [lia|]. cbn [mbind option_bind].
    assert (0 <= Z.lor (Z.shiftl (Z.land n 63) 8) lo) as Hp.
    { apply Z.lor_nonneg. split; [|by destruct Hlo]. apply Z.shiftl_nonneg, Z.land_nonneg. lia. }
    destruct (Z.ltb_spec (Z.lor (Z.shiftl (Z.land n 63) 8) lo + 1) (Zlen s)); [|apply name_end_fits; [lia|done]].
    destruct (rd_total s (Z.lor (Z.shiftl (Z.land n 63) 8) lo) Hs) as (b & -> & _); [lia|]. cbn [mbind option_bind].
    destruct (_ =? 0); [|apply name_end_fits; [lia|done]].
    destruct (Hd _ j to Hp Hj) as (r & to1 & -> & Hr & H1). cbn [mbind option_bind].
    destruct (r =? 0); [|apply name_end_fits; [lia|lia]]. exists 0, to1. split_and!; [done|done|lia]. }
  destruct (Z.leb_spec (Zlen s) (ofs + i + n + 1)); [exists 0, to; done|].
  assert (exists to1 j1, (if 0 <? j then to ← (if j <? Zlen to then wr to j 46 else Some to); Some (to, j + 1) else Some (to, j))
            = Some (to1, j1) /\ Zlen to1 = Zlen to /\ 0 <= j1) as (to1 & j1 & -> & H1 & Hj1).
  { destruct (0 <? j); [|by exists to, j]. destruct (wr_if to j 46 Hj) as (b & -> & Hb). exists b, (j + 1). split_and!; [done|done|lia]. }
  cbn [mbind option_bind].
  assert (exists to2, (if j1 + n <? Zlen to then l ← slice s (ofs + i + 1) n; blit to1 j1 l else Some to1) = Some to2 /\
            Zlen to2 = Zlen to) as (to2 & -> & H2).
  { destruct (Z.ltb_spec (j1 + n) (Zlen to)); [|by exists to1]. rewrite slice_Some by lia. cbn [mbind option_bind].
    set (l := take _ _). assert (Zlen l = n) as Hl by (unfold l, Zlen in *; rewrite length_take, length_drop; lia).
    rewrite blit_Some by lia. eexists. split; [done|]. rewrite !Zlen_app, Hl. unfold Zlen in *. rewrite length_take, length_drop. lia. }
  cbn [mbind option_bind]. rewrite <- H2.
  destruct (wr_if to2 (j1 + n) 0) as (to3 & -> & H3); [lia|]. cbn [mbind option_bind].
  apply IH; try lia.
Qed.

Lemma name_depth_fits (s : list Z) : is_bytes s -> forall levels ofs j to, 0 <= ofs -> 0 <= j ->
  fits to (mg_dns_parse_name_depth levels s ofs j to).
Proof.
  intros Hs. induction levels as [|levels IH]; intros ofs j to Ho Hj; cbn [mg_dns_parse_name_depth].
  - rewrite andb_false_r. exists 0, to. done.
  - assert (exists to1, (if (0 <? Zlen to) && Nat.eqb (S levels) 6 then wr to 0 0 else Some to) = Some to1 /\ Zlen to1 = Zlen to)
      as (to1 & -> & H1).
    { destruct (Z.ltb_spec 0 (Zlen to)); [|by exists to]. destruct (Nat.eqb _ _); [|by exists to]. by apply wr_total. }
    cbn [mbind option_bind]. apply name_loop_fits; try done; try lia. unfold Zlen. lia.
Qed.

(** A record that is accepted lies inside the message. *)
Definition rr_fits (buf : list Z) (ofs : Z) (q : bool) (r : option (Z * mg_dns_rr)) : Prop :=
  exists n rr, r = Some (n, rr) /\ 0 <= n /\ (n <> 0 -> q = false -> ofs + n <= Zlen buf /\ 0 <= alen rr <= n).

Lemma rd16_total (s : list Z) i : is_bytes s -> 0 <= i -> i + 1 < Zlen s -> exists x, rd16 s i = Some x /\ 0 <= x.
Proof.
  intros Hs Hi Hl. unfold rd16. destruct (rd_total s i Hs) as (a & -> & Ha); [lia|].
  destruct (rd_total s (i + 1) Hs) as (b & -> & Hb); [lia|]. unfold is_byte in *. cbn. eexists. split; [done|].
  apply Z.lor_nonneg. split; [apply Z.shiftl_nonneg|]; lia.
Qed.

Lemma parse_rr_fits buf ofs q : is_bytes buf -> 0 <= ofs -> rr_fits buf ofs q (mg_dns_parse_rr buf ofs q).
Proof.
  intros Hb Ho. unfold mg_dns_parse_rr.
  assert (forall rr, rr_fits buf ofs q (Some (0, rr))) as Hzero by (intros rr; exists 0, rr; done).
  destruct (Z.ltb_spec (Zlen buf) 12); [done|]. destruct (Z.ltb_spec 512 (Zlen buf)); [done|].
  destruct (Z.leb_spec (Zlen buf) ofs); [done|].
  destruct (name_depth_fits buf Hb 6 ofs 0 [] Ho) as (n & to' & E & Hn & _); [lia|]. unfold mg_dns_parse_name. rewrite E. cbn [mbind option_bind].
  pose proof (u16_range n) as Hu. destruct (u16 n =? 0); [done|]. destruct (Z.ltb_spec (Zlen buf) (ofs + u16 n + 4)); [done|].
  destruct (rd16_total buf (ofs + u16 n + 4 - 4) Hb) as (t & -> & Ht); [lia|lia|].
  destruct (rd16_total buf (ofs + u16 n + 4 - 2) Hb) as (c & -> & Hc); [lia|lia|]. cbn [mbind option_bind].
  destruct q. { exists (u16 n + 4), (dns_rr (u16 n) t c 0). split_and!; [done|lia|done]. }
  destruct (Z.ltb_spec (Zlen buf) (ofs + u16 n + 4 + 6)); [done|].
  destruct (rd16_total buf (ofs + u16 n + 4 + 6 - 2) Hb) as (al & -> & Hal); [lia|lia|]. cbn [mbind option_bind].
  destruct (Z.ltb_spec (Zlen buf) (ofs + u16 n + 4 + 6 + al)); [done|].
  eexists _, _. split_and!; [done|lia|]. intros _ _. cbn. lia.
Qed.

Definition dm_ok (dm : mg_dns_message) : Prop := Zlen (name dm) = 256 /\ Zlen (ip dm) = 16.

Lemma parse_name_fits buf ofs to : is_bytes buf -> 0 <= ofs ->
  exists n to', mg_dns_parse_name buf ofs to = Some (n, to') /\ Zlen to' = Zlen to.
Proof. intros Hb Ho. destruct (name_depth_fits buf Hb 6 ofs 0 to Ho) as (n & to' & E & _ & H); [lia|]. eauto. Qed.

(** The address of an accepted record is inside the message. *)
Lemma address_fits buf ofs k dm : dm_ok dm -> k <= 16 -> 0 <= k <= ofs -> ofs <= Zlen buf ->
  exists a p, slice buf (ofs - k) k = Some a /\ blit (ip dm) 0 a = Some p /\ Zlen p = 16.
Proof.
  intros [_ Hi] Hk Ho Hl. rewrite slice_Some by lia. set (l := take _ _).
  assert (Zlen l = k) as E by (unfold l, Zlen in *; rewrite length_take, length_drop; lia).
  exists l. rewrite blit_Some by lia. eexists. split_and!; [done|done|].
  rewrite !Zlen_app, E. unfold Zlen in *. rewrite length_take, length_drop. lia.
Qed.

Lemma answers_safe buf : is_bytes buf -> forall count ofs dm, 0 <= ofs -> dm_ok dm ->
  exists b dm', dns_answers count buf ofs dm = Some (b, dm') /\ dm_ok dm'.
Proof.
  intros Hb. induction count as [|count IH]; intros ofs dm Ho Hd; cbn [dns_answers]; [by exists true, dm|].
  destruct (parse_rr_fits buf ofs false Hb Ho) as (n & rr & -> & Hn & Hr). cbn [mbind option_bind].
  destruct (Z.eqb_spec n 0); [by exists false, dm|]. destruct (Hr ltac:(done) eq_refl) as [Hl Ha].
  destruct (parse_name_fits buf ofs (name dm) Hb Ho) as (n' & nm & -> & Hnm). cbn [mbind option_bind].
  assert (dm_ok (with_name dm nm)) as Hd' by (destruct Hd; split; cbn; lia).
  destruct ((alen rr =? 4) && (atype rr =? 1) && (aclass rr =? 1)) eqn:E4;
    [|destruct ((alen rr =? 16) && (atype rr =? 28) && (aclass rr =? 1)) eqn:E16]; zbool; [| |by apply IH; [lia|]].
  - destruct (address_fits buf (ofs + n) 4 (with_name dm nm) Hd') as (a & p & -> & Ep & Hp); [lia..|].
    cbn [mbind option_bind]. rewrite Ep. eexists _, _. split; [done|]. split; [apply Hd'|done].
  - destruct (address_fits buf (ofs + n) 16 (with_name dm nm) Hd') as (a & p & -> & Ep & Hp); [lia..|].
    cbn [mbind option_bind]. rewrite Ep. eexists _, _. split; [done|]. split; [apply Hd'|done].
Qed.

Lemma questions_safe buf : is_bytes buf -> forall count ofs dm, 0 <= ofs -> dm_ok dm ->
  exists r dm', dns_questions count buf ofs dm = Some (r, dm') /\ dm_ok dm' /\ match r with Some o => 0 <= o | None => True end.
Proof.
  intros Hb. induction count as [|count IH]; intros ofs dm Ho Hd; cbn [dns_questions]; [by eexists _, _|].
  destruct (parse_rr_fits buf ofs true Hb Ho) as (n & rr & -> & Hn & _). cbn [mbind option_bind].
  destruct (n =? 0); [by eexists _, _|].
  destruct (parse_name_fits buf ofs (name dm) Hb Ho) as (n' & nm & -> & Hnm). cbn [mbind option_bind].
  apply IH; [lia|]. destruct Hd. split; cbn; lia.
Qed.

(** The parser of DNS messages is memory safe and terminates: for every datagram, whatever
    its labels, compression pointers (loops included), counts and lengths, it reads only bytes of
    the message and writes only inside the name and the address of the result. *)
Theorem dns_parse_safe (buf : list Z) (Hb : is_bytes buf) :
  exists b dm, mg_dns_parse buf = Some (b, dm) /\ Zlen (name dm) = 256 /\ Zlen (ip dm) = 16.
Proof.
  unfold mg_dns_parse. destruct (Z.ltb_spec (Zlen buf) 12); [by eexists _, _|].
  destruct (rd16_total buf 4 Hb) as (nq & -> & _); [lia|lia|]. destruct (rd16_total buf 6 Hb) as (na & -> & _); [lia|lia|].
  destruct (rd16_total buf 0 Hb) as (id & -> & _); [lia|lia|]. destruct (rd16_total buf 2 Hb) as (fl & -> & _); [lia|lia|].
  cbn [mbind option_bind]. destruct (1 <? nq); [by eexists _, _|].
  destruct (questions_safe buf Hb (Z.to_nat nq) 12 (dns_msg id false false (ip no_message) (name no_message))) as (r & dm & -> & Hd & Hr);
    [lia|done|]. cbn [mbind option_bind].
  destruct r as [ofs|]; [|by eexists _, _]. destruct (_ =? 0); [by eexists _, _|]. by apply answers_safe.
Qed.

(** A name that points to itself, and one cut off. *)
Definition dns_loop : list Z := [0; 1; 1; 0; 0; 1; 0; 0; 0; 0; 0; 0; 192; 12; 0; 1; 0; 1].

Lemma dns_parse_safe_witness : exists b dm, mg_dns_parse dns_loop = Some (b, dm) /\ Zlen (name dm) = 256 /\ Zlen (ip dm) = 16.
Proof. apply dns_parse_safe. repeat (apply Forall_cons; split; [split; [discriminate|reflexivity]|]). constructor. Defined.

(** ** Queries *)

Definition label (l : list Z) : Prop := 0 < Zlen l < 64 /\ 46 ∉ l.

(** A host name, and its form in a message. *)
Fixpoint dotted (ls : list (list Z)) : list Z :=
  match ls with [] => [] | [l] => l | l :: ls' => l ++ 46 :: dotted ls' end.

Fixpoint wire (ls : list (list Z)) : list Z := match ls with [] => [] | l :: ls' => Zlen l :: l ++ wire ls' end.

Lemma dotted_cons l l' ls : dotted (l :: l' :: ls) = l ++ 46 :: dotted (l' :: ls).
Proof. done. Qed.

Lemma wire_len l ls : Zlen (wire (l :: ls)) = Zlen (dotted (l :: ls)) + 1.
Proof.
  revert l. induction ls as [|l' ls IH]; intros l.
  - cbn [wire]. rewrite app_nil_r. by rewrite Zlen_cons.
  - rewrite dotted_cons. change (wire (l :: l' :: ls)) with (Zlen l :: l ++ wire (l' :: ls)).
    rewrite Zlen_cons, !Zlen_app, Zlen_cons, IH. lia.
Qed.

(** The characters of a label are passed over. *)
Lemma send_chars after (nm : list Z) n data : forall (l2 a rest : list Z) fuel, nm = a ++ l2 ++ rest -> 46 ∉ l2 ->
  send_loop (length l2 + fuel) nm after (Zlen a) n data = send_loop fuel nm after (Zlen a + Zlen l2) n data.
Proof.
  induction l2 as [|c l2 IH]; intros a rest fuel -> Hd; [by rewrite Z.add_0_r|].
  apply not_elem_of_cons in Hd as [Hc Hd]. cbn [length Nat.add send_loop].
  rewrite <- !app_assoc. cbn [app]. rewrite rd_here. cbn [mbind option_bind].
  pose proof (Zlen_nonneg l2). pose proof (Zlen_nonneg rest).
  rewrite (proj2 (Z.eqb_neq c 46)) by done. rewrite Zlen_app, Zlen_cons, Zlen_app. ztests. cbn [orb mbind option_bind].
  specialize (IH (a ++ [c]) rest fuel). rewrite Zlen_app in IH. change (Zlen [c]) with 1 in IH.
  rewrite <- app_assoc in IH. cbn [app] in IH. rewrite IH by done. f_equal. rewrite ?Zlen_cons. lia.
Qed.

(** At the end of a label its length and its characters are written. *)
Lemma send_label after (a l rest w z zs : list Z) (x : Z) fuel : label l -> Zlen w = Zlen a -> Zlen z = Zlen l ->
  (rest = [] \/ exists r, rest = 46 :: r) ->
  send_loop (S fuel) (a ++ l ++ rest) after (Zlen a + Zlen l) (Zlen a) (w ++ x :: z ++ zs) =
  let data := w ++ Zlen l :: l ++ zs in let n := Zlen a + Zlen l + 1 in
  match rest with [] => Some (data, n) | _ => send_loop fuel (a ++ l ++ rest) after n n data end.
Proof.
  intros [Hl Hd] Hw Hz Hr. cbn [send_loop]. pose proof (Zlen_nonneg a). pose proof (Zlen_nonneg rest).
  assert (exists c, rd ((a ++ l ++ rest) ++ [after]) (Zlen a + Zlen l) = Some c /\
            (c =? 46) || (Zlen (a ++ l ++ rest) <=? Zlen a + Zlen l) = true) as (c & -> & Hc).
  { rewrite <- Zlen_app. rewrite <- !app_assoc, (app_assoc a l). destruct Hr as [-> |[r ->]]; cbn [app]; rewrite rd_here.
    - exists after. split; [done|]. rewrite app_nil_r. by rewrite Z.leb_refl, orb_true_r.
    - by exists 46. }
  cbn [mbind option_bind]. rewrite Hc. rewrite <- Hw, wr_here. cbn [mbind option_bind].
  replace (Zlen w + Zlen l - Zlen w) with (Zlen l) by lia. rewrite u8_small by lia.
  assert (slice (a ++ l ++ rest) (Zlen w) (Zlen l) = Some l) as ->.
  { rewrite Hw, slice_Some by (rewrite ?Zlen_app; lia). rewrite drop_prefix by done. by rewrite take_prefix. }
  cbn [mbind option_bind].
  assert (blit (w ++ Zlen l :: z ++ zs) (Zlen w + 1) l = Some (w ++ Zlen l :: l ++ zs)) as ->.
  { pose proof (blit_gap (w ++ [Zlen l]) z zs l Hz) as B. rewrite Zlen_app, <- !app_assoc in B. exact B. }
  cbn [mbind option_bind]. destruct Hr as [-> |[r ->]]; rewrite !Zlen_app, ?Zlen_cons, ?Zlen_nil.
  - by ztests.
  - pose proof (Zlen_nonneg r). by ztests.
Qed.

Lemma cut_at (zs : list Z) n : 0 <= n <= Zlen zs -> exists a b, zs = a ++ b /\ Zlen a = n.
Proof.
  intros H. exists (take (Z.to_nat n) zs), (drop (Z.to_nat n) zs). split; [by rewrite take_drop|].
  unfold Zlen in *. rewrite length_take. lia.
Qed.

(** The whole name. *)
Lemma send_name after : forall ls l (a w zs : list Z) fuel, Forall label (l :: ls) -> Zlen w = Zlen a ->
  Zlen (dotted (l :: ls)) + 1 <= Zlen zs -> (length (dotted (l :: ls)) < fuel)%nat ->
  exists r, send_loop fuel (a ++ dotted (l :: ls)) after (Zlen a) (Zlen a) (w ++ zs) =
    Some (w ++ wire (l :: ls) ++ r, Zlen a + Zlen (dotted (l :: ls)) + 1) /\ zs = take (length (wire (l :: ls))) zs ++ r.
Proof.
  induction ls as [|l' ls IH]; intros l a w zs fuel Hls Hw Hz Hf; apply Forall_cons in Hls as [Hl Hls]; pose proof Hl as [Hlen Hdot].
  - cbn [dotted wire] in *. destruct (cut_at zs (Zlen l + 1)) as (z & r & -> & Hzl); [lia|].
    destruct (Zlen_cons_inv z) as (x & z' & ->); [lia|]. rewrite Zlen_cons in Hzl.
    exists r. replace fuel with (length l + S (fuel - length l - 1))%nat by lia.
    replace (a ++ l) with (a ++ l ++ []) by (by rewrite app_nil_r). rewrite (send_chars after (a ++ l ++ []) (Zlen a) _ l a []) by done.
    rewrite <- app_comm_cons. rewrite (send_label after a l [] w z' r x) by (done || lia || by left). cbv zeta.
    rewrite app_nil_r. split; [by rewrite <- app_comm_cons|]. cbn [length].
    rewrite app_comm_cons, take_app_length'; [done|]. unfold Zlen in *. cbn. lia.
  - rewrite dotted_cons in *. rewrite Zlen_app, Zlen_cons, length_app in *. cbn [length] in *.
    pose proof (Zlen_nonneg (dotted (l' :: ls))).
    destruct (cut_at zs (Zlen l + 1)) as (z & zs' & -> & Hzl); [lia|].
    destruct (Zlen_cons_inv z) as (x & z' & ->); [lia|]. rewrite Zlen_cons in Hzl. rewrite Zlen_app, Zlen_cons in Hz.
    replace fuel with (length l + S (fuel - length l - 1))%nat by lia.
    rewrite (send_chars after (a ++ l ++ 46 :: dotted (l' :: ls)) (Zlen a) _ l a (46 :: dotted (l' :: ls))) by done.
    rewrite <- app_comm_cons, (send_label after a l _ w z' zs' x) by (done || lia || (right; eauto)). cbv zeta. cbn iota.
    destruct (IH l' (a ++ l ++ [46]) (w ++ Zlen l :: l) zs' (fuel - length l - 1)%nat Hls) as (r & E & Er);
      [rewrite !Zlen_app, Zlen_cons; change (Zlen [46]) with 1; lia|lia|lia|].
    exists r. rewrite !Zlen_app in E. change (Zlen [46]) with 1 in E. rewrite Z.add_assoc in E. rewrite <- ?app_assoc in E. cbn [app] in E.
    rewrite E. split.
    + f_equal. f_equal; [|lia]. cbn [wire]. rewrite <- ?app_assoc. cbn [app]. repeat (rewrite <- ?app_assoc; cbn [app]). done.
    + change (wire (l :: l' :: ls)) with (Zlen l :: l ++ wire (l' :: ls)). cbn [length app take]. f_equal.
      rewrite length_app. replace (length l) with (length z') by (unfold Zlen in *; lia).
      rewrite firstn_app_2. rewrite <- app_assoc. f_equal. done.
Qed.

(** Reading a label: without a destination, and behind what is already there. *)
Lemma land_192 n : 0 <= n < 64 -> Z.land n 192 = 0.
Proof.
  intros H. apply Z.eqb_eq. revert n H. apply (forallb_seqZ (fun n => Z.land n 192 =? 0) 64). vm_compute. reflexivity.
Qed.

Lemma read_label deeper (a l tl to : list Z) ofs i j fuel : label l -> Zlen a = ofs + i -> 0 < Zlen tl ->
  name_loop deeper (a ++ Zlen l :: l ++ tl) (S fuel) ofs i j to =
  '(to, j) ← (if 0 <? j then to ← (if j <? Zlen to then wr to j 46 else Some to); Some (to, j + 1) else Some (to, j));
  to ← (if j + Zlen l <? Zlen to then blit to j l else Some to);
  to ← (if j + Zlen l <? Zlen to then wr to (j + Zlen l) 0 else Some to);
  name_loop deeper (a ++ Zlen l :: l ++ tl) fuel ofs (i + Zlen l + 1) (j + Zlen l) to.
Proof.
  intros [Hl Hd] Ha Ht. pose proof (Zlen_nonneg a). cbn [name_loop]. rewrite !Zlen_app, Zlen_cons, Zlen_app.
  rewrite (proj2 (Z.ltb_lt (ofs + i + 1) _)) by lia. rewrite <- Ha, rd_here. cbn [mbind option_bind].
  rewrite land_192, (proj2 (Z.eqb_neq (Zlen l) 0)), (proj2 (Z.leb_gt _ (Zlen a + Zlen l + 1))) by lia. cbn [negb Z.eqb].
  assert (slice (a ++ Zlen l :: l ++ tl) (Zlen a + 1) (Zlen l) = Some l) as Hs.
  { rewrite slice_Some by (rewrite ?Zlen_app, ?Zlen_cons, ?Zlen_app; lia).
    replace (Zlen a + 1) with (Zlen (a ++ [Zlen l])) by (rewrite Zlen_app; done).
    rewrite (app_assoc a [Zlen l] (l ++ tl) : a ++ Zlen l :: l ++ tl = _). rewrite drop_prefix by done. by rewrite take_prefix. }
  rewrite Hs.
  destruct (0 <? j) eqn:Ej; cbn [mbind option_bind].
  - destruct (if j <? Zlen to then wr to j 46 else Some to) as [to1|] eqn:E1; [|done]. cbn [mbind option_bind].
    assert (Zlen to1 = Zlen to) as Hl1.
    { destruct (j <? Zlen to); [by apply wr_Zlen in E1|by injection E1 as ->]. }
    rewrite Hl1. destruct (if j + 1 + Zlen l <? Zlen to then blit to1 (j + 1) l else Some to1) as [to2|] eqn:E2; [|done].
    cbn [mbind option_bind]. assert (Zlen to2 = Zlen to) as Hl2.
    { destruct (j + 1 + Zlen l <? Zlen to); [apply blit_len in E2; lia|by injection E2 as <-]. }
    by rewrite Hl2.
  - destruct (if j + Zlen l <? Zlen to then blit to j l else Some to) as [to2|] eqn:E2; [|done].
    cbn [mbind option_bind]. assert (Zlen to2 = Zlen to) as Hl2.
    { destruct (j + Zlen l <? Zlen to); [apply blit_len in E2; lia|by injection E2 as <-]. }
    by rewrite Hl2.
Qed.

(** The end of a name. *)
Lemma read_end deeper (a tl to : list Z) ofs i j fuel : Zlen a = ofs + i -> 0 < Zlen tl ->
  name_loop deeper (a ++ 0 :: tl) (S fuel) ofs i j to = name_end (i + 1) to.
Proof.
  intros Ha Ht. cbn [name_loop]. rewrite !Zlen_app, Zlen_cons. ztests. by rewrite <- Ha, rd_here.
Qed.

Lemma read_length deeper (tl : list Z) : 0 < Zlen tl -> forall ls (a : list Z) ofs i j fuel, Forall label ls -> 0 <= j ->
  Zlen a = ofs + i -> (length ls < fuel)%nat ->
  name_loop deeper (a ++ wire ls ++ 0 :: tl) fuel ofs i j [] = Some (i + Zlen (wire ls) + 1, []).
Proof.
  intros Ht. induction ls as [|l ls IH]; intros a ofs i j fuel Hls Hj Ha Hf; destruct fuel as [|fuel]; cbn [length] in Hf; try lia.
  - cbn [wire app]. rewrite read_end by done. change (Zlen []) with 0. by rewrite Z.add_0_r.
  - apply Forall_cons in Hls as [Hl Hls]. pose proof Hl as [Hlen _]. cbn [wire]. rewrite <- app_comm_cons, <- app_assoc.
    pose proof (Zlen_nonneg (wire ls)).
    rewrite read_label; [|done|done|rewrite Zlen_app, Zlen_cons; lia]. change (Zlen []) with 0.
    rewrite (proj2 (Z.ltb_ge j 0)) by lia.
    specialize (IH (a ++ Zlen l :: l) ofs (i + Zlen l + 1)). rewrite <- app_assoc in IH. cbn [app] in IH.
    destruct (0 <? j); do 3 (cbn [mbind option_bind]; change (Zlen []) with 0; ztests);
      (rewrite IH; [|done|lia|rewrite Zlen_app, Zlen_cons; lia|lia]); rewrite Zlen_cons, Zlen_app; do 2 f_equal; lia.
Qed.

(** What is behind the labels read so far. *)
Definition joined (dn : list Z) (ls : list (list Z)) : list Z :=
  match ls with [] => dn | _ => if decide (dn = []) then dotted ls else dn ++ 46 :: dotted ls end.

Lemma joined_cons dn l ls : label l -> joined dn (l :: ls) = joined (dn ++ (if decide (dn = []) then [] else [46]) ++ l) ls.
Proof.
  intros [Hl _]. unfold joined. destruct ls as [|l' ls]; [by case_decide; subst|].
  assert (dn ++ (if decide (dn = []) then [] else [46]) ++ l <> []) as Hne.
  { intros Hn. apply (f_equal Zlen) in Hn. rewrite !Zlen_app, Zlen_nil in Hn. pose proof (Zlen_nonneg dn). pose proof (Zlen_nonneg (if decide (dn = []) then [] else [46])). lia. }
  rewrite (decide_False _ _ Hne). rewrite dotted_cons. case_decide; subst; cbn [app]; rewrite <- ?app_assoc; done.
Qed.

Definition sep (dn : list Z) : list Z := if decide (dn = []) then [] else [46].

(** Label [l] is put behind what is there, and ended. *)
Lemma put_label (dn g l : list Z) (x : Z) (r : list Z) : Zlen g = Zlen l ->
  (to ← blit (dn ++ g ++ x :: r) (Zlen dn) l; wr to (Zlen dn + Zlen l) 0) = Some (dn ++ l ++ 0 :: r).
Proof.
  intros Hg. rewrite blit_gap by done. cbn [mbind option_bind]. rewrite <- Zlen_app, app_assoc, wr_here. by rewrite app_assoc.
Qed.

Lemma gap (rest : list Z) n : 0 <= n < Zlen rest -> exists g x r, rest = g ++ x :: r /\ Zlen g = n.
Proof.
  intros H. destruct (cut_at rest n) as (g & r & -> & Hg); [lia|]. rewrite Zlen_app in H.
  destruct (Zlen_cons_inv r) as (x & r' & ->); [lia|]. eauto.
Qed.

Lemma read_label_into deeper (a l tl dn rest : list Z) ofs i fuel : label l -> Zlen a = ofs + i -> 0 < Zlen tl ->
  Zlen (dn ++ sep dn ++ l) < Zlen (dn ++ 0 :: rest) ->
  exists rest', Zlen (dn ++ 0 :: rest) = Zlen ((dn ++ sep dn ++ l) ++ 0 :: rest') /\
  name_loop deeper (a ++ Zlen l :: l ++ tl) (S fuel) ofs i (Zlen dn) (dn ++ 0 :: rest) =
  name_loop deeper (a ++ Zlen l :: l ++ tl) fuel ofs (i + Zlen l + 1) (Zlen (dn ++ sep dn ++ l)) ((dn ++ sep dn ++ l) ++ 0 :: rest').
Proof.
  intros Hl Ha Ht Hr. rewrite read_label by done. unfold sep in *. pose proof Hl as [Hlen _]. case_decide as Ed.
  - subst dn. cbn [app] in *. change (Zlen []) with 0. destruct (gap (0 :: rest) (Zlen l)) as (g & x & r & E & Hg); [lia|].
    exists r. pose proof (put_label [] g l x r Hg) as P. cbn [app] in P. change (Zlen []) with 0 in P. rewrite Z.add_0_l in *.
    rewrite E in *. cbn [Z.ltb Z.compare mbind option_bind]. rewrite ?Z.add_0_l. rewrite (proj2 (Z.ltb_lt (Zlen l) _)) by lia.
    destruct (blit (g ++ x :: r) 0 l) as [to|] eqn:Eb; [|done]. cbn [mbind option_bind] in *.
    rewrite (blit_len _ _ _ _ Eb). rewrite (proj2 (Z.ltb_lt (Zlen l) _)) by lia. rewrite P. cbn [mbind option_bind].
    split; [|done]. rewrite !Zlen_app, !Zlen_cons in *. lia.
  - assert (0 < Zlen dn) as Hd by (destruct dn; [done|rewrite Zlen_cons; pose proof (Zlen_nonneg dn); lia]).
    rewrite !Zlen_app, !Zlen_cons, Zlen_nil in Hr.
    destruct (gap rest (Zlen l)) as (g & x & r & -> & Hg); [lia|]. exists r.
    pose proof (put_label (dn ++ [46]) g l x r Hg) as P. rewrite <- !app_assoc, Zlen_app in P. cbn [app] in P. change (Zlen [46]) with 1 in P.
    rewrite (proj2 (Z.ltb_lt 0 (Zlen dn))) by lia. rewrite (proj2 (Z.ltb_lt (Zlen dn) _)) by (rewrite Zlen_app, Zlen_cons; lia).
    rewrite wr_here. cbn [mbind option_bind].
    assert (Zlen (dn ++ 46 :: g ++ x :: r) = Zlen dn + (Zlen l + Zlen r + 2)) as El by (rewrite !Zlen_app, !Zlen_cons, Zlen_app, Zlen_cons; lia).
    pose proof (Zlen_nonneg r). rewrite (proj2 (Z.ltb_lt (Zlen dn + 1 + Zlen l) _)) by lia.
    destruct (blit (dn ++ 46 :: g ++ x :: r) (Zlen dn + 1) l) as [to|] eqn:Eb; [|done]. cbn [mbind option_bind] in *.
    rewrite (blit_len _ _ _ _ Eb), El. rewrite (proj2 (Z.ltb_lt (Zlen dn + 1 + Zlen l) _)) by lia. rewrite P. cbn [mbind option_bind].
    rewrite <- !app_assoc. cbn [app]. split.
    + rewrite !Zlen_app, !Zlen_cons, !Zlen_app, !Zlen_cons. lia.
    + f_equal. rewrite !Zlen_app, Zlen_cons. lia.
Qed.

(** A whole name. *)
Lemma read_name deeper (tl : list Z) : 0 < Zlen tl -> forall ls (a dn rest : list Z) ofs i fuel, Forall label ls ->
  Zlen a = ofs + i -> (length ls < fuel)%nat -> Zlen (joined dn ls) + 1 < Zlen (dn ++ 0 :: rest) ->
  exists rest', name_loop deeper (a ++ wire ls ++ 0 :: tl) fuel ofs i (Zlen dn) (dn ++ 0 :: rest) =
    Some (i + Zlen (wire ls) + 1, joined dn ls ++ 0 :: rest').
Proof.
  intros Ht. induction ls as [|l ls IH]; intros a dn rest ofs i fuel Hls Ha Hf Hr; destruct fuel as [|fuel]; cbn [length] in Hf; try lia.
  - cbn [app joined] in *. rewrite (read_end deeper a tl) by done. unfold name_end. rewrite Zlen_app, Zlen_cons in Hr.
    rewrite (Zlen_app dn), (Zlen_cons 0). pose proof (Zlen_nonneg dn). rewrite (proj2 (Z.ltb_lt 0 _)) by lia. change (Zlen (wire [])) with 0. rewrite ?Z.add_0_r.
    destruct (gap rest (Zlen rest - 1)) as (r1 & x & r2 & -> & H1); [lia|]. rewrite Zlen_app, Zlen_cons in H1. rewrite Zlen_app, Zlen_cons.
    assert (r2 = []) as -> by (destruct r2; [done|rewrite Zlen_cons in *; pose proof (Zlen_nonneg r2); lia]).
    exists (r1 ++ [0]). pose proof (wr_here (dn ++ 0 :: r1) x [] 0) as E. rewrite <- !app_assoc in E. cbn [app] in E.
    change (Zlen []) with 0. replace (Zlen dn + (Zlen r1 + (0 + 1) + 1) - 1) with (Zlen (dn ++ 0 :: r1)) by (rewrite Zlen_app, Zlen_cons; lia).
    by rewrite E.
  - apply Forall_cons in Hls as [Hl Hls]. rewrite (joined_cons dn l ls Hl) in *. fold (sep dn) in *.
    cbn [wire]. rewrite <- app_comm_cons, <- app_assoc. pose proof (Zlen_nonneg (wire ls)).
    assert (Zlen (dn ++ sep dn ++ l) <= Zlen (joined (dn ++ sep dn ++ l) ls)) as Hj.
    { unfold joined. destruct ls as [|l' ls']; [lia|]. case_decide as E; [rewrite E; apply Zlen_nonneg|].
      rewrite (Zlen_app (dn ++ sep dn ++ l)). pose proof (Zlen_nonneg (46 :: dotted (l' :: ls'))). lia. }
    destruct (read_label_into deeper a l (wire ls ++ 0 :: tl) dn rest ofs i fuel Hl Ha) as (r & Er & ->); [rewrite Zlen_app, Zlen_cons; lia|lia|].
    destruct (IH (a ++ Zlen l :: l) (dn ++ sep dn ++ l) r ofs (i + Zlen l + 1) fuel Hls) as (r' & E);
      [rewrite Zlen_app, Zlen_cons; lia|lia|lia|].
    rewrite <- (app_assoc a) in E. cbn [app] in E. exists r'. rewrite E. rewrite Zlen_cons, Zlen_app. do 2 f_equal. lia.
Qed.

(** ** The round trip *)

Definition header (id : Z) : list Z := [Z.shiftr id 8; Z.land id 255; 1; 0; 0; 1; 0; 0; 0; 0; 0; 0].

Lemma query_packet l ls after id ipv6 : Forall label (l :: ls) -> Zlen (dotted (l :: ls)) <= 250 ->
  mg_dns_send (dotted (l :: ls)) after id ipv6 =
  Some (header id ++ wire (l :: ls) ++ 0 :: [0; if ipv6 then 28 else 1; 0; 1]).
Proof.
  intros Hls Hn. unfold mg_dns_send.
  destruct (send_name after ls l [] [] (replicate 256 0) 251 Hls) as (r & E & Er).
  { done. } { change (Zlen (replicate 256 0)) with 256. lia. } { unfold Zlen in Hn. lia. }
  cbn [app] in E. change (Zlen []) with 0 in E. rewrite Z.add_0_l in E. rewrite E. cbn [mbind option_bind].
  pose proof (wire_len l ls) as Hw. rewrite <- Hw. set (w := wire (l :: ls)) in *.
  assert (Zlen r = 256 - Zlen w) as Hr.
  { apply (f_equal Zlen) in Er. rewrite Zlen_app in Er. change (Zlen (replicate 256 0)) with 256 in Er.
    assert (Zlen (take (length w) (replicate 256 0)) = Zlen w) as E'; [|lia].
    unfold Zlen in *. rewrite length_take, length_replicate. lia. }
  destruct (cut_at r 5) as (g & r' & -> & Hg); [lia|].
  rewrite (blit_gap w g r' [0; 0; 1; 0; 1]) by done. cbn [mbind option_bind].
  assert (forall t, take (Z.to_nat (Zlen w + 5)) (w ++ [0; 0; t; 0; 1] ++ r') = w ++ 0 :: [0; t; 0; 1]) as Ht.
  { intros t. rewrite app_assoc, take_app_length'; [done|]. unfold Zlen. rewrite length_app. cbn. lia. }
  destruct ipv6; cbn [mbind option_bind].
  - assert (wr (w ++ [0; 0; 1; 0; 1] ++ r') (Zlen w + 2) 28 = Some (w ++ [0; 0; 28; 0; 1] ++ r')) as ->.
    { pose proof (wr_here (w ++ [0; 0]) 1 ([0; 1] ++ r') 28) as W. rewrite Zlen_app, <- !app_assoc in W. exact W. }
    cbn [mbind option_bind]. by rewrite Ht.
  - by rewrite Ht.
Qed.

Lemma id_bytes id : 0 <= id -> Z.lor (Z.shiftl (Z.shiftr id 8) 8) (Z.land id 255) = id.
Proof.
  intros H. change 255 with (Z.ones 8). apply Z.bits_inj'. intros n Hn. rewrite Z.lor_spec, Z.land_spec.
  destruct (Z.lt_ge_cases n 8).
  - rewrite Z.shiftl_spec_low, Z.ones_spec_low by lia. by rewrite andb_true_r.
  - rewrite Z.shiftl_spec_high, Z.shiftr_spec, Z.ones_spec_high by lia. rewrite andb_false_r, orb_false_r. f_equal. lia.
Qed.

Lemma rd16_some (s : list Z) i : 0 <= i -> i + 1 < Zlen s -> exists x, rd16 s i = Some x.
Proof.
  intros Hi Hl. unfold rd16. destruct (rd_is_Some s i) as [a ->]; [lia|]. destruct (rd_is_Some s (i + 1)) as [b ->]; [lia|].
  by eexists.
Qed.

(** Reading the name of the question. *)
Lemma question_name l ls h tl : Forall label (l :: ls) -> Zlen (dotted (l :: ls)) <= 250 -> Zlen h = 12 -> 0 < Zlen tl ->
  mg_dns_parse_name (h ++ wire (l :: ls) ++ 0 :: tl) 12 [] = Some (Zlen (wire (l :: ls)) + 1, []) /\
  exists rest, mg_dns_parse_name (h ++ wire (l :: ls) ++ 0 :: tl) 12 (replicate 256 0) =
    Some (Zlen (wire (l :: ls)) + 1, dotted (l :: ls) ++ 0 :: rest).
Proof.
  intros Hls Hn Hh Ht. unfold mg_dns_parse_name. set (s := h ++ _).
  assert (length (l :: ls) < S (length s))%nat as Hf.
  { assert (length ls <= length (wire ls))%nat as Hw.
    { clear. induction ls as [|l ls IH]; [done|]. cbn [wire length]. rewrite length_app. lia. }
    unfold s. rewrite !length_app. cbn [wire length]. rewrite length_app. lia. }
  cbn [mg_dns_parse_name_depth]. split.
  - change (Zlen []) with 0. cbn [Z.ltb Z.compare andb mbind option_bind]. unfold s. rewrite (read_length _ tl Ht) by (done || lia). done.
  - change (wr (replicate 256 0) 0 0) with (Some (0 :: replicate 255 0)).
    change ((0 <? Zlen (replicate 256 0)) && Nat.eqb 6 6) with true. cbn [mbind option_bind].
    destruct (read_name (mg_dns_parse_name_depth 5 s) tl Ht (l :: ls) h [] (replicate 255 0) 12 0 (S (length s)) Hls) as (rest & E); [lia|done| |].
    { change (Zlen ([] ++ 0 :: replicate 255 0)) with 256. cbn [joined]. rewrite decide_True by done. lia. }
    exists rest. cbn [joined] in E. rewrite decide_True in E by done. rewrite Z.add_0_l in E. exact E.
Qed.

(** A DNS query says what was asked: for every host name of labels of 1 to 63
    characters and up to 250 characters in all, the packet sent is parsed back to the same
    transaction and the same name, for both kinds of address. *)
Theorem dns_query_roundtrip (l : list Z) (ls : list (list Z)) (after id : Z) (ipv6 : bool)
  (Hls : Forall label (l :: ls)) (Hn : Zlen (dotted (l :: ls)) <= 250) (Hid : 0 <= id < 2 ^ 16) :
  exists pkt dm, mg_dns_send (dotted (l :: ls)) after id ipv6 = Some pkt /\ mg_dns_parse pkt = Some (true, dm) /\
    txnid dm = id /\ take (S (length (dotted (l :: ls)))) (name dm) = dotted (l :: ls) ++ [0].
Proof.
  rewrite query_packet by done. set (t := if ipv6 then 28 else 1). set (pkt := header id ++ wire (l :: ls) ++ 0 :: [0; t; 0; 1]).
  destruct (question_name l ls (header id) [0; t; 0; 1] Hls Hn eq_refl ltac:(done)) as [E1 (rest & E2)].
  fold pkt in E1, E2. pose proof (wire_len l ls) as Hw. set (w := wire (l :: ls)) in *.
  pose proof (Zlen_nonneg (dotted (l :: ls))).
  assert (Zlen pkt = Zlen w + 17) as Hp by (unfold pkt; rewrite !Zlen_app; change (Zlen (header id)) with 12; rewrite Zlen_cons; change (Zlen [0; t; 0; 1]) with 4; lia).
  assert (rd16 pkt 0 = Some id) as R0.
  { transitivity (Some (Z.lor (Z.shiftl (Z.shiftr id 8) 8) (Z.land id 255))); [reflexivity|]. f_equal. apply id_bytes. lia. }
  eexists pkt, _. split; [done|]. unfold mg_dns_parse.
  change (rd16 pkt 4) with (Some 1). change (rd16 pkt 6) with (Some 0). change (rd16 pkt 2) with (Some 256). rewrite R0.
  rewrite (proj2 (Z.ltb_ge (Zlen pkt) 12)) by lia. cbn [mbind option_bind Z.ltb Z.compare].
  change (Z.to_nat 1) with 1%nat. cbn [dns_questions name]. unfold mg_dns_parse_rr.
  rewrite (proj2 (Z.ltb_ge (Zlen pkt) 12)), (proj2 (Z.ltb_ge 512 (Zlen pkt))), (proj2 (Z.leb_gt (Zlen pkt) 12)) by lia.
  rewrite E1. cbn [mbind option_bind]. rewrite u16_small by lia.
  rewrite (proj2 (Z.eqb_neq (Zlen w + 1) 0)), (proj2 (Z.ltb_ge (Zlen pkt) _)) by lia.
  destruct (rd16_some pkt (12 + (Zlen w + 1) + 4 - 4)) as [x1 ->]; [lia|lia|].
  destruct (rd16_some pkt (12 + (Zlen w + 1) + 4 - 2)) as [x2 ->]; [lia|lia|]. cbn [mbind option_bind].
  rewrite (proj2 (Z.eqb_neq (Zlen w + 1 + 4) 0)) by lia. unfold no_message. cbn [name]. rewrite E2. cbn [mbind option_bind].
  split; [reflexivity|]. cbn [txnid name with_name]. split; [done|].
  rewrite cons_middle, app_assoc. apply take_app_length'. rewrite length_app. cbn. lia.
Qed.

Lemma dns_query_roundtrip_witness :
  exists pkt dm, mg_dns_send str:("www.example.com") 47 4660 true = Some pkt /\ mg_dns_parse pkt = Some (true, dm) /\
    txnid dm = 4660 /\ take 16 (name dm) = str:("www.example.com") ++ [0].
Proof.
  apply (dns_query_roundtrip str:("www") [str:("example"); str:("com")] 47 4660 true).
  - apply (bool_decide_unpack (Forall (fun l => 0 < Zlen l < 64 /\ 46 ∉ l) [str:("www"); str:("example"); str:("com")])).
    vm_compute. exact I.
  - discriminate.
  - split; [discriminate|reflexivity].
Defined.

(** A label longer than the 63 characters DNS allows is sent all the same, and read back as a
    pointer: the name is lost. *)
Example long_label : (p ← mg_dns_send (replicate 64 97) 0 1 false; '(b, dm) ← mg_dns_parse p; Some (b, take 4 (name dm))) =
  Some (true, [0; 0; 0; 0]).
Proof. vm_compute. reflexivity. Qed.
