(* ===== verification/Queue.v ===== *)
(** * Queue: the single-producer single-consumer message ring (mongoose/mongoose.c, lines
    7834-7891)

    A message is stored behind its 32-bit little-endian length; length 0 marks the wrap.
    [None] is an access outside the ring or a failed assertion.  Producer and consumer
    calls are atomic here; each touches only its own index, so their interleavings are the
    sequences of calls. *)

From S2P Require Import Prelude Iobuf.

Record mg_queue := queue { qbuf : list Z; head : Z; tail : Z }.

Definition qsize (q : mg_queue) : Z := Zlen (qbuf q).

Definition le32 (n : Z) : list Z := [n mod 256; n / 256 mod 256; n / 65536 mod 256; n / 16777216 mod 256].
Definition of_le32 (b : list Z) : Z :=
  match b with [b0; b1; b2; b3] => b0 + 256 * b1 + 65536 * b2 + 16777216 * b3 | _ => 0 end.

Definition mg_queue_init (buf : list Z) : mg_queue := queue buf 0 0.

Definition mg_queue_read_len (q : mg_queue) : option Z :=
  b ← slice (qbuf q) (tail q) 4;
  let n := of_le32 b in
  if tail q + n + 4 <=? qsize q then Some n else None.

Definition mg_queue_write_len (q : mg_queue) (len : Z) : option mg_queue :=
  b ← blit (qbuf q) (head q) (le32 (u32 len)); Some (queue b (head q) (tail q)).

(** The space granted and the position to write at. *)
Definition mg_queue_book (q : mg_queue) (len : Z) : option (mg_queue * Z * Z) :=
  let hs := 8 in
  '(q, space) ← (if (tail q <=? head q) && (u32 (u32 (head q + len) + hs) <=? qsize q) then
                   Some (q, qsize q - head q - hs)
                 else if (tail q <=? head q) && (hs <? tail q) then
                   q ← mg_queue_write_len q 0; Some (queue (qbuf q) 0 (tail q), 0)
                 else Some (q, 0));
  let space := if u32 (u32 (head q + hs) + len) <? tail q then u32 (tail q - head q - hs) else space in
  Some (q, space, head q + 4).

(** The length of the next message and its position. *)
Definition mg_queue_next (q : mg_queue) : option (mg_queue * Z * Z) :=
  '(q, len) ← (if negb (tail q =? head q) then
                 len ← mg_queue_read_len q;
                 if len =? 0 then
                   let q := queue (qbuf q) (head q) 0 in
                   len ← (if tail q <? head q then mg_queue_read_len q else Some 0);
                   Some (q, len)
                 else Some (q, len)
               else Some (q, 0));
  if tail q + len <=? qsize q then Some (q, len, tail q + 4) else None.

Definition mg_queue_add (q : mg_queue) (len : Z) : option mg_queue :=
  if 0 <? len then
    q ← mg_queue_write_len q len;
    if head q + 8 + len <=? qsize q then Some (queue (qbuf q) (head q + len + 4) (tail q)) else None
  else None.

Definition mg_queue_del (q : mg_queue) (len : Z) : option mg_queue :=
  let q := queue (qbuf q) (head q) (tail q + len + 4) in
  if tail q + 4 <=? qsize q then Some q else None.

(** The producer's protocol: book, copy the message, add; [false] when it does not fit. *)
Definition put (q : mg_queue) (m : list Z) : option (bool * mg_queue) :=
  '(q, space, p) ← mg_queue_book q (Zlen m);
  if space <? Zlen m then Some (false, q)
  else b ← blit (qbuf q) p m; q ← mg_queue_add (queue b (head q) (tail q)) (Zlen m); Some (true, q).

(** The consumer's protocol: next, copy out, delete. *)
Definition get (q : mg_queue) : option (option (list Z) * mg_queue) :=
  '(q, n, p) ← mg_queue_next q;
  if n =? 0 then Some (None, q)
  else m ← slice (qbuf q) p n; q ← mg_queue_del q n; Some (Some m, q).

(** ** The messages a ring holds *)

Definition frame (m : list Z) : list Z := le32 (Zlen m) ++ m.
Definition frames (ms : list (list Z)) : list Z := concat (map frame ms).

Definition msg_ok (m : list Z) : Prop := 0 < Zlen m < 2 ^ 31.

(** Contiguous, or wrapped with a gap that the head never closes. *)
Inductive holds (q : mg_queue) (ms : list (list Z)) : Prop :=
  | holds_linear pre post :
      qbuf q = pre ++ frames ms ++ post -> tail q = Zlen pre -> head q = Zlen pre + Zlen (frames ms) ->
      4 <= Zlen post -> holds q ms
  | holds_wrapped ms1 ms2 gap post :
      ms = ms1 ++ ms2 -> qbuf q = frames ms2 ++ gap ++ frames ms1 ++ le32 0 ++ post ->
      head q = Zlen (frames ms2) -> tail q = Zlen (frames ms2) + Zlen gap -> 4 < Zlen gap -> holds q ms.

Definition qinv (q : mg_queue) (ms : list (list Z)) : Prop :=
  qsize q < 2 ^ 30 /\ Forall msg_ok ms /\ holds q ms.

Lemma of_le32_le32 n : 0 <= n < 2 ^ 32 -> of_le32 (le32 n) = n.
Proof. intros H. unfold of_le32, le32. dlia. Qed.

Lemma le32_len n : Zlen (le32 n) = 4.
Proof. done. Qed.

Lemma frames_app a b : frames (a ++ b) = frames a ++ frames b.
Proof. unfold frames. by rewrite map_app, concat_app. Qed.

Lemma frame_len m : Zlen (frame m) = 4 + Zlen m.
Proof. unfold frame. by rewrite Zlen_app, le32_len. Qed.

Lemma slice_mid (a b c : list Z) o n : o = Zlen a -> n = Zlen b -> slice (a ++ b ++ c) o n = Some b.
Proof.
  intros -> ->. pose proof (Zlen_nonneg a). pose proof (Zlen_nonneg b). pose proof (Zlen_nonneg c).
  rewrite slice_Some by (rewrite ?Zlen_app; lia). f_equal.
  rewrite drop_prefix by done. by apply take_prefix.
Qed.

(** Split a block of at least [n] bytes. *)
Lemma split_at (l : list Z) n : 0 <= n <= Zlen l -> exists a b, l = a ++ b /\ Zlen a = n.
Proof.
  intros H. exists (take (Z.to_nat n) l), (drop (Z.to_nat n) l). rewrite take_drop. split; [done|].
  unfold Zlen in *. rewrite length_take. lia.
Qed.

Lemma frames_one m : frames [m] = frame m.
Proof. unfold frames. simpl. by rewrite app_nil_r. Qed.

Lemma frames_cons m ms : frames (m :: ms) = frame m ++ frames ms.
Proof. done. Qed.

(** ** The producer *)

Lemma write_frame a g4 gm c m t : Zlen g4 = 4 -> Zlen gm = Zlen m -> msg_ok m -> 4 <= Zlen c ->
  Zlen (a ++ g4 ++ gm ++ c) < 2 ^ 30 ->
  (b ← blit (a ++ g4 ++ gm ++ c) (Zlen a + 4) m; q ← mg_queue_add (queue b (Zlen a) t) (Zlen m); Some (true, q))
  = Some (true, queue (a ++ frame m ++ c) (Zlen a + Zlen m + 4) t).
Proof.
  intros H4 Hm Hok Hc Hs. unfold msg_ok in Hok.
  replace (a ++ g4 ++ gm ++ c) with ((a ++ g4) ++ gm ++ c) by (by rewrite <- app_assoc).
  replace (Zlen a + 4) with (Zlen (a ++ g4)) by (rewrite Zlen_app; lia).
  rewrite blit_gap by done. cbn [mbind option_bind]. unfold mg_queue_add.
  rewrite (proj2 (Z.ltb_lt _ _)) by lia. unfold mg_queue_write_len. cbn [qbuf head tail].
  rewrite <- app_assoc, blit_gap by (by rewrite le32_len). cbn [mbind option_bind qbuf head tail].
  unfold qsize. cbn [qbuf]. rewrite !Zlen_app, le32_len in *. rewrite (proj2 (Z.leb_le _ _)) by lia.
  cbn [mbind option_bind]. unfold frame. rewrite u32_small by lia. by rewrite <- app_assoc.
Qed.


(** The message is stored in a contiguous ring with room behind the head. *)
Lemma put_linear q ms m pre post : qsize q < 2 ^ 30 -> msg_ok m ->
  qbuf q = pre ++ frames ms ++ post -> tail q = Zlen pre -> head q = Zlen pre + Zlen (frames ms) ->
  Zlen m + 8 <= Zlen post ->
  exists q', put q m = Some (true, q') /\ qsize q' = qsize q /\ holds q' (ms ++ [m]).
Proof.
  intros Hs Hm Hb Ht Hh Hp. unfold put, mg_queue_book, qsize in *. rewrite Hb in Hs |- *.
  pose proof (Zlen_nonneg pre). pose proof (Zlen_nonneg (frames ms)). pose proof Hm as [? ?].
  rewrite !Zlen_app in *. rewrite (u32_small (head q + Zlen m)), (u32_small (head q + Zlen m + 8)) by lia.
  rewrite !(proj2 (Z.leb_le _ _)) by lia. cbn [andb mbind option_bind].
  rewrite (u32_small (head q + 8)), (u32_small (head q + 8 + Zlen m)) by lia.
  rewrite (proj2 (Z.ltb_ge (head q + 8 + Zlen m) (tail q))) by lia. cbn [mbind option_bind].
  rewrite (proj2 (Z.ltb_ge _ (Zlen m))) by lia.
  destruct (split_at post 4) as (g4 & r & -> & H4); [lia|]. rewrite Zlen_app in *.
  destruct (split_at r (Zlen m)) as (gm & c & -> & Hg); [lia|]. rewrite Zlen_app in *.
  pose proof (write_frame (pre ++ frames ms) g4 gm c m (Zlen pre)) as Hw. rewrite !Zlen_app in Hw.
  rewrite <- app_assoc in Hw. rewrite Hb, Hh, Ht, Hw by (done || lia).
  eexists. split; [done|]. unfold qsize. cbn [qbuf]. rewrite <- !app_assoc, !Zlen_app, ?frame_len, ?le32_len. split; [lia|].
  apply (holds_linear _ _ pre c); cbn [qbuf head tail]; [|done| |lia].
  - by rewrite frames_app, frames_one, <- !app_assoc.
  - rewrite frames_app, Zlen_app, frames_one, frame_len. lia.
Qed.

(** The same in the gap of a wrapped ring. *)
Lemma put_gap q ms1 ms2 m gap post : qsize q < 2 ^ 30 -> msg_ok m ->
  qbuf q = frames ms2 ++ gap ++ frames ms1 ++ le32 0 ++ post ->
  head q = Zlen (frames ms2) -> tail q = Zlen (frames ms2) + Zlen gap -> Zlen m + 8 < Zlen gap ->
  exists q', (b ← blit (qbuf q) (head q + 4) m; q ← mg_queue_add (queue b (head q) (tail q)) (Zlen m); Some (true, q))
             = Some (true, q') /\ qsize q' = qsize q /\ holds q' (ms1 ++ ms2 ++ [m]).
Proof.
  intros Hs Hm Hb Hh Ht Hp. unfold qsize in *. rewrite Hb in Hs |- *. pose proof Hm as [? ?].
  pose proof (Zlen_nonneg (frames ms1)). pose proof (Zlen_nonneg (frames ms2)). pose proof (Zlen_nonneg post).
  destruct (split_at gap 4) as (g4 & r & -> & H4); [lia|]. rewrite Zlen_app in *.
  destruct (split_at r (Zlen m)) as (gm & c & -> & Hg); [lia|]. rewrite !Zlen_app, le32_len in *.
  pose proof (write_frame (frames ms2) g4 gm (c ++ frames ms1 ++ le32 0 ++ post) m (tail q)) as Hw.
  rewrite !Zlen_app, le32_len in Hw. rewrite Hh, <- !app_assoc, Hw by (done || lia).
  eexists. split; [done|]. cbn [qbuf]. rewrite !Zlen_app, ?frame_len, ?le32_len. split; [lia|].
  apply (holds_wrapped _ _ ms1 (ms2 ++ [m]) c post); cbn [qbuf head tail]; [done| | | |lia].
  - by rewrite frames_app, frames_one, <- !app_assoc.
  - rewrite frames_app, Zlen_app, frames_one, frame_len. lia.
  - rewrite frames_app, Zlen_app, frames_one, frame_len, Ht. lia.
Qed.

Lemma put_wrapped q ms1 ms2 m gap post : qsize q < 2 ^ 30 -> msg_ok m ->
  qbuf q = frames ms2 ++ gap ++ frames ms1 ++ le32 0 ++ post ->
  head q = Zlen (frames ms2) -> tail q = Zlen (frames ms2) + Zlen gap -> 4 < Zlen gap ->
  exists ok q', put q m = Some (ok, q') /\ qsize q' = qsize q /\
    holds q' (ms1 ++ ms2 ++ (if (ok : bool) then [m] else [])) /\ ok = (head q + 8 + Zlen m <? tail q).
Proof.
  intros Hs Hm Hb Hh Ht Hg. unfold put, mg_queue_book. pose proof Hm as [? ?].
  assert (Zlen (qbuf q) < 2 ^ 30) as Hs' by done. rewrite Hb, !Zlen_app, le32_len in Hs'.
  pose proof (Zlen_nonneg (frames ms1)). pose proof (Zlen_nonneg (frames ms2)). pose proof (Zlen_nonneg post).
  rewrite !(proj2 (Z.leb_gt (tail q) (head q))) by lia. cbn [andb mbind option_bind].
  rewrite (u32_small (head q + 8)), (u32_small (head q + 8 + Zlen m)) by lia.
  destruct (Z.ltb_spec (head q + 8 + Zlen m) (tail q)); cbn [mbind option_bind].
  - rewrite u32_small by lia. rewrite (proj2 (Z.ltb_ge _ (Zlen m))) by lia.
    destruct (put_gap q ms1 ms2 m gap post Hs Hm Hb Hh Ht ltac:(lia)) as (q' & -> & Hq & Hr).
    exists true, q'. done.
  - rewrite (proj2 (Z.ltb_lt 0 (Zlen m))) by lia. exists false, q. split; [done|]. split; [done|]. split; [|done].
    rewrite app_nil_r. by apply (holds_wrapped _ _ ms1 ms2 gap post).
Qed.

(** A contiguous ring without room behind the head: wrap if the tail leaves room. *)
Lemma put_full q ms m pre post : qsize q < 2 ^ 30 -> msg_ok m ->
  qbuf q = pre ++ frames ms ++ post -> tail q = Zlen pre -> head q = Zlen pre + Zlen (frames ms) ->
  4 <= Zlen post -> Zlen post < Zlen m + 8 ->
  exists ok q', put q m = Some (ok, q') /\ qsize q' = qsize q /\
    holds q' (ms ++ (if (ok : bool) then [m] else [])) /\ ok = (8 + Zlen m <? tail q).
Proof.
  intros Hs Hm Hb Ht Hh Hp Hfull. pose proof Hm as [? ?].
  assert (Zlen (qbuf q) < 2 ^ 30) as Hs' by done. rewrite Hb, !Zlen_app in Hs'.
  pose proof (Zlen_nonneg pre). pose proof (Zlen_nonneg (frames ms)).
  unfold put, mg_queue_book.
  rewrite (u32_small (head q + Zlen m)), (u32_small (head q + Zlen m + 8)) by lia.
  rewrite (proj2 (Z.leb_le (tail q) (head q))) by lia. unfold qsize at 1. rewrite Hb, !Zlen_app.
  rewrite (proj2 (Z.leb_gt _ _)) by lia. cbn [andb].
  destruct (Z.ltb_spec 8 (tail q)).
  - unfold mg_queue_write_len. destruct (split_at post 4) as (g4 & r & -> & H4); [lia|].
    rewrite Hb. replace (pre ++ frames ms ++ g4 ++ r) with ((pre ++ frames ms) ++ g4 ++ r) by (by rewrite <- app_assoc).
    replace (head q) with (Zlen (pre ++ frames ms)) by (rewrite Zlen_app; lia).
    rewrite blit_gap by (by rewrite le32_len). cbn [mbind option_bind qbuf head tail].
    rewrite (u32_small (0 + 8)), (u32_small (0 + 8 + Zlen m)) by lia. rewrite Zlen_app in *.
    set (q1 := queue ((pre ++ frames ms) ++ le32 (u32 0) ++ r) 0 (tail q)).
    assert (qsize q1 = qsize q) as Hq1 by (unfold q1, qsize; rewrite Hb; cbn [qbuf]; rewrite !Zlen_app, le32_len; lia).
    assert (qbuf q1 = frames [] ++ pre ++ frames ms ++ le32 0 ++ r) as Hb1
      by (unfold q1; cbn [qbuf]; rewrite <- !app_assoc; done).
    change (0 + 8) with 8. destruct (Z.ltb_spec (8 + Zlen m) (tail q)).
    + rewrite u32_small by lia. rewrite (proj2 (Z.ltb_ge _ (Zlen m))) by lia.
      destruct (put_gap q1 ms [] m pre r ltac:(by rewrite Hq1) Hm Hb1 eq_refl) as (q' & Hw & Hq & Hr);
        [unfold q1; cbn [tail]; change (Zlen (frames [])) with 0; lia|lia|].
      unfold q1 in Hw. cbn [qbuf head tail] in Hw. rewrite Hw. exists true, q'. split; [done|].
      split; [congruence|]. by split.
    + rewrite (proj2 (Z.ltb_lt 0 (Zlen m))) by lia. exists false, q1. split; [done|]. split; [done|]. split; [|done].
      apply (holds_wrapped _ _ ms [] pre r); [done|done|done| |lia].
      unfold q1. cbn [tail]. change (Zlen (frames [])) with 0. lia.
  - cbn [mbind option_bind]. rewrite (u32_small (head q + 8)), (u32_small (head q + 8 + Zlen m)) by lia.
    rewrite (proj2 (Z.ltb_ge (head q + 8 + Zlen m) _)) by lia. rewrite (proj2 (Z.ltb_lt 0 (Zlen m))) by lia.
    exists false, q. split; [done|]. split; [done|]. rewrite app_nil_r.
    split; [by apply (holds_linear _ _ pre post)|]. symmetry. apply Z.ltb_ge. lia.
Qed.

(** When a message is taken: it fits behind the head, or before the tail after a wrap. *)
Definition fits (q : mg_queue) (m : list Z) : bool :=
  if tail q <=? head q then (head q + Zlen m + 8 <=? qsize q) || (8 + Zlen m <? tail q)
  else head q + 8 + Zlen m <? tail q.

Lemma put_holds q ms m : qinv q ms -> msg_ok m ->
  exists q', put q m = Some (fits q m, q') /\ qsize q' = qsize q /\
    qinv q' (ms ++ (if fits q m then [m] else [])).
Proof.
  intros (Hs & Hf & Hq) Hm.
  assert (forall ok q', qsize q' = qsize q -> holds q' (ms ++ (if (ok : bool) then [m] else [])) ->
    qinv q' (ms ++ (if ok then [m] else []))) as Hinv.
  { intros ok q' Hq' Hh. split; [by rewrite Hq'|]. split; [|done]. apply Forall_app_2; [done|].
    destruct ok; [by apply Forall_singleton|constructor]. }
  unfold fits. destruct Hq as [pre post Hb Ht Hh Hp|ms1 ms2 gap post -> Hb Hh Ht Hg].
  - pose proof (Zlen_nonneg (frames ms)). rewrite (proj2 (Z.leb_le (tail q) (head q))) by lia.
    assert (qsize q = Zlen pre + Zlen (frames ms) + Zlen post) as Hsz
      by (unfold qsize; rewrite Hb, !Zlen_app; lia).
    destruct (Z.leb_spec (head q + Zlen m + 8) (qsize q)); cbn [orb].
    + destruct (put_linear q ms m pre post) as (q' & Hput & Hq' & Hr); [done..|lia|].
      exists q'. split; [done|]. split; [done|]. by apply (Hinv true).
    + destruct (put_full q ms m pre post) as (ok & q' & Hput & Hq' & Hr & <-); [done..|lia|].
      exists q'. split; [done|]. split; [done|]. by apply Hinv.
  - rewrite (proj2 (Z.leb_gt (tail q) (head q))) by lia.
    destruct (put_wrapped q ms1 ms2 m gap post) as (ok & q' & Hput & Hq' & Hr & <-); [done..|].
    exists q'. rewrite app_assoc in Hr. split; [done|]. split; [done|]. by apply Hinv.
Qed.

(** ** The consumer *)

(** A message at the tail is read and removed. *)
Lemma read_at q a m c : qbuf q = a ++ frame m ++ c -> tail q = Zlen a -> msg_ok m -> 4 <= Zlen c ->
  mg_queue_read_len q = Some (Zlen m) /\ slice (qbuf q) (tail q + 4) (Zlen m) = Some m /\
  tail q + Zlen m + 4 + 4 <= qsize q.
Proof.
  intros Hb Ht Hm Hc. pose proof Hm as [? ?]. pose proof (Zlen_nonneg a). unfold mg_queue_read_len, qsize, frame in *.
  rewrite Hb, Ht. rewrite <- app_assoc, (slice_mid a) by done. cbn [mbind option_bind].
  rewrite of_le32_le32 by lia. rewrite !Zlen_app, le32_len. rewrite (proj2 (Z.leb_le _ _)) by lia.
  split; [done|]. split; [|lia]. rewrite app_assoc. apply slice_mid; [by rewrite Zlen_app, le32_len|done].
Qed.

Lemma del_at q n : tail q + n + 4 + 4 <= qsize q ->
  mg_queue_del q n = Some (queue (qbuf q) (head q) (tail q + n + 4)).
Proof. intros H. unfold mg_queue_del, qsize in *. cbn [qbuf tail]. by rewrite (proj2 (Z.leb_le _ _)) by lia. Qed.

Lemma get_message q a m c : qbuf q = a ++ frame m ++ c -> tail q = Zlen a -> msg_ok m -> 4 <= Zlen c ->
  tail q <> head q -> get q = Some (Some m, queue (qbuf q) (head q) (tail q + Zlen m + 4)).
Proof.
  intros Hb Ht Hm Hc Hne. destruct (read_at q a m c Hb Ht Hm Hc) as (H1 & H2 & H3). pose proof Hm as [? ?].
  unfold get, mg_queue_next. rewrite (proj2 (Z.eqb_neq _ _)) by done. cbn [negb]. rewrite H1. cbn [mbind option_bind].
  rewrite (proj2 (Z.eqb_neq (Zlen m) 0)) by lia. cbn [mbind option_bind].
  rewrite (proj2 (Z.leb_le _ _)) by lia. cbn [mbind option_bind].
  rewrite (proj2 (Z.eqb_neq (Zlen m) 0)) by lia. rewrite H2. cbn [mbind option_bind]. by rewrite del_at.
Qed.

Lemma get_linear q ms pre post : qinv q ms -> qbuf q = pre ++ frames ms ++ post -> tail q = Zlen pre ->
  head q = Zlen pre + Zlen (frames ms) -> 4 <= Zlen post ->
  exists q', get q = Some (List.head ms, q') /\ qsize q' = qsize q /\ holds q' (List.tail ms).
Proof.
  intros (Hs & Hf & _) Hb Ht Hh Hp. destruct ms as [|m ms].
  - unfold get, mg_queue_next. change (Zlen (frames [])) with 0 in Hh. rewrite (proj2 (Z.eqb_eq _ _)) by lia.
    cbn [negb mbind option_bind]. unfold qsize at 1. rewrite Hb, !Zlen_app. pose proof (Zlen_nonneg (frames [])).
    rewrite (proj2 (Z.leb_le _ _)) by lia. exists q. split; [done|]. split; [done|].
    by apply (holds_linear _ _ pre post).
  - apply Forall_cons in Hf as [Hm Hf]. rewrite frames_cons in *. rewrite <- app_assoc in Hb. pose proof Hm as [? ?].
    rewrite Zlen_app, frame_len in Hh. pose proof (Zlen_nonneg (frames ms)).
    rewrite (get_message q pre m (frames ms ++ post)); [|done|done|done|rewrite Zlen_app; lia|lia].
    eexists. split; [done|]. split; [done|].
    apply (holds_linear _ _ (pre ++ frame m) post); cbn [qbuf head tail List.tail];
      [by rewrite <- app_assoc| | |done]; rewrite Zlen_app, frame_len; lia.
Qed.

(** At the wrap marker the consumer goes on at the start of the ring. *)
Lemma get_marker q gap post ms2 : qsize q < 2 ^ 30 -> Forall msg_ok ms2 ->
  qbuf q = frames ms2 ++ gap ++ le32 0 ++ post -> head q = Zlen (frames ms2) ->
  tail q = Zlen (frames ms2) + Zlen gap -> 4 < Zlen gap ->
  get q = get (queue (qbuf q) (head q) 0).
Proof.
  intros Hs Hf Hb Hh Ht Hg. pose proof (Zlen_nonneg (frames ms2)). pose proof (Zlen_nonneg post).
  assert (mg_queue_read_len q = Some 0) as Hr.
  { unfold mg_queue_read_len, qsize. rewrite Hb, app_assoc, (slice_mid (frames ms2 ++ gap));
      [|by rewrite Zlen_app|done]. cbn [mbind option_bind]. change (of_le32 (le32 0)) with 0.
    rewrite !Zlen_app, le32_len. by rewrite (proj2 (Z.leb_le _ _)) by lia. }
  unfold get, mg_queue_next at 1. rewrite (proj2 (Z.eqb_neq _ _)) by lia. cbn [negb]. rewrite Hr.
  cbn [mbind option_bind Z.eqb tail head]. unfold mg_queue_next. cbn [tail head].
  destruct ms2 as [|m ms2].
  - change (Zlen (frames [])) with 0 in Hh. rewrite Hh. cbn [Z.ltb Z.compare Z.eqb negb mbind option_bind tail]. done.
  - apply Forall_cons in Hf as [Hm Hf]. rewrite frames_cons in *. rewrite Zlen_app, frame_len in *. pose proof Hm as [? ?].
    pose proof (Zlen_nonneg (frames ms2)).
    rewrite (proj2 (Z.ltb_lt 0 _)), (proj2 (Z.eqb_neq 0 _)) by lia. cbn [negb].
    destruct (read_at (queue (qbuf q) (head q) 0) [] m (frames ms2 ++ gap ++ le32 0 ++ post)) as (-> & _ & _);
      [by rewrite app_nil_l, app_assoc, Hb|done|done|rewrite !Zlen_app, le32_len; lia|].
    cbn [mbind option_bind]. by rewrite (proj2 (Z.eqb_neq (Zlen m) 0)) by lia.
Qed.

Lemma get_holds q ms : qinv q ms ->
  exists q', get q = Some (List.head ms, q') /\ qsize q' = qsize q /\ qinv q' (List.tail ms).
Proof.
  intros Hq. pose proof Hq as (Hs & Hf & Hh).
  assert (Forall msg_ok (List.tail ms)) as Hf' by (destruct Hf; done).
  assert (forall q', qsize q' = qsize q -> holds q' (List.tail ms) -> qinv q' (List.tail ms)) as Hinv
    by (intros q' Hq' ?; split; [by rewrite Hq'|done]).
  destruct Hh as [pre post Hb Ht Hh Hp|ms1 ms2 gap post -> Hb Hh Ht Hg].
  - destruct (get_linear q ms pre post) as (q' & Hget & Hq' & Hr); [done..|]. exists q'. auto.
  - destruct ms1 as [|m ms1]; cbn [app] in *.
    + change (frames []) with (@nil Z) in Hb. rewrite app_nil_l in Hb.
      rewrite (get_marker q gap post ms2) by done.
      pose proof (Zlen_nonneg post). pose proof (Zlen_nonneg (frames ms2)).
      destruct (get_linear (queue (qbuf q) (head q) 0) ms2 [] (gap ++ le32 0 ++ post)) as (q' & Hget & Hq' & Hr);
        [|by rewrite app_nil_l|done|cbn [head]; change (Zlen []) with 0; lia|rewrite !Zlen_app, le32_len; lia|exists q'; auto].
      split; [done|]. split; [done|].
      apply (holds_linear _ _ [] (gap ++ le32 0 ++ post));
        [by rewrite app_nil_l|done|cbn [head]; change (Zlen []) with 0; lia|rewrite !Zlen_app, le32_len; lia].
    + apply Forall_cons in Hf as [Hm Hf]. pose proof Hm as [? ?]. rewrite frames_cons in Hb. rewrite <- app_assoc in Hb.
      pose proof (Zlen_nonneg post). pose proof (Zlen_nonneg (frames ms1)).
      rewrite (get_message q (frames ms2 ++ gap) m (frames ms1 ++ le32 0 ++ post));
        [|by rewrite <- app_assoc|by rewrite Zlen_app|done|rewrite !Zlen_app, le32_len; lia|lia].
      eexists. split; [done|]. split; [done|]. cbn [List.tail]. apply Hinv; [done|].
      apply (holds_wrapped _ _ ms1 ms2 (gap ++ frame m) post); cbn [qbuf head tail]; [done|by rewrite Hb, <- !app_assoc|done| |];
        rewrite Zlen_app, frame_len; lia.
Qed.

Lemma init_holds buf : 8 <= Zlen buf < 2 ^ 30 -> qinv (mg_queue_init buf) [].
Proof.
  intros H. split; [by unfold qsize; cbn; lia|]. split; [done|].
  apply (holds_linear _ _ [] buf); [done|done|done|lia].
Qed.

(** C33: the message ring implements a FIFO queue.  A fresh ring over any block of 8 bytes to
    1 GiB holds no message; whatever messages it holds (contiguous or wrapped around the
    end), adding one never touches memory outside the block or the messages stored, is
    refused exactly when the message fits neither behind the head nor, after a wrap,
    before the tail, and otherwise appends it; taking one returns the oldest message byte
    for byte and removes it, or reports that there is none. *)
Theorem queue_refines_fifo (q : mg_queue) (ms : list (list Z)) (Hq : qinv q ms) :
  (forall m, msg_ok m ->
     exists q', put q m = Some (fits q m, q') /\ qinv q' (ms ++ if fits q m then [m] else [])) /\
  (exists q', get q = Some (List.head ms, q') /\ qinv q' (List.tail ms)) /\
  (forall buf, 8 <= Zlen buf < 2 ^ 30 -> qinv (mg_queue_init buf) []).
Proof.
  split; [|split; [|exact init_holds]].
  - intros m Hm. destruct (put_holds q ms m Hq Hm) as (q' & H1 & _ & H2). eauto.
  - destruct (get_holds q ms Hq) as (q' & H1 & _ & H2). eauto.
Qed.

Definition demo_queue : mg_queue := mg_queue_init (replicate 32 0).

Lemma queue_refines_fifo_witness :
  (forall m, msg_ok m -> exists q', put demo_queue m = Some (fits demo_queue m, q')
     /\ qinv q' ([] ++ if fits demo_queue m then [m] else [])) /\
  (exists q', get demo_queue = Some (None, q') /\ qinv q' []) /\
  (forall buf, 8 <= Zlen buf < 2 ^ 30 -> qinv (mg_queue_init buf) []).
Proof. apply (queue_refines_fifo demo_queue []). apply init_holds. vm_compute. split; congruence. Defined.

(** Three messages through a ring of 32 bytes: the third wraps. *)
Example ring_wraps :
  ('(_, q) ← put demo_queue (replicate 9 1); '(_, q) ← put q (replicate 7 2);
   '(m1, q) ← get q; '(ok, q) ← put q [3; 3]; '(m2, q) ← get q; '(m3, q) ← get q; '(m4, q) ← get q;
   Some (m1, ok, m2, m3, m4))
  = Some (Some (replicate 9 1), true, Some (replicate 7 2), Some [3; 3], None).
Proof. vm_compute. reflexivity. Qed.
