(* ===== verification/Httpd.v ===== *)
(** * Httpd: the HTTP server side (mongoose/mongoose.c, lines 1787-1932 and 2224-2560)

    Replies, the chunk writer, the connection callback [http_cb] that cuts the received
    bytes into messages, the mapping of URIs to file paths and the upload handler.  The
    send buffer is the list of the bytes queued; appending to it succeeds (allocation
    failures of the send buffer are not modelled).  User handlers, the file system and the
    bytes behind the receive buffer are parameters. *)

From S2P Require Import Prelude Str Base64 Json Iobuf Url Http Fmt Util.

(** ** Replies *)

Definition status_table : list (Z * list Z) :=
  [(100, str:("Continue")); (101, str:("Switching Protocols")); (102, str:("Processing"));
   (200, str:("OK")); (201, str:("Created")); (202, str:("Accepted"));
   (203, str:("Non-authoritative Information")); (204, str:("No Content")); (205, str:("Reset Content"));
   (206, str:("Partial Content")); (207, str:("Multi-Status")); (208, str:("Already Reported"));
   (226, str:("IM Used")); (300, str:("Multiple Choices")); (301, str:("Moved Permanently"));
   (302, str:("Found")); (303, str:("See Other")); (304, str:("Not Modified")); (305, str:("Use Proxy"));
   (307, str:("Temporary Redirect")); (308, str:("Permanent Redirect")); (400, str:("Bad Request"));
   (401, str:("Unauthorized")); (402, str:("Payment Required")); (403, str:("Forbidden"));
   (404, str:("Not Found")); (405, str:("Method Not Allowed")); (406, str:("Not Acceptable"));
   (407, str:("Proxy Authentication Required")); (408, str:("Request Timeout")); (409, str:("Conflict"));
   (410, str:("Gone")); (411, str:("Length Required")); (412, str:("Precondition Failed"));
   (413, str:("Payload Too Large")); (414, str:("Request-URI Too Long")); (415, str:("Unsupported Media Type"));
   (416, str:("Requested Range Not Satisfiable")); (417, str:("Expectation Failed"));
   (418, str:("I'm a teapot")); (421, str:("Misdirected Request")); (422, str:("Unprocessable Entity"));
   (423, str:("Locked")); (424, str:("Failed Dependency")); (426, str:("Upgrade Required"));
   (428, str:("Precondition Required")); (429, str:("Too Many Requests"));
   (431, str:("Request Header Fields Too Large")); (444, str:("Connection Closed Without Response"));
   (451, str:("Unavailable For Legal Reasons")); (499, str:("Client Closed Request"));
   (500, str:("Internal Server Error")); (501, str:("Not Implemented")); (502, str:("Bad Gateway"));
   (503, str:("Service Unavailable")); (504, str:("Gateway Timeout")); (505, str:("HTTP Version Not Supported"));
   (506, str:("Variant Also Negotiates")); (507, str:("Insufficient Storage")); (508, str:("Loop Detected"));
   (510, str:("Not Extended")); (511, str:("Network Authentication Required"));
   (599, str:("Network Connect Timeout Error"))].

Fixpoint assoc (k : Z) (l : list (Z * list Z)) : list Z :=
  match l with [] => [] | (j, v) :: l' => if k =? j then v else assoc k l' end.

Definition mg_http_status_code_str (code : Z) : list Z := assoc code status_table.

(** A connection, as far as HTTP is concerned. *)
Record conn := mkconn {
  recv : list Z;
  send : list Z;
  is_resp : bool;
  is_draining : bool;
  is_closing : bool;
  is_accepted : bool;
  is_client : bool;
  pfn : bool }.            (* the protocol handler is still attached *)

Definition set_recv (c : conn) (r : list Z) : conn :=
  mkconn r (send c) (is_resp c) (is_draining c) (is_closing c) (is_accepted c) (is_client c) (pfn c).
Definition set_send (c : conn) (s : list Z) : conn :=
  mkconn (recv c) s (is_resp c) (is_draining c) (is_closing c) (is_accepted c) (is_client c) (pfn c).
Definition set_resp (c : conn) (b : bool) : conn :=
  mkconn (recv c) (send c) b (is_draining c) (is_closing c) (is_accepted c) (is_client c) (pfn c).
Definition set_draining (c : conn) : conn :=
  mkconn (recv c) (send c) (is_resp c) true (is_closing c) (is_accepted c) (is_client c) (pfn c).
Definition set_closing (c : conn) : conn :=
  mkconn (recv c) (send c) (is_resp c) (is_draining c) true (is_accepted c) (is_client c) (pfn c).
Definition detach (c : conn) : conn :=
  mkconn (recv c) (send c) (is_resp c) (is_draining c) (is_closing c) (is_accepted c) (is_client c) false.

Definition cstring_arg (s : list Z) : arg := AStr (Some (s ++ [0])).

(** [mg_printf] appends to the send buffer. *)
Definition mg_printf (pm : Z -> va_list -> option (list Z * va_list)) (c : conn) (f : list Z) (ap : va_list)
    : option conn :=
  '(out, _) ← mg_vxprintf pm f ap; Some (set_send c (send c ++ out)).

Definition reply_fmt : list Z :=
  str:("HTTP/1.1 %d %s") ++ [13; 10] ++ str:("%sContent-Length:            ") ++ [13; 10; 13; 10].

(** [mg_http_reply]: the length is patched into the blanks once the body is known. *)
Definition mg_http_reply (pm : Z -> va_list -> option (list Z * va_list)) (c : conn) (code : Z)
    (hdrs : list Z) (f : list Z) (ap : va_list) : option conn :=
  c ← mg_printf no_pm c reply_fmt [AInt code; cstring_arg (mg_http_status_code_str code); cstring_arg hdrs];
  let len := Zlen (send c) in
  '(out, _) ← mg_vxprintf pm f ap;
  let s := send c ++ out in
  s ← (if 16 <? Zlen s then
         field ← slice s (len - 15) 11;
         '(field, n) ← mg_vsnprintf no_pm no_pmn field str:("%-10lu") [AInt (Zlen s - len)];
         s ← blit s (len - 15) field;
         wr s (len - 15 + n) chr:(" ")
       else Some s);
  Some (set_resp (set_send c s) false).

Example reply_ok :
  option_map send (mg_http_reply no_pm (mkconn [] [] true false false true false true) 200 [] str:("true%s") [cstring_arg [10]])
  = Some (str:("HTTP/1.1 200 OK") ++ [13; 10] ++ str:("Content-Length: 5          ") ++ [13; 10; 13; 10] ++ str:("true") ++ [10]).
Proof. vm_compute. reflexivity. Qed.

(** ** Chunked replies *)

Definition mg_http_vprintf_chunk (pm : Z -> va_list -> option (list Z * va_list)) (c : conn) (f : list Z)
    (ap : va_list) : option conn :=
  let len := Zlen (send c) in
  '(out, _) ← mg_vxprintf pm f ap;
  let s := send c ++ str:("        ") ++ [13; 10] ++ out in
  let last := Zlen s =? len + 10 in
  field ← slice s len 9;
  '(field, _) ← mg_vsnprintf no_pm no_pmn field str:("%08lx") [AInt (Zlen s - len - 10)];
  s ← blit s len field;
  s ← wr s (len + 8) 13;
  let c := set_send c (s ++ [13; 10]) in
  Some (if last then set_resp c false else c).

Definition mg_http_write_chunk (c : conn) (buf : list Z) : option conn :=
  c ← mg_printf no_pm c (str:("%lx") ++ [13; 10]) [AInt (Zlen buf)];
  let c := set_send c (send c ++ buf ++ [13; 10]) in
  Some (if Zlen buf =? 0 then set_resp c false else c).

(** ** The connection callback *)

Inductive mg_event :=
  | MG_EV_HTTP_HDRS (data : list Z) (hm : mg_http_message)
  | MG_EV_HTTP_MSG (data : list Z) (hm : mg_http_message)
  | MG_EV_ERROR (text : list Z).

(** Where a turn of the loop of [http_cb] leaves it. *)
Inductive turn :=
  | Again (c : conn) (ofs : Z)      (* next turn *)
  | Break (c : conn) (ofs : Z)      (* leave the loop *)
  | Return (c : conn).              (* return at once *)

(** [atoi] of newlib: blanks, sign, digits, saturation at the 32-bit limits. *)
Fixpoint atoi_digits (s : list Z) (acc : Z) : Z :=
  match s with c :: s' => if is_digit c then atoi_digits s' (acc * 10 + (c - 48)) else acc | [] => acc end.

Fixpoint atoi_skip (s : list Z) : list Z :=
  match s with c :: s' => if (c =? 32) || ((9 <=? c) && (c <=? 13)) then atoi_skip s' else s | [] => [] end.

Definition atoi (s : list Z) : Z :=
  let s := atoi_skip s in
  let v := match s with
           | c :: s' => if c =? chr:("-") then - atoi_digits s' 0
                        else if c =? chr:("+") then atoi_digits s' 0 else atoi_digits s 0
           | [] => 0
           end in
  Z.max (- 2 ^ 31) (Z.min v (2 ^ 31 - 1)).

Definition mg_http_status (b : list Z) (hm : mg_http_message) : Z := atoi (drop (Z.to_nat (at_ (uri hm))) b).

Section HttpCb.
(** The user's handler and the byte that follows the received ones in memory. *)
Context (user : mg_event -> conn -> conn) (after : Z).

Definition mg_error (c : conn) (msg : list Z) : conn := user (MG_EV_ERROR msg) (set_closing c).

(** The first pass over the chunks: the offset and result where it stops. *)
Fixpoint find_last_chunk (fuel : nat) (s : list Z) (o : Z) : option (Z * Z) :=
  match fuel with
  | O => None
  | S fuel' =>
      '(cl, _, dl) ← skip_chunk (drop (Z.to_nat o) s) after;
      if (0 <? cl) && negb (dl =? 0) then find_last_chunk fuel' s (o + cl) else Some (cl, o)
  end.

(** The second pass: strip the framing in place; the offset behind the last chunk, and the
    length of the body. *)
Fixpoint strip_chunks (fuel : nat) (s : list Z) (o blen : Z) : option (list Z * Z * Z) :=
  match fuel with
  | O => None
  | S fuel' =>
      '(cl, pl, dl) ← skip_chunk (drop (Z.to_nat o) s) after;
      if 0 <? cl then
        s ← memmove s blen (o + pl) dl;
        if dl =? 0 then Some (s, o + cl, blen + dl) else strip_chunks fuel' s (o + cl) (blen + dl)
      else Some (s, o, blen)
  end.

Definition with_lens (hm : mg_http_message) (bl ml : Z) : mg_http_message :=
  hmsg (method hm) (uri hm) (query hm) (proto hm) (headers hm) (sat (at_ (body hm)) bl) (head hm)
       (sat (at_ (message hm)) ml).

(** POST and PUT need a length, and so do most responses: the 411 reply. *)
Definition require_length (c : conn) (b : list Z) (hm : mg_http_message) (n ofs : Z) : option (conn * Z) :=
  d ← mg_ncasecmp (drop (Z.to_nat (at_ (method hm))) b) str:("HTTP/") 5;
  let is_response := d =? 0 in
  let post := negb is_response && ((mg_strcasecmp (text b (method hm)) str:("POST") =? 0)
                                   || (mg_strcasecmp (text b (method hm)) str:("PUT") =? 0)) in
  let status := mg_http_status b hm in
  let req := if post then true
             else if is_response then (200 <=? status) && negb (status =? 204) && negb (status =? 304)
             else false in
  let ofs := if post then ofs + n else ofs in
  c ← (if req && negb (is_client c) then mg_http_reply no_pm c 411 [] [] [] else Some c);
  Some (c, ofs).

(** The transfer encoding: [Some None] is the error return. *)
Definition transfer (c : conn) (b : list Z) (hm : mg_http_message) (n ofs : Z)
    : option (option (bool * conn * Z)) :=
  te ← mg_http_get_header b (headers hm) str:("Transfer-Encoding");
  match te with
  | Some v => if mg_strcasecmp (text b v) str:("chunked") =? 0 then Some (Some (true, c, ofs)) else Some None
  | None =>
      cl ← mg_http_get_header b (headers hm) str:("Content-length");
      match cl with
      | Some _ => Some (Some (false, c, ofs))
      | None => '(c, ofs) ← require_length c b hm n ofs; Some (Some (false, c, ofs))
      end
  end.

(** A complete message: report it, then honour Connection: close (looked up in the message
    as it was reported). *)
Definition deliver (c : conn) (b : list Z) (hm : mg_http_message) (ofs : Z) : option turn :=
  let c := if is_accepted c then set_resp c true else c in
  let c := user (MG_EV_HTTP_MSG b hm) c in
  if is_accepted c && negb (is_resp c) then
    cc ← mg_http_get_header b (headers hm) str:("Connection");
    match cc with
    | Some v => if mg_strcasecmp (text b v) str:("close") =? 0 then Some (Break (set_draining c) ofs)
                else Some (Again c ofs)
    | None => Some (Again c ofs)
    end
  else Some (Again c ofs).

(** One turn, for a non-empty rest at [ofs]. *)
Definition http_turn (close : bool) (c : conn) (ofs : Z) : option turn :=
  let b := drop (Z.to_nat ofs) (recv c) in
  '(n, hm) ← mg_http_parse b;
  if n <? 0 then Some (Return (set_recv (set_draining c) []))
  else if n =? 0 then Some (Break c ofs)
  else
    let old_len := Zlen (recv c) in
    let c := user (MG_EV_HTTP_HDRS b hm) c in
    if negb (Zlen (recv c) =? old_len) then Some (Return (detach c))
    else
      let b := drop (Z.to_nat ofs) (recv c) in
      let hm := if close then with_lens hm (u32 (old_len - ofs - at_ (body hm))) (old_len - ofs) else hm in
      t ← transfer c b hm n ofs;
      match t with
      | None => Some (Return (mg_error c str:("Invalid Transfer-Encoding")))
      | Some (true, c, ofs) =>
          let s := drop (Z.to_nat (ofs + n)) (recv c) in
          '(cl, o) ← find_last_chunk (S (length s)) s 0;
          if cl =? 0 then Some (Break c ofs)
          else if cl <? 0 then Some (Break (mg_error c str:("Invalid chunk")) ofs)
          else
            '(s, o, blen) ← strip_chunks (S (length s)) s 0 0;
            let c := set_recv c (take (Z.to_nat (ofs + n)) (recv c) ++ s) in
            deliver c (drop (Z.to_nat ofs) (recv c)) (with_lens hm blen (n + blen)) (ofs + n + o)
      | Some (false, c, ofs') =>
          let len := u32 (Zlen (recv c) - ofs' - n) in
          if len <? ln (body hm) then Some (Break c ofs')
          else deliver c b hm (u32 (ofs' + n + ln (body hm)))
      end.

Fixpoint http_loop (fuel : nat) (close : bool) (c : conn) (ofs : Z) : option (conn * option Z) :=
  match fuel with
  | O => None
  | S fuel' =>
      if negb (is_resp c) && (ofs <? Zlen (recv c)) then
        t ← http_turn close c ofs;
        match t with
        | Again c ofs => http_loop fuel' close c ofs
        | Break c ofs => Some (c, Some ofs)
        | Return c => Some (c, None)
        end
      else Some (c, Some ofs)
  end.

(** [mg_iobuf_del(&c->recv, 0, ofs)]. *)
Definition consume (c : conn) (ofs : Z) : conn := set_recv c (drop (Z.to_nat ofs) (recv c)).

(** [http_cb] for the events that run it: data read ([close] = false) or the close of the
    connection. *)
Definition http_cb (close : bool) (c : conn) : option conn :=
  '(c, r) ← http_loop (S (length (recv c))) close c 0;
  Some (match r with Some ofs => if 0 <? ofs then consume c ofs else c | None => c end).
End HttpCb.

(** ** Replies carry the length of their body *)

Lemma status_no_nul code : 0 ∉ mg_http_status_code_str code.
Proof.
  assert (Forall (fun kv => 0 ∉ kv.2) status_table) as H
    by (apply (bool_decide_unpack (Forall (fun kv => 0 ∉ kv.2) status_table)); vm_compute; exact I).
  unfold mg_http_status_code_str. induction H as [|[k v] l Hv _ IH]; simpl; [apply not_elem_of_nil|].
  by destruct (code =? k).
Qed.

(** The head of a reply, with the blanks for the length. *)
Definition reply_head (code : Z) (hdrs : list Z) : list Z :=
  str:("HTTP/1.1 ") ++ mg_lld (s32 code) true false ++ [32] ++ mg_http_status_code_str code ++ [13; 10]
  ++ hdrs ++ str:("Content-Length: ").

Lemma reply_head_printed code hdrs : 0 ∉ hdrs ->
  mg_vxprintf no_pm reply_fmt [AInt code; cstring_arg (mg_http_status_code_str code); cstring_arg hdrs] =
  Some (reply_head code hdrs ++ str:("           ") ++ [13; 10; 13; 10], []).
Proof.
  intros Hh. unfold reply_fmt, reply_head, cstring_arg.
  change (str:("HTTP/1.1 %d %s") ++ ?r) with (str:("HTTP/1.1 ") ++ 37 :: 100 :: [32] ++ 37 :: 115 :: r).
  rewrite vx_text by (by apply (bool_decide_unpack (37 ∉ str:("HTTP/1.1 ")))).
  rewrite vx_d, vx_text by (by apply (bool_decide_unpack (37 ∉ [32]))).
  rewrite vx_s by apply status_no_nul.
  rewrite vx_text by (by apply (bool_decide_unpack (37 ∉ [13; 10]))).
  change (str:("%sContent-Length:            ") ++ [13; 10; 13; 10])
    with (37 :: 115 :: str:("Content-Length:            ") ++ [13; 10; 13; 10] ++ []).
  rewrite vx_s by done.
  rewrite vx_text by (by apply (bool_decide_unpack (37 ∉ str:("Content-Length:            ")))).
  rewrite vx_text by (by apply (bool_decide_unpack (37 ∉ [13; 10; 13; 10]))).
  unfold put_front. rewrite vx_nil. cbn [mbind option_bind]. rewrite <- !app_assoc. done.
Qed.

(** The digits of a 32-bit number. *)
Lemma rev_digits_length n base v k : 0 <= v < base ^ Z.of_nat k -> 1 < base -> (length (rev_digits n base v) <= k)%nat.
Proof.
  intros Hv Hb. revert v k Hv. induction n as [|n IH]; intros v k Hv; simpl; [lia|].
  destruct (Z.eqb_spec v 0); simpl; [lia|]. destruct k as [|k].
  - change (base ^ Z.of_nat 0) with 1 in Hv. lia.
  - rewrite Nat2Z.inj_succ, Z.pow_succ_r in Hv by lia. apply le_n_S, IH.
    split; [apply Z.div_pos; lia|apply Z.div_lt_upper_bound; lia].
Qed.

Lemma mg_lld_length v : 0 <= v < 2 ^ 32 -> (length (mg_lld v false false) <= 10)%nat.
Proof.
  intros Hv. unfold mg_lld. cbn [andb app]. rewrite u64_small by lia. rewrite length_app, length_rev.
  destruct (Z.eqb_spec v 0) as [->|]; [simpl; lia|]. simpl length at 2.
  pose proof (rev_digits_length 64 10 v 10). lia.
Qed.

(** The field of ten characters with the length. *)
Definition length_field (n : Z) : list Z :=
  let d := mg_lld n false false in d ++ replicate (10 - length d) 32.

Lemma length_field_len n : 0 <= n < 2 ^ 32 -> Zlen (length_field n) = 10.
Proof.
  intros Hn. pose proof (mg_lld_length n Hn). unfold length_field, Zlen.
  rewrite length_app, length_replicate. lia.
Qed.

Lemma length_field_printed n : 0 <= n < 2 ^ 32 ->
  mg_vxprintf no_pm str:("%-10lu") [AInt n] = Some (length_field n, []).
Proof.
  intros Hn. rewrite (vx_conv no_pm str:("-10l") 117 [] _ (mkspec false true 32 10 NO_PREC 1 117)
    [AInt n] (length_field n) []); [|done|].
  - unfold put_front. rewrite vx_nil. cbn [mbind option_bind]. by rewrite app_nil_r.
  - unfold convert. cbn -[mg_lld scpy Zlen u32 Z.max Z.sub]. rewrite u32_small by done.
    unfold print_number. cbn [alt width pad minus]. rewrite scpy_all by apply mg_lld_no_nul.
    cbn -[mg_lld pad_count Zlen Z.max Z.sub]. change (Z.max 0 (10 - 0)) with 10. unfold length_field, pad_count, Zlen.
    do 4 f_equal. lia.
Qed.

Lemma reply_appends (pm : Z -> va_list -> option (list Z * va_list)) (c : conn) (code : Z)
  (hdrs f out : list Z) (ap ap' : va_list)
  (Hh : 0 ∉ hdrs) (Hout : mg_vxprintf pm f ap = Some (out, ap')) (Hlen : Zlen out < 2 ^ 32) :
  mg_http_reply pm c code hdrs f ap =
  Some (set_resp (set_send c (send c ++ reply_head code hdrs ++ length_field (Zlen out) ++ [32; 13; 10; 13; 10] ++ out)) false).
Proof.
  unfold mg_http_reply, mg_printf. rewrite reply_head_printed by done. cbn [mbind option_bind set_send send].
  rewrite Hout. cbn [mbind option_bind]. pose proof (Zlen_nonneg out).
  set (a := send c ++ reply_head code hdrs).
  assert (send c ++ reply_head code hdrs ++ str:("           ") ++ [13; 10; 13; 10] =
          a ++ str:("           ") ++ [13; 10; 13; 10]) as -> by (subst a; by rewrite <- app_assoc).
  assert (Zlen (a ++ str:("           ") ++ [13; 10; 13; 10]) - 15 = Zlen a) as Ha
    by (rewrite !Zlen_app; change (Zlen str:("           ")) with 11; change (Zlen [13; 10; 13; 10]) with 4; lia).
  assert (16 <= Zlen a) as H16.
  { subst a. unfold reply_head. rewrite !Zlen_app. change (Zlen str:("Content-Length: ")) with 16.
    pose proof (Zlen_nonneg (send c)). pose proof (Zlen_nonneg (mg_lld (s32 code) true false)).
    pose proof (Zlen_nonneg (mg_http_status_code_str code)). pose proof (Zlen_nonneg hdrs).
    pose proof (Zlen_nonneg str:("HTTP/1.1 ")). pose proof (Zlen_nonneg [32]). pose proof (Zlen_nonneg [13; 10]). lia. }
  rewrite Ha, <- !app_assoc.
  rewrite (proj2 (Z.ltb_lt 16 _)) by (rewrite Zlen_app; pose proof (Zlen_nonneg (str:("           ") ++ [13; 10; 13; 10] ++ out));
    rewrite !Zlen_app in *; change (Zlen str:("           ")) with 11 in *; lia).
  change (str:("           ") ++ [13; 10; 13; 10] ++ out) with (str:("           ") ++ ([13; 10; 13; 10] ++ out)).
  assert (slice (a ++ str:("           ") ++ ([13; 10; 13; 10] ++ out)) (Zlen a) 11 = Some str:("           ")) as ->.
  { rewrite slice_Some; [|lia|lia|rewrite !Zlen_app; change (Zlen str:("           ")) with 11;
      pose proof (Zlen_nonneg [13; 10; 13; 10]); lia].
    f_equal. rewrite drop_prefix by done. by rewrite take_prefix. }
  cbn [mbind option_bind].
  replace (Zlen (a ++ str:("           ") ++ [13; 10; 13; 10] ++ out) - Zlen (a ++ str:("           ") ++ [13; 10; 13; 10]))
    with (Zlen out) by (rewrite !Zlen_app; lia).
  rewrite (vsnprintf_stores no_pm no_pmn _ _ _ (length_field (Zlen out)) []) by
    (done || (by apply no_pm_reports) || (by apply length_field_printed) || (rewrite length_field_len by lia; lia)).
  cbn [mbind option_bind]. unfold stored. pose proof (length_field_len (Zlen out) ltac:(lia)) as H10.
  assert (length (length_field (Zlen out)) = 10%nat) as H10n by (apply Nat2Z.inj; exact H10).
  rewrite H10n. cbn [length Nat.min Nat.sub drop]. rewrite take_ge by lia.
  rewrite blit_gap by (rewrite Zlen_app, H10; done). cbn [mbind option_bind].
  rewrite <- app_assoc.
  replace (Zlen a + Zlen (length_field (Zlen out))) with (Zlen (a ++ length_field (Zlen out))) by (by rewrite Zlen_app).
  cbn [app]. rewrite (app_assoc a (length_field _)), wr_here. cbn [mbind option_bind]. subst a.
  do 3 f_equal. by rewrite <- !app_assoc.
Qed.

(** Every reply announces the length of its body: whatever was queued before, for any
    status code, header text and body, [mg_http_reply] appends the status line with the
    reason phrase of the code, the headers, a Content-Length field with the decimal length
    of the body padded by blanks to its fixed width, the empty line and the body, and marks
    the response as finished; the field is patched inside the bytes just queued. *)
Theorem reply_exact (pm : Z -> va_list -> option (list Z * va_list)) (c : conn) (code : Z)
  (hdrs f out : list Z) (ap ap' : va_list)
  (Hh : 0 ∉ hdrs) (Hout : mg_vxprintf pm f ap = Some (out, ap')) (Hlen : Zlen out < 2 ^ 32) :
  mg_http_reply pm c code hdrs f ap =
  Some (set_resp (set_send c (send c ++ reply_head code hdrs ++ length_field (Zlen out) ++ [32; 13; 10; 13; 10] ++ out)) false).
Proof. by apply (reply_appends pm c code hdrs f out ap ap'). Qed.

Lemma reply_exact_witness :
  mg_http_reply no_pm (mkconn [] [7] true false false true false true) 404 [] str:("no %d") [AInt 5] =
  Some (mkconn [] ([7] ++ str:("HTTP/1.1 404 Not Found") ++ [13; 10] ++ str:("Content-Length: 4          ") ++ [13; 10; 13; 10]
    ++ str:("no 5")) false false false true false true).
Proof.
  refine (eq_trans (reply_exact no_pm (mkconn [] [7] true false false true false true) 404 [] str:("no %d") str:("no 5")
    [AInt 5] [] _ _ _) _); [apply not_elem_of_nil|vm_compute; reflexivity|vm_compute; reflexivity|vm_compute; reflexivity].
Defined.

(** ** Chunked bodies are put together again *)

(** A chunk: the digits of its size and its data. *)
Definition chunk (hd : list Z * list Z) : list Z := hd.1 ++ [13; 10] ++ hd.2 ++ [13; 10].

Definition chunk_ok (hd : list Z * list Z) : Prop :=
  forallb isx hd.1 = true /\ 1 <= Zlen hd.1 <= 8 /\ mg_str_to_num hd.1 16 4 = Some (Zlen hd.2) /\ Zlen hd.2 < 2 ^ 31.

(** The chunks of a body and the last, empty one. *)
Definition chunked (cs : list (list Z * list Z)) (h0 : list Z) : list Z :=
  concat (map chunk cs) ++ chunk (h0, []).

Definition bodies (cs : list (list Z * list Z)) : list Z := concat (map snd cs).

Lemma chunk_len x : Zlen (chunk x) = Zlen x.1 + Zlen x.2 + 4.
Proof. unfold chunk. rewrite !Zlen_app. change (Zlen [13; 10]) with 2. lia. Qed.

Lemma skip_chunk_at (pre : list Z) x rest after : chunk_ok x ->
  skip_chunk (drop (Z.to_nat (Zlen pre)) (pre ++ chunk x ++ rest)) after =
  Some (Zlen (chunk x), Zlen x.1 + 2, Zlen x.2).
Proof.
  intros (Hh & Hl & Hv & H31). rewrite drop_prefix by done. unfold chunk at 1. rewrite <- !app_assoc.
  rewrite (skip_chunk_exact x.1 x.2 rest (Zlen x.2) after) by done. by rewrite chunk_len.
Qed.

Lemma find_last_chunk_spec cs : forall fuel pre h0 rest after, (length cs < fuel)%nat ->
  Forall (fun x => chunk_ok x /\ x.2 <> []) cs -> chunk_ok (h0, []) ->
  find_last_chunk after fuel (pre ++ chunked cs h0 ++ rest) (Zlen pre) =
  Some (Zlen (chunk (h0, [])), Zlen pre + Zlen (concat (map chunk cs))).
Proof.
  induction cs as [|x cs IH]; intros [|fuel] pre h0 rest after Hf Hcs H0; simpl in Hf; [lia..| |lia|].
  - unfold chunked. cbn [find_last_chunk map concat app]. rewrite skip_chunk_at by done. cbn [mbind option_bind].
    change (Zlen (h0, @nil Z).2) with 0. rewrite andb_false_r. change (Zlen (@nil Z)) with 0. by rewrite Z.add_0_r.
  - apply Forall_cons in Hcs as [[Hx Hne] Hcs]. unfold chunked. cbn [find_last_chunk map concat]. rewrite <- !app_assoc.
    rewrite skip_chunk_at by done. cbn [mbind option_bind]. destruct Hx as (_ & Hl & _).
    pose proof (chunk_len x). pose proof (Zlen_nonneg x.2). rewrite (proj2 (Z.ltb_lt 0 _)) by lia.
    assert (Zlen x.2 <> 0) as Hz by (destruct x.2; [done|rewrite Zlen_cons; pose proof (Zlen_nonneg l); lia]).
    rewrite (proj2 (Z.eqb_neq _ 0)) by done. cbn [andb negb].
    specialize (IH fuel (pre ++ chunk x) h0 rest after ltac:(lia) Hcs H0). unfold chunked in IH.
    rewrite <- !app_assoc, Zlen_app in IH. rewrite IH. rewrite Zlen_app. do 2 f_equal. lia.
Qed.

(** Moving the data of a chunk down leaves what follows the chunk in place. *)
Lemma move_chunk a junk x rest :
  exists junk', memmove (a ++ junk ++ chunk x ++ rest) (Zlen a) (Zlen (a ++ junk) + (Zlen x.1 + 2)) (Zlen x.2)
    = Some ((a ++ x.2) ++ junk' ++ rest) /\ Zlen ((a ++ x.2) ++ junk') = Zlen (a ++ junk ++ chunk x).
Proof.
  unfold memmove, chunk. pose proof (Zlen_nonneg a). pose proof (Zlen_nonneg junk). pose proof (Zlen_nonneg x.1).
  pose proof (Zlen_nonneg x.2). pose proof (Zlen_nonneg rest).
  assert (a ++ junk ++ (x.1 ++ [13; 10] ++ x.2 ++ [13; 10]) ++ rest =
          (a ++ junk ++ x.1 ++ [13; 10]) ++ x.2 ++ ([13; 10] ++ rest)) as E by (by rewrite <- !app_assoc).
  rewrite E. rewrite slice_Some; [|rewrite Zlen_app; lia|done|rewrite !Zlen_app; change (Zlen [13; 10]) with 2; lia].
  replace (Zlen (a ++ junk) + (Zlen x.1 + 2)) with (Zlen (a ++ junk ++ x.1 ++ [13; 10]))
    by (rewrite !Zlen_app; change (Zlen [13; 10]) with 2; lia).
  rewrite drop_prefix, take_prefix by done. cbn [mbind option_bind].
  rewrite <- E. rewrite <- !app_assoc. set (tl := junk ++ x.1 ++ [13; 10] ++ x.2 ++ [13; 10]).
  assert (junk ++ x.1 ++ [13; 10] ++ x.2 ++ [13; 10] ++ rest = tl ++ rest) as -> by (subst tl; by rewrite <- !app_assoc).
  assert (Zlen x.2 <= Zlen tl) as Hle by (subst tl; rewrite !Zlen_app; change (Zlen [13; 10]) with 2; lia).
  rewrite blit_Some; [|done|rewrite !Zlen_app; lia]. rewrite take_prefix by done.
  exists (drop (length x.2) tl). split.
  - f_equal. rewrite <- app_assoc. do 2 f_equal. replace (Z.to_nat (Zlen a + Zlen x.2)) with (length a + length x.2)%nat
      by (unfold Zlen; lia). rewrite <- drop_drop, drop_app_length. apply drop_app_le. unfold Zlen in Hle. lia.
  - rewrite !Zlen_app. unfold Zlen at 3. rewrite length_drop. unfold Zlen in *. lia.
Qed.

Lemma strip_chunks_spec cs : forall fuel a junk h0 rest after, (length cs < fuel)%nat ->
  Forall (fun x => chunk_ok x /\ x.2 <> []) cs -> chunk_ok (h0, []) ->
  exists junk', strip_chunks after fuel (a ++ junk ++ chunked cs h0 ++ rest) (Zlen (a ++ junk)) (Zlen a) =
    Some ((a ++ bodies cs) ++ junk' ++ rest, Zlen (a ++ junk ++ chunked cs h0), Zlen (a ++ bodies cs)) /\
    Zlen ((a ++ bodies cs) ++ junk') = Zlen (a ++ junk ++ chunked cs h0).
Proof.
  induction cs as [|x cs IH]; intros [|fuel] a junk h0 rest after Hf Hcs H0; simpl in Hf; [lia..| |lia|].
  - unfold chunked. cbn [strip_chunks map concat app]. pose proof (skip_chunk_at (a ++ junk) (h0, []) rest after H0) as Hs.
    rewrite <- app_assoc in Hs. rewrite Hs. cbn [mbind option_bind]. destruct H0 as (_ & Hl & _). cbn [fst] in Hl.
    pose proof (chunk_len (h0, [])) as Hc. cbn [fst snd] in Hc. change (Zlen (@nil Z)) with 0 in Hc.
    rewrite (proj2 (Z.ltb_lt 0 _)) by lia.
    destruct (move_chunk a junk (h0, []) rest) as (junk' & Hm & Hlen). cbn [fst snd] in Hm, Hlen |- *.
    rewrite Hm. cbn [mbind option_bind]. exists junk'. change (bodies []) with (@nil Z). rewrite app_nil_r in *.
    split; [|done]. change (Zlen (@nil Z) =? 0) with true. cbn [mbind option_bind]. rewrite !Zlen_app, Z.add_0_r.
    do 3 f_equal. lia.
  - apply Forall_cons in Hcs as [[Hx Hne] Hcs]. unfold chunked. cbn [strip_chunks map concat]. rewrite <- !app_assoc.
    pose proof (skip_chunk_at (a ++ junk) x (concat (map chunk cs) ++ chunk (h0, []) ++ rest) after Hx) as Hs.
    rewrite <- app_assoc in Hs. rewrite Hs. cbn [mbind option_bind]. destruct Hx as (_ & Hl & _).
    pose proof (chunk_len x) as Hc. pose proof (Zlen_nonneg x.2). rewrite (proj2 (Z.ltb_lt 0 _)) by lia.
    destruct (move_chunk a junk x (concat (map chunk cs) ++ chunk (h0, []) ++ rest)) as (junk1 & -> & Hlen).
    cbn [mbind option_bind].
    assert (Zlen x.2 <> 0) as Hz by (destruct x.2; [done|rewrite Zlen_cons; pose proof (Zlen_nonneg l); lia]).
    rewrite (proj2 (Z.eqb_neq _ 0)) by done.
    destruct (IH fuel (a ++ x.2) junk1 h0 rest after ltac:(lia) Hcs H0) as (junk' & Hr & Hlen'). unfold chunked in Hr, Hlen'.
    replace (Zlen (a ++ junk) + Zlen (chunk x)) with (Zlen ((a ++ x.2) ++ junk1))
      by (rewrite Hlen, !Zlen_app; lia).
    replace (Zlen a + Zlen x.2) with (Zlen (a ++ x.2)) by (by rewrite Zlen_app).
    rewrite <- !app_assoc in Hr.
    rewrite <- !app_assoc. rewrite Hr. exists junk'. change (bodies (x :: cs)) with (x.2 ++ bodies cs).
    rewrite <- !app_assoc in *. rewrite !Zlen_app in *. split; [|lia]. do 3 f_equal; lia.
Qed.

(** ** One message at a time *)

Lemma chunked_length cs h0 : (length cs <= length (chunked cs h0))%nat.
Proof.
  unfold chunked. rewrite length_app. enough (length cs <= length (concat (map chunk cs)))%nat by lia.
  induction cs as [|x cs IH]; simpl; [lia|]. rewrite length_app. pose proof (chunk_len x) as H.
  pose proof (Zlen_nonneg x.1). pose proof (Zlen_nonneg x.2). unfold Zlen in *. lia.
Qed.

Section Framing.
Context (user : mg_event -> conn -> conn) (after : Z).

(** A handler that leaves the received bytes alone and answers a message later. *)
Definition deferring : Prop :=
  forall ev c, recv (user ev c) = recv c /\ is_accepted (user ev c) = is_accepted c /\
    is_resp (user ev c) = is_resp c.

Context (Hu : deferring).

Lemma deliver_deferred c b hm ofs : is_accepted c = true ->
  deliver user c b hm ofs = Some (Again (user (MG_EV_HTTP_MSG b hm) (set_resp c true)) ofs).
Proof.
  intros Ha. unfold deliver. rewrite Ha. destruct (Hu (MG_EV_HTTP_MSG b hm) (set_resp c true)) as (_ & _ & ->).
  cbn [is_resp set_resp negb]. by rewrite andb_false_r.
Qed.

Lemma deferred_resp ev c : is_resp (user ev (set_resp c true)) = true.
Proof. by destruct (Hu ev (set_resp c true)) as (_ & _ & ->). Qed.

(** The loop after one delivered message: the response is pending. *)
Lemma loop_after_delivery fuel close c c' ofs ofs' : is_resp c = false -> 0 <= ofs < Zlen (recv c) ->
  http_turn user after close c ofs = Some (Again c' ofs') -> is_resp c' = true ->
  http_loop user after (S (S fuel)) close c ofs = Some (c', Some ofs').
Proof.
  intros Hr Ho Ht Hr'. cbn [http_loop]. rewrite Hr. rewrite (proj2 (Z.ltb_lt _ _)) by lia. cbn [andb negb].
  rewrite Ht. cbn [mbind option_bind]. by rewrite Hr'.
Qed.

Lemma loop_break fuel close c c' ofs ofs' : is_resp c = false -> 0 <= ofs < Zlen (recv c) ->
  http_turn user after close c ofs = Some (Break c' ofs') ->
  http_loop user after (S fuel) close c ofs = Some (c', Some ofs').
Proof.
  intros Hr Ho Ht. cbn [http_loop]. rewrite Hr. rewrite (proj2 (Z.ltb_lt _ _)) by lia. cbn [andb negb].
  by rewrite Ht.
Qed.

(** Up to the transfer encoding, a turn at the start of the buffer. *)
Lemma turn_head c n hm : is_resp c = false -> Zlen (recv c) < 2 ^ 31 -> mg_http_parse (recv c) = Some (n, hm) -> 0 < n ->
  let c1 := user (MG_EV_HTTP_HDRS (recv c) hm) c in
  0 < n <= Zlen (recv c) /\ recv c1 = recv c /\
  http_turn user after false c 0 =
    t ← transfer c1 (recv c) hm n 0;
    match t with
    | None => Some (Return (mg_error user c1 str:("Invalid Transfer-Encoding")))
    | Some (true, c, ofs) =>
        let s := drop (Z.to_nat (ofs + n)) (recv c) in
        '(cl, o) ← find_last_chunk after (S (length s)) s 0;
        if cl =? 0 then Some (Break c ofs)
        else if cl <? 0 then Some (Break (mg_error user c str:("Invalid chunk")) ofs)
        else
          '(s, o, blen) ← strip_chunks after (S (length s)) s 0 0;
          let c := set_recv c (take (Z.to_nat (ofs + n)) (recv c) ++ s) in
          deliver user c (drop (Z.to_nat ofs) (recv c)) (with_lens hm blen (n + blen)) (ofs + n + o)
    | Some (false, c, ofs') =>
        let len := u32 (Zlen (recv c) - ofs' - n) in
        if len <? ln (Http.body hm) then Some (Break c ofs')
        else deliver user c (recv c1) hm (u32 (ofs' + n + ln (Http.body hm)))
    end.
Proof.
  intros Hr Hb Hp Hn. cbv zeta. destruct (parse_safe (recv c) Hb) as (r & hm' & Hp' & Hrange & _).
  rewrite Hp in Hp'. injection Hp' as <- <-. destruct (Hu (MG_EV_HTTP_HDRS (recv c) hm) c) as (Hrecv & _ & _).
  split; [lia|]. split; [done|]. unfold http_turn. change (Z.to_nat 0) with O. rewrite drop_0, Hp. cbn [mbind option_bind].
  rewrite (proj2 (Z.ltb_ge n 0)), (proj2 (Z.eqb_neq n 0)) by lia. rewrite Hrecv, Z.eqb_refl. cbn [negb].
  change (Z.to_nat 0) with O. by rewrite drop_0.
Qed.

(** Chunked messages.  When the buffer holds a head with Transfer-Encoding: chunked and a
    complete sequence of chunks (any number of data chunks with sizes in one to eight
    hexadecimal digits, then an empty one), [http_cb] reports one message whose body is
    the concatenation of the chunk data, put together in place behind the head, and
    consumes exactly the head and the chunks: what follows stays in the buffer. *)
Theorem http_cb_chunked (c : conn) (n : Z) (hm : mg_http_message) (v : str_at)
  (h h0 rest : list Z) (cs : list (list Z * list Z))
  (Ha : is_accepted c = true) (Hr : is_resp c = false) (Hb : Zlen (recv c) < 2 ^ 31)
  (Hp : mg_http_parse (recv c) = Some (n, hm)) (Hn : 0 < n)
  (Hte : mg_http_get_header (recv c) (Http.headers hm) str:("Transfer-Encoding") = Some (Some v))
  (Hv : mg_strcasecmp (text (recv c) v) str:("chunked") = 0)
  (Hc : recv c = h ++ chunked cs h0 ++ rest) (Hh : Zlen h = n)
  (Hcs : Forall (fun x => chunk_ok x /\ x.2 <> []) cs) (H0 : chunk_ok (h0, [])) :
  let c1 := user (MG_EV_HTTP_HDRS (recv c) hm) c in
  exists junk, let r := h ++ bodies cs ++ junk ++ rest in
  http_cb user after false c =
  Some (consume (user (MG_EV_HTTP_MSG r (with_lens hm (Zlen (bodies cs)) (n + Zlen (bodies cs))))
                      (set_resp (set_recv c1 r) true)) (Zlen h + Zlen (chunked cs h0))) /\
  drop (Z.to_nat (Zlen h + Zlen (chunked cs h0))) r = rest.
Proof.
  destruct (turn_head c n hm Hr Hb Hp Hn) as (Hn' & Hrecv & Ht). cbv zeta.
  destruct (Hu (MG_EV_HTTP_HDRS (recv c) hm) c) as (_ & Hacc & _).
  set (c1 := user (MG_EV_HTTP_HDRS (recv c) hm) c) in *.
  unfold transfer in Ht. rewrite Hte in Ht. cbn [mbind option_bind] in Ht. rewrite Hv in Ht. cbn [Z.eqb mbind option_bind] in Ht.
  cbv zeta in Ht. rewrite Hrecv, Z.add_0_l in Ht.
  rewrite Hc in Ht. rewrite !drop_prefix, !take_prefix in Ht by done.
  assert (length cs < S (length (chunked cs h0 ++ rest)))%nat as Hf
    by (pose proof (chunked_length cs h0); rewrite length_app; lia).
  rewrite (find_last_chunk_spec cs _ [] h0 rest after Hf Hcs H0 : find_last_chunk _ _ (chunked cs h0 ++ rest) 0 = _) in Ht.
  cbn [mbind option_bind] in Ht. pose proof (chunk_len (h0, [])) as Hc0. destruct (H0) as (_ & Hl0 & _). cbn [fst snd] in *.
  change (Zlen (@nil Z)) with 0 in Hc0. rewrite (proj2 (Z.eqb_neq _ 0)), (proj2 (Z.ltb_ge _ 0)) in Ht by lia.
  destruct (strip_chunks_spec cs _ [] [] h0 rest after Hf Hcs H0) as (junk & Hs & Hlen).
  cbn [app] in Hs, Hlen. change (Zlen (@nil Z)) with 0 in Hs. rewrite Hs in Ht. cbn [mbind option_bind] in Ht.
  rewrite deliver_deferred in Ht by (cbn [is_accepted set_recv]; congruence).
  cbn [recv set_recv] in Ht. change (Z.to_nat 0) with O in Ht. rewrite drop_0 in Ht.
  exists junk. rewrite Hh. split.
  - unfold http_cb. destruct (length (recv c)) as [|k] eqn:Ek; [unfold Zlen in Hn'; lia|].
    rewrite (loop_after_delivery _ false c _ 0 _ Hr ltac:(lia) Ht); [|by apply deferred_resp].
    cbn [mbind option_bind]. pose proof (Zlen_nonneg (chunked cs h0)). by rewrite (proj2 (Z.ltb_lt 0 _)) by lia.
  - rewrite <- Hlen, <- Hh, <- Zlen_app.
    replace (h ++ bodies cs ++ junk ++ rest) with ((h ++ bodies cs ++ junk) ++ rest) by (by rewrite <- !app_assoc).
    by apply drop_prefix.
Qed.
End Framing.


(** ** Pipelined messages *)

Definition header (b : list Z) (hm : mg_http_message) (name : list Z) : option (option str_at) :=
  mg_http_get_header b (Http.headers hm) name.

(** [b] starts with a head that parses, with a Content-Length and no Transfer-Encoding. *)
Record plain (b : list Z) (n : Z) (hm : mg_http_message) : Prop := {
  p_parse : mg_http_parse b = Some (n, hm);
  p_head : 0 < n;
  p_te : header b hm str:("Transfer-Encoding") = Some None;
  p_cl : exists v, header b hm str:("Content-length") = Some (Some v);
  p_body : 0 <= ln (Http.body hm) }.

(** It asks for the connection to be closed after the response. *)
Definition closes (b : list Z) (hm : mg_http_message) : bool :=
  match header b hm str:("Connection") with
  | Some (Some v) => mg_strcasecmp (text b v) str:("close") =? 0
  | _ => false
  end.

(** Complete messages one behind the other, with their sizes, and the rest. *)
Inductive pipeline : list Z -> list (list Z * mg_http_message * Z) -> list Z -> Prop :=
  | pl_end b : pipeline b [] b
  | pl_msg b n hm l r : plain b n hm -> n + ln (Http.body hm) <= Zlen b ->
      pipeline (drop (Z.to_nat (n + ln (Http.body hm))) b) l r -> pipeline b ((b, hm, n + ln (Http.body hm)) :: l) r.

(** The rest is empty, or a head that is not complete, or a head whose body has not arrived in full. *)
Definition unfinished (r : list Z) : Prop :=
  r = [] \/ (exists hm, mg_http_parse r = Some (0, hm)) \/ (exists n hm, plain r n hm /\ Zlen r < n + ln (Http.body hm)).

Section Pipeline.
Context (user : mg_event -> conn -> conn) (after : Z).

(** The reports for one message, as the handler sees them. *)
Definition report (b : list Z) (hm hm' : mg_http_message) (c : conn) : conn :=
  user (MG_EV_HTTP_MSG b hm') (set_resp (user (MG_EV_HTTP_HDRS b hm) c) true).

(** The messages in their order, until one is left for a later response or asks for the connection to be
    closed: the connection, the bytes used up, and whether the rest is looked at. *)
Fixpoint serve (c : conn) (l : list (list Z * mg_http_message * Z)) (ofs : Z) : conn * Z * bool :=
  match l with
  | [] => (c, ofs, true)
  | (b, hm, size) :: l =>
      let c := report b hm hm c in
      if is_resp c then (c, ofs + size, false)
      else if closes b hm then (set_draining c, ofs + size, false)
      else serve c l (ofs + size)
  end.

(** What is reported of the rest: its headers, when they are complete. *)
Definition peek (c : conn) (r : list Z) : conn :=
  match r, mg_http_parse r with
  | _ :: _, Some (n, hm) => if 0 <? n then user (MG_EV_HTTP_HDRS r hm) c else c
  | _, _ => c
  end.

(** A handler that leaves the received bytes alone; it may answer at once or later. *)
Context (Hk : forall ev c, recv (user ev c) = recv c /\ is_accepted (user ev c) = is_accepted c).

Lemma report_keeps b hm hm' c : recv (report b hm hm' c) = recv c /\ is_accepted (report b hm hm' c) = is_accepted c.
Proof.
  unfold report. destruct (Hk (MG_EV_HTTP_MSG b hm') (set_resp (user (MG_EV_HTTP_HDRS b hm) c) true)) as [-> ->].
  cbn. apply Hk.
Qed.

Lemma header_total b n hm name : Zlen b < 2 ^ 31 -> plain b n hm -> is_Some (header b hm name).
Proof.
  intros Hb [Hp Hn _ _ _]. destruct (parse_safe b Hb) as (r & hm' & E & Hr & Hok). rewrite Hp in E. injection E as <- <-.
  destruct (Hok Hn) as ((_ & _ & _ & _ & Hh & _) & _). destruct (get_header_safe b n ltac:(lia) name (Http.headers hm) Hh) as (x & E & _).
  unfold header. rewrite E. by eexists.
Qed.

(** A turn at a plain message, before its size is looked at. *)
Lemma turn_plain (close : bool) c ofs n hm : 0 <= ofs -> Zlen (recv c) < 2 ^ 31 -> plain (drop (Z.to_nat ofs) (recv c)) n hm ->
  let b := drop (Z.to_nat ofs) (recv c) in
  let c1 := user (MG_EV_HTTP_HDRS b hm) c in
  let hm' := if close then with_lens hm (Zlen b - n) (Zlen b) else hm in
  ofs + n <= Zlen (recv c) /\ Zlen b = Zlen (recv c) - ofs /\
  http_turn user after close c ofs =
    if Zlen b <? n + ln (Http.body hm') then Some (Break c1 ofs) else deliver user c1 b hm' (u32 (ofs + n + ln (Http.body hm'))).
Proof.
  intros Ho Hb Hpl b c1 hm'. pose proof Hpl as [Hp Hn Hte [v Hcl] Hbody]. fold b in Hp, Hte, Hcl.
  destruct (parse_safe b) as (r & hm2 & E & Hr & Hok).
  { unfold b, Zlen in *. rewrite length_drop. lia. }
  rewrite Hp in E. injection E as <- <-. destruct (Hok Hn) as (_ & _ & _ & Hat & _).
  assert (Zlen b = Zlen (recv c) - ofs) as Lb by (unfold b, Zlen in *; rewrite length_drop in *; lia).
  split; [lia|]. split; [done|]. unfold http_turn. fold b. rewrite Hp. cbn [mbind option_bind].
  rewrite (proj2 (Z.ltb_ge n 0)), (proj2 (Z.eqb_neq n 0)) by lia. fold c1.
  destruct (Hk (MG_EV_HTTP_HDRS b hm) c) as [Hrecv _]. fold c1 in Hrecv. rewrite Hrecv, Z.eqb_refl. cbn [negb]. fold b.
  assert ((if close then with_lens hm (u32 (Zlen (recv c) - ofs - at_ (Http.body hm))) (Zlen (recv c) - ofs) else hm) = hm') as ->.
  { unfold hm'. destruct close; [|done]. rewrite Hat, u32_small by lia. by rewrite Lb. }
  assert (Http.headers hm' = Http.headers hm) as Eh by (unfold hm'; by destruct close).
  unfold transfer, header in *. rewrite Eh, Hte. cbn [mbind option_bind]. rewrite Hcl. cbn [mbind option_bind].
  rewrite Hrecv, u32_small by lia. replace (Zlen (recv c) - ofs - n <? ln (Http.body hm')) with (Zlen b <? n + ln (Http.body hm')); [done|].
  destruct (Z.ltb_spec (Zlen b) (n + ln (Http.body hm'))), (Z.ltb_spec (Zlen (recv c) - ofs - n) (ln (Http.body hm'))); lia.
Qed.

Lemma deliver_report c b n hm hm' ofs : is_accepted c = true -> plain b n hm -> Zlen b < 2 ^ 31 -> Http.headers hm' = Http.headers hm ->
  let c2 := report b hm hm' c in
  deliver user (user (MG_EV_HTTP_HDRS b hm) c) b hm' ofs =
    Some (if is_resp c2 then Again c2 ofs else if closes b hm then Break (set_draining c2) ofs else Again c2 ofs).
Proof.
  intros Ha Hpl Hb Eh c2. unfold deliver. destruct (Hk (MG_EV_HTTP_HDRS b hm) c) as [_ Hacc]. rewrite Hacc, Ha.
  fold (report b hm hm' c). fold c2. destruct (report_keeps b hm hm' c) as [_ Hacc2]. fold c2 in Hacc2. rewrite Hacc2, Ha. cbn [andb].
  destruct (is_resp c2); cbn [negb]; [done|]. destruct (header_total b n hm str:("Connection") Hb Hpl) as [cc E].
  unfold header in E. unfold closes, header. rewrite Eh, E. cbn [mbind option_bind]. destruct cc as [v|]; [|done]. by destruct (_ =? 0).
Qed.

Lemma loop_pipeline b l r : pipeline b l r -> unfinished r -> forall fuel c ofs, 0 <= ofs -> b = drop (Z.to_nat ofs) (recv c) ->
  ofs <= Zlen (recv c) -> Zlen (recv c) < 2 ^ 31 -> is_accepted c = true -> is_resp c = false -> (length b < fuel)%nat ->
  let '(c', k, more) := serve c l ofs in
  http_loop user after fuel false c ofs = Some (if more then peek c' r else c', Some k) /\ recv c' = recv c /\ 0 <= k <= Zlen (recv c) /\
  (more = true -> Zlen r = Zlen (recv c) - k).
Proof.
  intros Hpl Hun. induction Hpl as [b|b n hm l r Hp Hsz Hpl IH]; intros fuel c ofs Ho Eb Hle Hb Ha Hr Hf; (destruct fuel as [|fuel]; [lia|]).
  - cbn [serve http_loop]. rewrite Hr. cbn [negb andb].
    assert (Zlen b = Zlen (recv c) - ofs) as Lb by (subst b; unfold Zlen in *; rewrite length_drop; lia).
    split; [|split_and!; try done; lia]. destruct (Z.ltb_spec ofs (Zlen (recv c))) as [Hlt|Hge].
    + assert (b <> []) as Hne by (intros ->; change (Zlen (@nil Z)) with 0 in Lb; lia).
      assert (forall c', peek c' b = match mg_http_parse b with Some (n, hm) => if 0 <? n then user (MG_EV_HTTP_HDRS b hm) c' else c' | None => c' end) as Hpk
        by (by destruct b).
      destruct Hun as [->|[[hm Hz]|(n & hm & Hp & Hlt2)]]; [done| |].
      * unfold http_turn. rewrite <- Eb, Hz. cbn. by rewrite Hpk, Hz.
      * rewrite Eb in Hp. destruct (turn_plain false c ofs n hm Ho Hb Hp) as (_ & _ & Ht). rewrite <- Eb in Ht. rewrite Ht.
        rewrite (proj2 (Z.ltb_lt _ _)) by done. cbn [mbind option_bind]. rewrite <- Eb in Hp. rewrite Hpk, (p_parse _ _ _ Hp).
        rewrite (proj2 (Z.ltb_lt 0 n)) by apply Hp. done.
    + replace b with (@nil Z) by (destruct b; [done|rewrite Zlen_cons in Lb; pose proof (Zlen_nonneg b); lia]). done.
  - cbn [serve]. set (size := n + ln (Http.body hm)) in *. set (c2 := report b hm hm c).
    destruct (report_keeps b hm hm c) as [Hrv Hac]. fold c2 in Hrv, Hac. rewrite Eb in Hp.
    destruct (turn_plain false c ofs n hm Ho Hb Hp) as (Hn & Lb & Ht). rewrite <- Eb in Hp, Ht, Lb.
    pose proof (p_head _ _ _ Hp) as Hn0. pose proof (p_body _ _ _ Hp) as Hb0. cbv zeta in Ht. fold size in Ht.
    rewrite (proj2 (Z.ltb_ge (Zlen b) size)) in Ht by done. rewrite (u32_small (ofs + n + _)) in Ht by (unfold size in *; lia).
    rewrite (deliver_report c b n hm hm _ Ha Hp) in Ht by (done || lia). fold c2 in Ht.
    replace (ofs + n + ln (Http.body hm)) with (ofs + size) in Ht by (unfold size; lia).
    cbn [http_loop]. rewrite Hr. rewrite (proj2 (Z.ltb_lt ofs _)) by lia. cbn [negb andb]. rewrite Ht. cbn [mbind option_bind].
    destruct (is_resp c2) eqn:Er; [|destruct (closes b hm)].
    + split; [|split_and!; try done; unfold size in *; lia]. destruct fuel as [|fuel]; [exfalso; unfold Zlen in *; lia|]. cbn [http_loop]. by rewrite Er.
    + split; [done|]. split_and!; try done; unfold size in *; lia.
    + specialize (IH Hun fuel c2 (ofs + size)).
      assert (drop (Z.to_nat size) b = drop (Z.to_nat (ofs + size)) (recv c2)) as Ed.
      { rewrite Hrv, Eb, drop_drop. f_equal. unfold size in *. lia. }
      specialize (IH ltac:(unfold size in *; lia) Ed ltac:(rewrite Hrv; lia) ltac:(by rewrite Hrv) ltac:(by rewrite Hac) Er).
      rewrite length_drop in IH. specialize (IH ltac:(unfold size, Zlen in *; lia)).
      destruct (serve c2 l (ofs + size)) as [[c' k] more]. by rewrite Hrv in IH.
Qed.

Lemma consume_0 c : consume c 0 = c.
Proof. by destruct c. Qed.

(** C31: Framing of messages with a Content-Length.  On data or a poll: when the received bytes are any number of
    complete messages with a Content-Length followed by an unfinished one, [http_cb] reports them in
    their order, each with its headers and then once as a whole, until the handler leaves a response for
    later or a message asks for the connection to be closed; of the rest only the headers are reported, if
    they have arrived; and exactly the messages reported as a whole leave the buffer.  On the close of the
    connection the first message is reported with all bytes that have arrived as its body, whatever length it
    announced, and everything leaves the buffer.  The handler may answer at once or later but leaves the received
    bytes alone. *)
Theorem http_cb_frames (c : conn) (Ha : is_accepted c = true) (Hr : is_resp c = false) (Hb : Zlen (recv c) < 2 ^ 31) :
  (forall l r, pipeline (recv c) l r -> unfinished r ->
     let '(c', k, more) := serve c l 0 in
     http_cb user after false c = Some (consume (if more then peek c' r else c') k) /\ (more = true -> k = Zlen (recv c) - Zlen r)) /\
  (forall n hm, plain (recv c) n hm ->
     let c' := report (recv c) hm (with_lens hm (Zlen (recv c) - n) (Zlen (recv c))) c in
     http_cb user after true c =
       Some (set_recv (if negb (is_resp c') && closes (recv c) hm then set_draining c' else c') [])).
Proof.
  split.
  - intros l r Hp Hun. pose proof (loop_pipeline _ _ _ Hp Hun (S (length (recv c))) c 0 ltac:(lia) ltac:(by rewrite drop_0)
      ltac:(pose proof (Zlen_nonneg (recv c)); lia) Hb Ha Hr ltac:(lia)) as H.
    destruct (serve c l 0) as [[c' k] more]. destruct H as (E & Hrv & Hk0 & Hmore). unfold http_cb. rewrite E. cbn [mbind option_bind].
    split; [|intros ->; specialize (Hmore eq_refl); lia]. destruct (Z.ltb_spec 0 k) as [|Hz]; [done|]. replace k with 0 by lia. by rewrite consume_0.
  - intros n hm Hp c'. pose proof (p_head _ _ _ Hp) as Hn0. assert (plain (drop (Z.to_nat 0) (recv c)) n hm) as Hp0 by (by rewrite drop_0).
    destruct (turn_plain true c 0 n hm ltac:(lia) Hb Hp0) as (Hn & _ & Ht). change (Z.to_nat 0) with O in Ht. rewrite drop_0 in Ht.
    cbv zeta in Ht. set (hm' := with_lens hm _ _) in *. change (ln (Http.body hm')) with (Zlen (recv c) - n) in Ht.
    rewrite (proj2 (Z.ltb_ge _ _)) in Ht by lia. rewrite (deliver_report c _ n hm hm' _ Ha Hp Hb eq_refl) in Ht. fold c' in Ht.
    rewrite u32_small in Ht by lia. replace (0 + n + (Zlen (recv c) - n)) with (Zlen (recv c)) in Ht by lia.
    destruct (report_keeps (recv c) hm hm' c) as [Hrv _]. fold c' in Hrv.
    assert (forall x, consume (set_recv x (recv c)) (Zlen (recv c)) = set_recv x []) as Hcon.
    { intros x. unfold consume. cbn [recv set_recv]. unfold Zlen. rewrite Nat2Z.id, drop_all. done. }
    assert (forall x, recv x = recv c -> consume x (Zlen (recv c)) = set_recv x []) as Hcon'.
    { intros x <-. unfold consume, Zlen. rewrite Nat2Z.id, drop_all. done. }
    assert (0 < Zlen (recv c)) as Hpos by lia. unfold http_cb. cbn [http_loop]. rewrite Hr, (proj2 (Z.ltb_lt 0 _)) by done. cbn [negb andb].
    rewrite Ht. cbn [mbind option_bind].
    destruct (length (recv c)) as [|k] eqn:Ek; [unfold Zlen in Hpos; lia|].
    destruct (is_resp c') eqn:Er; cbn [negb andb]; [|destruct (closes (recv c) hm)]; cbn [http_loop]; rewrite ?Er, ?Hrv, ?Z.ltb_irrefl; cbn [negb andb mbind option_bind];
      rewrite (proj2 (Z.ltb_lt 0 _)) by done; by rewrite Hcon'.
Qed.
End Pipeline.


(** ** Concrete connections *)

Definition demo_post : list Z :=
  str:("POST /a HTTP/1.1") ++ [13; 10] ++ str:("Content-Length: 2") ++ [13; 10; 13; 10] ++ str:("hi").

Definition demo_chunked : list Z :=
  str:("POST /a HTTP/1.1") ++ [13; 10] ++ str:("Transfer-Encoding: chunked") ++ [13; 10; 13; 10].

Definition pending (_ : mg_event) (c : conn) : conn := c.

Lemma pending_deferring : deferring pending.
Proof. by intros ev c. Qed.

Definition server (r : list Z) : conn := mkconn r [] false false false true false true.

(** A handler that answers every message at once. *)
Definition answering (ev : mg_event) (c : conn) : conn :=
  match ev with MG_EV_HTTP_MSG b hm => set_resp (set_send c (send c ++ text b (Http.body hm))) false | _ => c end.

(** Two requests and the start of a third one. *)
Definition demo_two : list Z := demo_post ++ demo_post ++ str:("GET").

Lemma http_cb_frames_witness :
  http_cb answering 0 false (server demo_two) = Some (mkconn str:("GET") str:("hihi") false false false true false true).
Proof.
  destruct (http_cb_frames answering 0 ltac:(by intros [] c) (server demo_two) eq_refl eq_refl ltac:(vm_compute; reflexivity)) as [H _].
  destruct (mg_http_parse demo_two) as [[n hm]|] eqn:E1; [|exfalso; vm_compute in E1; discriminate].
  destruct (mg_http_parse (demo_post ++ str:("GET"))) as [[n2 hm2]|] eqn:E2; [|exfalso; vm_compute in E2; discriminate].
  pose proof E1 as F1. vm_compute in F1. injection F1 as <- <-. pose proof E2 as F2. vm_compute in F2. injection F2 as <- <-.
  specialize (H _ str:("GET") (pl_msg _ _ _ _ _ (Build_plain _ _ _ E1 eq_refl eq_refl (ex_intro _ (sat 34 1) eq_refl) ltac:(vm_compute; congruence))
    ltac:(vm_compute; congruence) (pl_msg (demo_post ++ str:("GET")) _ _ _ _ (Build_plain _ _ _ E2 eq_refl eq_refl (ex_intro _ (sat 34 1) eq_refl) ltac:(vm_compute; congruence))
    ltac:(vm_compute; congruence) (pl_end _)))).
  destruct H as [-> _]; [right; left; eexists; vm_compute; reflexivity|]. vm_compute. reflexivity.
Defined.

Lemma http_cb_chunked_witness :
  exists junk, let r := demo_chunked ++ str:("abcd") ++ junk ++ str:("GET") in
  http_cb pending 0 false (server (demo_chunked ++ chunked [(str:("3"), str:("abc")); (str:("1"), str:("d"))] str:("0") ++ str:("GET"))) =
  Some (mkconn str:("GET") [] true false false true false true) /\
  drop (Z.to_nat (48 + 19)) r = str:("GET").
Proof.
  set (cs := [(str:("3"), str:("abc")); (str:("1"), str:("d"))]).
  destruct (mg_http_parse (demo_chunked ++ chunked cs str:("0") ++ str:("GET"))) as [[n hm]|] eqn:E;
    [|exfalso; vm_compute in E; discriminate].
  pose proof E as E'. vm_compute in E'. injection E' as <- <-.
  destruct (http_cb_chunked pending 0 pending_deferring (server (demo_chunked ++ chunked cs str:("0") ++ str:("GET")))
    _ _ (sat 37 7) demo_chunked str:("0") str:("GET") cs
    eq_refl eq_refl eq_refl E eq_refl eq_refl eq_refl eq_refl eq_refl) as (junk & H1 & H2);
    [repeat (constructor; [split; [split; [reflexivity|split; [split; vm_compute; congruence|split; reflexivity]]|discriminate]|]); constructor
    |split; [reflexivity|split; [split; vm_compute; congruence|split; reflexivity]]|].
  exists junk. split; [|exact H2]. rewrite H1. unfold consume, pending, set_resp, set_recv, server.
  cbn [recv send is_resp is_draining is_closing is_accepted is_client pfn]. rewrite H2. reflexivity.
Defined.

(** A handler that keeps the body length it was told in the send buffer. *)
Definition tell (ev : mg_event) (c : conn) : conn :=
  match ev with MG_EV_HTTP_MSG _ hm => set_send c [ln (Http.body hm)] | _ => c end.

(** A POST without a length whose head of n bytes is followed by n - 1 more: the offset has
    already been advanced over the head when the length of the rest is computed, the
    subtraction wraps to the open-ended length, and the handler is told a body of 2^32 - 1
    bytes. *)
Example post_overread :
  let h := str:("POST /a HTTP/1.1") ++ [13; 10; 13; 10] in
  option_map send (http_cb tell 0 false (server (h ++ replicate 19 65))) = Some [2 ^ 32 - 1].
Proof. vm_compute. reflexivity. Qed.

(** With one byte more or less the request is refused with 411 as intended. *)
Example post_refused :
  let h := str:("POST /a HTTP/1.1") ++ [13; 10; 13; 10] in
  option_map (fun c => take 16 (send c)) (http_cb tell 0 false (server (h ++ replicate 18 65)))
  = Some str:("HTTP/1.1 411 Len").
Proof. vm_compute. reflexivity. Qed.
