(* ===== verification/Serve.v ===== *)
(** * Serve: static files and uploads (mongoose/mongoose.c, lines 1910-2095, 2224-2318 and
    2340-2428)

    The path buffers of the code are stack arrays of [MG_PATH_MAX] bytes whose contents on
    entry are arbitrary: they are arguments.  The file system is a record of operations on
    an abstract state. *)

From S2P Require Import Prelude Str Base64 Json Iobuf Url Http Fmt Util Httpd.
Import Util.Path.

Definition MG_PATH_MAX : Z := 100.
Definition MG_FS_READ : Z := 1.
Definition MG_FS_WRITE : Z := 2.
Definition MG_FS_DIR : Z := 4.

(** ** Content types *)

Definition s_known_types : list (list Z * list Z) :=
  [(str:("html"), str:("text/html; charset=utf-8")); (str:("htm"), str:("text/html; charset=utf-8"));
   (str:("css"), str:("text/css; charset=utf-8")); (str:("js"), str:("text/javascript; charset=utf-8"));
   (str:("mjs"), str:("text/javascript; charset=utf-8")); (str:("gif"), str:("image/gif"));
   (str:("png"), str:("image/png")); (str:("jpg"), str:("image/jpeg")); (str:("jpeg"), str:("image/jpeg"));
   (str:("woff"), str:("font/woff")); (str:("ttf"), str:("font/ttf")); (str:("svg"), str:("image/svg+xml"));
   (str:("txt"), str:("text/plain; charset=utf-8")); (str:("avi"), str:("video/x-msvideo"));
   (str:("csv"), str:("text/csv")); (str:("doc"), str:("application/msword"));
   (str:("exe"), str:("application/octet-stream")); (str:("gz"), str:("application/gzip"));
   (str:("ico"), str:("image/x-icon")); (str:("json"), str:("application/json"));
   (str:("mov"), str:("video/quicktime")); (str:("mp3"), str:("audio/mpeg")); (str:("mp4"), str:("video/mp4"));
   (str:("mpeg"), str:("video/mpeg")); (str:("pdf"), str:("application/pdf"));
   (str:("shtml"), str:("text/html; charset=utf-8")); (str:("tgz"), str:("application/tar-gz"));
   (str:("wav"), str:("audio/wav")); (str:("webp"), str:("image/webp")); (str:("zip"), str:("application/zip"));
   (str:("3gp"), str:("video/3gpp"))].

(** The part behind the last dot; the whole path when there is none. *)
Fixpoint until_dot (rev_path : list Z) : list Z :=
  match rev_path with c :: r => if c =? chr:(".") then [] else c :: until_dot r | [] => [] end.

Definition extension (path : list Z) : list Z := rev (until_dot (rev path)).

(** The overrides of the user, a comma separated list of ext=type. *)
Fixpoint find_override (fuel : nat) (s path : mg_str) : option mg_str :=
  match fuel with
  | O => None
  | S fuel' =>
      match mg_span s chr:(",") with
      | None => None
      | Some (entry, rest) =>
          match mg_span entry chr:("=") with
          | Some (k, v) => if (mg_strcmp str:("*") k =? 0) || (mg_strcmp path k =? 0) then Some v
                           else find_override fuel' rest path
          | None => find_override fuel' rest path
          end
      end
  end.

Fixpoint find_type (l : list (list Z * list Z)) (path : mg_str) : option mg_str :=
  match l with
  | [] => None
  | (k, v) :: l' => if mg_strcmp path k =? 0 then Some v else find_type l' path
  end.

Definition guess_content_type (path extra : mg_str) : mg_str :=
  let ext := extension path in
  match find_override (S (length extra)) extra ext with
  | Some v => v
  | None => default str:("text/plain; charset=utf-8") (find_type s_known_types ext)
  end.

Example type_css : guess_content_type str:("/a.b/x.css") [] = str:("text/css; charset=utf-8").
Proof. reflexivity. Qed.

(** ** From a URI to a path *)

Fixpoint trim_slashes (fuel : nat) (m : list Z) (n : Z) : option (list Z * Z) :=
  match fuel with
  | O => None
  | S fuel' =>
      if 1 <? n then
        c ← rd m (n - 1);
        if c =? chr:("/") then m ← wr m (n - 1) 0; trim_slashes fuel' m (n - 1) else Some (m, n)
      else Some (m, n)
  end.

(** The first part of [uri_to_path2]: root directory, slash, decoded rest of the URI, sanity
    check; [inl] is the status text of the 400 reply. *)
Definition build_path (uri : mg_str) (ulen : Z) (dir : mg_str) (path : list Z) : option (list Z + list Z) :=
  let path_size := Zlen path in
  '(path, n) ← mg_vsnprintf no_pm no_pmn path str:("%.*s") [AInt (Zlen dir); AStr (Some dir)];
  if path_size <=? n + 2 then Some (inl str:("Exceeded path size"))
  else
    path ← wr path (path_size - 1) 0;
    last ← (if 0 <? n then c ← rd path (n - 1); Some c else Some chr:("/"));
    '(path, n) ← (if negb (last =? chr:("/")) then
                    path ← wr path n chr:("/"); path ← wr path (n + 1) 0; Some (path, n + 1)
                  else Some (path, n));
    path ← (if ulen <? Zlen uri then
              '(_, tl) ← mg_url_decode (drop (Z.to_nat ulen) uri) (drop (Z.to_nat n) path) false;
              Some (take (Z.to_nat n) path ++ tl)
            else Some path);
    path ← wr path (path_size - 1) 0;
    ok ← mg_path_is_sane path path_size;
    Some (if (ok : bool) then inr path else inl str:("Invalid path")).

Definition MG_HTTP_INDEX : list Z := str:("index.html").

(** [mg_snprintf(path + n, path_size - n, lit)]. *)
Definition append_at (path : list Z) (n : Z) (lit : list Z) : option (list Z) :=
  '(tl, _) ← mg_vsnprintf no_pm no_pmn (drop (Z.to_nat n) path) lit []; Some (take (Z.to_nat n) path ++ tl).

Section UriToPath.
(** What the file system says of a path: 0 when it does not exist. *)
Context (st : list Z -> Z).

Definition stat (path : list Z) : option Z := p ← mg_str_s path; Some (st p).

(** The index file of a directory: the flags and the path. *)
Definition find_index (path : list Z) (n flags : Z) : option (Z * list Z) :=
  p1 ← append_at path n ([47] ++ MG_HTTP_INDEX);
  t1 ← stat p1;
  if negb (t1 =? 0) then Some (t1, p1)
  else
    p2 ← append_at p1 n str:("/index.shtml");
    t2 ← stat p2;
    if negb (t2 =? 0) then Some (t2, p2)
    else
      p3 ← append_at p2 n ([47] ++ MG_HTTP_INDEX ++ str:(".gz"));
      t3 ← stat p3;
      if negb (t3 =? 0) then p ← wr p3 (n + 1 + Zlen MG_HTTP_INDEX) 0; Some (t3, p)
      else p ← wr p3 n 0; Some (flags, p).

Definition has_dir (flags : Z) : bool := negb (Z.land flags MG_FS_DIR =? 0).

Definition redirect_fmt : list Z :=
  str:("HTTP/1.1 301 Moved") ++ [13; 10] ++ str:("Location: %.*s/") ++ [13; 10] ++ str:("Content-Length: 0")
  ++ [13; 10; 13; 10].

(** [uri_to_path2]: the connection, the flags (-1: answered) and the path. *)
Definition uri_to_path2 (c : conn) (uri : mg_str) (ulen : Z) (dir : mg_str) (path : list Z)
    : option (conn * Z * list Z) :=
  r ← build_path uri ulen dir path;
  match r with
  | inl msg => c ← mg_http_reply no_pm c 400 [] msg []; Some (c, -1, path)
  | inr path =>
      n ← strlen path;
      '(path, n) ← trim_slashes (S (length path)) path n;
      flags ← (if mg_strcmp uri str:("/") =? 0 then Some MG_FS_DIR else stat path);
      if flags =? 0 then Some (c, flags, path)
      else if has_dir flags && (0 <? Zlen uri) && negb (List.last uri 0 =? chr:("/")) then
        c ← mg_printf no_pm c redirect_fmt [AInt (Zlen uri); AStr (Some uri)];
        Some (set_resp c false, -1, path)
      else if has_dir flags then
        '(flags, path) ← find_index path n flags; Some (c, flags, path)
      else Some (c, flags, path)
  end.

(** [uri_to_path]: the mount point: the last entry of the root list whose prefix matches. *)
Fixpoint find_mount (fuel : nat) (s uri : mg_str) (u : Z) (p : mg_str) : Z * mg_str :=
  match fuel with
  | O => (u, p)
  | S fuel' =>
      match mg_span s chr:(",") with
      | None => (u, p)
      | Some (entry, rest) =>
          let '(k, v) := match mg_span entry chr:("=") with Some kv => kv | None => (entry, []) end in
          let '(k, v, u, p) := match v with [] => ([47], k, 1, k) | _ => (k, v, u, p) end in
          if Zlen uri <? Zlen k then find_mount fuel' rest uri u p
          else if negb (mg_strcmp k (take (length k) uri) =? 0) then find_mount fuel' rest uri u p
          else find_mount fuel' rest uri (Zlen k) v
      end
  end.

Definition uri_to_path (c : conn) (uri root_dir : mg_str) (path : list Z) : option (conn * Z * list Z) :=
  let '(u, p) := find_mount (S (length root_dir)) root_dir uri 0 [] in
  uri_to_path2 c uri u p path.
End UriToPath.

Example path_plain :
  option_map (fun '(_, f, p) => (f, take 12 p)) (uri_to_path (fun _ => 1) (server []) str:("/x%20y.js") str:("/web") (replicate 100 9))
  = Some (1, str:("/web/x y.js") ++ [0]).
Proof. vm_compute. reflexivity. Qed.

Example path_climb :
  option_map (fun '(_, f, _) => f) (uri_to_path (fun _ => 1) (server []) str:("/%2e%2e/secret") str:("/web") (replicate 100 9))
  = Some (-1).
Proof. vm_compute. reflexivity. Qed.

(** ** No request leaves the root directory *)

Lemma wr_take {A} (b b' : list A) i v k : wr b i v = Some b' -> Z.of_nat k <= i -> take k b' = take k b.
Proof.
  unfold wr. case_match; [|done]. intros [= <-] Hk. apply take_insert_ge. lia.
Qed.

(** The text before the first zero byte. *)
Lemma split_nul (m : list Z) : 0 ∈ m -> exists q pad, m = q ++ 0 :: pad /\ 0 ∉ q.
Proof.
  induction m as [|c m IH]; intros H; [by apply not_elem_of_nil in H|].
  destruct (Z.eq_dec c 0) as [->|Hc]; [exists [], m; split; [done|apply not_elem_of_nil]|].
  apply elem_of_cons in H as [|H]; [done|]. destruct (IH H) as (q & pad & -> & Hq). exists (c :: q), pad. split; [done|]. by apply not_elem_of_cons.
Qed.

Lemma prefix_before_nul d q pad m : 0 ∉ d -> take (length d) m = d -> m = q ++ 0 :: pad -> exists r, q = d ++ r.
Proof.
  intros Hd Ht ->. destruct (decide (length d <= length q)%nat).
  - rewrite take_app_le in Ht by done. exists (drop (length d) q).
    rewrite <- (take_drop (length d) q) at 1. by rewrite Ht.
  - exfalso. apply Hd. rewrite <- Ht. rewrite take_app_ge by lia.
    apply elem_of_app. right. destruct (length d - length q)%nat eqn:E; [lia|]. simpl. left.
Qed.

Lemma wr_in {A} (b b' : list A) i v : wr b i v = Some b' -> v ∈ b'.
Proof.
  intros H. pose proof (rd_wr_eq b b' i v H) as Hr. unfold rd in Hr. case_match; [|done].
  by eapply list_elem_of_lookup_2.
Qed.

(** A path in a buffer of [size] bytes, as handed to the file system: terminated, below the
    directory [d], no component that starts with two dots, no tilde. *)
Definition confined (d : list Z) (size : Z) (m : list Z) : Prop :=
  Zlen m = size /\ exists q pad, m = q ++ 0 :: pad /\ (0 ∉ q) /\ ~ climbs q /\ hd 0 q <> chr:("~") /\ exists r, q = d ++ r.

(** A directory as the path starts with it: with a slash at its end. *)
Definition slashed (dir : list Z) : list Z :=
  match dir with [] => [] | _ :: _ => if List.last dir 0 =? 47 then dir else dir ++ [47] end.

Lemma slashed_len dir : Zlen dir <= Zlen (slashed dir) <= Zlen dir + 1.
Proof.
  unfold slashed. destruct dir as [|x d]; [cbn; lia|]. destruct (_ =? 47); [lia|]. rewrite Zlen_app. change (Zlen [47]) with 1. lia.
Qed.

(** The character before the end of the directory. *)
Lemma last_char dir p2 : take (length dir) p2 = dir -> dir <> [] -> rd p2 (Zlen dir - 1) = Some (List.last dir 0).
Proof.
  intros T Hne. destruct dir as [|x d _] using rev_ind; [done|]. rewrite List.last_last, Zlen_app. change (Zlen [x]) with 1.
  replace (Zlen d + 1 - 1) with (Zlen d) by lia. rewrite <- (take_drop (length (d ++ [x])) p2), T, <- app_assoc. apply rd_here.
Qed.

(** The slash behind the root directory. *)
Lemma add_slash dir p2 size : Zlen p2 = size -> Zlen dir + 2 < size -> take (length dir) p2 = dir ->
  exists p3, (last ← (if 0 <? Zlen dir then c ← rd p2 (Zlen dir - 1); Some c else Some 47);
    if negb (last =? 47) then p ← wr p2 (Zlen dir) 47; p ← wr p (Zlen dir + 1) 0; Some (p, Zlen dir + 1)
    else Some (p2, Zlen dir)) = Some (p3, Zlen (slashed dir)) /\ Zlen p3 = size /\ take (length (slashed dir)) p3 = slashed dir.
Proof.
  intros L2 Hsz T2. pose proof (Zlen_nonneg dir). unfold slashed. destruct dir as [|x d]; [by exists p2|].
  rewrite Zlen_cons in *. pose proof (Zlen_nonneg d). rewrite (proj2 (Z.ltb_lt _ _)) by lia.
  pose proof (last_char (x :: d) p2 T2 ltac:(done)) as E. rewrite Zlen_cons in E. rewrite E. cbn [mbind option_bind].
  destruct (List.last (x :: d) 0 =? 47); cbn [negb]; [exists p2; by rewrite Zlen_cons|].
  destruct (wr_is_Some p2 (Zlen d + 1) 47) as [pa Ha]; [lia|]. rewrite Ha. cbn [mbind option_bind].
  pose proof (wr_Zlen _ _ _ _ Ha) as La. destruct (wr_is_Some pa (Zlen d + 1 + 1) 0) as [pb Hb]; [lia|]. rewrite Hb.
  pose proof (wr_Zlen _ _ _ _ Hb). cbn [mbind option_bind]. exists pb. rewrite Zlen_app, Zlen_cons. change (Zlen [47]) with 1.
  split; [done|]. split; [lia|]. rewrite (wr_take _ _ _ _ _ Hb) by (unfold Zlen; rewrite length_app; simpl; lia).
  assert (p2 = (x :: d) ++ drop (length (x :: d)) p2) as E2 by (by rewrite <- T2 at 1; rewrite take_drop).
  destruct (drop (length (x :: d)) p2) as [|y r] eqn:Ed.
  { exfalso. apply (f_equal length) in E2. rewrite app_nil_r in E2. unfold Zlen in *. simpl in *. lia. }
  replace (Zlen d + 1) with (Zlen (x :: d)) in Ha by (by rewrite Zlen_cons). rewrite E2, wr_here in Ha. injection Ha as <-.
  assert (x :: d ++ 47 :: r = ((x :: d) ++ [47]) ++ r) as -> by (by rewrite <- app_assoc). apply take_app_length.
Qed.

(** The decoded rest of the URI. *)
Lemma decode_tail dir uri ulen p3 n3 size : Zlen p3 = size -> Zlen dir <= n3 < size -> take (length dir) p3 = dir ->
  exists p4, (if ulen <? Zlen uri then '(_, tl) ← mg_url_decode (drop (Z.to_nat ulen) uri) (drop (Z.to_nat n3) p3) false;
    Some (take (Z.to_nat n3) p3 ++ tl) else Some p3) = Some p4 /\ Zlen p4 = size /\ take (length dir) p4 = dir.
Proof.
  intros L3 N3 T3. destruct (ulen <? Zlen uri); [|eauto].
  destruct (url_decode_mem (drop (Z.to_nat ulen) uri) (drop (Z.to_nat n3) p3) false) as (k & tl & -> & Lt & _).
  eexists. split; [done|]. unfold Zlen in *. rewrite length_drop in Lt. split.
  - rewrite length_app, length_take. lia.
  - rewrite take_app_le by (rewrite length_take; lia). rewrite take_take, Nat.min_l by lia. done.
Qed.

Lemma build_path_confined uri ulen dir path : 0 ∉ dir -> Zlen dir < 2 ^ 31 -> 0 < Zlen path ->
  exists r, build_path uri ulen dir path = Some r /\
    match r with inl _ => True | inr m => confined (slashed dir) (Zlen path) m end.
Proof.
  intros Hd Hl Hp. unfold build_path. pose proof (Zlen_nonneg dir). pose proof (slashed_len dir) as Hsl.
  assert (mg_vxprintf no_pm str:("%.*s") [AInt (Zlen dir); AStr (Some dir)] = Some (dir, [])) as Hvx.
  { pose proof (vx_prec_s no_pm dir [] [] [] Hd ltac:(lia)) as H'. rewrite app_nil_r in H'. rewrite H'.
    unfold put_front. rewrite vx_nil. cbn [mbind option_bind]. by rewrite app_nil_r. }
  rewrite (vsnprintf_stores no_pm no_pmn path _ _ dir [] no_pm_reports Hvx) by ((intros ->; by change (Zlen []) with 0 in Hp) || lia).
  cbn [mbind option_bind]. destruct (Z.leb_spec (Zlen path) (Zlen dir + 2)) as [|Hsz]; [by eexists|].
  assert (exists p1, stored dir path = dir ++ 0 :: p1 /\ Zlen (stored dir path) = Zlen path) as (p1 & E1 & L1).
  { unfold stored, Zlen in *. rewrite Nat.min_l by lia. rewrite take_ge by lia. eexists. split; [done|].
    rewrite !length_app, length_drop. simpl. lia. }
  destruct (wr_is_Some (stored dir path) (Zlen path - 1) 0) as [p2 H2]; [lia|]. rewrite H2. cbn [mbind option_bind].
  pose proof (wr_Zlen _ _ _ _ H2) as L2. assert (Zlen p2 = Zlen path) as L2' by lia. pose proof (wr_take _ _ _ _ (length dir) H2 ltac:(unfold Zlen in *; lia)) as T2.
  rewrite E1, take_app_length in T2.
  destruct (add_slash dir p2 (Zlen path) L2' ltac:(lia) T2) as (p3 & E3 & L3 & T3).
  apply bind_Some in E3 as (last & -> & E3). cbn [mbind option_bind]. rewrite E3. cbn [mbind option_bind].
  destruct (decode_tail (slashed dir) uri ulen p3 (Zlen (slashed dir)) (Zlen path) L3 ltac:(lia) T3) as (p4 & -> & L4 & T4).
  cbn [mbind option_bind].
  destruct (wr_is_Some p4 (Zlen path - 1) 0) as [p5 H5]; [lia|]. rewrite H5. cbn [mbind option_bind].
  pose proof (wr_Zlen _ _ _ _ H5) as L5. pose proof (wr_take _ _ _ _ (length (slashed dir)) H5 ltac:(unfold Zlen in *; lia)) as T5.
  rewrite T4 in T5. destruct (split_nul p5 (wr_in _ _ _ _ H5)) as (q & pad & E5 & Hq).
  destruct (path_check q pad (Zlen path) Hq) as (r & Er & Hr).
  { rewrite <- L4, <- L5, E5, Zlen_app. pose proof (Zlen_nonneg (0 :: pad)). lia. }
  rewrite E5, Er. cbn [mbind option_bind]. eexists. split; [done|]. destruct r; [|done].
  destruct (proj1 Hr eq_refl) as [H126 Hcl]. split; [rewrite <- E5; lia|]. exists q, pad.
  split; [done|]. split; [done|]. split; [done|]. split; [done|]. apply (prefix_before_nul (slashed dir) q pad p5); try done.
  unfold slashed. destruct dir; [apply not_elem_of_nil|]. destruct (List.last _ _ =? 47); [exact Hd|]. apply not_elem_of_app. split; [done|]. by apply (bool_decide_unpack (0 ∉ [47])).
Qed.

(** Cutting a path and adding a file name without dots in a row keep it harmless. *)
Lemma climbs_app a b : climbs a -> climbs (a ++ b).
Proof. intros (x & y & -> & H). exists x, (y ++ b). split; [by rewrite <- !app_assoc|done]. Qed.

Fixpoint two_dots (l : list Z) : bool :=
  match l with
  | a :: (b :: _) as l' => ((a =? 46) && (b =? 46)) || two_dots l'
  | _ => false
  end.

Lemma two_dots_app k b : two_dots (k ++ [46; 46] ++ b) = true.
Proof.
  induction k as [|c k IH]; [done|]. destruct k as [|d k]; [apply orb_true_r || (simpl; apply orb_true_r)|].
  cbn [app two_dots] in *. by rewrite IH, orb_true_r.
Qed.

Lemma climbs_suffix q lit : ~ climbs q -> two_dots lit = false -> hd 0 lit <> 46 -> ~ climbs (q ++ lit).
Proof.
  intros Hq Hd Hh (a & b & E & Ha). apply app_eq_app in E as (k & [[-> E]|[-> E]]).
  - destruct k as [|c [|d k]]; simpl in E.
    + by rewrite <- E in Hh.
    + injection E as <- E. by rewrite <- E in Hh.
    + injection E as <- <- E. apply Hq. by exists a, k.
  - rewrite E, two_dots_app in Hd. done.
Qed.

(** The directory [d] itself or something behind it and a slash. *)
Definition within (d q : list Z) : Prop := q = d \/ exists r, q = d ++ 47 :: r.

(** A terminated path text that names [d] or something inside it. *)
Definition below (d q : list Z) : Prop :=
  (0 ∉ q) /\ ~ climbs q /\ hd 0 q <> chr:("~") /\ within d q.

Definition root_ok (d : list Z) : Prop := (0 ∉ d) /\ exists d' x, d = d' ++ [x] /\ x <> 47.

Lemma hd_app_nonempty (d r : list Z) : d <> [] -> hd 0 (d ++ r) = hd 0 d.
Proof. by destruct d. Qed.

Lemma root_nonempty d : root_ok d -> d <> [].
Proof. intros (_ & d' & x & -> & _). by destruct d'. Qed.

Lemma within_nonempty d q : root_ok d -> within d q -> q <> [] /\ hd 0 q = hd 0 d.
Proof. intros Hd%root_nonempty [->|[r ->]]; destruct d; done. Qed.

Lemma below_prefix d q s : root_ok d -> below d (q ++ s) -> within d q -> below d q.
Proof.
  intros Hd (H0 & Hc & H126 & _) Hw. destruct (within_nonempty d q Hd Hw) as [Hne _]. split_and!; try done.
  - intros H. apply H0. apply elem_of_app. by left.
  - intros H. by apply Hc, climbs_app.
  - by rewrite hd_app_nonempty in H126.
Qed.

(** Trimming trailing slashes. *)
Lemma trim_below d fuel : root_ok d -> forall q pad, (length q < fuel)%nat -> below d q ->
  exists q' pad', trim_slashes fuel (q ++ 0 :: pad) (Zlen q) = Some (q' ++ 0 :: pad', Zlen q') /\
    below d q' /\ Zlen (q' ++ 0 :: pad') = Zlen (q ++ 0 :: pad).
Proof.
  intros Hd. pose proof Hd as (Hd0 & d' & x & Ed & Hx). induction fuel as [|fuel IH]; intros q pad Hf Hq; [lia|].
  cbn [trim_slashes]. destruct (Z.ltb_spec 1 (Zlen q)); [|by exists q, pad].
  assert (q = d' ++ [x] \/ exists q0 y, q = q0 ++ [y] /\ within d q0) as [->|(q0 & y & -> & Hw)].
  { destruct Hq as (_ & _ & _ & [->|[r ->]]); [by left|right]. destruct r as [|y r _] using rev_ind.
    - exists d, 47. split; [done|by left].
    - exists (d ++ 47 :: r), y. split; [by rewrite <- app_assoc|right; by exists r]. }
  - exists (d' ++ [x]), pad. split; [|done].
    rewrite Zlen_app. change (Zlen [x]) with 1. replace (Zlen d' + 1 - 1) with (Zlen d') by lia.
    rewrite <- app_assoc. cbn [app]. rewrite rd_here. cbn [mbind option_bind].
    by rewrite (proj2 (Z.eqb_neq x 47)) by done.
  - assert (below d q0) as Hq0 by (by apply (below_prefix _ q0 [y])).
    rewrite Zlen_app. change (Zlen [y]) with 1. replace (Zlen q0 + 1 - 1) with (Zlen q0) by lia.
    rewrite <- app_assoc. cbn [app]. rewrite rd_here. cbn [mbind option_bind]. destruct (y =? 47).
    + rewrite wr_here. cbn [mbind option_bind]. rewrite length_app in Hf. simpl in Hf.
      destruct (IH q0 (0 :: pad)) as (q' & pad' & -> & Hb & Hl); [lia|done|]. exists q', pad'.
      split; [done|]. split; [done|]. rewrite Hl, !Zlen_app, !Zlen_cons. lia.
    + exists (q0 ++ [y]), pad. rewrite Zlen_app, <- app_assoc. done.
Qed.

(** A name behind a slash, cut off anywhere. *)
Lemma within_app d q lit k : within d q -> hd 0 lit = 47 -> within d (q ++ take k lit).
Proof.
  intros Hw Hh. destruct lit as [|x lit]; [done|]. cbn in Hh. subst x. destruct k as [|k]; [by rewrite take_0, app_nil_r|].
  cbn [take]. right. destruct Hw as [->|[r ->]]; [by eexists|]. exists (r ++ 47 :: take k lit). by rewrite <- app_assoc.
Qed.

Lemma below_app d q lit : root_ok d -> below d q -> (0 ∉ lit) -> two_dots lit = false -> hd 0 lit = 47 ->
  below d (q ++ lit).
Proof.
  intros Hd (Hq0 & Hc & H126 & Hw) H0 H2 Hh. destruct (within_nonempty d q Hd Hw) as [Hne _]. split_and!.
  - by apply not_elem_of_app.
  - apply climbs_suffix; [done|done|]. by rewrite Hh.
  - by rewrite hd_app_nonempty.
  - pose proof (within_app d q lit (length lit) Hw Hh) as H. by rewrite firstn_all in H.
Qed.

(** What [mg_snprintf(path + n, path_size - n, lit)] leaves of [lit] before a tail [t]. *)
Definition cut (t lit : list Z) : list Z := take (Nat.min (length lit) (length t - 1)) lit.

(** Adding a literal behind the path, truncated by the buffer. *)
Lemma append_below d q t lit : root_ok d -> below d q -> t <> [] -> (0 ∉ lit) -> (37 ∉ lit) ->
  two_dots lit = false -> hd 0 lit = 47 -> Zlen lit < 2 ^ 32 ->
  exists pad', append_at (q ++ t) (Zlen q) lit = Some (q ++ cut t lit ++ 0 :: pad') /\
    below d (q ++ cut t lit) /\ Zlen (cut t lit ++ 0 :: pad') = Zlen t.
Proof.
  intros Hd Hq Ht H0 H37 H2 Hh Hz. unfold append_at. rewrite drop_prefix, take_prefix by done.
  assert (mg_vxprintf no_pm lit [] = Some (lit, [])) as Hvx.
  { pose proof (vx_text no_pm lit [] [] H37) as H. rewrite app_nil_r, vx_nil in H. unfold put_front in H.
    cbn [mbind option_bind] in H. by rewrite app_nil_r in H. }
  rewrite (vsnprintf_stores no_pm no_pmn t lit [] lit [] no_pm_reports Hvx) by done. cbn [mbind option_bind].
  unfold stored, cut. set (k := Nat.min (length lit) (length t - 1)). exists (drop (S k) t). split; [done|].
  pose proof (below_app d q lit Hd Hq H0 H2 Hh) as Hall. split.
  - apply (below_prefix d _ (drop k lit)); [done|by rewrite <- app_assoc, take_drop|]. apply within_app; [apply Hq|done].
  - assert (length (take k lit) = k) as Hk by (rewrite length_take; lia).
    assert (k < length t)%nat as Hk' by (destruct t; [done|unfold k; simpl; lia]).
    unfold Zlen. rewrite length_app. cbn [length]. rewrite Hk, length_drop. lia.
Qed.

Lemma str_s_all q pad : 0 ∉ q -> mg_str_s (q ++ 0 :: pad) = Some q.
Proof.
  induction q as [|c q IH]; intros H; [done|]. apply not_elem_of_cons in H as [Hc H]. cbn [mg_str_s app].
  rewrite (proj2 (Z.eqb_neq c 0)) by done. by rewrite IH.
Qed.

Ltac closed_list := by apply (bool_decide_unpack _).

Section Confined.
Context (st : list Z -> Z) (d : list Z) (Hd : root_ok d).

Lemma stat_below q pad : below d q -> stat st (q ++ 0 :: pad) = Some (st q).
Proof. intros (H0 & _). unfold stat. by rewrite str_s_all. Qed.

(** Every name tried for the index lies below the root; the path never overflows. *)
Lemma find_index_below q t flags : below d q -> t <> [] ->
  exists f q' pad', find_index st (q ++ t) (Zlen q) flags = Some (f, q' ++ 0 :: pad') /\ below d q' /\
    Zlen (q' ++ 0 :: pad') = Zlen (q ++ t).
Proof.
  intros Hq Ht. unfold find_index.
  destruct (append_below d q t ([47] ++ MG_HTTP_INDEX) Hd Hq Ht) as (pad1 & -> & Hb1 & Hl1);
    [closed_list|closed_list|done|done|done|]. cbn [mbind option_bind].
  rewrite app_assoc, stat_below by done. cbn [mbind option_bind].
  destruct (Z.eqb_spec (st (q ++ cut t ([47] ++ MG_HTTP_INDEX))) 0) as [Z1|]; cbn [negb];
    [|eexists _, _, _; split; [done|]; split; [done|]; rewrite <- app_assoc, Zlen_app, Hl1; by rewrite Zlen_app].
  rewrite <- app_assoc. set (t1 := cut t ([47] ++ MG_HTTP_INDEX) ++ 0 :: pad1) in *.
  assert (t1 <> []) as Ht1 by (unfold t1; by destruct (cut t _)).
  destruct (append_below d q t1 str:("/index.shtml") Hd Hq Ht1) as (pad2 & -> & Hb2 & Hl2);
    [closed_list|closed_list|done|done|done|]. cbn [mbind option_bind].
  rewrite app_assoc, stat_below by done. cbn [mbind option_bind].
  destruct (Z.eqb_spec (st (q ++ cut t1 str:("/index.shtml"))) 0) as [Z2|]; cbn [negb];
    [|eexists _, _, _; split; [done|]; split; [done|]; rewrite <- app_assoc, Zlen_app, Hl2, Hl1; by rewrite Zlen_app].
  rewrite <- app_assoc. set (t2 := cut t1 str:("/index.shtml") ++ 0 :: pad2) in *.
  assert (t2 <> []) as Ht2 by (unfold t2; by destruct (cut t1 _)).
  destruct (append_below d q t2 ([47] ++ MG_HTTP_INDEX ++ str:(".gz")) Hd Hq Ht2) as (pad3 & -> & Hb3 & Hl3);
    [closed_list|closed_list|done|done|done|]. cbn [mbind option_bind].
  rewrite app_assoc, stat_below by done. cbn [mbind option_bind]. set (lit3 := [47] ++ MG_HTTP_INDEX ++ str:(".gz")) in *.
  assert (length t2 = length t) as Hlen by (apply Nat2Z.inj; fold (Zlen t2); fold (Zlen t); congruence).
  destruct (Z.eqb_spec (st (q ++ cut t2 lit3)) 0) as [Z3|Hne]; cbn [negb].
  - rewrite <- app_assoc. set (t3 := cut t2 lit3 ++ 0 :: pad3) in *.
    destruct t3 as [|y t3'] eqn:E3; [by destruct (cut t2 lit3)|].
    rewrite wr_here. cbn [mbind option_bind]. eexists _, _, _. split; [done|]. split; [done|].
    rewrite !Zlen_app, Zlen_cons in *. lia.
  - destruct (decide (length t <= 11)%nat) as [Hs|Hs].
    + exfalso. apply Hne. rewrite <- Z1. do 2 f_equal. unfold cut. rewrite Hlen.
      change (length lit3) with 14%nat. change (length ([47] ++ MG_HTTP_INDEX)) with 11%nat. rewrite !Nat.min_r by lia.
      change lit3 with (([47] ++ MG_HTTP_INDEX) ++ str:(".gz")). by rewrite (take_app_le ([47] ++ MG_HTTP_INDEX)) by (simpl; lia).
    + (* the name without .gz *)
      assert (exists w, cut t2 lit3 ++ 0 :: pad3 = ([47] ++ MG_HTTP_INDEX) ++ w /\ w <> []) as (w & Ew & Hw).
      { unfold cut. rewrite Hlen. change (length lit3) with 14%nat.
        change lit3 with (([47] ++ MG_HTTP_INDEX) ++ str:(".gz")). rewrite (take_app_ge ([47] ++ MG_HTTP_INDEX))
          by (change (length ([47] ++ MG_HTTP_INDEX)) with 11%nat; lia).
        rewrite <- app_assoc. eexists. split; [done|]. by destruct (take _ _). }
      rewrite <- app_assoc, Ew. destruct w as [|y w]; [done|]. rewrite app_assoc.
      replace (Zlen q + 1 + Zlen MG_HTTP_INDEX) with (Zlen (q ++ [47] ++ MG_HTTP_INDEX)) by (rewrite !Zlen_app; change (Zlen [47]) with 1; lia).
      rewrite wr_here. cbn [mbind option_bind]. eexists _, _, _. split; [done|]. split.
      * apply below_app; [done|done|closed_list|done|done].
      * rewrite Ew in Hl3. assert (Zlen t2 = Zlen t) as Ht2' by (unfold Zlen; congruence).
        rewrite !Zlen_app, !Zlen_cons in *. lia.
Qed.

(** What the path starts with is inside the root. *)
Lemma confined_below s size m : Forall (eq 47) s -> confined (slashed (d ++ s)) size m ->
  exists q pad, m = q ++ 0 :: pad /\ below d q /\ Zlen m = size.
Proof.
  intros Hs (Hl & q & pad & E & H0 & Hc & H126 & r & Hr). exists q, pad. split; [done|]. split; [|done].
  split_and!; try done. right. destruct Hd as (_ & d' & x & Ed & Hx). unfold slashed in Hr.
  destruct Hs as [|y s <- Hs].
  - rewrite app_nil_r in Hr. assert (List.last d 0 = x) as El by (rewrite Ed; apply List.last_last).
    destruct d as [|z d0]; [by destruct d'|]. rewrite El, (proj2 (Z.eqb_neq x 47)) in Hr by done. exists r. by rewrite <- app_assoc in Hr.
  - assert (List.last (d ++ 47 :: s) 0 = 47) as El.
    { destruct s as [|z s _] using rev_ind; [apply List.last_last|]. apply Forall_app in Hs as [_ [<- _]%Forall_cons].
      change (47 :: s ++ [47]) with ((47 :: s) ++ [47]). rewrite app_assoc. apply List.last_last. }
    destruct (d ++ 47 :: s) as [|z l] eqn:El2; [by destruct d|]. rewrite El in Hr. cbn [Z.eqb Pos.eqb] in Hr. rewrite <- El2 in Hr.
    exists (s ++ r). by rewrite Hr, <- app_assoc.
Qed.

Lemma strlen_below q pad : below d q -> strlen (q ++ 0 :: pad) = Some (Zlen q).
Proof. intros (H0 & _). by apply strlen_all. Qed.

(** The redirect to the URI with a slash. *)
Lemma redirect_total c uri : 0 ∉ uri -> Zlen uri < 2 ^ 31 ->
  exists c', mg_printf no_pm c redirect_fmt [AInt (Zlen uri); AStr (Some uri)] = Some c'.
Proof.
  intros H0 Hl. unfold mg_printf, redirect_fmt.
  change (str:("HTTP/1.1 301 Moved") ++ [13; 10] ++ str:("Location: %.*s/") ++ ?r)
    with ((str:("HTTP/1.1 301 Moved") ++ [13; 10] ++ str:("Location: ")) ++ 37 :: 46 :: 42 :: 115 :: [47] ++ r).
  rewrite vx_text by closed_list. pose proof (vx_prec_s no_pm uri [] (([47] ++ [13; 10] ++ str:("Content-Length: 0")
    ++ [13; 10; 13; 10]) ++ []) [] H0 ltac:(lia)) as H. rewrite vx_text, vx_nil in H by closed_list.
  rewrite !app_nil_r in H. rewrite H. unfold put_front. cbn [mbind option_bind]. eauto.
Qed.

Lemma flags_total (b : bool) q pad : below d q ->
  exists f, (if b then Some MG_FS_DIR else stat st (q ++ 0 :: pad)) = Some f.
Proof. intros Hq. destruct b; [eauto|]. rewrite stat_below by done. eauto. Qed.

Lemma error_reply c msg : (37 ∉ msg) -> Zlen msg < 2 ^ 32 -> exists c', mg_http_reply no_pm c 400 [] msg [] = Some c'.
Proof.
  intros H37 Hl. pose proof (vx_text no_pm msg [] [] H37) as H. rewrite app_nil_r, vx_nil in H.
  unfold put_front in H. cbn [mbind option_bind] in H. rewrite app_nil_r in H.
  eexists. apply (reply_appends no_pm c 400 [] msg msg [] []); [apply not_elem_of_nil|done|done].
Qed.
End Confined.

Lemma build_path_messages uri ulen dir path msg : build_path uri ulen dir path = Some (inl msg) ->
  msg = str:("Exceeded path size") \/ msg = str:("Invalid path").
Proof.
  unfold build_path. intros H.
  repeat (apply bind_Some in H as (? & _ & H) || case_match || simplify_eq); auto.
Qed.

Lemma uri_to_path2_confined st c uri root slash path ulen : root_ok root -> Forall (eq 47) slash -> Zlen (root ++ slash) < 2 ^ 31 ->
  0 < Zlen path -> 0 ∉ uri -> Zlen uri < 2 ^ 31 ->
  exists c' flags p, uri_to_path2 st c uri ulen (root ++ slash) path = Some (c', flags, p) /\
    (flags <> -1 -> exists q pad, p = q ++ 0 :: pad /\ below root q /\ Zlen p = Zlen path).
Proof.
  intros Hd Hs Hdl Hp Hu Hul. assert (0 ∉ root ++ slash) as Hds.
  { apply not_elem_of_app. split; [apply Hd|]. intros H. rewrite Forall_forall in Hs. by apply Hs in H. }
  destruct (build_path_confined uri ulen (root ++ slash) path Hds Hdl Hp) as (r & Hr & Hc).
  unfold uri_to_path2. rewrite Hr. cbn [mbind option_bind]. destruct r as [msg|m].
  { apply build_path_messages in Hr. destruct (error_reply c msg) as [c' ->];
      [destruct Hr as [-> | ->]; closed_list|destruct Hr as [-> | ->]; vm_compute; reflexivity|].
    cbn [mbind option_bind]. by exists c', (-1), path. }
  destruct (confined_below root Hd slash _ _ Hs Hc) as (q & pad & -> & Hq & Hl).
  rewrite strlen_below with (d := root) by done. cbn [mbind option_bind].
  destruct (trim_below root (S (length (q ++ 0 :: pad))) Hd q pad) as (q' & pad' & -> & Hq' & Hl');
    [rewrite length_app; simpl; lia|done|]. cbn [mbind option_bind].
  assert (Zlen (q' ++ 0 :: pad') = Zlen path) as Hlen by congruence.
  destruct (flags_total st root (mg_strcmp uri [47] =? 0) q' pad' Hq') as [f ->]. cbn [mbind option_bind].
  destruct (f =? 0); [exists c, f, (q' ++ 0 :: pad'); eauto 10|].
  destruct (has_dir f && (0 <? Zlen uri) && negb (List.last uri 0 =? 47)).
  { destruct (redirect_total c uri Hu Hul) as [c' ->]. cbn [mbind option_bind]. by eexists _, (-1), _. }
  destruct (has_dir f); [|exists c, f, (q' ++ 0 :: pad'); eauto 10].
  destruct (find_index_below st root Hd q' (0 :: pad') f Hq') as (f' & q2 & pad2 & -> & Hq2 & Hl2); [done|].
  cbn [mbind option_bind]. exists c, f', (q2 ++ 0 :: pad2). split; [done|]. intros _. exists q2, pad2.
  split; [done|]. split; [done|congruence].
Qed.

Lemma find_sep_none s c : c ∉ s -> find_sep s c = length s.
Proof.
  induction s as [|x s IH]; intros H; [done|]. apply not_elem_of_cons in H as [Hx H]. cbn. rewrite (proj2 (Z.eqb_neq x c)) by done. by rewrite IH.
Qed.

Lemma span_none s c : c ∉ s -> s <> [] -> mg_span s c = Some (s, []).
Proof.
  intros H Hne. unfold mg_span. destruct s as [|x s']; [done|]. set (s := x :: s') in *. rewrite find_sep_none by done.
  by rewrite firstn_all, drop_all, Nat.ltb_irrefl.
Qed.

(** A root directory without mount points is the directory for every URI. *)
Lemma find_mount_plain dir uri : dir <> [] -> chr:(",") ∉ dir -> chr:("=") ∉ dir -> find_mount (S (length dir)) dir uri 0 [] = (1, dir).
Proof.
  intros Hne Hc He. cbn [find_mount]. rewrite (span_none dir _ Hc Hne), (span_none dir _ He Hne).
  assert (forall fuel u p, find_mount fuel [] uri u p = (u, p)) as Hz by (by intros []).
  destruct (_ <? _); [by rewrite Hz|]. destruct (negb _); by rewrite Hz.
Qed.

(** C32: No request can name a file outside the served directory.  For every request URI,
    file system and contents of the stack buffer, and every root directory that is not empty or the file
    system's own root, written with any number of slashes behind it: [uri_to_path2], for every mount prefix, and
    [uri_to_path], when the directory is the only one configured, stay inside the path buffer and terminate, and
    unless they have already answered the request themselves (400, or the redirect of a directory) the path they
    return is terminated inside the buffer, is the root directory or the root directory, a slash and a name, and has
    no component that starts with two dots, whatever percent escapes the URI used; this covers the index
    files they try. *)
Theorem uri_path_confined (st : list Z -> Z) (c : conn) (uri root slash path : list Z)
  (Hd : root_ok root) (Hs : Forall (eq chr:("/")) slash) (Hdl : Zlen (root ++ slash) < 2 ^ 31) (Hp : 0 < Zlen path)
  (Hu : 0 ∉ uri) (Hul : Zlen uri < 2 ^ 31) :
  (forall ulen, exists c' flags p, uri_to_path2 st c uri ulen (root ++ slash) path = Some (c', flags, p) /\
    (flags <> -1 -> exists q pad, p = q ++ 0 :: pad /\ below root q /\ Zlen p = Zlen path)) /\
  (chr:(",") ∉ root -> chr:("=") ∉ root ->
   exists c' flags p, uri_to_path st c uri (root ++ slash) path = Some (c', flags, p) /\
    (flags <> -1 -> exists q pad, p = q ++ 0 :: pad /\ below root q /\ Zlen p = Zlen path)).
Proof.
  split; [intros ulen; by apply uri_to_path2_confined|]. intros Hc He. unfold uri_to_path.
  assert (forall x, x <> 47 -> x ∉ slash) as Hn by (intros x Hx H; rewrite Forall_forall in Hs; by apply Hs in H).
  rewrite find_mount_plain; [by apply uri_to_path2_confined| |apply not_elem_of_app; split; [done|by apply Hn]..].
  pose proof (root_nonempty root Hd). by destruct root.
Qed.

Lemma uri_path_confined_witness :
  exists c' flags p, uri_to_path (fun _ => 4) (server []) str:("/docs/") (str:("/web_root") ++ [47]) (replicate 100 9)
    = Some (c', flags, p) /\
    (flags <> -1 -> exists q pad, p = q ++ 0 :: pad /\ below str:("/web_root") q /\ Zlen p = 100).
Proof.
  apply (uri_path_confined (fun _ => 4) (server []) str:("/docs/") str:("/web_root") [47] (replicate 100 9));
    [split; [closed_list|by exists str:("/web_roo"), 116]|repeat constructor|vm_compute; reflexivity|vm_compute; reflexivity
    |closed_list|vm_compute; reflexivity|closed_list|closed_list].
Defined.

(** With mount points only, a URI that matches none of them is taken as a path of the file system. *)
Example unmatched_mount :
  option_map (fun '(_, f, p) => (f, take 12 p)) (uri_to_path (fun _ => 1) (server []) str:("/etc/passwd") str:("/api=/web") (replicate 100 9))
  = Some (1, str:("/etc/passwd") ++ [0]).
Proof. vm_compute. reflexivity. Qed.

(** ** Files *)

(** The file system: flags, size and modification time of a path, whether it opens. *)
Record mg_fs := mkfs { fs_st : list Z -> Z; fs_size : list Z -> Z; fs_mtime : list Z -> Z; fs_op : list Z -> bool }.

(** A file being sent: its path, the position of the next byte, the bytes still to send. *)
Record serving := mkserving { sv_path : list Z; sv_ofs : Z; sv_cl : Z }.

Definition crlf : list Z := [13; 10].

(** The status, the first byte and the number of bytes for a file of [size] bytes. *)
Definition range_plan (size : Z) (range : option (Z * Z * Z)) : Z * Z * Z :=
  match range with
  | Some (n, r1, r2) =>
      if 0 <? n then
        let r2 := if n =? 1 then u32 (size - 1) else r2 in
        if (r2 <? r1) || (size <=? r2) then (416, 0, 0) else (206, r1, r2 - r1 + 1)
      else (200, 0, size)
  | None => (200, 0, size)
  end.

Definition range_header (size : Z) (plan : Z * Z * Z) : option (list Z) :=
  let '(status, r1, cl) := plan in
  '(m, _) ← (if status =? 416 then
               mg_vsnprintf no_pm no_pmn (replicate 100 0) (str:("Content-Range: bytes */%lld") ++ crlf) [AI64 size]
             else if status =? 206 then
               mg_vsnprintf no_pm no_pmn (replicate 100 0) (str:("Content-Range: bytes %llu-%llu/%llu") ++ crlf)
                 [AI64 r1; AI64 (r1 + cl - 1); AI64 size]
             else Some ([0], 0));
  mg_str_s m.

Definition mg_http_etag (size mtime : Z) : option (list Z) :=
  '(m, _) ← mg_vsnprintf no_pm no_pmn (replicate 64 0) ([34] ++ str:("%lld.%lld") ++ [34]) [AI64 mtime; AI64 size];
  mg_str_s m.

Definition file_fmt : list Z :=
  str:("HTTP/1.1 %d %s") ++ crlf ++ str:("Content-Type: %.*s") ++ crlf ++ str:("Etag: %s") ++ crlf
  ++ str:("Content-Length: %llu") ++ crlf ++ str:("%s%s%s") ++ crlf.

Section ServeFile.
Context (fs : mg_fs).

(** Which file answers: the compressed one if the client takes it and it opens, the file
    itself, or the page for missing files. *)
Definition pick_file (gz : bool) (path : list Z) (page404 : option (list Z)) (mime_types : mg_str)
    : option (option (list Z * bool) * mg_str) :=
  let mime := guess_content_type path mime_types in
  gzpath ← ('(m, _) ← mg_vsnprintf no_pm no_pmn (replicate (Z.to_nat MG_PATH_MAX) 0) str:("%s.gz") [cstring_arg path]; mg_str_s m);
  if gz && fs_op fs gzpath then Some (Some (gzpath, true), mime)
  else if fs_op fs path then Some (Some (path, false), mime)
  else match page404 with
       | Some p => Some (if fs_op fs p then Some (p, false) else None, guess_content_type p mime_types)
       | None => Some (None, mime)
       end.

Definition header_text (b : list Z) (hm : mg_http_message) (name : list Z) : option (option mg_str) :=
  h ← mg_http_get_header b (Http.headers hm) name; Some (option_map (text b) h).

(** [mg_http_serve_file]: the connection and, for a body, what [static_cb] will send. *)
Definition mg_http_serve_file (c : conn) (b : list Z) (hm : mg_http_message) (path : list Z)
    (page404 : option (list Z)) (mime_types extra : mg_str) : option (conn * option serving) :=
  ae ← mg_http_get_header b (Http.headers hm) str:("Accept-Encoding");
  gz ← match ae with
       | Some v => after ← rd b (at_ v + ln v);
                   '(ok, _) ← mg_match (text b v) str:("*gzip*") after NoCaps; Some ok
       | None => Some false
       end;
  '(file, mime) ← pick_file gz path page404 mime_types;
  match file with
  | None => c ← mg_http_reply no_pm c 404 extra (str:("Not found") ++ [10]) []; Some (c, None)
  | Some (path, gzip) =>
      if fs_st fs path =? 0 then
        c ← mg_http_reply no_pm c 404 extra (str:("Not found") ++ [10]) []; Some (c, None)
      else
        let size := fs_size fs path in
        etag ← mg_http_etag size (fs_mtime fs path);
        inm ← header_text b hm str:("If-None-Match");
        if match inm with Some v => mg_strcasecmp v etag =? 0 | None => false end then
          c ← mg_http_reply no_pm c 304 extra [] []; Some (c, None)
        else
          rh ← header_text b hm str:("Range");
          let plan := range_plan size (option_map getrange rh) in
          let '(status, r1, cl) := plan in
          range ← range_header size plan;
          c ← mg_printf no_pm c file_fmt [AInt status; cstring_arg (mg_http_status_code_str status);
                AInt (Zlen mime); AStr (Some mime); cstring_arg etag; AI64 cl;
                cstring_arg (if (gzip : bool) then str:("Content-Encoding: gzip") ++ crlf else []);
                cstring_arg range; cstring_arg extra];
          if mg_strcasecmp (text b (Http.method hm)) str:("HEAD") =? 0 then Some (set_resp c false, None)
          else Some (c, Some (mkserving path r1 cl))
  end.

(** [mg_http_serve_dir] with directory listings disabled and no server side includes. *)
Definition mg_http_serve_dir (c : conn) (b : list Z) (hm : mg_http_message) (root_dir extra : mg_str)
    (stack : list Z) : option (conn * option serving) :=
  '(c, flags, path) ← uri_to_path (fs_st fs) c (text b (Http.uri hm)) root_dir stack;
  if flags <? 0 then Some (c, None)
  else if has_dir flags then c ← mg_http_reply no_pm c 403 [] (str:("Forbidden") ++ [10]) []; Some (c, None)
  else p ← mg_str_s path; mg_http_serve_file c b hm p None [] extra.

(** [static_cb] on a write or poll event: [data] is the content of the open file, [size] the
    size of the send buffer.  [None] for the file when it is done. *)
Definition static_cb (data : list Z) (size : Z) (c : conn) (s : serving) : conn * option serving :=
  if size <=? Zlen (send c) then (c, Some s)
  else
    let space := Z.min (size - Zlen (send c)) (sv_cl s) in
    let chunk := take (Z.to_nat space) (drop (Z.to_nat (sv_ofs s)) data) in
    let n := Zlen chunk in
    let c := set_send c (send c ++ chunk) in
    if n =? 0 then (set_resp c false, None)
    else (c, Some (mkserving (sv_path s) (sv_ofs s + n) (sv_cl s - n))).
End ServeFile.

Example serve_partial :
  let b := str:("GET /a.txt HTTP/1.1") ++ crlf ++ str:("Range: bytes=2-3") ++ crlf ++ crlf in
  match mg_http_parse b with
  | Some (_, hm) =>
      option_map snd (mg_http_serve_dir (mkfs (fun _ => 1) (fun _ => 10) (fun _ => 0) (fun _ => true)) (server b) b hm
        str:("/web_root/") str:("X: y") (replicate 100 9))
      = Some (Some (mkserving str:("/web_root/a.txt") 2 2))
  | None => False
  end.
Proof. vm_compute. reflexivity. Qed.

(** A suffix range is served from the start of the file. *)
Example range_suffix : range_plan 1000 (Some (getrange str:("bytes=-500"))) = (206, 0, 1000).
Proof. vm_compute. reflexivity. Qed.

(** ** What is sent of a file *)

(** Write events until the file is done, the send buffer being emptied in between. *)
Fixpoint pump (fuel : nat) (data : list Z) (size : Z) (s : serving) : option (list Z) :=
  match fuel with
  | O => None
  | S fuel' =>
      let '(c, r) := static_cb data size (server []) s in
      match r with
      | None => Some (send c)
      | Some s => rest ← pump fuel' data size s; Some (send c ++ rest)
      end
  end.

Lemma pump_sends fuel : forall data size s, 0 < size -> 0 <= sv_ofs s -> 0 <= sv_cl s ->
  sv_ofs s + sv_cl s <= Zlen data -> (Z.to_nat (sv_cl s) < fuel)%nat ->
  pump fuel data size s = Some (take (Z.to_nat (sv_cl s)) (drop (Z.to_nat (sv_ofs s)) data)).
Proof.
  induction fuel as [|fuel IH]; intros data size [p o cl] Hs Ho Hc Hl Hf; cbn [sv_ofs sv_cl] in *; [lia|].
  cbn [pump]. unfold static_cb, server. cbn [send]. change (Zlen (@nil Z)) with 0. rewrite (proj2 (Z.leb_gt size 0)) by lia.
  cbn [sv_ofs sv_cl sv_path app set_send send]. rewrite Z.sub_0_r.
  set (d := drop (Z.to_nat o) data). assert (cl <= Zlen d) as Hd by (unfold d, Zlen in *; rewrite length_drop; lia).
  set (k := Z.to_nat (Z.min size cl)).
  assert (Zlen (take k d) = Z.min size cl) as Hk by (unfold Zlen in *; rewrite length_take; unfold k; lia).
  rewrite Hk. destruct (Z.eqb_spec (Z.min size cl) 0) as [E|E].
  - cbn [set_resp send]. f_equal. unfold k. rewrite E. by replace cl with 0 by lia.
  - rewrite IH; cbn [sv_ofs sv_cl]; [|lia..]. cbn [mbind option_bind send]. f_equal.
    replace (Z.to_nat (o + Z.min size cl)) with (Z.to_nat o + k)%nat by (unfold k; lia). rewrite <- drop_drop. fold d.
    replace (Z.to_nat cl) with (k + Z.to_nat (cl - Z.min size cl))%nat by (unfold k; lia).
    cbn [set_send send]. apply take_take_drop.
Qed.

Lemma mg_to_size_t_nonneg s v : mg_to_size_t s = Some v -> 0 <= v.
Proof.
  unfold mg_to_size_t. case_match; [done|].
  assert (forall l r nd x y z, 0 <= r -> size_loop l r nd = Some (x, y, z) -> 0 <= x) as Hl.
  { induction l as [|c l IH]; intros r nd x y z Hr; cbn [size_loop]; [intros; by simplify_eq|].
    destruct (is_digit c); [|intros; by simplify_eq]. cbv zeta.
    destruct (_ <? r); [done|]. destruct (_ <? u32 (r * 10)); [done|]. apply IH, u32_range. }
  intros H'. apply bind_Some in H' as ([[r nd] rest] & Hr & H'). apply Hl in Hr; [|done].
  repeat case_match; by simplify_eq.
Qed.

Lemma getrange_nonneg s : 0 <= (getrange s).1.2 /\ 0 <= (getrange s).2.
Proof.
  unfold getrange. induction s as [|c s IH]; [done|]. cbn [range_loop].
  assert (forall o : mg_str, 0 <= default 0 (mg_to_size_t o)) as Hd.
  { intros o. destruct (mg_to_size_t o) eqn:E; [by apply mg_to_size_t_nonneg in E|done]. }
  case_match; [|done]. case_match; [|done]. case_match; [|cbn; split; [apply Hd|done]].
  destruct p. cbn. split; [apply Hd|]. case_match; [apply Hd|done].
Qed.

(** Range requests are answered with exactly the bytes asked for: for a file of any size
    below 2^32 and any Range header (or none), the plan is the whole file with status 200, a
    non-empty slice inside the file with status 206, or nothing with status 416; and the
    write events then send exactly that slice of the contents, in order, whatever the size
    of the send buffer, and finish. *)
Theorem range_served (data : list Z) (range : option (list Z)) (size : Z) (Hsz : 0 < size) (Hd : Zlen data < 2 ^ 32) :
  let '(status, r1, cl) := range_plan (Zlen data) (option_map getrange range) in
  (status = 200 /\ r1 = 0 /\ cl = Zlen data \/ status = 206 /\ 0 < cl \/ status = 416 /\ cl = 0) /\
  0 <= r1 /\ 0 <= cl /\ r1 + cl <= Zlen data /\
  pump (S (Z.to_nat cl)) data size (mkserving [] r1 cl) = Some (take (Z.to_nat cl) (drop (Z.to_nat r1) data)).
Proof.
  destruct (range_plan _ _) as [[status r1] cl] eqn:E. pose proof (Zlen_nonneg data).
  enough ((status = 200 /\ r1 = 0 /\ cl = Zlen data \/ status = 206 /\ 0 < cl \/ status = 416 /\ cl = 0) /\
    0 <= r1 /\ 0 <= cl /\ r1 + cl <= Zlen data) as (H1 & H2 & H3 & H4).
  { split_and!; [done..|]. apply pump_sends; cbn [sv_ofs sv_cl]; lia. }
  unfold range_plan in E. destruct range as [rh|]; cbn [option_map] in E; [|injection E as <- <- <-; lia].
  destruct (getrange rh) as [[n a] b] eqn:Eg. pose proof (getrange_nonneg rh) as Hg. rewrite Eg in Hg. cbn [fst snd] in Hg.
  destruct (0 <? n); [|injection E as <- <- <-; lia].
  destruct ((if n =? 1 then u32 (Zlen data - 1) else b) <? a) eqn:E1; cbn [orb] in E; [injection E as <- <- <-; lia|].
  destruct (Zlen data <=? (if n =? 1 then u32 (Zlen data - 1) else b)) eqn:E2; injection E as <- <- <-; zbool; lia.
Qed.

Lemma range_served_witness :
  let '(status, r1, cl) := range_plan 5 (Some (2, 1, 3)) in
  (status = 200 /\ r1 = 0 /\ cl = 5 \/ status = 206 /\ 0 < cl \/ status = 416 /\ cl = 0) /\
  0 <= r1 /\ 0 <= cl /\ r1 + cl <= 5 /\
  pump 4 [10; 11; 12; 13; 14] 2 (mkserving [] 1 3) = Some [11; 12; 13].
Proof.
  exact (range_served [10; 11; 12; 13; 14] (Some str:("bytes=1-3")) 2 eq_refl eq_refl).
Defined.
