(* ===== verification/Api.v ===== *)
(** * Api: the device API of the firmware (mongoose/mongoose_impl.c, lines 64-193 and 294-525)

    The handlers of the HTTP server: objects of device data that are read and written as
    JSON, arrays, uploads.  The firmware state behind the getters and setters is an abstract type [D].
    A C structure described by an attribute table is the list of the values of its
    attributes (the fields do not overlap).  Login is disabled in this build. *)

From S2P Require Import Prelude Str Base64 Json Iobuf Url Http Fmt Util Httpd Serve.
From Stdlib Require Import Floats.SpecFloat.

(** ** Tables *)

Inductive attr_type := T_int | T_double | T_bool | T_string (size : Z) | T_other.

Record attribute := attr { a_name : list Z; a_type : attr_type; a_format : option (list Z) }.

Inductive value := VInt (z : Z) | VDbl (d : spec_float) | VBool (b : bool) | VStr (mem : list Z) | VNone.

#[export] Instance spec_float_eq_dec : EqDecision spec_float.
Proof. intros x y. unfold Decision. decide equality; try apply Z.eq_dec; try apply Bool.bool_dec. apply Pos.eq_dec. Defined.

#[export] Instance value_eq_dec : EqDecision value.
Proof. solve_decision. Defined.

Definition s_imu_attributes : list attribute :=
  map (fun n => attr n T_double None) [str:("gz"); str:("gy"); str:("gx"); str:("az"); str:("ay"); str:("ax")].

Definition s_power_service_settings_attributes : list attribute :=
  map (fun n => attr n T_double None) [str:("critical_volts"); str:("empty_volts"); str:("full_volts")].

Definition s_state_attributes : list attribute :=
  [attr str:("ros_online") T_bool None; attr str:("adapter_current") T_double None;
   attr str:("charger_state") (T_string 20) None; attr str:("adapter_volts") T_double None;
   attr str:("battery_current") T_double None; attr str:("battery_volts") T_double None;
   attr str:("battery_level") T_int None].

Section Api.
Context {D : Type}.

Record data_ops := mkdata {
  attributes : list attribute;
  getter : D -> list value;
  setter : option (D -> list value -> D) }.

Record array_ops := mkarray {
  arr_attributes : list attribute;
  arr_getter : D -> Z -> list value;
  sizer : D -> Z }.

Record action_ops := mkaction { checker : D -> bool; starter : D -> list Z -> D }.

(** Upload handlers: whether the file opens, and whether a write succeeds. *)
Record upload_ops := mkupload { opener : list Z -> Z -> bool; writer : list (list Z) -> list Z -> bool }.

(** The [type] string of a handler with the structure it selects: "data" and "object" have the
    same one, "upload" and "ota" too. *)
Inductive handler_kind :=
  | K_data (o : data_ops) | K_object (o : data_ops) | K_array (o : array_ops) | K_action (o : action_ops)
  | K_upload (type : list Z) (o : upload_ops) | K_file (o : upload_ops) (server : conn -> list Z -> conn)
  | K_custom (reply : conn -> list Z -> mg_http_message -> conn) | K_unknown (type : list Z).

Record apihandler := handler { h_name : list Z; h_kind : handler_kind }.

(** ** Lookup *)

(** [strncmp(name, h->name, n) == 0] with [n] = strlen(h->name) <= name.len. *)
Definition name_matches (name hname : list Z) : bool :=
  if Zlen name <? Zlen hname then false
  else bool_decide (take (length hname) name = hname) &&
       match drop (length hname) name with [] => true | c :: _ => c =? chr:("/") end.

Fixpoint find_named (hs : list apihandler) (name : list Z) : option apihandler :=
  match hs with
  | [] => None
  | h :: hs' => if name_matches name (h_name h) then Some h else find_named hs' name
  end.

Definition get_api_handler (hs : list apihandler) (name : list Z) : option apihandler :=
  match name with [] => None | _ => find_named hs name end.

Definition find_handler (hs : list apihandler) (uri : list Z) : option apihandler :=
  if (Zlen uri <? 6) || negb (bool_decide (take 5 uri = str:("/api/"))) then None
  else get_api_handler hs (drop 5 uri).

(** ** Printing *)

Definition PRINT_STRUCT : Z := 100.
Definition PRINT_ARRAY : Z := 101.

(** [MG_ESC(str)]: the printer, a zero length and the string. *)
Definition mg_esc_args (s : list Z) : va_list := [AFun (pm_id PM_esc); AInt 0; AStr (Some s)].

Definition print_value (a : attribute) (v : value) : option (list Z) :=
  '(out, _) ← match a_type a, v with
              | T_int, VInt z => mg_vxprintf mg_pm str:("%d") [AInt z]
              | T_double, VDbl d => mg_vxprintf mg_pm (default str:("%g") (a_format a)) [ADbl d]
              | T_bool, VBool b => mg_vxprintf mg_pm str:("%s") [cstring_arg (if b then str:("true") else str:("false"))]
              | T_string _, VStr m => mg_vxprintf mg_pm str:("%m") (mg_esc_args m)
              | T_other, _ => mg_vxprintf mg_pm str:("null") []
              | _, _ => None
              end;
  Some out.

(** [print_struct]: [first] is i == 0. *)
Fixpoint print_struct (first : bool) (l : list attribute) (vs : list value) : option (list Z) :=
  match l, vs with
  | [], _ => Some []
  | a :: l', v :: vs' =>
      '(key, _) ← mg_vxprintf mg_pm str:("%s%m:")
                    (cstring_arg (if first then [] else str:(",")) :: mg_esc_args (a_name a ++ [0]));
      val ← print_value a v;
      rest ← print_struct false l' vs';
      Some (key ++ val ++ rest)
  | _ :: _, [] => None
  end.

(** ** Objects *)

Definition NO_CACHE_HEADERS : list Z := str:("Cache-Control: no-cache") ++ crlf.
Definition JSON_HEADERS : list Z := str:("Content-Type: application/json") ++ crlf ++ NO_CACHE_HEADERS.

(** [mg_json_get_str2]: the field keeps its contents unless the token is a string. *)
Definition mg_json_get_str2 (json path mem : list Z) : option (list Z) :=
  t ← mg_json_get_tok json path;
  if (1 <? Zlen t) && (hd 0 t =? 34) then
    '(_, m) ← mg_json_unescape (take (length t - 2) (drop 1 t)) mem; Some m
  else Some mem.

(** The JSON path of an attribute, as a C string in a buffer of 100 bytes. *)
Definition jpath (name : list Z) : option (list Z) :=
  '(m, _) ← mg_vsnprintf no_pm no_pmn (replicate 100 0) str:("$.%s") [cstring_arg name];
  p ← mg_str_s m; Some (p ++ [0]).

(** One attribute taken from the body of a request. *)
Definition update_value (body : list Z) (a : attribute) (v : value) : option value :=
  p ← jpath (a_name a);
  match a_type a, v with
  | T_int, VInt z => d ← mg_json_get_num body p;
                     match d with Some d => z ← long_of_f64 d; Some (VInt z) | None => Some v end
  | T_bool, VBool b => d ← mg_json_get_bool body p;
                       Some (match d with Some b => VBool b | None => v end)
  | T_double, VDbl _ => d ← mg_json_get_num body p;
                        Some (match d with Some d => VDbl d | None => v end)
  | T_string _, VStr m => m ← mg_json_get_str2 body p m; Some (VStr m)
  | _, _ => Some v
  end.

Fixpoint update_values (body : list Z) (l : list attribute) (vs : list value) : option (list value) :=
  match l, vs with
  | a :: l', v :: vs' => v ← update_value body a v; r ← update_values body l' vs'; Some (v :: r)
  | _, _ => Some vs
  end.

(** The global state the handlers touch: the firmware and [s_device_change_version]. *)
Record device := dev { fw : D; version : Z }.

Definition struct_pm (l : list attribute) (vs : list value) (id : Z) (ap : va_list) : option (list Z * va_list) :=
  if id =? PRINT_STRUCT then out ← print_struct true l vs; Some (out, ap) else mg_pm id ap.

Definition handle_object (d : device) (c : conn) (body : list Z) (h : data_ops) : option (device * conn) :=
  let data := getter h (fw d) in
  '(d, data) ← (if (0 <? Zlen body) && (0 <? Zlen (attributes h)) then
                  tmp ← update_values body (attributes h) data;
                  let version := if bool_decide (data = tmp) then version d else u32 (version d + 1) in
                  let fw := match setter h with Some f => f (fw d) tmp | None => fw d end in
                  Some (dev fw version, getter h fw)
                else Some (d, data));
  c ← mg_http_reply (struct_pm (attributes h) data) c 200 JSON_HEADERS (str:("{%M}") ++ [10]) [AFun PRINT_STRUCT];
  Some (d, c).

(** ** Arrays *)

(** [print_array]: at most 20 elements from [start]; the index is a 64-bit sum. *)
Fixpoint print_array (n : nat) (d : D) (h : array_ops) (size start i : Z) : option (list Z) :=
  match n with
  | O => Some []
  | S n' =>
      if u64 (start + i) <? size then
        el ← print_struct true (arr_attributes h) (arr_getter h d (u64 (start + i)));
        rest ← print_array n' d h size start (i + 1);
        Some ((if 0 <? i then [44] else []) ++ [123] ++ el ++ [125] ++ rest)
      else Some []
  end.

Definition array_pm (d : D) (h : array_ops) (size start : Z) (id : Z) (ap : va_list) : option (list Z * va_list) :=
  if id =? PRINT_ARRAY then out ← print_array 20 d h size start 0; Some (out, ap) else mg_pm id ap.

Definition handle_array (d : device) (c : conn) (query : list Z) (h : array_ops) : option conn :=
  let size := u64 (sizer h (fw d)) in
  '(_, buf) ← mg_http_get_var query str:("start") (replicate 40 0);
  s ← mg_str_s buf;
  let start := default 0 (mg_str_to_num s 10 8) in
  mg_http_reply (array_pm (fw d) h size start) c 200 JSON_HEADERS (str:("{%m:%llu, %m:%llu, %m:[%M]}") ++ [10])
    (mg_esc_args (str:("size") ++ [0]) ++ [AI64 size] ++ mg_esc_args (str:("start") ++ [0]) ++ [AI64 start]
     ++ mg_esc_args (str:("data") ++ [0]) ++ [AFun PRINT_ARRAY]).
End Api.

Arguments data_ops : clear implicits.
Arguments array_ops : clear implicits.
Arguments action_ops : clear implicits.
Arguments handler_kind : clear implicits.
Arguments apihandler : clear implicits.
Arguments device : clear implicits.

Example print_state :
  print_struct true s_state_attributes
    [VBool true; VDbl (f64_div (f64_of_Z 3) (f64_of_Z 2)); VStr (str:("CC") ++ [0]); VDbl (f64_of_Z 0);
     VDbl (f64_of_Z (-2)); VDbl (f64_of_Z 29); VInt 88]
  = Some ([34] ++ str:("ros_online") ++ [34] ++ str:(":true,") ++ [34] ++ str:("adapter_current") ++ [34] ++ str:(":1.5,")
     ++ [34] ++ str:("charger_state") ++ [34; 58; 34] ++ str:("CC") ++ [34; 44; 34] ++ str:("adapter_volts") ++ [34] ++ str:(":0,")
     ++ [34] ++ str:("battery_current") ++ [34] ++ str:(":-2,") ++ [34] ++ str:("battery_volts") ++ [34] ++ str:(":29,")
     ++ [34] ++ str:("battery_level") ++ [34] ++ str:(":88")).
Proof. vm_compute. reflexivity. Qed.

(** ** Uploads *)

(** The upload in [c->data]: the blocks written so far, in order, are kept with it. *)
Record upload_state := us { expected : Z; received : Z; written : list (list Z) }.

Definition ALIGNMENT : Z := 512.

Definition round_down (x a : Z) : Z := if a =? 0 then x else x / a * a.

(** [upload_handler] on a read event: the connection, the upload ([None] after the file is
    closed), and the blocks written. *)
Definition upload_read (w : list (list Z) -> list Z -> bool) (c : conn) (u : upload_state)
    : option (conn * option upload_state * list (list Z)) :=
  let n := Zlen (recv c) in
  if (0 <? expected u) && (0 <? n) then
    let aligned := if u32 (received u + n) <? expected u then round_down n ALIGNMENT else n in
    let block := take (Z.to_nat aligned) (recv c) in
    let ok := if 0 <? aligned then w (written u) block else true in
    let written := if 0 <? aligned then written u ++ [block] else written u in
    let received := u32 (received u + aligned) in
    let c := set_recv c (drop (Z.to_nat aligned) (recv c)) in
    if negb ok then
      c ← mg_http_reply no_pm c 400 [] (str:("Upload error") ++ [10]) [];
      Some (set_draining c, None, written)
    else if expected u <=? received then
      c ← mg_http_reply no_pm c 200 [] (str:("%lu ok") ++ [10]) [AInt received];
      Some (set_draining c, None, written)
    else Some (c, Some (us (expected u) received written), written)
  else Some (c, Some u, written u).

(** [get_file_name_from_uri]: the second capture of the pattern, decoded into [buf]; [after]
    is the byte behind the URI. *)
Definition get_file_name_from_uri (uri : list Z) (after : Z) (buf : list Z) : option (list Z) :=
  '(_, caps) ← mg_match uri str:("/api/*/#") after (Caps (replicate 3 (None, 0)) 0);
  match caps with
  | Caps [_; (p1, n1); _] _ =>
      let part := match p1 with Some o => take (Z.to_nat n1) (drop (Z.to_nat o) uri) | None => [] end in
      '(_, buf) ← mg_url_decode part buf false; Some buf
  | _ => None
  end.

(** What [c->data] is used for. *)
Inductive conn_data {D : Type} :=
  | C_none                                  (* first byte 0 *)
  | C_upload (o : upload_ops) (u : upload_state)
  | C_failed                                (* marked as upload, file did not open *)
  | C_action (fn : D -> bool).              (* waits for the action with this status function *)
Arguments conn_data : clear implicits.

(** [prep_upload] at the start of the body: the file name, the opener, then the data that
    came with the head. *)
Definition prep_upload {D} (o : upload_ops) (c : conn) (uri : list Z) (after body_len head_len : Z) (stack : list Z)
    : option (conn * conn_data D) :=
  path ← get_file_name_from_uri uri after stack;
  name ← mg_str_s path;
  if opener o name body_len then
    let c := detach (set_recv c (drop (Z.to_nat head_len) (recv c))) in
    '(c, u, _) ← upload_read (writer o) c (us body_len 0 []);
    Some (c, match u with Some u => C_upload o u | None => C_none end)
  else
    c ← mg_http_reply no_pm c 400 JSON_HEADERS (str:("File open error") ++ [10]) [];
    Some (set_draining c, C_failed).

(** A body that arrives in pieces. *)
Fixpoint upload_run (w : list (list Z) -> list Z -> bool) (c : conn) (u : upload_state) (segs : list (list Z))
    : option (conn * option upload_state * list (list Z)) :=
  match segs with
  | [] => Some (c, Some u, written u)
  | s :: segs' =>
      '(c, r, ws) ← upload_read w (set_recv c (recv c ++ s)) u;
      match r with Some u => upload_run w c u segs' | None => Some (c, None, ws) end
  end.

(** Bytes of the next request that arrive with the end of the body are written too. *)
Example upload_overrun :
  option_map (fun '(_, _, ws) => ws) (upload_run (fun _ _ => true) (server []) (us 3 0 []) [str:("abcGET")])
  = Some [str:("abcGET")].
Proof. vm_compute. reflexivity. Qed.

(** An upload of length zero is never answered. *)
Example upload_empty :
  option_map (fun '(c, u, _) => (send c, u)) (upload_run (fun _ _ => true) (server []) (us 0 0 []) [str:("x")])
  = Some ([], Some (us 0 0 [])).
Proof. reflexivity. Qed.

Definition all_ok (_ : list (list Z)) (_ : list Z) : bool := true.

(** Blocks for the flash: all but the last are multiples of the alignment. *)
Definition aligned_blocks (ws : list (list Z)) : Prop := Forall (fun b => Zlen b mod 512 = 0 /\ b <> []) ws.

Definition upload_inv (total : Z) (seen : list Z) (c : conn) (u : upload_state) : Prop :=
  expected u = total /\ received u = Zlen (concat (written u)) /\ concat (written u) ++ recv c = seen /\
  Zlen seen < total /\ aligned_blocks (written u).

Lemma Zlen_pos {A} (l : list A) : l <> [] -> 0 < Zlen l.
Proof. destruct l; [done|]. intros _. rewrite Zlen_cons. pose proof (Zlen_nonneg l). lia. Qed.

Lemma concat_snoc {A} (l : list (list A)) x : concat (l ++ [x]) = concat l ++ x.
Proof. rewrite concat_app. simpl. by rewrite app_nil_r. Qed.

(** A piece that does not end the body. *)
Lemma upload_step total seen c u s : upload_inv total seen c u -> s <> [] -> total < 2 ^ 31 ->
  Zlen (seen ++ s) < total ->
  exists c' u', upload_read all_ok (set_recv c (recv c ++ s)) u = Some (c', Some u', written u') /\
    upload_inv total (seen ++ s) c' u' /\ send c' = send c.
Proof.
  intros (He & Hr & Hs & Hl & Ha) Hne Ht Hlt. unfold upload_read. cbn [recv set_recv].
  pose proof (Zlen_nonneg (concat (written u))). pose proof (Zlen_nonneg (recv c)).
  pose proof (Zlen_pos s Hne).
  assert (Zlen seen = received u + Zlen (recv c)) as Hsl by (rewrite <- Hs, Zlen_app; lia).
  rewrite Zlen_app in Hlt. rewrite Zlen_app, He. rewrite !(proj2 (Z.ltb_lt 0 _)) by lia. cbn [andb].
  rewrite u32_small by lia. rewrite (proj2 (Z.ltb_lt _ total)) by lia.
  set (n := Zlen (recv c) + Zlen s). set (al := round_down n ALIGNMENT).
  assert (al = n / 512 * 512) as Hal by done.
  assert (0 <= al <= n) as Hn by (rewrite Hal; unfold n; dlia).
  cbn [all_ok]. assert ((if 0 <? al then all_ok (written u) (take (Z.to_nat al) (recv c ++ s)) else true) = true) as ->
    by (by destruct (0 <? al)). cbn [negb].
  rewrite u32_small by lia. rewrite (proj2 (Z.leb_gt total _)) by lia.
  eexists _, (us _ _ _). split; [reflexivity|]. split; [|done]. unfold upload_inv. cbn [expected received written recv set_recv].
  assert (Zlen (take (Z.to_nat al) (recv c ++ s)) = al) as Htk
    by (unfold Zlen in *; rewrite length_take, length_app; unfold n in Hn; lia).
  split; [done|]. destruct (Z.ltb_spec 0 al).
  - rewrite concat_snoc, Zlen_app, Htk. split; [lia|]. rewrite <- app_assoc, take_drop, app_assoc, Hs.
    split; [done|]. rewrite Zlen_app. split; [lia|]. apply Forall_app_2; [done|]. apply Forall_singleton.
    split; [rewrite Htk, Hal; apply Z.mod_mul; lia|]. intros E. rewrite E in Htk. change (Zlen []) with 0 in Htk. lia.
  - replace al with 0 by lia. change (Z.to_nat 0) with O. rewrite drop_0, app_assoc, Hs, Zlen_app.
    split; [lia|]. split; [done|]. split; [lia|done].
Qed.

(** The piece that ends it. *)
Lemma upload_last total seen c u s : upload_inv total seen c u -> total < 2 ^ 31 -> Zlen (seen ++ s) = total ->
  exists c' ws, upload_read all_ok (set_recv c (recv c ++ s)) u = Some (c', None, ws) /\
    concat ws = seen ++ s /\ recv c' = [] /\ is_draining c' = true /\
    (exists b, ws = written u ++ [b]) /\
    send c' = send c ++ reply_head 200 [] ++ length_field (Zlen (mg_lld total false false) + 4) ++ [32; 13; 10; 13; 10]
              ++ mg_lld total false false ++ str:(" ok") ++ [10].
Proof.
  intros (He & Hr & Hs & Hl & Ha) Ht Hlt. unfold upload_read. cbn [recv set_recv].
  pose proof (Zlen_nonneg (concat (written u))). pose proof (Zlen_nonneg (recv c)). pose proof (Zlen_nonneg s).
  assert (Zlen seen = received u + Zlen (recv c)) as Hsl by (rewrite <- Hs, Zlen_app; lia).
  rewrite Zlen_app in Hlt. rewrite Zlen_app, He. rewrite !(proj2 (Z.ltb_lt 0 _)) by lia. cbn [andb].
  rewrite u32_small by lia. rewrite (proj2 (Z.ltb_ge _ total)) by lia.
  rewrite (proj2 (Z.ltb_lt 0 (Zlen (recv c) + Zlen s))) by lia. cbn [all_ok negb].
  rewrite u32_small by lia. rewrite (proj2 (Z.leb_le total _)) by lia.
  replace (received u + (Zlen (recv c) + Zlen s)) with total by lia.
  assert (mg_vxprintf no_pm (str:("%lu ok") ++ [10]) [AInt total] = Some (mg_lld total false false ++ str:(" ok") ++ [10], [])) as Hvx.
  { change (str:("%lu ok") ++ [10]) with (37 :: [108] ++ 117 :: (str:(" ok") ++ [10]) ++ []).
    rewrite (vx_conv no_pm [108] 117 _ _ (mkspec false false 32 0 NO_PREC 1 117) [AInt total] (mg_lld total false false) []);
      [|done|].
    - rewrite vx_text by (by apply (bool_decide_unpack (37 ∉ str:(" ok") ++ [10]))). unfold put_front. rewrite vx_nil.
      cbn [mbind option_bind]. by rewrite app_nil_r.
    - unfold convert. cbn -[mg_lld scpy Zlen u32 Z.max Z.sub]. rewrite u32_small by lia.
      unfold print_number. cbn [alt width pad minus]. rewrite scpy_all by apply mg_lld_no_nul.
      cbn -[mg_lld pad_count Zlen Z.max Z.sub].
      replace (pad_count _ _) with 0%nat by (unfold pad_count; pose proof (Zlen_nonneg (mg_lld total false false)); lia).
      simpl. by rewrite app_nil_r. }
  pose proof (mg_lld_length total ltac:(lia)) as Hdig.
  rewrite (reply_appends no_pm _ 200 [] _ _ _ _ (not_elem_of_nil 0) Hvx) by (unfold Zlen; rewrite length_app; simpl length at 2; lia).
  cbn [mbind option_bind]. eexists _, _. split; [done|].
  assert (take (Z.to_nat (Zlen (recv c) + Zlen s)) (recv c ++ s) = recv c ++ s) as Htk
    by (apply take_ge; unfold Zlen; rewrite length_app; lia).
  rewrite Htk, concat_snoc, app_assoc, Hs. split; [done|]. cbn [recv set_recv set_resp set_send set_draining is_draining send].
  split; [apply drop_ge; unfold Zlen; rewrite length_app; lia|]. split; [done|]. split; [by eexists|].
  rewrite Zlen_app. done.
Qed.

(** The reply at the end of an upload. *)
Definition upload_reply (total : Z) : list Z :=
  reply_head 200 [] ++ length_field (Zlen (mg_lld total false false) + 4) ++ [32; 13; 10; 13; 10]
  ++ mg_lld total false false ++ str:(" ok") ++ [10].

Lemma upload_run_complete segs : forall total seen c u last,
  upload_inv total seen c u -> total < 2 ^ 31 -> Forall (fun s => s <> []) segs -> last <> [] ->
  Zlen (seen ++ concat segs ++ last) = total ->
  exists c' ws, upload_run all_ok c u (segs ++ [last]) = Some (c', None, ws) /\
    concat ws = seen ++ concat segs ++ last /\ recv c' = [] /\ is_draining c' = true /\
    (exists bs b, ws = bs ++ [b] /\ aligned_blocks bs) /\ send c' = send c ++ upload_reply total.
Proof.
  induction segs as [|s segs IH]; intros total seen c u last Hi Ht Hs Hl Hlen; cbn [app upload_run concat] in *.
  - destruct (upload_last total seen c u last Hi Ht Hlen) as (c' & ws & -> & Hc & Hr & Hd & (b & Hw) & Hsend).
    cbn [mbind option_bind]. exists c', ws. split_and!; try done. exists (written u), b. split; [done|]. apply Hi.
  - apply Forall_cons in Hs as [Hne Hs]. rewrite <- app_assoc, app_assoc in Hlen.
    pose proof (Zlen_pos last Hl).
    destruct (upload_step total seen c u s Hi Hne Ht) as (c1 & u1 & -> & Hi1 & Hs1).
    { rewrite Zlen_app in Hlen. pose proof (Zlen_nonneg (concat segs)). rewrite Zlen_app in Hlen. rewrite Zlen_app in *. lia. }
    cbn [mbind option_bind]. destruct (IH total (seen ++ s) c1 u1 last Hi1 Ht Hs Hl Hlen) as (c' & ws & Hrun & Hc & H1 & H2 & H3 & H4).
    exists c', ws. rewrite <- !app_assoc in Hc. split_and!; try done; [by rewrite <- app_assoc|congruence].
Qed.

(** An upload writes exactly the body, however it arrives.  For a body of 1 byte to 2 GiB
    cut into any non-empty pieces, with a file that opens and accepts its writes, the
    blocks handed to the writer are, in order, exactly the bytes of the body; every block
    but the last is a non-empty multiple of the 512 bytes the flash needs; the file is
    closed once, after the last byte; the reply states the total and is sent once; nothing
    stays in the receive buffer and the connection is closed after the reply. *)
Theorem upload_complete (c : conn) (segs : list (list Z)) (last : list Z)
  (Hc : recv c = []) (Hs : Forall (fun s => s <> []) segs) (Hl : last <> [])
  (Ht : Zlen (concat segs ++ last) < 2 ^ 31) :
  let total := Zlen (concat segs ++ last) in
  exists c' ws, upload_run all_ok c (us total 0 []) (segs ++ [last]) = Some (c', None, ws) /\
    concat ws = concat segs ++ last /\ recv c' = [] /\ is_draining c' = true /\
    (exists bs b, ws = bs ++ [b] /\ aligned_blocks bs) /\ send c' = send c ++ upload_reply total.
Proof.
  apply (upload_run_complete segs _ [] c (us _ 0 []) last); [|done..].
  pose proof (Zlen_pos last Hl).
  split_and!; [done|done|done| |constructor]. cbn [expected]. change (Zlen (@nil Z)) with 0.
  rewrite Zlen_app. pose proof (Zlen_nonneg (concat segs)). lia.
Qed.

Lemma upload_complete_witness :
  exists c' ws, upload_run all_ok (server []) (us 601 0 []) ([replicate 300 1; replicate 300 2] ++ [[3]]) = Some (c', None, ws) /\
    concat ws = concat [replicate 300 1; replicate 300 2] ++ [3] /\ recv c' = [] /\ is_draining c' = true /\
    (exists bs b, ws = bs ++ [b] /\ aligned_blocks bs) /\ send c' = [] ++ upload_reply 601.
Proof.
  apply (upload_complete (server []) [replicate 300 1; replicate 300 2] [3]);
    [reflexivity|repeat constructor; discriminate|discriminate|vm_compute; reflexivity].
Defined.
