(* ===== verification/Upgrade.v ===== *)
(** * Upgrade: a connection becomes a WebSocket (mongoose/mongoose.c, lines 20056-20080 and 20286-20304)

    The server side of the opening handshake: the accept value is the Base64 form of the
    SHA-1 digest of the client's key followed by a fixed GUID.  The contents of the stack
    buffers before the call are arguments. *)

From S2P Require Import Prelude Str Base64 Iobuf Sha1 Http Fmt Httpd Serve.

Definition magic : list Z := str:("258EAFA5-E914-47DA-95CA-C5AB0DC85B11").

Definition switching_fmt : list Z :=
  str:("HTTP/1.1 101 Switching Protocols") ++ crlf ++ str:("Upgrade: websocket") ++ crlf
  ++ str:("Connection: Upgrade") ++ crlf ++ str:("Sec-WebSocket-Accept: %s") ++ crlf.

Section Upgrade.
(** The printer of the caller's format, the memory of the hash context and of [b64_sha]. *)
Context (pm : Z -> va_list -> option (list Z * va_list)) (ctx b64_sha : list Z).

(** [wskey] and [wsproto] are the header values; [fmt] with its arguments adds headers. *)
Definition ws_handshake (c : conn) (wskey : list Z) (wsproto : option (list Z)) (fmt : option (list Z)) (ap : va_list)
    : option conn :=
  sha ← sha1_of ctx [wskey; magic];
  '(b64, _) ← mg_base64_encode sha b64_sha;
  c ← mg_printf no_pm c switching_fmt [AStr (Some b64)];
  c ← (match fmt with Some f => mg_printf pm c f ap | None => Some c end);
  c ← (match wsproto with
       | Some p => mg_printf no_pm c (str:("Sec-WebSocket-Protocol: %.*s") ++ crlf) [AInt (Zlen p); AStr (Some p)]
       | None => Some c
       end);
  Some (set_send c (send c ++ crlf)).

(** [mg_ws_upgrade]: the connection and whether it is a WebSocket now (the event
    MG_EV_WS_OPEN is reported in that case; the HTTP protocol handler is detached anyway). *)
Definition mg_ws_upgrade (c : conn) (b : list Z) (hm : mg_http_message) (fmt : option (list Z)) (ap : va_list)
    : option (conn * bool) :=
  wskey ← header_text b hm str:("Sec-WebSocket-Key");
  let c := detach c in
  match wskey with
  | None => c ← mg_http_reply no_pm c 426 [] (str:("WS upgrade expected") ++ [10]) []; Some (set_draining c, false)
  | Some key =>
      wsproto ← header_text b hm str:("Sec-WebSocket-Protocol");
      c ← ws_handshake c key wsproto fmt ap;
      Some (set_resp c false, true)
  end.
End Upgrade.

Example handshake_rfc :
  option_map send (ws_handshake no_pm (replicate 64 1) (replicate 30 2) (server [])
                     str:("dGhlIHNhbXBsZSBub25jZQ==") None None [])
  = Some (str:("HTTP/1.1 101 Switching Protocols") ++ crlf ++ str:("Upgrade: websocket") ++ crlf
          ++ str:("Connection: Upgrade") ++ crlf ++ str:("Sec-WebSocket-Accept: s3pPLMBiTxaQ9kYGzzhZRbK+xOo=")
          ++ crlf ++ crlf).
Proof. vm_compute. reflexivity. Qed.

Lemma byte_of_byte v k : is_byte (byte_of v k).
Proof. apply (land_small_r 8); [lia|done]. Qed.

Lemma sha1_bytes m : is_bytes (SHA1 m) /\ Zlen (SHA1 m) = 20.
Proof.
  unfold SHA1, digest_of. split; [|reflexivity].
  repeat apply Forall_app_2; apply word_bytes_bytes.
Qed.

Lemma enc_nonzero x : 0 <= x < 64 -> enc x <> 0.
Proof.
  intros Hx. assert (forall y, 0 <= y < 64 -> negb (enc y =? 0) = true) as H by (apply forallb_seqZ; reflexivity).
  specialize (H x Hx). zbool. done.
Qed.

Lemma b64_no_nul l : is_bytes l -> 0 ∉ b64 l.
Proof.
  unfold is_byte. induction l as [|a|a b|a b c r IH] using list_ind3; intros Hl;
    repeat (apply Forall_cons in Hl as [? Hl]); cbn [b64]; rewrite ?not_elem_of_cons; split_and?;
    try apply not_elem_of_nil; try (intros E; symmetry in E; revert E; apply enc_nonzero; dlia); try done; auto.
Qed.

(** What the handshake answers for an accept value and a protocol. *)
Definition accept_value (key : list Z) : list Z := b64 (SHA1 (key ++ magic)).

Definition switching (key : list Z) (proto : option (list Z)) : list Z :=
  str:("HTTP/1.1 101 Switching Protocols") ++ crlf ++ str:("Upgrade: websocket") ++ crlf
  ++ str:("Connection: Upgrade") ++ crlf ++ str:("Sec-WebSocket-Accept: ") ++ accept_value key ++ crlf
  ++ match proto with Some p => str:("Sec-WebSocket-Protocol: ") ++ p ++ crlf | None => [] end ++ crlf.

Lemma switching_printed b r : 0 ∉ b -> mg_vxprintf no_pm switching_fmt [AStr (Some (b ++ 0 :: r))] =
  Some (str:("HTTP/1.1 101 Switching Protocols") ++ crlf ++ str:("Upgrade: websocket") ++ crlf
  ++ str:("Connection: Upgrade") ++ crlf ++ str:("Sec-WebSocket-Accept: ") ++ b ++ crlf, []).
Proof.
  intros Hb. set (t := str:("HTTP/1.1 101 Switching Protocols") ++ crlf ++ str:("Upgrade: websocket") ++ crlf
    ++ str:("Connection: Upgrade") ++ crlf ++ str:("Sec-WebSocket-Accept: ")).
  change switching_fmt with (t ++ 37 :: 115 :: crlf).
  rewrite vx_text by (by apply (bool_decide_unpack (37 ∉ t))). rewrite vx_s by done.
  rewrite <- (app_nil_r crlf) at 1. rewrite vx_text by (by apply (bool_decide_unpack (37 ∉ crlf))).
  rewrite vx_nil. unfold put_front. cbn [mbind option_bind]. by rewrite app_nil_r.
Qed.

Lemma protocol_printed p : 0 ∉ p -> Zlen p < 2 ^ 31 ->
  mg_vxprintf no_pm (str:("Sec-WebSocket-Protocol: %.*s") ++ crlf) [AInt (Zlen p); AStr (Some p)] =
  Some (str:("Sec-WebSocket-Protocol: ") ++ p ++ crlf, []).
Proof.
  intros Hp Hl. set (t := str:("Sec-WebSocket-Protocol: ")).
  change (str:("Sec-WebSocket-Protocol: %.*s") ++ crlf) with (t ++ 37 :: 46 :: 42 :: 115 :: crlf).
  rewrite vx_text by (by apply (bool_decide_unpack (37 ∉ t))).
  rewrite <- (app_nil_r p) at 2. rewrite vx_prec_s by (done || lia).
  rewrite <- (app_nil_r crlf) at 1. rewrite vx_text by (by apply (bool_decide_unpack (37 ∉ crlf))).
  rewrite vx_nil. unfold put_front. cbn [mbind option_bind]. by rewrite app_nil_r.
Qed.

(** The hash and its Base64 form fit the buffers of the stack. *)
Lemma accept_computed ctx b64_sha key : Zlen ctx = 64 -> Zlen b64_sha = 30 -> is_bytes key -> Zlen key < 2 ^ 31 ->
  sha1_of ctx [key; magic] = Some (SHA1 (key ++ magic)) /\
  exists r n, mg_base64_encode (SHA1 (key ++ magic)) b64_sha = Some (accept_value key ++ 0 :: r, n).
Proof.
  intros Hc Hb Hk Hl. assert (is_bytes magic) as Hm
    by (apply (bool_decide_unpack (Forall (fun b => 0 <= b < 256) magic)); vm_compute; exact I).
  assert (Zlen magic = 36) as Hml by reflexivity.
  destruct (sha1_bytes (key ++ magic)) as [Hs Hsl]. split.
  - rewrite sha1_stream; [by cbn [concat]; rewrite app_nil_r|done| |].
    + apply Forall_cons. split; [split; [done|lia]|]. apply Forall_singleton. split; [done|lia].
    + cbn [concat]. rewrite app_nil_r, Zlen_app. lia.
  - rewrite encode_eq by done. assert (Zlen (b64 (SHA1 (key ++ magic))) = 28) as Hbl by (rewrite b64_len, Hsl; reflexivity).
    rewrite Hbl, Hb. ztests. by do 2 eexists.
Qed.

(** The handshake answers a client as RFC 6455 demands: for any key, the reply is the
    status line and headers of a protocol switch, with the accept value being the Base64 form
    of the SHA-1 of the key followed by the GUID, the sub-protocol echoed when the client named one,
    and an empty line.  It is appended to what is queued already, whatever the stack held. *)
Theorem ws_handshake_accept (ctx b64_sha : list Z) (c : conn) (key : list Z) (proto : option (list Z))
  (Hc : Zlen ctx = 64) (Hb : Zlen b64_sha = 30) (Hk : is_bytes key) (Hl : Zlen key < 2 ^ 31)
  (Hp : forall p, proto = Some p -> (0 ∉ p) /\ Zlen p < 2 ^ 31) :
  ws_handshake no_pm ctx b64_sha c key proto None [] = Some (set_send c (send c ++ switching key proto)).
Proof.
  destruct (accept_computed ctx b64_sha key Hc Hb Hk Hl) as (Hs & r & n & He).
  unfold ws_handshake. rewrite Hs. cbn [mbind option_bind]. rewrite He. cbn [mbind option_bind].
  unfold mg_printf. rewrite switching_printed by (apply b64_no_nul, sha1_bytes). cbn [mbind option_bind].
  unfold switching. destruct proto as [p|].
  - destruct (Hp p eq_refl). rewrite protocol_printed by done. cbn [mbind option_bind set_send send].
    by rewrite <- !app_assoc.
  - cbn [mbind option_bind set_send send]. by rewrite <- !app_assoc.
Qed.

Lemma ws_handshake_accept_witness :
  ws_handshake no_pm (replicate 64 1) (replicate 30 2) (server []) str:("dGhlIHNhbXBsZSBub25jZQ==") (Some str:("chat")) None []
  = Some (set_send (server []) ([] ++ switching str:("dGhlIHNhbXBsZSBub25jZQ==") (Some str:("chat")))).
Proof.
  apply (ws_handshake_accept (replicate 64 1) (replicate 30 2) (server [])); try reflexivity.
  - apply (bool_decide_unpack (Forall (fun b => 0 <= b < 256) _)). vm_compute. exact I.
  - intros p [= <-]. split; [by apply (bool_decide_unpack (0 ∉ str:("chat")))|reflexivity].
Defined.
