(* ===== verification/Rest.v ===== *)
(** * Rest: dispatch of the device API (mongoose/mongoose_impl.c, lines 195-225, 400-437 and 527-696)

    The event handler of the HTTP server: uploads are caught at the head of a request,
    running actions are polled, requests are routed to the WebSocket upgrade, the
    heartbeat, the API handlers or the files of the web interface; the table of the
    handlers and the periodic messages of the WebSockets.  The login is disabled in this
    build and the listener has no TLS. *)

From S2P Require Import Prelude Str Base64 Json Iobuf Ws Url Http Fmt Util Httpd Serve Api Upgrade.
Import Util.Timer.

Definition MG_DATA_SIZE : Z := 32.

(** A connection with the memory [c->data] as its user sees it: the state of an upload or an
    action before the upgrade, timers after it.  [pfn_data] is the pointer of a WebSocket (0 is
    NULL); [file] what [static_cb] has to send once it is the protocol handler. *)
Record rconn {D : Type} := rcon {
  hc : conn; data : conn_data D; is_websocket : bool; timers : list Z; pfn_data : Z; file : option serving }.
Arguments rconn : clear implicits.

Inductive http_event :=
  | EV_HTTP_HDRS (b : list Z) (hm : mg_http_message)
  | EV_HTTP_MSG (b : list Z) (hm : mg_http_message)
  | EV_POLL | EV_WS_MSG | EV_WS_CTL | EV_ACCEPT | EV_OTHER.

Section Rest.
Context {D : Type}.
Implicit Types (d : device D) (r : rconn D) (hs : list (apihandler D)).
(** The packed file system and the memory of the stack buffers. *)
Context (fs : mg_fs) (path_mem ctx b64_mem : list Z).

Definition with_conn r (c : conn) : rconn D := rcon D c (data r) (is_websocket r) (timers r) (pfn_data r) (file r).
Definition with_data r (x : conn_data D) : rconn D := rcon D (hc r) x (is_websocket r) (timers r) (pfn_data r) (file r).
Definition with_file r (s : option serving) : rconn D := rcon D (hc r) (data r) (is_websocket r) (timers r) (pfn_data r) s.

(** ** Handlers *)

(** The byte behind the URI, which the matcher may look at. *)
Definition uri_after (b : list Z) (hm : mg_http_message) : option Z := rd b (at_ (Http.uri hm) + ln (Http.uri hm)).

Definition uri_match (b : list Z) (hm : mg_http_message) (pattern : list Z) : option bool :=
  after ← uri_after b hm;
  '(ok, _) ← mg_match (text b (Http.uri hm)) pattern after NoCaps; Some ok.

Definition handle_uploads hs r (ev : http_event) : option (rconn D) :=
  match ev, data r with
  | EV_HTTP_HDRS b hm, C_none =>
      if mg_strcmp (text b (Http.method hm)) str:("POST") =? 0 then
        let o := match option_map h_kind (find_handler hs (text b (Http.uri hm))) with
                 | Some (K_upload _ o) => Some o | Some (K_file o _) => Some o | _ => None
                 end in
        match o with
        | Some o =>
            after ← uri_after b hm;
            '(c, x) ← prep_upload o (hc r) (text b (Http.uri hm)) after (ln (Http.body hm)) (ln (Http.head hm)) path_mem;
            Some (with_data (with_conn r c) x)
        | None => Some r
        end
      else Some r
  | _, _ => Some r
  end.

Definition reply_json r (f : list Z) (ap : va_list) : option (rconn D) :=
  c ← mg_http_reply mg_pm (hc r) 200 JSON_HEADERS f ap; Some (with_conn r c).

Definition handle_action d r (body : list Z) (h : action_ops D) : option (device D * rconn D) :=
  if 0 <? Zlen body then
    let d := dev (starter h (fw d) body) (version d) in
    if checker h (fw d) then Some (d, with_data r (C_action (checker h)))
    else r ← reply_json r str:("false") []; Some (d, r)
  else
    r ← reply_json r str:("%s") [cstring_arg (if checker h (fw d) then str:("true") else str:("false"))];
    Some (d, r).

Definition handle_file r (b : list Z) (hm : mg_http_message) (server : conn -> list Z -> conn) : option (rconn D) :=
  after ← uri_after b hm;
  path ← get_file_name_from_uri (text b (Http.uri hm)) after path_mem;
  Some (with_conn r (server (hc r) path)).

Definition handle_api_call d r (b : list Z) (hm : mg_http_message) (h : apihandler D)
    : option (device D * rconn D) :=
  let body := text b (Http.body hm) in
  match h_kind h with
  | K_object o | K_data o => '(d, c) ← handle_object d (hc r) body o; Some (d, with_conn r c)
  | K_array o => c ← handle_array d (hc r) (text b (Http.query hm)) o; Some (d, with_conn r c)
  | K_action o => handle_action d r body o
  | K_file _ server => r ← handle_file r b hm server; Some (d, r)
  | K_custom reply => Some (d, with_conn r (reply (hc r) b hm))
  | K_upload t _ | K_unknown t =>
      c ← mg_http_reply no_pm (hc r) 500 JSON_HEADERS (str:("API type %s unknown") ++ [10]) [cstring_arg t];
      Some (d, with_conn r c)
  end.

Definition glue_update_state d : device D := dev (fw d) (u32 (version d + 1)).

(** The upgrade: [c->data], still zero, becomes the timers. *)
Definition upgrade r (b : list Z) (hm : mg_http_message) : option (rconn D) :=
  '(c, ok) ← mg_ws_upgrade no_pm ctx b64_mem (hc r) b hm None [];
  Some (if (ok : bool) then rcon D c C_none true (replicate 4 0) 0 (file r) else with_conn r c).

(** A complete request on a connection that is not busy. *)
Definition route hs d r (b : list Z) (hm : mg_http_message) : option (device D * rconn D) :=
  ok ← uri_match b hm str:("/api/ok");
  if (ok : bool) then r ← reply_json r (str:("true") ++ [10]) []; Some (d, r)
  else
    ws ← uri_match b hm str:("/websocket");
    if (ws : bool) then r ← upgrade r b hm; Some (d, r)
    else
      hb ← uri_match b hm str:("/api/heartbeat");
      if (hb : bool) then
        r ← reply_json r (str:("{%m:%lu}") ++ [10]) (mg_esc_args (str:("version") ++ [0]) ++ [AInt (version d)]); Some (d, r)
      else
        match find_handler hs (text b (Http.uri hm)) with
        | Some h => handle_api_call d r b hm h
        | None =>
            '(c, s) ← mg_http_serve_dir fs (hc r) b hm str:("/web_root/") NO_CACHE_HEADERS path_mem;
            Some (d, with_file (with_conn r c) s)
        end.

Definition http_ev_handler hs d r (ev : http_event) : option (device D * rconn D) :=
  r ← (if is_websocket r then Some r else handle_uploads hs r ev);
  match ev, is_websocket r, data r with
  | EV_POLL, false, C_action fn =>
      if fn (fw d) then Some (d, r)
      else r ← reply_json r str:("true") []; Some (d, with_data r C_none)
  | EV_HTTP_MSG b hm, false, C_none => route hs d r b hm
  | _, _, _ => Some (d, r)
  end.

(** ** The table of handlers *)

(** What a caller of [mongoose_set_http_handlers] passes for a type of handler. *)
Inductive new_ops :=
  | N_data (getter : D -> list value) (setter : option (D -> list value -> D))
  | N_action (checker : D -> bool) (starter : D -> list Z -> D)
  | N_file (o : upload_ops) (server : conn -> list Z -> conn)
  | N_upload (o : upload_ops)
  | N_custom (reply : conn -> list Z -> mg_http_message -> conn).

(** The new entry; [None]: the arguments do not fit the type, which the C code cannot see. *)
Definition replace_ops (h : apihandler D) (n : new_ops) : option (apihandler D) :=
  match h_kind h, n with
  | K_data o, N_data g s => Some (handler (h_name h) (K_data (mkdata (attributes o) g s)))
  | K_action _, N_action c s => Some (handler (h_name h) (K_action (mkaction c s)))
  | K_file _ _, N_file o s => Some (handler (h_name h) (K_file o s))
  | K_upload t _, N_upload o => Some (handler (h_name h) (K_upload t o))
  | K_custom _, N_custom f => Some (handler (h_name h) (K_custom f))
  | K_object _, _ | K_array _, _ | K_unknown _, _ => Some h       (* "not implemented" *)
  | _, _ => None
  end.

Fixpoint mongoose_set_http_handlers hs (name : list Z) (n : new_ops) : option (list (apihandler D)) :=
  match name, hs with
  | [], _ | _, [] => Some hs                                        (* "No API with name" *)
  | _, h :: hs' =>
      if name_matches name (h_name h) then h ← replace_ops h n; Some (h :: hs')
      else hs' ← mongoose_set_http_handlers hs' name n; Some (h :: hs')
  end.

(** ** WebSocket messages *)

Record ws_handler := wsh { timeout_ms : Z; fn : conn -> conn }.

Definition mongoose_add_ws_handler (ws : list ws_handler) (h : ws_handler) : list ws_handler :=
  if MG_DATA_SIZE / 8 <=? Zlen ws then ws else ws ++ [h].

(** The handlers of one connection, from index [i]; the timers live in [c->data]. *)
Fixpoint run_ws (ws : list ws_handler) (now i : Z) (c : conn) (ts : list Z) (pfn_data : Z)
    : option (conn * list Z * Z) :=
  match ws with
  | [] => Some (c, ts, pfn_data)
  | h :: ws' =>
      '(due, ts) ← (if pfn_data =? 0 then Some (true, ts)
                    else t ← rd ts i;
                         let '(due, t) := mg_timer_expired t (timeout_ms h) now in
                         ts ← wr ts i t; Some (due, ts));
      if (due : bool) then run_ws ws' now (i + 1) (fn h c) ts 1 else run_ws ws' now (i + 1) c ts pfn_data
  end.

Definition send_one (ws : list ws_handler) (now : Z) r : option (rconn D) :=
  if negb (is_websocket r) || (2048 <? Zlen (send (hc r))) then Some r
  else
    '(c, ts, p) ← run_ws ws now 0 (hc r) (timers r) (pfn_data r);
    Some (rcon D c (data r) true ts p (file r)).

Fixpoint send_websocket_data (ws : list ws_handler) (now : Z) (conns : list (rconn D)) : option (list (rconn D)) :=
  match conns with
  | [] => Some []
  | r :: conns' => r ← send_one ws now r; rest ← send_websocket_data ws now conns'; Some (r :: rest)
  end.
End Rest.
Arguments new_ops : clear implicits.

(** ** Routing *)

Definition covers (hname name : list Z) : Prop := name = hname \/ exists rest, name = hname ++ 47 :: rest.

Lemma name_matches_covers name hname : name_matches name hname = true <-> covers hname name.
Proof.
  unfold name_matches, covers. split.
  - destruct (Z.ltb_spec (Zlen name) (Zlen hname)); [done|]. intros [E1 E2]%andb_prop.
    apply bool_decide_eq_true in E1. rewrite <- (take_drop (length hname) name), E1.
    destruct (drop (length hname) name) as [|c k]; [left; apply app_nil_r|]. zbool. subst. eauto.
  - assert (forall k, (Zlen (hname ++ k) <? Zlen hname) = false) as Hl
      by (intros k; apply Z.ltb_ge; rewrite Zlen_app; pose proof (Zlen_nonneg k); lia).
    intros [->|[rest ->]].
    + rewrite <- (app_nil_r hname) at 1. rewrite Hl, firstn_all, drop_all, bool_decide_eq_true_2; done.
    + rewrite Hl, take_app_length, drop_app_length, bool_decide_eq_true_2; done.
Qed.

Lemma find_named_spec {D} (hs : list (apihandler D)) name h :
  find_named hs name = Some h <->
  exists pre post, hs = pre ++ h :: post /\ covers (h_name h) name /\ Forall (fun g => ~ covers (h_name g) name) pre.
Proof.
  induction hs as [|g hs IH]; simpl.
  - split; [done|]. intros (pre & post & E & _). by destruct pre.
  - destruct (name_matches name (h_name g)) eqn:E.
    + apply name_matches_covers in E. split.
      * intros [= ->]. by exists [], hs.
      * intros ([|g' pre] & post & [= -> ->] & _ & Hpre); [done|]. by apply Forall_cons in Hpre as [? _].
    + assert (~ covers (h_name g) name) as Hn by (rewrite <- name_matches_covers; congruence).
      rewrite IH. split.
      * intros (pre & post & -> & Hc & Hpre). exists (g :: pre), post. split_and!; [done..|by apply Forall_cons].
      * intros ([|g' pre] & post & [= -> ->] & Hc & Hpre); [done|].
        apply Forall_cons in Hpre as [_ ?]. by exists pre, post.
Qed.

(** Requests reach the handler of their name and no other: [find_handler] gives a handler
    exactly for the URIs "/api/" followed by its name, alone or followed by a slash and
    anything, when no handler before it in the table covers the same URI. *)
Theorem find_handler_exact {D} (hs : list (apihandler D)) (u : list Z) (h : apihandler D)
  (Hne : Forall (fun g => h_name g <> []) hs) :
  find_handler hs u = Some h <->
  exists name pre post, u = str:("/api/") ++ name /\ hs = pre ++ h :: post /\ covers (h_name h) name /\
    Forall (fun g => ~ covers (h_name g) name) pre.
Proof.
  unfold find_handler. split.
  - destruct (Zlen u <? 6) eqn:E1; [done|]. simpl orb. case_bool_decide as E2; [|done]. simpl negb.
    intros H. rewrite <- (take_drop 5 u), E2. exists (drop 5 u).
    unfold get_api_handler in H. destruct (drop 5 u) as [|x k] eqn:E3; [done|].
    apply find_named_spec in H as (pre & post & ? & ? & ?). by exists pre, post.
  - intros (name & pre & post & -> & -> & Hc & Hpre). apply Forall_app in Hne as [_ [Hn _]%Forall_cons].
    assert (name <> []) as Hname by (destruct Hc as [->|[? ->]]; [done|by destruct (h_name h)]).
    rewrite Zlen_app. change (Zlen str:("/api/")) with 5. pose proof (Zlen_pos name Hname).
    rewrite (proj2 (Z.ltb_ge _ _)) by lia. cbn [orb app take firstn drop skipn].
    rewrite bool_decide_eq_true_2 by done. cbn [negb]. destruct name as [|x k]; [done|].
    apply find_named_spec. by exists pre, post.
Qed.

(** ** The table *)

Lemma set_handlers_spec {D} (pre : list (apihandler D)) h h' post name n : name <> [] ->
  covers (h_name h) name -> Forall (fun g => ~ covers (h_name g) name) pre -> replace_ops h n = Some h' ->
  mongoose_set_http_handlers (pre ++ h :: post) name n = Some (pre ++ h' :: post).
Proof.
  intros Hn Hc Hpre Hr. destruct name as [|x k]; [done|]. induction Hpre as [|g pre Hg _ IH]; simpl app.
  - cbn [mongoose_set_http_handlers]. by rewrite (proj2 (name_matches_covers _ _) Hc), Hr.
  - cbn [mongoose_set_http_handlers]. destruct (name_matches (x :: k) (h_name g)) eqn:E.
    + apply name_matches_covers in E. done.
    + by rewrite IH.
Qed.

Lemma replace_ops_name {D} (h h' : apihandler D) n : replace_ops h n = Some h' -> h_name h' = h_name h.
Proof. unfold replace_ops. repeat case_match; intros; simplify_eq/=; done. Qed.

(** The table of the firmware. *)
Record glue := mkglue { g_imu : list value; g_settings : list value; g_state : list value }.

Definition glue_set_power_service_settings (g : glue) (v : list value) : glue := mkglue (g_imu g) v (g_state g).

Definition s_apihandlers : list (apihandler glue) :=
  [handler str:("imu") (K_data (mkdata s_imu_attributes g_imu None));
   handler str:("power_service_settings")
     (K_data (mkdata s_power_service_settings_attributes g_settings (Some glue_set_power_service_settings)));
   handler str:("state") (K_data (mkdata s_state_attributes g_state None))].

Lemma find_handler_exact_witness :
  find_handler s_apihandlers str:("/api/state") = nth_error s_apihandlers 2 <->
  exists name pre post, str:("/api/state") = str:("/api/") ++ name /\
    s_apihandlers = pre ++ handler str:("state") (K_data (mkdata s_state_attributes g_state None)) :: post /\
    covers str:("state") name /\ Forall (fun g => ~ covers (h_name g) name) pre.
Proof.
  apply (find_handler_exact s_apihandlers str:("/api/state")
    (handler str:("state") (K_data (mkdata s_state_attributes g_state None)))).
  repeat constructor; discriminate.
Defined.

(** Replacing the functions of a handler: afterwards exactly the handler the name finds
    has the new functions, under its old name, every other entry is as before, and looking
    the name up gives the new entry. *)
Theorem set_then_get {D} (hs : list (apihandler D)) (name : list Z) (h h' : apihandler D) (n : new_ops D)
  (Hn : name <> []) (Hf : get_api_handler hs name = Some h) (Hr : replace_ops h n = Some h') :
  exists pre post, hs = pre ++ h :: post /\
    mongoose_set_http_handlers hs name n = Some (pre ++ h' :: post) /\
    get_api_handler (pre ++ h' :: post) name = Some h' /\ h_name h' = h_name h.
Proof.
  assert (find_named hs name = Some h) as Hf' by (destruct name; done).
  apply find_named_spec in Hf' as (pre & post & -> & Hc & Hpre). pose proof (replace_ops_name h h' n Hr) as Hname.
  exists pre, post. split_and!; [done|by apply set_handlers_spec| |done].
  destruct name as [|x k]; [done|]. apply find_named_spec. exists pre, post. by rewrite Hname.
Qed.

Definition demo_settings (g : glue) (v : list value) : glue := mkglue v v v.

Lemma set_then_get_witness : exists pre post,
  s_apihandlers = pre ++ handler str:("imu") (K_data (mkdata s_imu_attributes g_imu None)) :: post /\
  mongoose_set_http_handlers s_apihandlers str:("imu") (N_data g_state (Some demo_settings)) =
    Some (pre ++ handler str:("imu") (K_data (mkdata s_imu_attributes g_state (Some demo_settings))) :: post) /\
  get_api_handler (pre ++ handler str:("imu") (K_data (mkdata s_imu_attributes g_state (Some demo_settings))) :: post)
    str:("imu") = Some (handler str:("imu") (K_data (mkdata s_imu_attributes g_state (Some demo_settings)))) /\
  str:("imu") = str:("imu").
Proof.
  apply (set_then_get s_apihandlers str:("imu") (handler str:("imu") (K_data (mkdata s_imu_attributes g_imu None)))
    (handler str:("imu") (K_data (mkdata s_imu_attributes g_state (Some demo_settings)))) (N_data g_state (Some demo_settings)));
    [discriminate|reflexivity|reflexivity].
Defined.

(** ** Requests without a body change nothing *)

Lemma object_read_pure {D} (d d' : device D) c c' (h : data_ops D) :
  handle_object d c [] h = Some (d', c') -> d' = d.
Proof.
  unfold handle_object. change (Zlen (@nil Z)) with 0. cbn [Z.ltb Z.compare andb mbind option_bind].
  destruct (mg_http_reply _ _ _ _ _ _); intros; simplify_eq/=. done.
Qed.

Lemma action_read_pure {D} (d d' : device D) r r' (h : action_ops D) :
  handle_action d r [] h = Some (d', r') -> d' = d.
Proof.
  unfold handle_action. change (Zlen (@nil Z)) with 0. cbn [Z.ltb Z.compare].
  destruct (reply_json _ _ _); intros; simplify_eq/=. done.
Qed.

Lemma api_call_pure {D} mem (d d' : device D) r r' b hm h : text b (Http.body hm) = [] ->
  handle_api_call mem d r b hm h = Some (d', r') -> d' = d.
Proof.
  intros Hb. unfold handle_api_call. rewrite Hb. destruct (h_kind h) as [o|o|o|o|t o|o f|f|t].
  - destruct (handle_object d (hc r) [] o) as [[? ?]|] eqn:E; intros; simplify_eq/=. by eapply object_read_pure.
  - destruct (handle_object d (hc r) [] o) as [[? ?]|] eqn:E; intros; simplify_eq/=. by eapply object_read_pure.
  - destruct (handle_array _ _ _ _); intros; simplify_eq/=; done.
  - apply action_read_pure.
  - destruct (mg_http_reply _ _ _ _ _ _); intros; simplify_eq/=; done.
  - destruct (handle_file _ _ _ _ _); intros; simplify_eq/=; done.
  - intros; simplify_eq/=; done.
  - destruct (mg_http_reply _ _ _ _ _ _); intros; simplify_eq/=; done.
Qed.

(** Case analysis on the first bind or test of the hypothesis [H]. *)
Ltac bind_step H :=
  match type of H with
  | mbind _ ?x = Some _ => destruct x as [?|]; cbn [mbind option_bind] in H; [|discriminate H]
  | (if ?x then _ else _) = Some _ => destruct x
  | match ?x with _ => _ end = Some _ => destruct x
  end.
Ltac bind_cases H := repeat bind_step H; try discriminate H; try (injection H as <- <-; reflexivity).

Lemma route_pure {D} fs mem ctx b64 (hs : list (apihandler D)) d d' r r' b hm : text b (Http.body hm) = [] ->
  route fs mem ctx b64 hs d r b hm = Some (d', r') -> d' = d.
Proof.
  intros Hb H. unfold route in H. bind_cases H. by eapply api_call_pure.
Qed.

(** Only a request with a body changes the device: whatever event the server handles that
    is not a complete request with a non-empty body, the firmware state and the version
    counter the web interface polls are as before, on any connection and for any table. *)
Theorem read_requests_pure {D} (fs : mg_fs) (mem ctx b64 : list Z) (hs : list (apihandler D)) (d d' : device D)
  (r r' : rconn D) (ev : http_event)
  (Hev : match ev with EV_HTTP_MSG b hm => text b (Http.body hm) = [] | _ => True end)
  (H : http_ev_handler fs mem ctx b64 hs d r ev = Some (d', r')) : d' = d.
Proof.
  unfold http_ev_handler in H. destruct (if is_websocket r then Some r else handle_uploads mem hs r ev) as [r1|];
    [|done]. cbn [mbind option_bind] in H.
  destruct ev as [b hm|b hm| | | | |]; bind_cases H. by eapply route_pure.
Qed.

Definition empty_fs : mg_fs := mkfs (fun _ => 0) (fun _ => 0) (fun _ => 0) (fun _ => false).

Definition demo_glue : glue :=
  mkglue (replicate 6 (VDbl (f64_of_Z 1))) [VDbl (f64_of_Z 12); VDbl (f64_of_Z 13); VDbl (f64_of_Z 16)] [].

Definition demo_conn (b : list Z) : rconn glue := rcon glue (server b) C_none false [] 0 None.

Definition demo_msg (b : list Z) : http_event :=
  match mg_http_parse b with Some (_, hm) => EV_HTTP_MSG b hm | None => EV_OTHER end.

Definition get_imu : list Z := str:("GET /api/imu HTTP/1.1") ++ crlf ++ crlf.

Definition demo_handle (b : list Z) : option (device glue * rconn glue) :=
  http_ev_handler empty_fs (replicate 100 1) (replicate 64 1) (replicate 30 1) s_apihandlers (dev demo_glue 7)
    (demo_conn b) (demo_msg b).

Lemma read_requests_pure_witness : exists d' r', demo_handle get_imu = Some (d', r') /\ d' = dev demo_glue 7.
Proof.
  destruct (demo_handle get_imu) as [[d' r']|] eqn:E; [|vm_compute in E; discriminate E].
  exists d', r'. split; [reflexivity|].
  apply (read_requests_pure empty_fs (replicate 100 1) (replicate 64 1) (replicate 30 1) s_apihandlers (dev demo_glue 7) d'
    (demo_conn get_imu) r' (demo_msg get_imu)); [vm_compute; reflexivity|exact E].
Defined.

(** ** Writing an object *)

(** What an object promises to the API: what was set is what is read afterwards. *)
Class Settable {D} (o : data_ops D) (set : D -> list value -> D) : Prop := {
  settable_setter : setter o = Some set;
  settable_get : forall d v, getter o (set d v) = v }.

#[export] Instance settings_settable : Settable
  (mkdata s_power_service_settings_attributes g_settings (Some glue_set_power_service_settings))
  glue_set_power_service_settings.
Proof. by split. Qed.

Section Object.
Context {D : Type} (o : data_ops D) (set : D -> list value -> D) `{!Settable o set}.

Lemma object_printed vs out : print_struct true (attributes o) vs = Some out ->
  mg_vxprintf (struct_pm (attributes o) vs) (str:("{%M}") ++ [10]) [AFun PRINT_STRUCT] =
  Some ([123] ++ out ++ [125; 10], []).
Proof.
  intros Hp. change (str:("{%M}") ++ [10]) with ([123] ++ 37 :: [] ++ 77 :: [125; 10]).
  rewrite vx_text by (by apply (bool_decide_unpack (37 ∉ [123]))).
  erewrite vx_conv; [|reflexivity|].
  2:{ unfold convert. cbn -[print_struct]. unfold struct_pm. cbn -[print_struct]. rewrite Hp. reflexivity. }
  rewrite <- (app_nil_r [125; 10]) at 1. rewrite vx_text by (by apply (bool_decide_unpack (37 ∉ [125; 10]))).
  rewrite vx_nil. reflexivity.
Qed.

Lemma object_written (d : device D) (c : conn) (body : list Z) (tmp : list value) (out : list Z) :
  body <> [] -> attributes o <> [] -> update_values body (attributes o) (getter o (fw d)) = Some tmp ->
  print_struct true (attributes o) tmp = Some out -> Zlen out < 2 ^ 31 ->
  handle_object d c body o = Some (
    dev (set (fw d) tmp) (if bool_decide (getter o (fw d) = tmp) then version d else u32 (version d + 1)),
    set_resp (set_send c (send c ++ reply_head 200 JSON_HEADERS ++ length_field (Zlen ([123] ++ out ++ [125; 10]))
                          ++ [32; 13; 10; 13; 10] ++ [123] ++ out ++ [125; 10])) false).
Proof.
  intros Hb Ha Hu Hp Hl. unfold handle_object. pose proof (Zlen_pos body Hb). pose proof (Zlen_pos _ Ha).
  rewrite (proj2 (Z.ltb_lt 0 (Zlen body))), (proj2 (Z.ltb_lt 0 (Zlen (attributes o)))) by lia. cbn [andb].
  rewrite Hu. cbn [mbind option_bind]. rewrite settable_setter. rewrite settable_get.
  rewrite (reply_appends _ c 200 JSON_HEADERS _ _ _ _ ltac:(by apply (bool_decide_unpack (0 ∉ JSON_HEADERS))) (object_printed tmp out Hp)).
  - reflexivity.
  - rewrite !Zlen_app. change (Zlen [123]) with 1. change (Zlen [125; 10]) with 2. lia.
Qed.
End Object.

(** The document of an object, as a reply. *)
Definition object_reply (c : conn) (out : list Z) : conn :=
  set_resp (set_send c (send c ++ reply_head 200 JSON_HEADERS ++ length_field (Zlen ([123] ++ out ++ [125; 10]))
                        ++ [32; 13; 10; 13; 10] ++ [123] ++ out ++ [125; 10])) false.

Lemma object_read {D} (o : data_ops D) (d : device D) (c : conn) (out : list Z) :
  print_struct true (attributes o) (getter o (fw d)) = Some out -> Zlen out < 2 ^ 31 ->
  handle_object d c [] o = Some (d, object_reply c out).
Proof.
  intros Hp Hl. unfold handle_object. change (Zlen (@nil Z)) with 0. cbn [Z.ltb Z.compare andb mbind option_bind].
  rewrite (reply_appends _ c 200 JSON_HEADERS _ _ _ _ ltac:(by apply (bool_decide_unpack (0 ∉ JSON_HEADERS)))
             (object_printed o (getter o (fw d)) out Hp)).
  - reflexivity.
  - rewrite !Zlen_app. change (Zlen [123]) with 1. change (Zlen [125; 10]) with 2. lia.
Qed.

(** An attribute whose path is not in the body keeps its value. *)
Definition mentions (body : list Z) (a : attribute) : bool :=
  match jpath (a_name a) with
  | Some p => match mg_json_get_num body p with Some None => false | _ => true end
  | None => true
  end.

Lemma update_values_keep body l vs tmp i a v :
  update_values body l vs = Some tmp -> l !! i = Some a -> vs !! i = Some v ->
  a_type a = T_double -> mentions body a = false -> tmp !! i = Some v.
Proof.
  revert vs tmp i. induction l as [|b l IH]; intros [|w vs] tmp i Hu Hl Hv Ht Hm; try done.
  cbn [update_values] in Hu. destruct (update_value body b w) as [w'|] eqn:E1; [|done]. cbn [mbind option_bind] in Hu.
  destruct (update_values body l vs) as [r|] eqn:E2; [|done]. cbn [mbind option_bind] in Hu. injection Hu as <-.
  destruct i as [|i]; [|by apply (IH vs r i)]. cbn in Hl, Hv. injection Hl as ->. injection Hv as ->.
  cbn [lookup list_lookup]. f_equal. unfold update_value in E1. unfold mentions in Hm. rewrite Ht in E1.
  destruct (jpath (a_name a)) as [p|]; [|done]. cbn [mbind option_bind] in E1. destruct v; try congruence.
  destruct (mg_json_get_num body p) as [[?|]|]; try done. cbn [mbind option_bind] in E1. congruence.
Qed.

(** Writing an object through the API.  For an object whose setter and getter agree, a
    request with a body stores exactly the updated values, in which every number the body does
    not name is as before; the version counter the web interface polls goes up by
    one exactly when some value changed; the reply is the document with the new values, with
    its length, and a later read request answers the same document without another change. *)
Theorem object_post_exact {D} (o : data_ops D) (set : D -> list value -> D) `{HS : !Settable o set}
  (d : device D) (c c2 : conn) (body : list Z) (tmp : list value) (out : list Z)
  (Hb : body <> []) (Ha : attributes o <> []) (Hu : update_values body (attributes o) (getter o (fw d)) = Some tmp)
  (Hp : print_struct true (attributes o) tmp = Some out) (Hl : Zlen out < 2 ^ 31) :
  let d' := dev (set (fw d) tmp) (if bool_decide (getter o (fw d) = tmp) then version d else u32 (version d + 1)) in
  handle_object d c body o = Some (d', object_reply c out) /\
  handle_object d' c2 [] o = Some (d', object_reply c2 out) /\
  (forall i a v, attributes o !! i = Some a -> a_type a = T_double -> mentions body a = false ->
    getter o (fw d) !! i = Some v -> getter o (fw d') !! i = Some v).
Proof.
  cbv zeta. split_and!.
  - by apply object_written.
  - apply object_read; [|done]. cbn [fw]. by rewrite settable_get.
  - intros i a v Hi Ht Hm Hv. cbn [fw]. rewrite settable_get. by eapply update_values_keep.
Qed.

Definition settings_ops : data_ops glue :=
  mkdata s_power_service_settings_attributes g_settings (Some glue_set_power_service_settings).

(** The body {"empty_volts":14} *)
Definition demo_body : list Z := [123; 34] ++ str:("empty_volts") ++ [34] ++ str:(":14}").
Definition demo_values : list value := [VDbl (f64_of_Z 12); VDbl (f64_of_Z 14); VDbl (f64_of_Z 16)].
Definition demo_printed : list Z :=
  [34] ++ str:("critical_volts") ++ [34] ++ str:(":12,") ++ [34] ++ str:("empty_volts") ++ [34] ++ str:(":14,")
  ++ [34] ++ str:("full_volts") ++ [34] ++ str:(":16").

Lemma object_post_exact_witness :
  let d := dev demo_glue 7 in let d' := dev (glue_set_power_service_settings demo_glue demo_values) 8 in
  handle_object d (server []) demo_body settings_ops = Some (d', object_reply (server []) demo_printed) /\
  handle_object d' (server []) [] settings_ops = Some (d', object_reply (server []) demo_printed) /\
  (forall i a v, attributes settings_ops !! i = Some a -> a_type a = T_double -> mentions demo_body a = false ->
    getter settings_ops (fw d) !! i = Some v -> getter settings_ops (fw d') !! i = Some v).
Proof.
  apply (object_post_exact (HS := settings_settable) settings_ops glue_set_power_service_settings (dev demo_glue 7)
    (server []) (server []) demo_body demo_values demo_printed);
    [discriminate|discriminate|vm_compute; reflexivity|vm_compute; reflexivity|vm_compute; reflexivity].
Defined.

(** ** WebSocket messages *)

(** What one call of [mg_timer_expired] does to each timer, and which handlers are due. *)
Definition tick (ws : list ws_handler) (now : Z) (ts : list Z) : list (bool * Z) :=
  zip_with (fun h t => mg_timer_expired t (timeout_ms h) now) ws ts.

Definition run_due (ws : list ws_handler) (due : list bool) (c : conn) : conn :=
  foldl (fun c '(h, b) => if (b : bool) then fn h c else c) c (zip ws due).

Definition marked (due : list bool) (p : Z) : Z := if existsb (fun b => b) due then 1 else p.

Lemma run_ws_started ws : forall now c pre ts post p, p <> 0 -> Zlen ts = Zlen ws ->
  run_ws ws now (Zlen pre) c (pre ++ ts ++ post) p =
  Some (run_due ws (map fst (tick ws now ts)) c, pre ++ map snd (tick ws now ts) ++ post,
        marked (map fst (tick ws now ts)) p).
Proof.
  induction ws as [|h ws IH]; intros now c pre [|t ts] post p Hp Hl; unfold Zlen in Hl; cbn [length] in Hl; try lia.
  - done.
  - cbn [run_ws]. rewrite (proj2 (Z.eqb_neq p 0)) by done. cbn [app]. rewrite rd_here. cbn [mbind option_bind].
    unfold tick. cbn [zip_with map]. destruct (mg_timer_expired t (timeout_ms h) now) as [due t'].
    rewrite wr_here. cbn [mbind option_bind fst snd]. unfold run_due, marked. cbn [zip zip_with foldl existsb].
    assert (forall c p, p <> 0 -> run_ws ws now (Zlen pre + 1) c (pre ++ t' :: ts ++ post) p =
      Some (run_due ws (map fst (tick ws now ts)) c, pre ++ t' :: map snd (tick ws now ts) ++ post,
            marked (map fst (tick ws now ts)) p)) as Hn.
    { intros c0 p0 Hp0. specialize (IH now c0 (pre ++ [t']) ts post p0 Hp0 ltac:(unfold Zlen; lia)).
      rewrite Zlen_app in IH. change (Zlen [t']) with 1 in IH. rewrite <- !app_assoc in IH. exact IH. }
    destruct due; rewrite Hn by done; [|done]. unfold marked. cbn [orb]. by destruct (existsb _ _).
Qed.

(** At most four handlers, whose timers fill [c->data]. *)
Definition ws_ok {D} (r : rconn D) : Prop := is_websocket r = true -> Zlen (timers r) = 4.

(** The periodic messages.  With the handlers [mongoose_add_ws_handler] accepts (never more
    than the four timers [c->data] has room for), a pass over a WebSocket connection
    with room in its send buffer calls, in table order, exactly the handlers whose own timer has
    expired, advances every timer by its own period only, and never touches memory outside
    [c->data]; the first pass calls the first handler at once, and a call leaves the mark 1 in
    [pfn_data]. *)
Theorem ws_pass_exact {D} (hs : list ws_handler) (now : Z) (r : rconn D)
  (Hok : ws_ok r) (Hw : is_websocket r = true) (Hs : Zlen (send (hc r)) <= 2048) :
  let ws := foldl mongoose_add_ws_handler [] hs in
  let n := length ws in
  Zlen ws <= 4 /\
  send_one ws now r = Some (
    if pfn_data r =? 0 then
      match ws, timers r with
      | h :: ws', t :: ts =>
          rcon D (run_due ws' (map fst (tick ws' now (take (n - 1) ts))) (fn h (hc r))) (data r) true
            (t :: map snd (tick ws' now (take (n - 1) ts)) ++ drop (n - 1) ts) 1 (file r)
      | _, _ => r
      end
    else
      let due := map fst (tick ws now (take n (timers r))) in
      rcon D (run_due ws due (hc r)) (data r) true
        (map snd (tick ws now (take n (timers r))) ++ drop n (timers r)) (marked due (pfn_data r)) (file r)).
Proof.
  cbv zeta. set (ws := foldl mongoose_add_ws_handler [] hs).
  assert (Zlen ws <= 4) as Hl.
  { assert (forall acc, Zlen acc <= 4 -> Zlen (foldl mongoose_add_ws_handler acc hs) <= 4) as H; [|by apply H].
    induction hs as [|h hs' IH]; intros acc Ha; cbn [foldl]; [done|]. apply IH. unfold mongoose_add_ws_handler.
    change (MG_DATA_SIZE / 8) with 4. destruct (Z.leb_spec 4 (Zlen acc)); [done|]. rewrite Zlen_app, Zlen_cons, Zlen_nil. lia. }
  split; [done|]. specialize (Hok Hw). unfold send_one. rewrite Hw. rewrite (proj2 (Z.ltb_ge 2048 _)) by done. cbn [negb orb].
  unfold Zlen in Hl, Hok. destruct (Z.eqb_spec (pfn_data r) 0) as [Hg|Hg].
  - destruct ws as [|h ws'].
    + destruct r; cbn in *. by subst.
    + destruct (timers r) as [|t ts]; [cbn in Hok; lia|]. cbn [run_ws]. rewrite Hg. cbn [Z.eqb mbind option_bind].
      cbn [length] in Hl, Hok |- *. rewrite Nat.sub_succ, Nat.sub_0_r.
      pose proof (run_ws_started ws' now (fn h (hc r)) [t] (take (length ws') ts) (drop (length ws') ts) 1 ltac:(done)) as H.
      cbn [app] in H. rewrite take_drop in H. change (Zlen [t]) with 1 in H. change (0 + 1) with 1.
      rewrite H by (unfold Zlen; rewrite length_take; lia). unfold marked. cbn [mbind option_bind]. by destruct (existsb _ _).
  - pose proof (run_ws_started ws now (hc r) [] (take (length ws) (timers r)) (drop (length ws) (timers r)) (pfn_data r) Hg) as H.
    cbn [app] in H. rewrite take_drop in H. change (Zlen (@nil Z)) with 0 in H.
    rewrite H by (unfold Zlen; rewrite length_take; lia). reflexivity.
Qed.

Definition ping (_ : Z) (c : conn) : conn := set_send c (send c ++ [1]).

Lemma ws_pass_exact_witness :
  let hs := [wsh 100 (ping 0); wsh 250 (ping 0)] in
  let r := rcon glue (server []) C_none true [600; 400; 0; 0] 1 None in
  Zlen (foldl mongoose_add_ws_handler [] hs) <= 4 /\
  send_one (foldl mongoose_add_ws_handler [] hs) 500 r =
    Some (rcon glue (ping 0 (server [])) C_none true [600; 650; 0; 0] 1 None).
Proof.
  apply (ws_pass_exact [wsh 100 (ping 0); wsh 250 (ping 0)] 500
    (rcon glue (server []) C_none true [600; 400; 0; 0] 1 None)); [intros _; reflexivity|reflexivity|vm_compute; discriminate].
Defined.

(** The mark shares [pfn_data] with the receiver, which takes it for the length of an unfinished
    message: a ping that is answered on a fresh WebSocket is no longer recognised after
    the first periodic message. *)
Definition masked_ping : list Z := [137; 128; 1; 2; 3; 4].

Example push_breaks_receive :
  option_map Ws.sent (Ws.mg_ws_cb false [] (Ws.wsc masked_ping 0 [] false false [])) = Some [138; 0] /\
  option_map Ws.sent (Ws.mg_ws_cb false [] (Ws.wsc masked_ping 1 [] false false [])) = Some [].
Proof. split; reflexivity. Qed.

(** ** A pipelined upload

    [prep_upload] deletes as many bytes as the head has from the start of the receive buffer,
    also when the request is not the first one in it. *)
Definition upload_table : list (apihandler glue) :=
  [handler str:("up") (K_upload str:("upload") (mkupload (fun _ _ => true) (fun _ _ => true)))].

Definition first_request : list Z := str:("GET /api/ok HTTP/1.1") ++ crlf ++ crlf.
Definition second_request : list Z :=
  str:("POST /api/up/f HTTP/1.1") ++ crlf ++ str:("Content-Length: 30") ++ crlf ++ crlf ++ str:("abc").

Definition hdrs_of (b : list Z) : http_event :=
  match mg_http_parse b with Some (_, hm) => EV_HTTP_HDRS b hm | None => EV_OTHER end.



Example upload_pipelined :
  exists r, handle_uploads (replicate 100 1) upload_table (demo_conn (first_request ++ second_request)) (hdrs_of second_request)
    = Some r /\ recv (hc r) = drop (Z.to_nat (Zlen second_request - 3)) (first_request ++ second_request).
Proof. eexists. split; vm_compute; reflexivity. Qed.

(** ** Actions *)

(** Poll events while the firmware goes through the states [fws]. *)
Fixpoint polls {D} (fs : mg_fs) (mem ctx b64 : list Z) (hs : list (apihandler D)) (v : Z) (r : rconn D) (fws : list D)
    : option (rconn D) :=
  match fws with
  | [] => Some r
  | s :: fws' => '(_, r) ← http_ev_handler fs mem ctx b64 hs (dev s v) r EV_POLL; polls fs mem ctx b64 hs v r fws'
  end.

Definition true_reply (c : conn) : conn :=
  set_resp (set_send c (send c ++ reply_head 200 JSON_HEADERS ++ length_field 4 ++ [32; 13; 10; 13; 10] ++ str:("true"))) false.

Lemma reply_true {D} (r : rconn D) : reply_json r str:("true") [] = Some (with_conn r (true_reply (hc r))).
Proof.
  unfold reply_json. assert (mg_vxprintf mg_pm str:("true") [] = Some (str:("true"), [])) as E by reflexivity.
  rewrite (reply_appends mg_pm (hc r) 200 JSON_HEADERS _ _ _ _ ltac:(by apply (bool_decide_unpack (0 ∉ JSON_HEADERS))) E)
    by reflexivity. reflexivity.
Qed.

Lemma poll_busy {D} fs mem ctx b64 hs (s : D) v (r : rconn D) (check : D -> bool) :
  is_websocket r = false -> data r = C_action check -> check s = true ->
  http_ev_handler fs mem ctx b64 hs (dev s v) r EV_POLL = Some (dev s v, r).
Proof. intros Hw Hd Hc. unfold http_ev_handler, handle_uploads. rewrite Hw. cbn [mbind option_bind]. rewrite Hw, Hd. cbn [fw]. by rewrite Hc. Qed.

Lemma poll_done {D} fs mem ctx b64 hs (s : D) v (r : rconn D) (check : D -> bool) :
  is_websocket r = false -> data r = C_action check -> check s = false ->
  http_ev_handler fs mem ctx b64 hs (dev s v) r EV_POLL =
  Some (dev s v, with_data (with_conn r (true_reply (hc r))) C_none).
Proof.
  intros Hw Hd Hc. unfold http_ev_handler, handle_uploads. rewrite Hw. cbn [mbind option_bind]. rewrite Hw, Hd. cbn [fw].
  by rewrite Hc, reply_true.
Qed.

Lemma poll_idle {D} fs mem ctx b64 hs (s : D) v (r : rconn D) :
  data r = C_none -> http_ev_handler fs mem ctx b64 hs (dev s v) r EV_POLL = Some (dev s v, r).
Proof.
  intros Hd. unfold http_ev_handler, handle_uploads. destruct (is_websocket r) eqn:Hw;
  cbn [mbind option_bind]; by rewrite ?Hw, ?Hd.
Qed.

Lemma polls_idle {D} fs mem ctx b64 hs v fws : forall r : rconn D, data r = C_none ->
  polls fs mem ctx b64 hs v r fws = Some r.
Proof. induction fws as [|s fws IH]; intros r Hd; cbn [polls]; [done|]. rewrite poll_idle by done. by apply IH. Qed.

(** A started action is answered exactly once, when it is over.  A request with a body
    runs the starter once and, while the firmware reports the action as running,
    leaves the connection waiting with nothing sent; whatever states the polls then see, the first one in which
    the action is over sends the reply "true" and frees the connection, and later polls send
    nothing more. *)
Theorem action_answered_once {D} (fs : mg_fs) (mem ctx b64 : list Z) (hs : list (apihandler D)) (h : action_ops D)
  (d : device D) (r : rconn D) (body : list Z) (busy later : list D) (over : D)
  (Hw : is_websocket r = false) (Hb : body <> []) (Hrun : checker h (starter h (fw d) body) = true)
  (Hbusy : Forall (fun s => checker h s = true) busy) (Hover : checker h over = false) :
  exists r1, handle_action d r body h = Some (dev (starter h (fw d) body) (version d), r1) /\ hc r1 = hc r /\
    polls fs mem ctx b64 hs (version d) r1 busy = Some r1 /\
    polls fs mem ctx b64 hs (version d) r1 (busy ++ over :: later) =
      Some (with_data (with_conn r (true_reply (hc r))) C_none).
Proof.
  exists (with_data r (C_action (checker h))). pose proof (Zlen_pos body Hb).
  unfold handle_action. rewrite (proj2 (Z.ltb_lt 0 (Zlen body))) by lia. cbn [fw]. rewrite Hrun.
  split; [done|]. split; [done|].
  assert (forall rest, polls fs mem ctx b64 hs (version d) (with_data r (C_action (checker h))) (busy ++ rest) =
    polls fs mem ctx b64 hs (version d) (with_data r (C_action (checker h))) rest) as Hs.
  { intros rest. induction Hbusy as [|s busy Hs _ IH]; [done|]. cbn [app polls].
    rewrite (poll_busy _ _ _ _ _ s _ _ (checker h)) by done. exact IH. }
  split; [specialize (Hs []); by rewrite app_nil_r in Hs|].
  rewrite Hs. cbn [polls]. rewrite (poll_done _ _ _ _ _ over _ _ (checker h)) by done. cbn [mbind option_bind].
  by apply polls_idle.
Qed.

Lemma action_answered_once_witness :
  let h := mkaction (fun s : Z => 0 <? s) (fun _ _ => 2) in
  let r := rcon Z (server []) C_none false [] 0 None in
  exists r1, handle_action (dev 0 5) r [49] h = Some (dev 2 5, r1) /\ hc r1 = hc r /\
    polls empty_fs [] [] [] [] 5 r1 [2; 1] = Some r1 /\
    polls empty_fs [] [] [] [] 5 r1 ([2; 1] ++ 0 :: [0]) = Some (with_data (with_conn r (true_reply (hc r))) C_none).
Proof.
  apply (action_answered_once empty_fs [] [] [] [] (mkaction (fun s : Z => 0 <? s) (fun _ _ => 2)) (dev 0 5)
    (rcon Z (server []) C_none false [] 0 None) [49] [2; 1] [0] 0);
    [reflexivity|discriminate|reflexivity|repeat constructor|reflexivity].
Defined.
