(* ===== verification/Inputs.v ===== *)
(** * Inputs: the input service and its drivers (src/services/input_service, src/drivers/input)

    Digital inputs (buttons, lift and collision sensors) with their configuration, the
    debounce-free edge handling, the count of lifted wheels that drives a virtual input, the
    reasons for an emergency they give, and the configuration read from JSON.

    Pointers to inputs are positions in the vector [all_inputs_], which is allocated
    statically and never moves.  The linked list of a driver is the list of its pointers.  The clock
    [getTimeMicros] read inside one update is one value.  The JSON parser (lwjson) is not in
    the repository: its callbacks are the events [jev]; the drivers' lookup of a line name is
    a parameter. *)

From S2P Require Import Prelude.

(** EmergencyReason of services/emergency_service.json: bit numbers. *)
Definition LATCH : Z := 1.
Definition TIMEOUT_INPUTS : Z := 2.
Definition STOP : Z := 4.
Definition LIFT : Z := 8.
Definition LIFT_MULTIPLE : Z := 16.
Definition COLLISION : Z := 32.
Definition TIMEOUT_HIGH_LEVEL : Z := 64.
Definition HIGH_LEVEL : Z := 128.

Definition EMERGENCY_CHANGED : Z := 1.
Definition INPUTS_CHANGED : Z := 2.

Definition VIRTUAL : Z := 255.

Record Input := input {
  idx : Z;
  invert : bool;
  emergency_reason : Z;
  emergency_delay_ms : Z;
  line : Z;
  active : bool;
  active_since : Z }.

(** [emplace_back()]: the members with initialisers; [junk] is what [idx] and the union hold. *)
Definition fresh_input (junk : Z) : Input := input junk false 0 0 junk false 0.

Inductive InputEventType := ACTIVE | INACTIVE | SHORT | LONG.

Inductive driver_kind := D_gpio | D_simulated.

Record driver := mkdriver { d_name : list Z; d_kind : driver_kind; d_inputs : list nat }.

(** The service; [sent] are the input events sent, [flags] the mower events broadcast and not
    yet taken. *)
Record service := svc {
  all_inputs : list Input;
  drivers : list driver;
  num_active_lift : Z;
  lift_multiple : nat;
  sent : list (Z * InputEventType);
  flags : Z }.

Definition with_inputs (s : service) (l : list Input) : service :=
  svc l (drivers s) (num_active_lift s) (lift_multiple s) (sent s) (flags s).
Definition with_drivers (s : service) (l : list driver) : service :=
  svc (all_inputs s) l (num_active_lift s) (lift_multiple s) (sent s) (flags s).
Definition with_lift (s : service) (n : Z) : service :=
  svc (all_inputs s) (drivers s) n (lift_multiple s) (sent s) (flags s).
Definition with_sent (s : service) (l : list (Z * InputEventType)) : service :=
  svc (all_inputs s) (drivers s) (num_active_lift s) (lift_multiple s) l (flags s).
Definition broadcast (s : service) (f : Z) : service :=
  svc (all_inputs s) (drivers s) (num_active_lift s) (lift_multiple s) (sent s) (Z.lor (flags s) f).

Definition has_reason (i : Input) (r : Z) : bool := negb (Z.land (emergency_reason i) r =? 0).

Definition ActiveDuration (i : Input) (now : Z) : Z := u32 (now - active_since i).

Definition set_active (i : Input) (a : bool) (now : Z) : Input :=
  input (idx i) (invert i) (emergency_reason i) (emergency_delay_ms i) (line i) a (if a then now else active_since i).

(** ** Updates *)

(** [OnInputChanged] for input [p]; [update] is the method [Update] of another input. *)
Definition OnInputChanged (update : service -> nat -> bool -> option service) (s : service) (i : Input)
    (act : bool) (duration : Z) : option service :=
  if idx i =? VIRTUAL then Some s
  else
    s ← (if has_reason i LIFT then
           let n := u8 (if act then num_active_lift s + 1 else num_active_lift s - 1) in
           update (with_lift s n) (lift_multiple s) (2 <=? n)
         else Some s);
    Some (with_sent s (sent s ++
      if act then [(idx i, ACTIVE)]
      else [(idx i, INACTIVE); (idx i, if 500000 <=? duration then LONG else SHORT)])).

(** [Update]: the compare-and-exchange succeeds when the state changes.  The virtual input
    does not call further updates: two levels are enough. *)
Fixpoint Update (depth : nat) (now : Z) (s : service) (p : nat) (new_active : bool) : option service :=
  match depth with
  | O => None
  | S depth' =>
      i ← all_inputs s !! p;
      let a := if invert i then negb new_active else new_active in
      if bool_decide (active i = a) then Some s
      else
        let i := set_active i a now in
        s ← OnInputChanged (Update depth' now) (with_inputs s (<[p := i]> (all_inputs s))) i a (ActiveDuration i now);
        Some (broadcast s INPUTS_CHANGED)
  end.

Definition update (now : Z) (s : service) (p : nat) (new_active : bool) : option service := Update 2 now s p new_active.

(** [GpioInputDriver::tick]: the inputs of the driver in list order; [pin] gives the level. *)
Fixpoint gpio_tick (pin : Z -> bool) (now : Z) (s : service) (ps : list nat) : option service :=
  match ps with
  | [] => Some s
  | p :: ps' =>
      i ← all_inputs s !! p;
      s ← update now s p (pin (line i));
      gpio_tick pin now s ps'
  end.

(** [SimulatedInputDriver::SetActiveInputs]; [1 << idx] is an int. *)
Fixpoint SetActiveInputs (mask now : Z) (s : service) (ps : list nat) : option service :=
  match ps with
  | [] => Some s
  | p :: ps' =>
      i ← all_inputs s !! p;
      s ← update now s p (negb (Z.land mask (Z.shiftl 1 (idx i)) =? 0));
      SetActiveInputs mask now s ps'
  end.

(** [SendStatus]: the mask of the active inputs ([1 << idx] is an int, widened). *)
Fixpoint active_mask (l : list Input) (mask : Z) : Z :=
  match l with
  | [] => mask
  | i :: l' =>
      active_mask l' (if active i && negb (idx i =? VIRTUAL) then Z.lor mask (u64 (s32 (Z.shiftl 1 (idx i)))) else mask)
  end.

Definition SendStatus (s : service) : Z := active_mask (all_inputs s) 0.

(** ** Reasons for an emergency *)

Definition TimeoutReached (duration delay block_time : Z) : bool * Z :=
  if delay <=? duration then (true, block_time) else (false, Z.min block_time (delay - duration)).

Fixpoint reasons_of (l : list Input) (now reasons block_time : Z) : Z * Z :=
  match l with
  | [] => (reasons, block_time)
  | i :: l' =>
      if (emergency_reason i =? 0) || negb (active i) then reasons_of l' now reasons block_time
      else
        let '(hit, block_time) := TimeoutReached (ActiveDuration i now) (emergency_delay_ms i * 1000) block_time in
        reasons_of l' now (if (hit : bool) then Z.lor reasons (emergency_reason i) else reasons) block_time
  end.

Definition GetEmergencyReasons (s : service) (now : Z) : Z * Z := reasons_of (all_inputs s) now 0 UINT32_MAX.

(** ** Configuration *)

Inductive jtype :=
  | J_OBJECT | J_OBJECT_END | J_ARRAY | J_ARRAY_END | J_KEY | J_STRING | J_TRUE | J_FALSE | J_NULL | J_NUMBER.

#[export] Instance jtype_eq_dec : EqDecision jtype.
Proof. solve_decision. Defined.

(** A callback of the parser: the depth, the type, the names on its stack, the string, and the
    number as a 16-bit value if it is one. *)
Record jev := mkjev { stack_pos : Z; jt : jtype; key4 : list Z; key6 : list Z; jstr : list Z; jnum : option Z }.

(** [input_config_json_data_t] with the service. *)
Record config := cfg { cs : service; cdriver : option nat; current : option nat; next_idx : Z }.

Definition PAL_NOLINE : Z := 0.

Definition expect (t : jtype) (e : jev) : bool := bool_decide (jt e = t).

Section Config.
(** The line of a name, and the memory of a new element. *)
Context (GetIoLineByName : list Z -> Z) (junk : Z).

Definition find_driver (l : list driver) (name : list Z) : option nat :=
  fst <$> list_find (fun d => d_name d = name) l.

(** Change the current input; [None]: there is none. *)
Definition edit (c : config) (f : Input -> Input) : option config :=
  p ← current c; i ← all_inputs (cs c) !! p;
  Some (cfg (with_inputs (cs c) (<[p := f i]> (all_inputs (cs c)))) (cdriver c) (current c) (next_idx c)).

Definition set_invert (b : bool) (i : Input) : Input :=
  input (idx i) b (emergency_reason i) (emergency_delay_ms i) (line i) (active i) (active_since i).
Definition set_reason (r : Z) (i : Input) : Input :=
  input (idx i) (invert i) r (emergency_delay_ms i) (line i) (active i) (active_since i).
Definition set_delay (d : Z) (i : Input) : Input :=
  input (idx i) (invert i) (emergency_reason i) d (line i) (active i) (active_since i).
Definition set_line (l : Z) (i : Input) : Input :=
  input (idx i) (invert i) (emergency_reason i) (emergency_delay_ms i) l (active i) (active_since i).
Definition set_idx (n : Z) (i : Input) : Input :=
  input n (invert i) (emergency_reason i) (emergency_delay_ms i) (line i) (active i) (active_since i).

Definition ok (c : option config) : option (bool * config) := c ← c; Some (true, c).

(** [OnInputConfigValue] of the two drivers. *)
Definition OnInputConfigValue (k : driver_kind) (e : jev) (c : config) : option (bool * config) :=
  match k with
  | D_simulated => Some (false, c)
  | D_gpio =>
      if bool_decide (key4 e = str:("line")) then
        if expect J_STRING e then
          let l := GetIoLineByName (jstr e) in
          c ← edit c (set_line l); Some (negb (l =? PAL_NOLINE), c)
        else Some (false, c)
      else if bool_decide (key4 e = str:("active")) then
        if expect J_STRING e then
          if bool_decide (jstr e = str:("high")) then ok (edit c (set_invert false))
          else if bool_decide (jstr e = str:("low")) then ok (edit c (set_invert true))
          else Some (false, c)
        else Some (false, c)
      else Some (false, c)
  end.

(** [AddInput]: at the end of the driver's list. *)
Definition AddInput (s : service) (d p : nat) : option service :=
  dr ← drivers s !! d;
  Some (with_drivers s (<[d := mkdriver (d_name dr) (d_kind dr) (d_inputs dr ++ [p])]> (drivers s))).

Definition MAX_INPUTS : Z := 31.

Definition new_input (c : config) : option (bool * config) :=
  if MAX_INPUTS <=? Zlen (all_inputs (cs c)) then Some (false, c)
  else
    let p := length (all_inputs (cs c)) in
    let s := with_inputs (cs c) (all_inputs (cs c) ++ [set_idx (next_idx c) (fresh_input junk)]) in
    d ← cdriver c;
    s ← AddInput s d p;
    Some (true, cfg s (cdriver c) (Some p) (u8 (next_idx c + 1))).

Definition emergency_value (e : jev) (c : config) : option (bool * config) :=
  if bool_decide (key6 e = str:("reason")) then
    if expect J_STRING e then
      let set r := ok (edit c (fun i => set_reason (Z.lor (emergency_reason i) r) i)) in
      if bool_decide (jstr e = str:("stop")) then set STOP
      else if bool_decide (jstr e = str:("lift")) then set LIFT
      else if bool_decide (jstr e = str:("collision")) then set COLLISION
      else Some (false, c)
    else Some (false, c)
  else if bool_decide (key6 e = str:("delay")) then
    if expect J_NUMBER e then
      match jnum e with Some n => ok (edit c (set_delay n)) | None => Some (false, c) end
    else Some (false, c)
  else if bool_decide (key6 e = str:("latch")) then
    if expect J_FALSE e then ok (edit c (fun i => set_reason (Z.ldiff (emergency_reason i) LATCH) i))
    else Some (expect J_TRUE e, c)
  else Some (false, c).

(** [InputConfigsJsonCallback]: whether it accepts, and the state; [None] is an access through
    a null pointer. *)
Definition InputConfigsJsonCallback (c : config) (e : jev) : option (bool * config) :=
  match stack_pos e with
  | 0 => Some (expect J_OBJECT e || expect J_OBJECT_END e, c)
  | 1 => match find_driver (drivers (cs c)) (jstr e) with
         | Some d => Some (true, cfg (cs c) (Some d) (current c) (next_idx c))
         | None => Some (false, c)
         end
  | 2 => Some (expect J_ARRAY e || expect J_ARRAY_END e, c)
  | 3 => if expect J_OBJECT e then new_input c
         else if expect J_OBJECT_END e then Some (true, cfg (cs c) (cdriver c) None (next_idx c))
         else Some (false, c)
  | 5 => if bool_decide (key4 e = str:("invert")) then
           if expect J_TRUE e then ok (edit c (set_invert true))
           else if expect J_FALSE e then ok (edit c (set_invert false))
           else Some (false, c)
         else if bool_decide (key4 e = str:("emergency")) then
           if expect J_OBJECT e then ok (edit c (set_reason LATCH))
           else Some (expect J_OBJECT_END e, c)
         else
           d ← cdriver c; dr ← drivers (cs c) !! d;
           OnInputConfigValue (d_kind dr) e c
  | 7 => if bool_decide (key4 e = str:("emergency")) then emergency_value e c else Some (false, c)
  | _ => Some (true, c)
  end.

(** The callbacks of one character all run; the parse stops at the character at which one failed. *)
Fixpoint callbacks (c : config) (es : list jev) : option (bool * config) :=
  match es with
  | [] => Some (true, c)
  | e :: es' => '(a, c) ← InputConfigsJsonCallback c e; '(b, c) ← callbacks c es'; Some (a && b, c)
  end.

Fixpoint process (c : config) (chars : list (list jev)) : option (bool * config) :=
  match chars with
  | [] => Some (true, c)
  | es :: chars' => '(a, c) ← callbacks c es; if (a : bool) then process c chars' else Some (false, c)
  end.

Definition clear_driver (d : driver) : driver := mkdriver (d_name d) (d_kind d) [].

(** The state at the start of [OnRegisterInputConfigsChanged]: no inputs but the virtual one. *)
Definition cleared (s : service) : service :=
  svc [set_delay 10 (set_reason (Z.lor LIFT_MULTIPLE LATCH) (set_idx VIRTUAL (fresh_input junk)))]
      (map clear_driver (drivers s)) 0 0 (sent s) (flags s).

Definition OnRegisterInputConfigsChanged (s : service) (chars : list (list jev)) : option (bool * service) :=
  '(b, c) ← process (cfg (cleared s) None None 0) chars; Some (b, cs c).
End Config.

(** ** Invariant *)

Definition lifted (i : Input) : bool := active i && has_reason i LIFT.

Fixpoint lift_count (l : list Input) : Z :=
  match l with [] => 0 | i :: l' => (if lifted i then 1 else 0) + lift_count l' end.

(** The reasons an input can give. *)
Definition INPUT_REASONS : Z := 61.     (* LATCH, STOP, LIFT, LIFT_MULTIPLE, COLLISION *)
Definition reason_ok (i : Input) : Prop := Z.ldiff (emergency_reason i) INPUT_REASONS = 0.

(** The virtual input at the head, the configured ones behind it with their positions as
    indices, the counter and the virtual input in step with the lift sensors. *)
Record wf (s : service) (v : Input) (rest : list Input) : Prop := {
  wf_all : all_inputs s = v :: rest;
  wf_ptr : lift_multiple s = O;
  wf_virtual : idx v = VIRTUAL /\ invert v = false /\ emergency_reason v = Z.lor LIFT_MULTIPLE LATCH /\ emergency_delay_ms v = 10;
  wf_idx : forall k i, rest !! k = Some i -> idx i = Z.of_nat k;
  wf_len : Zlen rest <= 30;
  wf_count : num_active_lift s = lift_count rest;
  wf_active : active v = (2 <=? lift_count rest);
  wf_reasons : Forall reason_ok rest }.

Lemma lift_count_bounds l : 0 <= lift_count l <= Zlen l.
Proof. induction l as [|i l IH]; cbn [lift_count]; rewrite ?Zlen_cons; [done|]. destruct (lifted i); lia. Qed.

Lemma lift_count_insert l k i j : l !! k = Some i ->
  lift_count (<[k := j]> l) = lift_count l - (if lifted i then 1 else 0) + (if lifted j then 1 else 0).
Proof.
  revert k. induction l as [|x l IH]; intros [|k] Hk; try done.
  - injection Hk as ->. change (<[0%nat:=j]> (i :: l)) with (j :: l). cbn [lift_count]. lia.
  - change (<[S k:=j]> (x :: l)) with (x :: <[k:=j]> l). cbn [lift_count]. rewrite (IH k) by done. lia.
Qed.

Definition level (i : Input) (pin : bool) : bool := if invert i then negb pin else pin.

(** What an update of a configured input does, given the new state of the virtual one. *)
Definition changed_events (i : Input) (a : bool) (now : Z) : list (Z * InputEventType) :=
  if a then [(idx i, ACTIVE)]
  else [(idx i, INACTIVE); (idx i, if 500000 <=? ActiveDuration i now then LONG else SHORT)].

Lemma Update_S d now s p b : Update (S d) now s p b =
  (i ← all_inputs s !! p;
   let a := if invert i then negb b else b in
   if bool_decide (active i = a) then Some s
   else
     let i := set_active i a now in
     s ← OnInputChanged (Update d now) (with_inputs s (<[p := i]> (all_inputs s))) i a (ActiveDuration i now);
     Some (broadcast s INPUTS_CHANGED)).
Proof. done. Qed.

Lemma update_virtual now s v rest b : all_inputs s = v :: rest -> idx v = VIRTUAL -> invert v = false ->
  Update 1 now s 0 b = Some (if bool_decide (active v = b) then s
    else broadcast (with_inputs s (set_active v b now :: rest)) INPUTS_CHANGED).
Proof.
  intros Ha Hv Hi. rewrite Update_S, Ha. cbn [lookup list_lookup mbind option_bind]. rewrite Hi.
  case_bool_decide; [done|]. unfold OnInputChanged. cbn [idx set_active]. rewrite Hv, Z.eqb_refl.
  done.
Qed.

Lemma set_active_lifted i a now : lifted (set_active i a now) = a && has_reason i LIFT.
Proof. done. Qed.

Lemma update_spec s v rest k i pin now : wf s v rest -> rest !! k = Some i ->
  let a := level i pin in
  exists s' v' rest', update now s (S k) pin = Some s' /\ wf s' v' rest' /\
    rest' = (if bool_decide (active i = a) then rest else <[k := set_active i a now]> rest) /\
    sent s' = sent s ++ (if bool_decide (active i = a) then [] else changed_events i a now) /\
    flags s' = (if bool_decide (active i = a) then flags s else Z.lor (flags s) INPUTS_CHANGED) /\
    drivers s' = drivers s.
Proof.
  intros Hw Hk a. destruct Hw as [Ha Hp Hv Hx Hl Hn Hact Hrs]. destruct Hv as (Hv1 & Hv2 & Hv3 & Hv4).
  unfold update. rewrite Update_S, Ha. cbv zeta. change ((v :: rest) !! S k) with (rest !! k). rewrite Hk.
  cbn [mbind option_bind]. fold (level i pin). fold a.
  case_bool_decide as Hsame.
  { exists s, v, rest. split_and!; [done| |done|by rewrite app_nil_r|done|done]. by split. }
  change (<[S k := ?x]> (v :: rest)) with (v :: <[k := x]> rest).
  set (i' := set_active i a now). set (rest' := <[k := i']> rest).
  assert (idx i = Z.of_nat k) as Hix by (by apply Hx).
  assert (Z.of_nat k < 30) as Hk30 by (apply lookup_lt_Some in Hk; unfold Zlen in Hl; lia).
  unfold OnInputChanged. change (idx i') with (idx i). change VIRTUAL with 255 in *. rewrite (proj2 (Z.eqb_neq (idx i) 255)) by lia.
  change (has_reason i' LIFT) with (has_reason i LIFT).
  assert (lift_count rest' = lift_count rest - (if lifted i then 1 else 0) + (if lifted i' then 1 else 0)) as Hc
    by (by apply lift_count_insert).
  assert (lifted i = negb a && has_reason i LIFT) as Hli
    by (unfold lifted; destruct (active i), a; done).
  unfold i' in Hc. rewrite set_active_lifted, Hli in Hc.
  assert (Zlen rest' = Zlen rest) as Hlen by (unfold rest', Zlen; by rewrite length_insert).
  assert (forall k0 i0, rest' !! k0 = Some i0 -> idx i0 = Z.of_nat k0) as Hx'.
  { intros k0 i0. unfold rest'. destruct (decide (k0 = k)) as [->|].
    - rewrite list_lookup_insert_eq by (by eapply lookup_lt_Some). by intros [= <-].
    - rewrite list_lookup_insert_ne by done. apply Hx. }
  assert (Forall reason_ok rest') as Hrs'
    by (apply Forall_insert; [done|]; exact (Forall_lookup_1 _ _ _ _ Hrs Hk)).
  pose proof (lift_count_bounds rest'). pose proof (lift_count_bounds rest).
  assert ((if a then [(idx i, ACTIVE)] else [(idx i, INACTIVE); (idx i, if 500000 <=? ActiveDuration i' now then LONG else SHORT)])
          = changed_events i a now) as Hev by (unfold changed_events, i'; by destruct a).
  rewrite Hev.
  destruct (has_reason i LIFT) eqn:HL.
  - set (n := u8 _). assert (n = lift_count rest') as Hnn.
    { unfold n. cbn [num_active_lift with_inputs]. rewrite Hn. rewrite u8_small; destruct a; cbn [negb andb] in Hc; lia. }
    cbn [lift_multiple with_inputs]. rewrite Hp.
    rewrite (update_virtual now _ v rest') by done. cbn [mbind option_bind]. rewrite Hnn.
    case_bool_decide as Hvb.
    + do 3 eexists. split; [reflexivity|]. split; [|by split_and!].
      split; cbn; try done; lia.
    + do 3 eexists. split; [reflexivity|]. split; [|split_and!; [done|done| |done]].
      * split; cbn; try done; lia.
      * cbn. by rewrite <- Z.lor_assoc, Z.lor_diag.
  - cbn [mbind option_bind]. do 3 eexists. split; [reflexivity|]. split; [|by split_and!].
    rewrite andb_false_r in Hc. rewrite andb_false_r in Hc.
    split; cbn; try done; try lia. rewrite Hact. f_equal. lia.
Qed.

(** The pointers of the drivers lead to configured inputs. *)
Definition ptrs_ok (s : service) : Prop :=
  Forall (fun d => Forall (fun p => exists k, p = S k /\ (k < length (all_inputs s) - 1)%nat) (d_inputs d)) (drivers s).

Definition inv (s : service) : Prop := (exists v rest, wf s v rest) /\ ptrs_ok s.

(** One update keeps the invariant and the pointers. *)
Lemma update_inv s p pin now : inv s -> (exists k, p = S k /\ (k < length (all_inputs s) - 1)%nat) ->
  exists s', update now s p pin = Some s' /\ inv s' /\ length (all_inputs s') = length (all_inputs s) /\ drivers s' = drivers s.
Proof.
  intros [(v & rest & Hw) Hp] (k & -> & Hk). pose proof (wf_all _ _ _ Hw) as Ha. rewrite Ha in Hk. cbn [length] in Hk.
  rewrite Nat.sub_succ, Nat.sub_0_r in Hk. apply lookup_lt_is_Some in Hk as [i Hi].
  destruct (update_spec s v rest k i pin now Hw Hi) as (s' & v' & rest' & Hu & Hw' & Hr & _ & _ & Hd).
  exists s'. split; [done|]. pose proof (wf_all _ _ _ Hw') as Ha'.
  assert (length (all_inputs s') = length (all_inputs s)) as Hlen.
  { rewrite Ha, Ha', Hr. cbn [length]. f_equal. case_bool_decide; [done|]. by rewrite length_insert. }
  split_and!; [|done|done]. split; [eauto|]. unfold ptrs_ok in *. by rewrite Hlen, Hd.
Qed.

Lemma tick_inv pin now ps : forall s, inv s ->
  Forall (fun p => exists k, p = S k /\ (k < length (all_inputs s) - 1)%nat) ps ->
  exists s', gpio_tick pin now s ps = Some s' /\ inv s'.
Proof.
  induction ps as [|p ps IH]; intros s Hi Hps; cbn [gpio_tick]; [eauto|]. apply Forall_cons in Hps as [Hp Hps].
  destruct (lookup_lt_is_Some_2 (all_inputs s) p) as [i ->]; [destruct Hp as (k & -> & ?); lia|]. cbn [mbind option_bind].
  destruct (update_inv s p (pin (line i)) now Hi Hp) as (s1 & -> & Hi1 & Hl & _). cbn [mbind option_bind].
  apply IH; [done|]. by rewrite Hl.
Qed.

Lemma simulated_inv mask now ps : forall s, inv s ->
  Forall (fun p => exists k, p = S k /\ (k < length (all_inputs s) - 1)%nat) ps ->
  exists s', SetActiveInputs mask now s ps = Some s' /\ inv s'.
Proof.
  induction ps as [|p ps IH]; intros s Hi Hps; cbn [SetActiveInputs]; [eauto|]. apply Forall_cons in Hps as [Hp Hps].
  destruct (lookup_lt_is_Some_2 (all_inputs s) p) as [i ->]; [destruct Hp as (k & -> & ?); lia|]. cbn [mbind option_bind].
  destruct (update_inv s p (negb (Z.land mask (Z.shiftl 1 (idx i)) =? 0)) now Hi Hp) as (s1 & -> & Hi1 & Hl & _).
  cbn [mbind option_bind]. apply IH; [done|]. by rewrite Hl.
Qed.

(** ** Configuration keeps the invariant *)

Record cinv (c : config) (v : Input) (rest : list Input) : Prop := {
  ci_wf : wf (cs c) v rest;
  ci_quiet : Forall (fun i => active i = false) rest;
  ci_next : next_idx c = Zlen rest;
  ci_current : forall p, current c = Some p -> exists k, p = S k /\ (k < length rest)%nat;
  ci_ptrs : ptrs_ok (cs c) }.

Lemma quiet_count l : Forall (fun i => active i = false) l -> lift_count l = 0.
Proof. induction 1 as [|i l Hi _ IH]; cbn [lift_count]; [done|]. unfold lifted. rewrite Hi, IH. done. Qed.

Lemma edit_inv c v rest f c' : cinv c v rest -> (forall i, idx (f i) = idx i /\ active (f i) = active i /\ (reason_ok i -> reason_ok (f i))) ->
  edit c f = Some c' -> exists rest', cinv c' v rest'.
Proof.
  intros [Hw Hq Hn Hc Hp] Hf. unfold edit. destruct (current c) as [p|] eqn:Ep; [|done]. cbn [mbind option_bind].
  destruct (Hc p eq_refl) as (k & -> & Hk). destruct Hw as [Ha Hptr Hv Hx Hl Hcnt Hact Hrs]. rewrite Ha.
  change ((v :: rest) !! S k) with (rest !! k). destruct (rest !! k) as [i|] eqn:Ei; [|done]. cbn [mbind option_bind].
  intros [= <-]. change (<[S k := f i]> (v :: rest)) with (v :: <[k := f i]> rest). exists (<[k := f i]> rest).
  assert (Forall (fun i => active i = false) (<[k := f i]> rest)) as Hq'.
  { apply Forall_insert; [done|]. rewrite (proj1 (proj2 (Hf i))). by eapply Forall_lookup_1 in Hq. }
  pose proof (quiet_count _ Hq) as C1. pose proof (quiet_count _ Hq') as C2.
  assert (Zlen (<[k := f i]> rest) = Zlen rest) as Hlen by (unfold Zlen; by rewrite length_insert).
  split; cbn [cs current next_idx]; [|done|lia| |].
  - split; cbn [all_inputs lift_multiple num_active_lift with_inputs]; [done..| |lia|lia|by rewrite Hact, C1, C2|].
    2:{ apply Forall_insert; [done|]. apply Hf. exact (Forall_lookup_1 _ _ _ _ Hrs Ei). }
    intros k0 i0. destruct (decide (k0 = k)) as [->|].
    + rewrite list_lookup_insert_eq by (by eapply lookup_lt_Some). intros [= <-]. rewrite (proj1 (Hf i)). by apply Hx.
    + rewrite list_lookup_insert_ne by done. apply Hx.
  - intros p [= <-]. exists k. by rewrite length_insert.
  - unfold ptrs_ok in *. cbn [all_inputs drivers with_inputs] in *. rewrite Ha in Hp. cbn [length] in *. by rewrite length_insert.
Qed.

Lemma new_input_inv junk c v rest b c' : cinv c v rest -> new_input junk c = Some (b, c') -> exists rest', cinv c' v rest'.
Proof.
  intros Hci. unfold new_input. pose proof Hci as [Hw Hq Hn Hc Hp]. destruct Hw as [Ha Hptr Hv Hx Hl Hcnt Hact Hrs].
  rewrite Ha, Zlen_cons. change MAX_INPUTS with 31. destruct (Z.leb_spec 31 (Zlen rest + 1)); [intros [= <- <-]; eauto|].
  destruct (cdriver c) as [d|]; [|done]. cbn [mbind option_bind]. unfold AddInput. cbn [drivers with_inputs].
  destruct (drivers (cs c) !! d) as [dr|] eqn:Ed; [|done]. cbn [mbind option_bind]. intros [= <- <-].
  set (x := set_idx (next_idx c) (fresh_input junk)). exists (rest ++ [x]).
  assert (Forall (fun i => active i = false) (rest ++ [x])) as Hq' by (apply Forall_app_2; [done|by apply Forall_singleton]).
  pose proof (quiet_count _ Hq) as C1. pose proof (quiet_count _ Hq') as C2.
  assert (Zlen (rest ++ [x]) = Zlen rest + 1) as Hlen by (rewrite Zlen_app; done).
  split; cbn [cs current next_idx]; [|done| | |].
  - split; cbn [all_inputs lift_multiple num_active_lift with_inputs with_drivers]; [done..| |lia|lia|by rewrite Hact, C1, C2|].
    2:{ apply Forall_app_2; [done|by apply Forall_singleton]. }
    intros k0 i0 Hk0. apply lookup_app_Some in Hk0 as [Hk0|[Hge Hk0]]; [by apply Hx|].
    apply list_lookup_singleton_Some in Hk0 as [Hk0 <-]. cbn. rewrite Hn. unfold Zlen. lia.
  - rewrite Hlen, Hn. apply u8_small. pose proof (Zlen_nonneg rest). lia.
  - intros p [= <-]. exists (length rest). split; [done|]. rewrite length_app. cbn. lia.
  - unfold ptrs_ok in *. cbn [all_inputs drivers with_inputs with_drivers] in *. rewrite Ha in Hp.
    assert (Forall (fun d => Forall (fun p => exists k, p = S k /\ (k < length (v :: rest ++ [x]) - 1)%nat) (d_inputs d)) (drivers (cs c))) as Hp'.
    { eapply Forall_impl; [exact Hp|]. intros d0 Hd0. eapply Forall_impl; [exact Hd0|]. intros p (k & -> & ?). exists k.
      split; [done|]. cbn [length] in *. rewrite length_app. cbn. lia. }
    apply Forall_insert; [exact Hp'|]. cbn [d_inputs]. apply Forall_app_2.
    + exact (Forall_lookup_1 _ _ _ _ Hp' Ed).
    + apply Forall_singleton. exists (length rest). split; [done|]. cbn [length]. rewrite length_app. cbn. lia.
Qed.

(** A callback that only edits the current input. *)
Lemma ok_edit_inv c v rest f b c' : cinv c v rest -> (forall i, idx (f i) = idx i /\ active (f i) = active i /\ (reason_ok i -> reason_ok (f i))) ->
  ok (edit c f) = Some (b, c') -> exists rest', cinv c' v rest'.
Proof.
  intros Hc Hf. unfold ok. destruct (edit c f) eqn:E; [|done]. cbn [mbind option_bind]. intros [= <- <-]. by eapply edit_inv.
Qed.

(** The edits of the configuration keep the reasons of an input inside the known ones. *)
Lemma subset_lor a b m : Z.ldiff a m = 0 -> Z.ldiff b m = 0 -> Z.ldiff (Z.lor a b) m = 0.
Proof.
  intros Ha Hb. transitivity (Z.lor (Z.ldiff a m) (Z.ldiff b m)); [|by rewrite Ha, Hb]. bitwise.
Qed.

Lemma subset_ldiff a b m : Z.ldiff a m = 0 -> Z.ldiff (Z.ldiff a b) m = 0.
Proof. intros Ha. transitivity (Z.ldiff (Z.ldiff a m) b); [bitwise|]. by rewrite Ha, Z.ldiff_0_l. Qed.

Ltac edit_ok :=
  intros []; split_and!; [reflexivity|reflexivity|]; unfold reason_ok; cbn; intros;
  first [done | by apply subset_lor | by apply subset_ldiff].

Ltac config_case :=
  match goal with
  | |- (if ?x then _ else _) = Some _ -> _ => destruct x
  | |- match ?x with _ => _ end = Some _ -> _ => destruct x
  | |- Some _ = Some _ -> _ => intros [= <- <-]; eauto
  | |- None = Some _ -> _ => discriminate
  | |- ok (edit _ _) = Some _ -> _ => eapply ok_edit_inv; [eassumption|edit_ok]
  end.

Section ConfigInv.
Context (lines : list Z -> Z) (junk : Z).

Lemma value_inv k e c v rest b c' : cinv c v rest -> OnInputConfigValue lines k e c = Some (b, c') ->
  exists rest', cinv c' v rest'.
Proof.
  intros Hc. unfold OnInputConfigValue. destruct k; [|intros [= <- <-]; eauto].
  destruct (bool_decide (key4 e = _)); [|repeat config_case]. destruct (expect J_STRING e); [|config_case].
  cbv zeta. destruct (edit c _) as [c1|] eqn:E; [|done]. cbn [mbind option_bind]. intros [= <- <-].
  refine (edit_inv _ _ _ _ _ Hc _ E). edit_ok.
Qed.

Lemma emergency_value_inv e c v rest b c' : cinv c v rest -> emergency_value e c = Some (b, c') ->
  exists rest', cinv c' v rest'.
Proof. intros Hc. unfold emergency_value. cbv zeta. repeat config_case. Qed.

Lemma callback_inv c v rest e b c' : cinv c v rest -> InputConfigsJsonCallback lines junk c e = Some (b, c') ->
  exists rest', cinv c' v rest'.
Proof.
  intros Hc. unfold InputConfigsJsonCallback. destruct (stack_pos e) as [|p|p]; [config_case| |config_case].
  destruct p as [p|p|]; [destruct p as [p|p|]|destruct p as [p|p|]|]; try (by config_case).
  - destruct p; [config_case..|]. destruct (bool_decide (key4 e = _)); [by eapply emergency_value_inv|config_case].
  - destruct p; [config_case..|]. destruct (bool_decide (key4 e = _)); [repeat config_case|].
    destruct (bool_decide (key4 e = _)); [repeat config_case|].
    destruct (cdriver c) as [d|]; [|done]. cbn [mbind option_bind].
    destruct (drivers (cs c) !! d) as [dr|]; [|done]. cbn [mbind option_bind]. by eapply value_inv.
  - destruct (expect J_OBJECT e); [by eapply new_input_inv|]. destruct (expect J_OBJECT_END e); [|config_case].
    intros [= <- <-]. exists rest. destruct Hc. by split.
  - destruct (find_driver _ _); intros [= <- <-]; [|by exists rest]. exists rest. destruct Hc. by split.
Qed.

Lemma callbacks_inv es : forall c v rest b c', cinv c v rest -> callbacks lines junk c es = Some (b, c') ->
  exists rest', cinv c' v rest'.
Proof.
  induction es as [|e es IH]; intros c v rest b c' Hc; cbn [callbacks]; [intros [= <- <-]; eauto|].
  destruct (InputConfigsJsonCallback lines junk c e) as [[a c1]|] eqn:E; [|done]. cbn [mbind option_bind].
  destruct (callback_inv _ _ _ _ _ _ Hc E) as [rest1 Hc1].
  destruct (callbacks lines junk c1 es) as [[a2 c2]|] eqn:E2; [|done]. cbn [mbind option_bind]. intros [= <- <-]. by eapply IH.
Qed.

Lemma process_inv chars : forall c v rest b c', cinv c v rest -> process lines junk c chars = Some (b, c') ->
  exists rest', cinv c' v rest'.
Proof.
  induction chars as [|es chars IH]; intros c v rest b c' Hc; cbn [process]; [intros [= <- <-]; eauto|].
  destruct (callbacks lines junk c es) as [[a c1]|] eqn:E; [|done]. cbn [mbind option_bind].
  destruct (callbacks_inv _ _ _ _ _ _ Hc E) as [rest1 Hc1]. destruct a; [by eapply IH|]. intros [= <- <-]. eauto.
Qed.

Lemma cleared_inv s : cinv (cfg (cleared junk s) None None 0)
  (set_delay 10 (set_reason (Z.lor LIFT_MULTIPLE LATCH) (set_idx VIRTUAL (fresh_input junk)))) [].
Proof.
  split; [|constructor|done|done|].
  - split; try done.
  - unfold ptrs_ok, cleared. cbn [drivers]. apply Forall_map, Forall_true. intros d. constructor.
Qed.

Lemma register_inv s chars b s' : OnRegisterInputConfigsChanged lines junk s chars = Some (b, s') -> inv s'.
Proof.
  unfold OnRegisterInputConfigsChanged. destruct (process _ _ _ _) as [[b1 c1]|] eqn:E; [|done].
  cbn [mbind option_bind]. intros [= <- <-]. destruct (process_inv _ _ _ _ _ _ (cleared_inv s) E) as [rest [Hw _ _ _ Hp]].
  split; eauto.
Qed.
End ConfigInv.

(** ** Everything that happens to the inputs *)

Inductive istep (lines : list Z -> Z) : service -> service -> Prop :=
  | step_gpio s pin now d s' : d ∈ drivers s -> gpio_tick pin now s (d_inputs d) = Some s' -> istep lines s s'
  | step_simulated s mask now d s' : d ∈ drivers s -> SetActiveInputs mask now s (d_inputs d) = Some s' -> istep lines s s'
  | step_config s junk chars b s' : OnRegisterInputConfigsChanged lines junk s chars = Some (b, s') -> istep lines s s'.

(** Before the first configuration there are no inputs. *)
Definition unconfigured (s : service) : Prop := all_inputs s = [] /\ Forall (fun d => d_inputs d = []) (drivers s).

Lemma istep_inv lines s s' : istep lines s s' -> unconfigured s \/ inv s -> unconfigured s' \/ inv s'.
Proof.
  intros Hs. destruct Hs as [s pin now d s' Hd Ht|s mask now d s' Hd Ht|s junk chars b s' Hc].
  - intros [[Hn He]|[Hw Hp]].
    + eapply list_elem_of_In in Hd. rewrite List.Forall_forall in He. rewrite (He d Hd) in Ht. injection Ht as <-. left.
      split; [done|]. by apply List.Forall_forall.
    + right. pose proof (proj1 (Forall_forall _ _) Hp d Hd) as Hps. destruct (tick_inv pin now _ s (conj Hw Hp) Hps) as (s1 & H1 & H2).
      congruence.
  - intros [[Hn He]|[Hw Hp]].
    + eapply list_elem_of_In in Hd. rewrite List.Forall_forall in He. rewrite (He d Hd) in Ht. injection Ht as <-. left.
      split; [done|]. by apply List.Forall_forall.
    + right. pose proof (proj1 (Forall_forall _ _) Hp d Hd) as Hps. destruct (simulated_inv mask now _ s (conj Hw Hp) Hps) as (s1 & H1 & H2).
      congruence.
  - intros _. right. by eapply register_inv.
Qed.

Lemma reachable_inv lines s0 s : unconfigured s0 -> rtc (istep lines) s0 s -> unconfigured s \/ inv s.
Proof.
  intros H0 Hr. assert (unconfigured s0 \/ inv s0) as H by (by left). clear H0.
  induction Hr as [s|s s1 s2 Hs _ IH]; [done|]. apply IH. by eapply istep_inv.
Qed.

(** C21: two lifted wheels raise the alarm.  After any sequence of configurations (accepted or
    refused, whatever the parser reports), pin changes and simulated inputs, the virtual input
    that stands for a lifted robot is active exactly when at least two configured lift sensors
    are active, at most 30 inputs are configured with their positions as indices, and every
    pass of a driver over its inputs returns: no pointer of a driver dangles. *)
Theorem lift_multiple_exact (lines : list Z -> Z) (s0 s : service)
  (H0 : unconfigured s0) (Hr : rtc (istep lines) s0 s) (Hc : all_inputs s <> []) :
  exists v rest, all_inputs s = v :: rest /\ emergency_reason v = Z.lor LIFT_MULTIPLE LATCH /\
    (active v = true <-> 2 <= lift_count rest) /\ Zlen rest <= 30 /\
    (forall k i, rest !! k = Some i -> idx i = Z.of_nat k) /\
    (forall d pin now, d ∈ drivers s -> is_Some (gpio_tick pin now s (d_inputs d))).
Proof.
  destruct (reachable_inv lines s0 s H0 Hr) as [[? _]|[(v & rest & Hw) Hp]]; [done|].
  exists v, rest. destruct (wf_virtual _ _ _ Hw) as (_ & _ & Hv & _).
  split_and!; [by apply Hw|done| |by apply Hw|by apply Hw|].
  - rewrite (wf_active _ _ _ Hw). apply Z.leb_le.
  - intros d pin now Hd. pose proof (proj1 (Forall_forall _ _) Hp d Hd) as Hps.
    destruct (tick_inv pin now _ s (conj (ex_intro _ v (ex_intro _ rest Hw)) Hp) Hps) as (s1 & -> & _). done.
Qed.

(** Two lift sensors on lines 1 and 2, both pins high. *)
Definition demo_key (p : Z) (t : jtype) (k4 k6 s : list Z) : list jev := [mkjev p t k4 k6 s None].
Definition lift_config (name : list Z) : list (list jev) :=
  [demo_key 3 J_OBJECT [] [] []; demo_key 5 J_STRING str:("line") [] name;
   demo_key 5 J_OBJECT str:("emergency") [] []; demo_key 7 J_STRING str:("emergency") str:("reason") str:("lift");
   demo_key 5 J_OBJECT_END str:("emergency") [] []; demo_key 3 J_OBJECT_END [] [] []].
Definition demo_config : list (list jev) :=
  [demo_key 0 J_OBJECT [] [] []; demo_key 1 J_KEY [] [] str:("gpio"); demo_key 2 J_ARRAY [] [] []]
  ++ lift_config str:("A") ++ lift_config str:("B") ++ [demo_key 2 J_ARRAY_END [] [] []; demo_key 0 J_OBJECT_END [] [] []].
Definition demo_lines (n : list Z) : Z := hd 0 n - 64.
Definition demo_s0 : service := svc [] [mkdriver str:("gpio") D_gpio []] 0 0 [] 0.
Definition demo_s1 : service :=
  match OnRegisterInputConfigsChanged demo_lines 0 demo_s0 demo_config with Some (_, s) => s | None => demo_s0 end.
Definition demo_s2 : service :=
  match gpio_tick (fun _ => true) 77 demo_s1 [1%nat; 2%nat] with Some s => s | None => demo_s1 end.

Lemma demo_reached : rtc (istep demo_lines) demo_s0 demo_s2.
Proof.
  eapply rtc_l.
  - apply (step_config _ _ 0 demo_config true demo_s1). vm_compute. reflexivity.
  - apply rtc_once. apply (step_gpio _ _ (fun _ => true) 77 (mkdriver str:("gpio") D_gpio [1%nat; 2%nat])).
    + vm_compute. left.
    + vm_compute. reflexivity.
Qed.

Lemma lift_multiple_exact_witness :
  exists v rest, all_inputs demo_s2 = v :: rest /\ emergency_reason v = Z.lor LIFT_MULTIPLE LATCH /\
    (active v = true <-> 2 <= lift_count rest) /\ Zlen rest <= 30 /\
    (forall k i, rest !! k = Some i -> idx i = Z.of_nat k) /\
    (forall d pin now, d ∈ drivers demo_s2 -> is_Some (gpio_tick pin now demo_s2 (d_inputs d))).
Proof.
  apply (lift_multiple_exact demo_lines demo_s0 demo_s2); [split; [reflexivity|repeat constructor]|exact demo_reached|].
  vm_compute. discriminate.
Defined.

Example demo_alarm : map active (all_inputs demo_s2) = [true; true; true] /\ num_active_lift demo_s2 = 2.
Proof. vm_compute. split; reflexivity. Qed.

(** ** The status mask *)

Lemma active_mask_bits l : forall k mask n, (forall j i, l !! j = Some i -> idx i = Z.of_nat (k + j)) ->
  Z.of_nat k + Zlen l <= 30 -> 0 <= n ->
  Z.testbit (active_mask l mask) n = Z.testbit mask n || match l !! (Z.to_nat n - k)%nat with
                                     | Some i => (Z.of_nat k <=? n) && active i | None => false end.
Proof.
  induction l as [|i l IH]; intros k mask n Hx Hl Hn; cbn [active_mask]; [by rewrite orb_false_r|].
  rewrite Zlen_cons in Hl. pose proof (Zlen_nonneg l). pose proof (Hx 0%nat i eq_refl) as Hi. rewrite Nat.add_0_r in Hi.
  rewrite (IH (S k)); [|intros j x Hj; rewrite (Hx (S j) x Hj); lia|lia|done].
  assert (VIRTUAL = 255) as HV by reflexivity. rewrite (proj2 (Z.eqb_neq (idx i) VIRTUAL)) by lia. cbn [negb]. rewrite andb_true_r.
  assert (u64 (s32 (Z.shiftl 1 (idx i))) = 2 ^ Z.of_nat k) as Hs.
  { rewrite Hi, Z.shiftl_mul_pow2 by lia. rewrite Z.mul_1_l. assert (0 < 2 ^ Z.of_nat k < 2 ^ 31) as Hb
      by (split; [apply Z.pow_pos_nonneg; lia|apply Z.pow_lt_mono_r; lia]).
    unfold s32, swrap. rewrite (Z.mod_small (_ + _)) by lia. rewrite u64_small by lia. lia. }
  destruct (decide (n = Z.of_nat k)) as [->|Hne].
  - rewrite Nat2Z.id, Nat.sub_diag. cbn [lookup list_lookup]. rewrite Z.leb_refl. cbn [andb].
    assert (match l !! (k - S k)%nat with Some i0 => (Z.of_nat (S k) <=? Z.of_nat k) && active i0 | None => false end = false) as ->.
    { rewrite (proj2 (Z.leb_gt (Z.of_nat (S k)) (Z.of_nat k))) by lia. by destruct (l !! _). }
    rewrite orb_false_r. destruct (active i); [|by rewrite orb_false_r].
    rewrite Z.lor_spec, Hs, Z.pow2_bits_true by lia. by rewrite orb_true_r.
  - assert (Z.testbit (if active i then Z.lor mask (u64 (s32 (Z.shiftl 1 (idx i)))) else mask) n = Z.testbit mask n) as ->.
    { destruct (active i); [|done]. rewrite Z.lor_spec, Hs, Z.pow2_bits_false by lia. apply orb_false_r. }
    f_equal. destruct (Z.leb_spec (Z.of_nat k) n) as [Hge|Hlt].
    + replace (Z.to_nat n - k)%nat with (S (Z.to_nat n - S k)) by lia. cbn [lookup list_lookup].
      by rewrite (proj2 (Z.leb_le (Z.of_nat (S k)) n)) by lia.
    + rewrite (proj2 (Z.leb_gt (Z.of_nat (S k)) n)) by lia. destruct (l !! _), ((i :: l) !! _); done.
Qed.

(** The status message is exact: in every state with the invariant, bit k of the mask that
    is sent is set exactly when the configured input k is active. *)
Theorem status_exact (lines : list Z -> Z) (s0 s : service) (n : Z)
  (H0 : unconfigured s0) (Hr : rtc (istep lines) s0 s) (Hn : 0 <= n) :
  Z.testbit (SendStatus s) n = match all_inputs s !! S (Z.to_nat n) with Some i => active i | None => false end.
Proof.
  destruct (reachable_inv lines s0 s H0 Hr) as [[Ha _]|[(v & rest & Hw) Hp]]; unfold SendStatus.
  - rewrite Ha. apply Z.bits_0.
  - destruct Hw as [Ha Hptr Hv Hx Hl Hcnt Hact Hrs]. rewrite Ha. cbn [active_mask]. rewrite (proj1 Hv), Z.eqb_refl. cbn [negb].
    rewrite andb_false_r. rewrite (active_mask_bits rest 0) by (done || lia). rewrite Z.bits_0. cbn [orb].
    rewrite Nat.sub_0_r. change ((v :: rest) !! S (Z.to_nat n)) with (rest !! Z.to_nat n).
    destruct (rest !! Z.to_nat n); [|done]. change (Z.of_nat 0) with 0. by rewrite (proj2 (Z.leb_le 0 n)) by lia.
Qed.

Lemma status_exact_witness : Z.testbit (SendStatus demo_s2) 1 = true.
Proof.
  apply (status_exact demo_lines demo_s0 demo_s2 1); [split; [reflexivity|repeat constructor]|exact demo_reached|lia].
Defined.

(** ** Reasons *)

(** An input that gives its reason at time [now]; one that will do so if it stays active. *)
Definition armed (i : Input) : bool := negb (emergency_reason i =? 0) && active i.
Definition hit (i : Input) (now : Z) : bool := armed i && (emergency_delay_ms i * 1000 <=? ActiveDuration i now).

Fixpoint hits (l : list Input) (now : Z) : Z :=
  match l with [] => 0 | i :: l' => Z.lor (if hit i now then emergency_reason i else 0) (hits l' now) end.

Fixpoint remaining (l : list Input) (now b : Z) : Z :=
  match l with
  | [] => b
  | i :: l' => remaining l' now (if armed i && negb (hit i now) then Z.min b (emergency_delay_ms i * 1000 - ActiveDuration i now) else b)
  end.

Lemma reasons_of_spec l now : forall r b, reasons_of l now r b = (Z.lor r (hits l now), remaining l now b).
Proof.
  induction l as [|i l IH]; intros r b; cbn [reasons_of hits remaining]; [by rewrite Z.lor_0_r|].
  unfold hit, armed. destruct (emergency_reason i =? 0) eqn:E1; cbn [orb negb andb]; [by rewrite IH, Z.lor_0_l|].
  destruct (active i); cbn [orb negb andb]; [|by rewrite IH, Z.lor_0_l].
  unfold TimeoutReached. destruct (emergency_delay_ms i * 1000 <=? ActiveDuration i now); cbn [negb]; rewrite IH.
  - by rewrite Z.lor_assoc.
  - by rewrite Z.lor_0_l.
Qed.

Lemma remaining_le l now : forall b, remaining l now b <= b.
Proof. induction l as [|i l IH]; intros b; cbn [remaining]; [lia|]. etrans; [apply IH|]. case_match; lia. Qed.

Lemma remaining_input l now i : forall b, i ∈ l -> armed i = true -> hit i now = false ->
  remaining l now b <= emergency_delay_ms i * 1000 - ActiveDuration i now.
Proof.
  induction l as [|j l IH]; intros b Hi Ha Hh; [by apply not_elem_of_nil in Hi|]. cbn [remaining].
  apply elem_of_cons in Hi as [->|Hi]; [|by apply IH]. rewrite Ha, Hh. cbn [andb negb].
  etrans; [apply remaining_le|]. lia.
Qed.

Lemma hits_ext l now now' : (forall i, i ∈ l -> hit i now = hit i now') -> hits l now = hits l now'.
Proof.
  induction l as [|i l IH]; intros H; cbn [hits]; [done|]. rewrite (H i) by left.
  rewrite IH; [done|]. intros j Hj. apply H. by right.
Qed.

Lemma hits_bit l now n : Z.testbit (hits l now) n = existsb (fun i => hit i now && Z.testbit (emergency_reason i) n) l.
Proof.
  induction l as [|i l IH]; cbn [hits existsb]; [apply Z.bits_0|]. rewrite Z.lor_spec, IH.
  by destruct (hit i now); [|rewrite Z.bits_0].
Qed.

Lemma duration_later i now t : 0 <= t -> ActiveDuration i now + t < 2 ^ 32 -> ActiveDuration i (now + t) = ActiveDuration i now + t.
Proof.
  unfold ActiveDuration, u32. intros Ht Hb. replace (now + t - active_since i) with (now - active_since i + t) by lia.
  rewrite <- Zplus_mod_idemp_l. apply Z.mod_small. pose proof (Z.mod_pos_bound (now - active_since i) (2 ^ 32)). lia.
Qed.

Lemma reasons_until s now t : 0 <= t < snd (GetEmergencyReasons s now) ->
  Forall (fun i => armed i = true -> ActiveDuration i now + t < 2 ^ 32) (all_inputs s) ->
  fst (GetEmergencyReasons s (now + t)) = fst (GetEmergencyReasons s now).
Proof.
  unfold GetEmergencyReasons. rewrite !reasons_of_spec. cbn [fst snd]. rewrite !Z.lor_0_l. intros Ht Hf.
  apply hits_ext. intros i Hi. rewrite Forall_forall in Hf. specialize (Hf i Hi).
  destruct (armed i) eqn:Ha; [|unfold hit; by rewrite Ha]. specialize (Hf eq_refl).
  destruct (hit i now) eqn:Hh; unfold hit in Hh |- *; rewrite Ha in Hh |- *; cbn [andb] in Hh |- *; rewrite duration_later by lia; zbool.
  - apply Z.leb_le. lia.
  - assert (hit i now = false) as Hh' by (unfold hit; rewrite Ha; cbn [andb]; apply Z.leb_gt; lia).
    pose proof (remaining_input (all_inputs s) now i UINT32_MAX Hi Ha Hh'). apply Z.leb_gt. lia.
Qed.
