(* ===== verification/Emergency.v ===== *)
(** * Emergency: the emergency service (src/services/emergency_service, src/services/service_ext.hpp)

    The set of reasons for an emergency, a bit set: reasons from the inputs, the timeout of
    the high level computer, reasons the high level sets and clears, and the latch that only the high
    level clears.  The critical sections of the code are atomic here. *)

From S2P Require Import Prelude Inputs.

(** [changed] is the pending event flag EMERGENCY_CHANGED, [statuses] what was sent. *)
Record emergency := em {
  reasons_ : Z;
  last_high_level_emergency_message_ : Z;
  changed : bool;
  statuses : list Z }.

(** The initial values of the members. *)
Definition initial : emergency := em (Z.lor TIMEOUT_INPUTS TIMEOUT_HIGH_LEVEL) 0 false [].

Definition UpdateEmergency (e : emergency) (add clear : Z) : emergency :=
  let r := Z.lor (Z.ldiff (reasons_ e) clear) add in
  if r =? reasons_ e then e
  else em r (last_high_level_emergency_message_ e) true (statuses e ++ [r]).

Definition GetEmergency (e : emergency) : bool := negb (reasons_ e =? 0).

Definition OnStop (e : emergency) : emergency := UpdateEmergency e TIMEOUT_HIGH_LEVEL 0.

(** [SendStatus] of the one second schedule. *)
Definition SendStatus (e : emergency) : emergency :=
  em (reasons_ e) (last_high_level_emergency_message_ e) (changed e) (statuses e ++ [reasons_ e]).

Definition POTENTIAL_INPUTS : Z := Z.lor (Z.lor (Z.lor STOP LIFT) LIFT_MULTIPLE) COLLISION.
Definition POTENTIAL_TIMEOUTS : Z := Z.lor TIMEOUT_HIGH_LEVEL TIMEOUT_INPUTS.

Definition CheckInputs (s : service) (now : Z) (e : emergency) : emergency * Z :=
  let '(reasons, block_time) := GetEmergencyReasons s now in
  (UpdateEmergency e reasons POTENTIAL_INPUTS, block_time).

Definition CheckTimeouts (now : Z) (e : emergency) : emergency * Z :=
  let '(hit, block_time) := TimeoutReached (u32 (now - last_high_level_emergency_message_ e)) 1000000 UINT32_MAX in
  (UpdateEmergency e (if (hit : bool) then TIMEOUT_HIGH_LEVEL else 0) POTENTIAL_TIMEOUTS, block_time).

Definition OnHighLevelEmergencyChanged (now new0 new1 : Z) (e : emergency) : emergency :=
  UpdateEmergency (em (reasons_ e) now (changed e) (statuses e)) new0 new1.

(** [OnLoop]: the order of the two checks, arguments of one call, is not specified. *)
Definition OnLoop (inputs_first : bool) (s : service) (now : Z) (e : emergency) : emergency * Z :=
  if inputs_first then
    let '(e, b1) := CheckInputs s now e in let '(e, b2) := CheckTimeouts now e in (e, Z.min b1 b2)
  else
    let '(e, b2) := CheckTimeouts now e in let '(e, b1) := CheckInputs s now e in (e, Z.min b1 b2).

(** ** The state of the reasons *)

Lemma update_reasons e add clear : reasons_ (UpdateEmergency e add clear) = Z.lor (Z.ldiff (reasons_ e) clear) add.
Proof. unfold UpdateEmergency. destruct (Z.eqb_spec (Z.lor (Z.ldiff (reasons_ e) clear) add) (reasons_ e)); done. Qed.

Lemma update_last e add clear :
  last_high_level_emergency_message_ (UpdateEmergency e add clear) = last_high_level_emergency_message_ e.
Proof. unfold UpdateEmergency. by destruct (_ =? _). Qed.

Lemma update_same e add clear : Z.lor (Z.ldiff (reasons_ e) clear) add = reasons_ e -> UpdateEmergency e add clear = e.
Proof. unfold UpdateEmergency. intros ->. by rewrite Z.eqb_refl. Qed.

(** The high level has been silent for a second. *)
Definition silent (e : emergency) (now : Z) : bool := 1000000 <=? u32 (now - last_high_level_emergency_message_ e).

Definition timeout_reason (e : emergency) (now : Z) : Z := if silent e now then TIMEOUT_HIGH_LEVEL else 0.

Lemma check_inputs_eq s now e : CheckInputs s now e =
  (UpdateEmergency e (fst (GetEmergencyReasons s now)) POTENTIAL_INPUTS, snd (GetEmergencyReasons s now)).
Proof. unfold CheckInputs. by destruct (GetEmergencyReasons s now). Qed.

Lemma check_timeouts_eq now e : CheckTimeouts now e =
  (UpdateEmergency e (timeout_reason e now) POTENTIAL_TIMEOUTS,
   if silent e now then UINT32_MAX else Z.min UINT32_MAX (1000000 - u32 (now - last_high_level_emergency_message_ e))).
Proof. unfold CheckTimeouts, TimeoutReached, timeout_reason, silent. by destruct (1000000 <=? _). Qed.

Lemma timeout_reason_update e add clear now : timeout_reason (UpdateEmergency e add clear) now = timeout_reason e now.
Proof. unfold timeout_reason, silent. by rewrite update_last. Qed.

(** The reasons after a pass of the loop. *)
Definition loop_reasons (s : service) (now : Z) (e : emergency) : Z :=
  Z.lor (Z.lor (Z.ldiff (reasons_ e) (Z.lor POTENTIAL_INPUTS POTENTIAL_TIMEOUTS)) (fst (GetEmergencyReasons s now)))
        (timeout_reason e now).

Definition known_reasons (s : service) : Prop := Forall reason_ok (all_inputs s).

Lemma hits_known l now : Forall reason_ok l -> Z.ldiff (hits l now) INPUT_REASONS = 0.
Proof.
  induction 1 as [|i l Hi _ IH]; cbn [hits]; [done|]. apply subset_lor; [|done]. by destruct (hit i now).
Qed.

Lemma inputs_known s now : known_reasons s -> Z.ldiff (fst (GetEmergencyReasons s now)) INPUT_REASONS = 0.
Proof. intros H. unfold GetEmergencyReasons. rewrite reasons_of_spec. cbn [fst]. rewrite Z.lor_0_l. by apply hits_known. Qed.

(** A set inside another is disjoint from its complement. *)
Lemma known_keep a m p : Z.ldiff a m = 0 -> Z.land m p = 0 -> Z.ldiff a p = a.
Proof.
  intros Ha Hp. apply Z.bits_inj'. intros n Hn.
  assert (Z.testbit (Z.ldiff a m) n = false) as H1 by (by rewrite Ha, Z.bits_0).
  assert (Z.testbit (Z.land m p) n = false) as H2 by (by rewrite Hp, Z.bits_0).
  rewrite Z.ldiff_spec in *. rewrite Z.land_spec in H2.
  destruct (Z.testbit a n), (Z.testbit m n), (Z.testbit p n); done.
Qed.

(** The loop with its two updates. *)
Lemma loop_eq b s now e :
  let a := fst (GetEmergencyReasons s now) in let d := timeout_reason e now in
  OnLoop b s now e =
  (if b then UpdateEmergency (UpdateEmergency e a POTENTIAL_INPUTS) d POTENTIAL_TIMEOUTS
   else UpdateEmergency (UpdateEmergency e d POTENTIAL_TIMEOUTS) a POTENTIAL_INPUTS,
   Z.min (snd (GetEmergencyReasons s now))
     (if silent e now then UINT32_MAX else Z.min UINT32_MAX (1000000 - u32 (now - last_high_level_emergency_message_ e)))).
Proof.
  cbv zeta. unfold OnLoop. destruct b.
  - rewrite check_inputs_eq, check_timeouts_eq, timeout_reason_update. unfold silent. by rewrite update_last.
  - by rewrite check_timeouts_eq, check_inputs_eq.
Qed.

Lemma loop_reasons_spec b s now e : known_reasons s -> reasons_ (fst (OnLoop b s now e)) = loop_reasons s now e.
Proof.
  intros Hk. pose proof (known_keep _ _ POTENTIAL_TIMEOUTS (inputs_known s now Hk) eq_refl) as Hi.
  assert (Z.ldiff (timeout_reason e now) POTENTIAL_INPUTS = timeout_reason e now) as Ht
    by (unfold timeout_reason; by destruct (silent e now)).
  rewrite loop_eq. unfold loop_reasons. cbn [fst]. set (a := fst (GetEmergencyReasons s now)) in *.
  destruct b; rewrite !update_reasons.
  - f_equal. rewrite <- Hi at 2. bitwise.
  - rewrite <- Ht at 2. bitwise.
Qed.

(** ** What a pass of the loop reports *)

Lemma inv_known s : inv s -> known_reasons s.
Proof.
  intros [(v & rest & Hw) _]. unfold known_reasons. rewrite (wf_all _ _ _ Hw). apply Forall_cons. split.
  - unfold reason_ok. destruct (wf_virtual _ _ _ Hw) as (_ & _ & -> & _). done.
  - by apply Hw.
Qed.

Lemma reachable_known lines s0 s : unconfigured s0 -> rtc (istep lines) s0 s -> known_reasons s.
Proof.
  intros H0 Hr. destruct (reachable_inv lines s0 s H0 Hr) as [[Ha _]|Hi]; [|by apply inv_known].
  unfold known_reasons. rewrite Ha. constructor.
Qed.

(** Reason [n] is given by an input that has been active for its delay. *)
Definition given (s : service) (now n : Z) : bool :=
  existsb (fun i => hit i now && Z.testbit (emergency_reason i) n) (all_inputs s).

Lemma reasons_bit s now n : Z.testbit (fst (GetEmergencyReasons s now)) n = given s now n.
Proof. unfold GetEmergencyReasons. rewrite reasons_of_spec. cbn [fst]. rewrite Z.lor_0_l. apply hits_bit. Qed.

Lemma given_known s now n : known_reasons s -> 0 <= n -> Z.testbit INPUT_REASONS n = false -> given s now n = false.
Proof.
  intros Hk Hn Hb. rewrite <- reasons_bit. pose proof (inputs_known s now Hk) as H.
  assert (Z.testbit (Z.ldiff (fst (GetEmergencyReasons s now)) INPUT_REASONS) n = false) as H' by (by rewrite H, Z.bits_0).
  rewrite Z.ldiff_spec, Hb in H'. by rewrite andb_true_r in H'.
Qed.

(** C4: the emergency state is exact.  For every reachable configuration and state of the
    inputs, and in either order of the two checks, a pass of the loop leaves exactly these
    reasons: stop, lift, multiple lift and collision when and only when an input with that
    reason has been active for its delay; the high level timeout when and only when the last
    message is a second old; the latch when it was set before or an input with the latch has
    fired; no input timeout; and every reason of the high level as it was. *)
Theorem emergency_exact (lines : list Z -> Z) (s0 s : service) (b : bool) (now : Z) (e : emergency)
  (H0 : unconfigured s0) (Hr : rtc (istep lines) s0 s) :
  let r := reasons_ (fst (OnLoop b s now e)) in
  (forall n, 2 <= n <= 5 -> Z.testbit r n = given s now n) /\
  Z.testbit r 6 = silent e now /\
  Z.testbit r 0 = Z.testbit (reasons_ e) 0 || given s now 0 /\
  Z.testbit r 1 = false /\
  (forall n, 7 <= n -> Z.testbit r n = Z.testbit (reasons_ e) n).
Proof.
  pose proof (reachable_known lines s0 s H0 Hr) as Hk. cbv zeta. rewrite (loop_reasons_spec b s now e Hk). unfold loop_reasons.
  assert (forall n, Z.testbit (Z.lor (Z.lor (Z.ldiff (reasons_ e) (Z.lor POTENTIAL_INPUTS POTENTIAL_TIMEOUTS))
            (fst (GetEmergencyReasons s now))) (timeout_reason e now)) n =
          Z.testbit (reasons_ e) n && negb (Z.testbit 126 n) || given s now n || (silent e now && Z.testbit 64 n)) as Hb.
  { intros n. rewrite !Z.lor_spec, Z.ldiff_spec, reasons_bit. unfold timeout_reason. by destruct (silent e now); rewrite ?Z.bits_0. }
  assert (forall n, 7 <= n -> Z.testbit 126 n = false /\ Z.testbit 64 n = false /\ Z.testbit INPUT_REASONS n = false) as Hhigh.
  { intros n Hn. assert (forall a, 0 <= a < 2 ^ 7 -> Z.testbit a n = false) as H.
    { intros a Ha. by apply (proj1 (bounded_bits 7 a ltac:(lia)) Ha). }
    split_and!; by apply H. }
  split_and!.
  - intros n Hn. rewrite Hb. assert (n = 2 \/ n = 3 \/ n = 4 \/ n = 5) as [-> |[-> |[-> | ->]]] by lia; cbn;
      rewrite ?andb_false_r, ?orb_false_r; done.
  - rewrite Hb. rewrite (given_known s now 6) by (done || lia). cbn. by rewrite ?andb_false_r, ?orb_false_r, ?andb_true_r.
  - rewrite Hb. cbn. by rewrite ?andb_true_r, ?andb_false_r, ?orb_false_r.
  - rewrite Hb. rewrite (given_known s now 1) by (done || lia). cbn. by rewrite ?andb_false_r.
  - intros n Hn. destruct (Hhigh n Hn) as (E1 & E2 & E3). rewrite Hb, E1, E2, (given_known s now n) by (done || lia).
    cbn. by rewrite andb_true_r, andb_false_r, !orb_false_r.
Qed.

Lemma emergency_exact_witness :
  let r := reasons_ (fst (OnLoop true demo_s2 20000 initial)) in
  (forall n, 2 <= n <= 5 -> Z.testbit r n = given demo_s2 20000 n) /\
  Z.testbit r 6 = silent initial 20000 /\ Z.testbit r 0 = Z.testbit (reasons_ initial) 0 || given demo_s2 20000 0 /\
  Z.testbit r 1 = false /\ (forall n, 7 <= n -> Z.testbit r n = Z.testbit (reasons_ initial) n).
Proof.
  apply (emergency_exact demo_lines demo_s0 demo_s2 true 20000 initial);
    [split; [reflexivity|repeat constructor]|exact demo_reached].
Defined.

(** ** The latch *)

(** What happens to the service: passes of the loop, checks on input events, messages of the
    high level, the end of its connection, the status schedule. *)
Inductive estep : emergency -> emergency -> Prop :=
  | e_loop b s now e : estep e (fst (OnLoop b s now e))
  | e_inputs s now e : estep e (fst (CheckInputs s now e))
  | e_high_level now new0 new1 e : Z.testbit new1 0 = false -> estep e (OnHighLevelEmergencyChanged now new0 new1 e)
  | e_stop e : estep e (OnStop e)
  | e_status e : estep e (SendStatus e)
  | e_taken e : estep e (em (reasons_ e) (last_high_level_emergency_message_ e) false (statuses e)).

Lemma update_latch e add clear : Z.testbit clear 0 = false -> Z.testbit (reasons_ e) 0 = true ->
  Z.testbit (reasons_ (UpdateEmergency e add clear)) 0 = true.
Proof. intros Hc Hl. rewrite update_reasons, Z.lor_spec, Z.ldiff_spec, Hc, Hl. done. Qed.

Lemma estep_latch e e' : estep e e' -> Z.testbit (reasons_ e) 0 = true -> Z.testbit (reasons_ e') 0 = true.
Proof.
  intros Hs Hl. destruct Hs as [b s now e|s now e|now n0 n1 e Hc|e|e|e]; [|..|done|done].
  - rewrite loop_eq. destruct b; (apply update_latch; [done|]; by apply update_latch).
  - rewrite check_inputs_eq. by apply update_latch.
  - by apply update_latch.
  - by apply update_latch.
Qed.

(** A latched emergency ends only by the high level: once the latch is set it stays set, and
    the emergency active, through any sequence of passes of the loop at any times and with any
    inputs, input checks, lost connections and high level messages that do not clear the latch. *)
Theorem latch_persists (e e' : emergency) (Hl : Z.testbit (reasons_ e) 0 = true) (Hr : rtc estep e e') :
  Z.testbit (reasons_ e') 0 = true /\ GetEmergency e' = true.
Proof.
  assert (Z.testbit (reasons_ e') 0 = true) as H by (induction Hr; eauto using estep_latch).
  split; [done|]. unfold GetEmergency. destruct (Z.eqb_spec (reasons_ e') 0) as [E|]; [|done].
  rewrite E in H. done.
Qed.

Lemma latch_persists_witness :
  let e := em 5 0 false [] in
  Z.testbit (reasons_ (fst (OnLoop true demo_s0 500 e))) 0 = true /\ GetEmergency (fst (OnLoop true demo_s0 500 e)) = true.
Proof.
  apply (latch_persists (em 5 0 false [])); [reflexivity|apply rtc_once, e_loop].
Defined.

(** ** Sleeping *)

Lemma ldiff_absorb r p x : Z.lor (Z.ldiff (Z.lor (Z.ldiff r p) x) p) x = Z.lor (Z.ldiff r p) x.
Proof. bitwise. Qed.

(** The block time is the time left to an input or to the high level. *)
Lemma remaining_attained l now : forall b, remaining l now b = b \/
  exists i, i ∈ l /\ armed i = true /\ hit i now = false /\ ActiveDuration i now + remaining l now b = emergency_delay_ms i * 1000.
Proof.
  induction l as [|i l IH]; intros b; cbn [remaining]; [by left|].
  set (c := if _ : bool then _ else b). destruct (IH c) as [->|(j & Hj & H)]; [|right; exists j; split; [by right|done]].
  subst c. destruct (armed i) eqn:Ha, (hit i now) eqn:Hh; cbn [andb negb]; auto.
  destruct (Z.le_gt_cases b (emergency_delay_ms i * 1000 - ActiveDuration i now)); [left; lia|].
  right. exists i. split; [by left|]. split; [done|]. split; [done|lia].
Qed.

Lemma remaining_pos l now : forall b, 0 < b -> 0 < remaining l now b.
Proof.
  induction l as [|i l IH]; intros b Hb; cbn [remaining]; [done|]. apply IH. unfold hit.
  destruct (armed i); cbn [andb negb]; [|done]. destruct (Z.leb_spec (emergency_delay_ms i * 1000) (ActiveDuration i now)); cbn [negb]; lia.
Qed.

Lemma silent_until e now t : 0 <= t -> u32 (now - last_high_level_emergency_message_ e) + t < 2 ^ 32 ->
  (silent e now = false -> t < 1000000 - u32 (now - last_high_level_emergency_message_ e)) ->
  silent e (now + t) = silent e now.
Proof.
  unfold silent. intros Ht Hm Hs. pose proof (u32_range (now - last_high_level_emergency_message_ e)).
  replace (now + t - last_high_level_emergency_message_ e) with (now - last_high_level_emergency_message_ e + t) by lia.
  assert (forall z, u32 (z + t) = u32 (u32 z + t)) as -> by (intros z; unfold u32; by rewrite Zplus_mod_idemp_l).
  rewrite (u32_small (_ + t)) by lia.
  destruct (Z.leb_spec 1000000 (u32 (now - last_high_level_emergency_message_ e))); [apply Z.leb_le; lia|apply Z.leb_gt].
  specialize (Hs eq_refl). lia.
Qed.

(** A second pass that finds the same inputs and the same silence changes nothing. *)
Lemma loop_again b b' s now now' e : known_reasons s ->
  fst (GetEmergencyReasons s now') = fst (GetEmergencyReasons s now) -> silent e now' = silent e now ->
  let e1 := fst (OnLoop b s now e) in fst (OnLoop b' s now' e1) = e1.
Proof.
  intros Hk Hg Hsil. cbv zeta.
  assert (last_high_level_emergency_message_ (fst (OnLoop b s now e)) = last_high_level_emergency_message_ e) as Hlast.
  { rewrite loop_eq. cbn [fst]. destruct b; by rewrite !update_last. }
  pose proof (loop_reasons_spec b s now e Hk) as Hrs. set (e1 := fst (OnLoop b s now e)) in *.
  assert (timeout_reason e1 now' = timeout_reason e now) as Htr.
  { unfold timeout_reason. enough (silent e1 now' = silent e now) as -> by done. rewrite <- Hsil. unfold silent. by rewrite Hlast. }
  set (a := fst (GetEmergencyReasons s now)) in *. set (d := timeout_reason e now) in *.
  assert (Z.ldiff a POTENTIAL_TIMEOUTS = a) as Ha by (by apply (known_keep _ _ _ (inputs_known s now Hk))).
  assert (Z.ldiff d POTENTIAL_INPUTS = d) as Hd' by (unfold d, timeout_reason; by destruct (silent e now)).
  assert (UpdateEmergency e1 a POTENTIAL_INPUTS = e1) as U1.
  { apply update_same. rewrite Hrs. unfold loop_reasons. fold a d. rewrite <- Hd'. bitwise. }
  assert (UpdateEmergency e1 d POTENTIAL_TIMEOUTS = e1) as U2.
  { apply update_same. rewrite Hrs. unfold loop_reasons. fold a d. rewrite <- Ha. bitwise. }
  rewrite (loop_eq b' s now' e1). cbn [fst]. rewrite Hg, Htr. destruct b'; [by rewrite U1|by rewrite U2].
Qed.

(** No 32-bit age wraps within [t]: neither of an active input nor of the last message. *)
Definition unwrapped (s : service) (e : emergency) (now t : Z) : Prop :=
  Forall (fun i => armed i = true -> ActiveDuration i now + t < 2 ^ 32) (all_inputs s) /\
  u32 (now - last_high_level_emergency_message_ e) + t < 2 ^ 32.

(** C20: the block time of a pass is exact for the inputs and the message it has seen.  The time it returns is
    positive.  If until then no input changes, no message arrives and no 32-bit age wraps, a pass at any time
    before it is over would change nothing: neither the reasons nor the event flag nor the messages sent.  And it is
    no shorter than that: when it is not the largest value, it is exactly the time that is left to an
    active input until its delay, or to the high level until its second is over.  (It says nothing of an input that
    changes meanwhile: see [block_time_stale].) *)
Theorem loop_block_time (lines : list Z -> Z) (s0 s : service) (b : bool) (now : Z) (e : emergency)
  (H0 : unconfigured s0) (Hr : rtc (istep lines) s0 s) :
  let '(e1, block_time) := OnLoop b s now e in
  0 < block_time <= UINT32_MAX /\
  (forall b' t, 0 <= t < block_time -> unwrapped s e now t -> fst (OnLoop b' s (now + t) e1) = e1) /\
  (block_time < UINT32_MAX ->
     (exists i, i ∈ all_inputs s /\ armed i = true /\ hit i now = false /\
        ActiveDuration i now + block_time = emergency_delay_ms i * 1000) \/
     silent e now = false /\ u32 (now - last_high_level_emergency_message_ e) + block_time = 1000000).
Proof.
  pose proof (reachable_known lines s0 s H0 Hr) as Hk.
  pose proof (loop_again b) as Hagain. pose proof (f_equal snd (loop_eq b s now e)) as Hb.
  specialize (fun b' t => Hagain b' s now (now + t) e Hk). cbv zeta in Hagain.
  destruct (OnLoop b s now e) as [e1 B]. cbn [fst snd] in *.
  pose proof (u32_range (now - last_high_level_emergency_message_ e)) as Hu.
  set (sil := if silent e now then _ else _) in Hb.
  assert (0 < sil <= UINT32_MAX /\ (silent e now = false -> sil = 1000000 - u32 (now - last_high_level_emergency_message_ e)) /\
          (silent e now = true -> sil = UINT32_MAX)) as (Hs1 & Hs2 & Hs3).
  { subst sil. unfold silent, UINT32_MAX in *. destruct (Z.leb_spec 1000000 (u32 (now - last_high_level_emergency_message_ e))); lia. }
  assert (snd (GetEmergencyReasons s now) = remaining (all_inputs s) now UINT32_MAX) as Eg
    by (unfold GetEmergencyReasons; by rewrite reasons_of_spec).
  pose proof (remaining_le (all_inputs s) now UINT32_MAX) as Hle. pose proof (remaining_pos (all_inputs s) now UINT32_MAX ltac:(done)) as Hpos.
  split_and!; [lia|lia| |].
  - intros b' t Ht [Hd Hm]. apply Hagain; [apply reasons_until; [lia|done]|].
    apply silent_until; [lia|done|]. intros E. specialize (Hs2 E). lia.
  - intros HB. destruct (Z.le_gt_cases (remaining (all_inputs s) now UINT32_MAX) sil).
    + left. destruct (remaining_attained (all_inputs s) now UINT32_MAX) as [E|(i & Hi & Ha & Hh & E)]; [lia|].
      exists i. split_and!; [done..|]. lia.
    + right. destruct (silent e now) eqn:Es; [specialize (Hs3 eq_refl); lia|]. split; [done|]. specialize (Hs2 eq_refl). lia.
Qed.

Lemma loop_block_time_witness :
  let e1 := fst (OnLoop true demo_s2 500 initial) in fst (OnLoop false demo_s2 (500 + 9000) e1) = e1.
Proof.
  pose proof (loop_block_time demo_lines demo_s0 demo_s2 true 500 initial) as H.
  cbv zeta. destruct (OnLoop true demo_s2 500 initial) as [e1 bt] eqn:E. destruct H as (_ & H & _).
  - split; [reflexivity|repeat constructor].
  - exact demo_reached.
  - apply H.
    + vm_compute in E. injection E as _ <-. vm_compute. split; [discriminate|reflexivity].
    + split; [|vm_compute; reflexivity].
      apply (bool_decide_unpack (Forall (fun i => armed i = true -> ActiveDuration i 500 + 9000 < 2 ^ 32) (all_inputs demo_s2))).
      vm_compute. exact I.
Defined.

(** An input with a delay of 100 ms that becomes active while the thread of the service sleeps: the check
    of the main thread finds no reason yet, and its block time, which asks for a pass in 100 ms, is dropped
    (main.cpp).  The thread may go on sleeping for nearly a second, long after the input should have given its reason. *)
Example block_time_stale :
  let off := svc [input 0 false STOP 100 0 false 0] [] 0 0 [] 0 in
  let on := svc [input 0 false STOP 100 0 true 1000] [] 0 0 [] 0 in
  let e := em 0 0 false [] in
  OnLoop true off 0 e = (e, 1000000) /\ CheckInputs on 1000 e = (e, 100000) /\
  reasons_ (fst (CheckInputs on 101000 e)) = STOP.
Proof. vm_compute. repeat split. Qed.

(** The microsecond clock has 32 bits: when the high level has been silent for 2^32 microseconds
    (71 minutes) its age reads as zero, and the timeout is withdrawn for a second. *)
Example timeout_withdrawn :
  let e := em TIMEOUT_HIGH_LEVEL 0 false [] in
  GetEmergency (fst (OnLoop true demo_s0 (2 ^ 32 - 1) e)) = true /\
  GetEmergency (fst (OnLoop true demo_s0 (2 ^ 32 + 5) e)) = false.
Proof. vm_compute. split; reflexivity. Qed.

(** In the first second after the start the initial emergency is withdrawn although the high
    level never spoke. *)
Example first_second : GetEmergency initial = true /\ GetEmergency (fst (OnLoop true demo_s0 999999 initial)) = false.
Proof. vm_compute. split; reflexivity. Qed.
