(* ===== verification/Drive.v ===== *)
(** * Drive: the differential drive (src/services/diff_drive_service, src/drivers/motor)

    The service that turns a commanded twist into the duty cycles of two motors, with its
    dead man's timeout, the emergency stop and the odometry from the wheel ticks; the motor
    drivers behind an interface, and the PWM driver of the robot.  Floats are IEEE binary32
    ([SpecFloat] of the Standard Library).  The sections under [state_mutex_] are atomic. *)

From S2P Require Import Prelude.
From Stdlib Require Import Floats.SpecFloat.

(** ** Binary32 *)

Definition f32_prec : Z := 24.
Definition f32_emax : Z := 128.
Definition f32_of_Z (z : Z) : spec_float := binary_normalize f32_prec f32_emax z 0 false.
Definition f32_add := SFadd f32_prec f32_emax.
Definition f32_sub := SFsub f32_prec f32_emax.
Definition f32_mul := SFmul f32_prec f32_emax.
Definition f32_div := SFdiv f32_prec f32_emax.
Definition f32_zero : spec_float := S754_zero false.
Definition f32_one : spec_float := f32_of_Z 1.
Definition f32_half : spec_float := f32_div f32_one (f32_of_Z 2).

(** Conversion of a double, with rounding. *)
Definition f32_of_f64 (d : spec_float) : spec_float :=
  match d with
  | S754_finite s m e => binary_normalize f32_prec f32_emax (if s then Z.neg m else Z.pos m) e s
  | _ => d
  end.

Definition is_nan (x : spec_float) : bool := match x with S754_nan => true | _ => false end.

(** Conversion to an unsigned integer: truncation; without a value outside its range. *)
Definition u32_of_f32 (x : spec_float) : option Z :=
  match x with
  | S754_zero _ => Some 0
  | S754_finite s m e =>
      let v := if 0 <=? e then Z.pos m * 2 ^ e else Z.pos m / 2 ^ (- e) in
      if s then (if v =? 0 then Some 0 else None) else if v <? 2 ^ 32 then Some v else None
  | _ => None
  end.

(** ** Motor drivers *)

(** The parts of ESCState that are used. *)
Record ESCState := esc { temperature_pcb : spec_float; current_input : spec_float; tacho : Z; status : Z }.

Definition ESC_STATUS_DISCONNECTED : Z := 99.

(** What the service relies on: duty zero is always accepted and stops the motor, and what the
    driver does on its own (interrupts) does not start a stopped motor.  [RequestStatus] may
    report a state at once, through the callback. *)
Class MotorDriver (M : Type) := {
  SetDuty : M -> spec_float -> option M;
  RequestStatus : M -> option ESCState;
  interrupt : M -> M -> Prop;
  stopped : M -> Prop;
  stop_law : forall m s, exists m', SetDuty m (S754_zero s) = Some m' /\ stopped m';
  interrupt_law : forall m m', interrupt m m' -> stopped m -> stopped m' }.

(** [PwmMotorDriver]: the widths of its two channels and the encoder counts. *)
Record pwm_motor := pwm { width1 : Z; width2 : Z; p_tacho : Z; p_tacho_abs : Z }.

Definition PERIOD : Z := 4095 * 4.

Definition pwm_SetDuty (m : pwm_motor) (duty : spec_float) : option pwm_motor :=
  if SFltb f32_zero duty then
    w ← u32_of_f32 (f32_mul (f32_of_Z PERIOD) duty);
    Some (pwm w 0 (p_tacho m) (p_tacho_abs m))
  else
    w ← u32_of_f32 (f32_mul (f32_of_Z PERIOD) (SFopp duty));
    Some (pwm 0 w (p_tacho m) (p_tacho_abs m)).

Definition pwm_RequestStatus (m : pwm_motor) : option ESCState := Some (esc f32_zero f32_zero (p_tacho m) 0).

(** The interrupt at a rising edge of encoder line A. *)
Definition HandleEncoderTick (line_b : bool) (m : pwm_motor) : pwm_motor :=
  pwm (width1 m) (width2 m) (u32 (if line_b then p_tacho m + 1 else p_tacho m - 1)) (u32 (p_tacho_abs m + 1)).

#[export] Program Instance pwm_driver : MotorDriver pwm_motor := {
  SetDuty := pwm_SetDuty;
  RequestStatus := pwm_RequestStatus;
  interrupt m m' := exists line_b, m' = HandleEncoderTick line_b m;
  stopped m := width1 m = 0 /\ width2 m = 0 }.
Next Obligation. intros m s. destruct s; by eexists. Qed.
Next Obligation. intros m m' [b ->] H. exact H. Qed.

(** ** The service *)

Inductive msg :=
  | SendESCStatus (left : bool) (st : Z)
  | SendESCTemperature (left : bool) (t : spec_float)
  | SendESCCurrent (left : bool) (c : spec_float)
  | SendActualTwist (vx vr : spec_float)
  | SendWheelTicks (l r : Z).

Section Drive.
Context {M : Type} `{!MotorDriver M}.

Record drive := mkdrive {
  left_m : M; right_m : M;
  speed_l : spec_float; speed_r : spec_float;
  duty_sent : bool;
  last_duty_received : Z;
  left_state : ESCState; right_state : ESCState;
  left_valid : bool; right_valid : bool;
  last_valid_esc : Z;
  last_ticks_left : Z; last_ticks_right : Z; last_ticks_valid : bool; last_ticks_micros : Z;
  out : list msg }.

Definition with_motors (d : drive) (l r : M) (sent : bool) : drive :=
  mkdrive l r (speed_l d) (speed_r d) sent (last_duty_received d) (left_state d) (right_state d) (left_valid d)
    (right_valid d) (last_valid_esc d) (last_ticks_left d) (last_ticks_right d) (last_ticks_valid d) (last_ticks_micros d) (out d).
Definition with_speeds (d : drive) (l r : spec_float) : drive :=
  mkdrive (left_m d) (right_m d) l r (duty_sent d) (last_duty_received d) (left_state d) (right_state d) (left_valid d)
    (right_valid d) (last_valid_esc d) (last_ticks_left d) (last_ticks_right d) (last_ticks_valid d) (last_ticks_micros d) (out d).
Definition with_out (d : drive) (o : list msg) : drive :=
  mkdrive (left_m d) (right_m d) (speed_l d) (speed_r d) (duty_sent d) (last_duty_received d) (left_state d) (right_state d)
    (left_valid d) (right_valid d) (last_valid_esc d) (last_ticks_left d) (last_ticks_right d) (last_ticks_valid d)
    (last_ticks_micros d) o.
Definition with_received (d : drive) (now : Z) : drive :=
  mkdrive (left_m d) (right_m d) (speed_l d) (speed_r d) (duty_sent d) now (left_state d) (right_state d)
    (left_valid d) (right_valid d) (last_valid_esc d) (last_ticks_left d) (last_ticks_right d) (last_ticks_valid d)
    (last_ticks_micros d) (out d).
Definition with_state (d : drive) (left : bool) (s : ESCState) : drive :=
  mkdrive (left_m d) (right_m d) (speed_l d) (speed_r d) (duty_sent d) (last_duty_received d)
    (if left then s else left_state d) (if left then right_state d else s)
    (if left then true else left_valid d) (if left then right_valid d else true)
    (last_valid_esc d) (last_ticks_left d) (last_ticks_right d) (last_ticks_valid d) (last_ticks_micros d) (out d).
Definition with_ticks_valid (d : drive) (b : bool) : drive :=
  mkdrive (left_m d) (right_m d) (speed_l d) (speed_r d) (duty_sent d) (last_duty_received d) (left_state d) (right_state d)
    (left_valid d) (right_valid d) (last_valid_esc d) (last_ticks_left d) (last_ticks_right d) b (last_ticks_micros d) (out d).

(** [DiffDriveService::SetDuty]. *)
Definition SetDuties (emergency : bool) (d : drive) : option drive :=
  l ← SetDuty (left_m d) (if emergency then f32_zero else speed_l d);
  r ← SetDuty (right_m d) (if emergency then f32_zero else speed_r d);
  Some (with_motors d l r true).

Definition OnEmergencyChangedEvent (emergency : bool) (d : drive) : option drive :=
  if emergency then SetDuties emergency (with_speeds d f32_zero f32_zero) else Some d.

Definition OnStart (d : drive) : drive := with_ticks_valid (with_speeds d f32_zero f32_zero) false.
Definition OnStop (d : drive) : drive := with_ticks_valid (with_speeds d f32_zero f32_zero) false.

(** The registers of the service. *)
Context (WheelTicksPerMeter WheelDistance : spec_float).

(** The differences of the tacho counts are [int32_t]; their sum and difference wrap here where
    C++ leaves the overflow undefined. *)
Definition ProcessStatusUpdate (micros : Z) (d : drive) : drive :=
  let o := out d ++
    [SendESCTemperature true (temperature_pcb (left_state d)); SendESCCurrent true (current_input (left_state d));
     SendESCStatus true (status (left_state d)); SendESCTemperature false (temperature_pcb (right_state d));
     SendESCCurrent false (current_input (right_state d)); SendESCStatus false (status (right_state d))] in
  let o := if last_ticks_valid d then
    let dt := f32_div (f32_of_Z (u32 (micros - last_ticks_micros d))) (f32_of_Z 1000000) in
    let d_left := s32 (tacho (left_state d) - last_ticks_left d) in
    let d_right := s32 (tacho (right_state d) - last_ticks_right d) in
    let den := f32_mul (f32_mul (f32_of_Z 2) dt) (f32_of_f64 WheelTicksPerMeter) in
    let vx := f32_div (f32_of_Z (s32 (d_left - d_right))) den in
    let vr := f32_div (SFopp (f32_of_Z (s32 (d_left + d_right)))) den in
    o ++ [SendActualTwist vx vr; SendWheelTicks (tacho (left_state d)) (tacho (right_state d))]
  else o in
  mkdrive (left_m d) (right_m d) (speed_l d) (speed_r d) (duty_sent d) (last_duty_received d) (left_state d) (right_state d)
    false false micros (tacho (left_state d)) (tacho (right_state d)) true micros o.

(** [LeftESCCallback] and [RightESCCallback]. *)
Definition ESCCallback (left : bool) (now : Z) (s : ESCState) (d : drive) : drive :=
  let d := with_state d left s in
  if (if left then right_valid d else left_valid d) then ProcessStatusUpdate now d else d.

Definition request (left : bool) (now : Z) (d : drive) : drive :=
  match RequestStatus (if left then left_m d else right_m d) with
  | Some s => ESCCallback left now s d
  | None => d
  end.

Definition tick (now : Z) (emergency : bool) (d : drive) : option drive :=
  let d := if 1000000 <? u32 (now - last_duty_received d) then with_speeds d f32_zero f32_zero else d in
  d ← (if duty_sent d then Some d else SetDuties emergency d);
  let d := request false now (request true now d) in
  let d := if 1000000 <? u32 (now - last_valid_esc d) then
             with_out d (out d ++ (if left_valid d then [] else [SendESCStatus true ESC_STATUS_DISCONNECTED])
                               ++ (if right_valid d then [] else [SendESCStatus false ESC_STATUS_DISCONNECTED]))
           else d in
  Some (with_motors d (left_m d) (right_m d) false).

Definition clamp (x : spec_float) : spec_float :=
  if SFleb f32_one x then f32_one else if SFleb x (SFopp f32_one) then SFopp f32_one else x.

(** [new_value] are six doubles. *)
Definition OnControlTwistChanged (now : Z) (emergency : bool) (new_value : list spec_float) (d : drive) : option drive :=
  match new_value with
  | [x; _; _; _; _; z] =>
      let linear := f32_of_f64 x in
      let angular := f32_of_f64 z in
      let half := f32_mul (f32_mul f32_half (f32_of_f64 WheelDistance)) angular in
      let d := with_speeds (with_received d now) (clamp (f32_sub linear half)) (clamp (SFopp (f32_add linear half))) in
      if duty_sent d then Some d else SetDuties emergency d
  | _ => Some d
  end.
End Drive.
Arguments drive : clear implicits.

(** ** The clamp *)

(** Not a number, or between -1 and 1. *)
Definition duty_ok (x : spec_float) : bool := is_nan x || (SFleb (SFopp f32_one) x && SFleb x f32_one).

Lemma SFcompare_swap x y : is_nan x = false -> is_nan y = false ->
  SFcompare y x = CompOpp <$> SFcompare x y.
Proof.
  intros Hx Hy. destruct x as [[]|[]| |[] m e]; destruct y as [[]|[]| |[] m' e']; try done; cbn;
    rewrite (Z.compare_antisym e e'); destruct (e ?= e')%Z; cbn; try done;
    change (Pos.compare_cont Eq) with Pos.compare; rewrite (Pos.compare_antisym m m'); by rewrite ?CompOpp_involutive.
Qed.

Lemma SFleb_total x y : is_nan x = false -> is_nan y = false -> SFleb x y = false -> SFleb y x = true.
Proof.
  intros Hx Hy. unfold SFleb. rewrite (SFcompare_swap x y Hx Hy). destruct (SFcompare x y) as [[]|] eqn:E; try done.
  intros _. destruct x as [[]|[]| |[] ? ?], y as [[]|[]| |[] ? ?]; done.
Qed.

Lemma clamp_ok x : duty_ok (clamp x) = true.
Proof.
  unfold clamp. destruct (SFleb f32_one x) eqn:E1; [done|]. destruct (SFleb x (SFopp f32_one)) eqn:E2; [done|].
  unfold duty_ok. destruct (is_nan x) eqn:En; [done|]. cbn [orb].
  by rewrite (SFleb_total x (SFopp f32_one)), (SFleb_total f32_one x).
Qed.

(** ** Stopping *)

Section Stop.
Context {M : Type} `{!MotorDriver M} (WheelTicksPerMeter WheelDistance : spec_float).
Implicit Types d : drive M.

Abbreviation tick := (tick WheelTicksPerMeter).
Abbreviation ESCCallback := (ESCCallback WheelTicksPerMeter).
Abbreviation request := (request WheelTicksPerMeter).
Abbreviation OnControlTwistChanged := (OnControlTwistChanged WheelDistance).

Definition halted (d : drive M) : Prop := stopped (left_m d) /\ stopped (right_m d).
Definition no_speed (d : drive M) : Prop := speed_l d = f32_zero /\ speed_r d = f32_zero.

(** What the status side of the service leaves alone. *)
Definition same_motion d d' : Prop :=
  left_m d' = left_m d /\ right_m d' = right_m d /\ speed_l d' = speed_l d /\ speed_r d' = speed_r d /\
  duty_sent d' = duty_sent d /\ last_duty_received d' = last_duty_received d.

#[local] Instance same_motion_preorder : PreOrder same_motion.
Proof. split; [done|]. intros a b c (A1 & A2 & A3 & A4 & A5 & A6) (B1 & B2 & B3 & B4 & B5 & B6). unfold same_motion. by split_and!; etrans. Qed.

Lemma callback_motion left now s d : same_motion d (ESCCallback left now s d).
Proof. unfold ESCCallback. by destruct (if left then _ else _). Qed.

Lemma request_motion left now d : same_motion d (request left now d).
Proof. unfold request. destruct (RequestStatus _); [apply callback_motion|done]. Qed.

(** Duty zero is sent in an emergency, and without one when the speeds are zero. *)
Lemma set_duties_halt b d : b = true \/ no_speed d ->
  exists d', SetDuties b d = Some d' /\ halted d' /\ speed_l d' = speed_l d /\ speed_r d' = speed_r d /\
    last_duty_received d' = last_duty_received d.
Proof.
  intros H. unfold SetDuties.
  assert ((if b then f32_zero else speed_l d) = f32_zero /\ (if b then f32_zero else speed_r d) = f32_zero) as [-> ->].
  { destruct H as [-> |[-> ->]]; [done|by destruct b]. }
  destruct (stop_law (left_m d) false) as (l & El & Hl), (stop_law (right_m d) false) as (r & Er & Hr).
  unfold f32_zero. rewrite El, Er. cbn. eexists. done.
Qed.

(** The command is more than a second old. *)
Definition timed_out (d : drive M) (now : Z) : Prop := 1000000 < u32 (now - last_duty_received d).

(** The end of a tick, after the duty. *)
Definition tick_rest (now : Z) (d : drive M) : drive M :=
  let d := request false now (request true now d) in
  let d := if 1000000 <? u32 (now - last_valid_esc d) then
             with_out d (out d ++ (if left_valid d then [] else [SendESCStatus true ESC_STATUS_DISCONNECTED])
                               ++ (if right_valid d then [] else [SendESCStatus false ESC_STATUS_DISCONNECTED]))
           else d in
  with_motors d (left_m d) (right_m d) false.

Lemma tick_rest_motion now d : let d' := tick_rest now d in
  left_m d' = left_m d /\ right_m d' = right_m d /\ speed_l d' = speed_l d /\ speed_r d' = speed_r d /\
  duty_sent d' = false /\ last_duty_received d' = last_duty_received d.
Proof.
  assert (same_motion d (request false now (request true now d))) as (H1 & H2 & H3 & H4 & _ & H6).
  { etrans; apply request_motion. }
  unfold tick_rest. cbv zeta. set (d1 := request false now _) in *.
  destruct (1000000 <? _); cbn [left_m right_m speed_l speed_r duty_sent last_duty_received with_motors with_out]; done.
Qed.

Lemma tick_eq now b d : tick now b d =
  (d ← (if duty_sent (if 1000000 <? u32 (now - last_duty_received d) then with_speeds d f32_zero f32_zero else d)
        then Some (if 1000000 <? u32 (now - last_duty_received d) then with_speeds d f32_zero f32_zero else d)
        else SetDuties b (if 1000000 <? u32 (now - last_duty_received d) then with_speeds d f32_zero f32_zero else d));
   Some (tick_rest now d)).
Proof. done. Qed.

(** A tick without a recent command: it never fails, the speeds are zero after it, and the
    motors are stopped if they were, or if no duty was sent since the last tick. *)
Lemma tick_timeout now b d : timed_out d now ->
  exists d', tick now b d = Some d' /\ no_speed d' /\ duty_sent d' = false /\
    last_duty_received d' = last_duty_received d /\ (duty_sent d = false \/ halted d -> halted d').
Proof.
  intros Ht. rewrite tick_eq. apply Z.ltb_lt in Ht. rewrite Ht. cbn [duty_sent with_speeds].
  destruct (duty_sent d) eqn:Es; cbn [mbind option_bind].
  - destruct (tick_rest_motion now (with_speeds d f32_zero f32_zero)) as (H1 & H2 & H3 & H4 & H5 & H6).
    eexists. split; [done|]. unfold no_speed, halted. rewrite H1, H2, H3, H4, H5, H6. split_and!; try done. by intros [|].
  - destruct (set_duties_halt b (with_speeds d f32_zero f32_zero)) as (d1 & -> & Hh & Hl & Hr & Hd); [by right|].
    destruct (tick_rest_motion now d1) as (H1 & H2 & H3 & H4 & H5 & H6). cbn [mbind option_bind].
    eexists. split; [done|]. unfold no_speed, halted. rewrite H1, H2, H3, H4, H5, H6, Hl, Hr, Hd. done.
Qed.

(** ** The dead man's timeout *)

(** What happens while the high level is silent. *)
Inductive quiet_event :=
  | Q_tick (now : Z) (emergency : bool)
  | Q_emergency (emergency : bool)
  | Q_callback (left : bool) (now : Z) (s : ESCState)
  | Q_start | Q_stop.

Definition quiet_step (d : drive M) (ev : quiet_event) : option (drive M) :=
  match ev with
  | Q_tick now b => tick now b d
  | Q_emergency b => OnEmergencyChangedEvent b d
  | Q_callback lf now s => Some (ESCCallback lf now s d)
  | Q_start => Some (OnStart d)
  | Q_stop => Some (OnStop d)
  end.

Fixpoint quiet_run (d : drive M) (evs : list quiet_event) : option (drive M) :=
  match evs with [] => Some d | ev :: evs' => d ← quiet_step d ev; quiet_run d evs' end.

Fixpoint ticks (evs : list quiet_event) : nat :=
  match evs with [] => O | Q_tick _ _ :: evs' => S (ticks evs') | _ :: evs' => ticks evs' end.

(** Every tick comes more than a second after the last command. *)
Definition late (t0 : Z) (ev : quiet_event) : Prop :=
  match ev with Q_tick now _ => 1000000 < u32 (now - t0) | _ => True end.

(** Ticks still needed before the motors are known to be stopped. *)
Definition settled (n : nat) d : Prop :=
  match n with O => no_speed d /\ halted d | S O => no_speed d /\ (duty_sent d = false \/ halted d) | _ => True end.

Lemma quiet_step_settled n d ev : late (last_duty_received d) ev -> settled n d ->
  exists d', quiet_step d ev = Some d' /\ last_duty_received d' = last_duty_received d /\
    settled (match ev with Q_tick _ _ => pred n | _ => n end) d'.
Proof.
  intros Hl Hs. destruct ev as [now b|b|lf now s| |]; cbn [quiet_step].
  - destruct (tick_timeout now b d Hl) as (d' & -> & Hn & Hf & Hd & Hh). exists d'. split_and!; [done|done|].
    destruct n as [|[|[|n]]]; cbn [settled pred] in *; [split; [done|apply Hh; right; apply Hs]|split; [done|apply Hh, Hs]|tauto|done].
  - unfold OnEmergencyChangedEvent. destruct b; [|by exists d].
    destruct (set_duties_halt true (with_speeds d f32_zero f32_zero)) as (d' & -> & Hh & H1 & H2 & H3); [by left|].
    exists d'. split_and!; [done|done|]. unfold settled, no_speed. rewrite H1, H2. destruct n as [|[|n]]; tauto.
  - destruct (callback_motion lf now s d) as (H1 & H2 & H3 & H4 & H5 & H6). eexists. split_and!; [done|done|].
    unfold settled, no_speed, halted in *. by rewrite H1, H2, H3, H4, H5.
  - eexists. split_and!; [done|done|]. destruct n as [|[|n]]; [split; [done|apply Hs]|split; [done|apply Hs]|done].
  - eexists. split_and!; [done|done|]. destruct n as [|[|n]]; [split; [done|apply Hs]|split; [done|apply Hs]|done].
Qed.

Lemma quiet_run_settled evs : forall n d, Forall (late (last_duty_received d)) evs -> settled n d ->
  exists d', quiet_run d evs = Some d' /\ settled (n - ticks evs)%nat d'.
Proof.
  induction evs as [|ev evs IH]; intros n d Hl Hs; cbn [quiet_run ticks].
  { exists d. by rewrite Nat.sub_0_r. }
  apply Forall_cons in Hl as [Hev Hl].
  destruct (quiet_step_settled n d ev Hev Hs) as (d1 & -> & Hd & Hs1). cbn [mbind option_bind].
  rewrite <- Hd in Hl. destruct (IH _ d1 Hl Hs1) as (d' & -> & Hs'). exists d'. split; [done|].
  destruct ev; cbn [ticks]; [|done..]. by replace (n - S (ticks evs))%nat with (pred n - ticks evs)%nat by lia.
Qed.

(** C6: the dead man's timeout.  While no command arrives, from any state and with any driver
    that keeps the interface, every sequence of ticks more than a second after the last command, emergency
    events, motor states and reconnections runs through without an error, and from its second
    tick on both motors are stopped. *)
Theorem dead_man (d : drive M) (evs : list quiet_event) (Hl : Forall (late (last_duty_received d)) evs) :
  exists d', quiet_run d evs = Some d' /\ (2 <= ticks evs -> halted d')%nat.
Proof.
  destruct (quiet_run_settled evs 2 d Hl I) as (d' & Hr & Hs). exists d'. split; [done|]. intros H.
  replace (2 - ticks evs)%nat with O in Hs by lia. apply Hs.
Qed.
End Stop.

Definition no_state : ESCState := esc f32_zero f32_zero 0 0.

(** The service after a command at time 0 that runs both motors forward, its duty just sent. *)
Definition demo_drive : drive pwm_motor :=
  mkdrive (pwm 8190 0 0 0) (pwm 0 8190 0 0) f32_half (SFopp f32_half) true 0 no_state no_state false false 0 0 0 false 0 [].

Lemma dead_man_witness :
  let evs := [Q_tick 1500000 false; Q_emergency false; Q_tick 1520000 false] in
  exists d', quiet_run f32_one demo_drive evs = Some d' /\ (2 <= ticks evs -> halted d')%nat.
Proof. apply (dead_man f32_one demo_drive). repeat constructor. Defined.

(** One tick is not enough when a duty was sent since the last one. *)
Example one_tick : (fun d => (width1 (left_m d), width2 (right_m d))) <$> tick f32_one 1500000 false demo_drive = Some (8190, 8190).
Proof. vm_compute. reflexivity. Qed.

(** A command of not-a-number passes the clamp, and the PWM width it asks for has no value. *)
Example nan_command : clamp S754_nan = S754_nan /\ pwm_SetDuty (left_m demo_drive) S754_nan = None.
Proof. vm_compute. split; reflexivity. Qed.

Example full_speed : pwm_SetDuty (left_m demo_drive) f32_one = Some (pwm 16380 0 0 0) /\
  pwm_SetDuty (left_m demo_drive) (SFopp f32_one) = Some (pwm 0 16380 0 0).
Proof. vm_compute. split; reflexivity. Qed.
