(* ===== verification/Mower.v ===== *)
(** * Mower: the emergency stop across the threads (src/main.cpp, emergency service, drive service)

    The threads that share the emergency state and the motors, step by step: any thread that
    updates the reasons (a pass of the emergency loop, a message of the high level, an input
    check), with the broadcast of the event after the critical section; the main thread that
    takes the event and stops the drive ([DispatchEvents]); the drive's own thread, which reads the
    emergency inside its own critical section and applies it afterwards. *)

From S2P Require Import Prelude Inputs Emergency Drive.
From Stdlib Require Import Floats.SpecFloat.

Section Mower.
Context {M : Type} `{!MotorDriver M} (WheelTicksPerMeter WheelDistance : spec_float).

(** An operation of the drive service that takes [state_mutex_]. *)
Inductive op :=
  | Op_tick (now : Z)
  | Op_twist (now : Z) (v : list spec_float)
  | Op_callback (lf : bool) (now : Z) (s : ESCState).

Definition run_op (o : op) (emergency : bool) (d : drive M) : option (drive M) :=
  match o with
  | Op_tick now => tick WheelTicksPerMeter now emergency d
  | Op_twist now v => OnControlTwistChanged WheelDistance now emergency v d
  | Op_callback lf now s => Some (ESCCallback WheelTicksPerMeter lf now s d)
  end.

(** Who holds [state_mutex_], with the emergency state it has read. *)
Inductive holder := H_op (o : op) (emergency : bool) | H_stop (emergency : bool).

(** The main thread: waiting; the flags taken; about to stop the motors.  [inputs] is the other flag
    taken with them. *)
Inductive main_pc := Waiting | Taken (emergency_changed inputs : bool) | Stopping (inputs : bool) | Checking.

Record mower := mk {
  reasons : Z;
  owed : nat;                 (* updates made whose event is not broadcast yet *)
  ev_emergency : bool;        (* the flags of the event listener *)
  ev_inputs : bool;
  pc : main_pc;
  lock : option holder;
  dr : drive M }.

Definition active_emergency (m : mower) : bool := negb (reasons m =? 0).

(** The critical section of [UpdateEmergency]. *)
Definition commit (m : mower) (add clear : Z) : mower :=
  let r := Z.lor (Z.ldiff (reasons m) clear) add in
  if r =? reasons m then m
  else mk r (S (owed m)) (ev_emergency m) (ev_inputs m) (pc m) (lock m) (dr m).

Definition with_pc (m : mower) (p : main_pc) : mower :=
  mk (reasons m) (owed m) (ev_emergency m) (ev_inputs m) p (lock m) (dr m).

(** [OnEmergencyChangedEvent] in three steps: the reading that decides whether to stop; the
    lock with the speeds; [SetDuty] with its own reading. *)
Definition after_stop (inputs : bool) : main_pc := if inputs then Checking else Waiting.

(** Steps that finish what is under way; [i_check] is [CheckInputs] of the main thread, with
    the reasons the inputs give. *)
Inductive inner : mower -> mower -> Prop :=
  | i_broadcast r n x i p l d : inner (mk r (S n) x i p l d) (mk r n true i p l d)
  | i_take r n x i l d : x || i = true -> inner (mk r n x i Waiting l d) (mk r n false false (Taken x i) l d)
  | i_read m x i : pc m = Taken x i ->
      inner m (with_pc m (if x && active_emergency m then Stopping i else after_stop i))
  | i_stop_lock r n x i p d : inner (mk r n x i (Stopping p) None d)
      (mk r n x i (Stopping p) (Some (H_stop (negb (r =? 0)))) (with_speeds d f32_zero f32_zero))
  | i_stop r n x i p b d d' : SetDuties b d = Some d' ->
      inner (mk r n x i (Stopping p) (Some (H_stop b)) d) (mk r n x i (after_stop p) None d')
  | i_check m add : pc m = Checking -> inner m (with_pc (commit m add POTENTIAL_INPUTS) Waiting)
  | i_op r n x i p o b d d' : run_op o b d = Some d' -> inner (mk r n x i p (Some (H_op o b)) d) (mk r n x i p None d').

(** What comes from outside: updates of the reasons by any thread, input events, new operations of
    the drive, readings of the emergency by the holder of the lock (at any time until it applies it), the start
    and stop of the service and interrupts; with the number of inner steps it can lead to. *)
Inductive external : nat -> mower -> mower -> Prop :=
  | x_update m add clear : external 5 m (commit m add clear)
  | x_inputs r n x i p l d : external 10 (mk r n x i p l d) (mk r n x true p l d)
  | x_op r n x i p o d : external 1 (mk r n x i p None d) (mk r n x i p (Some (H_op o (negb (r =? 0)))) d)
  | x_read_op r n x i p o b d :
      external 0 (mk r n x i p (Some (H_op o b)) d) (mk r n x i p (Some (H_op o (negb (r =? 0)))) d)
  | x_read_stop r n x i p b d :
      external 0 (mk r n x i p (Some (H_stop b)) d) (mk r n x i p (Some (H_stop (negb (r =? 0)))) d)
  | x_start r n x i p l d : external 0 (mk r n x i p l d) (mk r n x i p l (OnStart d))
  | x_stop r n x i p l d : external 0 (mk r n x i p l d) (mk r n x i p l (OnStop d))
  | x_interrupt r n x i p l d ml mr : interrupt (left_m d) ml \/ ml = left_m d -> interrupt (right_m d) mr \/ mr = right_m d ->
      external 0 (mk r n x i p l d) (mk r n x i p l (with_motors d ml mr (duty_sent d))).

(** Everything that can happen. *)
Inductive step : mower -> mower -> Prop :=
  | s_inner m m' : inner m m' -> step m m'
  | s_external k m m' : external k m m' -> step m m'.

(** A run of any steps: how many were inner, and how many the others can lead to. *)
Inductive run : nat -> nat -> mower -> mower -> Prop :=
  | run_done m : run 0 0 m m
  | run_inner i k m m1 m' : inner m m1 -> run i k m1 m' -> run (S i) k m m'
  | run_external j i k m m1 m' : external j m m1 -> run i k m1 m' -> run i (j + k) m m'.

(** ** Invariant *)

(** The main thread is going to stop the motors, or knows of the change. *)
Definition responding (m : mower) : bool :=
  negb (Nat.eqb (owed m) 0) || ev_emergency m ||
  match pc m with Taken x _ => x | Stopping _ => true | _ => false end.

(** No operation under way has missed the emergency. *)
Definition aware (l : option holder) : bool := match l with Some (H_op _ b) => b | _ => true end.

(** Under the main thread's lock the speeds are zero. *)
Definition stop_held (p : main_pc) (l : option holder) (d : drive M) : Prop :=
  match l, p with Some (H_stop _), Stopping _ => no_speed d | Some (H_stop _), _ => False | _, _ => True end.

Record inv (m : mower) : Prop := {
  inv_stop : active_emergency m = true -> responding m = false -> halted (dr m) /\ aware (lock m) = true;
  inv_held : stop_held (pc m) (lock m) (dr m);
  inv_speed : duty_ok (speed_l (dr m)) = true /\ duty_ok (speed_r (dr m)) = true }.

(** An operation that knows of the emergency does not start the motors, and every operation
    leaves commands within the limits. *)
Lemma set_duties_speeds b d d' : SetDuties b d = Some d' -> speed_l d' = speed_l d /\ speed_r d' = speed_r d.
Proof. unfold SetDuties. intros (l & _ & (r & _ & [= <-])%bind_Some)%bind_Some. done. Qed.

Lemma tick_motion now b d d' : tick WheelTicksPerMeter now b d = Some d' ->
  (halted d -> b = true -> halted d') /\
  (speed_l d' = speed_l d /\ speed_r d' = speed_r d \/ no_speed d').
Proof.
  rewrite tick_eq. set (d1 := if _ <? _ then _ else d).
  assert (halted d -> halted d1) as Hh by (unfold d1; by destruct (_ <? _)).
  assert (speed_l d1 = speed_l d /\ speed_r d1 = speed_r d \/ no_speed d1) as Hs
    by (unfold d1; destruct (_ <? _); [by right|by left]).
  assert (forall d2, (halted d -> b = true -> halted d2) -> speed_l d2 = speed_l d1 /\ speed_r d2 = speed_r d1 ->
    tick_rest WheelTicksPerMeter now d2 = d' -> (halted d -> b = true -> halted d') /\
    (speed_l d' = speed_l d /\ speed_r d' = speed_r d \/ no_speed d')) as Hrest.
  { intros d2 H2 [E1 E2] <-. destruct (tick_rest_motion WheelTicksPerMeter now d2) as (H3 & H4 & H5 & H6 & _ & _).
    unfold halted, no_speed in *. rewrite H3, H4, H5, H6, E1, E2. done. }
  intros (d2 & E & [= Er])%bind_Some. destruct (duty_sent d1).
  - injection E as <-. apply (Hrest d1); tauto.
  - apply (Hrest d2); [|by apply (set_duties_speeds b)|done].
    intros _ ->. destruct (set_duties_halt true d1) as (d3 & E3 & H3 & _); [by left|]. rewrite E in E3. by injection E3 as ->.
Qed.

Lemma twist_motion now b v d d' : OnControlTwistChanged WheelDistance now b v d = Some d' ->
  (halted d -> b = true -> halted d') /\
  (speed_l d' = speed_l d /\ speed_r d' = speed_r d \/ duty_ok (speed_l d') = true /\ duty_ok (speed_r d') = true).
Proof.
  unfold OnControlTwistChanged. destruct v as [|x [|v2 [|v3 [|v4 [|v5 [|z [|]]]]]]]; try (intros [= <-]; tauto).
  set (d1 := with_speeds _ _ _).
  assert (duty_ok (speed_l d1) = true /\ duty_ok (speed_r d1) = true) as [H1 H2] by (split; apply clamp_ok).
  destruct (duty_sent d1); [intros [= <-]; tauto|]. intros E.
  destruct (set_duties_speeds _ _ _ E) as [-> ->]. split; [|right; done]. intros _ ->.
  destruct (set_duties_halt true d1) as (d3 & E3 & H3 & _); [by left|]. rewrite E in E3. by injection E3 as ->.
Qed.

Lemma op_motion o b d d' : run_op o b d = Some d' ->
  (halted d -> b = true -> halted d') /\
  (duty_ok (speed_l d) = true /\ duty_ok (speed_r d) = true -> duty_ok (speed_l d') = true /\ duty_ok (speed_r d') = true).
Proof.
  destruct o as [now|now v|lf now s]; cbn [run_op]; intros E.
  - destruct (tick_motion _ _ _ _ E) as [Hh [[-> ->]|[-> ->]]]; done.
  - destruct (twist_motion _ _ _ _ _ E) as [Hh [[-> ->]|[-> ->]]]; done.
  - injection E as <-. destruct (callback_motion WheelTicksPerMeter lf now s d) as (H1 & H2 & H3 & H4 & _).
    unfold halted. by rewrite H1, H2, H3, H4.
Qed.

Lemma stop_motion b d d' : no_speed d -> SetDuties b d = Some d' -> halted d' /\ no_speed d'.
Proof.
  intros Hn E. destruct (set_duties_halt b d) as (d3 & E3 & H3 & H4 & H5 & _); [by right|].
  rewrite E in E3. injection E3 as ->. unfold no_speed. by rewrite H4, H5.
Qed.

Lemma commit_inv m add clear : inv m -> inv (commit m add clear).
Proof.
  intros Hi. unfold commit. destruct (Z.eqb_spec (Z.lor (Z.ldiff (reasons m) clear) add) (reasons m)); [done|].
  destruct Hi as [Hs Hh Hd]. constructor; try done.
Qed.

(** The critical section, the broadcast and the status make up [UpdateEmergency]. *)
Lemma commit_update m add clear t st :
  let m' := commit m add clear in let e' := UpdateEmergency (em (reasons m) t false st) add clear in
  reasons m' = reasons_ e' /\ owed m' = (owed m + if changed e' then 1 else 0)%nat.
Proof. unfold commit, UpdateEmergency. cbn. destruct (_ =? _); cbn; lia. Qed.

Lemma commit_pc m add clear : pc (commit m add clear) = pc m.
Proof. unfold commit. by destruct (_ =? _). Qed.

Lemma after_quiet i : match after_stop i with Taken x _ => x | Stopping _ => true | _ => false end = false.
Proof. by destruct i. Qed.

Lemma inner_inv m m' : inner m m' -> inv m -> inv m'.
Proof.
  intros Hst Hi. destruct Hst as [r n x i p l d|r n x i l d Hf|m x i Hp|r n x i p d|r n x i p b d d' E|m add Hp|r n x i p o b d d' E].
  - destruct Hi as [Hs Hh Hd]. constructor; try done. unfold responding. cbn. by rewrite orb_true_r.
  - destruct Hi as [Hs Hh Hd]. constructor; [|destruct l as [[]|]; done|done]. intros Ha Hr. apply Hs; [done|].
    unfold responding in *. cbn in *. apply orb_false_iff in Hr as [Hr ->]. by rewrite !orb_false_r in *.
  - destruct Hi as [Hs Hh Hd]. destruct m as [r n ve vi p l d]. cbn in Hp. subst p. constructor; [|destruct l as [[]|]; done|done].
    unfold active_emergency, responding in *. cbn in *. intros Ha. rewrite Ha, andb_true_r in *. destruct x; [by rewrite orb_true_r|].
    rewrite after_quiet. by apply Hs.
  - destruct Hi as [Hs Hh Hd]. constructor; [|done|done]. unfold responding. cbn. by rewrite orb_true_r.
  - destruct Hi as [Hs Hh Hd]. cbn in Hh. destruct (stop_motion _ _ _ Hh E) as [H1 [H2 H3]].
    constructor; [done|done|]. cbn. by rewrite H2, H3.
  - destruct (commit_inv m add POTENTIAL_INPUTS Hi) as [Hs Hh Hd]. pose proof (commit_pc m add POTENTIAL_INPUTS) as Ep.
    rewrite Hp in Ep. set (m1 := commit m add POTENTIAL_INPUTS) in *. clearbody m1. destruct m1 as [r n x i p l d]. cbn in Ep. subst p.
    constructor; [exact Hs| |done]. by destruct l as [[]|].
  - destruct Hi as [Hs Hh Hd]. destruct (op_motion _ _ _ _ E) as [H1 H2]. constructor; [|done|by apply H2].
    intros Ha Hr. destruct (Hs Ha Hr) as [H3 H4]. cbn in *. auto.
Qed.

Lemma external_inv k m m' : external k m m' -> inv m -> inv m'.
Proof.
  intros Hst Hi. destruct Hst as [m add clear|r n x i p l d|r n x i p o d|r n x i p o b d|r n x i p b d|r n x i p l d|r n x i p l d
    |r n x i p l d ml mr Hl Hr].
  - by apply commit_inv.
  - by destruct Hi.
  - destruct Hi as [Hs Hh Hd]. constructor; [|done|done]. intros Ha Hr. by destruct (Hs Ha Hr).
  - destruct Hi as [Hs Hh Hd]. constructor; [|done|done]. intros Ha Hr. by destruct (Hs Ha Hr).
  - by destruct Hi.
  - destruct Hi as [Hs Hh Hd]. constructor; [done| |done]. by destruct l as [[]|], p.
  - destruct Hi as [Hs Hh Hd]. constructor; [done| |done]. by destruct l as [[]|], p.
  - destruct Hi as [Hs Hh Hd]. constructor; [|done|done]. intros Ha Hq. destruct (Hs Ha Hq) as [[H1 H2] H3].
    cbn in *. split; [|done].
    split; cbn; [destruct Hl as [Hl|Hl]|destruct Hr as [Hr|Hr]]; first [by eapply interrupt_law|subst; done].
Qed.

Lemma step_inv m m' : step m m' -> inv m -> inv m'.
Proof. intros []; eauto using inner_inv, external_inv. Qed.

(** The state when the threads start: the initial reasons, motors and speeds at rest. *)
Definition started (m : mower) : Prop :=
  reasons m = reasons_ initial /\ owed m = O /\ ev_emergency m = false /\ pc m = Waiting /\ lock m = None /\
  halted (dr m) /\ no_speed (dr m).

Lemma started_inv m : started m -> inv m.
Proof.
  intros (H1 & H2 & H3 & H4 & H5 & H6 & [H7 H8]). constructor; rewrite ?H4, ?H5, ?H7, ?H8; done.
Qed.

Lemma reachable_mower m0 m : started m0 -> rtc step m0 m -> inv m.
Proof. intros H0%started_inv Hr. induction Hr; eauto using step_inv. Qed.

(** ** Settling *)

(** How many steps are left at most. *)
Definition work (m : mower) : nat :=
  5 * owed m + (if ev_emergency m then 4 else 0) + (if ev_inputs m then 10 else 0) +
  match pc m with
  | Waiting => 0
  | Checking => 6
  | Taken _ i => 3 + (if i then 6 else 0)
  | Stopping i => 1 + (if i then 6 else 0) + (match lock m with Some (H_stop _) => 0 | _ => 1 end)
  end + match lock m with Some (H_op _ _) => 1 | _ => 0 end.

Lemma commit_work m add clear : (work (commit m add clear) <= work m + 5)%nat.
Proof. unfold commit. destruct (_ =? _); unfold work; cbn; lia. Qed.

Lemma inner_work m m' : inner m m' -> (work m' < work m)%nat.
Proof.
  intros Hst. destruct Hst as [r n x i p l d|r n x i l d Hf|m x i Hp|r n x i p d|r n x i p b d d' E|m add Hp|r n x i p o b d d' E].
  - unfold work. cbn. destruct x, i; lia.
  - unfold work. cbn. destruct x, i; cbn in *; lia || done.
  - unfold work. cbn. rewrite Hp. destruct (x && _), i, (lock m) as [[]|]; cbn; lia.
  - unfold work. cbn. destruct x, i, p; cbn; lia.
  - unfold work. cbn. destruct x, i, p; cbn; lia.
  - pose proof (commit_work m add POTENTIAL_INPUTS) as Hw. pose proof (commit_pc m add POTENTIAL_INPUTS) as Ep.
    unfold work in *. cbn. rewrite Hp in *. rewrite Ep in Hw. destruct (lock m) as [[]|], (lock (commit _ _ _)) as [[]|]; cbn in *; lia.
  - unfold work. cbn. destruct p as [| |k|]; lia.
Qed.

Lemma external_work k m m' : external k m m' -> (work m' <= work m + k)%nat.
Proof.
  intros [m0 add clear|r n x i p l d|r n x i p o d| | | | |]; [apply commit_work|..]; unfold work; cbn.
  - destruct i; lia.
  - destruct p; lia.
  - lia.
  - destruct p; lia.
  - destruct p; lia.
  - destruct p; lia.
  - destruct p; lia.
Qed.

Lemma run_work i k m m' : run i k m m' -> (i + work m' <= work m + k)%nat.
Proof.
  induction 1 as [|i k m m1 m' H _ IH|j i k m m1 m' H _ IH]; [lia|apply inner_work in H; lia|apply external_work in H; lia].
Qed.

(** An operation of the drive that has read that there is no emergency is under way, and its driver has
    no result for the speeds (as the PWM driver has none for not-a-number). *)
Definition refused (m : mower) : Prop :=
  exists o, lock m = Some (H_op o false) /\ run_op o false (dr m) = None.

Lemma op_aware o d : is_Some (run_op o true d).
Proof.
  destruct o as [now|now v|lf now s]; cbn [run_op]; [| |done].
  - rewrite tick_eq. set (d1 := if _ <? _ then _ else d). destruct (duty_sent d1); [done|].
    destruct (set_duties_halt true d1) as (d2 & -> & _); [by left|done].
  - unfold OnControlTwistChanged. destruct v as [|x [|v2 [|v3 [|v4 [|v5 [|z [|]]]]]]]; try done.
    set (d1 := with_speeds _ _ _). destruct (duty_sent d1); [done|].
    destruct (set_duties_halt true d1) as (d2 & -> & _); [by left|done].
Qed.

(** Where nothing is left to do, the motors are stopped if there is an emergency. *)
Lemma idle_halted m : inv m -> (forall m', ~ inner m m') -> active_emergency m = true -> halted (dr m) \/ refused m.
Proof.
  intros [Hs Hh _] Hn He. destruct m as [r n x i p l d]. cbn in *.
  destruct n as [|n]; [|by destruct (Hn _ (i_broadcast r n x i p l d))].
  assert (p = Waiting /\ x = false \/ refused (mk r 0 x i p l d)) as [[-> ->]|]; [|left; by apply Hs|by right].
  destruct p as [|x' i'|i'|].
  - destruct x; [|by left]. by destruct (Hn _ (i_take r 0 true i l d eq_refl)).
  - by destruct (Hn _ (i_read (mk r 0 x i (Taken x' i') l d) x' i' eq_refl)).
  - destruct l as [[o b|b]|].
    + destruct (run_op o b d) as [d'|] eqn:E; [by destruct (Hn _ (i_op r 0 x i (Stopping i') o b d d' E))|].
      right. destruct b; [destruct (op_aware o d) as [d' E']; congruence|]. by exists o.
    + destruct (set_duties_halt b d) as (d' & E & _); [by right|]. by destruct (Hn _ (i_stop r 0 x i i' b d d' E)).
    + by destruct (Hn _ (i_stop_lock r 0 x i i' d)).
  - by destruct (Hn _ (i_check (mk r 0 x i Checking l d) 0 eq_refl)).
Qed.

(** C1: an emergency stops the motors, in every interleaving.  In every state the threads can
    reach, with an emergency active whose event is not on its way (broadcast outstanding, flag
    pending, or the main thread at it), both motors are stopped and no operation of the drive
    that missed the emergency is under way. *)
Theorem emergency_stops_motors (m0 m : mower) (H0 : started m0) (Hr : rtc step m0 m)
  (He : active_emergency m = true) (Hq : responding m = false) :
  halted (dr m) /\ aware (lock m) = true.
Proof. exact (inv_stop m (reachable_mower m0 m H0 Hr) He Hq). Qed.

(** C2: the response to an emergency always completes.  In every run from a reachable state the threads
    take at most [work] steps of their own, in any order, plus the few that each new event of the run leads to: five
    for an update of the reasons, ten for an input event, one for an operation of the drive, none for
    anything else.  And in every reachable state in which they have none left to take, the motors are stopped
    if there is an emergency - unless an operation that had read that there is none is stuck in a driver that has
    no result for the speeds, as the PWM driver has none for not-a-number. *)
Theorem emergency_settles (m0 m : mower) (H0 : started m0) (Hr : rtc step m0 m) :
  (forall i k m', run i k m m' -> i <= work m + k)%nat /\
  ((forall m', ~ inner m m') -> active_emergency m = true -> halted (dr m) \/ refused m).
Proof.
  split; [intros i k m' H%run_work; lia|]. apply idle_halted, (reachable_mower m0 m H0 Hr).
Qed.

(** Commands stay within the limits: in every reachable state both stored speeds are between -1
    and 1 (or not a number, which the limits let through). *)
Theorem speeds_limited (m0 m : mower) (H0 : started m0) (Hr : rtc step m0 m) :
  duty_ok (speed_l (dr m)) = true /\ duty_ok (speed_r (dr m)) = true.
Proof. exact (inv_speed m (reachable_mower m0 m H0 Hr)). Qed.
End Mower.
Arguments mower : clear implicits.

(** ** A run *)

(** At rest; then the high level releases the emergency, commands a speed, and the stop button is
    pressed while the drive is at it. *)
Definition demo_rest : drive pwm_motor :=
  mkdrive (pwm 0 0 0 0) (pwm 0 0 0 0) f32_zero f32_zero false 0 no_state no_state false false 0 0 0 false 0 [].

Definition demo_twist : op := Op_twist 5 [f32_half; f32_zero; f32_zero; f32_zero; f32_zero; f32_zero].

Definition demo_running : drive pwm_motor :=
  default demo_rest (run_op f32_one f32_one demo_twist false demo_rest).

Definition demo_start : mower pwm_motor := mk (reasons_ initial) 0 false false Waiting None demo_rest.
Definition demo_pressed : mower pwm_motor := mk 5 1 true false Waiting (Some (H_op (Op_tick 20) false)) demo_running.

Lemma demo_started : started demo_start.
Proof. done. Qed.

Lemma demo_pressed_reached : rtc (step f32_one f32_one) demo_start demo_pressed.
Proof.
  eapply rtc_l. { apply (s_external _ _ 5), (x_update demo_start 0 66). }
  eapply rtc_l. { apply s_inner. apply (i_broadcast _ _ 0 0). }
  eapply rtc_l. { apply (s_external _ _ 1), (x_op 0 0 true false Waiting demo_twist). }
  eapply rtc_l. { apply s_inner, i_op. vm_compute. reflexivity. }
  eapply rtc_l. { apply (s_external _ _ 1), (x_op 0 0 true false Waiting (Op_tick 20)). }
  eapply rtc_l. { match goal with |- step _ _ ?m _ => apply (s_external _ _ 5), (x_update m 5 0) end. }
  match goal with |- rtc _ ?a ?b => replace a with b by (vm_compute; reflexivity) end. constructor.
Qed.

(** The run to the end: the tick finishes, the event arrives, the motors stop. *)
Definition demo_after : drive pwm_motor := default demo_rest (run_op f32_one f32_one (Op_tick 20) false demo_running).
Definition demo_halted : drive pwm_motor := default demo_rest (SetDuties true (with_speeds demo_after f32_zero f32_zero)).
Definition demo_stopped : mower pwm_motor := mk 5 0 false false Waiting None demo_halted.

Lemma demo_inner : rtc (inner f32_one f32_one) demo_pressed demo_stopped.
Proof.
  eapply rtc_l. { apply (i_broadcast _ _ 5 0). }
  eapply rtc_l. { by apply i_take. }
  eapply rtc_l. { by eapply i_read. }
  eapply rtc_l. { apply (i_op _ _ 5 0 false false (Stopping false) (Op_tick 20) false demo_running demo_after). vm_compute. reflexivity. }
  eapply rtc_l. { apply i_stop_lock. }
  eapply rtc_l. { apply (i_stop _ _ 5 0 false false false true _ demo_halted). vm_compute. reflexivity. }
  constructor.
Qed.

Lemma demo_stopped_reached : rtc (step f32_one f32_one) demo_start demo_stopped.
Proof.
  etrans; [exact demo_pressed_reached|]. eapply rtc_subrel; [|exact demo_inner].
  intros a b H. by apply s_inner.
Qed.

Lemma emergency_stops_motors_witness : halted (dr demo_stopped) /\ aware (lock demo_stopped) = true.
Proof.
  exact (emergency_stops_motors f32_one f32_one demo_start demo_stopped demo_started demo_stopped_reached eq_refl eq_refl).
Defined.

Lemma emergency_settles_witness :
  (forall i k m', run f32_one f32_one i k demo_pressed m' -> i <= 10 + k)%nat /\
  ((forall m', ~ inner f32_one f32_one demo_stopped m') -> active_emergency demo_stopped = true ->
    halted (dr demo_stopped) \/ refused f32_one f32_one demo_stopped).
Proof.
  split.
  - apply (emergency_settles f32_one f32_one demo_start demo_pressed demo_started demo_pressed_reached).
  - apply (emergency_settles f32_one f32_one demo_start demo_stopped demo_started demo_stopped_reached).
Defined.

(** The run has come to its end there. *)
Example demo_stopped_idle m' : ~ inner f32_one f32_one demo_stopped m'.
Proof. by inversion 1. Qed.

Lemma speeds_limited_witness : duty_ok (speed_l demo_running) = true /\ duty_ok (speed_r demo_running) = true.
Proof.
  exact (speeds_limited f32_one f32_one demo_start demo_pressed demo_started demo_pressed_reached).
Defined.

(** The motors were running. *)
Example demo_moves : width1 (left_m demo_running) = 8190 /\ width2 (right_m demo_running) = 8190.
Proof. vm_compute. split; reflexivity. Qed.
