(* ===== verification/Power.v ===== *)
(** * Power: the power service and the charger driver (src/services/power_service, src/drivers/charger)

    The charger's configuration and monitoring once a second, and the power of the high level computer, cut
    when the battery is critically low.  The service works against the interface
    [ChargerDriver]; the BQ2579 driver implements it over I2C transfers to a chip, which
    is a parameter ([transmit]), like the library's [min] and [max] and the settings of the robot.  Floats are
    IEEE binary32. *)

From S2P Require Import Prelude Drive.
From Stdlib Require Import Floats.SpecFloat.

Inductive CHARGER_STATUS :=
  | NOT_CHARGING | TRICKLE | PRE_CHARGE | CC | CV | TOP_OFF | DONE | FAULT | COMMS_ERROR | UNKNOWN.

#[export] Instance charger_status_eq_dec : EqDecision CHARGER_STATUS.
Proof. solve_decision. Defined.

(** The driver's methods; a reading that fails leaves its result as it was. *)
Class ChargerDriver (C : Type) := {
  setChargingCurrent : C -> spec_float -> bool -> C * bool;
  setPreChargeCurrent : C -> spec_float -> C * bool;
  setTerminationCurrent : C -> spec_float -> C * bool;
  getChargerStatus : C -> C * CHARGER_STATUS;
  init : C -> C * bool;
  resetWatchdog : C -> C * bool;
  setTsEnabled : C -> bool -> C * bool;
  readChargeCurrent : C -> C * option spec_float;
  readAdapterVoltage : C -> C * option spec_float;
  readAdapterCurrent : C -> C * option spec_float;
  readBatteryVoltage : C -> C * option spec_float }.

(** The decimal fraction n/d as the compiler rounds it. *)
Definition f32_frac (n d : Z) : spec_float := f32_div (f32_of_Z n) (f32_of_Z d).

(** ** BQ2579 *)

Section BQ2579.
(** [i2cMasterTransmit] to address 0x6B: the bytes written and how many to read; [None] is an error.
    [bus] tells whether a bus is set. *)
Context {Chip : Type} (transmit : Chip -> list Z -> nat -> Chip * option (list Z)) (bus : bool).

Definition REG_Charge_Current_Limit : Z := 3.
Definition REG_Termination_Control : Z := 9.
Definition REG_Charger_Control_1 : Z := 16.
Definition REG_Charger_Control_5 : Z := 20.
Definition REG_NTC_Control_1 : Z := 24.
Definition REG_Charger_Status_1 : Z := 28.
Definition REG_FAULT_Status_0 : Z := 32.
Definition REG_FAULT_Status_1 : Z := 33.
Definition REG_ADC_Control : Z := 46.
Definition REG_IBUS_ADC : Z := 49.
Definition REG_IBAT_ADC : Z := 51.
Definition REG_VBUS_ADC : Z := 53.
Definition REG_VBAT_ADC : Z := 59.

Definition readRegister8 (c : Chip) (reg : Z) : Chip * option Z :=
  if bus then
    match transmit c [reg] 1 with (c, Some [b]) => (c, Some b) | (c, _) => (c, None) end
  else (c, None).

Definition readRegister16 (c : Chip) (reg : Z) : Chip * option Z :=
  if bus then
    match transmit c [reg] 2 with (c, Some [b0; b1]) => (c, Some (Z.lor (Z.shiftl b0 8) b1)) | (c, _) => (c, None) end
  else (c, None).

Definition writeRegister8 (c : Chip) (reg value : Z) : Chip * bool :=
  if bus then
    match transmit c [reg; value] 0 with (c, Some _) => (c, true) | (c, None) => (c, false) end
  else (c, false).

Definition writeRegister16 (c : Chip) (reg value : Z) : Chip * bool :=
  if bus then
    match transmit c [reg; Z.shiftr value 8; Z.land value 255] 0 with (c, Some _) => (c, true) | (c, None) => (c, false) end
  else (c, false).

(** A conversion without a value (a negative or huge current) is not written. *)
Definition bq_setChargingCurrent (c : Chip) (current_amps : spec_float) (overwrite : bool) : Chip * bool :=
  let current_amps := if SFltb (f32_of_Z 5) current_amps then f32_of_Z 5 else current_amps in
  match u32_of_f32 (f32_mul current_amps (f32_of_Z 100)) with
  | Some v => writeRegister16 c REG_Charge_Current_Limit v
  | None => (c, false)
  end.

Definition bq_setPreChargeCurrent (c : Chip) (current_amps : spec_float) : Chip * bool := (c, true).

Definition bq_setTerminationCurrent (c : Chip) (current_amps : spec_float) : Chip * bool :=
  let current_amps :=
    if SFltb f32_one current_amps then f32_one
    else if SFltb current_amps (f32_frac 4 100) then f32_frac 4 100 else current_amps in
  match u32_of_f32 (f32_div current_amps (f32_frac 4 100)) with
  | Some v => writeRegister8 c REG_Termination_Control v
  | None => (c, false)
  end.

Definition bq_getChargerStatus (c : Chip) : Chip * CHARGER_STATUS :=
  match readRegister8 c REG_FAULT_Status_0 with
  | (c, None) => (c, COMMS_ERROR)
  | (c, Some fault0) =>
      match readRegister8 c REG_FAULT_Status_1 with
      | (c, None) => (c, COMMS_ERROR)
      | (c, Some fault1) =>
          if negb (fault0 =? 0) || negb (fault1 =? 0) then (c, FAULT)
          else
            match readRegister8 c REG_Charger_Status_1 with
            | (c, None) => (c, COMMS_ERROR)
            | (c, Some status) =>
                (c, match Z.shiftr status 5 with
                    | 0 => NOT_CHARGING | 1 => TRICKLE | 2 => PRE_CHARGE | 3 => CC | 4 => CV | 7 => DONE
                    | _ => UNKNOWN
                    end)
            end
      end
  end.

Definition bq_init (c : Chip) : Chip * bool :=
  match writeRegister8 c REG_Termination_Control 69 with
  | (c, false) => (c, false)
  | (c, true) =>
      match writeRegister8 c REG_ADC_Control 128 with
      | (c, false) => (c, false)
      | (c, true) => writeRegister8 c REG_Charger_Control_5 54
      end
  end.

Definition bq_resetWatchdog (c : Chip) : Chip * bool :=
  match readRegister8 c REG_Charger_Control_1 with
  | (c, None) => (c, false)
  | (c, Some v) => writeRegister8 c REG_Charger_Control_1 (Z.lor v 8)
  end.

Definition bq_setTsEnabled (c : Chip) (enabled : bool) : Chip * bool :=
  match readRegister8 c REG_NTC_Control_1 with
  | (c, None) => (c, false)
  | (c, Some v) => writeRegister8 c REG_NTC_Control_1 (if enabled then Z.land v 254 else Z.lor v 1)
  end.

Definition read_milli (signed : bool) (c : Chip) (reg : Z) : Chip * option spec_float :=
  match readRegister16 c reg with
  | (c, Some raw) => (c, Some (f32_div (f32_of_Z (if signed then s16 raw else raw)) (f32_of_Z 1000)))
  | (c, None) => (c, None)
  end.
End BQ2579.

Definition BQ2579 {Chip : Type} (transmit : Chip -> list Z -> nat -> Chip * option (list Z)) (bus : bool) : ChargerDriver Chip := {|
  setChargingCurrent := bq_setChargingCurrent transmit bus;
  setPreChargeCurrent := bq_setPreChargeCurrent;
  setTerminationCurrent := bq_setTerminationCurrent transmit bus;
  getChargerStatus := bq_getChargerStatus transmit bus;
  init := bq_init transmit bus;
  resetWatchdog := bq_resetWatchdog transmit bus;
  setTsEnabled := bq_setTsEnabled transmit bus;
  readChargeCurrent c := read_milli transmit bus true c REG_IBAT_ADC;
  readAdapterVoltage c := read_milli transmit bus false c REG_VBUS_ADC;
  readAdapterCurrent c := read_milli transmit bus false c REG_IBUS_ADC;
  readBatteryVoltage c := read_milli transmit bus false c REG_VBAT_ADC |}.

(** ** The service *)

(** The settings of the robot. *)
Record robot_power := rp { DefaultChargeCurrent : spec_float; DefaultBatteryFullVoltage : spec_float;
  DefaultBatteryEmptyVoltage : spec_float; AbsoluteMinVoltage : spec_float }.

Section Power.
Context {C : Type} `{!ChargerDriver C} (fmin fmax : spec_float -> spec_float -> spec_float) (robot : robot_power).

(** [charger] is the driver with its chip; [line_en] is the output LINE_HIGH_LEVEL_GLOBAL_EN. *)
Record power := mkpower {
  charger : option C;
  configured : bool;
  charge_current : spec_float; adapter_volts : spec_float; adapter_current : spec_float;
  battery_volts : spec_float; battery_percent : spec_float;
  critical_count : Z;
  charger_status : CHARGER_STATUS;
  line_en : bool }.

Definition OnStart (s : power) : power :=
  mkpower (charger s) false (charge_current s) (adapter_volts s) (adapter_current s) (battery_volts s) (battery_percent s)
    (critical_count s) (charger_status s) (line_en s).

Definition with_config (s : power) (c : C) (b : bool) : power :=
  mkpower (Some c) b (charge_current s) (adapter_volts s) (adapter_current s) (battery_volts s) (battery_percent s)
    (critical_count s) (charger_status s) (line_en s).

(** The configuration: every setting is tried. *)
Definition configure (c : C) (s : power) : power :=
  match init c with
  | (c, false) => with_config s c false
  | (c, true) =>
      let '(c, s1) := setPreChargeCurrent c (f32_frac 250 1000) in
      let '(c, s2) := setTerminationCurrent c (f32_frac 250 1000) in
      let '(c, s3) := setChargingCurrent c (DefaultChargeCurrent robot) false in
      let '(c, s4) := setTsEnabled c false in
      with_config s c (s1 && s2 && s3 && s4)
  end.

Definition is_ok {A} (x : option A) : bool := match x with Some _ => true | None => false end.

(** The readings, whether all succeeded, with the status. *)
Definition measure (c : C) (s : power) : power * bool :=
  let '(c, s0) := resetWatchdog c in
  let '(c, i) := readChargeCurrent c in
  let '(c, b) := readBatteryVoltage c in
  let '(c, v) := readAdapterVoltage c in
  let '(c, a) := readAdapterCurrent c in
  let success := s0 && is_ok i && is_ok b && is_ok v && is_ok a in
  let bv := default (battery_volts s) b in
  let percent := if success then
      fmax f32_zero (fmin f32_one (f32_div (f32_sub bv (DefaultBatteryEmptyVoltage robot))
        (f32_sub (DefaultBatteryFullVoltage robot) (DefaultBatteryEmptyVoltage robot))))
    else battery_percent s in
  let '(c, st) := getChargerStatus c in
  (mkpower (Some c) (configured s) (default (charge_current s) i) (default (adapter_volts s) v) (default (adapter_current s) a)
     bv percent (critical_count s) st (line_en s), success && negb (bool_decide (st = COMMS_ERROR))).

Definition with_line (s : power) (n : Z) (l : bool) : power :=
  mkpower (charger s) (configured s) (charge_current s) (adapter_volts s) (adapter_current s) (battery_volts s)
    (battery_percent s) n (charger_status s) l.

Definition unconfigure (s : power) : power :=
  mkpower (charger s) false (charge_current s) (adapter_volts s) (adapter_current s) (battery_volts s) (battery_percent s)
    (critical_count s) (charger_status s) (line_en s).

Definition low (s : power) : bool := SFltb (battery_volts s) (AbsoluteMinVoltage robot).

Definition charger_tick (s : power) : power :=
  match charger s with
  | None => s
  | Some c =>
      if negb (configured s) then configure c s
      else
        match measure c s with
        | (s, false) => unconfigure s
        | (s, true) =>
            if low s then
              let n := s32 (critical_count s + 1) in
              with_line s n (if 10 <? n then false else line_en s)
            else with_line s 0 true
        end
  end.

Definition GetChargerStatus (s : power) : list Z :=
  if configured s then
    match charger_status s with
    | NOT_CHARGING => str:("Not Charging")
    | TRICKLE => str:("Trickle Charge")
    | PRE_CHARGE => str:("Pre Charge")
    | CC => str:("Fast Charge (CC)")
    | CV => str:("Taper Charge (CV)")
    | TOP_OFF => str:("Top Off")
    | DONE => str:("Done")
    | FAULT => str:("Error (Fault)")
    | COMMS_ERROR | UNKNOWN => str:("Unknown State")
    end
  else str:("Charger Not Found").

(** What [tick] sends. *)
Inductive power_msg :=
  | SendChargingStatus (s : list Z) | SendBatteryVoltage (v : spec_float) | SendChargeVoltage (v : spec_float)
  | SendChargeCurrent (v : spec_float) | SendChargerEnabled (b : bool) | SendBatteryPercentage (v : spec_float).

Definition power_tick (s : power) : list power_msg :=
  [SendChargingStatus (GetChargerStatus s); SendBatteryVoltage (battery_volts s); SendChargeVoltage (adapter_volts s);
   SendChargeCurrent (charge_current s); SendChargerEnabled true;
   SendBatteryPercentage (fmax f32_zero (fmin f32_one (battery_percent s)))].

(** ** The power of the high level *)

(** What a tick sees: a low battery, a sufficient one, or no valid readings. *)
Inductive sight := Low | Sufficient | Nothing.

#[export] Instance sight_eq_dec : EqDecision sight.
Proof. solve_decision. Defined.

Definition seen (s : power) : sight :=
  match charger s with
  | Some c => if configured s then
                match measure c s with (s, true) => if low s then Low else Sufficient | _ => Nothing end
              else Nothing
  | None => Nothing
  end.

Fixpoint history (n : nat) (s : power) : list sight :=
  match n with O => [] | S n' => seen s :: history n' (charger_tick s) end.

(** The low readings since the last sufficient one. *)
Fixpoint lows (h : list sight) : Z :=
  match h with
  | [] => 0
  | x :: h' => match x with
               | Low => if bool_decide (Sufficient ∈ h') then lows h' else 1 + lows h'
               | _ => lows h'
               end
  end.

(** Counting from the front. *)
Fixpoint count (n : Z) (h : list sight) : Z :=
  match h with
  | [] => n
  | Low :: h' => count (n + 1) h'
  | Sufficient :: h' => count 0 h'
  | Nothing :: h' => count n h'
  end.

Lemma count_lows h : forall n, count n h = (if bool_decide (Sufficient ∈ h) then 0 else n) + lows h.
Proof.
  induction h as [|[] h IH]; intros n; cbn [count lows]; [rewrite bool_decide_false by set_solver; lia|..]; rewrite IH.
  - destruct (decide (Sufficient ∈ h)); [rewrite !bool_decide_true by set_solver|rewrite !bool_decide_false by set_solver]; lia.
  - rewrite (bool_decide_true (Sufficient ∈ Sufficient :: h)) by set_solver. by destruct (bool_decide _).
  - destruct (decide (Sufficient ∈ h)); [rewrite !bool_decide_true by set_solver|rewrite !bool_decide_false by set_solver]; lia.
Qed.

(** A tick counts what it sees. *)
Lemma measure_line c s : critical_count (fst (measure c s)) = critical_count s /\ line_en (fst (measure c s)) = line_en s.
Proof.
  unfold measure. destruct (resetWatchdog c) as [c0 s0], (readChargeCurrent c0) as [c1 i], (readBatteryVoltage c1) as [c2 b],
    (readAdapterVoltage c2) as [c3 v], (readAdapterCurrent c3) as [c4 a], (getChargerStatus c4) as [c5 st]. done.
Qed.

Lemma configure_line c s : critical_count (configure c s) = critical_count s /\ line_en (configure c s) = line_en s.
Proof.
  unfold configure. destruct (init c) as [c0 []]; [|done].
  destruct (setPreChargeCurrent c0 _) as [c1 ?], (setTerminationCurrent c1 _) as [c2 ?], (setChargingCurrent c2 _ _) as [c3 ?],
    (setTsEnabled c3 _) as [c4 ?]. done.
Qed.

Lemma tick_count s : let s' := charger_tick s in
  match seen s with
  | Low => critical_count s' = s32 (critical_count s + 1) /\
           line_en s' = if 10 <? s32 (critical_count s + 1) then false else line_en s
  | Sufficient => critical_count s' = 0 /\ line_en s' = true
  | Nothing => critical_count s' = critical_count s /\ line_en s' = line_en s
  end.
Proof.
  cbv zeta. unfold charger_tick, seen. destruct (charger s) as [c|]; [|done]. destruct (configured s); cbn [negb]; [|apply configure_line].
  pose proof (measure_line c s) as [H1 H2]. destruct (measure c s) as [s1 []]; cbn [fst] in *; [|done].
  destruct (low s1); [|done]. cbn. by rewrite H1, H2.
Qed.

Lemma history_count n : forall s, 0 <= critical_count s -> critical_count s + Z.of_nat n < 2 ^ 31 ->
  line_en s = negb (10 <? critical_count s) ->
  let s' := Nat.iter n charger_tick s in
  critical_count s' = count (critical_count s) (history n s) /\ line_en s' = negb (10 <? critical_count s').
Proof.
  induction n as [|n IH]; intros s H0 Hb Hl; [done|]. cbv zeta. rewrite Nat.iter_succ_r. cbn [history count].
  pose proof (tick_count s) as Ht. cbv zeta in Ht.
  destruct (seen s); destruct Ht as [E1 E2].
  - rewrite s32_id in E1, E2 by lia. rewrite <- E1. apply IH; [lia|lia|]. rewrite E2, E1, Hl.
    destruct (Z.ltb_spec 10 (critical_count s + 1)); [done|]. destruct (Z.ltb_spec 10 (critical_count s)); [lia|done].
  - rewrite <- E1. apply IH; [lia|lia|]. by rewrite E2, E1.
  - rewrite <- E1. apply IH; [lia|lia|]. by rewrite E2, E1.
Qed.

(** C7: the power of the high level is cut exactly when it must be.  For every charger driver and any
    run of ticks (up to 2^31 seconds), whatever fails in between, the output is off when and only
    when more than ten valid readings since the last sufficient one were below the minimum
    voltage; the counter is their number; failed readings and reconfigurations neither count
    nor reset it, and the first sufficient reading restores the power. *)
Theorem power_cut_exact (s : power) (n : nat) (Hc : critical_count s = 0) (Hl : line_en s = true) (Hn : Z.of_nat n < 2 ^ 31) :
  let s' := Nat.iter n charger_tick s in
  critical_count s' = lows (history n s) /\ (line_en s' = false <-> 10 < lows (history n s)).
Proof.
  destruct (history_count n s) as [E1 E2]; [lia|lia|by rewrite Hl, Hc|]. cbv zeta in *.
  rewrite count_lows, Hc in E1. assert (critical_count (Nat.iter n charger_tick s) = lows (history n s)) as E.
  { rewrite E1. by destruct (bool_decide _). }
  split; [done|]. rewrite E2, E. destruct (Z.ltb_spec 10 (lows (history n s))); split; done || lia.
Qed.

End Power.
Arguments power : clear implicits.

(** ** A chip *)

(** A chip as a file of registers, and one that has lost its connection. *)
Record chip := mkchip { regs : list (Z * Z); alive : bool }.

Definition reg_get (r : list (Z * Z)) (k : Z) : Z := match filter (fun p => fst p = k) r with p :: _ => snd p | [] => 0 end.

Definition demo_transmit (c : chip) (bs : list Z) (n : nat) : chip * option (list Z) :=
  if alive c then
    match bs with
    | [] => (c, None)
    | r :: vs => (mkchip (imap (fun i v => (r + Z.of_nat i, v)) vs ++ regs c) true,
                  Some (map (fun i => reg_get (regs c) (r + Z.of_nat i)) (seq 0 n)))
    end
  else (c, None).

(** Settings for a battery of seven cells, and the order of the arguments of the library's functions. *)
Definition demo_robot : robot_power := rp (f32_of_Z 1) (f32_of_Z 28) (f32_of_Z 22) (f32_of_Z 20).
Definition demo_min (a b : spec_float) : spec_float := if SFltb a b then a else b.
Definition demo_max (a b : spec_float) : spec_float := if SFltb b a then a else b.

(** A battery at 18 V: 18000 in the register of its voltage. *)
Definition demo_chip : chip := mkchip [(REG_VBAT_ADC, 70); (REG_VBAT_ADC + 1, 80)] true.

Definition demo_power : power chip :=
  mkpower (Some demo_chip) false f32_zero f32_zero f32_zero f32_zero f32_zero 0 COMMS_ERROR true.

Definition demo_driver : ChargerDriver chip := BQ2579 demo_transmit true.

Definition demo_ticks (n : nat) : power chip := Nat.iter n (@charger_tick chip demo_driver demo_min demo_max demo_robot) demo_power.

Lemma power_cut_exact_witness :
  let h := @history chip demo_driver demo_min demo_max demo_robot 13 demo_power in
  critical_count (demo_ticks 13) = lows h /\ (line_en (demo_ticks 13) = false <-> 10 < lows h).
Proof. apply (@power_cut_exact chip demo_driver demo_min demo_max demo_robot demo_power 13); reflexivity. Defined.

(** The first tick configures; the eleventh low reading, in the twelfth tick, cuts the power. *)
Example demo_cut :
  line_en (demo_ticks 11) = true /\ line_en (demo_ticks 12) = false /\
  GetChargerStatus (demo_ticks 12) = str:("Not Charging") /\ GetChargerStatus demo_power = str:("Charger Not Found").
Proof. vm_compute. split_and!; reflexivity. Qed.

(** The settings the chip got: termination 0.25 A in units of 40 mA, charging 1 A in units of 10 mA, the temperature ignored,
    and the watchdog reset by the monitoring. *)
Example demo_settings : (fun c => map (reg_get (regs c)) [REG_Termination_Control; REG_Charge_Current_Limit;
    REG_Charge_Current_Limit + 1; REG_NTC_Control_1; REG_Charger_Control_1; REG_Charger_Control_5; REG_ADC_Control])
  <$> charger (demo_ticks 2) = Some [6; 0; 100; 1; 8; 54; 128].
Proof. vm_compute. reflexivity. Qed.
