(* ===== verification/Imu.v ===== *)
(** * Imu: the inertial sensor (src/services/imu_service/imu_service.cpp, imu_service.hpp) and the
    register functions of its driver (ext/LSM6DS3TR-C-PID/lsm6ds3tr-c_reg.c, .h)

    A chip on the SPI bus is a parameter: [transfer] is one transaction, from [spiSelect] to
    [spiUnselect], of the bytes sent and the number of bytes received.  [Lsm6Laws] states
    what the data sheet promises of the chip's control registers and of its software reset, [Lsm6Output] what it
    promises of the status and output registers while it samples.  Floats are the
    binary32 and binary64 of the Standard Library's specification. *)

From S2P Require Import Prelude Json Drive.
From Stdlib Require Import Floats.SpecFloat.

Class SpiDevice (D : Type) := {
  transfer : D -> list Z -> nat -> D * list Z;
  transfer_len : forall d tx n, length (snd (transfer d tx n)) = n;
  transfer_bytes : forall d tx n, is_bytes (snd (transfer d tx n))
}.

(** ** Bit fields of a byte *)

(** Field of [w] bits from bit [off]. *)
Definition get_field (off w b : Z) : Z := Z.land (Z.shiftr b off) (Z.ones w).
Definition set_field (off w v b : Z) : Z :=
  Z.lor (Z.ldiff b (Z.shiftl (Z.ones w) off)) (Z.shiftl (Z.land v (Z.ones w)) off).

(** ** Registers *)
Definition LSM6DS3TR_C_WHO_AM_I : Z := 0x0F.
Definition LSM6DS3TR_C_CTRL1_XL : Z := 0x10.
Definition LSM6DS3TR_C_CTRL2_G : Z := 0x11.
Definition LSM6DS3TR_C_CTRL3_C : Z := 0x12.
Definition LSM6DS3TR_C_CTRL8_XL : Z := 0x17.
Definition LSM6DS3TR_C_STATUS_REG : Z := 0x1E.
Definition LSM6DS3TR_C_OUTX_L_G : Z := 0x22.
Definition LSM6DS3TR_C_OUTX_L_XL : Z := 0x28.

Section Driver.
Context {D : Type} `{!SpiDevice D}.

(** The functions of the service: both report success. *)
Definition write_reg_lambda (d : D) (reg : Z) (bufp : list Z) : D := fst (transfer d (reg :: bufp) 0).
Definition read_reg_lambda (d : D) (reg : Z) (len : nat) : D * list Z := transfer d [Z.lor reg 0x80] len.

Definition read1 (d : D) (reg : Z) : D * Z :=
  let '(d, b) := read_reg_lambda d reg 1 in (d, nth 0 b 0).

(** Read, change the fields, write back: the body of every setter. *)
Definition update_reg (reg : Z) (f : Z -> Z) (d : D) : D :=
  let '(d, b) := read1 d reg in write_reg_lambda d reg [f b].

Definition lsm6ds3tr_c_xl_full_scale_set (val : Z) := update_reg LSM6DS3TR_C_CTRL1_XL (set_field 2 2 val).
Definition lsm6ds3tr_c_xl_data_rate_set (val : Z) := update_reg LSM6DS3TR_C_CTRL1_XL (set_field 4 4 val).
Definition lsm6ds3tr_c_xl_filter_analog_set (val : Z) := update_reg LSM6DS3TR_C_CTRL1_XL (set_field 0 1 val).
Definition lsm6ds3tr_c_gy_full_scale_set (val : Z) := update_reg LSM6DS3TR_C_CTRL2_G (set_field 1 3 val).
Definition lsm6ds3tr_c_gy_data_rate_set (val : Z) := update_reg LSM6DS3TR_C_CTRL2_G (set_field 4 4 val).
Definition lsm6ds3tr_c_block_data_update_set (val : Z) := update_reg LSM6DS3TR_C_CTRL3_C (set_field 6 1 val).
Definition lsm6ds3tr_c_reset_set (val : Z) := update_reg LSM6DS3TR_C_CTRL3_C (set_field 0 1 val).
Definition lsm6ds3tr_c_xl_lp2_bandwidth_set (val : Z) :=
  update_reg LSM6DS3TR_C_CTRL8_XL (fun b =>
    set_field 2 1 0 (set_field 7 1 1 (set_field 5 2 (Z.land val 0x03)
      (set_field 3 1 (Z.shiftr (Z.land val 0x10) 4) b)))).

Definition lsm6ds3tr_c_reset_get (d : D) : D * Z :=
  let '(d, b) := read1 d LSM6DS3TR_C_CTRL3_C in (d, get_field 0 1 b).
Definition lsm6ds3tr_c_device_id_get (d : D) : D * Z := read1 d LSM6DS3TR_C_WHO_AM_I.
Definition lsm6ds3tr_c_status_reg_get (d : D) : D * Z := read1 d LSM6DS3TR_C_STATUS_REG.

(** Sample [i] of a buffer of six bytes: the high byte is stored first, then the word is computed in
    an int and converted. *)
Definition sample (buff : list Z) (i : nat) : Z :=
  let hi := s16 (nth (2 * i + 1) buff 0) in
  s16 (hi * 256 + s16 (nth (2 * i) buff 0)).

Definition raw_get (reg : Z) (d : D) : D * list Z :=
  let '(d, buff) := read_reg_lambda d reg 6 in (d, [sample buff 0; sample buff 1; sample buff 2]).
Definition lsm6ds3tr_c_angular_rate_raw_get := raw_get LSM6DS3TR_C_OUTX_L_G.
Definition lsm6ds3tr_c_acceleration_raw_get := raw_get LSM6DS3TR_C_OUTX_L_XL.
End Driver.

Definition lsm6ds3tr_c_from_fs2g_to_mg (lsb : Z) : spec_float :=
  f32_mul (f32_of_Z lsb) (f32_div (f32_of_Z 61) (f32_of_Z 1000)).
Definition lsm6ds3tr_c_from_fs2000dps_to_mdps (lsb : Z) : spec_float := f32_mul (f32_of_Z lsb) (f32_of_Z 70).

(** ** The service *)

Record imu := mkimu {
  imu_found : bool;
  error_message : list Z;
  data_raw_acceleration : list Z;
  data_raw_angular_rate : list Z;
  axes : list spec_float;
  last_log : Z }.                    (* the static variable of [tick] *)

Definition M_PI : spec_float := S754_finite false 7074237752028440 (-51).
Definition G : spec_float := f64_div (f64_of_Z 980665) (f64_of_Z 100000000).

Section Service.
Context {D : Type} `{!SpiDevice D}.
(** The hexadecimal text of the ETL library. *)
Context (hex : Z -> list Z).

Definition with_found (s : imu) (b : bool) (m : list Z) : imu :=
  mkimu b m (data_raw_acceleration s) (data_raw_angular_rate s) (axes s) (last_log s).

(** The loop of attempts; it sleeps 100 ms after each that fails. *)
Fixpoint probe (attempts : nat) (d : D) (s : imu) : D * imu :=
  match attempts with
  | O => (d, s)
  | S n =>
      let '(d, whoamI) := lsm6ds3tr_c_device_id_get d in
      if (whoamI =? 0x6a) || (whoamI =? 0x6c) then (d, with_found s true (str:("None")))
      else probe n d (with_found s false (str:("IMU Not Found. Whoami=0x") ++ hex whoamI))
  end.

(** do ... while (rst); [None]: not done with this fuel. *)
Fixpoint await_reset (fuel : nat) (d : D) : option D :=
  match fuel with
  | O => None
  | S n => let '(d, rst) := lsm6ds3tr_c_reset_get d in if rst =? 0 then Some d else await_reset n d
  end.

Definition configure (d : D) : D :=
  let d := lsm6ds3tr_c_block_data_update_set 1 d in
  let d := lsm6ds3tr_c_xl_data_rate_set 7 d in
  let d := lsm6ds3tr_c_gy_data_rate_set 7 d in
  let d := lsm6ds3tr_c_xl_full_scale_set 0 d in
  let d := lsm6ds3tr_c_gy_full_scale_set 6 d in
  let d := lsm6ds3tr_c_xl_filter_analog_set 1 d in
  lsm6ds3tr_c_xl_lp2_bandwidth_set 0x11 d.

Definition OnCreate (fuel : nat) (d : D) (s : imu) : option (D * imu) :=
  let '(d, s) := probe 100 d (with_found s (imu_found s) []) in
  if negb (imu_found s) then Some (d, s)
  else
    let d := lsm6ds3tr_c_reset_set 1 d in
    d ← await_reset fuel d;
    Some (configure d, s).

Definition acceleration (sign raw : Z) : spec_float :=
  f64_mul (f64_mul (f64_of_Z sign) (lsm6ds3tr_c_from_fs2g_to_mg raw)) G.
Definition angular_rate (sign raw : Z) : spec_float :=
  f64_div (f64_mul (f64_mul (f64_of_Z sign) M_PI) (lsm6ds3tr_c_from_fs2000dps_to_mdps raw)) (f64_of_Z 180000).

Definition signs : list Z := [1; -1; -1].

Inductive imu_msg := LogError (m : list Z) | SendAxes (a : list spec_float).

(** The two blocks that take new samples. *)
Definition take_acceleration (fresh : bool) (d : D) (s : imu) : D * imu :=
  if fresh then
    let '(d, raw) := lsm6ds3tr_c_acceleration_raw_get d in
    (d, mkimu (imu_found s) (error_message s) raw (data_raw_angular_rate s)
          (zip_with acceleration signs raw ++ drop 3 (axes s)) (last_log s))
  else (d, s).

Definition take_rate (fresh : bool) (d : D) (s : imu) : D * imu :=
  if fresh then
    let '(d, raw) := lsm6ds3tr_c_angular_rate_raw_get d in
    (d, mkimu (imu_found s) (error_message s) (data_raw_acceleration s) raw
          (take 3 (axes s) ++ zip_with angular_rate signs raw ++ drop 6 (axes s)) (last_log s))
  else (d, s).

(** The callback of the schedule, every 10 ms. *)
Definition tick (now : Z) (d : D) (s : imu) : D * imu * list imu_msg :=
  if negb (imu_found s) then
    if 1000000 <? u32 (now - last_log s) then
      (d, mkimu (imu_found s) (error_message s) (data_raw_acceleration s) (data_raw_angular_rate s) (axes s) now,
       [LogError (error_message s)])
    else (d, s, [])
  else
    let '(d, status) := lsm6ds3tr_c_status_reg_get d in
    let '(d, s) := take_acceleration (Z.testbit status 0) d s in
    let '(d, s) := take_rate (Z.testbit status 1) d s in
    (d, s, [SendAxes (axes s)]).

(** What the device API gets (hpp). *)
Definition GetAxes (s : imu) : list spec_float := axes s.

(** What the web interface shows (api.cpp): ax, ay, az, gx, gy, gz. *)
Definition glue_get_imu (s : imu) : list spec_float := take 6 (GetAxes s).
End Service.

(** ** Laws of the fields *)

Lemma get_set_same off w v b : 0 <= off -> 0 <= w -> get_field off w (set_field off w v b) = Z.land v (Z.ones w).
Proof.
  intros Ho Hw. unfold get_field, set_field. apply Z.bits_inj'. intros n Hn.
  rewrite Z.land_spec, Z.shiftr_spec, Z.lor_spec, Z.ldiff_spec, !Z.shiftl_spec, Z.land_spec by lia.
  replace (n + off - off) with n by lia. rewrite ?Z.land_spec. destruct (Z.testbit (Z.ones w) n), (Z.testbit v n), (Z.testbit b (n + off)); done.
Qed.

Lemma get_set_other off w v b off' w' : 0 <= off -> 0 <= w -> 0 <= off' -> 0 <= w' -> off' + w' <= off \/ off + w <= off' ->
  get_field off' w' (set_field off w v b) = get_field off' w' b.
Proof.
  intros Ho Hw Ho' Hw' Hd. unfold get_field, set_field. apply Z.bits_inj'. intros n Hn.
  rewrite !Z.land_spec, !Z.shiftr_spec, Z.lor_spec, Z.ldiff_spec, !Z.shiftl_spec, Z.land_spec by lia.
  rewrite !Z.testbit_ones by lia.
  destruct (Z.lt_ge_cases n w'); [|ztests; by rewrite !andb_false_r].
  assert ((0 <=? n + off' - off) && (n + off' - off <? w) = false) as ->; [|by rewrite andb_false_r, orb_false_r, andb_true_r].
  destruct Hd; ztests; done || by rewrite andb_false_r.
Qed.

Lemma set_field_byte off w v b : 0 <= off -> 0 <= w -> off + w <= 8 -> is_byte b -> is_byte (set_field off w v b).
Proof.
  unfold is_byte. change 256 with (2 ^ 8). intros Ho Hw H8 Hb. apply bounded_bits; [lia|]. intros n Hn.
  unfold set_field. rewrite Z.lor_spec, Z.ldiff_spec, !Z.shiftl_spec, Z.land_spec, Z.testbit_ones by lia.
  rewrite (proj1 (bounded_bits 8 b ltac:(lia)) Hb n Hn).
  assert ((0 <=? n - off) && (n - off <? w) = false) as -> by (ztests; done || by rewrite andb_false_r). by rewrite andb_false_r.
Qed.

Lemma field_bit off b : 0 <= off -> get_field off 1 b = if Z.testbit b off then 1 else 0.
Proof.
  intros Ho. unfold get_field. rewrite Z.land_ones by lia. change (2 ^ 1) with 2. rewrite <- Z.bit0_mod, Z.shiftr_spec by lia. by destruct (Z.testbit b (0 + off)) eqn:E; rewrite Z.add_0_l in E; rewrite E.
Qed.

(** ** What the chip promises *)

Definition control (r : Z) : bool := existsb (Z.eqb r) [LSM6DS3TR_C_CTRL1_XL; LSM6DS3TR_C_CTRL2_G; LSM6DS3TR_C_CTRL3_C; LSM6DS3TR_C_CTRL8_XL].

(** Reading a control register or the identity changes neither; writing a control register changes that
    one; a write that sets the reset bit starts a reset that some reads later is over, with the
    default values. *)
Class Lsm6Laws (D : Type) `{!SpiDevice D} := {
  reg : D -> Z -> Z;
  defaults : Z -> Z;
  idle : D -> Prop;
  resetting : nat -> D -> Prop;
  reset_max : nat;
  reg_byte : forall d r, is_byte (reg d r);
  defaults_done : Z.testbit (defaults LSM6DS3TR_C_CTRL3_C) 0 = false;
  law_read : forall d r, idle d -> control r = true \/ r = LSM6DS3TR_C_WHO_AM_I ->
    exists d', transfer d [Z.lor r 0x80] 1 = (d', [reg d r]) /\ idle d' /\ forall x, reg d' x = reg d x;
  law_write : forall d r v, idle d -> control r = true -> is_byte v -> (r = LSM6DS3TR_C_CTRL3_C -> Z.testbit v 0 = false) ->
    let d' := fst (transfer d [r; v] 0) in idle d' /\ forall x, reg d' x = if x =? r then v else reg d x;
  law_reset : forall d v, idle d -> is_byte v -> Z.testbit v 0 = true ->
    exists n, (n <= reset_max)%nat /\ resetting n (fst (transfer d [LSM6DS3TR_C_CTRL3_C; v] 0));
  law_resetting : forall n d, resetting n d ->
    exists d' b, transfer d [Z.lor LSM6DS3TR_C_CTRL3_C 0x80] 1 = (d', [b]) /\ is_byte b /\
      match n with
      | O => Z.testbit b 0 = false /\ idle d' /\ forall x, control x = true -> reg d' x = defaults x
      | S n => Z.testbit b 0 = true /\ resetting n d'
      end
}.

Section Configured.
Context {D : Type} `{!SpiDevice D} `{!Lsm6Laws D} (hex : Z -> list Z).

Lemma update_reg_spec r f (d : D) : idle d -> control r = true -> is_byte (f (reg d r)) ->
  (r = LSM6DS3TR_C_CTRL3_C -> Z.testbit (f (reg d r)) 0 = false) ->
  idle (update_reg r f d) /\ forall x, reg (update_reg r f d) x = if x =? r then f (reg d r) else reg d x.
Proof.
  intros Hi Hc Hb H3. unfold update_reg, read1, read_reg_lambda, write_reg_lambda.
  destruct (law_read d r Hi (or_introl Hc)) as (d1 & -> & Hi1 & Hr1). cbn [nth].
  destruct (law_write d1 r _ Hi1 Hc Hb H3) as [Hi2 Hr2]. split; [done|]. intros x. rewrite Hr2. by destruct (x =? r).
Qed.

Lemma id_spec (d : D) : idle d -> exists d', lsm6ds3tr_c_device_id_get d = (d', reg d LSM6DS3TR_C_WHO_AM_I) /\
  idle d' /\ forall x, reg d' x = reg d x.
Proof.
  intros Hi. unfold lsm6ds3tr_c_device_id_get, read1, read_reg_lambda.
  destruct (law_read d LSM6DS3TR_C_WHO_AM_I Hi ltac:(by right)) as (d1 & -> & H). by exists d1.
Qed.

Definition known (who : Z) : bool := (who =? 0x6a) || (who =? 0x6c).

Lemma probe_spec n : forall (d : D) s, idle d -> exists d' s', probe hex (S n) d s = (d', s') /\ idle d' /\
  (forall x, reg d' x = reg d x) /\ imu_found s' = known (reg d LSM6DS3TR_C_WHO_AM_I) /\ axes s' = axes s.
Proof.
  induction n as [|n IH]; intros d s Hi; destruct (id_spec d Hi) as (d1 & E & Hi1 & Hr); cbn [probe]; rewrite E; fold (known (reg d LSM6DS3TR_C_WHO_AM_I)).
  - destruct (known _) eqn:K; do 2 eexists; (split; [done|]); by repeat split.
  - destruct (known _) eqn:K; [do 2 eexists; (split; [done|]); by repeat split|].
    destruct (IH d1 (with_found s false (str:("IMU Not Found. Whoami=0x") ++ hex (reg d LSM6DS3TR_C_WHO_AM_I))) Hi1) as (d2 & s2 & E2 & Hi2 & Hr2 & Hf & Ha).
    cbn [probe] in E2. rewrite E2. exists d2, s2. split; [done|]. split; [done|]. split; [intros x; by rewrite Hr2|]. split; [by rewrite Hf, Hr|done].
Qed.

Lemma await_spec n : forall fuel (d : D), resetting n d -> (n < fuel)%nat ->
  exists d', await_reset fuel d = Some d' /\ idle d' /\ forall x, control x = true -> reg d' x = defaults x.
Proof.
  induction n as [|n IH]; intros [|fuel] d Hr Hf; try lia;
    destruct (law_resetting _ _ Hr) as (d1 & b & E & Hb & H); cbn [await_reset]; unfold lsm6ds3tr_c_reset_get, read1, read_reg_lambda; rewrite E;
    cbn [nth]; rewrite field_bit by lia.
  - destruct H as (-> & Hi & Hd). by exists d1.
  - destruct H as (-> & Hn). cbn. apply (IH fuel d1 Hn). lia.
Qed.

Lemma set_keeps_bit off w v b k : 0 <= off -> 0 <= w -> 0 <= k -> k < off \/ off + w <= k -> Z.testbit (set_field off w v b) k = Z.testbit b k.
Proof.
  intros Ho Hw Hk Hd. pose proof (get_set_other off w v b k 1 Ho Hw Hk ltac:(lia) ltac:(lia)) as H.
  rewrite !field_bit in H by lia. destruct (Z.testbit (set_field _ _ _ _) k), (Z.testbit b k); done.
Qed.

(** The registers after the whole configuration. *)
Lemma configure_spec (d : D) : idle d -> Z.testbit (reg d LSM6DS3TR_C_CTRL3_C) 0 = false ->
  idle (configure d) /\
  reg (configure d) LSM6DS3TR_C_CTRL1_XL = set_field 0 1 1 (set_field 2 2 0 (set_field 4 4 7 (reg d LSM6DS3TR_C_CTRL1_XL))) /\
  reg (configure d) LSM6DS3TR_C_CTRL2_G = set_field 1 3 6 (set_field 4 4 7 (reg d LSM6DS3TR_C_CTRL2_G)) /\
  reg (configure d) LSM6DS3TR_C_CTRL3_C = set_field 6 1 1 (reg d LSM6DS3TR_C_CTRL3_C) /\
  reg (configure d) LSM6DS3TR_C_CTRL8_XL =
    set_field 2 1 0 (set_field 7 1 1 (set_field 5 2 1 (set_field 3 1 1 (reg d LSM6DS3TR_C_CTRL8_XL)))).
Proof.
  intros Hi H3. unfold configure, lsm6ds3tr_c_xl_lp2_bandwidth_set, lsm6ds3tr_c_xl_filter_analog_set, lsm6ds3tr_c_gy_full_scale_set,
    lsm6ds3tr_c_xl_full_scale_set, lsm6ds3tr_c_gy_data_rate_set, lsm6ds3tr_c_xl_data_rate_set, lsm6ds3tr_c_block_data_update_set.
  destruct (update_reg_spec LSM6DS3TR_C_CTRL3_C (set_field 6 1 1) d Hi eq_refl) as [I1 R1];
    [by apply set_field_byte, reg_byte|intros _; by rewrite set_keeps_bit by lia|].
  set (d1 := update_reg _ _ d) in *. clearbody d1.
  repeat match goal with
  | Hd : idle ?d |- context [update_reg ?r ?f ?d] =>
      destruct (update_reg_spec r f d Hd eq_refl) as [? ?]; [repeat apply set_field_byte; (lia || apply reg_byte)|done|];
      let e := fresh "e" in set (e := update_reg r f d) in *; clearbody e
  end.
  split; [done|].
  repeat match goal with H : forall x, reg ?e x = _ |- context [reg ?e _] => rewrite H; cbn [Z.eqb Pos.eqb LSM6DS3TR_C_CTRL1_XL LSM6DS3TR_C_CTRL2_G LSM6DS3TR_C_CTRL3_C LSM6DS3TR_C_CTRL8_XL] end.
  done.
Qed.

(** The fields the data sheet names: rate and scale of both sensors, filters, block update; every
    other bit has its default. *)
Definition configured (d : D) : Prop :=
  (get_field 4 4 (reg d LSM6DS3TR_C_CTRL1_XL), get_field 2 2 (reg d LSM6DS3TR_C_CTRL1_XL), get_field 0 1 (reg d LSM6DS3TR_C_CTRL1_XL)) = (7, 0, 1) /\
  (get_field 4 4 (reg d LSM6DS3TR_C_CTRL2_G), get_field 1 3 (reg d LSM6DS3TR_C_CTRL2_G)) = (7, 6) /\
  (get_field 6 1 (reg d LSM6DS3TR_C_CTRL3_C), get_field 0 1 (reg d LSM6DS3TR_C_CTRL3_C)) = (1, 0) /\
  (get_field 7 1 (reg d LSM6DS3TR_C_CTRL8_XL), get_field 5 2 (reg d LSM6DS3TR_C_CTRL8_XL),
   get_field 3 1 (reg d LSM6DS3TR_C_CTRL8_XL), get_field 2 1 (reg d LSM6DS3TR_C_CTRL8_XL)) = (1, 1, 1, 0) /\
  Forall (fun '(r, off, w) => get_field off w (reg d r) = get_field off w (defaults r))
    [(LSM6DS3TR_C_CTRL1_XL, 1, 1); (LSM6DS3TR_C_CTRL2_G, 0, 1); (LSM6DS3TR_C_CTRL3_C, 1, 5); (LSM6DS3TR_C_CTRL3_C, 7, 1);
     (LSM6DS3TR_C_CTRL8_XL, 0, 2); (LSM6DS3TR_C_CTRL8_XL, 4, 1)].

(** The sensor is configured or reported missing.  On a chip that keeps the laws of its data sheet,
    with fuel for the longest reset, the creation of the service returns: if the chip identifies
    itself as 0x6a or 0x6c it has been reset and configured - 833 Hz for both sensors, 2 g and 2000 degrees
    per second, the filters, block data update, whatever its registers held before - and it is marked as found;
    otherwise none of its registers has changed and it is marked as not found. *)
Theorem imu_configured (d : D) (s : imu) (fuel : nat) (Hi : idle d) (Hf : (reset_max < fuel)%nat) :
  exists d' s', OnCreate hex fuel d s = Some (d', s') /\ idle d' /\ imu_found s' = known (reg d LSM6DS3TR_C_WHO_AM_I) /\
    if known (reg d LSM6DS3TR_C_WHO_AM_I) then configured d' else forall x, reg d' x = reg d x.
Proof.
  unfold OnCreate. destruct (probe_spec 99 d (with_found s (imu_found s) []) Hi) as (d1 & s1 & -> & Hi1 & Hr1 & Hf1 & _).
  rewrite Hf1. destruct (known _) eqn:K; cbn [negb]; [|exists d1, s1; by rewrite Hf1].
  unfold lsm6ds3tr_c_reset_set, update_reg, read1, read_reg_lambda, write_reg_lambda.
  destruct (law_read d1 LSM6DS3TR_C_CTRL3_C Hi1 ltac:(by left)) as (d2 & -> & Hi2 & _). cbn [nth].
  destruct (law_reset d2 (set_field 0 1 1 (reg d1 LSM6DS3TR_C_CTRL3_C)) Hi2) as (n & Hn & Hres).
  { by apply set_field_byte, reg_byte. }
  { pose proof (get_set_same 0 1 1 (reg d1 LSM6DS3TR_C_CTRL3_C) ltac:(lia) ltac:(lia)) as H. rewrite field_bit in H by lia.
    by destruct (Z.testbit _ 0). }
  destruct (await_spec n fuel _ Hres ltac:(lia)) as (d3 & -> & Hi3 & Hd3). cbn [mbind option_bind].
  destruct (configure_spec d3 Hi3) as (Hi4 & E1 & E2 & E3 & E8); [rewrite Hd3 by done; apply defaults_done|].
  exists (configure d3), s1. split; [done|]. split; [done|]. split; [done|].
  rewrite !Hd3 in * by done. unfold configured. rewrite E1, E2, E3, E8.
  pose proof defaults_done as H0. pose proof (field_bit 0 (defaults LSM6DS3TR_C_CTRL3_C) ltac:(lia)) as F0. rewrite H0 in F0.
  repeat first [rewrite get_set_same by lia | rewrite get_set_other by lia]. rewrite F0.
  split_and!; try done. repeat constructor; rewrite ?E1, ?E2, ?E3, ?E8; repeat rewrite get_set_other by lia; done.
Qed.
End Configured.

(** ** The tick *)

Definition is_int16 (z : Z) : Prop := - 2 ^ 15 <= z < 2 ^ 15.

Lemma s16_int16 z : is_int16 (s16 z).
Proof. unfold is_int16, s16, swrap. pose proof (Z.mod_pos_bound (z + 2 ^ (16 - 1)) (2 ^ 16) ltac:(lia)). cbn in *. lia. Qed.

Lemma s16_small z : is_int16 z -> s16 z = z.
Proof. unfold is_int16, s16, swrap. intros H. rewrite Z.mod_small; cbn in *; lia. Qed.

(** A sample is the two's complement value of its two bytes, low byte first. *)
Lemma sample_word buff i : is_bytes buff -> sample buff i = s16 (nth (2 * i) buff 0 + 256 * nth (2 * i + 1) buff 0).
Proof.
  intros Hb. assert (forall k, 0 <= nth k buff 0 < 256) as Hk.
  { intros k. destruct (Nat.lt_ge_cases k (length buff)); [|rewrite nth_overflow by done; lia].
    apply (Forall_nth is_byte); done. }
  unfold sample. pose proof (Hk (2 * i)%nat). pose proof (Hk (2 * i + 1)%nat).
  rewrite !(s16_small (nth _ _ _)) by (unfold is_int16; lia). f_equal. lia.
Qed.

(** The types of the service's variables. *)
Record typed (s : imu) : Prop := {
  t_axes : length (axes s) = 9%nat;
  t_acc : length (data_raw_acceleration s) = 3%nat /\ Forall is_int16 (data_raw_acceleration s);
  t_gyro : length (data_raw_angular_rate s) = 3%nat /\ Forall is_int16 (data_raw_angular_rate s) }.

(** What the data sheet promises of the registers the tick reads: [at_reg] is what each holds.  While
    the chip is [sampling] - out of reset, with the address increment that is the default of CTRL3_C - a read
    of [n] bytes from one of them sends it and those that follow, and the chip goes on sampling.  What they
    hold may change at any time. *)
Class Lsm6Output (D : Type) `{!SpiDevice D} := {
  at_reg : D -> Z -> Z;
  sampling : D -> Prop;
  at_reg_byte : forall d r, is_byte (at_reg d r);
  out_read : forall d r n, sampling d -> r ∈ [0x1E; 0x22; 0x28] ->
    exists d', transfer d [r + 0x80] n = (d', map (at_reg d) (seqZ r (Z.of_nat n))) /\ sampling d'
}.

(** The two's complement value of two bytes, and the three words from register [r] on, low byte first. *)
Definition int16 (lo hi : Z) : Z := let v := lo + 256 * hi in if v <? 2 ^ 15 then v else v - 2 ^ 16.
Definition words (f : Z -> Z) (r : Z) : list Z :=
  [int16 (f r) (f (r + 1)); int16 (f (r + 2)) (f (r + 3)); int16 (f (r + 4)) (f (r + 5))].

Lemma int16_s16 lo hi : is_byte lo -> is_byte hi -> int16 lo hi = s16 (lo + 256 * hi).
Proof.
  unfold is_byte, int16, s16, swrap. intros Hl Hh. cbv zeta. change (2 ^ (16 - 1)) with (2 ^ 15). change (2 ^ 15) with 32768. change (2 ^ 16) with 65536.
  destruct (Z.ltb_spec (lo + 256 * hi) 32768); [rewrite Z.mod_small by lia; lia|].
  rewrite <- (Z.mod_add _ (-1)), Z.mod_small by lia. lia.
Qed.

Lemma int16_range lo hi : is_byte lo -> is_byte hi -> is_int16 (int16 lo hi).
Proof. intros Hl Hh. rewrite int16_s16 by done. apply s16_int16. Qed.

Section Tick.
Context {D : Type} `{!SpiDevice D} `{!Lsm6Output D}.

(** The chip after [n] bytes have been read from register [r]. *)
Definition after (d : D) (r : Z) (n : nat) : D := fst (transfer d [r + 0x80] n).

Lemma read_out r n (d : D) : sampling d -> r ∈ [0x1E; 0x22; 0x28] ->
  read_reg_lambda d r n = (after d r n, map (at_reg d) (seqZ r (Z.of_nat n))) /\ sampling (after d r n).
Proof.
  intros Hs Hr. destruct (out_read d r n Hs Hr) as (d' & E & Hs'). unfold read_reg_lambda, after.
  assert (Z.lor r 0x80 = r + 0x80) as -> by (repeat (apply elem_of_cons in Hr as [->|Hr]; [done|]); by apply elem_of_nil in Hr).
  by rewrite E.
Qed.

Lemma raw_words r (d : D) : sampling d -> r ∈ [0x1E; 0x22; 0x28] ->
  raw_get r d = (after d r 6, words (at_reg d) r) /\ sampling (after d r 6).
Proof.
  intros Hs Hr. destruct (read_out r 6 d Hs Hr) as [E Hs']. split; [|done]. unfold raw_get. rewrite E. f_equal.
  assert (is_bytes (map (at_reg d) (seqZ r (Z.of_nat 6)))) as Hb by (apply Forall_map, Forall_true; intros; apply at_reg_byte).
  rewrite !sample_word by done. unfold words. rewrite !int16_s16 by apply at_reg_byte.
  change (seqZ r (Z.of_nat 6)) with [0 + r; 1 + r; 2 + r; 3 + r; 4 + r; 5 + r].
  cbn [map nth Nat.mul Nat.add]. rewrite Z.add_0_l, !(Z.add_comm _ r). done.
Qed.

Lemma words_typed r (d : D) : length (words (at_reg d) r) = 3%nat /\ Forall is_int16 (words (at_reg d) r).
Proof. split; [done|]. repeat constructor; apply int16_range; apply at_reg_byte. Qed.

(** A sensor's raw values and three axes after a tick: the samples [got] from the chip and their
    conversion, y and z turned round, if the status says there are new ones; unchanged otherwise. *)
Definition refreshed (fresh : bool) (conv : Z -> Z -> spec_float) (got raw raw' : list Z) (old new : list spec_float) : Prop :=
  if fresh then raw' = got /\ new = zip_with conv [1; -1; -1] got else raw' = raw /\ new = old.

Lemma take_acceleration_spec (b : bool) (d : D) s : sampling d -> typed s -> exists s' : imu, let d' := if b then after d 0x28 6 else d in
  take_acceleration b d s = (d', s') /\ sampling d' /\ typed s' /\
  (imu_found s', error_message s', data_raw_angular_rate s', last_log s') = (imu_found s, error_message s, data_raw_angular_rate s, last_log s) /\
  refreshed b acceleration (words (at_reg d) 0x28) (data_raw_acceleration s) (data_raw_acceleration s') (take 3 (axes s)) (take 3 (axes s')) /\
  drop 3 (axes s') = drop 3 (axes s).
Proof.
  intros Hd [Ha Hacc Hg]. destruct b; [|by exists s]. unfold take_acceleration, lsm6ds3tr_c_acceleration_raw_get.
  destruct (raw_words LSM6DS3TR_C_OUTX_L_XL d Hd) as [-> Hd']; [set_solver|]. destruct (words_typed 0x28 d) as [Hl Hr].
  change LSM6DS3TR_C_OUTX_L_XL with 0x28 in *. set (raw := words _ _) in *.
  assert (length (zip_with acceleration signs raw) = 3%nat) as Hz by (rewrite length_zip_with, Hl; done).
  eexists. split; [done|]. split; [done|]. cbn [axes imu_found error_message data_raw_acceleration data_raw_angular_rate last_log]. rewrite take_app_length', drop_app_length' by done. split; [|by repeat split].
  split; cbn [axes imu_found error_message data_raw_acceleration data_raw_angular_rate last_log]; [rewrite length_app, Hz, length_drop, Ha; done|done|done].
Qed.

Lemma take_rate_spec (b : bool) (d : D) s : sampling d -> typed s -> exists s' : imu, let d' := if b then after d 0x22 6 else d in
  take_rate b d s = (d', s') /\ typed s' /\
  (imu_found s', error_message s', data_raw_acceleration s', last_log s') = (imu_found s, error_message s, data_raw_acceleration s, last_log s) /\
  refreshed b angular_rate (words (at_reg d) 0x22) (data_raw_angular_rate s) (data_raw_angular_rate s')
    (take 3 (drop 3 (axes s))) (take 3 (drop 3 (axes s'))) /\
  take 3 (axes s') = take 3 (axes s) /\ drop 6 (axes s') = drop 6 (axes s).
Proof.
  intros Hd [Ha Hacc Hg]. destruct b; [|by exists s]. unfold take_rate, lsm6ds3tr_c_angular_rate_raw_get.
  destruct (raw_words LSM6DS3TR_C_OUTX_L_G d Hd) as [-> Hd']; [set_solver|]. destruct (words_typed 0x22 d) as [Hl Hr].
  change LSM6DS3TR_C_OUTX_L_G with 0x22 in *. set (raw := words _ _) in *.
  assert (length (zip_with angular_rate signs raw) = 3%nat) as Hz by (rewrite length_zip_with, Hl; done).
  assert (length (take 3 (axes s)) = 3%nat) as Ht by (rewrite length_take, Ha; done).
  eexists. split; [done|]. cbn [axes imu_found error_message data_raw_acceleration data_raw_angular_rate last_log]. rewrite take_app_length', (drop_app_length' (take 3 _)), take_app_length' by done.
  split; [split; cbn [axes imu_found error_message data_raw_acceleration data_raw_angular_rate last_log]; [rewrite !length_app, Ht, Hz, length_drop, Ha; done|done|done]|].
  repeat split; try done. by rewrite app_assoc, drop_app_length' by (rewrite length_app; lia).
Qed.

(** C37: The tick publishes the samples of the chip.  On a chip out of reset that keeps the register reads of its data
    sheet, a tick reads the status register 0x1E; if bit 0 is set it reads the six bytes from 0x28 on, and
    the raw acceleration becomes their three two's complement words, low byte first; if bit 1 is set it
    reads six bytes from 0x22 on for the raw angular rate; it reads nothing else.  A sensor's three axes
    are then the conversion of just these words, y and z turned round, and they and the raw values are left alone
    without the bit; the last three axes never change, the raw values are 16-bit, and all nine axes are sent once.
    Without a sensor the chip is not touched and the reason is logged at most once a second. *)
Theorem imu_tick_exact (now : Z) (d : D) (s : imu) (Hd : sampling d) (Hs : typed s) :
  exists d' s' out, tick now d s = (d', s', out) /\ typed s' /\ imu_found s' = imu_found s /\
    if imu_found s then
      let acc := Z.testbit (at_reg d 0x1E) 0 in let rate := Z.testbit (at_reg d 0x1E) 1 in
      let d1 := after d 0x1E 1 in let d2 := if acc then after d1 0x28 6 else d1 in
      d' = (if rate then after d2 0x22 6 else d2) /\
      out = [SendAxes (GetAxes s')] /\
      refreshed acc acceleration (words (at_reg d1) 0x28) (data_raw_acceleration s) (data_raw_acceleration s')
        (take 3 (axes s)) (take 3 (axes s')) /\
      refreshed rate angular_rate (words (at_reg d2) 0x22) (data_raw_angular_rate s) (data_raw_angular_rate s')
        (take 3 (drop 3 (axes s))) (take 3 (drop 3 (axes s'))) /\
      drop 6 (axes s') = drop 6 (axes s)
    else d' = d /\ axes s' = axes s /\
      if 1000000 <? u32 (now - last_log s) then out = [LogError (error_message s)] /\ last_log s' = now else out = [] /\ s' = s.
Proof.
  unfold tick, GetAxes. destruct (imu_found s) eqn:Hf; cbn [negb].
  - unfold lsm6ds3tr_c_status_reg_get, read1. destruct (read_out LSM6DS3TR_C_STATUS_REG 1 d Hd) as [-> Hd1]; [set_solver|].
    change (nth 0 (map (at_reg d) (seqZ LSM6DS3TR_C_STATUS_REG (Z.of_nat 1))) 0) with (at_reg d 0x1E).
    change LSM6DS3TR_C_STATUS_REG with 0x1E in *. cbv zeta.
    destruct (take_acceleration_spec (Z.testbit (at_reg d 0x1E) 0) (after d 0x1E 1) s Hd1 Hs) as (s2 & -> & Hd2 & T2 & [= F2 _ G2 _] & R2 & K2).
    set (d2 := if Z.testbit (at_reg d 0x1E) 0 then _ else _) in *.
    destruct (take_rate_spec (Z.testbit (at_reg d 0x1E) 1) d2 s2 Hd2 T2) as (s3 & -> & T3 & [= F3 _ A3 _] & R3 & K3 & L3).
    do 3 eexists. split; [done|]. split; [done|]. split; [congruence|]. rewrite G2, K2 in R3. rewrite A3, K3.
    split_and!; try done. by rewrite L3, <- (drop_drop _ 3 3), K2, drop_drop.
  - destruct (_ <? _); do 3 eexists; (split; [done|]); (split; [by destruct Hs|]); done.
Qed.
End Tick.

(** ** A chip *)
Module DemoChip.

Record chip := mkchip { regs : Z -> Z; countdown : option nat }.

Definition power_up (r : Z) : Z :=
  if r =? LSM6DS3TR_C_WHO_AM_I then 0x6a else if r =? LSM6DS3TR_C_CTRL3_C then 4 else if r =? LSM6DS3TR_C_STATUS_REG then 1 else 0.

Definition read_from (f : Z -> Z) (r : Z) (n : nat) : list Z := map (fun i => u8 (f (r + Z.of_nat i))) (seq 0 n).

Definition chip_transfer (c : chip) (tx : list Z) (n : nat) : chip * list Z :=
  match tx with
  | [a] =>
      let r := a - 128 in
      match countdown c with
      | None => (c, read_from (regs c) r n)
      | Some O => (mkchip power_up None, read_from power_up r n)
      | Some (S k) => (mkchip (regs c) (Some k), replicate n 1)
      end
  | [r; v] =>
      (if (r =? LSM6DS3TR_C_CTRL3_C) && Z.testbit v 0 then mkchip (regs c) (Some 2%nat)
       else mkchip (fun x => if x =? r then v else regs c x) (countdown c), replicate n 0)
  | _ => (c, replicate n 0)
  end.

#[export, refine] Instance chip_spi : SpiDevice chip := { transfer := chip_transfer }.
Proof.
  - intros d tx n. unfold chip_transfer, read_from.
    repeat case_match; cbn; by rewrite ?length_map, ?length_seq, ?length_replicate.
  - intros d tx n. unfold chip_transfer, read_from.
    repeat case_match; cbn; first [apply Forall_replicate; split; lia | apply Forall_map, Forall_true; intros; apply u8_range].
Defined.

Lemma control_read r : control r = true \/ r = LSM6DS3TR_C_WHO_AM_I -> Z.lor r 0x80 - 128 = r.
Proof.
  intros [H| ->]; [|done]. unfold control in H. apply existsb_exists in H as (x & Hx & E). zbool. subst x.
  cbn in Hx. destruct Hx as [<-|[<-|[<-|[<-|[]]]]]; done.
Qed.

#[export, refine] Instance chip_laws : Lsm6Laws chip := {
  reg c r := u8 (regs c r);
  defaults r := u8 (power_up r);
  idle c := countdown c = None;
  resetting n c := countdown c = Some n;
  reset_max := 2
}.
Proof.
  - intros. apply u8_range.
  - done.
  - intros d r Hi Hr. exists d. cbn. rewrite Hi, (control_read r Hr). unfold read_from. cbn. by rewrite Z.add_0_r.
  - intros d r v Hi Hc Hv H3. cbn -[Z.testbit]. destruct (Z.eqb_spec r LSM6DS3TR_C_CTRL3_C) as [E|E]; cbn -[Z.testbit].
    + rewrite H3 by done. cbn. split; [done|]. intros x. destruct (x =? r); [by apply u8_small|done].
    + split; [done|]. intros x. destruct (x =? r); [by apply u8_small|done].
  - intros d v Hi Hv Hb. exists 2%nat. split; [done|]. cbn -[Z.testbit]. by rewrite Hb.
  - intros [|n] d Hn; cbn; rewrite Hn.
    + do 2 eexists. split; [done|]. split; [done|]. done.
    + do 2 eexists. split; [done|]. split; [split; lia|]. done.
Defined.

Definition fresh_chip : chip := mkchip (fun r => if r =? LSM6DS3TR_C_WHO_AM_I then 0x6a else 0xF4) None.
Definition fresh_imu : imu := mkimu false [] [0; 0; 0] [0; 0; 0] (repeat f32_zero 9) 0.

Lemma imu_configured_witness : exists d' s', OnCreate (fun _ => []) 3 fresh_chip fresh_imu = Some (d', s') /\
  imu_found s' = true /\ configured d'.
Proof.
  destruct (imu_configured (fun _ => []) fresh_chip fresh_imu 3) as (d' & s' & E & _ & Hf & Hc); [reflexivity|apply Nat.lt_succ_diag_r|].
  exists d', s'. split; [exact E|]. split; [exact Hf|exact Hc].
Defined.

#[export, refine] Instance chip_output : Lsm6Output chip := {
  at_reg c r := u8 (regs c r);
  sampling c := countdown c = None
}.
Proof.
  - intros. apply u8_range.
  - intros d r n Hi Hr. exists d. split; [|done]. cbn. rewrite Hi. replace (r + 128 - 128) with r by lia. f_equal.
    unfold read_from. apply list_eq. intros i. rewrite !list_lookup_fmap.
    destruct (decide (i < n)%nat).
    + rewrite lookup_seq_lt, lookup_seqZ_lt by lia. done.
    + rewrite lookup_seq_ge, lookup_seqZ_ge by lia. done.
Defined.

(** New samples of both sensors: acceleration 16384, -16384, 0x0102, angular rate 1, -1, 0. *)
Definition sampling_chip : chip := mkchip (fun r =>
  nth (Z.to_nat (r - 0x1E)) [3; 0; 0; 0;  1; 0; 255; 255; 0; 0;  0; 64; 0; 192; 2; 1] 0) None.

Lemma imu_tick_exact_witness : exists d' s' out, tick 5 sampling_chip (with_found fresh_imu true []) = (d', s', out) /\
  data_raw_acceleration s' = [16384; -16384; 258] /\ data_raw_angular_rate s' = [1; -1; 0] /\
  out = [SendAxes (GetAxes s')] /\ length (axes s') = 9%nat /\
  take 3 (axes s') = [acceleration 1 16384; acceleration (-1) (-16384); acceleration (-1) 258].
Proof.
  destruct (imu_tick_exact 5 sampling_chip (with_found fresh_imu true [])) as (d' & s' & out & E & [Ha _ _] & _ & _ & Ho & [A1 A2] & [G1 _] & _).
  - reflexivity.
  - split; cbn; [done|..]; (split; [done|]); repeat constructor; done.
  - exists d', s', out. split; [exact E|]. split; [exact A1|]. split; [exact G1|]. split; [exact Ho|]. split; [exact Ha|exact A2].
Defined.

(** In metres per second squared: one g less the rounding of the chip's scale, 0.061 mg a bit, in
    double precision; the second axis is turned round. *)
Example acceleration_one_g :
  SFleb (f64_div (f64_of_Z 98010) (f64_of_Z 10000)) (acceleration 1 16384) = true /\
  SFleb (acceleration 1 16384) (f64_div (f64_of_Z 98013) (f64_of_Z 10000)) = true /\
  acceleration (-1) (-16384) = acceleration 1 16384.
Proof. vm_compute. repeat split. Qed.
End DemoChip.
