(* ===== verification/Board.v ===== *)
(** * Board: the pins of the board, its robot, and the start of the firmware
    (boards/XCORE/board_utils.cpp, robots/src, src/boot_service_discovery.cpp, src/services.cpp,
    src/main.cpp, src/globals.cpp, src/api.cpp)

    The CRC of the ETL library that keys the pin table is a parameter; so are the file system and
    the sockets.  The start-up is composed of the EEPROM readers, the status LED and the
    identity of the node. *)

From S2P Require Import Prelude Chibi Leds Eeprom Iobuf Mailbox Packet Xio Drive Power.
From Stdlib Require Import Floats.SpecFloat.

(** ** Pins by name *)
Module Pins.

(** Name, letter of the port, pad. *)
Definition table : list (list Z * Z * Z) :=
  [(str:("AGPIO0"), chr:("A"), 0); (str:("RMII_REF_CLK"), chr:("A"), 1); (str:("RMII_MDIO"), chr:("A"), 2);
   (str:("AGPIO1"), chr:("A"), 3); (str:("AGPIO2"), chr:("A"), 4); (str:("SPI1_SCK"), chr:("A"), 5);
   (str:("AGPIO3"), chr:("A"), 6); (str:("RMII_CRS_DV"), chr:("A"), 7); (str:("UART7_RX"), chr:("A"), 8);
   (str:("UART1_TX"), chr:("A"), 9); (str:("UART1_RX"), chr:("A"), 10); (str:("UART4_RX"), chr:("A"), 11);
   (str:("UART4_TX"), chr:("A"), 12); (str:("SWDIO"), chr:("A"), 13); (str:("SWCLK"), chr:("A"), 14);
   (str:("I2S6_WS"), chr:("A"), 15); (str:("AGPIO4"), chr:("B"), 0); (str:("AGPIO5"), chr:("B"), 1);
   (str:("SPI3_MOSI"), chr:("B"), 2); (str:("SPI3_SCK"), chr:("B"), 3); (str:("SPI3_MISO"), chr:("B"), 4);
   (str:("I2S6_SDO"), chr:("B"), 5); (str:("I2C1_SCL"), chr:("B"), 6); (str:("I2C1_SDA"), chr:("B"), 7);
   (str:("FDCAN1_RX"), chr:("B"), 8); (str:("FDCAN1_TX"), chr:("B"), 9); (str:("I2C2_SCL"), chr:("B"), 10);
   (str:("I2C2_SDA"), chr:("B"), 11); (str:("RMII_TXD0"), chr:("B"), 12); (str:("OCTOSPI_IO2"), chr:("B"), 13);
   (str:("SPI2_MISO"), chr:("B"), 14); (str:("SPI2_MOSI"), chr:("B"), 15); (str:("RMII_MDC"), chr:("C"), 1);
   (str:("RMII_RXD0"), chr:("C"), 4); (str:("RMII_RXD1"), chr:("C"), 5); (str:("UART6_TX"), chr:("C"), 6);
   (str:("UART6_RX"), chr:("C"), 7); (str:("HIGH_LEVEL_RUN_PG"), chr:("C"), 13); (str:("HIGH_LEVEL_GLOBAL_EN"), chr:("C"), 14);
   (str:("IMU_CS"), chr:("C"), 15); (str:("SPI2_SCK"), chr:("D"), 3); (str:("GPIO0"), chr:("D"), 4);
   (str:("UART2_TX"), chr:("D"), 5); (str:("UART2_RX"), chr:("D"), 6); (str:("SPI1_MOSI"), chr:("D"), 7);
   (str:("GPIO8"), chr:("D"), 8); (str:("GPIO15"), chr:("D"), 9); (str:("GPIO10"), chr:("D"), 10);
   (str:("GPIO1"), chr:("D"), 11); (str:("I2C4_SCL"), chr:("D"), 12); (str:("I2C4_SDA"), chr:("D"), 13);
   (str:("IMU_INTERRUPT"), chr:("D"), 15); (str:("UART8_RX"), chr:("E"), 0); (str:("UART8_TX"), chr:("E"), 1);
   (str:("UART10_RX"), chr:("E"), 2); (str:("UART10_TX"), chr:("E"), 3); (str:("GPIO2"), chr:("E"), 4);
   (str:("GPIO3"), chr:("E"), 5); (str:("GPIO4"), chr:("E"), 6); (str:("GPIO21"), chr:("E"), 7);
   (str:("GPIO22"), chr:("E"), 8); (str:("GPIO23"), chr:("E"), 9); (str:("GPIO9"), chr:("E"), 10);
   (str:("GPIO20"), chr:("E"), 11); (str:("GPIO19"), chr:("E"), 12); (str:("GPIO18"), chr:("E"), 13);
   (str:("GPIO17"), chr:("E"), 14); (str:("GPIO16"), chr:("E"), 15); (str:("HEARTBEAT_LED_RED"), chr:("F"), 0);
   (str:("HEARTBEAT_LED_GREEN"), chr:("F"), 1); (str:("HEARTBEAT_LED_BLUE"), chr:("F"), 2); (str:("RESET_PHY"), chr:("F"), 3);
   (str:("OCTOSPI_IO3"), chr:("F"), 6); (str:("UART7_TX"), chr:("F"), 7); (str:("OCTOSPI_IO0"), chr:("F"), 8);
   (str:("OCTOSPI_IO1"), chr:("F"), 9); (str:("OCTOSPI_CLK"), chr:("F"), 10); (str:("STATUS_LED_RED"), chr:("F"), 11);
   (str:("STATUS_LED_GREEN"), chr:("F"), 12); (str:("STATUS_LED"), chr:("F"), 12); (str:("STATUS_LED_BLUE"), chr:("F"), 13);
   (str:("GPIO14"), chr:("G"), 2); (str:("GPIO5"), chr:("G"), 3); (str:("GPIO13"), chr:("G"), 4);
   (str:("GPIO12"), chr:("G"), 5); (str:("OCTOSPI_NCS"), chr:("G"), 6); (str:("GPIO6"), chr:("G"), 7);
   (str:("GPIO11"), chr:("G"), 8); (str:("SPI1_MISO"), chr:("G"), 9); (str:("GPIO7"), chr:("G"), 10);
   (str:("RMII_TX_EN"), chr:("G"), 11); (str:("I2S6_SDI"), chr:("G"), 12); (str:("I2S6_CK"), chr:("G"), 13);
   (str:("RMII_TXD1"), chr:("G"), 14); (str:("OSC_IN"), chr:("H"), 0); (str:("OSC_OUT"), chr:("H"), 1)].

Definition ports : list Z :=
  [0x58020000; 0x58020400; 0x58020800; 0x58020C00; 0x58021000; 0x58021400; 0x58021800; 0x58021C00].

Definition port_idx (gpio : Z) : Z := u8 (gpio - chr:("A")).

Definition PAL_NOLINE : Z := 0.
Definition PAL_LINE (port pad : Z) : Z := Z.lor port pad.
Definition PAL_PORT (line : Z) : Z := Z.land line 0xFFFFFFF0.
Definition PAL_PAD (line : Z) : Z := Z.land line 0xF.

Record LineParams := Line { crc : Z; port : Z; pad : Z }.

Section Crc.
Context (crc16 : list Z -> Z).

(** [port] and [pad] are bit fields of four bits. *)
Definition lines : list LineParams :=
  map (fun '(n, g, p) => Line (crc16 n) (Z.land (port_idx g) 15) (Z.land p 15)) table.

(** The static assertion. *)
Fixpoint unique (l : list LineParams) : bool :=
  match l with [] => true | x :: r => forallb (fun y => negb (crc x =? crc y)) r && unique r end.

Fixpoint find_line (l : list LineParams) (c : Z) : option LineParams :=
  match l with [] => None | x :: r => if crc x =? c then Some x else find_line r c end.

Definition GetIoLineByName (name : list Z) : option Z :=
  match find_line lines (crc16 name) with
  | Some x => base ← rd ports (port x); Some (PAL_LINE base (pad x))
  | None => Some PAL_NOLINE
  end.

Lemma find_line_unique l x : unique l = true -> x ∈ l -> find_line l (crc x) = Some x.
Proof.
  induction l as [|y r IH]; cbn; [intros _ H; by apply elem_of_nil in H|]. intros [Hy Hr]%andb_prop [->|Hx]%elem_of_cons.
  - by rewrite Z.eqb_refl.
  - rewrite forallb_forall in Hy. specialize (Hy x (proj1 (list_elem_of_In _ _) Hx)). apply negb_true_iff in Hy.
    rewrite Hy. by apply IH.
Qed.

Lemma find_line_none l c : find_line l c = None <-> forall x, x ∈ l -> crc x <> c.
Proof.
  induction l as [|y r IH]; cbn; [split; [intros _ x H; by apply elem_of_nil in H|done]|].
  destruct (Z.eqb_spec (crc y) c) as [E|E].
  - split; [done|]. intros H. destruct (H y); [by left|done].
  - rewrite IH. split; intros H x; [intros [->|Hx]%elem_of_cons; auto|intros Hx; apply H; by right].
Qed.

(** Every row of the table is a pin of ports A to H. *)
Lemma table_ok : forallb (fun '(_, g, p) => (0 <=? g - chr:("A")) && (g - chr:("A") <? 8) && (0 <=? p) && (p <? 16)) table = true.
Proof. reflexivity. Qed.

Lemma port_ok i b : rd ports i = Some b -> b <> 0 /\ forall p, 0 <= p < 16 -> PAL_PORT (PAL_LINE b p) = b /\ PAL_PAD (PAL_LINE b p) = p.
Proof.
  intros H. unfold PAL_PORT, PAL_PAD, PAL_LINE.
  assert (exists k, b = Z.shiftl k 4 /\ 0 < k < 2 ^ 28) as (k & -> & Hk).
  { assert (forallb (fun b => (b =? Z.shiftl (b / 16) 4) && (0 <? b / 16) && (b / 16 <? 2 ^ 28)) ports = true) as Hp by reflexivity.
    rewrite forallb_forall in Hp. unfold rd in H. destruct (0 <=? i); [|done].
    specialize (Hp b (proj1 (list_elem_of_In _ _) (list_elem_of_lookup_2 _ _ _ H))). zbool. by exists (b / 16). }
  split; [rewrite Z.shiftl_mul_pow2 by lia; lia|]. intros p Hp. split; apply Z.bits_inj'; intros n Hn.
  - rewrite Z.land_spec, Z.lor_spec. change 0xFFFFFFF0 with (Z.shiftl (Z.ones 28) 4). rewrite !Z.shiftl_spec by lia.
    destruct (Z.lt_ge_cases n 4) as [H4|H4].
    + rewrite (Z.testbit_neg_r k), (Z.testbit_neg_r (Z.ones 28)) by lia. apply andb_false_r.
    + rewrite (proj1 (bounded_bits 4 p ltac:(lia)) ltac:(lia) n H4), orb_false_r.
      destruct (Z.lt_ge_cases (n - 4) 28); [by rewrite Z.ones_spec_low, andb_true_r by lia|].
      rewrite (proj1 (bounded_bits 28 k ltac:(lia)) ltac:(lia)) by lia. done.
  - rewrite Z.land_spec, Z.lor_spec. change 0xF with (Z.ones 4). rewrite Z.shiftl_spec by lia.
    destruct (Z.lt_ge_cases n 4) as [H4|H4].
    + rewrite (Z.testbit_neg_r k), Z.ones_spec_low, andb_true_r by lia. done.
    + rewrite Z.ones_spec_high, andb_false_r by lia. symmetry. by apply (proj1 (bounded_bits 4 p ltac:(lia)) ltac:(lia)).
Qed.

Lemma row_line n g p : (n, g, p) ∈ table -> Line (crc16 n) (g - chr:("A")) p ∈ lines /\ 0 <= g - chr:("A") < 8 /\ 0 <= p < 16.
Proof.
  intros Hin. pose proof table_ok as Ht. rewrite forallb_forall in Ht. specialize (Ht _ (proj1 (list_elem_of_In _ _) Hin)). cbn in Ht. zbool.
  split; [|lia]. apply list_elem_of_In, in_map_iff. exists (n, g, p). split; [|by apply list_elem_of_In].
  unfold port_idx. rewrite u8_small by lia. change 15 with (Z.ones 4). rewrite !Z.land_ones, !Z.mod_small by lia. done.
Qed.
End Crc.

(** Pins are found by their names.  For any 16-bit CRC that passes the static assertion of the
    table, every name of the table gives a line whose port and pad are those of its row and which is
    not the invalid line; and a name whose CRC is none of the table's gives the invalid line. *)
Theorem pins_by_name (crc16 : list Z -> Z) (Hu : unique (lines crc16) = true) :
  (forall n g p, (n, g, p) ∈ table ->
     exists l b, GetIoLineByName crc16 n = Some l /\ l <> PAL_NOLINE /\ rd ports (g - chr:("A")) = Some b /\ PAL_PORT l = b /\ PAL_PAD l = p) /\
  (forall n, (forall x, x ∈ lines crc16 -> crc x <> crc16 n) -> GetIoLineByName crc16 n = Some PAL_NOLINE).
Proof.
  split.
  - intros n g p Hin. destruct (row_line crc16 n g p Hin) as (Hl & Hg & Hp). unfold GetIoLineByName.
    rewrite (find_line_unique (lines crc16) _ Hu Hl : find_line _ (crc16 n) = _). cbn [port pad].
    destruct (rd_is_Some ports (g - chr:("A"))) as [b Hb]; [change (Zlen ports) with 8; lia|]. rewrite Hb. cbn [mbind option_bind].
    destruct (port_ok _ _ Hb) as [Hne Hdec]. destruct (Hdec p Hp) as [E1 E2].
    exists (PAL_LINE b p), b. split_and!; try done. intros E. rewrite E in E1. change (PAL_PORT PAL_NOLINE) with 0 in E1. congruence.
  - intros n Hn. unfold GetIoLineByName. by rewrite (proj2 (find_line_none _ _) Hn).
Qed.

(** CRC-16/GENIBUS: polynomial 0x1021, all ones at the start, inverted at the end. *)
Fixpoint crc_bits (n : nat) (c : Z) : Z :=
  match n with
  | O => c
  | S n => crc_bits n (if Z.testbit c 15 then Z.lxor (u16 (2 * c)) 0x1021 else u16 (2 * c))
  end.
Definition genibus (l : list Z) : Z := Z.lxor (fold_left (fun c b => crc_bits 8 (Z.lxor c (Z.shiftl b 8))) l 0xFFFF) 0xFFFF.

Lemma pins_by_name_witness : exists l b, GetIoLineByName genibus (str:("GPIO16")) = Some l /\ l <> PAL_NOLINE /\
  rd ports 4 = Some b /\ PAL_PORT l = b /\ PAL_PAD l = 15.
Proof.
  refine (proj1 (pins_by_name genibus _) (str:("GPIO16")) (chr:("E")) 15 _).
  - vm_compute. reflexivity.
  - apply list_elem_of_In. vm_compute. tauto.
Defined.

(** The UARTs this board enables (mcuconf.h). *)
Definition GetUARTDriverByIndex (index : Z) : option Z :=
  if existsb (Z.eqb index) [1; 2; 4; 6; 7; 8; 10] then Some index else None.
End Pins.

(** ** C strings *)

(** Whether [strncmp] gives 0; [None]: it reads behind one of the arrays. *)
Fixpoint strncmp0 (n : nat) (a b : list Z) : option bool :=
  match n with
  | O => Some true
  | S n =>
      match a, b with
      | x :: a, y :: b => if x =? y then if x =? 0 then Some true else strncmp0 n a b else Some false
      | _, _ => None
      end
  end.

(** The string at the start of an array. *)
Fixpoint cstr (l : list Z) : list Z :=
  match l with [] => [] | x :: r => if x =? 0 then [] else x :: cstr r end.

Lemma strncmp0_sym n : forall a b, strncmp0 n a b = strncmp0 n b a.
Proof.
  induction n as [|n IH]; intros [|x a] [|y b]; try done. cbn. rewrite (Z.eqb_sym y x).
  destruct (Z.eqb_spec x y) as [->|]; [|done]. by rewrite IH.
Qed.

(** Comparison with a literal of fewer than [n] characters, in an array that is long enough or terminated. *)
Lemma strncmp0_spec s : forall n b, Forall (fun x => x <> 0) s -> (length s < n)%nat ->
  ((n <= length b)%nat \/ 0 ∈ b) -> strncmp0 n (s ++ [0]) b = Some (bool_decide (cstr (take n b) = s)).
Proof.
  induction s as [|x s IH]; intros n b Hs Hn Hb; (destruct n as [|n]; [cbn in Hn; lia|]);
    (destruct b as [|y b]; [destruct Hb as [Hb|Hb]; [cbn in Hb; lia|by apply elem_of_nil in Hb]|]); cbn.
  - destruct y; cbn; first [by rewrite bool_decide_true|by rewrite bool_decide_false].
  - apply Forall_cons in Hs as [Hx Hs]. destruct (Z.eqb_spec x y) as [->|Hne].
    + rewrite (proj2 (Z.eqb_neq y 0)) by done. rewrite IH; [|done|cbn in Hn; lia|].
      * f_equal. apply bool_decide_ext. split; [intros ->; done|intros [= ->]; done].
      * destruct Hb as [Hb|[Hb|Hb]%elem_of_cons]; [left; cbn in Hb; lia|done|by right].
    + rewrite bool_decide_false; [done|]. destruct (y =? 0); intros [=]. congruence.
Qed.

(** ** The robot (robots/src/xbot_robot.cpp) *)
Module Robot.

Definition BOARD_NAME : list Z := str:("hw-xbot-mainboard").

Definition version_major (info : list Z) : option Z := info !! 33%nat.

(** On the record [carrier_board_info] of 39 bytes. *)
Definition IsHardwareSupported (info : list Z) : option bool :=
  same ← strncmp0 32 (BOARD_NAME ++ [0]) (Eeprom.board_id info);
  v ← version_major info;
  Some (same && (v =? 0)).

Lemma supported_spec info : length info = Eeprom.sizeof_board_info ->
  exists v, info !! 33%nat = Some v /\
    IsHardwareSupported info = Some (bool_decide (cstr (Eeprom.board_id info) = BOARD_NAME) && (v =? 0)).
Proof.
  intros Hl. unfold Eeprom.sizeof_board_info in Hl. destruct (lookup_lt_is_Some_2 info 33) as [v Hv]; [lia|]. exists v. split; [done|].
  unfold IsHardwareSupported, version_major. rewrite strncmp0_spec.
  - cbn [mbind option_bind]. rewrite Hv. cbn. rewrite firstn_all2; [done|]. unfold Eeprom.board_id. rewrite length_take. lia.
  - apply Forall_forall. intros x Hx. assert (forallb (fun x => negb (x =? 0)) BOARD_NAME = true) as Hb by reflexivity.
    rewrite forallb_forall in Hb. specialize (Hb x (proj1 (list_elem_of_In _ _) Hx)). by zbool.
  - cbn. lia.
  - left. unfold Eeprom.board_id. rewrite length_take, length_drop. lia.
Qed.
End Robot.

(** ** Discovery and reset over the network (src/boot_service_discovery.cpp) *)
Module Discovery.

Definition BUFFER : Z := 100.

Definition ADVERTISEMENT : list Z := str:("BOARD_ADVERTISEMENT:xcore-boot;application-mode").

(** [InitBootloaderServiceDiscovery]: the advertisement in its zeroed buffer. *)
Definition InitBootloaderServiceDiscovery : option (list Z) := blit (replicate 100 0) 0 (take 99 ADVERTISEMENT).

Inductive reaction := Nothing | SystemReset | Advertise (msg : list Z).

(** A round of the thread: the request buffer as it is, what [recvfrom] delivers ([None]: error or
    time-out), the advertisement. *)
Definition multicast_sender_thread (adv buf : list Z) (recv : option (list Z)) : option (list Z * reaction) :=
  match recv with
  | None => Some (buf, Nothing)
  | Some data =>
      let data := take 99 data in
      let received := Zlen data in
      buf ← blit buf 0 data;
      if 0 <? received then
        buf ← wr buf received 0;
        reset ← strncmp0 100 buf (str:("RESET") ++ [0]);
        if (reset : bool) then Some (buf, SystemReset)
        else
          discover ← strncmp0 100 buf (str:("DISCOVER_REQUEST") ++ [0]);
          Some (buf, if (discover : bool) then Advertise (cstr adv) else Nothing)
      else Some (buf, Nothing)
  end.

Definition reacts (data : list Z) : reaction :=
  if bool_decide (cstr data = str:("RESET")) then SystemReset
  else if bool_decide (cstr data = str:("DISCOVER_REQUEST")) then Advertise ADVERTISEMENT else Nothing.

Lemma cstr_terminated d r n : (length d < n)%nat -> cstr (take n (d ++ 0 :: r)) = cstr d.
Proof.
  revert n. induction d as [|x d IH]; intros [|n] H; cbn in *; try lia; [done|]. rewrite IH by lia. done.
Qed.

(** The board resets or advertises itself on exactly the two requests.  Whatever is left in
    the request buffer from earlier datagrams, a datagram makes the thread reset the board exactly if
    the text it starts with - up to a zero byte or its end, cut to 99 bytes - is RESET, and answer
    with the advertisement exactly if it is DISCOVER_REQUEST; no access leaves the buffers. *)
Theorem discovery_exact (buf data : list Z) (Hb : Zlen buf = BUFFER) :
  exists adv buf', InitBootloaderServiceDiscovery = Some adv /\ Zlen adv = BUFFER /\
    multicast_sender_thread adv buf (Some data) = Some (buf', reacts (take 99 data)) /\ Zlen buf' = BUFFER.
Proof.
  eexists (ADVERTISEMENT ++ replicate 53 0). set (adv := ADVERTISEMENT ++ _). unfold multicast_sender_thread.
  set (d := take 99 data). assert (Zlen d <= 99) as Hd by (unfold d, Zlen; rewrite length_take; lia). clearbody d.
  pose proof (Zlen_nonneg d). unfold BUFFER in *. rewrite blit_start by lia. cbn [mbind option_bind].
  destruct (Z.ltb_spec 0 (Zlen d)) as [Hpos|Hz].
  - assert (exists y r, drop (length d) buf = y :: r) as (y & r & Er).
    { destruct (drop (length d) buf) eqn:E; [|by eauto]. apply (f_equal length) in E. rewrite length_drop in E. unfold Zlen in *. cbn in E. lia. }
    rewrite Er, wr_here. cbn [mbind option_bind].
    assert (Zlen (d ++ 0 :: r) = 100) as Hlen.
    { apply (f_equal Zlen) in Er. unfold Zlen in *. rewrite length_drop in Er. cbn in Er. rewrite length_app. cbn. lia. }
    assert (forall s, Forall (fun x => x <> 0) s -> (length s < 100)%nat ->
      strncmp0 100 (d ++ 0 :: r) (s ++ [0]) = Some (bool_decide (cstr d = s))) as Hcmp.
    { intros s Hs Hl. rewrite strncmp0_sym, strncmp0_spec; [|done|done|right; apply elem_of_app; right; by left].
      rewrite cstr_terminated; [done|]. unfold Zlen in *. lia. }
    rewrite !Hcmp by (cbn; lia || (repeat constructor; lia)). cbn [mbind option_bind]. unfold reacts.
    destruct (bool_decide (cstr d = _)); [by eexists|].
    destruct (bool_decide (cstr d = _)); cbn [mbind option_bind]; by eexists.
  - assert (d = []) as -> by (destruct d; [done|rewrite Zlen_cons in Hz; pose proof (Zlen_nonneg d); lia]).
    eexists. split; [done|]. split; [done|]. split; [done|]. cbn. done.
Qed.

Lemma discovery_exact_witness : exists adv buf', InitBootloaderServiceDiscovery = Some adv /\ Zlen adv = BUFFER /\
  multicast_sender_thread adv (replicate 100 7) (Some (str:("RESET"))) = Some (buf', SystemReset) /\ Zlen buf' = BUFFER.
Proof. apply (discovery_exact (replicate 100 7) (str:("RESET"))). reflexivity. Defined.
End Discovery.

(** ** The platform of the robot (xbot_robot.cpp, InitPlatform) *)
Module Platform.

(** A line by its name in board.h. *)
Definition line_of (name : list Z) : option Z :=
  match filter (fun '(n, _, _) => n = name) Pins.table with
  | (_, g, p) :: _ => base ← rd Pins.ports (Pins.port_idx g); Some (Pins.PAL_LINE base p)
  | [] => None
  end.

Inductive line_mode := PAL_MODE_ALTERNATE (n : Z) | PAL_MODE_OUTPUT_PUSHPULL | PAL_MODE_INPUT.
Inductive pwm_timer := PWMD1 | PWMD3.
#[export] Instance pwm_timer_eq_dec : EqDecision pwm_timer.
Proof. solve_decision. Defined.
Inductive side := Left | Right.

(** The calls of the function; the lines are evaluated. *)
Inductive platform_call :=
| palSetLineMode (l : Z) (m : line_mode)
| pwmStart (t : pwm_timer) (active_low : list Z) (period frequency : Z)
| pwmEnableChannel (t : pwm_timer) (channel width : Z)
| SetPWM (s : side) (t : pwm_timer) (c1 c2 : Z)
| SetEncoder (s : side) (a b : Z)
| SetDrivers (l r : side)
| ChargerSetI2C (bus : Z)
| PowerSetDriver.

Definition MOTOR1_PWM := PWMD1.
Definition MOTOR1_PWM_CHANNEL_1 : Z := 1.
Definition MOTOR1_PWM_CHANNEL_2 : Z := 2.
Definition MOTOR2_PWM := PWMD3.
Definition MOTOR2_PWM_CHANNEL_1 : Z := 0.
Definition MOTOR2_PWM_CHANNEL_2 : Z := 1.

(** [mem]: both allocations gave memory; [None]: the assertion fails or a name is no line. *)
Definition InitPlatform (mem : bool) : option (list platform_call) :=
  if negb mem then None else
  m1p1 ← line_of (str:("UART1_RX")); m1p2 ← line_of (str:("UART1_TX"));
  m2p1 ← line_of (str:("UART6_RX")); m2p2 ← line_of (str:("UART6_TX"));
  m1a ← line_of (str:("GPIO16")); m1b ← line_of (str:("GPIO17"));
  m2a ← line_of (str:("GPIO18")); m2b ← line_of (str:("GPIO19"));
  p1 ← line_of (str:("GPIO8")); p2 ← line_of (str:("GPIO9"));
  a1e ← line_of (str:("GPIO10")); a1s ← line_of (str:("GPIO11"));
  a2e ← line_of (str:("GPIO12")); a2s ← line_of (str:("GPIO13"));
  a3e ← line_of (str:("GPIO14")); a3s ← line_of (str:("GPIO15"));
  let period := 0xFFF * 4 in
  Some
    ([palSetLineMode m1p1 (PAL_MODE_ALTERNATE 1); palSetLineMode m1p2 (PAL_MODE_ALTERNATE 1);
      palSetLineMode m2p1 (PAL_MODE_ALTERNATE 2); palSetLineMode m2p2 (PAL_MODE_ALTERNATE 2);
      pwmStart MOTOR1_PWM [MOTOR1_PWM_CHANNEL_1; MOTOR1_PWM_CHANNEL_2] period 275000000] ++
     (if decide (MOTOR1_PWM = MOTOR2_PWM) then []
      else [pwmStart MOTOR2_PWM [MOTOR2_PWM_CHANNEL_1; MOTOR2_PWM_CHANNEL_2] period 275000000]) ++
     [pwmEnableChannel MOTOR1_PWM MOTOR1_PWM_CHANNEL_1 0; pwmEnableChannel MOTOR1_PWM MOTOR1_PWM_CHANNEL_2 0;
      pwmEnableChannel MOTOR2_PWM MOTOR2_PWM_CHANNEL_1 0; pwmEnableChannel MOTOR2_PWM MOTOR2_PWM_CHANNEL_2 0;
      SetPWM Left MOTOR1_PWM MOTOR1_PWM_CHANNEL_1 MOTOR1_PWM_CHANNEL_2; SetEncoder Left m1a m1b;
      SetPWM Right MOTOR2_PWM MOTOR2_PWM_CHANNEL_1 MOTOR2_PWM_CHANNEL_2; SetEncoder Right m2a m2b;
      SetDrivers Left Right;
      palSetLineMode p1 PAL_MODE_OUTPUT_PUSHPULL; palSetLineMode p2 PAL_MODE_OUTPUT_PUSHPULL;
      palSetLineMode a1e PAL_MODE_OUTPUT_PUSHPULL; palSetLineMode a1s PAL_MODE_INPUT;
      palSetLineMode a2e PAL_MODE_OUTPUT_PUSHPULL; palSetLineMode a2s PAL_MODE_INPUT;
      palSetLineMode a3e PAL_MODE_OUTPUT_PUSHPULL; palSetLineMode a3s PAL_MODE_INPUT;
      ChargerSetI2C 1; PowerSetDriver]).

(** The lines a call claims, and the outputs of the timers it drives. *)
Definition claims (c : platform_call) : list Z :=
  match c with palSetLineMode l _ => [l] | SetEncoder _ a b => [a; b] | _ => [] end.

Definition drives (c : platform_call) : list (pwm_timer * Z) :=
  match c with SetPWM _ t a b => [(t, a); (t, b)] | _ => [] end.

(** Every channel a motor driver is given already runs with width 0 on a started timer, whose
    period is the one the duty cycles are scaled with. *)
Definition starts (ch : pwm_timer * Z) (c : platform_call) : bool :=
  match c with pwmStart t low p _ => bool_decide (t = ch.1) && existsb (Z.eqb ch.2) low && (p =? PERIOD) | _ => false end.
Definition enables (ch : pwm_timer * Z) (c : platform_call) : bool :=
  match c with pwmEnableChannel t n w => bool_decide (t = ch.1) && (n =? ch.2) && (w =? 0) | _ => false end.

Fixpoint prepared (before rest : list platform_call) : bool :=
  match rest with
  | [] => true
  | c :: rest => forallb (fun ch => existsb (starts ch) before && existsb (enables ch) before) (drives c) && prepared (before ++ [c]) rest
  end.

(** The platform is set up without conflicts: sixteen different lines are claimed, the two motors drive
    four different channels, and each of these stands still when the driver gets it. *)
Lemma platform_sound : exists calls, InitPlatform true = Some calls /\
  NoDup (calls ≫= claims) /\ length (calls ≫= claims) = 16%nat /\
  NoDup (calls ≫= drives) /\ length (calls ≫= drives) = 4%nat /\ prepared [] calls = true.
Proof.
  eexists. split; [vm_compute; reflexivity|]. split; [apply (bool_decide_unpack _); vm_compute; exact I|].
  split; [reflexivity|]. split; [apply (bool_decide_unpack _); vm_compute; exact I|]. split; reflexivity.
Qed.
End Platform.

(** ** Start of the firmware (main.cpp, globals.cpp, services.cpp) *)
Module Boot.
Import StatusLed.

Inductive service := EMERGENCY | IMU | POWER | DIFF_DRIVE | INPUT.
#[export] Instance service_eq_dec : EqDecision service.
Proof. solve_decision. Defined.

(** What the start-up does to the rest of the system, in its order. *)
Inductive action :=
| LwipInit (mac : list Z)
| StartDiscovery (adv : list Z)
| NodeId (id : list Z)
| StartLogging
| MountFS (ok : bool)
| StartRestAPI
| SetUpPlatform (calls : list Platform.platform_call)
| StartIo
| RegisterInputDriver (name : list Z)
| StartService (s : service).

(** How the start-up ends. *)
Inductive outcome := No_mac | No_node | No_fs | Unsupported | Dispatching.
#[export] Instance outcome_eq_dec : EqDecision outcome.
Proof. solve_decision. Defined.

Section Boot.
Context {W : Type} `{Bus : I2CBus W}.

Record world := mkworld {
  eeprom : @Eeprom.state W;
  board_info : list Z;
  carrier_board_info : list Z;
  heartbeat : Heartbeat.state;
  led : StatusLed.state;
  did : list action }.

Definition InitGlobals (w : world) : option world :=
  '(_, b, e) ← Eeprom.ID_EEPROM_GetBoardInfo (board_info w) (eeprom w);
  '(_, c, e) ← Eeprom.ID_EEPROM_GetCarrierBoardInfo (carrier_board_info w) e;
  Some (mkworld e b c (heartbeat w) (led w) (did w)).

Definition acts (w : world) (l : list action) : world :=
  mkworld (eeprom w) (board_info w) (carrier_board_info w) (heartbeat w) (led w) (did w ++ l).

Definition show (w : world) (f : StatusLed.state -> StatusLed.state) : world :=
  mkworld (eeprom w) (board_info w) (carrier_board_info w) (heartbeat w) (f (led w)) (did w).

Definition NeedsService (s : service) : bool := true.

Definition StartServices (debug : bool) : list action :=
  let start_if_needed s := if NeedsService s then [StartService s] else [] in
  (if NeedsService INPUT then
     RegisterInputDriver (str:("gpio")) :: (if debug then [RegisterInputDriver (str:("simulated"))] else [])
   else []) ++
  start_if_needed EMERGENCY ++ start_if_needed IMU ++ start_if_needed POWER ++ start_if_needed DIFF_DRIVE ++ start_if_needed INPUT.

(** [main] up to its last loop: the dispatch loop, or the loop of the error it met.  [node_id] is
    the default argument of [initSystem], [fs] what [InitFS] returns, [debug] whether it is a debug build, [mem]
    whether there is memory; [None]: an assertion fails or the bus is never released. *)
Definition main (node_id : Z) (fs mem debug : bool) (w : world) : option (outcome * world) :=
  w ← InitGlobals w;
  let w := mkworld (eeprom w) (board_info w) (carrier_board_info w) (Heartbeat.InitHeartbeat (heartbeat w)) (led w) (did w) in
  let w := show w InitStatusLed in
  let w := show w (SetStatusLedMode LED_MODE_ON) in
  let w := show w (SetStatusLedColor RED) in
  '(ok, mac, e) ← Eeprom.ID_EEPROM_GetMacAddress (replicate 6 0) (eeprom w);
  let w := mkworld e (board_info w) (carrier_board_info w) (heartbeat w) (led w) (did w) in
  if negb ok then Some (No_mac, w)
  else
    adv ← Discovery.InitBootloaderServiceDiscovery;
    let w := acts w [LwipInit mac; StartDiscovery adv] in
    match Xio.initSystem node_id with
    | None => Some (No_node, w)
    | Some id =>
        let w := acts w [NodeId id; StartLogging; MountFS fs] in
        if negb fs then Some (No_fs, show (show w (SetStatusLedMode LED_MODE_BLINK_SLOW)) (SetStatusLedColor RED))
        else
          let w := acts w [StartRestAPI] in
          ok ← Robot.IsHardwareSupported (carrier_board_info w);
          if negb (ok : bool) then
            Some (Unsupported, show (show w (SetStatusLedMode LED_MODE_BLINK_FAST)) (SetStatusLedColor RED))
          else
            calls ← Platform.InitPlatform mem;
            let w := acts w ([SetUpPlatform calls; StartIo] ++ StartServices debug) in
            Some (Dispatching, show w (SetStatusLedColor GREEN))
    end.

(** *** What the start-up promises *)

(** A carrier board of this firmware: a record with a matching checksum that names the board, version 0. *)
Definition own_carrier (info : list Z) : Prop :=
  Eeprom.checksum (take 37 info) = Eeprom.stored_checksum info /\
  cstr (Eeprom.board_id info) = Robot.BOARD_NAME /\ info !! 33%nat = Some 0.

Definition verdict (mac_ok : bool) (node_id : Z) (fs : bool) (info : list Z) : outcome :=
  if negb mac_ok then No_mac
  else if negb (node_id =? 0) && (u16 node_id =? 0) then No_node
  else if negb fs then No_fs
  else if bool_decide (own_carrier info) then Dispatching else Unsupported.

(** The light of the status LED. *)
Definition indication (o : outcome) : LED_MODE * LED_COLOR :=
  match o with
  | No_mac | No_node => (LED_MODE_ON, RED)
  | No_fs => (LED_MODE_BLINK_SLOW, RED)
  | Unsupported => (LED_MODE_BLINK_FAST, RED)
  | Dispatching => (LED_MODE_ON, GREEN)
  end.

(** The actions that touch the motors, the charger or the services. *)
Definition operates (a : action) : bool :=
  match a with SetUpPlatform _ | StartIo | RegisterInputDriver _ | StartService _ => true | _ => false end.

(** Everything the start-up has done at each of its ends, beside the LEDs and the EEPROMs. *)
Definition done_at (o : outcome) (mac adv id : list Z) (calls : list Platform.platform_call) (debug : bool) : list action :=
  let net := [LwipInit mac; StartDiscovery adv] in
  let node (fs : bool) := net ++ [NodeId id; StartLogging; MountFS fs] in
  match o with
  | No_mac => []
  | No_node => net
  | No_fs => node false
  | Unsupported => node true ++ [StartRestAPI]
  | Dispatching => node true ++ [StartRestAPI; SetUpPlatform calls; StartIo] ++ StartServices debug
  end.

Definition started (l : list action) : list service :=
  omap (fun a => match a with StartService s => Some s | _ => None end) l.

Lemma supported_own info : Eeprom.trusted info -> length info = Eeprom.sizeof_board_info ->
  Robot.IsHardwareSupported info = Some (bool_decide (own_carrier info)).
Proof.
  intros Ht Hl. destruct (Robot.supported_spec info Hl) as (v & Hv & ->). f_equal.
  unfold own_carrier. rewrite Hv. destruct Ht as [Ht| ->].
  - destruct (Z.eqb_spec v 0) as [->|Hne]; [rewrite andb_true_r|rewrite andb_false_r; symmetry; apply bool_decide_false; naive_solver].
    apply bool_decide_ext. naive_solver.
  - symmetry. rewrite bool_decide_false by (intros (_ & H & _); discriminate H). done.
Qed.

Lemma info_read addr reg buf (e : @Eeprom.state W) : length buf = Eeprom.sizeof_board_info ->
  let '(ok, buf', e') := Eeprom.transmit addr buf (Eeprom.set_tx reg e) in
  length (Eeprom.validate ok buf') = Eeprom.sizeof_board_info /\ Eeprom.trusted (Eeprom.validate ok buf') /\
  Eeprom.i2c4_rx_buffer e' = Eeprom.i2c4_rx_buffer e.
Proof.
  intros Hl. destruct (Eeprom.transmit _ _ _) as [[ok b] e'] eqn:E. split_and!.
  - apply Eeprom.validate_len. by rewrite (Eeprom.transmit_len _ _ _ _ _ _ E).
  - apply Eeprom.validate_trusted.
  - unfold Eeprom.transmit in E. destruct (i2cMasterTransmit _ _ _ _) as [[m x] d]. by simplify_eq.
Qed.

Definition powered_on (w : world) : Prop :=
  Eeprom.bus_taken (eeprom w) = false /\ length (Eeprom.i2c4_rx_buffer (eeprom w)) = 256%nat /\
  length (board_info w) = Eeprom.sizeof_board_info /\ length (carrier_board_info w) = Eeprom.sizeof_board_info /\ did w = [].

Lemma globals_trusted (w : world) : powered_on w ->
  exists w', InitGlobals w = Some w' /\ powered_on w' /\ Eeprom.trusted (carrier_board_info w').
Proof.
  intros (Hb & Hr & Hl1 & Hl2 & Hd).
  unfold InitGlobals, Eeprom.ID_EEPROM_GetBoardInfo, Eeprom.ID_EEPROM_GetCarrierBoardInfo, Eeprom.i2cAcquireBus.
  rewrite Hb. cbn [mbind option_bind].
  match goal with |- context [Eeprom.transmit ?a _ (Eeprom.set_tx ?r ?e)] => pose proof (info_read a r _ e Hl1) as H1 end.
  destruct (Eeprom.transmit _ _ _) as [[ok1 b] e1]. destruct H1 as (H1 & _ & Hr1). cbn [mbind option_bind Eeprom.i2cReleaseBus Eeprom.bus_taken].
  match goal with |- context [Eeprom.transmit ?a _ (Eeprom.set_tx ?r ?e)] => pose proof (info_read a r _ e Hl2) as H2 end.
  destruct (Eeprom.transmit _ _ _) as [[ok2 c] e2]. destruct H2 as (H2 & Ht & Hr2). cbn in Hr1, Hr2. cbn [mbind option_bind].
  eexists. split; [done|]. split; [|done]. unfold powered_on. cbn. rewrite Hr2. cbn. rewrite Hr1. done.
Qed.

Lemma mac_read (e : @Eeprom.state W) : Eeprom.bus_taken e = false ->
  exists ok mac e', Eeprom.ID_EEPROM_GetMacAddress (replicate 6 0) e = Some (ok, mac, e').
Proof.
  intros Hb. unfold Eeprom.ID_EEPROM_GetMacAddress, Eeprom.i2cAcquireBus. rewrite Hb. cbn [mbind option_bind].
  destruct (_ <=? 256) eqn:E; [|done]. destruct (i2cMasterTransmit _ _ _ _) as [[m got] d]. eauto.
Qed.

(** C3: The motors, the charger and the services start only on the board the code tests for.
    From power-on, whatever the two EEPROMs, the bus, the file system and the node identifier do, the
    start-up reaches the state [verdict] names: the platform is set up and the services are started exactly if
    the MAC address could be read, the node has an identifier, the file system is mounted and the
    carrier board's record has a matching checksum and names hw-xbot-mainboard with major version 0 (the test of
    the code; the comment above it speaks of YardForce 1.x.x boards).  Otherwise neither the platform nor the IO nor a
    service is started, and what is started before that - network stack, discovery, logging, file system, web
    interface - is exactly [done_at] of the outcome.  The emergency service starts first, before the drive, and the
    status LED shows the outcome.  Without memory for the two PWM configurations, the assertion of the set-up
    fails before any line of the platform is touched, and the other outcomes are the same. *)
Theorem startup_gated (w : world) (node_id : Z) (fs debug : bool) (Hw : powered_on w) (Hn : 0 <= node_id < 2 ^ 32) :
  exists w1 mac_ok mac e, InitGlobals w = Some w1 /\
    Eeprom.ID_EEPROM_GetMacAddress (replicate 6 0) (eeprom w1) = Some (mac_ok, mac, e) /\
    let o := verdict mac_ok node_id fs (carrier_board_info w1) in
    exists w', main node_id fs true debug w = Some (o, w') /\
      main node_id fs false debug w = (if decide (o = Dispatching) then None else Some (o, w')) /\
      (current_mode (led w'), current_color (led w')) = indication o /\
      (exists adv id calls, did w' = done_at o mac adv id calls debug) /\
      existsb operates (did w') = bool_decide (o = Dispatching) /\
      started (did w') = if decide (o = Dispatching) then [EMERGENCY; IMU; POWER; DIFF_DRIVE; INPUT] else [].
Proof.
  destruct (globals_trusted w Hw) as (w1 & E1 & (Hb & Hr & Hl1 & Hl2 & Hd) & Ht).
  destruct (mac_read (eeprom w1) Hb) as (mac_ok & mac & e & E2). exists w1, mac_ok, mac, e. split; [done|]. split; [done|].
  unfold main, verdict. rewrite E1. cbn [mbind option_bind eeprom show]. rewrite E2. cbn [mbind option_bind].
  change Discovery.InitBootloaderServiceDiscovery with (Some (Discovery.ADVERTISEMENT ++ replicate 53 0)). cbn [mbind option_bind].
  set (adv := Discovery.ADVERTISEMENT ++ replicate 53 0). clearbody adv.
  destruct mac_ok; cbn [negb]; [|eexists; split_and!; [done..|exists adv, [], []; exact Hd|by cbn; rewrite Hd|by cbn; rewrite Hd]].
  rewrite initSystem_spec by done.
  set (id := if node_id =? 0 then _ else _).
  assert (exists i, id = if negb (node_id =? 0) && (u16 node_id =? 0) then None else Some i) as [i Ei].
  { unfold id. destruct (node_id =? 0), (u16 node_id =? 0); cbn; eauto. }
  clearbody id. destruct (negb (node_id =? 0) && (u16 node_id =? 0)); rewrite Ei;
    [eexists; split_and!; [done..|exists adv, [], []; cbn; by rewrite Hd|by cbn; rewrite Hd|by cbn; rewrite Hd]|].
  destruct fs; cbn [negb];
    [|eexists; split_and!; [done..|exists adv, i, []; cbn; by rewrite Hd|by cbn; rewrite Hd|by cbn; rewrite Hd]].
  cbn [carrier_board_info acts show]. rewrite (supported_own _ Ht Hl2). cbn [mbind option_bind].
  destruct (bool_decide (own_carrier _)); cbn [negb];
    [|eexists; split_and!; [done..|exists adv, i, []; cbn; by rewrite Hd|by cbn; rewrite Hd|by cbn; rewrite Hd]].
  destruct Platform.platform_sound as (calls & -> & _). cbn [mbind option_bind].
  eexists. split_and!; [done..|exists adv, i, calls; cbn; by rewrite Hd|cbn; by rewrite Hd|cbn; rewrite Hd; by destruct debug].
Qed.
End Boot.

(** Both EEPROMs answer; the carrier board is the supported one. *)
Definition demo_record : list Z :=
  let data := [1] ++ Robot.BOARD_NAME ++ replicate 15 0 ++ [0; 1; 2; 0] in
  data ++ [Eeprom.checksum data mod 256; Eeprom.checksum data / 256].

#[refine] Instance demo_bus : I2CBus unit := {
  i2cMasterTransmit w a tx rx :=
    (Eeprom.MSG_OK, if a =? 80 then take (length rx) (demo_record ++ replicate (length rx) 0) else map (fun _ => 66) rx, w)
}.
Proof.
  - intros w a tx rx. cbn [fst snd]. destruct (a =? 80); [|by rewrite length_map]. rewrite length_take, length_app, length_replicate. lia.
  - intros w a tx rx _. cbn [fst snd]. destruct (a =? 80); [|by apply Forall_map, Forall_true; intros x; split].
    apply Forall_take, Forall_app. split; [|by apply Forall_replicate; split].
    apply Forall_forall. intros x Hx. assert (forallb (fun b => (0 <=? b) && (b <? 256)) demo_record = true) as H by reflexivity.
    rewrite forallb_forall in H. specialize (H x (proj1 (list_elem_of_In _ _) Hx)). zbool. split; lia.
Defined.

Definition demo_world : @world unit :=
  mkworld (Eeprom.mk false [0] (replicate 256 0) tt) (replicate 39 0) (replicate 39 0)
    (Heartbeat.mk PAL_HIGH PAL_HIGH 0 0 None) (StatusLed.mk PAL_HIGH PAL_HIGH LED_MODE_OFF RED 0 None) [].

Lemma startup_gated_witness : exists w', main 0 true true false demo_world = Some (Dispatching, w') /\
  current_color (led w') = GREEN /\ started (did w') = [EMERGENCY; IMU; POWER; DIFF_DRIVE; INPUT].
Proof.
  destruct (startup_gated demo_world 0 true false) as (w1 & ok & mac & e & E1 & E2 & w' & Em & _ & Hl & _ & _ & Hs); [by repeat split|lia|].
  assert (verdict ok 0 true (carrier_board_info w1) = Dispatching) as Ev.
  { vm_compute in E1. injection E1 as <-. vm_compute in E2. injection E2 as <- _ _. vm_compute. reflexivity. }
  rewrite Ev in *. exists w'. cbn in Hl, Hs. injection Hl as _ Hc. split; [exact Em|]. split; [exact Hc|exact Hs].
Defined.
End Boot.

(** ** The state the web interface shows (src/api.cpp) *)
Module WebState.

(** The floats of the service widen to double without a change. *)
Record state := mkstate {
  ros_online : bool; adapter_current : spec_float; charger_state : list Z; adapter_volts : spec_float;
  battery_current : spec_float; battery_volts : spec_float; battery_level : Z }.

(** Conversion of a float to int: truncation; no value outside its range. *)
Definition i32_of_f32 (x : spec_float) : option Z :=
  match x with
  | S754_zero _ => Some 0
  | S754_finite s m e =>
      let v := if 0 <=? e then Z.pos m * 2 ^ e else Z.pos m / 2 ^ (- e) in
      let v := if s then - v else v in
      if (- 2 ^ 31 <=? v) && (v <? 2 ^ 31) then Some v else None
  | _ => None
  end.

(** The two static variables. *)
Record cache := mkcache { last_request : Z; cached : state }.

Definition initial : cache :=
  mkcache 0 (mkstate false f32_zero (replicate 20 0) f32_zero f32_zero f32_zero 0).

(** What is given to the caller, and the variables afterwards. *)
Definition glue_get_state {C} (p : Power.power C) (now : Z) (c : cache) : option (state * cache) :=
  if Time.chVTTimeElapsedSinceX now (last_request c) <? Time.TIME_MS2I 100 then Some (cached c, c)
  else
    level ← i32_of_f32 (f32_mul (Power.battery_percent p) (f32_of_Z 100));
    text ← strncpy (charger_state (cached c)) (Power.GetChargerStatus p) 20;
    let s := mkstate false (Power.adapter_current p) text (Power.adapter_volts p) (Power.charge_current p)
               (Power.battery_volts p) level in
    Some (s, mkcache now s).

(** One poll of the thread of the web interface: whether it refreshes the page, and [last_ui_refresh]. *)
Definition RestApiThreadFunc (now last_ui_refresh : Z) : bool * Z :=
  (Time.TIME_S2I 1 <? Time.chVTTimeElapsedSinceX now last_ui_refresh, last_ui_refresh).

(** The variable is never written: the page is refreshed at every poll after the first second, not
    once a second. *)
Example refresh_every_poll : snd (RestApiThreadFunc 50000 0) = 0 /\ fst (RestApiThreadFunc 50000 0) = true /\
  fst (RestApiThreadFunc 50001 0) = true.
Proof. repeat split. Qed.

Lemma status_short {C} (p : Power.power C) : (length (Power.GetChargerStatus p) < 20)%nat.
Proof. unfold Power.GetChargerStatus. destruct (Power.configured p); [destruct (Power.charger_status p)|]; cbn; lia. Qed.

Lemma status_copied {C} (p : Power.power C) (dst : list Z) : length dst = 20%nat ->
  strncpy dst (Power.GetChargerStatus p) 20 =
    Some (Power.GetChargerStatus p ++ replicate (20 - length (Power.GetChargerStatus p)) 0).
Proof.
  intros Hd. pose proof (status_short p). unfold strncpy. change (Z.to_nat 20) with 20%nat.
  rewrite take_app_ge, take_replicate, Nat.min_l by lia.
  rewrite blit_start by (unfold Zlen; rewrite length_app, length_replicate; lia).
  f_equal. rewrite drop_ge; [by rewrite app_nil_r|]. rewrite length_app, length_replicate. lia.
Qed.

(** A run of requests, each at its time with the state of the power service. *)
Fixpoint requests {C} (rs : list (Z * Power.power C)) (c : cache) : option (list state * cache) :=
  match rs with
  | [] => Some ([], c)
  | (now, p) :: rs =>
      '(s, c) ← glue_get_state p now c;
      '(ss, c) ← requests rs c;
      Some (s :: ss, c)
  end.

(** A state that can be printed: its charger text ends within its array. *)
Definition printable (s : state) : Prop := length (charger_state s) = 20%nat /\ 0 ∈ charger_state s.

Lemma get_state_spec {C} (p : Power.power C) now c l : printable (cached c) ->
  i32_of_f32 (f32_mul (Power.battery_percent p) (f32_of_Z 100)) = Some l ->
  exists s c', glue_get_state p now c = Some (s, c') /\ s = cached c' /\ printable s /\
    (if Time.chVTTimeElapsedSinceX now (last_request c) <? 1000 then c' = c
     else last_request c' = now /\ cstr (charger_state s) = Power.GetChargerStatus p /\
       battery_volts s = Power.battery_volts p /\ adapter_volts s = Power.adapter_volts p /\
       adapter_current s = Power.adapter_current p /\ battery_current s = Power.charge_current p /\ battery_level s = l).
Proof.
  intros [Hl H0] Hi. unfold glue_get_state. change (Time.TIME_MS2I 100) with 1000.
  destruct (_ <? 1000); [do 2 eexists; split; [done|]; by repeat split|].
  rewrite Hi. cbn [mbind option_bind]. rewrite status_copied by done. cbn [mbind option_bind].
  pose proof (status_short p) as Hs.
  do 2 eexists. split; [done|]. split; [done|]. split.
  - split; [cbn; rewrite length_app, length_replicate; lia|]. cbn. apply elem_of_app. right. apply elem_of_replicate. split; [done|lia].
  - cbn. split; [done|]. split; [|done]. clear. unfold Power.GetChargerStatus.
    destruct (Power.configured p); [destruct (Power.charger_status p)|]; reflexivity.
Qed.

(** Whatever the power service reports between them, requests are answered with printable states. *)
Lemma requests_printable {C} (rs : list (Z * Power.power C)) : forall c, printable (cached c) ->
  Forall (fun r => is_Some (i32_of_f32 (f32_mul (Power.battery_percent r.2) (f32_of_Z 100)))) rs ->
  exists ss c', requests rs c = Some (ss, c') /\ Forall printable ss /\ length ss = length rs.
Proof.
  induction rs as [|[now p] rs IH]; intros c Hc Hr; [by exists [], c|]. apply Forall_cons in Hr as [[l Hl] Hr].
  destruct (get_state_spec p now c l Hc Hl) as (s & c1 & E & -> & Hp & _). cbn. rewrite E. cbn [mbind option_bind].
  destruct (IH c1 Hp Hr) as (ss & c2 & -> & Hs & Hn). cbn. do 2 eexists. split; [done|]. cbn. auto.
Qed.

Lemma initial_printable : printable (cached initial).
Proof. split; [done|]. by left. Qed.
End WebState.
